(* ===== verification/_CoqProject ===== *)
-Q . S2P
Prelude.v
HpFixed.v
HpSigned.v
Types.v
State.v
Ledger.v
Accounts.v
Nodes.v
Content.v
Auction.v
Jobs.v
Reputation.v
Measurements.v
Epoch.v
Rewards.v
EpochChange.v
Beacon.v
Executor.v
Invariants.v
Genesis.v
Env.v
Codec.v
Typing.v
Query.v
TxnStore.v
Worker.v
ConsensusExample.v
HashTree.v
ProofBuf.v
Blake3.v
Blake3Tree.v
Verifier.v
Streaming.v
Collecting.v
Forest.v
DirHasher.v
ByteHasher.v
ByteTree.v
ContentHash.v
Collectors.v
ContentSteps.v
Bucket.v
BucketWrite.v
BucketFaults.v
BucketUntrusted.v
AsyncTree.v
Phf.v
DirBucket.v
DirReader.v
DirWrite.v
DirStored.v
DirLookup.v
DirUntrusted.v
B3Example.v
DirExample.v
Example.v
Witnesses.v
