(* ===== verification/Prelude.v ===== *)
(** * Verification of the Lightning node

    Lightning ([src/]) is the node software of the Fleek network.  This library
    models three parts of it and proves what makes them correct.

    The application ([core/application], with [core/types], [lib/hp-fixed] and
    [core/reputation]) is a replicated state machine: consensus delivers blocks of
    transactions, every node executes them on the same tables, and the tables hold
    the token balances, the registry of staked nodes, the committee and the
    protocol that chooses the next one, the content registry, the jobs, the
    reputation of the nodes and the rewards.

    The execution worker ([core/consensus/src/execution]) brings the blocks to the
    application: on a validator in the order of Narwhal, on every other node from
    parcels that a quorum of the committee attested.

    The block store ([lib/b3fs]) hashes contents with BLAKE3 into trees of blocks,
    proves and verifies blocks against a root hash, and keeps files and directories on
    the disk.

    ** Reading the model

    Code becomes Gallina functions of the same names, with a short prefix where two
    types have a method of one name ([bh_update], [h_update]).  A handler is a
    computation of the monad [M] below over its state: [None] is a panic (the
    release profile aborts on panic and has no overflow checks), a [Revert] or an
    [Err] is a value.  A [u64] is an integer whose additions wrap, written
    [a +[64] b]; [HpUfixed] and [HpFixed] are their raw integers.  Tables are finite
    maps; a vector that is updated in place (the auction) keeps its swaps; a stack
    is a list with its top first.  The disk is a map from paths to bytes with a list
    of the operations that fail.  Third-party code is a class, its documented
    behaviour a class of laws, and a concrete instance satisfies the laws: [Ruint]
    (ruint), [Bigint] (num-bigint), [Host] (hashing, signatures, ABI decoding,
    shuffling, key order of hash maps), [Codec] (bincode, RLP), [ParcelHash] (the
    digests of parcels), [Platform] (the compression function of the blake3 crate
    and its parallel variants), [PhfPlatform] (SipHash and the random keys of the
    table of a directory), [BloomPlatform] (fastbloom-rs).  Traits of the source are classes too: [Application]
    is what the worker asks of the application, [HashTreeCollector] what a hasher
    does with the hashes of the tree, [WithCollector] and [WithDirCollector] what a
    writer asks of its collector, with an instance for each implementation.

    ** The files

    - [Prelude]: integers, the monad and its two program logics
      ([preserves] for what an operation does not change, [wp] for total
      correctness), sums over lists and maps, paths of relations, tactics and hint
      databases.
    - [HpFixed], [HpSigned]: [lib/hp-fixed].
    - [Types]: the data of [core/types] and of [fleek-crypto]'s transactions.
    - [State]: the tables, [StateExecutor] ([state/executor.rs]), and [Host].
    - [Ledger]: the abstract ledger, FLK in accounts and at nodes.
    - [Accounts], [Nodes], [Content], [Auction], [Jobs], [Measurements]: the
      handlers of [state/executor.rs] by the tables they work on.
    - [Reputation]: [core/reputation].
    - [Epoch], [Rewards], [EpochChange]: the epoch change of
      [state/executor/epoch_change.rs], its reward bound, and its composition.
    - [Beacon]: the committee selection beacon of [epoch_change.rs], the
      abstract protocol machine [vstep] and the refinement between them.
    - [Executor]: [execute_transaction] and [verify_transaction].
    - [Invariants]: what holds for every transaction.
    - [Genesis]: [core/types/src/genesis.rs], [apply_genesis_block].
    - [Env]: block execution, [env.rs] and [state/writer.rs].
    - [Codec]: blocks and transactions as bytes, [transaction.rs].
    - [Typing]: the tagged values of the metadata and the parameters fit their keys.
    - [Query]: the read-only queries of [state/query.rs] and [core/utils].
    - [TxnStore], [Worker], [ConsensusExample]: parcels and their store, the event
      loop of the execution worker, and a small network.
    - [HashTree], [ProofBuf]: positions in the array of a tree, walks, and proofs as
      bytes ([utils.rs], [collections/], [stream/] of [lib/b3fs]).
    - [Blake3], [Blake3Tree]: [hasher/b3.rs] and [hasher/iv.rs], and the tree over
      the chunks that they compute.
    - [Verifier], [Streaming], [Collecting]: [stream/verifier.rs]; its soundness, its
      completeness for generated proofs, and the collecting verifier against any
      peer.
    - [Forest], [DirHasher]: stacks of subtrees, and the hash of directories.
    - [ByteHasher], [ByteTree], [ContentHash], [Collectors], [ContentSteps]:
      [hasher/byte_hasher/mod.rs], its block and content hashers against the tree,
      for any collector, and the steps of small updates.
    - [Bucket], [BucketWrite], [BucketFaults], [BucketUntrusted], [AsyncTree]: the
      files of a bucket ([bucket/], [hasher/collector.rs],
      [collections/async_hashtree.rs]): the definitions, the trusted writer, failures
      of the disk, the untrusted writer, and the reader.
    - [Phf], [DirBucket], [DirReader]: the directories of a bucket ([bucket/dir/]):
      the table of names, the header and the writers, lookups and the stream of
      entries; also the iterator of [sync/bucket/dir/iter.rs].
    - [DirWrite], [DirStored], [DirLookup], [DirUntrusted]: the bytes that a writer
      leaves, the trusted writer with failures of the disk, what a reader finds in
      them, and the untrusted writer.
    - [B3Example], [DirExample]: the compression function of BLAKE3 with small
      contents, and small directories.
    - [Example], [Witnesses]: a small network with executable tests of the
      invariants, and the theorems with hypotheses applied to it.

    ** How the parts interact

    [Genesis.apply_genesis_block] fills the empty tables.  [Env.run] executes a
    block: for each transaction [Executor.verify_transaction], then
    [Executor.execute_transaction], which dispatches to the handlers and
    records the digest and the nonce.  When enough committee members signalled
    and the beacon is complete, the reveal timeout runs
    [Epoch.execute_epoch_change]: scores, rewards, content clean-up, the next
    committee by auction and shuffle, job reassignment.  [Worker.worker_step]
    submits blocks to any [Application].  In the block store a trusted writer
    ([Bucket.file_writer_new], [writer_write], [writer_commit]) feeds a
    [Blake3Hasher] whose collector is flushed to the header, an untrusted writer
    feeds a [BlockHasher] and an [IncrementalVerifier], and [AsyncTree] reads the
    header back and generates the proofs that a verifier accepts.  The directory
    writers ([DirBucket.insert_entry], [dir_commit]) append each entry to the header
    and give it to a [DirectoryHasher] or to an [IncrementalVerifier]; [DirReader]
    finds an entry through the filter and the table, or streams all of them.

    ** What is proved

    - Tokens: every transaction keeps the ledger well formed and conserves FLK
      up to exactly what it mints, bridges or slashes, but for a mint or a deposit
      that takes the total to 2^256 and may wrap a balance; each token handler moves
      what it should, once, for its owner; the rewards of an epoch are bounded by
      the shares of its emissions.
    - Registry: the key indices stay inverse to the node table; content and
      job tables stay inverse pairs.
    - Beacon: in every reachable state, under any interleaving, the protocol
      invariant holds; an epoch change is backed by signals of more than two
      thirds, sent in its reveal phase, and every commitment is opened by a matching reveal; the handlers
      refine the abstract machine on every branch.
    - Epoch change: it runs to its end on every well-formed state, so no
      assumption of the form "unwrap" fails, and leaves a well-formed state.
    - Execution: a reverted transaction leaves only bookkeeping; a transaction
      is never accepted twice.
    - Chain: genesis establishes the invariants, blocks are numbered and
      linked with one receipt per transaction that carries its outcome, and along every chain of blocks
      the registry and beacon invariants hold and every value has the type of its
      key.
    - Consensus execution: two workers with the same last block have the same
      application state; an edge node executes only what a quorum attested; the
      walk along the parcels ends and finds every chain, unless parcels precede each
      other in a circle; the ring of three maps implements three epochs; a parcel
      digest binds the bytes of the transactions, not their boundaries.
    - Hashing: the hash of a content is the root of the tree over its chunks for
      every platform and however the bytes arrive; the array of the tree is
      collected on the way; the incremental hasher of directories implements the
      reference.
    - Verification: a verifier accepts only hashes of the content of its root hash,
      up to collisions that the peer shows, and accepts all generated proofs.
    - Storage: what a trusted writer commits can be read back, whichever operations
      of the disk fail; a commit of an untrusted writer has stored the content of
      its hash, up to collisions that the peer shows; the reader serves the stored
      tree.
    - Directories: the table sends every name but the first to its entry; what a
      trusted writer commits is found by name and streamed in order, for every
      schedule of polls; an untrusted writer whose peer marks only the last entry
      has stored the directory of its hash, up to collisions, and a lemma shows what
      a peer can store that marks others.
    - Arithmetic and encoding: precision changes of fixed-point numbers, reputation
      scores between 0 and 100 for verified reports without a negative uptime; blocks
      survive their bytes.

    ** Bounds and fuel

    All definitions are total.  The loops that are not structural take fuel, which
    the callers set: the length of the input or of the stack ([quick_sort_nodes],
    [compress_blocks], [compress_subtree_wide], [condense], [h_pairs],
    [bh_subtrees], [bh_merge_loop], [split_hash_merge], [write_loop],
    [chunks_exact]), the width of a counter ([advance_parents], [shrink],
    [block_counter_loop], [dir_merge_loop]), the size hint of a walk ([walk]), the
    number of stored parcels ([connect], whose [Looping] marks the circle).  The search for the key of a table
    ([phf_finalize]) has no bound in the code; its theorems take a number of the
    random sequence that gives a table, and any larger fuel finds the table.  Where
    the fuel could run out the result
    is [None], and the theorems show that it does not.  Theorems that assume a width
    ([in_width], totals below 2^256, fewer than 2^32 nodes, contents below 2^60
    bytes or 2^32 blocks) say so; behaviour beyond is shown by lemmas where it
    matters (wrapping locks, panics of conversions, hashes past the first page of a
    header).

    ** Not modelled

    The other crates are asynchronous programs over third-party libraries
    (networking over QUIC, Narwhal, RocksDB and the state tree, Deno, SGX) and
    timers that submit the transactions handled here; they are not modelled, nor are
    the remote procedure calls, serialisation derives and metrics.  Of the block
    store, the synchronous copy (but for its directory iterator) and the services
    that transfer files are not modelled; the parallel join of the hashers computes
    the same function as the sequential one.  A write at an offset writes all its
    bytes or fails: the code ignores the number that [write_at] returns.  A lookup
    returns what it has read with the memory that holds it ([FoundEntry]): a content
    hash is in a buffer that the lookup frees, and what a caller reads there later is
    not modelled.  Floating-point numbers occur only as literals and configuration
    values and are represented by their decimal text.
    The root of the state tree and the checkpoint file are parameters of [Env]. *)

From stdpp Require Import base gmap list sorting strings numbers.
From Stdlib Require Import ZArith Lia.

Declare Scope lightning_scope.
Delimit Scope lightning_scope with lightning.
Open Scope Z_scope.

(** ** Machine-width integers

    The node is built with [panic = 'abort'] and without
    [overflow-checks], so the arithmetic of [u8 .. u128] wraps around. *)

Definition wrap (w z : Z) : Z := z mod 2 ^ w.

Definition u64_max : Z := 2 ^ 64 - 1.

Definition saturating_sub (a b : Z) : Z := Z.max 0 (a - b).

Notation "a +[ w ] b" := (wrap w (a + b))
  (at level 50, left associativity, format "a  +[ w ]  b") : lightning_scope.
Notation "a -[ w ] b" := (wrap w (a - b))
  (at level 50, left associativity, format "a  -[ w ]  b") : lightning_scope.

(** A value of an unsigned machine type of [w] bits. *)
Definition in_width (w z : Z) : Prop := 0 ≤ z < 2 ^ w.

Lemma wrap_small w z : in_width w z → wrap w z = z.
Proof. unfold wrap, in_width. intros. by apply Z.mod_small. Qed.

Lemma wrap_le w z : 0 ≤ w → 0 ≤ z → wrap w z ≤ z.
Proof. intros. unfold wrap. apply Z.mod_le; [done|]. by apply Z.pow_pos_nonneg. Qed.

Lemma wrap_in_width w z : 0 ≤ w → in_width w (wrap w z).
Proof.
  intros. unfold in_width, wrap. apply Z.mod_pos_bound.
  by apply Z.pow_pos_nonneg.
Qed.

Lemma wrap_wrap w z : 0 ≤ w → wrap w (wrap w z) = wrap w z.
Proof. intros. by apply wrap_small, wrap_in_width. Qed.

(** ** The effect of a transaction handler

    A handler reads and writes the tables of the application state and
    may abort the process ([unwrap], [expect], [unreachable!], a division
    by zero): [None] is the abort. *)

Definition M (S A : Type) : Type := S → option (A * S).

Global Instance M_ret {S} : MRet (M S) := λ A a s, Some (a, s).
Global Instance M_bind {S} : MBind (M S) := λ A B f m s,
  match m s with
  | Some (a, s') => f a s'
  | None => None
  end.

Definition get {S} : M S S := λ s, Some (s, s).
Definition modify {S} (f : S → S) : M S unit := λ s, Some (tt, f s).
Definition panic {S A} : M S A := λ _, None.

(** [Option::unwrap] and [Option::expect]. *)
Definition unwrap {S A} (o : option A) : M S A :=
  match o with
  | Some a => mret a
  | None => panic
  end.

(** A [for] loop over the items of an iterator. *)
Fixpoint for_each {S A} (f : A → M S unit) (l : list A) : M S unit :=
  match l with
  | [] => mret tt
  | x :: l => f x;; for_each f l
  end.

(** [Result<T, E>], and [match r { Ok(x) => x, Err(e) => return e }]. *)
Inductive Result (T E : Type) : Type :=
| Ok (t : T)
| Err (e : E).
Arguments Ok {_ _} _.
Arguments Err {_ _} _.

Notation "'let?' x := r 'in' k" :=
  (match r with Ok x => k | Err e => mret e end)
  (at level 10, x name, r at level 100, k at level 200) : lightning_scope.
Open Scope lightning_scope.

Definition is_some {A} (o : option A) : bool :=
  match o with Some _ => true | None => false end.
Definition is_none {A} (o : option A) : bool := negb (is_some o).

Lemma is_some_true {A} (o : option A) : is_some o = true ↔ is_Some o.
Proof.
  destruct o as [x|]; simpl; split; eauto; done.
Qed.
Lemma is_some_false {A} (o : option A) : is_some o = false ↔ o = None.
Proof. by destruct o. Qed.

(** [slice::contains]. *)
Definition contains `{EqDecision A} (l : list A) (x : A) : bool :=
  bool_decide (x ∈ l).

Lemma contains_true `{EqDecision A} (l : list A) x : contains l x = true ↔ x ∈ l.
Proof. apply bool_decide_eq_true. Qed.
Lemma contains_false `{EqDecision A} (l : list A) x : contains l x = false ↔ x ∉ l.
Proof. apply bool_decide_eq_false. Qed.

(** *** Automation for handlers *)

Ltac unfold_M :=
  cbv beta delta [mbind M_bind mret M_ret get modify panic unwrap] in *;
  cbv beta iota in *.

(** Follows every branch a handler can take in a hypothesis
    [handler s = Some (r, s')]. *)
Ltac run_M_go H :=
  lazymatch type of H with
  | Some _ = Some _ => simplify_eq
  | None = Some _ => discriminate H
  | _ =>
      match type of H with
      | context [match ?x with _ => _ end] =>
          lazymatch x with
          | context [match _ with _ => _ end] => fail
          | _ => destruct x eqn:?; cbv beta iota in H; run_M_go H
          end
      | _ => idtac
      end
  end.

Ltac run_M H :=
  cbv beta delta [mbind M_bind mret M_ret get modify panic unwrap] in H;
  cbv beta iota in H; run_M_go H.

(** Turns the tests a handler passed into propositions. *)
Ltac tests :=
  repeat match goal with
  | Hb : negb _ = false |- _ => apply negb_false_iff in Hb
  | Hb : negb _ = true |- _ => apply negb_true_iff in Hb
  | Hb : contains _ _ = true |- _ => apply contains_true in Hb
  | Hb : contains _ _ = false |- _ => apply contains_false in Hb
  | Hb : bool_decide _ = true |- _ => apply bool_decide_eq_true in Hb
  | Hb : bool_decide _ = false |- _ => apply bool_decide_eq_false in Hb
  | Hb : is_some _ = true |- _ => apply is_some_true in Hb
  | Hb : is_some _ = false |- _ => apply is_some_false in Hb
  | Hb : _ || _ = false |- _ => apply orb_false_iff in Hb as [? ?]
  | Hb : (_ ?= _) = Eq |- _ => apply Z.compare_eq in Hb
  | Hb : ¬ (_ ≠ _) |- _ => apply dec_stable in Hb
  end.

Lemma for_each_app {S A} (f : A → M S unit) (l k : list A) (s : S) :
  for_each f (l ++ k) s = (for_each f l;; for_each f k) s.
Proof.
  revert s. induction l as [|x l IH]; intros s; [done|].
  unfold_M. simpl. unfold_M. destruct (f x s) as [[[] s']|]; [|done].
  rewrite IH. by unfold_M.
Qed.

(** Loop rule: an invariant every iteration keeps holds at the end. *)
Lemma for_each_inv {S A} (I : S → Prop) (f : A → M S unit) (l : list A) (s s' : S) :
  (∀ x t t', x ∈ l → I t → f x t = Some (tt, t') → I t') →
  I s → for_each f l s = Some (tt, s') → I s'.
Proof.
  revert s. induction l as [|x l IH]; intros s Hstep HI Hrun; simpl in Hrun.
  - unfold_M. by simplify_eq.
  - unfold_M. destruct (f x s) as [[[] t]|] eqn:Hf; [|done].
    eapply IH; [| |exact Hrun].
    + intros y u u' Hy. apply Hstep. by right.
    + eapply Hstep; [by left|done|done].
Qed.

(** ** Total correctness *)

(** [m] completes from [s], with a result and a state in [Q]. *)
Definition wp {S A} (m : M S A) (Q : A → S → Prop) (s : S) : Prop :=
  ∃ a s', m s = Some (a, s') ∧ Q a s'.

Section wp.
Context {S : Type}.

Lemma wp_mono {A} (m : M S A) (P Q : A → S → Prop) s :
  wp m P s → (∀ a t, P a t → Q a t) → wp m Q s.
Proof. intros (a & t & Hm & HP) HPQ. exists a, t. eauto. Qed.
Lemma wp_ret {A} (a : A) Q (s : S) : Q a s → wp (mret a) Q s.
Proof. intros. by exists a, s. Qed.
Lemma wp_get Q (s : S) : Q s s → wp get Q s.
Proof. intros. by exists s, s. Qed.
Lemma wp_modify f Q (s : S) : Q tt (f s) → wp (modify f) Q s.
Proof. intros. by exists tt, (f s). Qed.
Lemma wp_unwrap {A} (o : option A) a Q (s : S) : o = Some a → Q a s → wp (unwrap o) Q s.
Proof. intros -> ?. by exists a, s. Qed.
Lemma wp_bind {A B} (m : M S A) (k : A → M S B) Q s :
  wp m (λ a, wp (k a) Q) s → wp (m ≫= k) Q s.
Proof.
  intros (a & t & Hm & b & u & Hk & HQ). exists b, u. split; [|done].
  unfold_M. by rewrite Hm.
Qed.

(** A loop whose iterations all complete and keep an invariant. *)
Lemma wp_for_each {A} (I : list A → S → Prop) (f : A → M S unit) (l : list A) s :
  (∀ x l t, I (x :: l) t → wp (f x) (λ _, I l) t) →
  I l s → wp (for_each f l) (λ _, I []) s.
Proof.
  intros Hstep. revert s. induction l as [|x l IH]; intros s HI; simpl.
  - by apply wp_ret.
  - apply wp_bind. eapply wp_mono; [by apply Hstep|]. intros [] t Ht. by apply IH.
Qed.
End wp.

(** ** Views a computation keeps *)

(** Every completed run of [m] keeps the view [f] of the state. *)
Definition preserves {S A X} (f : S → X) (m : M S A) : Prop :=
  ∀ s a s', m s = Some (a, s') → f s' = f s.

Section preserves.
Context {S X : Type} (f : S → X).

Lemma preserves_ret {A} (a : A) : preserves f (mret a).
Proof. intros s b s' Hrun. unfold_M. by simplify_eq. Qed.
Lemma preserves_get : preserves f get.
Proof. intros s b s' Hrun. unfold_M. by simplify_eq. Qed.
Lemma preserves_panic {A} : preserves f (panic : M S A).
Proof. done. Qed.
Lemma preserves_unwrap {A} (o : option A) : preserves f (unwrap o).
Proof. destruct o; [apply preserves_ret|apply preserves_panic]. Qed.
Lemma preserves_modify g : (∀ s, f (g s) = f s) → preserves f (modify g).
Proof. intros Hg s b s' Hrun. unfold_M. by simplify_eq. Qed.
Lemma preserves_bind {A C} (m : M S A) (k : A → M S C) :
  preserves f m → (∀ a, preserves f (k a)) → preserves f (m ≫= k).
Proof.
  intros Hm Hk s b s' Hrun. unfold_M. destruct (m s) as [[a t]|] eqn:E; [|done].
  etrans; [by eapply Hk|by eapply Hm].
Qed.
Lemma preserves_for_each {A} (g : A → M S unit) l :
  (∀ x, preserves f (g x)) → preserves f (for_each g l).
Proof.
  intros Hg. induction l as [|x l IH]; simpl; [apply preserves_ret|].
  by apply preserves_bind; [|intros []].
Qed.
End preserves.

(** A completed run also keeps the views the computation preserves. *)
Lemma wp_preserves {S A X} (f : S → X) (m : M S A) Q s :
  preserves f m → wp m Q s → wp m (λ a t, Q a t ∧ f t = f s) s.
Proof. intros Hf (a & t & Hm & HQ). exists a, t. split; [done|]. split; [done|by eapply Hf]. Qed.

Create HintDb preserves.
Ltac solve_preserves :=
  repeat first
    [ progress intros
    | solve [auto 2 with preserves nocore]
    | lazymatch goal with
      | |- preserves _ (mret _) => apply preserves_ret
      | |- preserves _ get => apply preserves_get
      | |- preserves _ panic => apply preserves_panic
      | |- preserves _ (unwrap _) => apply preserves_unwrap
      | |- preserves _ (mbind _ _) => apply preserves_bind
      | |- preserves _ (for_each _ _) => apply preserves_for_each
      | |- preserves _ (modify _) =>
          apply preserves_modify; intros; solve [done | by repeat case_match]
      | |- preserves _ (match ?x with _ => _ end) => destruct x
      end
    | progress cbv beta zeta
    | apply preserves_modify; intros; solve [done | by repeat case_match]
    | apply preserves_ret
    | apply preserves_bind ].

(** ** Sums over the rows of a table *)

Definition map_sum `{Countable K} {V} (f : V → Z) (m : gmap K V) : Z :=
  map_fold (λ _ v acc, f v + acc) 0 m.

Section map_sum.
Context `{Countable K} {V : Type} (f : V → Z).
Implicit Types m : gmap K V.

Lemma map_sum_empty : map_sum f (∅ : gmap K V) = 0.
Proof. by apply map_fold_empty. Qed.

Lemma map_sum_insert_None m k v :
  m !! k = None → map_sum f (<[k:=v]> m) = f v + map_sum f m.
Proof.
  intros. unfold map_sum. rewrite map_fold_insert_L; [done| |done].
  intros. lia.
Qed.

Lemma map_sum_delete m k v :
  m !! k = Some v → map_sum f m = f v + map_sum f (delete k m).
Proof.
  intros. rewrite <-(map_sum_insert_None (delete k m) k v) by apply lookup_delete_eq.
  by rewrite insert_delete_id.
Qed.

Lemma map_sum_insert m k v :
  map_sum f (<[k:=v]> m) = f v - from_option f 0 (m !! k) + map_sum f m.
Proof.
  destruct (m !! k) as [w|] eqn:Hk; simpl.
  - rewrite (map_sum_delete m k w Hk), <-insert_delete_eq,
      map_sum_insert_None by apply lookup_delete_eq. lia.
  - rewrite map_sum_insert_None by done. lia.
Qed.

Lemma map_sum_nonneg m : (∀ k v, m !! k = Some v → 0 ≤ f v) → 0 ≤ map_sum f m.
Proof.
  induction m as [|k v m Hk IH] using map_ind; intros Hpos.
  - by rewrite map_sum_empty.
  - rewrite map_sum_insert_None by done.
    assert (0 ≤ f v) by (apply (Hpos k); by rewrite lookup_insert_eq).
    assert (0 ≤ map_sum f m); [|lia]. apply IH. intros j w Hj.
    apply (Hpos j). rewrite lookup_insert_ne; [done|congruence].
Qed.

Lemma map_sum_lookup_le m k v :
  (∀ k v, m !! k = Some v → 0 ≤ f v) → m !! k = Some v → f v ≤ map_sum f m.
Proof.
  intros Hpos Hk. rewrite (map_sum_delete m k v Hk).
  assert (0 ≤ map_sum f (delete k m)); [|lia].
  apply map_sum_nonneg. intros j w Hj. apply (Hpos j).
  by apply lookup_delete_Some in Hj as [_ ?].
Qed.
End map_sum.

(** Deleting a list of keys one by one keeps the rows of the other keys. *)
Lemma foldl_delete_filter `{Countable K} {V} (l : list K) (m : gmap K V) :
  foldl (λ m k, delete k m) m l = filter (λ kv, kv.1 ∉ l) m.
Proof.
  revert m. induction l as [|x l IH]; intros m; simpl.
  - symmetry. apply map_filter_id. intros. simpl. apply not_elem_of_nil.
  - rewrite IH. apply map_eq. intros j. apply option_eq. intros v.
    rewrite !map_lookup_filter_Some, lookup_delete_Some, not_elem_of_cons. simpl.
    naive_solver.
Qed.

(** Writing a list of rows with different keys one by one. *)
Lemma foldl_insert_union `{Countable K} {V} (l : list (K * V)) (m : gmap K V) :
  NoDup l.*1 →
  foldl (λ m r, <[r.1:=r.2]> m) m l = list_to_map l ∪ m.
Proof.
  revert m. induction l as [|[k v] l IH]; intros m; simpl.
  - intros _. by rewrite (left_id_L ∅ (∪)).
  - intros [Hk Hl]%list.NoDup_cons. rewrite IH by done.
    rewrite <-insert_union_r by (by apply not_elem_of_list_to_map_1).
    by rewrite insert_union_l.
Qed.

(** A loop that only writes is a fold over its items. *)
Lemma for_each_modify {S A} (f : A → S → S) (l : list A) (s : S) :
  for_each (λ x, modify (f x)) l s = Some (tt, foldl (λ s x, f x s) s l).
Proof.
  revert s. induction l as [|x l IH]; intros s; [done|].
  simpl. unfold_M. apply IH.
Qed.

(** ** Sums over lists *)

Definition zsum {A} (f : A → Z) (l : list A) : Z := foldr (λ x acc, f x + acc) 0 l.

Lemma zsum_perm {A} (f : A → Z) (l k : list A) : l ≡ₚ k → zsum f l = zsum f k.
Proof. unfold zsum. induction 1; simpl; lia. Qed.

Lemma zsum_le {A} (f g : A → Z) (l : list A) :
  (∀ x, x ∈ l → f x ≤ g x) → zsum f l ≤ zsum g l.
Proof.
  unfold zsum. induction l as [|x l IH]; intros Hle; simpl; [lia|].
  pose proof (Hle x ltac:(by left)). specialize (IH ltac:(intros; apply Hle; by right)). lia.
Qed.

Lemma zsum_ext {A} (f g : A → Z) (l : list A) :
  (∀ x, x ∈ l → f x = g x) → zsum f l = zsum g l.
Proof.
  intros Heq. apply Z.le_antisymm; apply zsum_le; intros x Hx; by rewrite Heq.
Qed.

Lemma zsum_nonneg {A} (f : A → Z) (l : list A) :
  (∀ x, x ∈ l → 0 ≤ f x) → 0 ≤ zsum f l.
Proof.
  intros Hf. apply (Z.le_trans _ (zsum (λ _, 0) l)).
  - clear. unfold zsum. induction l; simpl; lia.
  - by apply zsum_le.
Qed.

Lemma zsum_fmap {A B} (f : B → Z) (g : A → B) (l : list A) :
  zsum f (g <$> l) = zsum (λ x, f (g x)) l.
Proof. induction l as [|x l IH]; [done|]. rewrite fmap_cons. unfold zsum in *. simpl. by rewrite IH. Qed.

Lemma zsum_elem_le {A} (f : A → Z) (l : list A) (x : A) :
  (∀ y, y ∈ l → 0 ≤ f y) → x ∈ l → f x ≤ zsum f l.
Proof.
  induction l as [|y l IH]; intros Hf Hx; [by apply not_elem_of_nil in Hx|].
  assert (0 ≤ zsum f l) by (apply zsum_nonneg; intros; apply Hf; by right).
  pose proof (Hf y ltac:(by left)). unfold zsum in *. simpl.
  apply list.elem_of_cons in Hx as [->|Hx]; [lia|].
  specialize (IH ltac:(intros; apply Hf; by right) Hx). lia.
Qed.

(** Truncating every term of a sum of products loses at most the remainder. *)
Lemma zsum_div {A} (f : A → Z) (c d : Z) (l : list A) :
  0 < d → zsum (λ x, c * f x / d) l ≤ c * zsum f l / d.
Proof.
  intros Hd. apply Z.div_le_lower_bound; [done|].
  unfold zsum. induction l as [|x l IH]; simpl; [lia|].
  pose proof (Z.mul_div_le (c * f x) d Hd). lia.
Qed.

Lemma map_sum_list `{Countable K} {V} (f : V → Z) (m : gmap K V) (ks : list K) :
  NoDup ks → (∀ k, k ∈ ks ↔ is_Some (m !! k)) →
  map_sum f m = zsum (λ k, from_option f 0 (m !! k)) ks.
Proof.
  revert m. induction ks as [|k ks IH]; intros m Hnd Hks.
  - assert (m = ∅) as ->; [|apply map_sum_empty]. apply map_empty. intros k.
    apply eq_None_not_Some. rewrite <-Hks. apply not_elem_of_nil.
  - apply list.NoDup_cons in Hnd as [Hk Hnd].
    destruct (proj1 (Hks k) ltac:(by left)) as [v Hv]. simpl. rewrite Hv. simpl.
    rewrite (map_sum_delete f m k v Hv), (IH (delete k m) Hnd).
    + f_equal. apply zsum_ext. intros j Hj. rewrite lookup_delete_ne; [done|].
      intros ->. done.
    + intros j. rewrite lookup_delete_is_Some, <-Hks, list.elem_of_cons. naive_solver.
Qed.

Lemma map_sum_rows {K V} `{Countable K} (f : V → Z) (m m' : gmap K V) :
  (∀ k, from_option f 0 (m' !! k) = from_option f 0 (m !! k)) →
  (∀ k, is_Some (m' !! k) ↔ is_Some (m !! k)) → map_sum f m' = map_sum f m.
Proof.
  intros Heq Hdom.
  rewrite (map_sum_list f m' (map_to_list m).*1), (map_sum_list f m (map_to_list m).*1);
    [by apply zsum_ext|apply NoDup_fst_map_to_list| |apply NoDup_fst_map_to_list|].
  all: intros k; rewrite list_elem_of_fmap; rewrite ?Hdom; split.
  all: try (intros ([j v] & -> & Hj%elem_of_map_to_list); eauto).
  all: intros [v Hv]; exists (k, v); by rewrite elem_of_map_to_list.
Qed.

(** ** Paths of a relation *)

Section paths.
Context {A : Type} `{EqDecision A} (R : relation A).

(** The points of a path, all of which go on, are different, or the path has a cycle. *)
Lemma nsteps_points n x y :
  nsteps R n x y →
  ∃ l, length l = n ∧ (∀ z, z ∈ l → rtc R x z ∧ ∃ z', R z z') ∧
    (NoDup l ∨ ∃ z, rtc R x z ∧ tc R z z).
Proof.
  induction 1 as [x|n x z y Hxz Hzy (l & Hlen & Hl & Hcase)].
  { exists []. split_and!; [done|by intros z Hz%elem_of_nil|left; constructor]. }
  exists (x :: l). split_and!; [simpl; by rewrite Hlen| |].
  - intros w [->|Hw]%elem_of_cons; [split; [done|by exists z]|]. destruct (Hl w Hw) as [? ?]. split; [by eapply rtc_l|done].
  - destruct Hcase as [Hnd|(w & Hzw & Hww)]; [|right; exists w; split; [by eapply rtc_l|done]].
    destruct (decide (x ∈ l)) as [Hx|Hx]; [right|left; by constructor].
    exists x. split; [done|]. destruct (Hl x Hx) as [Hzx _]. by eapply tc_rtc_r; [apply tc_once|].
Qed.

(** Who leads to a cycle goes on for ever. *)
Lemma tc_endless x y n : tc R x x → tc R y x → ∃ z, nsteps R n y z.
Proof.
  intros Hx. revert y. induction n as [|n IH]; intros y Hy; [by eexists; constructor|].
  destruct Hy as [y x' Hyx|y z x' Hyz Hzx].
  - destruct (IH x' Hx) as [z Hz]. exists z. by econstructor.
  - destruct (IH z Hzx) as [w Hw]. exists w. by econstructor.
Qed.
End paths.
