(* ===== verification/HpFixed.v ===== *)
(** * HpFixed: the fixed-point numbers of [lib/hp-fixed]

    [HpUfixed<P>] is an unsigned 256-bit integer that counts units of
    [10^-P] ([unsigned.rs]).  A value is modelled by its raw integer; the
    precision [P] is an argument of the operations that use it.

    The 256-bit integer itself is [ruint::aliases::U256], a dependency: its
    operations are the class [Ruint], what [ruint] documents about them is
    the class [RuintLaws], and [ruint_wrapping] is a concrete instance. *)

From S2P Require Import Prelude.
From stdpp Require Import base list strings pretty numbers.
From Stdlib Require Import ZArith Lia String Ascii.
Open Scope Z_scope.

(** The operators of [U256] that the code uses. *)
Class Ruint := {
  u256_add : Z → Z → Z;
  u256_sub : Z → Z → Z;
  u256_mul : Z → Z → Z;
  u256_div : Z → Z → Z;
  u256_rem : Z → Z → Z;
  u256_pow : Z → Z → Z;
  u256_from_str_radix_10 : string → option Z;
  u256_from_str : string → option Z;
  u256_display : Z → string
}.

(** The value of a string of decimal digits. *)
Definition digit_of (c : ascii) : option Z :=
  let n := Z.of_nat (nat_of_ascii c) in
  if bool_decide (48 ≤ n ≤ 57) then Some (n - 48) else None.

Fixpoint decimal_from (acc : Z) (s : string) : option Z :=
  match s with
  | EmptyString => Some acc
  | String c s => match digit_of c with
                  | Some d => decimal_from (10 * acc + d) s
                  | None => None
                  end
  end.

Definition decimal_value (s : string) : option Z :=
  match s with
  | EmptyString => None
  | _ => decimal_from 0 s
  end.

(** [ruint]: the operators wrap around at [2^256]; a division by zero
    panics, so nothing is known of its result; a decimal numeral is parsed
    to its value and printing gives the decimal numeral. *)
Class RuintLaws (R : Ruint) : Prop := {
  u256_add_spec a b : u256_add a b = wrap 256 (a + b);
  u256_sub_spec a b : u256_sub a b = wrap 256 (a - b);
  u256_mul_spec a b : u256_mul a b = wrap 256 (a * b);
  u256_div_spec a b : b ≠ 0 → u256_div a b = a / b;
  u256_rem_spec a b : b ≠ 0 → u256_rem a b = a mod b;
  u256_pow_spec a e : 0 ≤ e → u256_pow a e = wrap 256 (a ^ e);
  u256_from_str_spec s v :
    decimal_value s = Some v → v < 2 ^ 256 →
    u256_from_str_radix_10 s = Some v ∧ u256_from_str s = Some v;
  u256_display_spec v : 0 ≤ v → u256_display v = pretty v
}.

(** The instance the witnesses evaluate with. *)
Definition ruint_wrapping : Ruint := {|
  u256_add a b := wrap 256 (a + b);
  u256_sub a b := wrap 256 (a - b);
  u256_mul a b := wrap 256 (a * b);
  u256_div a b := a / b;
  u256_rem a b := a mod b;
  u256_pow a e := wrap 256 (a ^ e);
  u256_from_str_radix_10 s := decimal_value s;
  u256_from_str s := decimal_value s;
  u256_display v := pretty v
|}.

Lemma ruint_wrapping_laws : RuintLaws ruint_wrapping.
Proof. by split. Qed.

(** Errors of the fallible conversions ([lib.rs]). *)
Module HpFixedConversionError.
Inductive HpFixedConversionError : Type :=
| PrecisionLevelNotSupported
| Overflow
| Underflow
| DivisionError
| FloatParseError
| ParseError.
End HpFixedConversionError.
Abbreviation HpFixedConversionError := HpFixedConversionError.HpFixedConversionError.

Section HpUfixed.
  Context {R : Ruint}.

(** [U256::from(10u32).pow(P)] *)
Definition hp_scale (P : Z) : Z := u256_pow 10 P.

Definition zero : Z := 0.

(** [convert_precision::<Q>] of an [HpUfixed<P>]; [10u128.pow(_)] wraps at
    128 bits. *)
Definition convert_precision (P Q v : Z) : Z :=
  let precision_diff := P - Q in
  if bool_decide (precision_diff > 0)
  then u256_div v (wrap 128 (10 ^ precision_diff))
  else u256_mul v (wrap 128 (10 ^ (- precision_diff))).

Definition hp_min (a b : Z) : Z := if bool_decide (a ≤ b) then a else b.
Definition hp_max (a b : Z) : Z := if bool_decide (b ≤ a) then a else b.

Definition floor (P v : Z) : Z :=
  let scale := hp_scale P in
  let num := u256_div v scale in
  u256_mul num scale.

(** The four [Add], [Sub] and [Mul] impls (owned and borrowed operands) and
    the assigning forms have one body each. *)
Definition hp_add (a b : Z) : Z := u256_add a b.
Definition hp_sub (a b : Z) : Z := u256_sub a b.
Definition hp_mul (P a b : Z) : Z := u256_div (u256_mul a b) (hp_scale P).

(** [Div] panics on a zero divisor. *)
Definition hp_div (P a b : Z) : option Z :=
  if bool_decide (b = 0) then None
  else Some (u256_div (u256_mul a (hp_scale P)) b).

Definition add_assign (a b : Z) : Z := u256_add a b.
Definition sub_assign (a b : Z) : Z := u256_sub a b.

(** [From<u16>], [From<u32>], [From<u64>], [From<u128>], [From<usize>]. *)
Definition hp_from_uint (P v : Z) : Z := u256_mul v (hp_scale P).

(** [TryFrom<HpUfixed<P>>] for the unsigned type of [w] bits. *)
Definition hp_try_into_uint (w P v : Z) : Result Z HpFixedConversionError :=
  let divisor := hp_scale P in
  if bool_decide (divisor = 0) then Err HpFixedConversionError.DivisionError
  else
    let interim := u256_div v divisor in
    if bool_decide (interim < 2 ^ w) then Ok interim
    else Err HpFixedConversionError.Overflow.

(** [From<EthersU256>] and [From<HpUfixed<P>> for EthersU256] keep the raw
    integer. *)
Definition hp_from_ethers (v : Z) : Z := v.
Definition ethers_from_hp (v : Z) : Z := v.

(** *** [From<f64>]

    The argument is the text [format!("{value}")] prints. *)

Definition dot : ascii := "."%char.

(** [s.split('.')] for a text with at most one dot. *)
Fixpoint split_dot (s : string) : string * option string :=
  match s with
  | EmptyString => (EmptyString, None)
  | String c s =>
      if bool_decide (c = dot) then (EmptyString, Some s)
      else let '(i, f) := split_dot s in (String c i, f)
  end.

Fixpoint repeat_zero (n : nat) : string :=
  match n with
  | O => EmptyString
  | S n => String "0"%char (repeat_zero n)
  end.

(** Pad with ['0'] up to [P] digits, then truncate to [P] digits. *)
Definition pad_fraction (P : nat) (f : string) : string :=
  String.substring 0 P (String.append f (repeat_zero (P - String.length f))).

Definition get_float_parts (P : nat) (s : string) : option (Z * Z) :=
  let '(i, f) := split_dot s in
  integer_part ← u256_from_str_radix_10 i;
  fraction_part ← match f with
                  | Some f => u256_from_str_radix_10 (pad_fraction P f)
                  | None => Some 0
                  end;
  Some (integer_part, fraction_part).

Definition hp_from_f64 (P : nat) (s : string) : option Z :=
  '(i, f) ← get_float_parts P s;
  Some (u256_add (u256_mul i (hp_scale (Z.of_nat P))) f).

(** The text [TryFrom<HpUfixed<P>> for f64] hands to [parse::<f64>]. *)
Definition hp_to_f64_text (P v : Z) : string :=
  let divisor := hp_scale P in
  let fraction_part := u256_rem v divisor in
  let integer_part := u256_div v divisor in
  String.append (u256_display integer_part) (String dot (u256_display fraction_part)).

(** [FromStr] and [Display]: the raw integer in decimal. *)
Definition hp_from_str (s : string) : Result Z HpFixedConversionError :=
  match u256_from_str s with
  | Some v => Ok v
  | None => Err HpFixedConversionError.ParseError
  end.

Definition hp_display (v : Z) : string := u256_display v.

End HpUfixed.

(** ** Decimal text *)

Lemma decimal_from_zeros acc n :
  decimal_from acc (repeat_zero n) = Some (acc * 10 ^ Z.of_nat n).
Proof.
  revert acc. induction n as [|n IH]; intros acc; [simpl; f_equal; lia|].
  cbn [repeat_zero decimal_from]. change (digit_of "0"%char) with (Some 0). cbv iota.
  rewrite IH. f_equal. rewrite Nat2Z.inj_succ, Z.pow_succ_r by lia. lia.
Qed.

Lemma decimal_from_append acc s t :
  decimal_from acc (String.append s t) = decimal_from acc s ≫= λ v, decimal_from v t.
Proof.
  revert acc. induction s as [|c s IH]; intros acc; simpl; [done|].
  destruct (digit_of c); simpl; [apply IH|done].
Qed.

Lemma substring_full s n :
  String.length s = n → String.substring 0 n s = s.
Proof.
  revert n. induction s as [|c s IH]; intros [|n] Hn; simpl in *; try done.
  f_equal. apply IH. lia.
Qed.

Lemma length_append_string s t :
  String.length (String.append s t) = (String.length s + String.length t)%nat.
Proof. induction s as [|c s IH]; [done|]. simpl. by rewrite IH. Qed.

Lemma length_repeat_zero n : String.length (repeat_zero n) = n.
Proof. induction n; simpl; lia. Qed.

(** A fraction of at most [P] digits is padded to exactly [P]. *)
Lemma decimal_value_pad P f v :
  decimal_value f = Some v → (String.length f ≤ P)%nat →
  decimal_value (pad_fraction P f)
  = Some (v * 10 ^ Z.of_nat (P - String.length f)).
Proof.
  intros Hf Hlen. unfold pad_fraction.
  rewrite substring_full by (rewrite length_append_string, length_repeat_zero; lia).
  destruct f as [|c f]; [done|]. unfold decimal_value in *.
  change (String.append (String c f) ?t) with (String c (String.append f t)).
  change (decimal_from 0 (String c (String.append f ?t)))
    with (decimal_from 0 (String.append (String c f) t)).
  rewrite decimal_from_append, Hf. simpl. apply decimal_from_zeros.
Qed.

(** ** Arithmetic *)

Section HpUfixed_laws.
Context {R : Ruint} {L : RuintLaws R}.

Lemma pow10_u128 d : 0 ≤ d ≤ 38 → wrap 128 (10 ^ d) = 10 ^ d ∧ 0 < 10 ^ d.
Proof.
  intros Hd. assert (10 ^ d ≤ 10 ^ 38) by (apply Z.pow_le_mono_r; lia).
  assert (0 < 10 ^ d) by (apply Z.pow_pos_nonneg; lia).
  split; [|done]. apply wrap_small. split; [lia|].
  apply (Z.le_lt_trans _ (10 ^ 38)); [done|reflexivity].
Qed.

Lemma hp_scale_eq P : 0 ≤ P ≤ 77 → hp_scale P = 10 ^ P ∧ 0 < 10 ^ P.
Proof.
  intros HP. assert (10 ^ P ≤ 10 ^ 77) by (apply Z.pow_le_mono_r; lia).
  assert (0 < 10 ^ P) by (apply Z.pow_pos_nonneg; lia).
  split; [|done]. unfold hp_scale. rewrite u256_pow_spec by lia.
  apply wrap_small. split; [lia|].
  apply (Z.le_lt_trans _ (10 ^ 77)); [done|reflexivity].
Qed.

Lemma hp_add_exact a b : in_width 256 (a + b) → hp_add a b = a + b.
Proof. intros. unfold hp_add. rewrite u256_add_spec. by apply wrap_small. Qed.

Lemma hp_sub_exact a b : in_width 256 a → 0 ≤ b ≤ a → hp_sub a b = a - b.
Proof.
  intros [??] ?. unfold hp_sub. rewrite u256_sub_spec.
  apply wrap_small. unfold in_width. lia.
Qed.

Lemma convert_up P Q v :
  0 ≤ Q - P ≤ 38 → in_width 256 (v * 10 ^ (Q - P)) →
  convert_precision P Q v = v * 10 ^ (Q - P).
Proof.
  intros HPQ Hv. unfold convert_precision. rewrite bool_decide_eq_false_2 by lia.
  replace (- (P - Q)) with (Q - P) by lia.
  destruct (pow10_u128 (Q - P)) as [-> _]; [lia|].
  rewrite u256_mul_spec. by apply wrap_small.
Qed.

Lemma convert_down P Q v :
  0 < P - Q ≤ 38 → convert_precision P Q v = v / 10 ^ (P - Q).
Proof.
  intros HPQ. unfold convert_precision. rewrite bool_decide_eq_true_2 by lia.
  destruct (pow10_u128 (P - Q)) as [-> ?]; [lia|]. apply u256_div_spec. lia.
Qed.

(** Raising the precision of a fixed-point number and lowering it
    again is the identity as long as the scaled value fits 256 bits. *)
Theorem convert_precision_roundtrip P Q v :
  0 ≤ Q - P ≤ 38 → 0 ≤ v → in_width 256 (v * 10 ^ (Q - P)) →
  convert_precision Q P (convert_precision P Q v) = v.
Proof.
  intros HPQ Hv Hw. rewrite (convert_up P Q) by done.
  destruct (decide (Q = P)) as [->|].
  - rewrite Z.sub_diag, Z.pow_0_r, Z.mul_1_r in *.
    rewrite convert_up; rewrite ?Z.sub_diag, ?Z.pow_0_r, ?Z.mul_1_r; [done|lia|done].
  - rewrite convert_down by lia. apply Z.div_mul.
    destruct (pow10_u128 (Q - P)); lia.
Qed.

(** Lowering the precision rounds towards zero: converting back never
    yields more than the original amount and loses less than one unit of
    the coarser precision. *)
Theorem convert_precision_truncates P Q v :
  0 < P - Q ≤ 38 → in_width 256 v →
  let v' := convert_precision Q P (convert_precision P Q v) in
  v' ≤ v < v' + 10 ^ (P - Q).
Proof.
  intros HPQ [Hv Hv']. cbv zeta. rewrite (convert_down P Q) by done.
  destruct (pow10_u128 (P - Q)) as [_ Hd]; [lia|].
  pose proof (Z.div_mod v (10 ^ (P - Q)) ltac:(lia)) as Hdm.
  pose proof (Z.mod_pos_bound v (10 ^ (P - Q)) Hd) as Hm.
  rewrite convert_up; [lia|lia|]. split; [|lia].
  apply Z.mul_nonneg_nonneg; [by apply Z.div_pos|lia].
Qed.

Lemma hp_div_exact P a b q :
  0 ≤ P ≤ 77 → in_width 256 (a * 10 ^ P) → hp_div P a b = Some q →
  b ≠ 0 ∧ q = a * 10 ^ P / b.
Proof.
  intros HP Ha. unfold hp_div. case_bool_decide as Hb; [done|]. intros [= <-].
  destruct (hp_scale_eq P HP) as [-> _].
  rewrite u256_mul_spec, wrap_small by done. by rewrite u256_div_spec.
Qed.

Lemma hp_div_eq P a b :
  0 ≤ P ≤ 77 → in_width 256 (a * 10 ^ P) → b ≠ 0 → hp_div P a b = Some (a * 10 ^ P / b).
Proof.
  intros HP Ha Hb. destruct (hp_div P a b) as [q|] eqn:Hq.
  - by destruct (hp_div_exact P a b q HP Ha Hq) as [_ ->].
  - unfold hp_div in Hq. by rewrite bool_decide_eq_false_2 in Hq.
Qed.

Lemma hp_mul_exact P a b :
  0 ≤ P ≤ 77 → in_width 256 (a * b) → hp_mul P a b = a * b / 10 ^ P.
Proof.
  intros HP Ha. unfold hp_mul. destruct (hp_scale_eq P HP) as [-> ?].
  rewrite u256_mul_spec, wrap_small by done. rewrite u256_div_spec by lia. done.
Qed.

(** Dividing and multiplying back by the same number loses at most one
    unit in the last place plus the divisor's whole part, and never creates
    value. *)
Theorem hp_div_mul_bound P a b q :
  0 ≤ P ≤ 77 → 0 ≤ a → 0 < b → in_width 256 (a * 10 ^ P) →
  hp_div P a b = Some q →
  hp_mul P q b ≤ a ≤ hp_mul P q b + b / 10 ^ P + 1.
Proof.
  intros HP Ha Hb Hw Hq. apply hp_div_exact in Hq as [_ ->]; [|done..].
  destruct (hp_scale_eq P HP) as [_ HS]. set (S := 10 ^ P) in *.
  pose proof (Z.div_mod (a * S) b ltac:(lia)) as Hdm.
  pose proof (Z.mod_pos_bound (a * S) b Hb) as Hm.
  assert (0 ≤ a * S / b * b) by
    (apply Z.mul_nonneg_nonneg; [apply Z.div_pos; lia|lia]).
  rewrite hp_mul_exact; [|done|destruct Hw; split; lia].
  change (10 ^ P) with S.
  set (x := a * S / b * b) in *. replace (b * (a * S / b)) with x in Hdm by lia.
  pose proof (Z.div_mod x S ltac:(lia)). pose proof (Z.mod_pos_bound x S HS).
  pose proof (Z.div_mod b S ltac:(lia)). pose proof (Z.mod_pos_bound b S HS).
  split; nia.
Qed.

(** An integer converted to a fixed-point number and back is
    unchanged, for every unsigned width and precision in use. *)
Theorem hp_uint_roundtrip w P v :
  0 ≤ P ≤ 38 → 0 ≤ w ≤ 128 → in_width w v →
  hp_try_into_uint w P (hp_from_uint P v) = Ok v.
Proof.
  intros HP Hw [Hv Hv']. unfold hp_try_into_uint, hp_from_uint.
  destruct (hp_scale_eq P) as [-> ?]; [lia|].
  assert (10 ^ P ≤ 10 ^ 38) by (apply Z.pow_le_mono_r; lia).
  assert (2 ^ w ≤ 2 ^ 128) by (apply Z.pow_le_mono_r; lia).
  assert (2 ^ 128 * 10 ^ 38 < 2 ^ 256) by reflexivity.
  rewrite bool_decide_eq_false_2 by lia.
  rewrite u256_mul_spec, wrap_small by (split; nia).
  rewrite u256_div_spec, Z.div_mul by lia. by rewrite bool_decide_eq_true_2.
Qed.

Lemma hp_from_uint_exact P v :
  0 ≤ P ≤ 77 → in_width 256 (v * 10 ^ P) → hp_from_uint P v = v * 10 ^ P.
Proof.
  intros HP Hv. unfold hp_from_uint. destruct (hp_scale_eq P HP) as [-> _].
  rewrite u256_mul_spec. by apply wrap_small.
Qed.

Lemma hp_try_into_uint_exact w P v :
  0 ≤ P ≤ 77 → v / 10 ^ P < 2 ^ w → hp_try_into_uint w P v = Ok (v / 10 ^ P).
Proof.
  intros HP Hv. unfold hp_try_into_uint. destruct (hp_scale_eq P HP) as [-> ?].
  rewrite bool_decide_eq_false_2, u256_div_spec by lia. by rewrite bool_decide_eq_true_2.
Qed.

(** The value of a literal at precision 18. *)
Lemma hp_literal s vi vf :
  (∃ i f, split_dot s = (i, f) ∧ decimal_value i = Some vi ∧
    from_option (λ f, decimal_value (pad_fraction 18 f)) (Some 0) f = Some vf) →
  0 ≤ vi < 2 ^ 64 → 0 ≤ vf < 2 ^ 64 →
  hp_from_f64 18 s = Some (vi * 10 ^ 18 + vf).
Proof.
  intros (i & f & Hs & Hi & Hf) Hvi Hvf. unfold hp_from_f64, get_float_parts. rewrite Hs.
  destruct (u256_from_str_spec i vi Hi) as [-> _]; [lia|]. cbn [mbind option_bind].
  assert (match f with
          | Some f => u256_from_str_radix_10 (pad_fraction 18 f)
          | None => Some 0
          end = Some vf) as ->.
  { destruct f as [f|]; simpl in Hf; [|congruence].
    destruct (u256_from_str_spec _ _ Hf) as [-> _]; [lia|done]. }
  cbn [mbind option_bind]. destruct (hp_scale_eq 18) as [HS _]; [lia|].
  change (Z.of_nat 18) with 18. rewrite HS, u256_mul_spec, u256_add_spec.
  rewrite (wrap_small 256 (vi * _)) by (unfold in_width; lia).
  by rewrite wrap_small by (unfold in_width; lia).
Qed.

(** A decimal literal with at most [P] fraction digits is converted
    exactly. *)
Lemma hp_from_f64_exact P s i f vi vf :
  (P ≤ 77)%nat → split_dot s = (i, Some f) →
  decimal_value i = Some vi → decimal_value f = Some vf →
  (String.length f ≤ P)%nat → 0 ≤ vi → 0 ≤ vf →
  vi * 10 ^ Z.of_nat P + vf * 10 ^ Z.of_nat (P - String.length f) < 2 ^ 256 →
  hp_from_f64 P s
  = Some (vi * 10 ^ Z.of_nat P + vf * 10 ^ Z.of_nat (P - String.length f)).
Proof.
  intros HP Hs Hi Hf Hlen Hvi Hvf Hw. unfold hp_from_f64, get_float_parts.
  rewrite Hs. destruct (hp_scale_eq (Z.of_nat P)) as [Hsc ?]; [lia|].
  assert (0 < 10 ^ Z.of_nat (P - String.length f)) by (apply Z.pow_pos_nonneg; lia).
  destruct (u256_from_str_spec i vi Hi) as [-> _]; [nia|].
  destruct (u256_from_str_spec _ _ (decimal_value_pad P f vf Hf Hlen)) as [Hp _]; [nia|].
  simpl. rewrite Hp. simpl. rewrite Hsc, u256_mul_spec, u256_add_spec.
  f_equal. rewrite (wrap_small 256 (vi * _)) by (split; nia).
  apply wrap_small. split; nia.
Qed.
End HpUfixed_laws.

(** The conversion to [f64] drops the leading zeros of the fraction: the
    text of 1.05 at precision 6 reads 1.5. *)
Lemma hp_to_f64_drops_zeros :
  @hp_to_f64_text ruint_wrapping 6 1050000 = "1.50000"%string.
Proof. vm_compute. reflexivity. Qed.

(** An addition past [2^256 - 1] wraps around silently. *)
Lemma hp_add_wraps : @hp_add ruint_wrapping (2 ^ 256 - 1) 2 = 1.
Proof. vm_compute. reflexivity. Qed.
