(* ===== verification/HpSigned.v ===== *)
(** * HpSigned: the signed fixed-point numbers of [lib/hp-fixed]

    [HpFixed<P>] ([signed.rs]) is a [num_bigint::BigInt] that counts units of
    [10^-P].  As in [HpFixed], a value is its raw integer and the precision is
    an argument.  The big integer is a dependency: its operators are the class
    [Bigint], what [num-bigint] documents of them the class [BigintLaws]. *)

From S2P Require Import Prelude HpFixed.
From stdpp Require Import base list strings pretty numbers.
From Stdlib Require Import ZArith Lia String Ascii.
Open Scope Z_scope.

Class Bigint := {
  big_add : Z → Z → Z;
  big_sub : Z → Z → Z;
  big_mul : Z → Z → Z;
  big_div : Z → Z → Z;
  big_rem : Z → Z → Z;
  big_abs : Z → Z;
  big_pow : Z → Z → Z;
  biguint_from_str_radix_10 : string → option Z;
  bigint_from_str : string → option Z;
  big_display : Z → string
}.

(** Decimal numerals with an optional minus sign. *)
Definition bigint_parse (s : string) : option Z :=
  match s with
  | String c t => if bool_decide (c = "-"%char) then Z.opp <$> decimal_value t else decimal_value s
  | _ => None
  end.
Definition bigint_print (v : Z) : string :=
  if bool_decide (0 ≤ v) then pretty (Z.to_N v) else String "-" (pretty (Z.to_N (- v))).

(** [num-bigint]: exact integers of arbitrary size; division truncates
    towards zero and panics on a zero divisor; parsing and printing use
    decimal numerals. *)
Class BigintLaws (B : Bigint) : Prop := {
  big_add_spec a b : big_add a b = a + b;
  big_sub_spec a b : big_sub a b = a - b;
  big_mul_spec a b : big_mul a b = a * b;
  big_div_spec a b : b ≠ 0 → big_div a b = Z.quot a b;
  big_rem_spec a b : b ≠ 0 → big_rem a b = Z.rem a b;
  big_abs_spec a : big_abs a = Z.abs a;
  big_pow_spec a e : 0 ≤ e → big_pow a e = a ^ e;
  biguint_from_str_spec s v :
    decimal_value s = Some v → biguint_from_str_radix_10 s = Some v;
  bigint_from_str_spec s v : bigint_parse s = Some v → bigint_from_str s = Some v;
  big_display_spec v : big_display v = bigint_print v
}.

(** The instance the witnesses evaluate with. *)
Definition bigint_exact : Bigint := {|
  big_add a b := a + b;
  big_sub a b := a - b;
  big_mul a b := a * b;
  big_div a b := Z.quot a b;
  big_rem a b := Z.rem a b;
  big_abs := Z.abs;
  big_pow a e := a ^ e;
  biguint_from_str_radix_10 s := decimal_value s;
  bigint_from_str := bigint_parse;
  big_display := bigint_print
|}.

Lemma bigint_exact_laws : BigintLaws bigint_exact.
Proof. by split. Qed.

Section HpSigned.
Context {B : Bigint}.

(** [BigUint::from(10u32).pow(P)] *)
Definition sfp_scale (P : Z) : Z := big_pow 10 P.

Definition sfp_zero : Z := 0.

Definition sfp_convert_precision (P Q v : Z) : Z :=
  let precision_diff := P - Q in
  if bool_decide (precision_diff > 0)
  then big_div v (big_pow 10 precision_diff)
  else big_mul v (big_pow 10 (- precision_diff)).

Definition sfp_min (a b : Z) : Z := if bool_decide (a ≤ b) then a else b.
Definition sfp_max (a b : Z) : Z := if bool_decide (b ≤ a) then a else b.

Definition sfp_floor (P v : Z) : Z :=
  let scale := sfp_scale P in
  let num := big_div v scale in
  big_mul num scale.

(** The owned and borrowed forms of each operator have one body. *)
Definition sfp_add (a b : Z) : Z := big_add a b.
Definition sfp_sub (a b : Z) : Z := big_sub a b.
Definition sfp_mul (P a b : Z) : Z :=
  let product := big_mul a b in
  big_div product (sfp_scale P).

(** [Div] panics on a zero divisor. *)
Definition sfp_div (P a b : Z) : option Z :=
  let dividend := big_mul a (sfp_scale P) in
  if bool_decide (b = 0) then None else Some (big_div dividend b).

Definition sfp_add_assign (a b : Z) : Z := big_add a b.
Definition sfp_sub_assign (a b : Z) : Z := big_sub a b.

(** [From<BigInt>], [From<i16>], .., [From<isize>]. *)
Definition sfp_from_int (P v : Z) : Z := big_mul v (sfp_scale P).

(** [From<f64>] of the text [format!("{value}")] prints. *)
Definition get_float_parts_b (P : nat) (s : string) : option (Z * Z) :=
  let '(i, f) := split_dot s in
  integer_part ← biguint_from_str_radix_10 i;
  fraction_part ← match f with
                  | Some f => biguint_from_str_radix_10 (pad_fraction P f)
                  | None => Some 0
                  end;
  Some (integer_part, fraction_part).

Definition strip_sign (s : string) : bool * string :=
  match s with
  | String c t =>
      if bool_decide (c = "-"%char)
      then (true, if String.prefix "+" t then s else t)
      else (false, s)
  | EmptyString => (false, s)
  end.

Definition sfp_from_f64 (P : nat) (s : string) : option Z :=
  let '(minus, s) := strip_sign s in
  '(integer_part, fraction_part) ← get_float_parts_b P s;
  let result := big_add (big_mul integer_part (sfp_scale (Z.of_nat P))) fraction_part in
  Some (if minus : bool then - result else result).

(** [TryFrom<HpFixed<P>>] for the signed type of [w] bits. *)
Definition sfp_try_into_int (w P v : Z) : Result Z HpFixedConversionError :=
  let divisor := sfp_scale P in
  if bool_decide (divisor = 0) then Err HpFixedConversionError.DivisionError
  else
    let interim := big_div v divisor in
    if bool_decide (interim > 2 ^ (w - 1) - 1) then Err HpFixedConversionError.Overflow
    else if bool_decide (interim < - 2 ^ (w - 1)) then Err HpFixedConversionError.Underflow
    else Ok interim.

(** [TryFrom<HpFixed<P>> for BigInt]. *)
Definition sfp_try_into_bigint (P v : Z) : Result Z HpFixedConversionError :=
  let divisor := sfp_scale P in
  if bool_decide (divisor = 0) then Err HpFixedConversionError.DivisionError
  else Ok (big_div v divisor).

Definition sfp_try_abs (P v : Z) : option Z :=
  match sfp_try_into_bigint P v with
  | Ok big_int => Some (sfp_from_int P (big_abs big_int))
  | Err _ => None
  end.

(** The text [TryFrom<HpFixed<P>> for f64] hands to [parse::<f64>]. *)
Definition sfp_to_f64_text (P v : Z) : string :=
  let divisor := sfp_scale P in
  let fraction_part := big_rem (big_abs v) divisor in
  let integer_part := big_div v divisor in
  String.append (big_display integer_part) (String dot (big_display fraction_part)).

(** [FromStr] and [Display]: the raw integer in decimal. *)
Definition sfp_from_str (s : string) : Result Z HpFixedConversionError :=
  match bigint_from_str s with
  | Some v => Ok v
  | None => Err HpFixedConversionError.ParseError
  end.
Definition sfp_display (v : Z) : string :=
  if bool_decide (v = 0) then "0"%string else big_display v.
End HpSigned.

Section laws.
Context {B : Bigint} {L : BigintLaws B}.

Lemma sfp_scale_eq P : 0 ≤ P → sfp_scale P = 10 ^ P ∧ 0 < 10 ^ P.
Proof.
  intros HP. unfold sfp_scale. rewrite big_pow_spec by done.
  split; [done|]. by apply Z.pow_pos_nonneg.
Qed.

Lemma sfp_mul_exact P a b : 0 ≤ P → sfp_mul P a b = Z.quot (a * b) (10 ^ P).
Proof.
  intros HP. destruct (sfp_scale_eq P HP) as [HS ?]. unfold sfp_mul.
  rewrite HS, big_mul_spec, big_div_spec by lia. done.
Qed.

Lemma sfp_div_exact P a b :
  0 ≤ P → b ≠ 0 → sfp_div P a b = Some (Z.quot (a * 10 ^ P) b).
Proof.
  intros HP Hb. destruct (sfp_scale_eq P HP) as [HS ?]. unfold sfp_div.
  rewrite bool_decide_eq_false_2 by done. by rewrite HS, big_mul_spec, big_div_spec.
Qed.

Lemma sfp_from_int_exact P v : 0 ≤ P → sfp_from_int P v = v * 10 ^ P.
Proof.
  intros HP. destruct (sfp_scale_eq P HP) as [HS _]. unfold sfp_from_int.
  by rewrite HS, big_mul_spec.
Qed.

Lemma sfp_try_into_int_exact w P v :
  0 ≤ P → - 2 ^ (w - 1) ≤ Z.quot v (10 ^ P) < 2 ^ (w - 1) →
  sfp_try_into_int w P v = Ok (Z.quot v (10 ^ P)).
Proof.
  intros HP Hr. destruct (sfp_scale_eq P HP) as [HS ?]. unfold sfp_try_into_int.
  rewrite HS, bool_decide_eq_false_2, big_div_spec by lia.
  rewrite !bool_decide_eq_false_2 by lia. done.
Qed.
End laws.

(** [try_abs] goes through [BigInt], so the fraction is lost: |-1.5| is 1. *)
Lemma sfp_try_abs_drops_fraction :
  @sfp_try_abs bigint_exact 1 (-15) = Some 10.
Proof. by vm_compute. Qed.

(** The conversion to [f64] loses the sign of values between -1 and 0. *)
Lemma sfp_to_f64_drops_sign :
  @sfp_to_f64_text bigint_exact 1 (-3) = "0.3"%string.
Proof. by vm_compute. Qed.
