(* ===== verification/Types.v ===== *)
(** * Types: the data of the application layer

    The structs and enums of [core/types/src] ([state.rs],
    [application.rs], [response.rs], [transaction.rs], [reputation.rs],
    [content_registry.rs]) and of [TransactionSender]
    ([lib/fleek-crypto]).  An enum is an [Inductive] in a [Module] of its
    name, so that its variants read [Enum.Variant].

    Representation: [u8 .. u128] are [Z]; a byte array [[u8; n]] (hashes,
    addresses, public keys) is the number it is the big-endian encoding of,
    in [N], so that its lexicographic order is the numeric order; a
    [Duration] is its number of nanoseconds; an [HpUfixed] or [HpFixed] is
    its raw integer. *)

From S2P Require Import Prelude HpFixed.
From stdpp Require Import base gmap list strings countable.
From Stdlib Require Import ZArith.
Open Scope Z_scope.

Abbreviation ServiceId := Z (only parsing).
Abbreviation Epoch := Z (only parsing).
Abbreviation EpochEra := Z (only parsing).
Abbreviation NodeIndex := Z (only parsing).
Abbreviation BlockNumber := Z (only parsing).
Abbreviation Nonce := Z (only parsing).
Abbreviation ChainId := Z (only parsing).
Abbreviation CommitteeSelectionBeaconRound := Z (only parsing).
Abbreviation Duration := Z (only parsing).

Abbreviation EthAddress := N (only parsing).
Abbreviation NodePublicKey := N (only parsing).
Abbreviation ConsensusPublicKey := N (only parsing).
Abbreviation ClientPublicKey := N (only parsing).
Abbreviation Hash32 := N (only parsing).
Abbreviation TxHash := N (only parsing).
Abbreviation Blake3Hash := N (only parsing).
Abbreviation CommitteeSelectionBeaconCommit := N (only parsing).
Abbreviation CommitteeSelectionBeaconReveal := N (only parsing).
Abbreviation IpAddr := N (only parsing).

(** ** [state.rs] *)

Module Tokens.
Inductive Tokens : Set := USDC | FLK.
Global Instance eq_dec : EqDecision Tokens.
Proof. solve_decision. Defined.

Definition address (t : Tokens) : EthAddress :=
  match t with
  | USDC => 0%N
  | FLK => 0x0101010101010101010101010101010101010101%N
  end.

Definition try_from (value : string) : option Tokens :=
  if bool_decide (value = "flk"%string) || bool_decide (value = "FLK"%string)
  then Some FLK
  else if bool_decide (value = "usdc"%string) || bool_decide (value = "USDC"%string)
  then Some USDC
  else None.
End Tokens.
Abbreviation Tokens := Tokens.Tokens.

Abbreviation CommodityServed := (list Z) (only parsing).
Abbreviation ServiceRevenue := Z (only parsing).

Record NodeServed := mkNodeServed {
  node_served : CommodityServed;
  stables_revenue : Z
}.
Definition NodeServed_default : NodeServed := mkNodeServed [] 0.

Record TotalServed := mkTotalServed {
  total_served_served : CommodityServed;
  reward_pool : Z
}.
Definition TotalServed_default : TotalServed := mkTotalServed [] 0.

Module CommodityTypes.
Inductive CommodityTypes : Set := Bandwidth | Compute | Gpu.
Global Instance eq_dec : EqDecision CommodityTypes.
Proof. solve_decision. Defined.

(** [commodity_type as usize] *)
Definition as_usize (c : CommodityTypes) : nat :=
  match c with Bandwidth => 0 | Compute => 1 | Gpu => 2 end.

Global Instance countable : Countable CommodityTypes.
Proof.
  refine (inj_countable' as_usize
    (λ n, match n with O => Bandwidth | 1%nat => Compute | _ => Gpu end) _).
  by intros [].
Defined.
End CommodityTypes.
Abbreviation CommodityTypes := CommodityTypes.CommodityTypes.

(** [reputation.rs] *)
Record ReputationMeasurements := mkReputationMeasurements {
  latency : option Duration;
  interactions : option Z;
  inbound_bandwidth : option Z;
  outbound_bandwidth : option Z;
  bytes_received : option Z;
  bytes_sent : option Z;
  uptime_measurement : option Z;
  hops : option Z
}.

Definition MAX_MEASUREMENTS_PER_TX : Z := 10000.
Definition MAX_MEASUREMENTS_SUBMIT : Z := 2.
Definition PRECISION : Z := 18.

(** [ReputationMeasurements::verify]; [HpFixed::from(100)] at precision 18
    is [100 * 10^18]. *)
Definition verify_measurements (m : ReputationMeasurements) : bool :=
  match m.(latency) with
  | Some l => bool_decide (l < 20 * 10 ^ 9)
  | None => true
  end
  && match m.(inbound_bandwidth) with
     | Some b => bool_decide (b ≤ 6250000000)
     | None => true
     end
  && match m.(outbound_bandwidth) with
     | Some b => bool_decide (b ≤ 6250000000)
     | None => true
     end
  && match m.(uptime_measurement) with
     | Some u => bool_decide (u ≤ 100 * 10 ^ PRECISION)
     | None => true
     end.

Record ReportedReputationMeasurements := mkReported {
  reporting_node : NodeIndex;
  measurements : ReputationMeasurements
}.

Module Metadata.
Inductive Metadata : Set :=
| ChainId | Epoch | BlockNumber | SupplyYearStart | TotalSupply
| ProtocolFundAddress | NextNodeIndex | GovernanceAddress | LastEpochHash
| LastBlockHash | GenesisCommittee | SubDagIndex | SubDagRound
| CommitteeSelectionBeaconPhase | EpochEra | WithdrawId | TimeInterval.

Definition all : list Metadata :=
  [ChainId; Epoch; BlockNumber; SupplyYearStart; TotalSupply;
   ProtocolFundAddress; NextNodeIndex; GovernanceAddress; LastEpochHash;
   LastBlockHash; GenesisCommittee; SubDagIndex; SubDagRound;
   CommitteeSelectionBeaconPhase; EpochEra; WithdrawId; TimeInterval].

Global Instance eq_dec : EqDecision Metadata.
Proof. solve_decision. Defined.

Definition index (m : Metadata) : nat :=
  match m with
  | ChainId => 0 | Epoch => 1 | BlockNumber => 2 | SupplyYearStart => 3
  | TotalSupply => 4 | ProtocolFundAddress => 5 | NextNodeIndex => 6
  | GovernanceAddress => 7 | LastEpochHash => 8 | LastBlockHash => 9
  | GenesisCommittee => 10 | SubDagIndex => 11 | SubDagRound => 12
  | CommitteeSelectionBeaconPhase => 13 | EpochEra => 14 | WithdrawId => 15
  | TimeInterval => 16
  end.

Global Instance countable : Countable Metadata.
Proof.
  refine (inj_countable index (λ n, all !! n) _). by intros [].
Defined.
End Metadata.
Abbreviation Metadata := Metadata.Metadata.

Module CommitteeSelectionBeaconPhase.
Inductive CommitteeSelectionBeaconPhase : Set :=
| Commit (er : Epoch * CommitteeSelectionBeaconRound)
| Reveal (er : Epoch * CommitteeSelectionBeaconRound).
Global Instance eq_dec : EqDecision CommitteeSelectionBeaconPhase.
Proof. solve_decision. Defined.

Definition get_epoch (p : CommitteeSelectionBeaconPhase) : Epoch :=
  match p with Commit (epoch, _) => epoch | Reveal (epoch, _) => epoch end.
Definition get_round (p : CommitteeSelectionBeaconPhase)
    : CommitteeSelectionBeaconRound :=
  match p with Commit (_, round) => round | Reveal (_, round) => round end.
End CommitteeSelectionBeaconPhase.
Abbreviation CommitteeSelectionBeaconPhase :=
  CommitteeSelectionBeaconPhase.CommitteeSelectionBeaconPhase.

Module Value.
Inductive Value : Set :=
| ChainId (v : Z)
| Epoch (v : Z)
| BlockNumber (v : Z)
| String (v : string)
| HpUfixed (v : Z)
| AccountPublicKey (v : EthAddress)
| NextNodeIndex (v : Z)
| Hash (v : Hash32)
| GenesisCommittee (v : list NodeIndex)
| SubDagIndex (v : Z)
| SubDagRound (v : Z)
| BlockRange (a b : Z)
| CommitteeSelectionBeaconPhase (v : CommitteeSelectionBeaconPhase)
| EpochEra (v : Z)
| WithdrawId (v : Z)
| TimeInterval (v : Z).

Definition maybe_hash (v : Value) : option Hash32 :=
  match v with Hash h => Some h | _ => None end.
End Value.
Abbreviation Value := Value.Value.

Module Participation.
Inductive Participation : Set := True | False | OptedIn | OptedOut.
Global Instance eq_dec : EqDecision Participation.
Proof. solve_decision. Defined.
End Participation.
Abbreviation Participation := Participation.Participation.

Module ProtocolParamKey.
Inductive ProtocolParamKey : Set :=
| EpochTime | CommitteeSize | NodeCount | MinimumNodeStake | EligibilityTime
| LockTime | ProtocolShare | NodeShare | ServiceBuilderShare | MaxInflation
| MaxBoost | MaxStakeLockTime | MinNumMeasurements | SGXSharedPubKey
| EpochsPerYear | ReputationPingTimeout | TopologyTargetK | TopologyMinNodes
| CommitteeSelectionBeaconCommitPhaseDuration
| CommitteeSelectionBeaconRevealPhaseDuration
| CommitteeSelectionBeaconNonRevealSlashAmount | TotalTimeIntervals.

Definition all : list ProtocolParamKey :=
  [EpochTime; CommitteeSize; NodeCount; MinimumNodeStake; EligibilityTime;
   LockTime; ProtocolShare; NodeShare; ServiceBuilderShare; MaxInflation;
   MaxBoost; MaxStakeLockTime; MinNumMeasurements; SGXSharedPubKey;
   EpochsPerYear; ReputationPingTimeout; TopologyTargetK; TopologyMinNodes;
   CommitteeSelectionBeaconCommitPhaseDuration;
   CommitteeSelectionBeaconRevealPhaseDuration;
   CommitteeSelectionBeaconNonRevealSlashAmount; TotalTimeIntervals].

Global Instance eq_dec : EqDecision ProtocolParamKey.
Proof. solve_decision. Defined.

(** The explicit discriminants of [#[repr(u8)]]. *)
Definition discriminant (k : ProtocolParamKey) : nat :=
  match k with
  | EpochTime => 0 | CommitteeSize => 1 | NodeCount => 2
  | MinimumNodeStake => 3 | EligibilityTime => 4 | LockTime => 5
  | ProtocolShare => 6 | NodeShare => 7 | ServiceBuilderShare => 8
  | MaxInflation => 9 | MaxBoost => 10 | MaxStakeLockTime => 11
  | MinNumMeasurements => 12 | SGXSharedPubKey => 13 | EpochsPerYear => 14
  | ReputationPingTimeout => 15 | TopologyTargetK => 16
  | TopologyMinNodes => 17
  | CommitteeSelectionBeaconCommitPhaseDuration => 18
  | CommitteeSelectionBeaconRevealPhaseDuration => 19
  | CommitteeSelectionBeaconNonRevealSlashAmount => 20
  | TotalTimeIntervals => 21
  end.

Global Instance countable : Countable ProtocolParamKey.
Proof.
  refine (inj_countable discriminant (λ n, all !! n) _). by intros [].
Defined.
End ProtocolParamKey.
Abbreviation ProtocolParamKey := ProtocolParamKey.ProtocolParamKey.

Module ProtocolParamValue.
Inductive ProtocolParamValue : Set :=
| EpochTime (v : Z)
| EpochsPerYear (v : Z)
| CommitteeSize (v : Z)
| NodeCount (v : Z)
| MinimumNodeStake (v : Z)
| EligibilityTime (v : Z)
| LockTime (v : Z)
| ProtocolShare (v : Z)
| NodeShare (v : Z)
| ServiceBuilderShare (v : Z)
| MaxInflation (v : Z)
| MaxBoost (v : Z)
| MaxStakeLockTime (v : Z)
| MinNumMeasurements (v : Z)
| SGXSharedPubKey (v : string)
| ReputationPingTimeout (v : Duration)
| TopologyTargetK (v : Z)
| TopologyMinNodes (v : Z)
| CommitteeSelectionBeaconCommitPhaseDuration (v : Z)
| CommitteeSelectionBeaconRevealPhaseDuration (v : Z)
| CommitteeSelectionBeaconNonRevealSlashAmount (v : Z)
| TotalTimeIntervals (v : Z).
End ProtocolParamValue.
Abbreviation ProtocolParamValue := ProtocolParamValue.ProtocolParamValue.

Record HandshakePorts := mkHandshakePorts {
  http : Z; webrtc : Z; webtransport : Z
}.
Definition HandshakePorts_default : HandshakePorts :=
  {| http := 4220; webrtc := 4320; webtransport := 4321 |}.

Record NodePorts := mkNodePorts {
  primary : Z; worker : Z; mempool : Z; rpc : Z; pool : Z; pinger : Z;
  handshake : HandshakePorts
}.
Definition NodePorts_default : NodePorts :=
  {| pool := 4300; primary := 4310; worker := 4311; mempool := 4210;
     handshake := HandshakePorts_default; rpc := 4240; pinger := 4350 |}.

Record Staking := mkStaking {
  staked : Z;
  stake_locked_until : Z;
  locked : Z;
  locked_until : Z
}.
Definition Staking_default : Staking := mkStaking 0 0 0 0.

Record NodeInfo := mkNodeInfo {
  node_owner : EthAddress;
  public_key : NodePublicKey;
  consensus_key : ConsensusPublicKey;
  staked_since : Epoch;
  node_stake : Staking;
  node_domain : IpAddr;
  worker_domain : IpAddr;
  node_ports : NodePorts;
  worker_public_key : NodePublicKey;
  participation : Participation;
  node_nonce : Nonce
}.

Record Service := mkService {
  service_owner : EthAddress;
  commodity_type : CommodityTypes
}.

(** [application.rs] *)
Definition MAX_UPDATES_CONTENT_REGISTRY : Z := 100.
Definition MAX_DELIVERY_ACKNOWLEDGMENTS : Z := 1000.
Definition MAX_JOBS : Z := 1000.

Module NodeRegistryChangeSlashReason.
Inductive NodeRegistryChangeSlashReason : Set := CommitteeBeaconNonReveal.
End NodeRegistryChangeSlashReason.
Abbreviation NodeRegistryChangeSlashReason :=
  NodeRegistryChangeSlashReason.NodeRegistryChangeSlashReason.

Module NodeRegistryChange.
Inductive NodeRegistryChange : Set :=
| New
| Removed
| Slashed (amount : Z) (stake : Staking) (reason : NodeRegistryChangeSlashReason).
End NodeRegistryChange.
Abbreviation NodeRegistryChange := NodeRegistryChange.NodeRegistryChange.

Abbreviation BlockNodeRegistryChanges := (list (NodePublicKey * NodeRegistryChange)) (only parsing).
Abbreviation NodeRegistryChanges := (gmap BlockNumber BlockNodeRegistryChanges) (only parsing).

Record Committee := mkCommittee {
  members : list NodeIndex;
  ready_to_change : list NodeIndex;
  signalled_commit_phase_timeout : list NodeIndex;
  signalled_reveal_phase_timeout : list NodeIndex;
  epoch_end_timestamp : Z;
  epoch_transition_timestamp : Z;
  active_node_set : list NodeIndex;
  node_registry_changes : NodeRegistryChanges
}.
Definition Committee_default : Committee := mkCommittee [] [] [] [] 0 0 [] ∅.

Record AccountInfo := mkAccountInfo {
  flk_balance : Z;
  stables_balance : Z;
  bandwidth_balance : Z;
  nonce : Nonce;
  client_key : option ClientPublicKey
}.
Definition AccountInfo_default : AccountInfo := mkAccountInfo 0 0 0 0 None.
Global Instance AccountInfo_eq_dec : EqDecision AccountInfo.
Proof. solve_decision. Defined.

Record WithdrawInfo := mkWithdrawInfo {
  withdraw_epoch : Epoch;
  withdraw_token : Tokens;
  withdraw_receiver : EthAddress;
  withdraw_amount : Z
}.

Record MintInfo := mkMintInfo {
  mint_amount : Z;
  mint_token : Tokens;
  mint_receiving_address : EthAddress;
  mint_eth_tx_hash : Hash32;
  mint_block_number : Z
}.

Record JobInfo := mkJobInfo {
  frequency : Z;
  job_amount : Z;
  job_service : ServiceId;
  arguments : list Z
}.

Record JobStatus := mkJobStatus {
  last_run : Z;
  success : bool;
  message : option string
}.

Record Job := mkJob {
  job_hash : Hash32;
  job_info : JobInfo;
  job_status : option JobStatus;
  assignee : option NodeIndex
}.

Record ContentUpdate := mkContentUpdate {
  uri : Blake3Hash;
  remove : bool
}.

(** [TransactionSender] of [lib/fleek-crypto]. *)
Module TransactionSender.
Inductive TransactionSender : Set :=
| NodeConsensus (node : ConsensusPublicKey)
| NodeMain (node : NodePublicKey)
| AccountOwner (account : EthAddress).
Global Instance eq_dec : EqDecision TransactionSender.
Proof. solve_decision. Defined.
End TransactionSender.
Abbreviation TransactionSender := TransactionSender.TransactionSender.

(** A signature is tagged with the kind of key that made it; its bytes are
    opaque. *)
Module TransactionSignature.
Inductive TransactionSignature : Set :=
| NodeConsensus (sig : N)
| NodeMain (sig : N)
| AccountOwner (sig : N).
End TransactionSignature.
Abbreviation TransactionSignature := TransactionSignature.TransactionSignature.

(** ** [response.rs] *)

Module ExecutionError.
Inductive ExecutionError : Set :=
| CommitteeSelectionBeaconNodeNotActive
| CommitteeSelectionBeaconNotCommitted
| CommitteeSelectionBeaconNotInCommitPhase
| CommitteeSelectionBeaconCommitPhaseNotActive
| CommitteeSelectionBeaconAlreadyCommitted
| CommitteeSelectionBeaconRevealPhaseNotActive
| CommitteeSelectionBeaconAlreadyRevealed
| CommitteeSelectionBeaconNotInRevealPhase
| CommitteeSelectionBeaconInvalidReveal
| CommitteeSelectionBeaconInvalidCommitPhaseTimeout
| CommitteeSelectionBeaconInvalidRevealPhaseTimeout
| CommitteeSelectionBeaconNonRevealingNode
| CommitteeSelectionBeaconRoundNotFound
| MissingCommittee
| InsufficientBalance
| InvalidChainId
| InvalidSignature
| InvalidNonce
| InvalidProof
| InvalidInternetAddress
| InsufficientNodeDetails
| InvalidStateFunction
| InvalidConsensusKey
| InvalidToken
| InvalidStateForContentRemoval
| InvalidContentRemoval
| NoLockedTokens
| TokensLocked
| NotNodeOwner
| NotCommitteeMember
| NodeDoesNotExist
| AccountDoesNotExist
| CantSendToYourself
| AlreadySignaled
| SubmittedTooManyTransactions
| NonExistingService
| OnlyAccountOwner
| OnlyNode
| OnlyGovernance
| InvalidServiceId
| InsufficientStake
| NodeNotParticipating
| LockExceededMaxStakeLockTime
| LockedTokensUnstakeForbidden
| EpochAlreadyChanged
| EpochHasNotStarted
| ConsensusKeyAlreadyIndexed
| ContentAlreadyRegistered
| Unimplemented
| TooManyMeasurements
| TooManyUpdates
| TooManyUpdatesForContent
| AlreadyMinted
| AlreadyExecutedDigest
| InvalidClientKeyLength
| DuplicateClientKey
| MissingClientKey.
Global Instance eq_dec : EqDecision ExecutionError.
Proof. solve_decision. Defined.
End ExecutionError.
Abbreviation ExecutionError := ExecutionError.ExecutionError.

Record EpochInfo := mkEpochInfo {
  epoch_info_committee : list NodeInfo;
  epoch_info_epoch : Epoch;
  epoch_info_era : EpochEra;
  epoch_end : Z;
  epoch_transition : Z
}.

Module ExecutionData.
Inductive ExecutionData : Set :=
| None
| String (v : string)
| UInt (v : Z)
| EpochInfo (v : EpochInfo)
| EpochChange.
End ExecutionData.
Abbreviation ExecutionData := ExecutionData.ExecutionData.

Inductive TransactionResponse : Set :=
| Success (data : ExecutionData)
| Revert (error : ExecutionError).

Definition is_success (r : TransactionResponse) : bool :=
  match r with Success _ => true | Revert _ => false end.

(** ** [transaction.rs] *)

Module UpdateMethod.
Inductive UpdateMethod : Set :=
| SubmitDeliveryAcknowledgmentAggregation
    (commodity : Z) (service_id : ServiceId) (proofs : list unit)
    (metadata : option (list Z))
| Withdraw (amount : Z) (token : Tokens) (receiving_address : EthAddress)
| ClearWithdraws (withdraw_id : Z)
| Mint (amount : Z) (token : Tokens) (receiving_address : EthAddress)
    (eth_tx_hash : Hash32) (block_number : Z)
| ClearMints (block_number : Z)
| Deposit (token : Tokens) (amount : Z)
| Transfer (amount : Z) (token : Tokens) (to : EthAddress)
| Stake (amount : Z) (node_public_key : NodePublicKey)
    (consensus_key : option ConsensusPublicKey) (node_domain : option IpAddr)
    (worker_public_key : option NodePublicKey) (worker_domain : option IpAddr)
    (ports : option NodePorts)
| StakeLock (node : NodePublicKey) (locked_for : Z)
| Unstake (amount : Z) (node : NodePublicKey)
| WithdrawUnstaked (node : NodePublicKey) (recipient : option EthAddress)
| ChangeEpoch (epoch : Epoch)
| CommitteeSelectionBeaconCommit (commit : CommitteeSelectionBeaconCommit)
| CommitteeSelectionBeaconReveal (reveal : CommitteeSelectionBeaconReveal)
| CommitteeSelectionBeaconCommitPhaseTimeout
    (epoch : Epoch) (round : CommitteeSelectionBeaconRound)
| CommitteeSelectionBeaconRevealPhaseTimeout
    (epoch : Epoch) (round : CommitteeSelectionBeaconRound)
| AddService (service : Service) (service_id : ServiceId)
| RemoveService (service_id : ServiceId)
| Slash (service_id : ServiceId) (node : NodePublicKey)
| SubmitReputationMeasurements
    (measurements : list (NodeIndex * ReputationMeasurements))
| ChangeProtocolParam (param : ProtocolParamKey) (value : ProtocolParamValue)
| OptOut
| OptIn
| UpdateContentRegistry (updates : list ContentUpdate)
| IncrementNonce
| AddJobs (jobs : list Job)
| RemoveJobs (jobs : list Hash32)
| JobUpdates (updates : list (Hash32 * JobStatus)).
End UpdateMethod.
Abbreviation UpdateMethod := UpdateMethod.UpdateMethod.

Record UpdatePayload := mkUpdatePayload {
  payload_sender : TransactionSender;
  payload_nonce : Nonce;
  payload_method : UpdateMethod;
  payload_chain_id : ChainId
}.

Record UpdateRequest := mkUpdateRequest {
  signature : TransactionSignature;
  payload : UpdatePayload
}.

(** The calls of the [FleekContract] ABI ([core/utils/src/eth.rs]). *)
Module FleekContractCalls.
Inductive FleekContractCalls : Set :=
| Withdraw (amount : Z) (token : string) (recipient : EthAddress)
| Stake (amount : Z) (node_public_key : NodePublicKey)
    (consensus_key : list Z) (domain : string)
    (worker_public_key : NodePublicKey) (worker_domain : string)
| Deposit (token : string) (amount : Z)
| Unstake (amount : Z) (node_public_key : NodePublicKey)
| WithdrawUnstaked (node_public_key : NodePublicKey) (recipient : EthAddress)
| ApproveClientKey (client_key : list Z)
| RevokeClientKey.
End FleekContractCalls.
Abbreviation FleekContractCalls := FleekContractCalls.FleekContractCalls.

(** The fields of an [ethers] transaction that the code reads. *)
Record EthersTransaction := mkEthersTransaction {
  eth_hash : TxHash;
  eth_nonce : Z;
  eth_from : EthAddress;
  eth_to : option EthAddress;
  eth_value : Z;
  eth_input : list Z;
  eth_chain_id : option Z;
  eth_signature : N
}.

Inductive TransactionRequest : Set :=
| UpdateRequest_ (r : UpdateRequest)
| EthereumRequest (t : EthersTransaction).

Record Block := mkBlock {
  digest : Hash32;
  sub_dag_index : Z;
  sub_dag_round : Z;
  transactions : list TransactionRequest
}.
