(* ===== verification/State.v ===== *)
(** * State: the tables of the application state

    [StateExecutor] ([core/application/src/state/executor.rs]) holds one
    typed reference per table; here a table is a [gmap] and the executor is
    the record of all of them.  A handler is a computation of the monad [M]
    over that record.  [get], [set], [remove] and [clear] of the [TableRef]
    trait ([state/context.rs]) are lookup, insertion, deletion and the empty
    map.

    [Host] collects what the executor calls outside of this code: hashing,
    signature checks, the seeded shuffle, the ABI decoder, and the order in
    which a table or a hash map enumerates its keys. *)

From S2P Require Import Prelude HpFixed Types.
From stdpp Require Import base gmap list strings.
From Stdlib Require Import ZArith.
Open Scope Z_scope.

Abbreviation BeaconEntry :=
  (CommitteeSelectionBeaconCommit * option CommitteeSelectionBeaconReveal)%type
  (only parsing).

Record StateExecutor := mkState {
  metadata : gmap Metadata Value;
  account_info : gmap EthAddress AccountInfo;
  client_keys : gmap ClientPublicKey (EthAddress * Nonce);
  node_info : gmap NodeIndex NodeInfo;
  consensus_key_to_index : gmap ConsensusPublicKey NodeIndex;
  pub_key_to_index : gmap NodePublicKey NodeIndex;
  latencies : gmap (NodeIndex * NodeIndex) Duration;
  committee_info : gmap Epoch Committee;
  services : gmap ServiceId Service;
  parameters : gmap ProtocolParamKey ProtocolParamValue;
  rep_measurements : gmap NodeIndex (list ReportedReputationMeasurements);
  rep_scores : gmap NodeIndex Z;
  submitted_rep_measurements : gmap NodeIndex Z;
  current_epoch_served : gmap NodeIndex NodeServed;
  last_epoch_served : gmap NodeIndex NodeServed;
  total_served : gmap Epoch TotalServed;
  service_revenue : gmap ServiceId ServiceRevenue;
  commodity_prices : gmap CommodityTypes Z;
  executed_digests : gmap TxHash unit;
  uptime : gmap NodeIndex Z;
  uri_to_node : gmap Blake3Hash (gset NodeIndex);
  node_to_uri : gmap NodeIndex (gset Blake3Hash);
  committee_selection_beacon : gmap NodeIndex BeaconEntry;
  committee_selection_beacon_non_revealing_node : gmap NodeIndex unit;
  withdraws : gmap Z WithdrawInfo;
  mints : gmap Hash32 MintInfo;
  assigned_jobs : gmap NodeIndex (list Hash32);
  jobs : gmap Hash32 Job
}.

(** One replacement function per table. *)
Definition set_metadata (v : gmap Metadata Value) (s : StateExecutor) : StateExecutor :=
  mkState v s.(account_info) s.(client_keys) s.(node_info) s.(consensus_key_to_index)
    s.(pub_key_to_index) s.(latencies) s.(committee_info) s.(services) s.(parameters)
    s.(rep_measurements) s.(rep_scores) s.(submitted_rep_measurements)
    s.(current_epoch_served) s.(last_epoch_served) s.(total_served) s.(service_revenue)
    s.(commodity_prices) s.(executed_digests) s.(uptime) s.(uri_to_node) s.(node_to_uri)
    s.(committee_selection_beacon) s.(committee_selection_beacon_non_revealing_node)
    s.(withdraws) s.(mints) s.(assigned_jobs) s.(jobs).
Definition set_account_info (v : gmap EthAddress AccountInfo) (s : StateExecutor) : StateExecutor :=
  mkState s.(metadata) v s.(client_keys) s.(node_info) s.(consensus_key_to_index)
    s.(pub_key_to_index) s.(latencies) s.(committee_info) s.(services) s.(parameters)
    s.(rep_measurements) s.(rep_scores) s.(submitted_rep_measurements)
    s.(current_epoch_served) s.(last_epoch_served) s.(total_served) s.(service_revenue)
    s.(commodity_prices) s.(executed_digests) s.(uptime) s.(uri_to_node) s.(node_to_uri)
    s.(committee_selection_beacon) s.(committee_selection_beacon_non_revealing_node)
    s.(withdraws) s.(mints) s.(assigned_jobs) s.(jobs).
Definition set_client_keys (v : gmap ClientPublicKey (EthAddress * Nonce)) (s : StateExecutor) : StateExecutor :=
  mkState s.(metadata) s.(account_info) v s.(node_info) s.(consensus_key_to_index)
    s.(pub_key_to_index) s.(latencies) s.(committee_info) s.(services) s.(parameters)
    s.(rep_measurements) s.(rep_scores) s.(submitted_rep_measurements)
    s.(current_epoch_served) s.(last_epoch_served) s.(total_served) s.(service_revenue)
    s.(commodity_prices) s.(executed_digests) s.(uptime) s.(uri_to_node) s.(node_to_uri)
    s.(committee_selection_beacon) s.(committee_selection_beacon_non_revealing_node)
    s.(withdraws) s.(mints) s.(assigned_jobs) s.(jobs).
Definition set_node_info (v : gmap NodeIndex NodeInfo) (s : StateExecutor) : StateExecutor :=
  mkState s.(metadata) s.(account_info) s.(client_keys) v s.(consensus_key_to_index)
    s.(pub_key_to_index) s.(latencies) s.(committee_info) s.(services) s.(parameters)
    s.(rep_measurements) s.(rep_scores) s.(submitted_rep_measurements)
    s.(current_epoch_served) s.(last_epoch_served) s.(total_served) s.(service_revenue)
    s.(commodity_prices) s.(executed_digests) s.(uptime) s.(uri_to_node) s.(node_to_uri)
    s.(committee_selection_beacon) s.(committee_selection_beacon_non_revealing_node)
    s.(withdraws) s.(mints) s.(assigned_jobs) s.(jobs).
Definition set_consensus_key_to_index (v : gmap ConsensusPublicKey NodeIndex) (s : StateExecutor) : StateExecutor :=
  mkState s.(metadata) s.(account_info) s.(client_keys) s.(node_info) v
    s.(pub_key_to_index) s.(latencies) s.(committee_info) s.(services) s.(parameters)
    s.(rep_measurements) s.(rep_scores) s.(submitted_rep_measurements)
    s.(current_epoch_served) s.(last_epoch_served) s.(total_served) s.(service_revenue)
    s.(commodity_prices) s.(executed_digests) s.(uptime) s.(uri_to_node) s.(node_to_uri)
    s.(committee_selection_beacon) s.(committee_selection_beacon_non_revealing_node)
    s.(withdraws) s.(mints) s.(assigned_jobs) s.(jobs).
Definition set_pub_key_to_index (v : gmap NodePublicKey NodeIndex) (s : StateExecutor) : StateExecutor :=
  mkState s.(metadata) s.(account_info) s.(client_keys) s.(node_info)
    s.(consensus_key_to_index) v s.(latencies) s.(committee_info) s.(services)
    s.(parameters) s.(rep_measurements) s.(rep_scores) s.(submitted_rep_measurements)
    s.(current_epoch_served) s.(last_epoch_served) s.(total_served) s.(service_revenue)
    s.(commodity_prices) s.(executed_digests) s.(uptime) s.(uri_to_node) s.(node_to_uri)
    s.(committee_selection_beacon) s.(committee_selection_beacon_non_revealing_node)
    s.(withdraws) s.(mints) s.(assigned_jobs) s.(jobs).
Definition set_latencies (v : gmap (NodeIndex * NodeIndex) Duration) (s : StateExecutor) : StateExecutor :=
  mkState s.(metadata) s.(account_info) s.(client_keys) s.(node_info)
    s.(consensus_key_to_index) s.(pub_key_to_index) v s.(committee_info) s.(services)
    s.(parameters) s.(rep_measurements) s.(rep_scores) s.(submitted_rep_measurements)
    s.(current_epoch_served) s.(last_epoch_served) s.(total_served) s.(service_revenue)
    s.(commodity_prices) s.(executed_digests) s.(uptime) s.(uri_to_node) s.(node_to_uri)
    s.(committee_selection_beacon) s.(committee_selection_beacon_non_revealing_node)
    s.(withdraws) s.(mints) s.(assigned_jobs) s.(jobs).
Definition set_committee_info (v : gmap Epoch Committee) (s : StateExecutor) : StateExecutor :=
  mkState s.(metadata) s.(account_info) s.(client_keys) s.(node_info)
    s.(consensus_key_to_index) s.(pub_key_to_index) s.(latencies) v s.(services)
    s.(parameters) s.(rep_measurements) s.(rep_scores) s.(submitted_rep_measurements)
    s.(current_epoch_served) s.(last_epoch_served) s.(total_served) s.(service_revenue)
    s.(commodity_prices) s.(executed_digests) s.(uptime) s.(uri_to_node) s.(node_to_uri)
    s.(committee_selection_beacon) s.(committee_selection_beacon_non_revealing_node)
    s.(withdraws) s.(mints) s.(assigned_jobs) s.(jobs).
Definition set_services (v : gmap ServiceId Service) (s : StateExecutor) : StateExecutor :=
  mkState s.(metadata) s.(account_info) s.(client_keys) s.(node_info)
    s.(consensus_key_to_index) s.(pub_key_to_index) s.(latencies) s.(committee_info) v
    s.(parameters) s.(rep_measurements) s.(rep_scores) s.(submitted_rep_measurements)
    s.(current_epoch_served) s.(last_epoch_served) s.(total_served) s.(service_revenue)
    s.(commodity_prices) s.(executed_digests) s.(uptime) s.(uri_to_node) s.(node_to_uri)
    s.(committee_selection_beacon) s.(committee_selection_beacon_non_revealing_node)
    s.(withdraws) s.(mints) s.(assigned_jobs) s.(jobs).
Definition set_parameters (v : gmap ProtocolParamKey ProtocolParamValue) (s : StateExecutor) : StateExecutor :=
  mkState s.(metadata) s.(account_info) s.(client_keys) s.(node_info)
    s.(consensus_key_to_index) s.(pub_key_to_index) s.(latencies) s.(committee_info)
    s.(services) v s.(rep_measurements) s.(rep_scores) s.(submitted_rep_measurements)
    s.(current_epoch_served) s.(last_epoch_served) s.(total_served) s.(service_revenue)
    s.(commodity_prices) s.(executed_digests) s.(uptime) s.(uri_to_node) s.(node_to_uri)
    s.(committee_selection_beacon) s.(committee_selection_beacon_non_revealing_node)
    s.(withdraws) s.(mints) s.(assigned_jobs) s.(jobs).
Definition set_rep_measurements (v : gmap NodeIndex (list ReportedReputationMeasurements)) (s : StateExecutor) : StateExecutor :=
  mkState s.(metadata) s.(account_info) s.(client_keys) s.(node_info)
    s.(consensus_key_to_index) s.(pub_key_to_index) s.(latencies) s.(committee_info)
    s.(services) s.(parameters) v s.(rep_scores) s.(submitted_rep_measurements)
    s.(current_epoch_served) s.(last_epoch_served) s.(total_served) s.(service_revenue)
    s.(commodity_prices) s.(executed_digests) s.(uptime) s.(uri_to_node) s.(node_to_uri)
    s.(committee_selection_beacon) s.(committee_selection_beacon_non_revealing_node)
    s.(withdraws) s.(mints) s.(assigned_jobs) s.(jobs).
Definition set_rep_scores (v : gmap NodeIndex Z) (s : StateExecutor) : StateExecutor :=
  mkState s.(metadata) s.(account_info) s.(client_keys) s.(node_info)
    s.(consensus_key_to_index) s.(pub_key_to_index) s.(latencies) s.(committee_info)
    s.(services) s.(parameters) s.(rep_measurements) v s.(submitted_rep_measurements)
    s.(current_epoch_served) s.(last_epoch_served) s.(total_served) s.(service_revenue)
    s.(commodity_prices) s.(executed_digests) s.(uptime) s.(uri_to_node) s.(node_to_uri)
    s.(committee_selection_beacon) s.(committee_selection_beacon_non_revealing_node)
    s.(withdraws) s.(mints) s.(assigned_jobs) s.(jobs).
Definition set_submitted_rep_measurements (v : gmap NodeIndex Z) (s : StateExecutor) : StateExecutor :=
  mkState s.(metadata) s.(account_info) s.(client_keys) s.(node_info)
    s.(consensus_key_to_index) s.(pub_key_to_index) s.(latencies) s.(committee_info)
    s.(services) s.(parameters) s.(rep_measurements) s.(rep_scores) v
    s.(current_epoch_served) s.(last_epoch_served) s.(total_served) s.(service_revenue)
    s.(commodity_prices) s.(executed_digests) s.(uptime) s.(uri_to_node) s.(node_to_uri)
    s.(committee_selection_beacon) s.(committee_selection_beacon_non_revealing_node)
    s.(withdraws) s.(mints) s.(assigned_jobs) s.(jobs).
Definition set_current_epoch_served (v : gmap NodeIndex NodeServed) (s : StateExecutor) : StateExecutor :=
  mkState s.(metadata) s.(account_info) s.(client_keys) s.(node_info)
    s.(consensus_key_to_index) s.(pub_key_to_index) s.(latencies) s.(committee_info)
    s.(services) s.(parameters) s.(rep_measurements) s.(rep_scores)
    s.(submitted_rep_measurements) v s.(last_epoch_served) s.(total_served)
    s.(service_revenue) s.(commodity_prices) s.(executed_digests) s.(uptime)
    s.(uri_to_node) s.(node_to_uri) s.(committee_selection_beacon)
    s.(committee_selection_beacon_non_revealing_node) s.(withdraws) s.(mints)
    s.(assigned_jobs) s.(jobs).
Definition set_last_epoch_served (v : gmap NodeIndex NodeServed) (s : StateExecutor) : StateExecutor :=
  mkState s.(metadata) s.(account_info) s.(client_keys) s.(node_info)
    s.(consensus_key_to_index) s.(pub_key_to_index) s.(latencies) s.(committee_info)
    s.(services) s.(parameters) s.(rep_measurements) s.(rep_scores)
    s.(submitted_rep_measurements) s.(current_epoch_served) v s.(total_served)
    s.(service_revenue) s.(commodity_prices) s.(executed_digests) s.(uptime)
    s.(uri_to_node) s.(node_to_uri) s.(committee_selection_beacon)
    s.(committee_selection_beacon_non_revealing_node) s.(withdraws) s.(mints)
    s.(assigned_jobs) s.(jobs).
Definition set_total_served (v : gmap Epoch TotalServed) (s : StateExecutor) : StateExecutor :=
  mkState s.(metadata) s.(account_info) s.(client_keys) s.(node_info)
    s.(consensus_key_to_index) s.(pub_key_to_index) s.(latencies) s.(committee_info)
    s.(services) s.(parameters) s.(rep_measurements) s.(rep_scores)
    s.(submitted_rep_measurements) s.(current_epoch_served) s.(last_epoch_served) v
    s.(service_revenue) s.(commodity_prices) s.(executed_digests) s.(uptime)
    s.(uri_to_node) s.(node_to_uri) s.(committee_selection_beacon)
    s.(committee_selection_beacon_non_revealing_node) s.(withdraws) s.(mints)
    s.(assigned_jobs) s.(jobs).
Definition set_service_revenue (v : gmap ServiceId ServiceRevenue) (s : StateExecutor) : StateExecutor :=
  mkState s.(metadata) s.(account_info) s.(client_keys) s.(node_info)
    s.(consensus_key_to_index) s.(pub_key_to_index) s.(latencies) s.(committee_info)
    s.(services) s.(parameters) s.(rep_measurements) s.(rep_scores)
    s.(submitted_rep_measurements) s.(current_epoch_served) s.(last_epoch_served)
    s.(total_served) v s.(commodity_prices) s.(executed_digests) s.(uptime)
    s.(uri_to_node) s.(node_to_uri) s.(committee_selection_beacon)
    s.(committee_selection_beacon_non_revealing_node) s.(withdraws) s.(mints)
    s.(assigned_jobs) s.(jobs).
Definition set_commodity_prices (v : gmap CommodityTypes Z) (s : StateExecutor) : StateExecutor :=
  mkState s.(metadata) s.(account_info) s.(client_keys) s.(node_info)
    s.(consensus_key_to_index) s.(pub_key_to_index) s.(latencies) s.(committee_info)
    s.(services) s.(parameters) s.(rep_measurements) s.(rep_scores)
    s.(submitted_rep_measurements) s.(current_epoch_served) s.(last_epoch_served)
    s.(total_served) s.(service_revenue) v s.(executed_digests) s.(uptime)
    s.(uri_to_node) s.(node_to_uri) s.(committee_selection_beacon)
    s.(committee_selection_beacon_non_revealing_node) s.(withdraws) s.(mints)
    s.(assigned_jobs) s.(jobs).
Definition set_executed_digests (v : gmap TxHash unit) (s : StateExecutor) : StateExecutor :=
  mkState s.(metadata) s.(account_info) s.(client_keys) s.(node_info)
    s.(consensus_key_to_index) s.(pub_key_to_index) s.(latencies) s.(committee_info)
    s.(services) s.(parameters) s.(rep_measurements) s.(rep_scores)
    s.(submitted_rep_measurements) s.(current_epoch_served) s.(last_epoch_served)
    s.(total_served) s.(service_revenue) s.(commodity_prices) v s.(uptime)
    s.(uri_to_node) s.(node_to_uri) s.(committee_selection_beacon)
    s.(committee_selection_beacon_non_revealing_node) s.(withdraws) s.(mints)
    s.(assigned_jobs) s.(jobs).
Definition set_uptime (v : gmap NodeIndex Z) (s : StateExecutor) : StateExecutor :=
  mkState s.(metadata) s.(account_info) s.(client_keys) s.(node_info)
    s.(consensus_key_to_index) s.(pub_key_to_index) s.(latencies) s.(committee_info)
    s.(services) s.(parameters) s.(rep_measurements) s.(rep_scores)
    s.(submitted_rep_measurements) s.(current_epoch_served) s.(last_epoch_served)
    s.(total_served) s.(service_revenue) s.(commodity_prices) s.(executed_digests) v
    s.(uri_to_node) s.(node_to_uri) s.(committee_selection_beacon)
    s.(committee_selection_beacon_non_revealing_node) s.(withdraws) s.(mints)
    s.(assigned_jobs) s.(jobs).
Definition set_uri_to_node (v : gmap Blake3Hash (gset NodeIndex)) (s : StateExecutor) : StateExecutor :=
  mkState s.(metadata) s.(account_info) s.(client_keys) s.(node_info)
    s.(consensus_key_to_index) s.(pub_key_to_index) s.(latencies) s.(committee_info)
    s.(services) s.(parameters) s.(rep_measurements) s.(rep_scores)
    s.(submitted_rep_measurements) s.(current_epoch_served) s.(last_epoch_served)
    s.(total_served) s.(service_revenue) s.(commodity_prices) s.(executed_digests)
    s.(uptime) v s.(node_to_uri) s.(committee_selection_beacon)
    s.(committee_selection_beacon_non_revealing_node) s.(withdraws) s.(mints)
    s.(assigned_jobs) s.(jobs).
Definition set_node_to_uri (v : gmap NodeIndex (gset Blake3Hash)) (s : StateExecutor) : StateExecutor :=
  mkState s.(metadata) s.(account_info) s.(client_keys) s.(node_info)
    s.(consensus_key_to_index) s.(pub_key_to_index) s.(latencies) s.(committee_info)
    s.(services) s.(parameters) s.(rep_measurements) s.(rep_scores)
    s.(submitted_rep_measurements) s.(current_epoch_served) s.(last_epoch_served)
    s.(total_served) s.(service_revenue) s.(commodity_prices) s.(executed_digests)
    s.(uptime) s.(uri_to_node) v s.(committee_selection_beacon)
    s.(committee_selection_beacon_non_revealing_node) s.(withdraws) s.(mints)
    s.(assigned_jobs) s.(jobs).
Definition set_committee_selection_beacon (v : gmap NodeIndex BeaconEntry) (s : StateExecutor) : StateExecutor :=
  mkState s.(metadata) s.(account_info) s.(client_keys) s.(node_info)
    s.(consensus_key_to_index) s.(pub_key_to_index) s.(latencies) s.(committee_info)
    s.(services) s.(parameters) s.(rep_measurements) s.(rep_scores)
    s.(submitted_rep_measurements) s.(current_epoch_served) s.(last_epoch_served)
    s.(total_served) s.(service_revenue) s.(commodity_prices) s.(executed_digests)
    s.(uptime) s.(uri_to_node) s.(node_to_uri) v
    s.(committee_selection_beacon_non_revealing_node) s.(withdraws) s.(mints)
    s.(assigned_jobs) s.(jobs).
Definition set_committee_selection_beacon_non_revealing_node (v : gmap NodeIndex unit) (s : StateExecutor) : StateExecutor :=
  mkState s.(metadata) s.(account_info) s.(client_keys) s.(node_info)
    s.(consensus_key_to_index) s.(pub_key_to_index) s.(latencies) s.(committee_info)
    s.(services) s.(parameters) s.(rep_measurements) s.(rep_scores)
    s.(submitted_rep_measurements) s.(current_epoch_served) s.(last_epoch_served)
    s.(total_served) s.(service_revenue) s.(commodity_prices) s.(executed_digests)
    s.(uptime) s.(uri_to_node) s.(node_to_uri) s.(committee_selection_beacon) v
    s.(withdraws) s.(mints) s.(assigned_jobs) s.(jobs).
Definition set_withdraws (v : gmap Z WithdrawInfo) (s : StateExecutor) : StateExecutor :=
  mkState s.(metadata) s.(account_info) s.(client_keys) s.(node_info)
    s.(consensus_key_to_index) s.(pub_key_to_index) s.(latencies) s.(committee_info)
    s.(services) s.(parameters) s.(rep_measurements) s.(rep_scores)
    s.(submitted_rep_measurements) s.(current_epoch_served) s.(last_epoch_served)
    s.(total_served) s.(service_revenue) s.(commodity_prices) s.(executed_digests)
    s.(uptime) s.(uri_to_node) s.(node_to_uri) s.(committee_selection_beacon)
    s.(committee_selection_beacon_non_revealing_node) v s.(mints) s.(assigned_jobs)
    s.(jobs).
Definition set_mints (v : gmap Hash32 MintInfo) (s : StateExecutor) : StateExecutor :=
  mkState s.(metadata) s.(account_info) s.(client_keys) s.(node_info)
    s.(consensus_key_to_index) s.(pub_key_to_index) s.(latencies) s.(committee_info)
    s.(services) s.(parameters) s.(rep_measurements) s.(rep_scores)
    s.(submitted_rep_measurements) s.(current_epoch_served) s.(last_epoch_served)
    s.(total_served) s.(service_revenue) s.(commodity_prices) s.(executed_digests)
    s.(uptime) s.(uri_to_node) s.(node_to_uri) s.(committee_selection_beacon)
    s.(committee_selection_beacon_non_revealing_node) s.(withdraws) v s.(assigned_jobs)
    s.(jobs).
Definition set_assigned_jobs (v : gmap NodeIndex (list Hash32)) (s : StateExecutor) : StateExecutor :=
  mkState s.(metadata) s.(account_info) s.(client_keys) s.(node_info)
    s.(consensus_key_to_index) s.(pub_key_to_index) s.(latencies) s.(committee_info)
    s.(services) s.(parameters) s.(rep_measurements) s.(rep_scores)
    s.(submitted_rep_measurements) s.(current_epoch_served) s.(last_epoch_served)
    s.(total_served) s.(service_revenue) s.(commodity_prices) s.(executed_digests)
    s.(uptime) s.(uri_to_node) s.(node_to_uri) s.(committee_selection_beacon)
    s.(committee_selection_beacon_non_revealing_node) s.(withdraws) s.(mints) v s.(jobs).
Definition set_jobs (v : gmap Hash32 Job) (s : StateExecutor) : StateExecutor :=
  mkState s.(metadata) s.(account_info) s.(client_keys) s.(node_info)
    s.(consensus_key_to_index) s.(pub_key_to_index) s.(latencies) s.(committee_info)
    s.(services) s.(parameters) s.(rep_measurements) s.(rep_scores)
    s.(submitted_rep_measurements) s.(current_epoch_served) s.(last_epoch_served)
    s.(total_served) s.(service_revenue) s.(commodity_prices) s.(executed_digests)
    s.(uptime) s.(uri_to_node) s.(node_to_uri) s.(committee_selection_beacon)
    s.(committee_selection_beacon_non_revealing_node) s.(withdraws) s.(mints)
    s.(assigned_jobs) v.

(** Evaluates the projections of updated states. *)
Ltac state_simpl :=
  cbn [metadata
    account_info
    client_keys
    node_info
    consensus_key_to_index
    pub_key_to_index
    latencies
    committee_info
    services
    parameters
    rep_measurements
    rep_scores
    submitted_rep_measurements
    current_epoch_served
    last_epoch_served
    total_served
    service_revenue
    commodity_prices
    executed_digests
    uptime
    uri_to_node
    node_to_uri
    committee_selection_beacon
    committee_selection_beacon_non_revealing_node
    withdraws
    mints
    assigned_jobs
    jobs
    set_metadata
    set_account_info
    set_client_keys
    set_node_info
    set_consensus_key_to_index
    set_pub_key_to_index
    set_latencies
    set_committee_info
    set_services
    set_parameters
    set_rep_measurements
    set_rep_scores
    set_submitted_rep_measurements
    set_current_epoch_served
    set_last_epoch_served
    set_total_served
    set_service_revenue
    set_commodity_prices
    set_executed_digests
    set_uptime
    set_uri_to_node
    set_node_to_uri
    set_committee_selection_beacon
    set_committee_selection_beacon_non_revealing_node
    set_withdraws
    set_mints
    set_assigned_jobs
    set_jobs] in *.

Abbreviation Exec := (M StateExecutor).

(** *** What the executor calls outside of its own code *)

Class Host := {
  (** [UpdatePayload::to_digest] (the transcript hash of [lib/ink-quill]). *)
  to_digest : UpdatePayload → TxHash;
  (** [PublicKey::verify] of the consensus, node and account keys. *)
  consensus_verify : ConsensusPublicKey → N → TxHash → bool;
  node_verify : NodePublicKey → N → TxHash → bool;
  account_verify : EthAddress → N → TxHash → bool;
  (** [ethers]: [Transaction::recover_from_mut] and [eth::verify_signature]. *)
  recover_from_mut : EthersTransaction → option EthAddress;
  eth_verify_signature : EthersTransaction → EthAddress → bool;
  (** [ethers]: [FleekContractCalls::decode]. *)
  fleek_contract_decode : list Z → option FleekContractCalls;
  (** [str::parse::<IpAddr>]. *)
  parse_ip_addr : string → option IpAddr;
  (** [sha3]: the digest of a sequence of 32-byte words and of a beacon. *)
  sha3_words : list Hash32 → Hash32;
  sha3_beacon : Epoch → CommitteeSelectionBeaconRound →
    CommitteeSelectionBeaconReveal → CommitteeSelectionBeaconCommit;
  (** [rand]: [StdRng::from_seed] and [SliceRandom::shuffle]. *)
  shuffle : Hash32 → list NodeIndex → list NodeIndex;
  (** The order in which the keys of a table or of a hash map come. *)
  keys : ∀ {K V : Type} `{Countable K}, gmap K V → list K
}.

(** [rand] documents a shuffle as a permutation; an iterator over the keys
    of a map yields every key exactly once. *)
Class HostLaws (H : Host) : Prop := {
  shuffle_permutation seed l : shuffle seed l ≡ₚ l;
  keys_NoDup {K V : Type} `{Countable K} (m : gmap K V) : NoDup (keys m);
  elem_of_keys {K V : Type} `{Countable K} (m : gmap K V) (k : K) :
    k ∈ keys m ↔ is_Some (m !! k)
}.

(** The instance the witnesses evaluate with: every signature is accepted,
    hashes are the argument or a sum, nothing is shuffled, keys come in the
    order of the map. *)
Definition host_plain : Host := {|
  to_digest p := (1000 * Z.to_N (payload_nonce p) +
    match payload_sender p with
    | TransactionSender.NodeConsensus k | TransactionSender.NodeMain k
    | TransactionSender.AccountOwner k => k
    end)%N;
  consensus_verify _ _ _ := true;
  node_verify _ _ _ := true;
  account_verify _ _ _ := true;
  recover_from_mut t := Some (eth_from t);
  eth_verify_signature _ _ := true;
  fleek_contract_decode _ := None;
  parse_ip_addr _ := Some 0%N;
  sha3_words ws := fold_right N.add 0%N ws;
  sha3_beacon epoch round reveal := (Z.to_N epoch + Z.to_N round + reveal)%N;
  shuffle _ l := l;
  keys K V _ _ m := (map_to_list m).*1
|}.

Lemma host_plain_laws : HostLaws host_plain.
Proof.
  split; simpl.
  - done.
  - intros. apply NoDup_fst_map_to_list.
  - intros K V ?? m k. rewrite list_elem_of_fmap. split.
    + intros ([k' v] & -> & Hin). apply elem_of_map_to_list in Hin. eauto.
    + intros [v Hv]. exists (k, v). by rewrite elem_of_map_to_list.
Qed.

(** The rows of a table in iteration order: [as_map().into_iter()] and
    [keys().filter_map(|k| get(k).map(|v| (k, v)))]. *)
Definition table_rows `{Host} {K V} `{Countable K} (m : gmap K V) : list (K * V) :=
  omap (λ k, (λ v, (k, v)) <$> (m !! k)) (keys m).

(** *** Writing a row *)

Definition metadata_set (k : Metadata) (v : Value) : Exec unit :=
  modify (λ s, set_metadata (<[k:=v]> s.(metadata)) s).
Definition account_info_set (k : EthAddress) (v : AccountInfo) : Exec unit :=
  modify (λ s, set_account_info (<[k:=v]> s.(account_info)) s).
Definition node_info_set (k : NodeIndex) (v : NodeInfo) : Exec unit :=
  modify (λ s, set_node_info (<[k:=v]> s.(node_info)) s).
Definition committee_info_set (k : Epoch) (v : Committee) : Exec unit :=
  modify (λ s, set_committee_info (<[k:=v]> s.(committee_info)) s).

(** *** Reading single values

    The [get_*] methods of the executor; a missing or ill-typed row gives
    the default, or aborts where the code unwraps. *)

Definition get_epoch (s : StateExecutor) : Epoch :=
  match s.(metadata) !! Metadata.Epoch with
  | Some (Value.Epoch epoch) => epoch
  | _ => 0
  end.

Definition get_block_number : Exec BlockNumber :=
  s ← get;
  v ← unwrap (s.(metadata) !! Metadata.BlockNumber);
  mret (match v with Value.BlockNumber n => n | _ => 0 end).

Definition get_block_hash (s : StateExecutor) : Hash32 :=
  match s.(metadata) !! Metadata.LastBlockHash with
  | Some (Value.Hash hash) => hash
  | _ => 0%N
  end.

Definition get_sub_dag_index (s : StateExecutor) : Z :=
  match s.(metadata) !! Metadata.SubDagIndex with
  | Some (Value.SubDagIndex value) => value
  | _ => 0
  end.

Definition get_sub_dag_round (s : StateExecutor) : Z :=
  match s.(metadata) !! Metadata.SubDagRound with
  | Some (Value.SubDagRound value) => value
  | _ => 0
  end.

Definition get_epoch_era (s : StateExecutor) : EpochEra :=
  match s.(metadata) !! Metadata.EpochEra with
  | Some (Value.EpochEra era) => era
  | _ => 0
  end.

Definition set_epoch_era (era : EpochEra) : Exec unit :=
  metadata_set Metadata.EpochEra (Value.EpochEra era).

Definition get_committee (s : StateExecutor) (epoch : Epoch) : Committee :=
  default Committee_default (s.(committee_info) !! epoch).

Definition get_current_committee (s : StateExecutor) : option Committee :=
  s.(committee_info) !! get_epoch s.

Definition get_node_index (s : StateExecutor) (k : NodePublicKey) : option NodeIndex :=
  s.(pub_key_to_index) !! k.

Definition get_node_public_key (i : NodeIndex) : Exec NodePublicKey :=
  s ← get; info ← unwrap (s.(node_info) !! i); mret info.(public_key).

Definition set_last_epoch_hash (state_hash : Hash32) : Exec unit :=
  metadata_set Metadata.LastEpochHash (Value.Hash state_hash).

Definition set_last_block (block_hash : Hash32) (sub_dag_index sub_dag_round : Z)
    : Exec unit :=
  metadata_set Metadata.LastBlockHash (Value.Hash block_hash);;
  metadata_set Metadata.SubDagIndex (Value.SubDagIndex sub_dag_index);;
  metadata_set Metadata.SubDagRound (Value.SubDagRound sub_dag_round);;
  n ← get_block_number;
  metadata_set Metadata.BlockNumber (Value.BlockNumber (n +[64] 1)).

Definition increment_block_number : Exec BlockNumber :=
  n ← get_block_number;
  metadata_set Metadata.BlockNumber (Value.BlockNumber (n +[64] 1));;
  mret (n +[64] 1).

(** [NodeInfo], [Staking] and [AccountInfo] with one field assigned. *)

Definition with_stake (st : Staking) (n : NodeInfo) : NodeInfo :=
  mkNodeInfo n.(node_owner) n.(public_key) n.(consensus_key) n.(staked_since) st
    n.(node_domain) n.(worker_domain) n.(node_ports) n.(worker_public_key)
    n.(participation) n.(node_nonce).
Definition with_participation (p : Participation) (n : NodeInfo) : NodeInfo :=
  mkNodeInfo n.(node_owner) n.(public_key) n.(consensus_key) n.(staked_since)
    n.(node_stake) n.(node_domain) n.(worker_domain) n.(node_ports)
    n.(worker_public_key) p n.(node_nonce).
Definition with_node_nonce (k : Nonce) (n : NodeInfo) : NodeInfo :=
  mkNodeInfo n.(node_owner) n.(public_key) n.(consensus_key) n.(staked_since)
    n.(node_stake) n.(node_domain) n.(worker_domain) n.(node_ports)
    n.(worker_public_key) n.(participation) k.

Definition with_staked (v : Z) (st : Staking) : Staking :=
  mkStaking v st.(stake_locked_until) st.(locked) st.(locked_until).
Definition with_stake_locked_until (v : Z) (st : Staking) : Staking :=
  mkStaking st.(staked) v st.(locked) st.(locked_until).
Definition with_locked (v : Z) (st : Staking) : Staking :=
  mkStaking st.(staked) st.(stake_locked_until) v st.(locked_until).
Definition with_locked_until (v : Z) (st : Staking) : Staking :=
  mkStaking st.(staked) st.(stake_locked_until) st.(locked) v.

Definition with_flk_balance (v : Z) (a : AccountInfo) : AccountInfo :=
  mkAccountInfo v a.(stables_balance) a.(bandwidth_balance) a.(nonce) a.(client_key).
Definition with_stables_balance (v : Z) (a : AccountInfo) : AccountInfo :=
  mkAccountInfo a.(flk_balance) v a.(bandwidth_balance) a.(nonce) a.(client_key).
Definition with_bandwidth_balance (v : Z) (a : AccountInfo) : AccountInfo :=
  mkAccountInfo a.(flk_balance) a.(stables_balance) v a.(nonce) a.(client_key).
Definition with_nonce (v : Nonce) (a : AccountInfo) : AccountInfo :=
  mkAccountInfo a.(flk_balance) a.(stables_balance) a.(bandwidth_balance) v a.(client_key).
Definition with_client_key (v : option ClientPublicKey) (a : AccountInfo) : AccountInfo :=
  mkAccountInfo a.(flk_balance) a.(stables_balance) a.(bandwidth_balance) a.(nonce) v.

Definition account_or_default (s : StateExecutor) (k : EthAddress) : AccountInfo :=
  default AccountInfo_default (s.(account_info) !! k).

Section table_rows.
Context {H : Host} {HL : HostLaws H} {K V : Type} `{Countable K}.
Implicit Types m : gmap K V.

Lemma elem_of_table_rows m k v : (k, v) ∈ table_rows m ↔ m !! k = Some v.
Proof.
  unfold table_rows. rewrite list_elem_of_omap. split.
  - intros (k' & _ & Hk'). destruct (m !! k') eqn:E; simplify_eq/=. done.
  - intros Hk. exists k. split; [apply elem_of_keys; eauto|by rewrite Hk].
Qed.

Lemma table_rows_fst m : (table_rows m).*1 = keys m.
Proof.
  unfold table_rows. assert (∀ k, k ∈ keys m → is_Some (m !! k)) as Hks.
  { intros k. by rewrite elem_of_keys. }
  induction (keys m) as [|k l IH]; [done|]. simpl.
  destruct (Hks k) as [v Hv]; [by left|]. rewrite Hv. simpl. f_equal.
  apply IH. intros j Hj. apply Hks. by right.
Qed.

Lemma NoDup_table_rows m : NoDup (table_rows m).*1.
Proof. rewrite table_rows_fst. apply keys_NoDup. Qed.

Lemma table_rows_permutation m : table_rows m ≡ₚ map_to_list m.
Proof.
  apply NoDup_Permutation.
  - apply (NoDup_fmap_1 fst), NoDup_table_rows.
  - apply NoDup_map_to_list.
  - intros [k v]. by rewrite elem_of_table_rows, elem_of_map_to_list.
Qed.

Lemma list_to_map_table_rows m : list_to_map (table_rows m) = m.
Proof.
  rewrite (list_to_map_proper _ (map_to_list m)).
  - apply list_to_map_to_list.
  - apply NoDup_table_rows.
  - apply table_rows_permutation.
Qed.
End table_rows.

(** ** Reverts

    A handler is [revert_clean] when a reverted transaction leaves every
    table as it was. *)
Definition revert_clean (m : Exec TransactionResponse) : Prop :=
  ∀ s e s', m s = Some (Revert e, s') → s' = s.

Create HintDb lightning discriminated.

(** Follows every branch of a handler that reverts. *)
Ltac solve_revert_clean :=
  let s := fresh "s" in let e := fresh "e" in let s' := fresh "s'" in
  let Hrun := fresh "Hrun" in
  intros s e s' Hrun; run_M Hrun; try done; try congruence.
