(* ===== verification/Ledger.v ===== *)
(** * Ledger: the FLK held by the application state

    The abstract view the token handlers are verified against: the FLK of
    the accounts plus the FLK staked or locked at nodes.  [ledger_ok] says
    that no amount is negative and that the total fits the 256-bit amounts
    of [HpUfixed<18>]; under it the fixed-point additions and subtractions
    of the handlers are exact. *)

From S2P Require Import Prelude HpFixed Types State.
From stdpp Require Import base gmap list.
From Stdlib Require Import ZArith Lia.
Open Scope Z_scope.

Definition node_flk (n : NodeInfo) : Z := staked (node_stake n) + locked (node_stake n).

Definition flk_accounts (s : StateExecutor) : Z := map_sum flk_balance s.(account_info).
Definition flk_nodes (s : StateExecutor) : Z := map_sum node_flk s.(node_info).
Definition flk_total (s : StateExecutor) : Z := flk_accounts s + flk_nodes s.

Record ledger_ok (s : StateExecutor) : Prop := mkLedgerOk {
  ledger_accounts : map_Forall (λ _ a, 0 ≤ flk_balance a) s.(account_info);
  ledger_nodes : map_Forall
    (λ _ n, 0 ≤ staked (node_stake n) ∧ 0 ≤ locked (node_stake n)) s.(node_info);
  ledger_fits : flk_total s < 2 ^ 256
}.

(** What a credit of [amount] makes of the total: the addition to a balance wraps when
    the sum does not fit, and 2^256 are lost. *)
Definition credited (total amount total' : Z) : Prop :=
  total' = total + amount ∨ (2 ^ 256 ≤ total + amount ∧ total' = total + amount - 2 ^ 256).

Section bounds.
Context (s : StateExecutor) (Hok : ledger_ok s).

Lemma flk_accounts_nonneg : 0 ≤ flk_accounts s.
Proof. apply map_sum_nonneg. apply Hok. Qed.

Lemma node_flk_nonneg i n : s.(node_info) !! i = Some n → 0 ≤ node_flk n.
Proof.
  intros Hi. destruct (ledger_nodes s Hok i n Hi). unfold node_flk. lia.
Qed.

Lemma flk_nodes_nonneg : 0 ≤ flk_nodes s.
Proof. apply map_sum_nonneg, node_flk_nonneg. Qed.

Lemma account_flk_bounds k :
  0 ≤ flk_balance (account_or_default s k) ≤ flk_accounts s.
Proof.
  unfold account_or_default. destruct (s.(account_info) !! k) as [a|] eqn:Hk; simpl.
  - split; [by eapply (ledger_accounts s Hok)|].
    apply (map_sum_lookup_le _ _ k); [apply Hok|done].
  - split; [done|apply flk_accounts_nonneg].
Qed.

(** Two different accounts together hold at most what all accounts hold. *)
Lemma account_flk_pair a b :
  a ≠ b →
  flk_balance (account_or_default s a) + flk_balance (account_or_default s b)
  ≤ flk_accounts s.
Proof.
  intros Hab. unfold account_or_default, flk_accounts.
  destruct (s.(account_info) !! a) as [x|] eqn:Ha; simpl.
  - rewrite (map_sum_delete _ _ a x Ha).
    assert (from_option flk_balance 0 (delete a (account_info s) !! b)
            ≤ map_sum flk_balance (delete a (account_info s))) as Hle.
    { destruct (delete a (account_info s) !! b) as [y|] eqn:Hb; simpl.
      - apply (map_sum_lookup_le _ _ b); [|done]. intros k v Hk.
        apply lookup_delete_Some in Hk as [_ Hk]. by eapply (ledger_accounts s Hok).
      - apply map_sum_nonneg. intros k v Hk.
        apply lookup_delete_Some in Hk as [_ Hk]. by eapply (ledger_accounts s Hok). }
    rewrite lookup_delete_ne in Hle by done.
    destruct (account_info s !! b); simpl in *; lia.
  - pose proof (account_flk_bounds b) as Hb. unfold account_or_default in Hb.
    unfold flk_accounts in Hb. lia.
Qed.

Lemma node_flk_bounds i n :
  s.(node_info) !! i = Some n →
  0 ≤ staked (node_stake n) ∧ 0 ≤ locked (node_stake n) ∧ node_flk n ≤ flk_nodes s.
Proof.
  intros Hi. destruct (ledger_nodes s Hok i n Hi).
  split; [done|split; [done|]].
  apply (map_sum_lookup_le _ _ i); [apply node_flk_nonneg|done].
Qed.
End bounds.

(** ** Effect of writing one row *)

Lemma flk_accounts_update s k a :
  flk_accounts (set_account_info (<[k:=a]> s.(account_info)) s)
  = flk_accounts s + flk_balance a - flk_balance (account_or_default s k).
Proof.
  unfold flk_accounts, account_or_default. state_simpl. rewrite map_sum_insert.
  destruct (account_info s !! k); simpl; lia.
Qed.

Lemma flk_nodes_update s i n n' :
  s.(node_info) !! i = Some n →
  flk_nodes (set_node_info (<[i:=n']> s.(node_info)) s)
  = flk_nodes s + node_flk n' - node_flk n.
Proof.
  intros Hi. unfold flk_nodes. state_simpl. rewrite map_sum_insert, Hi. simpl. lia.
Qed.

Lemma flk_nodes_new s i n :
  s.(node_info) !! i = None →
  flk_nodes (set_node_info (<[i:=n]> s.(node_info)) s) = flk_nodes s + node_flk n.
Proof.
  intros Hi. unfold flk_nodes. state_simpl. rewrite map_sum_insert_None by done. lia.
Qed.

Lemma ledger_ok_account_update s k a :
  ledger_ok s → 0 ≤ flk_balance a →
  flk_total s + flk_balance a - flk_balance (account_or_default s k) < 2 ^ 256 →
  ledger_ok (set_account_info (<[k:=a]> s.(account_info)) s).
Proof.
  intros Hok Ha Hfit. split; state_simpl.
  - apply map_Forall_insert_2; [done|apply Hok].
  - apply Hok.
  - unfold flk_total in *. rewrite flk_accounts_update.
    unfold flk_nodes in *. state_simpl. lia.
Qed.

Lemma ledger_ok_node_update s i n n' :
  ledger_ok s → s.(node_info) !! i = Some n →
  0 ≤ staked (node_stake n') → 0 ≤ locked (node_stake n') →
  flk_total s + node_flk n' - node_flk n < 2 ^ 256 →
  ledger_ok (set_node_info (<[i:=n']> s.(node_info)) s).
Proof.
  intros Hok Hi ?? Hfit. split; state_simpl.
  - apply Hok.
  - apply map_Forall_insert_2; [done|apply Hok].
  - unfold flk_total in *. rewrite (flk_nodes_update s i n n' Hi).
    unfold flk_accounts in *. state_simpl. lia.
Qed.

(** [ledger_ok] and the totals read two tables only. *)
Lemma ledger_frame s s' :
  s'.(account_info) = s.(account_info) → s'.(node_info) = s.(node_info) →
  flk_total s' = flk_total s ∧ (ledger_ok s → ledger_ok s').
Proof.
  intros Ha Hn. assert (flk_total s' = flk_total s) as Ht.
  { unfold flk_total, flk_accounts, flk_nodes. by rewrite Ha, Hn. }
  split; [done|]. intros [???]. split; rewrite ?Ha, ?Hn, ?Ht; done.
Qed.

Lemma account_or_default_insert_eq s k a :
  account_or_default (set_account_info (<[k:=a]> s.(account_info)) s) k = a.
Proof. unfold account_or_default. state_simpl. by rewrite lookup_insert_eq. Qed.

Lemma account_or_default_insert_ne s k j a :
  k ≠ j →
  account_or_default (set_account_info (<[k:=a]> s.(account_info)) s) j
  = account_or_default s j.
Proof. intros. unfold account_or_default. state_simpl. by rewrite lookup_insert_ne. Qed.

(** ** Moving FLK between two accounts *)

Section moves.
Context {R : Ruint} {L : RuintLaws R} (s : StateExecutor).

Lemma ledger_debit_exact a amt :
  ledger_ok s → 0 ≤ amt ≤ flk_balance (account_or_default s a) →
  hp_sub (flk_balance (account_or_default s a)) amt
  = flk_balance (account_or_default s a) - amt ∧
  in_width 256 (flk_balance (account_or_default s a)).
Proof.
  intros Hok ?. pose proof (account_flk_bounds s Hok a).
  pose proof (flk_nodes_nonneg s Hok). pose proof (ledger_fits s Hok).
  assert (in_width 256 (flk_balance (account_or_default s a))) by
    (unfold flk_total in *; split; lia).
  split; [|done]. by apply hp_sub_exact.
Qed.

Lemma ledger_credit_exact a b amt :
  ledger_ok s → a ≠ b → 0 ≤ amt ≤ flk_balance (account_or_default s a) →
  hp_add (flk_balance (account_or_default s b)) amt
  = flk_balance (account_or_default s b) + amt.
Proof.
  intros Hok Hab ?. pose proof (account_flk_pair s Hok a b Hab).
  pose proof (account_flk_bounds s Hok b).
  pose proof (flk_nodes_nonneg s Hok). pose proof (ledger_fits s Hok).
  apply hp_add_exact. unfold flk_total in *. split; lia.
Qed.

Lemma ledger_transfer a b amt :
  ledger_ok s → a ≠ b → 0 ≤ amt ≤ flk_balance (account_or_default s a) →
  let s' := set_account_info
    (<[a:=with_flk_balance (flk_balance (account_or_default s a) - amt)
            (account_or_default s a)]>
    (<[b:=with_flk_balance (flk_balance (account_or_default s b) + amt)
            (account_or_default s b)]> s.(account_info))) s in
  flk_total s' = flk_total s ∧ ledger_ok s'.
Proof.
  intros Hok Hab Hamt. cbv zeta. rewrite insert_insert_ne by done.
  set (a' := with_flk_balance _ (account_or_default s a)).
  set (b' := with_flk_balance _ (account_or_default s b)).
  pose (s1 := set_account_info (<[a:=a']> s.(account_info)) s).
  change (set_account_info (<[b:=b']> (<[a:=a']> (account_info s))) s)
    with (set_account_info (<[b:=b']> s1.(account_info)) s1).
  assert (account_or_default s1 b = account_or_default s b) as Eb
    by (by apply account_or_default_insert_ne).
  assert (flk_total s1 = flk_total s - amt) as Et.
  { unfold flk_total, s1. rewrite flk_accounts_update. subst a'. simpl.
    unfold flk_nodes. state_simpl. lia. }
  pose proof (ledger_fits s Hok). pose proof (account_flk_bounds s Hok b).
  assert (ledger_ok s1) as Hok1.
  { apply ledger_ok_account_update; [done|subst a'; simpl; lia..]. }
  split.
  - unfold flk_total in *. rewrite flk_accounts_update, Eb. subst b'. simpl.
    unfold flk_nodes in *. state_simpl. lia.
  - apply ledger_ok_account_update; [done|subst b'; simpl; lia|].
    rewrite Eb, Et. subst b'. simpl. lia.
Qed.
End moves.

(** ** Effects, for states known by two of their tables *)

Lemma ledger_account_effect s s' k a :
  s'.(account_info) = <[k:=a]> s.(account_info) → s'.(node_info) = s.(node_info) →
  flk_total s' = flk_total s + flk_balance a - flk_balance (account_or_default s k) ∧
  (ledger_ok s → 0 ≤ flk_balance a → flk_total s' < 2 ^ 256 → ledger_ok s').
Proof.
  intros Ha Hn.
  destruct (ledger_frame (set_account_info (<[k:=a]> s.(account_info)) s) s') as [Ht Hl];
    [done..|].
  assert (flk_total s' = flk_total s + flk_balance a
          - flk_balance (account_or_default s k)) as He.
  { rewrite Ht. unfold flk_total. rewrite flk_accounts_update.
    unfold flk_nodes. state_simpl. lia. }
  split; [done|]. intros Hok Hpos Hfit. apply Hl, ledger_ok_account_update; [done|done|lia].
Qed.

Lemma ledger_node_effect s s' i n n' :
  s.(node_info) !! i = Some n →
  s'.(node_info) = <[i:=n']> s.(node_info) → s'.(account_info) = s.(account_info) →
  flk_total s' = flk_total s + node_flk n' - node_flk n ∧
  (ledger_ok s → 0 ≤ staked (node_stake n') → 0 ≤ locked (node_stake n') →
   flk_total s' < 2 ^ 256 → ledger_ok s').
Proof.
  intros Hi Hn Ha.
  destruct (ledger_frame (set_node_info (<[i:=n']> s.(node_info)) s) s') as [Ht Hl];
    [done..|].
  assert (flk_total s' = flk_total s + node_flk n' - node_flk n) as He.
  { rewrite Ht. unfold flk_total. rewrite (flk_nodes_update s i n n' Hi).
    unfold flk_accounts. state_simpl. lia. }
  split; [done|]. intros. eapply Hl, ledger_ok_node_update; [done..|lia].
Qed.

Lemma ledger_node_new_effect s s' i n :
  s.(node_info) !! i = None →
  s'.(node_info) = <[i:=n]> s.(node_info) → s'.(account_info) = s.(account_info) →
  flk_total s' = flk_total s + node_flk n ∧
  (ledger_ok s → 0 ≤ staked (node_stake n) → 0 ≤ locked (node_stake n) →
   flk_total s' < 2 ^ 256 → ledger_ok s').
Proof.
  intros Hi Hn Ha.
  assert (flk_total s' = flk_total s + node_flk n) as He.
  { unfold flk_total, flk_accounts, flk_nodes. rewrite Ha, Hn.
    rewrite map_sum_insert_None by done. lia. }
  split; [done|]. intros Hok ???. split.
  - rewrite Ha. apply Hok.
  - rewrite Hn. apply map_Forall_insert_2; [done|apply Hok].
  - done.
Qed.

(** An account row known by lookup. *)
Lemma account_or_default_Some s k a :
  s.(account_info) !! k = Some a → account_or_default s k = a.
Proof. intros Hk. unfold account_or_default. by rewrite Hk. Qed.
