(* ===== verification/Accounts.v ===== *)
(** * Accounts: balances, the bridge and governance

    The handlers of [core/application/src/state/executor.rs] that work on
    the [account_info], [withdraws], [mints] and [parameters] tables:
    withdraw, mint, deposit, transfer, the two clean-up transactions,
    protocol parameters and client keys; and the two internal minting
    functions of the reward distribution.

    Proved here: a revert leaves the state unchanged; a transfer moves
    exactly the amount between two accounts and keeps the sum of balances;
    a withdrawal never overwrites a pending one; a bridge transaction is
    minted at most once; only the governance account reaches the privileged
    handlers. *)

From S2P Require Import Prelude HpFixed Types State Ledger.
From stdpp Require Import base gmap list.
From Stdlib Require Import ZArith Lia.
Open Scope Z_scope.

Section Accounts.
  Context {R : Ruint} {H : Host}.

(** *** Guards *)

Definition only_account_owner (sender : TransactionSender)
    : Result EthAddress TransactionResponse :=
  match sender with
  | TransactionSender.AccountOwner account => Ok account
  | _ => Err (Revert ExecutionError.OnlyAccountOwner)
  end.

(** The lookup of the governance account; aborts when it is missing. *)
Definition governance_address : Exec EthAddress :=
  s ← get;
  match s.(metadata) !! Metadata.GovernanceAddress with
  | Some (Value.AccountPublicKey address) => mret address
  | _ => panic
  end.

Definition get_withdraw_id (s : StateExecutor) : Z :=
  match s.(metadata) !! Metadata.WithdrawId with
  | Some (Value.WithdrawId withdraw_id) => withdraw_id
  | _ => 0
  end.

Definition withdraws_set (k : Z) (v : WithdrawInfo) : Exec unit :=
  modify (λ s, set_withdraws (<[k:=v]> s.(withdraws)) s).

Definition withdraw (sender : TransactionSender) (receiver : EthAddress)
    (amount : Z) (token : Tokens) : Exec TransactionResponse :=
  let? sender := only_account_owner sender in
  s ← get;
  match s.(account_info) !! sender with
  | None => mret (Revert ExecutionError.AccountDoesNotExist)
  | Some account =>
      let withdraw_id := get_withdraw_id s in
      match token with
      | Tokens.FLK =>
          if bool_decide (amount > account.(flk_balance))
          then mret (Revert ExecutionError.InsufficientBalance)
          else
            let account :=
              with_flk_balance (sub_assign account.(flk_balance) amount) account in
            withdraws_set withdraw_id
              (mkWithdrawInfo 0 Tokens.FLK receiver amount);;
            metadata_set Metadata.WithdrawId (Value.WithdrawId (withdraw_id +[64] 1));;
            account_info_set sender account;;
            mret (Success ExecutionData.None)
      | Tokens.USDC =>
          let amount := convert_precision 18 6 amount in
          if bool_decide (amount > account.(stables_balance))
          then mret (Revert ExecutionError.InsufficientBalance)
          else
            let account :=
              with_stables_balance (sub_assign account.(stables_balance) amount) account in
            withdraws_set withdraw_id
              (mkWithdrawInfo 0 Tokens.USDC receiver (convert_precision 6 18 amount));;
            metadata_set Metadata.WithdrawId (Value.WithdrawId (withdraw_id +[64] 1));;
            account_info_set sender account;;
            mret (Success ExecutionData.None)
      end
  end.

Definition clear_withdraws (sender : TransactionSender) (withdraw_id : Z)
    : Exec TransactionResponse :=
  let? sender := only_account_owner sender in
  governance_address ← governance_address;
  if bool_decide (sender ≠ governance_address)
  then mret (Revert ExecutionError.OnlyGovernance)
  else
    s ← get;
    for_each (λ id, modify (λ s, set_withdraws (delete id s.(withdraws)) s))
      (filter (λ id, id < withdraw_id) (keys s.(withdraws)));;
    mret (Success ExecutionData.None).

Definition mint (sender : TransactionSender) (reciever : EthAddress) (amount : Z)
    (token : Tokens) (eth_tx_hash : Hash32) (block_number : Z)
    : Exec TransactionResponse :=
  let? sender := only_account_owner sender in
  governance_address ← governance_address;
  if bool_decide (sender ≠ governance_address)
  then mret (Revert ExecutionError.OnlyGovernance)
  else
    s ← get;
    let account := account_or_default s reciever in
    if is_some (s.(mints) !! eth_tx_hash)
    then mret (Revert ExecutionError.AlreadyMinted)
    else
      let mint_info := mkMintInfo amount token reciever eth_tx_hash block_number in
      modify (λ s, set_mints (<[eth_tx_hash:=mint_info]> s.(mints)) s);;
      let account :=
        match token with
        | Tokens.FLK =>
            with_flk_balance (add_assign account.(flk_balance) amount) account
        | Tokens.USDC =>
            with_stables_balance
              (add_assign account.(stables_balance) (convert_precision 18 6 amount))
              account
        end in
      account_info_set reciever account;;
      mret (Success ExecutionData.None).

Definition clear_mints (sender : TransactionSender) (block_number : Z)
    : Exec TransactionResponse :=
  let? sender := only_account_owner sender in
  governance_address ← governance_address;
  if bool_decide (sender ≠ governance_address)
  then mret (Revert ExecutionError.OnlyGovernance)
  else
    s ← get;
    for_each (λ key, modify (λ s, set_mints (delete key s.(mints)) s))
      (filter (λ row, mint_block_number row.2 < block_number)
         (table_rows s.(mints))).*1;;
    mret (Success ExecutionData.None).

(** [verify_proof_of_consensus] accepts every proof for now. *)
Definition verify_proof_of_consensus : bool := true.

Definition deposit (sender : TransactionSender) (amount : Z) (token : Tokens)
    : Exec TransactionResponse :=
  let? sender := only_account_owner sender in
  if negb verify_proof_of_consensus
  then mret (Revert ExecutionError.InvalidProof)
  else
    s ← get;
    let account := account_or_default s sender in
    account ← match token with
              | Tokens.FLK =>
                  mret (with_flk_balance (add_assign account.(flk_balance) amount) account)
              | Tokens.USDC =>
                  match hp_try_into_uint 128 18 amount with
                  | Ok v => mret (with_bandwidth_balance
                                    (account.(bandwidth_balance) +[128] v) account)
                  | Err _ => panic
                  end
              end;
    account_info_set sender account;;
    mret (Success ExecutionData.None).

Definition transfer (sender : TransactionSender) (amount : Z) (_token : Tokens)
    (to : EthAddress) : Exec TransactionResponse :=
  let? sender := only_account_owner sender in
  s ← get;
  let sender_account := account_or_default s sender in
  let to_account := account_or_default s to in
  if bool_decide (sender_account = to_account)
  then mret (Revert ExecutionError.CantSendToYourself)
  else if bool_decide (sender_account.(flk_balance) < amount)
  then mret (Revert ExecutionError.InsufficientBalance)
  else
    let sender_account :=
      with_flk_balance (sub_assign sender_account.(flk_balance) amount) sender_account in
    let to_account :=
      with_flk_balance (add_assign to_account.(flk_balance) amount) to_account in
    account_info_set to to_account;;
    account_info_set sender sender_account;;
    mret (Success ExecutionData.None).

Definition change_protocol_param (sender : TransactionSender)
    (param : ProtocolParamKey) (value : ProtocolParamValue)
    : Exec TransactionResponse :=
  let? sender := only_account_owner sender in
  governance_address ← governance_address;
  if bool_decide (sender ≠ governance_address)
  then mret (Revert ExecutionError.OnlyGovernance)
  else
    modify (λ s, set_parameters (<[param:=value]> s.(parameters)) s);;
    mret (Success ExecutionData.None).

(** The big-endian value of a byte string. *)
Definition bytes_to_N (bs : list Z) : N :=
  fold_left (λ acc b, (acc * 256 + Z.to_N b)%N) bs 0%N.

(** [ClientPublicKey] is 96 bytes long. *)
Definition approve_client_key (sender : EthAddress) (client_key_bytes : list Z)
    : Exec TransactionResponse :=
  if bool_decide (length client_key_bytes ≠ 96%nat)
  then mret (Revert ExecutionError.InvalidClientKeyLength)
  else
    s ← get;
    let account := account_or_default s sender in
    if is_some account.(client_key)
    then mret (Revert ExecutionError.DuplicateClientKey)
    else
      account_info_set sender
        (with_client_key (Some (bytes_to_N client_key_bytes)) account);;
      mret (Success ExecutionData.None).

Definition revoke_client_key (sender : EthAddress) : Exec TransactionResponse :=
  s ← get;
  let account := account_or_default s sender in
  if is_none account.(client_key)
  then mret (Revert ExecutionError.MissingClientKey)
  else
    account_info_set sender (with_client_key None account);;
    mret (Success ExecutionData.None).

(** *** Internal minting *)

Definition mint_and_transfer_stables (amount : Z) (owner : EthAddress) : Exec unit :=
  s ← get;
  let account := account_or_default s owner in
  account_info_set owner
    (with_stables_balance (add_assign account.(stables_balance) amount) account).

Definition get_epochs_per_year : Exec Z :=
  s ← get;
  v ← unwrap (s.(parameters) !! ProtocolParamKey.EpochsPerYear);
  match v with
  | ProtocolParamValue.EpochsPerYear v => mret v
  | _ => panic
  end.

Definition mint_and_transfer_flk (amount : Z) (owner : EthAddress) : Exec unit :=
  s ← get;
  let account := account_or_default s owner in
  account_info_set owner
    (with_flk_balance (add_assign account.(flk_balance) amount) account);;
  s ← get;
  current_supply ← match s.(metadata) !! Metadata.TotalSupply with
                   | Some (Value.HpUfixed supply) => mret supply
                   | _ => panic
                   end;
  epoch_per_year ← get_epochs_per_year;
  let current_supply := add_assign current_supply amount in
  metadata_set Metadata.TotalSupply (Value.HpUfixed current_supply);;
  s ← get;
  let current_epoch := get_epoch s in
  if bool_decide (epoch_per_year = 0) then panic
  else if bool_decide ((current_epoch +[64] 1) mod epoch_per_year = 0)
  then metadata_set Metadata.SupplyYearStart (Value.HpUfixed current_supply)
  else mret tt.

End Accounts.

(** ** The guards, inverted *)

Lemma only_account_owner_Ok sender a :
  only_account_owner sender = Ok a → sender = TransactionSender.AccountOwner a.
Proof. by destruct sender; intros; simplify_eq/=. Qed.

Lemma only_account_owner_Err sender e :
  only_account_owner sender = Err e → e = Revert ExecutionError.OnlyAccountOwner.
Proof. by destruct sender; intros; simplify_eq/=. Qed.

Lemma governance_address_Some s a s' :
  governance_address s = Some (a, s') →
  s' = s ∧ s.(metadata) !! Metadata.GovernanceAddress = Some (Value.AccountPublicKey a).
Proof. intros Hrun. unfold governance_address in Hrun. by run_M Hrun. Qed.

(** Turns the boolean tests a handler went through into facts. *)
Ltac resolve_guards :=
  repeat match goal with
  | Hb : bool_decide _ = true |- _ => apply bool_decide_eq_true in Hb
  | Hb : bool_decide _ = false |- _ => apply bool_decide_eq_false in Hb
  | Hb : negb _ = true |- _ => apply negb_true_iff in Hb
  | Hb : negb _ = false |- _ => apply negb_false_iff in Hb
  | Hb : is_some _ = true |- _ => apply is_some_true in Hb
  | Hb : is_some _ = false |- _ => apply is_some_false in Hb
  | Hb : only_account_owner _ = Ok _ |- _ => apply only_account_owner_Ok in Hb; subst
  | Hb : only_account_owner _ = Err _ |- _ => apply only_account_owner_Err in Hb; simplify_eq
  | Hb : governance_address _ = Some (_, _) |- _ =>
      apply governance_address_Some in Hb as [? ?]; simplify_eq
  end.

(** ** Reverts are clean *)

Section reverts.
Context {R : Ruint} {H : Host}.

Lemma withdraw_revert_clean sender receiver amount token :
  revert_clean (withdraw sender receiver amount token).
Proof. unfold withdraw, withdraws_set, metadata_set, account_info_set. solve_revert_clean. Qed.

Lemma clear_withdraws_revert_clean sender id : revert_clean (clear_withdraws sender id).
Proof. unfold clear_withdraws, governance_address. solve_revert_clean. Qed.

Lemma mint_revert_clean sender rcv amount token h n :
  revert_clean (mint sender rcv amount token h n).
Proof. unfold mint, governance_address, account_info_set. solve_revert_clean. Qed.

Lemma clear_mints_revert_clean sender n : revert_clean (clear_mints sender n).
Proof. unfold clear_mints, governance_address. solve_revert_clean. Qed.

Lemma deposit_revert_clean sender amount token : revert_clean (deposit sender amount token).
Proof. unfold deposit, account_info_set. solve_revert_clean. Qed.

Lemma transfer_revert_clean sender amount token to :
  revert_clean (transfer sender amount token to).
Proof. unfold transfer, account_info_set. solve_revert_clean. Qed.

Lemma change_protocol_param_revert_clean sender k v :
  revert_clean (change_protocol_param sender k v).
Proof. unfold change_protocol_param, governance_address. solve_revert_clean. Qed.

Lemma approve_client_key_revert_clean sender k : revert_clean (approve_client_key sender k).
Proof. unfold approve_client_key, account_info_set. solve_revert_clean. Qed.

Lemma revoke_client_key_revert_clean sender : revert_clean (revoke_client_key sender).
Proof. unfold revoke_client_key, account_info_set. solve_revert_clean. Qed.
End reverts.

#[export] Hint Resolve withdraw_revert_clean clear_withdraws_revert_clean
  mint_revert_clean clear_mints_revert_clean deposit_revert_clean
  transfer_revert_clean change_protocol_param_revert_clean
  approve_client_key_revert_clean revoke_client_key_revert_clean : lightning.

(** ** Transfers *)

Section transfers.
Context {R : Ruint} {L : RuintLaws R}.

(** The state after a successful transfer. *)
Lemma transfer_success sender amount token to s r s' :
  transfer sender amount token to s = Some (Success r, s') →
  ∃ a, sender = TransactionSender.AccountOwner a ∧
    account_or_default s a ≠ account_or_default s to ∧
    amount ≤ flk_balance (account_or_default s a) ∧
    s' = set_account_info
           (<[a:=with_flk_balance
                (hp_sub (flk_balance (account_or_default s a)) amount)
                (account_or_default s a)]>
           (<[to:=with_flk_balance
                (hp_add (flk_balance (account_or_default s to)) amount)
                (account_or_default s to)]> s.(account_info))) s.
Proof.
  intros Hrun. unfold transfer, account_info_set in Hrun.
  run_M Hrun; resolve_guards. eexists. split_and!; eauto; lia.
Qed.


(** The guard against self-transfers compares the contents of the two
    accounts, not the addresses: two different accounts that agree in
    every field cannot send to each other, whatever they hold. *)
Lemma transfer_equal_accounts_rejected a b amount token s :
  account_or_default s a = account_or_default s b →
  transfer (TransactionSender.AccountOwner a) amount token b s
  = Some (Revert ExecutionError.CantSendToYourself, s).
Proof. intros E. unfold transfer. unfold_M. simpl. by rewrite bool_decide_eq_true_2. Qed.

(** A transfer to another account succeeds whenever the two accounts
    differ and the sender holds the amount: no other condition rejects it
    and it never aborts. *)
Theorem transfer_succeeds a b amount token s :
  account_or_default s a ≠ account_or_default s b →
  amount ≤ flk_balance (account_or_default s a) →
  ∃ s', transfer (TransactionSender.AccountOwner a) amount token b s
        = Some (Success ExecutionData.None, s').
Proof.
  intros Hne Hle. unfold transfer, account_info_set. unfold_M. simpl.
  rewrite bool_decide_eq_false_2 by done. rewrite bool_decide_eq_false_2 by lia. eauto.
Qed.
End transfers.

(** ** Withdrawals, mints and deposits *)

Section bridge.
Context {R : Ruint} {L : RuintLaws R} {H : Host} {HL : HostLaws H}.

(** Every pending withdrawal has an id below the next one. *)
Definition withdraw_ids_ok (s : StateExecutor) : Prop :=
  map_Forall (λ id _, id < get_withdraw_id s) s.(withdraws).

Lemma withdraw_success sender rcv amount token s r s' :
  withdraw sender rcv amount token s = Some (Success r, s') →
  ∃ a acc, sender = TransactionSender.AccountOwner a ∧
    s.(account_info) !! a = Some acc ∧
    s'.(node_info) = s.(node_info) ∧
    s'.(metadata) = <[Metadata.WithdrawId:=Value.WithdrawId (get_withdraw_id s +[64] 1)]>
                      s.(metadata) ∧
    match token with
    | Tokens.FLK =>
        amount ≤ flk_balance acc ∧
        s'.(withdraws) = <[get_withdraw_id s:=mkWithdrawInfo 0 Tokens.FLK rcv amount]>
                           s.(withdraws) ∧
        s'.(account_info) = <[a:=with_flk_balance (hp_sub (flk_balance acc) amount) acc]>
                              s.(account_info)
    | Tokens.USDC =>
        let amount := convert_precision 18 6 amount in
        amount ≤ stables_balance acc ∧
        s'.(withdraws) = <[get_withdraw_id s:=mkWithdrawInfo 0 Tokens.USDC rcv
                             (convert_precision 6 18 amount)]> s.(withdraws) ∧
        s'.(account_info) = <[a:=with_stables_balance
                                   (hp_sub (stables_balance acc) amount) acc]>
                              s.(account_info)
    end.
Proof.
  intros Hrun. unfold withdraw, withdraws_set, metadata_set, account_info_set in Hrun.
  run_M Hrun; resolve_guards; eexists _, _; split_and!; eauto; state_simpl; try done; lia.
Qed.

(** A successful withdrawal is recorded under a fresh id: the next id
    points to it and no pending withdrawal is overwritten; the ids stay
    below the counter. *)
Theorem withdraw_recorded sender rcv amount token s r s' :
  withdraw_ids_ok s → in_width 64 (get_withdraw_id s + 1) →
  withdraw sender rcv amount token s = Some (Success r, s') →
  (∃ info, s'.(withdraws) !! get_withdraw_id s = Some info ∧
           withdraw_receiver info = rcv ∧ withdraw_token info = token) ∧
  s.(withdraws) ⊆ s'.(withdraws) ∧
  get_withdraw_id s' = get_withdraw_id s + 1 ∧ withdraw_ids_ok s'.
Proof.
  intros Hids Hw Hrun. apply withdraw_success in Hrun as (a & acc & _ & _ & _ & Hm & Ht).
  assert (s.(withdraws) !! get_withdraw_id s = None) as Hfresh.
  { destruct (s.(withdraws) !! get_withdraw_id s) eqn:E; [|done].
    specialize (Hids _ _ E). simpl in Hids. lia. }
  assert (get_withdraw_id s' = get_withdraw_id s + 1) as Hid.
  { unfold get_withdraw_id at 1. rewrite Hm, lookup_insert_eq. by apply wrap_small. }
  assert (∃ info, s'.(withdraws) = <[get_withdraw_id s:=info]> s.(withdraws) ∧
    withdraw_receiver info = rcv ∧ withdraw_token info = token) as (info & Hws & ? & ?).
  { destruct token; destruct Ht as (_ & -> & _); eauto. }
  rewrite Hws. split_and!.
  - exists info. by rewrite lookup_insert_eq.
  - by apply insert_subseteq.
  - done.
  - unfold withdraw_ids_ok. rewrite Hws, Hid. apply map_Forall_insert_2; [lia|].
    intros j w Hj. specialize (Hids j w Hj). simpl in *. lia.
Qed.

Lemma withdraw_ledger sender rcv amount token s r s' :
  ledger_ok s → 0 ≤ amount →
  withdraw sender rcv amount token s = Some (Success r, s') →
  flk_total s' = flk_total s - (if decide (token = Tokens.FLK) then amount else 0) ∧
  ledger_ok s'.
Proof.
  intros Hok Ha Hrun. apply withdraw_success in Hrun as (a & acc & _ & Hacc & Hn & _ & Ht).
  apply account_or_default_Some in Hacc as <-.
  pose proof (ledger_fits s Hok). pose proof (account_flk_bounds s Hok a).
  destruct token; destruct Ht as (Hle & _ & Hai); simpl.
  - destruct (ledger_account_effect s s' a _ Hai Hn) as [He Hl]. simpl in *.
    split; [lia|apply Hl; [done|lia|lia]].
  - destruct (ledger_debit_exact s a amount Hok ltac:(lia)) as [Hs _]. rewrite Hs in Hai.
    destruct (ledger_account_effect s s' a _ Hai Hn) as [He Hl]. simpl in *.
    split; [lia|apply Hl; [done|lia|lia]].
Qed.

Lemma mint_success sender rcv amount token h n s r s' :
  mint sender rcv amount token h n s = Some (Success r, s') →
  ∃ gov, sender = TransactionSender.AccountOwner gov ∧
    s.(metadata) !! Metadata.GovernanceAddress = Some (Value.AccountPublicKey gov) ∧
    s.(mints) !! h = None ∧
    s'.(metadata) = s.(metadata) ∧ s'.(node_info) = s.(node_info) ∧
    s'.(mints) = <[h:=mkMintInfo amount token rcv h n]> s.(mints) ∧
    s'.(account_info) =
      <[rcv:=match token with
             | Tokens.FLK => with_flk_balance
                 (hp_add (flk_balance (account_or_default s rcv)) amount)
                 (account_or_default s rcv)
             | Tokens.USDC => with_stables_balance
                 (hp_add (stables_balance (account_or_default s rcv))
                    (convert_precision 18 6 amount))
                 (account_or_default s rcv)
             end]> s.(account_info).
Proof.
  intros Hrun. unfold mint, account_info_set in Hrun.
  run_M Hrun; resolve_guards; eexists; split_and!; eauto;
    match goal with Hn : ¬ (_ ≠ _) |- _ => apply dec_stable in Hn; by subst end.
Qed.

(** A bridge transaction is minted at most once: after a successful
    mint any further mint for the same Ethereum transaction, by the same
    governance account, is rejected without effect. *)
Theorem mint_once sender rcv amount token h n s r s' rcv2 amount2 token2 n2 :
  mint sender rcv amount token h n s = Some (Success r, s') →
  mint sender rcv2 amount2 token2 h n2 s' = Some (Revert ExecutionError.AlreadyMinted, s').
Proof.
  intros Hrun. apply mint_success in Hrun as (gov & -> & Hg & _ & Hm & _ & Hms & _).
  unfold mint, governance_address. unfold_M. simpl. rewrite Hm, Hg. simpl.
  rewrite bool_decide_eq_false_2 by naive_solver. by rewrite Hms, lookup_insert_eq.
Qed.

(** The effect on the ledger of an account that is credited. *)
Lemma credit_ledger s s' k a amount :
  ledger_ok s → in_width 256 amount → s'.(account_info) = <[k:=a]> s.(account_info) → s'.(node_info) = s.(node_info) →
  flk_balance a = hp_add (flk_balance (account_or_default s k)) amount →
  credited (flk_total s) amount (flk_total s') ∧ (flk_total s + amount < 2 ^ 256 → ledger_ok s').
Proof.
  intros Hok Ha Hai Hn Hb. pose proof (account_flk_bounds s Hok k). pose proof (flk_nodes_nonneg s Hok).
  pose proof (ledger_fits s Hok). destruct (ledger_account_effect s s' k a Hai Hn) as [He Hl].
  unfold hp_add in Hb. rewrite u256_add_spec in Hb. unfold credited, flk_total, in_width in *.
  destruct (decide (flk_balance (account_or_default s k) + amount < 2 ^ 256)).
  - rewrite wrap_small in Hb by (unfold in_width; lia). split; [left; lia|]. intros ?. apply Hl; [done|lia|lia].
  - split; [right|lia]. unfold wrap in Hb. rewrite <-(Z_mod_plus_full _ (-1)), Z.mod_small in Hb by lia. lia.
Qed.

(** And that of an account whose FLK stays. *)
Lemma same_flk_ledger s s' k a :
  ledger_ok s → s'.(account_info) = <[k:=a]> s.(account_info) → s'.(node_info) = s.(node_info) →
  flk_balance a = flk_balance (account_or_default s k) →
  credited (flk_total s) 0 (flk_total s') ∧ (flk_total s + 0 < 2 ^ 256 → ledger_ok s').
Proof.
  intros Hok Hai Hn Hb. pose proof (account_flk_bounds s Hok k). pose proof (ledger_fits s Hok).
  destruct (ledger_account_effect s s' k a Hai Hn) as [He Hl]. split; [left; lia|]. intros ?. apply Hl; [done|lia|lia].
Qed.

Lemma mint_ledger sender rcv amount token h n s r s' :
  ledger_ok s → in_width 256 amount → mint sender rcv amount token h n s = Some (Success r, s') →
  let delta := if decide (token = Tokens.FLK) then amount else 0 in
  credited (flk_total s) delta (flk_total s') ∧ (flk_total s + delta < 2 ^ 256 → ledger_ok s').
Proof.
  intros Hok Ha Hrun. apply mint_success in Hrun as (gov & _ & _ & _ & _ & Hn & _ & Hai).
  destruct token; [by eapply same_flk_ledger|by eapply credit_ledger].
Qed.

Lemma deposit_success sender amount token s r s' :
  deposit sender amount token s = Some (Success r, s') →
  ∃ a acc, sender = TransactionSender.AccountOwner a ∧
    s'.(node_info) = s.(node_info) ∧
    s'.(account_info) = <[a:=acc]> s.(account_info) ∧
    flk_balance acc = match token with
      | Tokens.FLK => hp_add (flk_balance (account_or_default s a)) amount
      | Tokens.USDC => flk_balance (account_or_default s a)
      end.
Proof.
  intros Hrun. unfold deposit, account_info_set in Hrun.
  run_M Hrun; resolve_guards; eexists _, _; split_and!; eauto.
Qed.

Lemma deposit_ledger sender amount token s r s' :
  ledger_ok s → in_width 256 amount → deposit sender amount token s = Some (Success r, s') →
  let delta := if decide (token = Tokens.FLK) then amount else 0 in
  credited (flk_total s) delta (flk_total s') ∧ (flk_total s + delta < 2 ^ 256 → ledger_ok s').
Proof.
  intros Hok Ha Hrun. apply deposit_success in Hrun as (a & acc & _ & Hn & Hai & Hf).
  destruct token; [by eapply same_flk_ledger|by eapply credit_ledger].
Qed.

(** A USDC deposit whose whole part does not fit 128 bits aborts the
    node: the conversion to [u128] is unwrapped. *)
Lemma deposit_usdc_aborts a amount s :
  in_width 256 amount → 2 ^ 128 * 10 ^ 18 ≤ amount →
  deposit (TransactionSender.AccountOwner a) amount Tokens.USDC s = None.
Proof.
  intros Hw Hle. unfold deposit, hp_try_into_uint. unfold_M. simpl.
  destruct (hp_scale_eq 18) as [-> Hpos]; [lia|].
  rewrite bool_decide_eq_false_2 by lia. rewrite u256_div_spec by lia.
  rewrite bool_decide_eq_false_2; [done|].
  assert (2 ^ 128 ≤ amount / 10 ^ 18); [|lia].
  apply Z.div_le_lower_bound; lia.
Qed.

(** ** Clean-up by governance *)

Lemma for_each_delete_withdraws l s :
  for_each (λ id, modify (λ s, set_withdraws (delete id s.(withdraws)) s)) l s
  = Some (tt, set_withdraws (foldl (λ m id, delete id m) s.(withdraws) l) s).
Proof.
  revert s. induction l as [|x l IH]; intros s; [by destruct s|].
  simpl. unfold_M. rewrite IH. by state_simpl.
Qed.

Lemma for_each_delete_mints l s :
  for_each (λ k, modify (λ s, set_mints (delete k s.(mints)) s)) l s
  = Some (tt, set_mints (foldl (λ m k, delete k m) s.(mints) l) s).
Proof.
  revert s. induction l as [|x l IH]; intros s; [by destruct s|].
  simpl. unfold_M. rewrite IH. by state_simpl.
Qed.

(** Clearing withdrawals up to an id removes exactly the withdrawals
    with a smaller id, whatever the order of iteration, and only the
    governance account can do it. *)
Theorem clear_withdraws_exact sender id s r s' :
  clear_withdraws sender id s = Some (Success r, s') →
  s'.(withdraws) = filter (λ '(i, _), id ≤ i) s.(withdraws) ∧
  s' = set_withdraws s'.(withdraws) s ∧
  ∃ gov, sender = TransactionSender.AccountOwner gov ∧
    s.(metadata) !! Metadata.GovernanceAddress = Some (Value.AccountPublicKey gov).
Proof.
  intros Hrun. unfold clear_withdraws in Hrun. run_M Hrun; resolve_guards.
  rewrite for_each_delete_withdraws in *. simplify_eq. state_simpl. split_and!.
  - rewrite foldl_delete_filter. apply map_filter_ext. intros i w Hi.
    rewrite list_elem_of_filter, elem_of_keys. simpl.
    split; [intros Hn|intros ? [??]; lia].
    destruct (decide (id ≤ i)); [done|]. destruct Hn. split; [lia|eauto].
  - done.
  - match goal with Hn : ¬ (_ ≠ _) |- _ => apply dec_stable in Hn; subst end. eauto.
Qed.

(** Clearing mints up to a block removes exactly the mints recorded
    for an earlier block, and only the governance account can do it. *)
Theorem clear_mints_exact sender n s r s' :
  clear_mints sender n s = Some (Success r, s') →
  s'.(mints) = filter (λ '(_, i), n ≤ mint_block_number i) s.(mints) ∧
  s' = set_mints s'.(mints) s ∧
  ∃ gov, sender = TransactionSender.AccountOwner gov ∧
    s.(metadata) !! Metadata.GovernanceAddress = Some (Value.AccountPublicKey gov).
Proof.
  intros Hrun. unfold clear_mints in Hrun. run_M Hrun; resolve_guards.
  rewrite for_each_delete_mints in *. simplify_eq. state_simpl. split_and!.
  - rewrite foldl_delete_filter. apply map_filter_ext. intros i w Hi.
    rewrite list_elem_of_fmap. split.
    + intros Hn. destruct (decide (n ≤ mint_block_number w)); [done|].
      destruct Hn. exists (i, w). rewrite list_elem_of_filter, elem_of_table_rows.
      simpl. split_and!; [done|lia|done].
    + intros Hle ([i' w'] & Heq & Hin). simpl in Heq. subst i'. rewrite list_elem_of_filter, elem_of_table_rows in Hin.
      simpl in *. destruct Hin. simplify_eq. lia.
  - done.
  - match goal with Hn : ¬ (_ ≠ _) |- _ => apply dec_stable in Hn; subst end. eauto.
Qed.
End bridge.
