(* ===== verification/Nodes.v ===== *)
(** * Nodes: the node registry, staking and participation

    The handlers of [core/application/src/state/executor.rs] on the
    [node_info], [pub_key_to_index] and [consensus_key_to_index] tables:
    stake, stake_lock, unstake, withdraw_unstaked, opt_in, opt_out, the
    sender guards and the nonce of a sender.

    Proved here: the two key indexes stay exact inverses of the registry;
    stake, unstake and withdraw_unstaked move FLK between accounts and nodes
    without creating or destroying any; tokens leave a node only for its
    owner, after the lock period. *)

From S2P Require Import Prelude HpFixed Types State Ledger Accounts.
From stdpp Require Import base gmap list sorting.
From Stdlib Require Import ZArith Lia.
Open Scope Z_scope.

Section Nodes.
  Context {R : Ruint}.

(** *** Guards *)

Definition only_node (s : StateExecutor) (sender : TransactionSender)
    : Result NodeIndex TransactionResponse :=
  match sender with
  | TransactionSender.NodeMain public_key =>
      match s.(pub_key_to_index) !! public_key with
      | Some node_index => Ok node_index
      | None => Err (Revert ExecutionError.NodeDoesNotExist)
      end
  | TransactionSender.NodeConsensus public_key =>
      match s.(consensus_key_to_index) !! public_key with
      | Some node_index => Ok node_index
      | None => Err (Revert ExecutionError.NodeDoesNotExist)
      end
  | _ => Err (Revert ExecutionError.OnlyNode)
  end.

Definition get_min_stake : Exec Z :=
  s ← get;
  match s.(parameters) !! ProtocolParamKey.MinimumNodeStake with
  | Some (ProtocolParamValue.MinimumNodeStake v) => mret (hp_from_uint 18 v)
  | _ => panic
  end.

Definition has_sufficient_stake (node_index : NodeIndex) : Exec bool :=
  s ← get;
  match s.(node_info) !! node_index with
  | Some node_info =>
      min_stake ← get_min_stake;
      mret (bool_decide
        (min_stake ≤ hp_add (staked (node_stake node_info)) (locked (node_stake node_info))))
  | None => mret false
  end.

Definition has_sufficient_unlocked_stake (node_index : NodeIndex) : Exec bool :=
  s ← get;
  match s.(node_info) !! node_index with
  | Some node_info =>
      min_stake ← get_min_stake;
      mret (bool_decide (min_stake ≤ staked (node_stake node_info)))
  | None => mret false
  end.

Definition is_participating (s : StateExecutor) (node_index : NodeIndex) : bool :=
  match s.(node_info) !! node_index with
  | Some info =>
      match info.(participation) with
      | Participation.OptedOut | Participation.True => true
      | _ => false
      end
  | None => false
  end.

Definition only_node_with_sufficient_stake (sender : TransactionSender)
    : Exec (Result NodeIndex TransactionResponse) :=
  s ← get;
  match only_node s sender with
  | Ok node_index =>
      b ← has_sufficient_stake node_index;
      mret (if b : bool then Ok node_index
            else Err (Revert ExecutionError.InsufficientStake))
  | Err e => mret (Err e)
  end.

(** The source's body: it tests [has_sufficient_stake]. *)
Definition only_node_with_sufficient_unlocked_stake (sender : TransactionSender)
    : Exec (Result NodeIndex TransactionResponse) :=
  s ← get;
  match only_node s sender with
  | Ok node_index =>
      b ← has_sufficient_stake node_index;
      mret (if b : bool then Ok node_index
            else Err (Revert ExecutionError.InsufficientStake))
  | Err e => mret (Err e)
  end.

Definition only_node_with_sufficient_stake_and_participating
    (sender : TransactionSender) : Exec (Result NodeIndex TransactionResponse) :=
  r ← only_node_with_sufficient_stake sender;
  match r with
  | Ok node_index =>
      s ← get;
      mret (if is_participating s node_index then Ok node_index
            else Err (Revert ExecutionError.NodeNotParticipating))
  | Err e => mret (Err e)
  end.

Definition get_node_info (s : StateExecutor) (sender : TransactionSender)
    : option (NodeIndex * NodeInfo) :=
  match sender with
  | TransactionSender.NodeMain public_key =>
      index ← s.(pub_key_to_index) !! public_key;
      info ← s.(node_info) !! index; Some (index, info)
  | TransactionSender.NodeConsensus public_key =>
      index ← s.(consensus_key_to_index) !! public_key;
      info ← s.(node_info) !! index; Some (index, info)
  | TransactionSender.AccountOwner _ => None
  end.

(** *** The registry *)

(** The rows of a [BTreeMap]: ascending keys. *)
Definition row_le {V} (a b : Z * V) : Prop := a.1 ≤ b.1.
#[global] Instance row_le_dec {V} (a b : Z * V) : Decision (row_le a b).
Proof. unfold row_le. apply _. Defined.
Definition btree_rows {V} (m : gmap Z V) : list (Z * V) :=
  merge_sort row_le (map_to_list m).

Lemma elem_of_btree_rows {V} (m : gmap Z V) k v :
  (k, v) ∈ btree_rows m ↔ m !! k = Some v.
Proof.
  unfold btree_rows. rewrite merge_sort_Permutation. apply elem_of_map_to_list.
Qed.

Lemma NoDup_btree_rows {V} (m : gmap Z V) : NoDup (btree_rows m).*1.
Proof.
  unfold btree_rows. rewrite merge_sort_Permutation. apply NoDup_fst_map_to_list.
Qed.

Definition get_node_registry (s : StateExecutor) : gmap NodeIndex NodeInfo :=
  filter (λ '(_, node), 0 < staked (node_stake node)) s.(node_info).

Definition get_next_node_index (s : StateExecutor) : NodeIndex :=
  match s.(metadata) !! Metadata.NextNodeIndex with
  | Some (Value.NextNodeIndex index) => index
  | _ => 0
  end.

Definition create_node (node : NodeInfo) : Exec bool :=
  s ← get;
  if is_some (s.(pub_key_to_index) !! node.(public_key))
     || is_some (s.(consensus_key_to_index) !! node.(consensus_key))
  then mret false
  else
    let node_index := get_next_node_index s in
    modify (λ s, set_pub_key_to_index
                   (<[node.(public_key):=node_index]> s.(pub_key_to_index)) s);;
    modify (λ s, set_consensus_key_to_index
                   (<[node.(consensus_key):=node_index]> s.(consensus_key_to_index)) s);;
    node_info_set node_index node;;
    metadata_set Metadata.NextNodeIndex (Value.NextNodeIndex (node_index +[32] 1));;
    mret true.

Definition remove_node (node : NodePublicKey) : Exec bool :=
  s ← get;
  match s.(pub_key_to_index) !! node with
  | Some index =>
      match s.(node_info) !! index with
      | Some info =>
          modify (λ s, set_consensus_key_to_index
                         (delete info.(consensus_key) s.(consensus_key_to_index)) s)
      | None => mret tt
      end;;
      modify (λ s, set_node_info (delete index s.(node_info)) s);;
      modify (λ s, set_pub_key_to_index (delete node s.(pub_key_to_index)) s);;
      mret true
  | None => mret false
  end.

Definition with_node_registry_changes (c : NodeRegistryChanges) (k : Committee) : Committee :=
  mkCommittee k.(members) k.(ready_to_change) k.(signalled_commit_phase_timeout)
    k.(signalled_reveal_phase_timeout) k.(epoch_end_timestamp)
    k.(epoch_transition_timestamp) k.(active_node_set) c.

Definition record_node_registry_change (node_public_key : NodePublicKey)
    (change : NodeRegistryChange) : Exec unit :=
  s ← get;
  let current_epoch := get_epoch s in
  n ← get_block_number;
  let current_block_number := n +[64] 1 in
  committee ← unwrap (s.(committee_info) !! current_epoch);
  let changes := default [] (committee.(node_registry_changes) !! current_block_number) in
  committee_info_set current_epoch
    (with_node_registry_changes
       (<[current_block_number:=changes ++ [(node_public_key, change)]]>
          committee.(node_registry_changes)) committee).

(** *** Staking *)

(** The fields of an existing node that a stake transaction may replace. *)
Definition update_node_details (node_domain : option IpAddr)
    (worker_public_key : option NodePublicKey) (worker_domain : option IpAddr)
    (ports : option NodePorts) (n : NodeInfo) : NodeInfo :=
  mkNodeInfo n.(node_owner) n.(public_key) n.(consensus_key) n.(staked_since)
    n.(node_stake) (default n.(Types.node_domain) node_domain)
    (default n.(Types.worker_domain) worker_domain) (default n.(node_ports) ports)
    (default n.(Types.worker_public_key) worker_public_key)
    n.(participation) n.(node_nonce).

Definition stake (sender : TransactionSender) (amount : Z)
    (node_public_key : NodePublicKey) (node_consensus_key : option ConsensusPublicKey)
    (node_domain : option IpAddr) (worker_public_key : option NodePublicKey)
    (worker_domain : option IpAddr) (ports : option NodePorts)
    : Exec TransactionResponse :=
  let? sender := only_account_owner sender in
  s ← get;
  let current_epoch := get_epoch s in
  let owner := account_or_default s sender in
  if bool_decide (owner.(flk_balance) < amount)
  then mret (Revert ExecutionError.InsufficientBalance)
  else
    let node_index := s.(pub_key_to_index) !! node_public_key in
    if match node_consensus_key with
       | Some consensus_key =>
           bool_decide (s.(consensus_key_to_index) !! consensus_key ≠ node_index)
       | None => false
       end
    then mret (Revert ExecutionError.ConsensusKeyAlreadyIndexed)
    else
      let commit_owner : Exec TransactionResponse :=
        account_info_set sender
          (with_flk_balance (sub_assign owner.(flk_balance) amount) owner);;
        mret (Success ExecutionData.None) in
      match node_index with
      | Some index =>
          match s.(node_info) !! index with
          | None => mret (Revert ExecutionError.NodeDoesNotExist)
          | Some node =>
              let node := update_node_details node_domain worker_public_key
                            worker_domain ports node in
              let node := with_stake
                (with_staked (add_assign (staked (node_stake node)) amount)
                   (node_stake node)) node in
              node_info_set index node;;
              commit_owner
          end
      | None =>
          match node_consensus_key, node_domain, worker_public_key, worker_domain, ports with
          | Some consensus_key, Some domain, Some worker_public_key,
            Some worker_domain, Some ports =>
              let node := mkNodeInfo sender node_public_key consensus_key current_epoch
                (with_staked amount Staking_default) domain worker_domain ports
                worker_public_key Participation.False 0 in
              create_node node;;
              record_node_registry_change node_public_key NodeRegistryChange.New;;
              commit_owner
          | _, _, _, _, _ => mret (Revert ExecutionError.InsufficientNodeDetails)
          end
      end.

Definition get_max_stake_lock_time (s : StateExecutor) : Z :=
  match s.(parameters) !! ProtocolParamKey.MaxStakeLockTime with
  | Some (ProtocolParamValue.MaxStakeLockTime v) => v
  | _ => 1
  end.

Definition stake_lock (sender : TransactionSender) (node_public_key : NodePublicKey)
    (locked_for : Z) : Exec TransactionResponse :=
  let? sender := only_account_owner sender in
  s ← get;
  match get_node_info s (TransactionSender.NodeMain node_public_key) with
  | None => mret (Revert ExecutionError.NodeDoesNotExist)
  | Some (index, node) =>
      if bool_decide (sender ≠ node.(node_owner))
      then mret (Revert ExecutionError.NotNodeOwner)
      else if bool_decide (staked (node_stake node) = zero)
      then mret (Revert ExecutionError.InsufficientStake)
      else
        let epoch := get_epoch s in
        let current_lock := saturating_sub (stake_locked_until (node_stake node)) epoch in
        let max_lock_time := get_max_stake_lock_time s in
        if bool_decide (current_lock +[64] locked_for > max_lock_time)
        then mret (Revert ExecutionError.LockExceededMaxStakeLockTime)
        else
          node_info_set index
            (with_stake
               (with_stake_locked_until
                  (stake_locked_until (node_stake node) +[64] locked_for)
                  (node_stake node)) node);;
          mret (Success ExecutionData.None)
  end.

Definition get_lock_time (s : StateExecutor) : Z :=
  match s.(parameters) !! ProtocolParamKey.LockTime with
  | Some (ProtocolParamValue.LockTime v) => v
  | _ => 0
  end.

Definition unstake (sender : TransactionSender) (amount : Z)
    (node_public_key : NodePublicKey) : Exec TransactionResponse :=
  let? sender := only_account_owner sender in
  s ← get;
  match get_node_info s (TransactionSender.NodeMain node_public_key) with
  | None => mret (Revert ExecutionError.NodeDoesNotExist)
  | Some (node_index, node) =>
      if bool_decide (sender ≠ node.(node_owner))
      then mret (Revert ExecutionError.NotNodeOwner)
      else
        let current_epoch := get_epoch s in
        if bool_decide (stake_locked_until (node_stake node) > current_epoch)
        then mret (Revert ExecutionError.LockedTokensUnstakeForbidden)
        else if bool_decide (staked (node_stake node) < amount)
        then mret (Revert ExecutionError.InsufficientBalance)
        else
          let lock_time := get_lock_time s in
          let st := node_stake node in
          let st := with_staked (sub_assign (staked st) amount) st in
          let st := with_locked (add_assign (locked st) amount) st in
          let st := with_locked_until (current_epoch +[64] lock_time) st in
          let node := with_stake st node in
          node_info_set node_index node;;
          sufficient ← has_sufficient_unlocked_stake node_index;
          s ← get;
          (if negb sufficient && is_participating s node_index
           then node_info_set node_index (with_participation Participation.OptedOut node)
           else mret tt);;
          mret (Success ExecutionData.None)
  end.

Definition withdraw_unstaked (sender : TransactionSender)
    (node_public_key : NodePublicKey) (recipient : option EthAddress)
    : Exec TransactionResponse :=
  let? sender_public_key := only_account_owner sender in
  s ← get;
  match get_node_info s (TransactionSender.NodeMain node_public_key) with
  | None => mret (Revert ExecutionError.NodeDoesNotExist)
  | Some (index, node) =>
      if bool_decide (sender_public_key ≠ node.(node_owner))
      then mret (Revert ExecutionError.NotNodeOwner)
      else
        let current_epoch := get_epoch s in
        if bool_decide (locked (node_stake node) = zero)
        then mret (Revert ExecutionError.NoLockedTokens)
        else if bool_decide (locked_until (node_stake node) > current_epoch)
        then mret (Revert ExecutionError.TokensLocked)
        else
          let recipient := default sender_public_key recipient in
          let receiver := account_or_default s recipient in
          let receiver := with_flk_balance
            (add_assign receiver.(flk_balance) (locked (node_stake node))) receiver in
          let node := with_stake (with_locked zero (node_stake node)) node in
          account_info_set recipient receiver;;
          node_info_set index node;;
          mret (Success ExecutionData.None)
  end.

(** *** Participation *)

Definition opt_in (sender : TransactionSender) : Exec TransactionResponse :=
  r ← only_node_with_sufficient_unlocked_stake sender;
  let? index := r in
  s ← get;
  match s.(node_info) !! index with
  | Some node_info =>
      node_info_set index (with_participation Participation.OptedIn node_info);;
      mret (Success ExecutionData.None)
  | None => mret (Revert ExecutionError.NodeDoesNotExist)
  end.

Definition opt_out (sender : TransactionSender) : Exec TransactionResponse :=
  r ← only_node_with_sufficient_stake_and_participating sender;
  let? index := r in
  s ← get;
  match s.(node_info) !! index with
  | Some node_info =>
      node_info_set index (with_participation Participation.OptedOut node_info);;
      mret (Success ExecutionData.None)
  | None => mret (Revert ExecutionError.NodeDoesNotExist)
  end.

(** *** Nonces *)

Definition increment_nonce (sender : TransactionSender) : Exec unit :=
  s ← get;
  match sender with
  | TransactionSender.NodeMain node =>
      index ← unwrap (s.(pub_key_to_index) !! node);
      node_info ← unwrap (s.(node_info) !! index);
      node_info_set index (with_node_nonce (node_nonce node_info +[64] 1) node_info)
  | TransactionSender.NodeConsensus node =>
      index ← unwrap (s.(consensus_key_to_index) !! node);
      node_info ← unwrap (s.(node_info) !! index);
      node_info_set index (with_node_nonce (node_nonce node_info +[64] 1) node_info)
  | TransactionSender.AccountOwner account =>
      let account_info := account_or_default s account in
      account_info_set account (with_nonce (account_info.(nonce) +[64] 1) account_info)
  end.

End Nodes.

(** ** The guards, inverted *)

(** A computation that only reads. *)
Definition readonly {A} (m : Exec A) : Prop :=
  ∀ s a s', m s = Some (a, s') → s' = s.

Section guards.
Context {R : Ruint}.

Lemma get_min_stake_readonly : readonly get_min_stake.
Proof. intros s a s' Hrun. unfold get_min_stake in Hrun. by run_M Hrun. Qed.

Lemma has_sufficient_stake_readonly i : readonly (has_sufficient_stake i).
Proof.
  intros s a s' Hrun. unfold has_sufficient_stake, get_min_stake in Hrun. by run_M Hrun.
Qed.

Lemma has_sufficient_unlocked_stake_readonly i :
  readonly (has_sufficient_unlocked_stake i).
Proof.
  intros s a s' Hrun. unfold has_sufficient_unlocked_stake, get_min_stake in Hrun.
  by run_M Hrun.
Qed.

Lemma has_sufficient_stake_true i s s' :
  has_sufficient_stake i s = Some (true, s') → is_Some (s.(node_info) !! i).
Proof.
  intros Hrun. unfold has_sufficient_stake in Hrun.
  destruct (s.(node_info) !! i) eqn:E; [eauto|].
  unfold_M. rewrite E in Hrun. by simplify_eq.
Qed.

(** What a node guard returned: the state is unchanged, an accepted sender
    is the registered node of that key, a rejection is a revert. *)
Definition guard_result (s s' : StateExecutor) (sender : TransactionSender)
    (r : Result NodeIndex TransactionResponse) : Prop :=
  s' = s ∧ match r with
           | Ok i => only_node s sender = Ok i ∧ is_Some (s.(node_info) !! i)
           | Err e => ∃ err, e = Revert err
           end.

Lemma only_node_Err s sender e : only_node s sender = Err e → ∃ err, e = Revert err.
Proof.
  unfold only_node. intros. repeat case_match; simplify_eq; eauto.
Qed.

Lemma sufficient_stake_guard sender s r s' :
  only_node_with_sufficient_stake sender s = Some (r, s') → guard_result s s' sender r.
Proof.
  intros Hrun. unfold only_node_with_sufficient_stake in Hrun. unfold_M.
  destruct (only_node s sender) as [i|e] eqn:Hn.
  - destruct (has_sufficient_stake i s) as [[b s1]|] eqn:Hb; [|done].
    pose proof (has_sufficient_stake_readonly _ _ _ _ Hb) as ->. simplify_eq.
    split; [done|]. destruct b; [|eauto]. split; [done|].
    by eapply has_sufficient_stake_true.
  - simplify_eq. split; [done|]. by eapply only_node_Err.
Qed.

Lemma sufficient_unlocked_stake_guard sender s r s' :
  only_node_with_sufficient_unlocked_stake sender s = Some (r, s') →
  guard_result s s' sender r.
Proof. apply sufficient_stake_guard. Qed.

Lemma participating_guard sender s r s' :
  only_node_with_sufficient_stake_and_participating sender s = Some (r, s') →
  guard_result s s' sender r ∧
  (∀ i, r = Ok i → is_participating s i = true).
Proof.
  intros Hrun. unfold only_node_with_sufficient_stake_and_participating in Hrun. unfold_M.
  destruct (only_node_with_sufficient_stake sender s) as [[r1 s1]|] eqn:Hg; [|done].
  apply sufficient_stake_guard in Hg as [-> Hg].
  destruct r1 as [i|e]; simplify_eq.
  - destruct (is_participating _ i) eqn:Hp; (split; [split; [done|]|]).
    + done.
    + intros ? [= <-]. done.
    + eauto.
    + done.
  - split; [split; done|done].
Qed.

Lemma get_node_info_Some s k i n :
  get_node_info s (TransactionSender.NodeMain k) = Some (i, n) →
  s.(pub_key_to_index) !! k = Some i ∧ s.(node_info) !! i = Some n.
Proof.
  simpl. destruct (s.(pub_key_to_index) !! k) eqn:E; simpl; [|done].
  destruct (s.(node_info) !! z) eqn:E2; simpl; [|done]. intros. by simplify_eq.
Qed.
End guards.

(** Like [resolve_guards], with the node guards. *)
Ltac resolve_node_guards :=
  repeat match goal with
  | Hb : only_node_with_sufficient_stake _ _ = Some (_, _) |- _ =>
      apply sufficient_stake_guard in Hb as [? Hb]; simplify_eq
  | Hb : only_node_with_sufficient_unlocked_stake _ _ = Some (_, _) |- _ =>
      apply sufficient_unlocked_stake_guard in Hb as [? Hb]; simplify_eq
  | Hb : only_node_with_sufficient_stake_and_participating _ _ = Some (_, _) |- _ =>
      let Hp := fresh "Hpart" in
      apply participating_guard in Hb as [[? Hb] Hp]; simplify_eq
  | Hb : has_sufficient_stake _ _ = Some (_, _) |- _ =>
      apply has_sufficient_stake_readonly in Hb; simplify_eq
  | Hb : has_sufficient_unlocked_stake _ _ = Some (_, _) |- _ =>
      apply has_sufficient_unlocked_stake_readonly in Hb; simplify_eq
  | Hb : get_node_info _ (TransactionSender.NodeMain _) = Some (_, _) |- _ =>
      apply get_node_info_Some in Hb as [? ?]
  | Hb : ∃ _, _ |- _ => destruct Hb as [? Hb]; simplify_eq
  | _ => progress resolve_guards
  end.

Section node_reverts.
Context {R : Ruint}.

Lemma stake_revert_clean sender amount pk ck d wk wd p :
  revert_clean (stake sender amount pk ck d wk wd p).
Proof.
  intros s e s' Hrun.
  unfold stake, account_info_set, node_info_set in Hrun. run_M Hrun; done.
Qed.

Lemma stake_lock_revert_clean sender pk t : revert_clean (stake_lock sender pk t).
Proof. unfold stake_lock, node_info_set. solve_revert_clean. Qed.

Lemma unstake_revert_clean sender amount pk : revert_clean (unstake sender amount pk).
Proof. unfold unstake, node_info_set. solve_revert_clean. Qed.

Lemma withdraw_unstaked_revert_clean sender pk rcp :
  revert_clean (withdraw_unstaked sender pk rcp).
Proof. unfold withdraw_unstaked, node_info_set, account_info_set. solve_revert_clean. Qed.

Lemma opt_in_revert_clean sender : revert_clean (opt_in sender).
Proof.
  intros s e s' Hrun. unfold opt_in, node_info_set in Hrun.
  by run_M Hrun; resolve_node_guards.
Qed.

Lemma opt_out_revert_clean sender : revert_clean (opt_out sender).
Proof.
  intros s e s' Hrun. unfold opt_out, node_info_set in Hrun.
  by run_M Hrun; resolve_node_guards.
Qed.
End node_reverts.

#[export] Hint Resolve stake_revert_clean stake_lock_revert_clean
  unstake_revert_clean withdraw_unstaked_revert_clean opt_in_revert_clean
  opt_out_revert_clean : lightning.

(** ** The registry invariant *)

(** The two key indexes list exactly the registered nodes, and every index
    is below the next one to be given out. *)
Record registry_ok (s : StateExecutor) : Prop := mkRegistryOk {
  registry_pk k i : s.(pub_key_to_index) !! k = Some i ↔
    ∃ n, s.(node_info) !! i = Some n ∧ public_key n = k;
  registry_ck k i : s.(consensus_key_to_index) !! k = Some i ↔
    ∃ n, s.(node_info) !! i = Some n ∧ consensus_key n = k;
  registry_next i n : s.(node_info) !! i = Some n → i < get_next_node_index s
}.

Lemma registry_frame s s' :
  s'.(node_info) = s.(node_info) → s'.(pub_key_to_index) = s.(pub_key_to_index) →
  s'.(consensus_key_to_index) = s.(consensus_key_to_index) →
  get_next_node_index s' = get_next_node_index s →
  registry_ok s → registry_ok s'.
Proof. intros Hn Hp Hc Hx [???]. by split; rewrite ?Hn, ?Hp, ?Hc, ?Hx. Qed.

(** Rewriting a registered node without changing its keys. *)
Lemma registry_node_update s s' i n n' :
  s.(node_info) !! i = Some n → public_key n' = public_key n →
  consensus_key n' = consensus_key n →
  s'.(node_info) = <[i:=n']> s.(node_info) →
  s'.(pub_key_to_index) = s.(pub_key_to_index) →
  s'.(consensus_key_to_index) = s.(consensus_key_to_index) →
  get_next_node_index s' = get_next_node_index s →
  registry_ok s → registry_ok s'.
Proof.
  intros Hi Hpk Hck Hn Hp Hc Hx [Rp Rc Rn].
  assert (∀ (f : NodeInfo → N) j k, f n' = f n →
    (∃ m, s.(node_info) !! j = Some m ∧ f m = k) ↔
    (∃ m, <[i:=n']> s.(node_info) !! j = Some m ∧ f m = k)) as Hex.
  { intros f j k Hf. destruct (decide (i = j)) as [<-|Hij].
    - rewrite lookup_insert_eq, Hi. naive_solver congruence.
    - by rewrite lookup_insert_ne. }
  split.
  - intros k j. rewrite Hp, Hn, Rp. by apply Hex.
  - intros k j. rewrite Hc, Hn, Rc. by apply Hex.
  - intros j m. rewrite Hn, Hx. destruct (decide (i = j)) as [<-|Hij].
    + intros _. by eapply Rn.
    + rewrite lookup_insert_ne by done. apply Rn.
Qed.

Lemma registry_fresh s : registry_ok s → s.(node_info) !! get_next_node_index s = None.
Proof.
  intros [_ _ Rn]. destruct (s.(node_info) !! _) eqn:E; [|done].
  specialize (Rn _ _ E). lia.
Qed.

(** Adding a node with two new keys under the next index. *)
Lemma registry_new_node s s' n :
  s.(pub_key_to_index) !! public_key n = None →
  s.(consensus_key_to_index) !! consensus_key n = None →
  s'.(node_info) = <[get_next_node_index s:=n]> s.(node_info) →
  s'.(pub_key_to_index) = <[public_key n:=get_next_node_index s]> s.(pub_key_to_index) →
  s'.(consensus_key_to_index)
    = <[consensus_key n:=get_next_node_index s]> s.(consensus_key_to_index) →
  get_next_node_index s' = get_next_node_index s + 1 →
  registry_ok s → registry_ok s'.
Proof.
  intros Hpk Hck Hn Hp Hc Hx Hok. pose proof (registry_fresh s Hok) as Hf.
  destruct Hok as [Rp Rc Rn]. set (i := get_next_node_index s) in *.
  assert (∀ (f : NodeInfo → N) (m : gmap N Z),
    (∀ k j, m !! k = Some j ↔ ∃ x, s.(node_info) !! j = Some x ∧ f x = k) →
    m !! f n = None →
    ∀ k j, <[f n:=i]> m !! k = Some j ↔
      ∃ x, <[i:=n]> s.(node_info) !! j = Some x ∧ f x = k) as Hidx.
  { intros f m Hm Hnone k j. destruct (decide (i = j)) as [<-|Hij].
    - rewrite lookup_insert_eq. destruct (decide (f n = k)) as [<-|Hk].
      + rewrite lookup_insert_eq. naive_solver.
      + rewrite lookup_insert_ne, Hm, Hf by done. naive_solver.
    - rewrite (lookup_insert_ne _ i j) by done. rewrite <-Hm.
      destruct (decide (f n = k)) as [<-|Hk].
      + rewrite lookup_insert_eq, Hnone. naive_solver.
      + by rewrite lookup_insert_ne. }
  split.
  - intros k j. rewrite Hp, Hn. by apply Hidx.
  - intros k j. rewrite Hc, Hn. by apply Hidx.
  - intros j m. rewrite Hn, Hx. destruct (decide (i = j)) as [<-|Hij].
    + intros _. lia.
    + rewrite lookup_insert_ne by done. intros Hj. specialize (Rn j m Hj). lia.
Qed.

Lemma index_size (f : NodeInfo → N) (idx : gmap N Z) (m : gmap Z NodeInfo) :
  (∀ k i, idx !! k = Some i ↔ ∃ n, m !! i = Some n ∧ f n = k) → size idx = size m.
Proof.
  intros Hidx.
  assert (map_to_list idx ≡ₚ (λ '(i, n), (f n, i)) <$> map_to_list m) as Hperm.
  { apply NoDup_Permutation.
    - apply NoDup_map_to_list.
    - apply NoDup_fmap_2_strong; [|apply NoDup_map_to_list].
      intros [i n] [j k] Hi%elem_of_map_to_list Hj%elem_of_map_to_list ?. by simplify_eq.
    - intros [k i]. rewrite elem_of_map_to_list, Hidx, list_elem_of_fmap. split.
      + intros (n & Hn & <-). exists (i, n). by rewrite elem_of_map_to_list.
      + intros ([j n] & ? & Hj%elem_of_map_to_list). simplify_eq. eauto. }
  rewrite <-!length_map_to_list, Hperm. apply length_fmap.
Qed.

(** In a consistent registry the node table and its two key indexes
    have the same number of rows (the condition [execute_fleek_transaction]
    asserts in debug builds), and no two nodes share a network key or a
    consensus key. *)
Lemma registry_counts s :
  registry_ok s →
  size s.(pub_key_to_index) = size s.(node_info) ∧
  size s.(consensus_key_to_index) = size s.(node_info) ∧
  ∀ i j n m, s.(node_info) !! i = Some n → s.(node_info) !! j = Some m →
    public_key n = public_key m ∨ consensus_key n = consensus_key m → i = j.
Proof.
  intros [Rp Rc _]. split_and!.
  - eapply index_size, Rp.
  - eapply index_size, Rc.
  - intros i j n m Hi Hj [E|E].
    + assert (s.(pub_key_to_index) !! public_key n = Some i) by (apply Rp; eauto).
      assert (s.(pub_key_to_index) !! public_key n = Some j) by (apply Rp; eauto).
      congruence.
    + assert (s.(consensus_key_to_index) !! consensus_key n = Some i) by (apply Rc; eauto).
      assert (s.(consensus_key_to_index) !! consensus_key n = Some j) by (apply Rc; eauto).
      congruence.
Qed.

(** ** Staking moves FLK and keeps the registry *)

Section staking.
Context {R : Ruint} {L : RuintLaws R}.

Lemma create_node_fresh n s :
  s.(pub_key_to_index) !! public_key n = None →
  s.(consensus_key_to_index) !! consensus_key n = None →
  ∃ s', create_node n s = Some (true, s') ∧
    s'.(node_info) = <[get_next_node_index s:=n]> s.(node_info) ∧
    s'.(pub_key_to_index) = <[public_key n:=get_next_node_index s]> s.(pub_key_to_index) ∧
    s'.(consensus_key_to_index)
      = <[consensus_key n:=get_next_node_index s]> s.(consensus_key_to_index) ∧
    s'.(metadata) = <[Metadata.NextNodeIndex:=
                        Value.NextNodeIndex (get_next_node_index s +[32] 1)]> s.(metadata) ∧
    s'.(account_info) = s.(account_info).
Proof.
  intros Hp Hc. unfold create_node, node_info_set, metadata_set. unfold_M.
  rewrite Hp, Hc. simpl. eexists. split; [done|]. by state_simpl.
Qed.

(** The tables a registry change can touch. *)
Lemma record_node_registry_change_frame k c s u s' :
  record_node_registry_change k c s = Some (u, s') →
  ∃ m, s' = set_committee_info m s.
Proof.
  intros Hrun. unfold record_node_registry_change, get_block_number, committee_info_set in Hrun.
  run_M Hrun; eauto.
Qed.

Lemma stake_success sender amount pk ck d wk wd p s r s' :
  stake sender amount pk ck d wk wd p s = Some (Success r, s') →
  ∃ a, sender = TransactionSender.AccountOwner a ∧
    amount ≤ flk_balance (account_or_default s a) ∧
    s'.(account_info) = <[a:=with_flk_balance
        (hp_sub (flk_balance (account_or_default s a)) amount)
        (account_or_default s a)]> s.(account_info) ∧
    ((∃ i n n', s.(pub_key_to_index) !! pk = Some i ∧ s.(node_info) !! i = Some n ∧
        s'.(node_info) = <[i:=n']> s.(node_info) ∧
        public_key n' = public_key n ∧ consensus_key n' = consensus_key n ∧
        node_owner n' = node_owner n ∧
        node_stake n' = with_staked (hp_add (staked (node_stake n)) amount) (node_stake n) ∧
        s'.(pub_key_to_index) = s.(pub_key_to_index) ∧
        s'.(consensus_key_to_index) = s.(consensus_key_to_index) ∧
        s'.(metadata) = s.(metadata)) ∨
     (∃ n, s.(pub_key_to_index) !! pk = None ∧ public_key n = pk ∧ node_owner n = a ∧
        s.(consensus_key_to_index) !! consensus_key n = None ∧
        node_stake n = with_staked amount Staking_default ∧
        participation n = Participation.False ∧
        s'.(node_info) = <[get_next_node_index s:=n]> s.(node_info) ∧
        s'.(pub_key_to_index) = <[pk:=get_next_node_index s]> s.(pub_key_to_index) ∧
        s'.(consensus_key_to_index)
          = <[consensus_key n:=get_next_node_index s]> s.(consensus_key_to_index) ∧
        s'.(metadata) = <[Metadata.NextNodeIndex:=
           Value.NextNodeIndex (get_next_node_index s +[32] 1)]> s.(metadata))).
Proof.
  intros Hrun. unfold stake in Hrun. unfold_M.
  destruct (only_account_owner sender) as [a|e] eqn:Hs;
    [|apply only_account_owner_Err in Hs; by simplify_eq].
  apply only_account_owner_Ok in Hs as ->.
  destruct (bool_decide (flk_balance _ < amount)) eqn:Hb; [by simplify_eq|].
  apply bool_decide_eq_false in Hb.
  destruct (match ck with Some _ => _ | None => false end) eqn:Hck; [by simplify_eq|].
  exists a. split; [done|]. split; [lia|].
  destruct (s.(pub_key_to_index) !! pk) as [i|] eqn:Hpk.
  - destruct (s.(node_info) !! i) as [n|] eqn:Hi; [|by simplify_eq].
    unfold node_info_set, account_info_set in Hrun. unfold_M. simplify_eq. state_simpl.
    split; [done|]. left. eexists i, n, _. split_and!; try done.
  - destruct ck as [ck|]; [|by simplify_eq]. destruct d as [d|]; [|by simplify_eq].
    destruct wk as [wk|]; [|by simplify_eq]. destruct wd as [wd|]; [|by simplify_eq].
    destruct p as [p|]; [|by simplify_eq].
    apply bool_decide_eq_false in Hck. apply dec_stable in Hck.
    set (n := mkNodeInfo a pk ck _ _ _ _ _ _ _ _) in Hrun.
    destruct (create_node_fresh n s) as (s1 & Hc & Hn1 & Hp1 & Hc1 & Hm1 & Ha1); [done..|].
    rewrite Hc in Hrun.
    destruct (record_node_registry_change pk NodeRegistryChange.New s1)
      as [[u s2]|] eqn:Hr; [|done].
    apply record_node_registry_change_frame in Hr as [m ->].
    unfold account_info_set in Hrun. unfold_M. simplify_eq. state_simpl.
    rewrite Ha1. split; [done|]. right. exists n. split_and!; try done.
Qed.

(** Staking moves exactly the staked amount from the sender's account
    to the node: the FLK in existence stays the same and no amount
    overflows or becomes negative. *)
Lemma stake_conserves sender amount pk ck d wk wd p s r s' :
  ledger_ok s → registry_ok s → 0 ≤ amount →
  stake sender amount pk ck d wk wd p s = Some (Success r, s') →
  flk_total s' = flk_total s ∧ ledger_ok s' ∧ flk_nodes s' = flk_nodes s + amount.
Proof.
  intros Hok Hreg Hamt Hrun.
  apply stake_success in Hrun as (a & -> & Hle & Hacc & Hcase).
  pose proof (ledger_fits s Hok) as Hfit. pose proof (account_flk_bounds s Hok a) as Ba.
  destruct (ledger_debit_exact s a amount Hok ltac:(lia)) as [Hd _]. rewrite Hd in Hacc.
  pose (s1 := set_account_info s'.(account_info) s).
  destruct (ledger_account_effect s s1 a _ Hacc) as [Ht1 Hl1]; [done|]. simpl in Ht1.
  specialize (Hl1 Hok). simpl in Hl1. specialize (Hl1 ltac:(lia) ltac:(lia)).
  assert (flk_nodes s1 = flk_nodes s) as Hn1 by done.
  assert (flk_accounts s' = flk_accounts s1) as Ha1 by done.
  destruct Hcase as [(i & n & n' & _ & Hi & Hn & _ & _ & _ & Hst & _)|
                     (n & _ & _ & _ & _ & Hst & _ & Hn & _)].
  - pose proof (node_flk_bounds s Hok i n Hi) as (? & ? & ?).
    rewrite hp_add_exact in Hst by (unfold node_flk, flk_total in *; split; lia).
    destruct (ledger_node_effect s1 s' i n n') as [Ht2 Hl2]; [done..|].
    unfold node_flk in Ht2. rewrite Hst in *. simpl in *.
    assert (flk_total s' = flk_total s) as Ht by lia.
    unfold flk_total in *. split_and!; [lia| |lia]. apply Hl2; [done|lia|lia|lia].
  - destruct (ledger_node_new_effect s1 s' (get_next_node_index s) n) as [Ht2 Hl2];
      [by apply (registry_fresh s)|done..|].
    unfold node_flk in Ht2. rewrite Hst in *. simpl in *.
    assert (flk_total s' = flk_total s) as Ht by lia.
    unfold flk_total in *. split_and!; [lia| |lia]. apply Hl2; [done|lia|lia|lia].
Qed.

(** Staking keeps the registry consistent: a new node gets the next
    free index and both of its keys are indexed, an existing node keeps its
    keys. *)
Lemma stake_registry sender amount pk ck d wk wd p s r s' :
  registry_ok s → in_width 32 (get_next_node_index s + 1) →
  stake sender amount pk ck d wk wd p s = Some (Success r, s') →
  registry_ok s' ∧ is_Some (s'.(pub_key_to_index) !! pk).
Proof.
  intros Hreg Hw Hrun. apply stake_success in Hrun as (a & -> & _ & _ & Hcase).
  destruct Hcase as [(i & n & n' & Hpi & Hi & Hn & Hpk & Hck & _ & _ & Hp & Hc & Hm)|
                     (n & Hpn & Hpk & _ & Hcn & _ & _ & Hn & Hp & Hc & Hm)].
  - split; [|rewrite Hp; eauto].
    eapply (registry_node_update s s' i n n'); try done.
    unfold get_next_node_index. by rewrite Hm.
  - subst pk. split; [|rewrite Hp, lookup_insert_eq; eauto].
    eapply (registry_new_node s s' n); try done.
    unfold get_next_node_index at 1. rewrite Hm, lookup_insert_eq. by apply wrap_small.
Qed.
End staking.

(** ** Unstaking and withdrawing *)

Section unstaking.
Context {R : Ruint} {L : RuintLaws R}.

Lemma unstake_success sender amount pk s r s' :
  unstake sender amount pk s = Some (Success r, s') →
  ∃ i n p, sender = TransactionSender.AccountOwner (node_owner n) ∧
    s.(pub_key_to_index) !! pk = Some i ∧ s.(node_info) !! i = Some n ∧
    stake_locked_until (node_stake n) ≤ get_epoch s ∧
    amount ≤ staked (node_stake n) ∧
    (p = participation n ∨ p = Participation.OptedOut) ∧
    s' = set_node_info
      (<[i:=with_participation p (with_stake
             (mkStaking (hp_sub (staked (node_stake n)) amount)
                (stake_locked_until (node_stake n))
                (hp_add (locked (node_stake n)) amount)
                (get_epoch s +[64] get_lock_time s)) n)]> s.(node_info)) s.
Proof.
  intros Hrun. unfold unstake in Hrun. unfold_M.
  destruct (only_account_owner sender) as [a|e] eqn:Hs;
    [|apply only_account_owner_Err in Hs; by simplify_eq].
  apply only_account_owner_Ok in Hs as ->.
  destruct (get_node_info s _) as [[i n]|] eqn:Hg; [|by simplify_eq].
  apply get_node_info_Some in Hg as [Hp Hi].
  destruct (bool_decide (a ≠ _)) eqn:Ho; [by simplify_eq|].
  apply bool_decide_eq_false, dec_stable in Ho as ->.
  destruct (bool_decide (_ > _)) eqn:Hl; [by simplify_eq|].
  destruct (bool_decide (_ < _)) eqn:Hb; [by simplify_eq|]. resolve_guards.
  unfold node_info_set in Hrun. unfold_M. state_simpl.
  destruct (has_sufficient_unlocked_stake i _) as [[b s1]|] eqn:Hh; [|done].
  apply has_sufficient_unlocked_stake_readonly in Hh as ->.
  destruct (negb b && _); simplify_eq; exists i, n.
  - exists Participation.OptedOut. split_and!; try done; try lia; [by right|].
    state_simpl. by rewrite insert_insert_eq.
  - exists (participation n). split_and!; try done; try lia. by left.
Qed.

Lemma unstake_effect sender amount pk s r s' :
  ledger_ok s → 0 ≤ amount → in_width 64 (get_epoch s + get_lock_time s) →
  unstake sender amount pk s = Some (Success r, s') →
  ∃ i n n', sender = TransactionSender.AccountOwner (node_owner n) ∧
    s.(node_info) !! i = Some n ∧ s'.(node_info) = <[i:=n']> s.(node_info) ∧
    public_key n' = public_key n ∧ consensus_key n' = consensus_key n ∧
    stake_locked_until (node_stake n) ≤ get_epoch s ∧
    staked (node_stake n') = staked (node_stake n) - amount ∧
    locked (node_stake n') = locked (node_stake n) + amount ∧
    locked_until (node_stake n') = get_epoch s + get_lock_time s ∧
    s'.(account_info) = s.(account_info) ∧
    flk_total s' = flk_total s ∧ ledger_ok s'.
Proof.
  intros Hok Hamt Hw Hrun.
  apply unstake_success in Hrun as (i & n & p & -> & Hp & Hi & Hlk & Hle & _ & ->).
  pose proof (node_flk_bounds s Hok i n Hi) as (Bs & Bl & Bn).
  pose proof (ledger_fits s Hok). pose proof (flk_accounts_nonneg s Hok).
  rewrite hp_sub_exact by (unfold node_flk, flk_total in *; try split; lia).
  rewrite hp_add_exact by (unfold node_flk, flk_total in *; split; lia).
  rewrite (wrap_small 64) by done.
  set (n' := with_participation p _). exists i, n, n'.
  destruct (ledger_node_effect s (set_node_info (<[i:=n']> s.(node_info)) s) i n n')
    as [Ht Hl]; [done..|].
  assert (node_flk n' = node_flk n) as Hf by (unfold node_flk, n'; simpl; lia).
  split_and!; try done; try lia. apply Hl; subst n'; simpl; try done; lia.
Qed.


Lemma withdraw_unstaked_success sender pk rcp s r s' :
  withdraw_unstaked sender pk rcp s = Some (Success r, s') →
  ∃ i n, sender = TransactionSender.AccountOwner (node_owner n) ∧
    s.(pub_key_to_index) !! pk = Some i ∧ s.(node_info) !! i = Some n ∧
    locked (node_stake n) ≠ 0 ∧ locked_until (node_stake n) ≤ get_epoch s ∧
    let k := default (node_owner n) rcp in
    s' = set_node_info
           (<[i:=with_stake (with_locked 0 (node_stake n)) n]> s.(node_info))
           (set_account_info
              (<[k:=with_flk_balance
                      (hp_add (flk_balance (account_or_default s k)) (locked (node_stake n)))
                      (account_or_default s k)]> s.(account_info)) s).
Proof.
  intros Hrun. unfold withdraw_unstaked in Hrun. unfold_M.
  destruct (only_account_owner sender) as [a|e] eqn:Hs;
    [|apply only_account_owner_Err in Hs; by simplify_eq].
  apply only_account_owner_Ok in Hs as ->.
  destruct (get_node_info s _) as [[i n]|] eqn:Hg; [|by simplify_eq].
  apply get_node_info_Some in Hg as [Hp Hi].
  destruct (bool_decide (a ≠ _)) eqn:Ho; [by simplify_eq|].
  apply bool_decide_eq_false, dec_stable in Ho as ->.
  destruct (bool_decide (_ = zero)) eqn:Hl; [by simplify_eq|].
  destruct (bool_decide (_ > _)) eqn:Hb; [by simplify_eq|]. resolve_guards.
  unfold node_info_set, account_info_set in Hrun. unfold_M. simplify_eq.
  exists i, n. split_and!; try done.
Qed.

Lemma withdraw_unstaked_effect sender pk rcp s r s' :
  ledger_ok s →
  withdraw_unstaked sender pk rcp s = Some (Success r, s') →
  ∃ i n, sender = TransactionSender.AccountOwner (node_owner n) ∧
    s.(pub_key_to_index) !! pk = Some i ∧ s.(node_info) !! i = Some n ∧
    locked_until (node_stake n) ≤ get_epoch s ∧ 0 < locked (node_stake n) ∧
    let k := default (node_owner n) rcp in
    flk_balance (account_or_default s' k)
      = flk_balance (account_or_default s k) + locked (node_stake n) ∧
    s'.(node_info) !! i = Some (with_stake (with_locked 0 (node_stake n)) n) ∧
    flk_total s' = flk_total s ∧ ledger_ok s' ∧
    withdraw_unstaked sender pk rcp s' = Some (Revert ExecutionError.NoLockedTokens, s').
Proof.
  intros Hok Hrun.
  apply withdraw_unstaked_success in Hrun as (i & n & -> & Hp & Hi & Hnz & Hlk & ->).
  pose proof (node_flk_bounds s Hok i n Hi) as (Bs & Bl & Bn).
  set (k := default (node_owner n) rcp).
  pose proof (account_flk_bounds s Hok k) as Bk. pose proof (ledger_fits s Hok) as Hfit.
  rewrite hp_add_exact by (unfold node_flk, flk_total in *; split; lia).
  set (n' := with_stake (with_locked 0 (node_stake n)) n).
  set (k' := with_flk_balance _ (account_or_default s k)).
  set (s' := set_node_info _ _). exists i, n.
  pose (s1 := set_node_info (<[i:=n']> s.(node_info)) s).
  destruct (ledger_node_effect s s1 i n n') as [Ht1 Hl1]; [done..|].
  assert (node_flk n' = node_flk n - locked (node_stake n)) as Hf
    by (unfold node_flk, n'; simpl; lia).
  assert (ledger_ok s1) as Hok1 by (apply Hl1; [done|subst n'; simpl; lia..]).
  destruct (ledger_account_effect s1 s' k k') as [Ht2 Hl2]; [done..|].
  change (account_or_default s1 k) with (account_or_default s k) in Ht2.
  assert (flk_balance k' = flk_balance (account_or_default s k) + locked (node_stake n))
    as Hfk by done.
  cbv zeta. fold k. split_and!; try done; try lia.
  - transitivity (flk_balance k'); [|done]. f_equal.
    unfold account_or_default, s'. state_simpl. by rewrite lookup_insert_eq.
  - unfold s'. state_simpl. by rewrite lookup_insert_eq.
  - apply Hl2; [done|lia|lia].
  - unfold withdraw_unstaked. unfold_M. simpl. unfold s' at 1. state_simpl. rewrite Hp. simpl.
    unfold s' at 1. state_simpl. rewrite lookup_insert_eq. simpl.
    by rewrite bool_decide_eq_false_2 by naive_solver.
Qed.


(** ** Stake locks *)

(** Locking a stake without overflow never shortens the lock and
    keeps the remaining lock within the protocol's maximum, or the lock is
    already over. *)
Theorem stake_lock_extends sender pk t s r s' :
  (∀ i n, s.(node_info) !! i = Some n → in_width 64 (stake_locked_until (node_stake n))) →
  0 ≤ get_epoch s → 0 ≤ t → get_max_stake_lock_time s < 2 ^ 64 →
  (∀ i n, s.(node_info) !! i = Some n → stake_locked_until (node_stake n) + t < 2 ^ 64) →
  stake_lock sender pk t s = Some (Success r, s') →
  ∃ i n n', sender = TransactionSender.AccountOwner (node_owner n) ∧
    s.(node_info) !! i = Some n ∧ s' = set_node_info (<[i:=n']> s.(node_info)) s ∧
    stake_locked_until (node_stake n') = stake_locked_until (node_stake n) + t ∧
    staked (node_stake n') = staked (node_stake n) ∧
    stake_locked_until (node_stake n') - get_epoch s ≤ get_max_stake_lock_time s.
Proof.
  intros Hwf He Ht Hmax Hover Hrun. unfold stake_lock in Hrun. unfold_M.
  destruct (only_account_owner sender) as [a|e] eqn:Hs;
    [|apply only_account_owner_Err in Hs; by simplify_eq].
  apply only_account_owner_Ok in Hs as ->.
  destruct (get_node_info s _) as [[i n]|] eqn:Hg; [|by simplify_eq].
  apply get_node_info_Some in Hg as [Hp Hi].
  destruct (bool_decide (a ≠ _)) eqn:Ho; [by simplify_eq|].
  apply bool_decide_eq_false, dec_stable in Ho as ->.
  destruct (bool_decide (_ = zero)) eqn:Hl; [by simplify_eq|].
  destruct (bool_decide (_ > _)) eqn:Hb; [by simplify_eq|]. resolve_guards.
  unfold node_info_set in Hrun. unfold_M. simplify_eq. exists i, n.
  specialize (Hwf i n Hi). specialize (Hover i n Hi). unfold in_width, saturating_sub in *.
  rewrite wrap_small in Hb by (split; lia).
  eexists. split_and!; try done; simpl; rewrite wrap_small by (split; lia); lia.
Qed.

(** The guard adds in 64 bits: a lock time that overflows the sum passes
    it, and the same overflow moves the end of the lock back to the current
    epoch, so a locked stake is unlocked by its owner. *)
Lemma stake_lock_overflow_unlocks pk s i n :
  s.(pub_key_to_index) !! pk = Some i → s.(node_info) !! i = Some n →
  staked (node_stake n) ≠ 0 → 0 ≤ get_max_stake_lock_time s →
  0 ≤ get_epoch s < stake_locked_until (node_stake n) →
  stake_locked_until (node_stake n) < 2 ^ 64 →
  ∃ s' n', stake_lock (TransactionSender.AccountOwner (node_owner n)) pk
      (2 ^ 64 - (stake_locked_until (node_stake n) - get_epoch s)) s
      = Some (Success ExecutionData.None, s') ∧
    s'.(node_info) !! i = Some n' ∧
    stake_locked_until (node_stake n') = get_epoch s.
Proof.
  intros Hp Hi Hst Hmax He Hw. set (e := get_epoch s) in *.
  set (u := stake_locked_until (node_stake n)) in *.
  unfold stake_lock, node_info_set. unfold_M. simpl. rewrite Hp. simpl. rewrite Hi. simpl.
  rewrite bool_decide_eq_false_2 by naive_solver.
  rewrite bool_decide_eq_false_2 by done. fold e. fold u.
  assert (saturating_sub u e +[64] (2 ^ 64 - (u - e)) = 0) as ->.
  { unfold saturating_sub, wrap. rewrite Z.max_r by lia.
    replace (u - e + (2 ^ 64 - (u - e))) with (2 ^ 64) by lia. by apply Z.mod_same. }
  rewrite bool_decide_eq_false_2 by lia.
  eexists _, _. split_and!; [done|state_simpl; by rewrite lookup_insert_eq|]. simpl.
  unfold wrap. replace (u + (2 ^ 64 - (u - e))) with (e + 1 * 2 ^ 64) by lia.
  rewrite Z.mod_add by lia. apply Z.mod_small. lia.
Qed.

(** The lock counts from the previous end of the lock, not from the current
    epoch: a node that never locked and asks for [t] epochs at epoch
    [e >= t] pays for a lock that has already ended. *)
Lemma stake_lock_may_end_in_the_past pk s i n t :
  s.(pub_key_to_index) !! pk = Some i → s.(node_info) !! i = Some n →
  staked (node_stake n) ≠ 0 → stake_locked_until (node_stake n) = 0 →
  0 ≤ t ≤ get_max_stake_lock_time s → t ≤ get_epoch s < 2 ^ 64 →
  ∃ s' n', stake_lock (TransactionSender.AccountOwner (node_owner n)) pk t s
      = Some (Success ExecutionData.None, s') ∧
    s'.(node_info) !! i = Some n' ∧
    stake_locked_until (node_stake n') ≤ get_epoch s'.
Proof.
  intros Hp Hi Hst Hu Ht He. unfold stake_lock, node_info_set. unfold_M. simpl.
  rewrite Hp. simpl. rewrite Hi. simpl.
  rewrite bool_decide_eq_false_2 by naive_solver.
  rewrite bool_decide_eq_false_2 by done. rewrite Hu.
  unfold saturating_sub. rewrite Z.max_l by lia.
  rewrite wrap_small by (split; lia). rewrite bool_decide_eq_false_2 by lia.
  eexists _, _. split_and!; [done|state_simpl; by rewrite lookup_insert_eq|].
  change (get_epoch (set_node_info _ s)) with (get_epoch s). simpl. lia.
Qed.
End unstaking.
