(* ===== verification/Content.v ===== *)
(** * Content: the content registry

    [update_content_registry], [clear_content_registry] and
    [clean_up_content_registry] of [core/application/src/state/executor.rs].
    The registry is stored twice: [uri_to_node] maps a content hash to the
    nodes that provide it and [node_to_uri] maps a node to the hashes it
    provides.

    Proved here: the two tables stay inverse relations of each other; an
    accepted batch of updates has exactly the requested effect; the branch
    the code calls unreachable is unreachable; clearing a node cannot fail
    and removes exactly its entries. *)

From S2P Require Import Prelude HpFixed Types State Ledger Accounts Nodes.
From stdpp Require Import base gmap list sorting.
From Stdlib Require Import ZArith Lia.
Open Scope Z_scope.

Section Content.
  Context {R : Ruint} {H : Host}.

(** The loop over the updates of a transaction: it stages the new provider
    sets and the new set of hashes of the node, or returns early. *)
Fixpoint stage_updates (s : StateExecutor) (node_index : NodeIndex)
    (empty_uris_provided : bool) (updates : list ContentUpdate)
    (staged_uri_to_node : gmap Blake3Hash (gset NodeIndex))
    (staged_uris_provided : gset Blake3Hash)
    : Result (gmap Blake3Hash (gset NodeIndex) * gset Blake3Hash) TransactionResponse :=
  match updates with
  | [] => Ok (staged_uri_to_node, staged_uris_provided)
  | update :: updates =>
      if is_some (staged_uri_to_node !! update.(uri))
      then Err (Revert ExecutionError.TooManyUpdatesForContent)
      else
        let providers := s.(uri_to_node) !! update.(uri) in
        if update.(Types.remove) && (is_none providers || empty_uris_provided)
        then Err (Revert ExecutionError.InvalidStateForContentRemoval)
        else
          let providers := default ∅ providers in
          if update.(Types.remove)
          then
            if bool_decide (node_index ∉ providers)
            then Err (Revert ExecutionError.InvalidContentRemoval)
            else if bool_decide (update.(uri) ∉ staged_uris_provided)
            then Err (Revert ExecutionError.InvalidContentRemoval)
            else
              stage_updates s node_index empty_uris_provided updates
                (<[update.(uri):=providers ∖ {[node_index]}]> staged_uri_to_node)
                (staged_uris_provided ∖ {[update.(uri)]})
          else
            stage_updates s node_index empty_uris_provided updates
              (<[update.(uri):={[node_index]} ∪ providers]> staged_uri_to_node)
              ({[update.(uri)]} ∪ staged_uris_provided)
  end.

Definition write_providers (staged : gmap Blake3Hash (gset NodeIndex)) : Exec unit :=
  for_each (λ row, modify (λ s, set_uri_to_node (<[row.1:=row.2]> s.(uri_to_node)) s))
    (table_rows staged).

Definition update_content_registry (sender : TransactionSender)
    (updates : list ContentUpdate) : Exec TransactionResponse :=
  if bool_decide (Z.of_nat (length updates) > MAX_UPDATES_CONTENT_REGISTRY)
  then mret (Revert ExecutionError.TooManyUpdates)
  else
    r ← only_node_with_sufficient_stake_and_participating sender;
    let? node_index := r in
    s ← get;
    let staged_uris_provided := default ∅ (s.(node_to_uri) !! node_index) in
    let empty_uris_provided := bool_decide (staged_uris_provided = ∅) in
    match stage_updates s node_index empty_uris_provided updates ∅ staged_uris_provided with
    | Err e => mret e
    | Ok (staged_uri_to_node, staged_uris_provided) =>
        modify (λ s, set_node_to_uri
                       (<[node_index:=staged_uris_provided]> s.(node_to_uri)) s);;
        write_providers staged_uri_to_node;;
        mret (Success ExecutionData.None)
    end.

(** The staging loop of [clear_content_registry]. *)
Fixpoint stage_clear (s : StateExecutor) (node_index : NodeIndex)
    (uris : list Blake3Hash) (staged : gmap Blake3Hash (gset NodeIndex))
    : Result (gmap Blake3Hash (gset NodeIndex)) ExecutionError :=
  match uris with
  | [] => Ok staged
  | uri :: uris =>
      match s.(uri_to_node) !! uri with
      | None => Err ExecutionError.InvalidStateForContentRemoval
      | Some providers =>
          if bool_decide (node_index ∉ providers)
          then Err ExecutionError.InvalidStateForContentRemoval
          else stage_clear s node_index uris
                 (<[uri:=providers ∖ {[node_index]}]> staged)
      end
  end.

Definition clear_content_registry (node_index : NodeIndex)
    : Exec (Result unit ExecutionError) :=
  s ← get;
  let uris := default ∅ (s.(node_to_uri) !! node_index) in
  match stage_clear s node_index (elements uris) ∅ with
  | Err e => mret (Err e)
  | Ok staged =>
      write_providers staged;;
      modify (λ s, set_node_to_uri (delete node_index s.(node_to_uri)) s);;
      mret (Ok tt)
  end.

Definition clean_up_content_registry : Exec unit :=
  s ← get;
  for_each (λ '(index, info),
      if bool_decide (info.(participation) = Participation.False)
      then clear_content_registry index;; mret tt
      else mret tt)
    (btree_rows (get_node_registry s)).

End Content.

Lemma update_content_registry_revert_clean {R : Ruint} {H : Host} sender updates :
  revert_clean (update_content_registry sender updates).
Proof.
  intros s e s' Hrun. unfold update_content_registry in Hrun.
  run_M Hrun; resolve_node_guards; try done.
Qed.
#[export] Hint Resolve update_content_registry_revert_clean : lightning.

(** ** The two tables are inverse relations *)

Definition uris_of (s : StateExecutor) (n : NodeIndex) : gset Blake3Hash :=
  default ∅ (s.(node_to_uri) !! n).
Definition providers_of (s : StateExecutor) (u : Blake3Hash) : gset NodeIndex :=
  default ∅ (s.(uri_to_node) !! u).

Definition content_ok (s : StateExecutor) : Prop :=
  ∀ n u, u ∈ uris_of s n ↔ n ∈ providers_of s u.

(** The update of a batch that concerns a hash: [Some true] removes it,
    [Some false] adds it. *)
Fixpoint update_for (u : Blake3Hash) (updates : list ContentUpdate) : option bool :=
  match updates with
  | [] => None
  | x :: updates => if decide (x.(uri) = u) then Some x.(Types.remove)
                    else update_for u updates
  end.

Section content_theory.
Context {R : Ruint} {H : Host} {HL : HostLaws H}.

Lemma write_providers_run staged s :
  write_providers staged s
  = Some (tt, set_uri_to_node (staged ∪ s.(uri_to_node)) s).
Proof.
  assert (∀ l s, for_each (λ row, modify (λ s,
      set_uri_to_node (<[row.1:=row.2]> s.(uri_to_node)) s)) l s
    = Some (tt, set_uri_to_node
        (foldl (λ m r, <[r.1:=r.2]> m) s.(uri_to_node) l) s)) as Hrun.
  { induction l as [|x l IH]; intros t; [by destruct t|].
    simpl. unfold_M. rewrite IH. by state_simpl. }
  unfold write_providers. rewrite Hrun, foldl_insert_union by apply NoDup_table_rows.
  by rewrite list_to_map_table_rows.
Qed.

Lemma stage_updates_Err s i emp ups staged prov e :
  stage_updates s i emp ups staged prov = Err e → ∃ err, e = Revert err.
Proof.
  revert staged prov. induction ups as [|u ups IH]; intros staged prov Hst; simpl in *; [done|].
  repeat case_match; simplify_eq; eauto.
Qed.

Lemma default_lookup_union (m1 m2 : gmap N (gset Z)) u :
  default ∅ ((m1 ∪ m2) !! u) = default (default ∅ (m2 !! u)) (m1 !! u).
Proof.
  destruct (m1 !! u) as [x|] eqn:E; simpl.
  - by rewrite (lookup_union_Some_l _ _ _ x).
  - by rewrite lookup_union_r.
Qed.

(** What a staged batch contains. *)
Lemma stage_updates_spec s i emp ups staged prov staged' prov' :
  stage_updates s i emp ups staged prov = Ok (staged', prov') →
  ∀ u, match update_for u ups with
       | Some b => staged !! u = None ∧
           staged' !! u = Some (if b : bool then providers_of s u ∖ {[i]}
                                else {[i]} ∪ providers_of s u) ∧
           (u ∈ prov' ↔ b = false) ∧ (b = true → i ∈ providers_of s u)
       | None => staged' !! u = staged !! u ∧ (u ∈ prov' ↔ u ∈ prov)
       end.
Proof.
  revert staged prov. induction ups as [|[v b] ups IH]; intros staged prov Hst u; simpl in *.
  { by simplify_eq. }
  destruct (is_some (staged !! v)) eqn:Hv; [done|]. apply is_some_false in Hv.
  destruct (b && _) eqn:Hg; [done|].
  destruct b.
  - case_bool_decide as Hi; [done|].
    case_bool_decide as Hpv; [done|]. specialize (IH _ _ Hst).
    case_decide as Hvu; [subst u|].
    + specialize (IH v). destruct (update_for v ups) as [b|].
      * destruct IH as [Hs _]. by rewrite lookup_insert_eq in Hs.
      * rewrite lookup_insert_eq in IH. destruct IH as [-> Hp].
        split_and!; [done|done|rewrite Hp; set_solver|done].
    + specialize (IH u). destruct (update_for u ups) as [b|].
      * rewrite lookup_insert_ne in IH by done. done.
      * rewrite lookup_insert_ne in IH by done. destruct IH as [-> Hp].
        split; [done|]. rewrite Hp. set_solver.
  - specialize (IH _ _ Hst). case_decide as Hvu; [subst u|].
    + specialize (IH v). destruct (update_for v ups) as [b|].
      * destruct IH as [Hs _]. by rewrite lookup_insert_eq in Hs.
      * rewrite lookup_insert_eq in IH. destruct IH as [-> Hp].
        split_and!; [done|done|rewrite Hp; set_solver|done].
    + specialize (IH u). destruct (update_for u ups) as [b|].
      * rewrite lookup_insert_ne in IH by done. done.
      * rewrite lookup_insert_ne in IH by done. destruct IH as [-> Hp].
        split; [done|]. rewrite Hp. set_solver.
Qed.

(** C34: An accepted batch of content updates makes the sending node a
    provider of exactly the hashes it added and of those it provided
    before and did not remove; no other node is affected and the two
    tables stay inverse to each other. *)
Theorem update_content_registry_spec sender ups s r s' :
  content_ok s →
  update_content_registry sender ups s = Some (Success r, s') →
  content_ok s' ∧
  ∃ i, only_node s sender = Ok i ∧ is_participating s i = true ∧
    (∀ u, u ∈ uris_of s' i ↔
      match update_for u ups with
      | Some b => b = false
      | None => u ∈ uris_of s i
      end) ∧
    (∀ j u, j ≠ i → (u ∈ uris_of s' j ↔ u ∈ uris_of s j)).
Proof.
  intros Hok Hrun. unfold update_content_registry in Hrun. unfold_M.
  destruct (bool_decide (Z.of_nat _ > _)); [by simplify_eq|].
  destruct (only_node_with_sufficient_stake_and_participating sender s)
    as [[g s1]|] eqn:Hg; [|done].
  apply participating_guard in Hg as [[-> Hg] Hpart].
  destruct g as [i|e]; [|destruct Hg as [err ->]; by simplify_eq].
  destruct Hg as [Hn _]. specialize (Hpart i eq_refl).
  destruct (stage_updates _ _ _ _ _ _) as [[staged prov]|e] eqn:Hst;
    [|apply stage_updates_Err in Hst as [err ->]; by simplify_eq].
  rewrite write_providers_run in Hrun. simplify_eq.
  pose proof (stage_updates_spec _ _ _ _ _ _ _ _ Hst) as Hspec.
  set (s' := set_uri_to_node _ _).
  assert (uris_of s' i = prov) as Hi
    by (unfold uris_of, s'; state_simpl; by rewrite lookup_insert_eq).
  assert (∀ j, j ≠ i → uris_of s' j = uris_of s j) as Hj.
  { intros j Hj. unfold uris_of, s'. state_simpl. by rewrite lookup_insert_ne. }
  assert (∀ u, u ∈ prov ↔ match update_for u ups with
      Some b => b = false | None => u ∈ uris_of s i end) as Hprov.
  { intros u. specialize (Hspec u). destruct (update_for u ups); [apply Hspec|].
    destruct Hspec as [_ ->]. done. }
  split.
  - intros n u. unfold providers_of at 1. unfold s' at 2. state_simpl.
    rewrite default_lookup_union.
    fold (providers_of s u). specialize (Hspec u). specialize (Hprov u).
    destruct (decide (n = i)) as [->|Hn'].
    + rewrite Hi, Hprov. destruct (update_for u ups) as [b|].
      * destruct Hspec as (_ & -> & _). destruct b; simpl; set_solver.
      * destruct Hspec as [-> _]. rewrite lookup_empty. apply Hok.
    + rewrite Hj by done. rewrite (Hok n u). destruct (update_for u ups) as [b|].
      * destruct Hspec as (_ & -> & _). destruct b; simpl; set_solver.
      * destruct Hspec as [-> _]. by rewrite lookup_empty.
  - exists i. split_and!; [done|done|by rewrite Hi|].
    intros j u Hne. by rewrite Hj.
Qed.

(** Under the registry invariant a batch of well-formed updates (no
    hash twice, removals only of provided hashes) is never rejected by the
    staging loop; in particular the second removal check, which the code
    marks unreachable, is unreachable. *)
Theorem stage_updates_accepts s i ups :
  content_ok s → NoDup (uri <$> ups) →
  (∀ u, mkContentUpdate u true ∈ ups → u ∈ uris_of s i) →
  ∃ r, stage_updates s i (bool_decide (uris_of s i = ∅)) ups ∅ (uris_of s i) = Ok r.
Proof.
  intros Hok Hnd Hrem.
  assert (∀ emp, (∀ u, u ∈ uris_of s i → emp = false) →
    ∀ ups (staged : gmap N (gset Z)) prov,
    NoDup (uri <$> ups) → (∀ x, x ∈ ups → staged !! uri x = None) →
    (∀ u, mkContentUpdate u true ∈ ups → u ∈ uris_of s i ∧ u ∈ prov) →
    ∃ r, stage_updates s i emp ups staged prov = Ok r) as Hgen.
  { clear ups Hnd Hrem. intros emp Hemp. induction ups as [|[v b] ups IH]; intros staged prov Hnd Hs Hr;
      [simpl; eauto|]. rewrite fmap_cons in Hnd.
    apply list.NoDup_cons in Hnd as [Hv Hnd]. simpl in Hv.
    assert (∀ x, x ∈ ups → uri x ≠ v) as Hne.
    { intros x Hx <-. apply Hv. by apply list_elem_of_fmap_2. }
    pose proof (Hs (mkContentUpdate v b) ltac:(by left)) as Hsv. simpl in Hsv.
    simpl. rewrite Hsv. simpl. destruct b; simpl.
    - destruct (Hr v) as [Hiv Hpv]; [by left|].
      pose proof (proj1 (Hok i v) Hiv) as Hpi. unfold providers_of in Hpi.
      destruct (s.(uri_to_node) !! v) as [ps|] eqn:E; [|set_solver]. simpl in *.
      destruct emp; [by specialize (Hemp v Hiv)|]. simpl.
      rewrite bool_decide_eq_false_2 by (by intros []).
      rewrite bool_decide_eq_false_2 by (by intros []).
      apply IH; [done| |].
      + intros x Hx. rewrite lookup_insert_ne by (by apply not_eq_sym, Hne).
        apply Hs. by right.
      + intros u Hu. destruct (Hr u) as [??]; [by right|]. split; [done|].
        specialize (Hne _ Hu). simpl in Hne. set_solver.
    - apply IH; [done| |].
      + intros x Hx. rewrite lookup_insert_ne by (by apply not_eq_sym, Hne).
        apply Hs. by right.
      + intros u Hu. destruct (Hr u) as [??]; [by right|]. set_solver. }
  apply Hgen; [|done| |].
  - intros u Hu. apply bool_decide_eq_false_2. set_solver.
  - intros x _. apply lookup_empty.
  - intros u Hu. split; by apply Hrem.
Qed.
End content_theory.

(** ** Clearing a node *)

Section clearing.
Context {R : Ruint} {H : Host} {HL : HostLaws H}.

Lemma stage_clear_spec s i us staged :
  content_ok s → (∀ u, u ∈ us → u ∈ uris_of s i) →
  ∃ staged', stage_clear s i us staged = Ok staged' ∧
    ∀ u, staged' !! u = if decide (u ∈ us) then Some (providers_of s u ∖ {[i]})
                        else staged !! u.
Proof.
  intros Hok. revert staged. induction us as [|v us IH]; intros staged Hus; simpl; [eauto|].
  pose proof (proj1 (Hok i v) (Hus v ltac:(by left))) as Hiv. unfold providers_of in Hiv.
  destruct (s.(uri_to_node) !! v) as [ps|] eqn:E; [|set_solver]. simpl in Hiv.
  rewrite bool_decide_eq_false_2 by (by intros []).
  destruct (IH (<[v:=ps ∖ {[i]}]> staged)) as (st & -> & Hst).
  { intros u Hu. apply Hus. by right. }
  eexists. split; [done|]. intros u. rewrite Hst.
  destruct (decide (u ∈ us)); [rewrite decide_True by (by right); done|].
  destruct (decide (u = v)) as [->|].
  - rewrite lookup_insert_eq, decide_True by (by left). unfold providers_of. by rewrite E.
  - rewrite lookup_insert_ne by done. rewrite decide_False; [done|].
    rewrite list.not_elem_of_cons. done.
Qed.

Lemma clear_content_registry_run i s :
  content_ok s →
  ∃ s', clear_content_registry i s = Some (Ok tt, s') ∧ content_ok s' ∧
    uris_of s' i = ∅ ∧ (∀ j, j ≠ i → uris_of s' j = uris_of s j) ∧
    s' = set_node_to_uri s'.(node_to_uri) (set_uri_to_node s'.(uri_to_node) s).
Proof.
  intros Hok. unfold clear_content_registry. unfold_M.
  destruct (stage_clear_spec s i (elements (uris_of s i)) ∅ Hok) as (st & Hst & Hlk).
  { intros u. by rewrite elem_of_elements. }
  unfold uris_of at 1 in Hst. rewrite Hst, write_providers_run.
  eexists. split; [done|]. set (s' := set_node_to_uri _ _).
  assert (uris_of s' i = ∅) as Hi
    by (unfold uris_of, s'; state_simpl; by rewrite lookup_delete_eq).
  assert (∀ j, j ≠ i → uris_of s' j = uris_of s j) as Hj.
  { intros j Hj. unfold uris_of, s'. state_simpl. by rewrite lookup_delete_ne. }
  split_and!; try done.
  intros n u. unfold providers_of. unfold s' at 2. state_simpl.
  rewrite default_lookup_union. fold (providers_of s u). rewrite Hlk, lookup_empty.
  destruct (decide (n = i)) as [->|Hn]; [rewrite Hi|rewrite Hj, (Hok n u) by done];
    destruct (decide (u ∈ elements (uris_of s i))) as [Hu|Hu]; simpl; try set_solver.
  rewrite elem_of_elements, (Hok i u) in Hu. set_solver.
Qed.

(** Clearing a node from a consistent content registry cannot fail: it
    removes exactly that node's entries, keeps the other nodes' entries and
    the inverse relation, and touches no other table. *)
Theorem clear_content_registry_spec i s :
  content_ok s →
  ∃ s', clear_content_registry i s = Some (Ok tt, s') ∧ content_ok s' ∧
    uris_of s' i = ∅ ∧ (∀ j, j ≠ i → uris_of s' j = uris_of s j) ∧
    s' = set_node_to_uri s'.(node_to_uri) (set_uri_to_node s'.(uri_to_node) s).
Proof. apply clear_content_registry_run. Qed.

(** The nodes an epoch change clears. *)
Definition cleanup_due (s : StateExecutor) (i : NodeIndex) : Prop :=
  ∃ n, s.(node_info) !! i = Some n ∧ 0 < staked (node_stake n) ∧
       participation n = Participation.False.

(** The rows of a clean-up pass that are cleared. *)
Definition row_due (l : list (NodeIndex * NodeInfo)) (i : NodeIndex) : Prop :=
  ∃ n, (i, n) ∈ l ∧ participation n = Participation.False.

Lemma row_due_cons j n l i :
  row_due ((j, n) :: l) i ↔ (i = j ∧ participation n = Participation.False) ∨ row_due l i.
Proof.
  unfold row_due. setoid_rewrite list.elem_of_cons. naive_solver.
Qed.

Lemma row_due_registry s i :
  row_due (btree_rows (get_node_registry s)) i ↔ cleanup_due s i.
Proof.
  unfold row_due, cleanup_due, get_node_registry.
  setoid_rewrite elem_of_btree_rows. setoid_rewrite map_lookup_filter_Some. naive_solver.
Qed.

Lemma clean_up_rows l t :
  content_ok t →
  ∃ t', for_each (λ '(index, info),
      if bool_decide (info.(participation) = Participation.False)
      then clear_content_registry index;; mret tt else mret tt) l t = Some (tt, t') ∧
    content_ok t' ∧ (∀ i, row_due l i ∨ uris_of t i = ∅ → uris_of t' i = ∅) ∧
    (∀ i, ¬ row_due l i → uris_of t' i = uris_of t i) ∧
    t' = set_node_to_uri t'.(node_to_uri) (set_uri_to_node t'.(uri_to_node) t).
Proof.
  revert t. induction l as [|[i n] l IH]; intros t Hok.
  { exists t. split_and!; try done; [|by destruct t].
    intros i [(? & ?%not_elem_of_nil & ?)|?]; done. }
  simpl. unfold_M. setoid_rewrite row_due_cons. case_bool_decide as Hp.
  - destruct (clear_content_registry_run i t Hok) as (t1 & Ht1 & Hok1 & Hi & Hj & Hf1).
    unfold_M. rewrite Ht1. destruct (IH t1 Hok1) as (t' & Ht' & Hok' & Hd & Hnd & Hf').
    exists t'. split_and!; [done|done| | |rewrite Hf', Hf1; by state_simpl].
    + intros j Hdj. apply Hd. destruct (decide (j = i)) as [->|]; [auto|].
      rewrite Hj by done. naive_solver.
    + intros j HnD. rewrite Hnd by tauto. apply Hj. naive_solver.
  - destruct (IH t Hok) as (t' & Ht' & Hok' & Hd & Hnd & Hf').
    exists t'. split_and!; [done|done| | |done]; naive_solver.
Qed.

Lemma clean_up_content_registry_run s :
  content_ok s →
  ∃ s', clean_up_content_registry s = Some (tt, s') ∧ content_ok s' ∧
    (∀ i, cleanup_due s i → uris_of s' i = ∅) ∧
    (∀ i, ¬ cleanup_due s i → uris_of s' i = uris_of s i) ∧
    s' = set_node_to_uri s'.(node_to_uri) (set_uri_to_node s'.(uri_to_node) s).
Proof.
  intros Hok. unfold clean_up_content_registry. unfold_M.
  destruct (clean_up_rows (btree_rows (get_node_registry s)) s Hok)
    as (s' & Hrun & Hok' & Hd & Hnd & Hf).
  setoid_rewrite <-row_due_registry.
  exists s'. split_and!; [exact Hrun|done|intros; apply Hd; by left|done|done].
Qed.

(** C35: The clean-up of an epoch change never aborts; it clears the
    content of exactly the staked nodes that no longer participate. *)
Theorem clean_up_content_registry_spec s :
  content_ok s →
  ∃ s', clean_up_content_registry s = Some (tt, s') ∧ content_ok s' ∧
    (∀ i, cleanup_due s i → uris_of s' i = ∅) ∧
    (∀ i, ¬ cleanup_due s i → uris_of s' i = uris_of s i) ∧
    s' = set_node_to_uri s'.(node_to_uri) (set_uri_to_node s'.(uri_to_node) s).
Proof. apply clean_up_content_registry_run. Qed.
End clearing.
