(* ===== verification/Auction.v ===== *)
(** * The staking auction

    At every epoch change the executor picks the active node set: the
    [NodeCount] participating nodes with the highest stake, ties broken by the
    reputation score.  [settle_auction] runs a quickselect over a vector
    (executor.rs, [quick_sort_nodes] and [partition_nodes]).  The definitions
    below keep the in-place swaps; an index out of range is [None], as the
    program would abort there.  The recursion of [quick_sort_nodes] takes fuel;
    [settle_auction_spec] shows that the length of the vector is enough, that
    no index is ever out of range, and that the result is a correct
    selection. *)

From S2P Require Import Prelude HpFixed Types State.
From stdpp Require Import base gmap list sorting.
From Stdlib Require Import ZArith Lia.
Open Scope Z_scope.

Section auction.
Context (s : StateExecutor).

Definition AuctionNode : Type := NodeIndex * NodeInfo.

Definition compare_nodes_in_auction (pos pivot : AuctionNode) : bool :=
  match Z.compare (staked (node_stake pos.2)) (staked (node_stake pivot.2)) with
  | Lt => true
  | Gt => false
  | Eq => default 0 (s.(rep_scores) !! pos.1) <=? default 0 (s.(rep_scores) !! pivot.1)
  end.

(** [slice::swap]: aborts when an index is out of range. *)
Definition swap {A} (nodes : list A) (a b : nat) : option (list A) :=
  x ← nodes !! a; y ← nodes !! b; Some (<[b:=x]> (<[a:=y]> nodes)).

Fixpoint partition_loop (pivot : AuctionNode) (js : list nat)
    (nodes : list AuctionNode) (i : nat) : option (list AuctionNode * nat) :=
  match js with
  | [] => Some (nodes, i)
  | j :: js =>
      x ← nodes !! j;
      if compare_nodes_in_auction x pivot then
        nodes' ← swap nodes j i;
        partition_loop pivot js nodes' (S i)
      else partition_loop pivot js nodes i
  end.

Definition partition_nodes (nodes : list AuctionNode) (l r : nat)
    : option (list AuctionNode * nat) :=
  pivot ← nodes !! r;
  '(nodes, i) ← partition_loop pivot (seq l (r - l)) nodes l;
  nodes ← swap nodes i r;
  Some (nodes, i).

Fixpoint quick_sort_nodes (fuel : nat) (nodes : list AuctionNode) (l r k : nat)
    : option (list AuctionNode) :=
  match fuel with
  | O => None
  | S fuel =>
      '(nodes, pivot) ← partition_nodes nodes l r;
      match Nat.compare pivot (k - 1) with
      | Eq => Some (drop (pivot + 1) nodes)
      | Gt => quick_sort_nodes fuel nodes l (pivot - 1) k
      | Lt => quick_sort_nodes fuel nodes (pivot + 1) r k
      end
  end.

Definition settle_auction (nodes : list AuctionNode) : option (list AuctionNode) :=
  match s.(parameters) !! ProtocolParamKey.NodeCount with
  | Some (ProtocolParamValue.NodeCount v) =>
      let node_count := Z.to_nat v in
      let total_nodes := length nodes in
      if decide (total_nodes ≤ node_count)%nat then Some nodes
      else
        let k := (total_nodes - node_count)%nat in
        let r := (total_nodes - 1)%nat in
        quick_sort_nodes total_nodes nodes 0 r k
  | _ => None
  end.

(** ** The order of the auction is a total preorder *)

Definition outbid (a b : AuctionNode) : Prop := compare_nodes_in_auction a b = true.

Lemma outbid_spec a b :
  outbid a b ↔
    staked (node_stake a.2) < staked (node_stake b.2) ∨
    (staked (node_stake a.2) = staked (node_stake b.2) ∧
     default 0 (s.(rep_scores) !! a.1) ≤ default 0 (s.(rep_scores) !! b.1)).
Proof.
  unfold outbid, compare_nodes_in_auction.
  destruct (Z.compare_spec (staked (node_stake a.2)) (staked (node_stake b.2)));
    [rewrite Z.leb_le| |]; split; intros; try done; lia.
Qed.

#[local] Instance outbid_preorder : PreOrder outbid.
Proof.
  split; [intros a|intros a b c]; rewrite !outbid_spec; lia.
Qed.

Lemma outbid_total a b : outbid a b ∨ outbid b a.
Proof. rewrite !outbid_spec. lia. Qed.

Definition below (A B : list AuctionNode) : Prop :=
  ∀ a b, a ∈ A → b ∈ B → outbid a b.

(** ** Partition *)

Lemma lookup_second {A} (P M C : list A) x y n :
  n = (length P + S (length M))%nat → (P ++ x :: M ++ y :: C) !! n = Some y.
Proof.
  intros ->. rewrite (app_assoc P [x] (M ++ y :: C) : P ++ x :: _ = _), app_assoc.
  apply list_lookup_middle. rewrite !length_app. simpl. lia.
Qed.

Lemma insert_both {A} (P M C : list A) x y x' y' :
  <[length P:=x']> (<[(length P + S (length M))%nat:=y']> (P ++ x :: M ++ y :: C))
  = P ++ x' :: M ++ y' :: C.
Proof.
  rewrite insert_app_r. simpl. rewrite <-(Nat.add_0_r (length M)), insert_app_r. simpl.
  by rewrite <-(Nat.add_0_r (length P)), insert_app_r.
Qed.

Lemma swap_back {A} (P M C : list A) x y j i :
  j = (length P + S (length M))%nat → i = length P →
  swap (P ++ x :: M ++ y :: C) j i = Some (P ++ y :: M ++ x :: C).
Proof.
  intros Hj Hi. unfold swap. rewrite (lookup_second P M C x y j) by done.
  rewrite (list_lookup_middle P _ x i) by done. subst. simpl. by rewrite insert_both.
Qed.

Lemma swap_forth {A} (P M C : list A) x y j i :
  j = (length P + S (length M))%nat → i = length P →
  swap (P ++ x :: M ++ y :: C) i j = Some (P ++ y :: M ++ x :: C).
Proof.
  intros Hj Hi. unfold swap. rewrite (lookup_second P M C x y j) by done.
  rewrite (list_lookup_middle P _ x i) by done. subst. simpl.
  by rewrite list_insert_insert_ne, insert_both by lia.
Qed.

Lemma swap_same {A} (nodes : list A) i x :
  nodes !! i = Some x → swap nodes i i = Some nodes.
Proof.
  intros Hi. unfold swap. rewrite Hi. simpl. by rewrite list_insert_insert_eq, list_insert_id.
Qed.

Lemma partition_loop_spec p P L G B C i j n nodes :
  nodes = P ++ L ++ G ++ B ++ C → i = length (P ++ L) → j = length (P ++ L ++ G) →
  n = length B →
  (∀ a, a ∈ L → outbid a p) → (∀ b, b ∈ G → outbid p b) →
  ∃ L' G', partition_loop p (seq j n) nodes i = Some (P ++ L' ++ G' ++ C, length (P ++ L')) ∧
    L' ++ G' ≡ₚ L ++ G ++ B ∧
    (∀ a, a ∈ L' → outbid a p) ∧ (∀ b, b ∈ G' → outbid p b).
Proof.
  revert L G i j n nodes. induction B as [|x B IH]; intros L G i j n nodes -> -> -> -> HL HG.
  { exists L, G. simpl. by rewrite app_nil_r. }
  cbn [length seq partition_loop].
  replace ((P ++ L ++ G ++ (x :: B) ++ C) !! length (P ++ L ++ G)) with (Some x)
    by (by rewrite <-(list_lookup_middle (P ++ L ++ G) (B ++ C) x _ eq_refl), <-!app_assoc).
  cbn [mbind option_bind]. destruct (compare_nodes_in_auction x p) eqn:Hcmp.
  - assert (∃ G1, swap (P ++ L ++ G ++ (x :: B) ++ C) (length (P ++ L ++ G)) (length (P ++ L))
        = Some (P ++ (L ++ [x]) ++ G1 ++ B ++ C) ∧ G1 ≡ₚ G) as (G1 & -> & HG1).
    { destruct G as [|g G].
      - exists []. split; [|done]. rewrite app_nil_r. simpl. rewrite <-app_assoc.
        apply (swap_same _ _ x). rewrite app_assoc. by apply list_lookup_middle.
      - exists (G ++ [g]). split; [|by rewrite Permutation_app_comm].
        rewrite (app_assoc P L). simpl. erewrite swap_back; [|rewrite !length_app; simpl; lia|done].
        by rewrite <-!app_assoc. }
    cbn [mbind option_bind].
    destruct (IH (L ++ [x]) G1 (S (length (P ++ L))) (S (length (P ++ L ++ G))) (length B) _
      eq_refl) as (L' & G' & -> & Hperm & HL' & HG').
    { rewrite !length_app. simpl. lia. }
    { rewrite !length_app, HG1. simpl. lia. }
    { done. }
    { intros a [Ha|Ha%list_elem_of_singleton]%elem_of_app; [by apply HL|by subst]. }
    { intros b. rewrite HG1. apply HG. }
    exists L', G'. split_and!; try done. rewrite Hperm, HG1. solve_Permutation.
  - destruct (IH L (G ++ [x]) (length (P ++ L)) (S (length (P ++ L ++ G))) (length B)
      (P ++ L ++ G ++ (x :: B) ++ C)) as (L' & G' & -> & Hperm & HL' & HG').
    { by rewrite <-!app_assoc. }
    { done. }
    { rewrite !length_app. simpl. lia. }
    { done. }
    { done. }
    { intros b [Hb|Hb%list_elem_of_singleton]%elem_of_app; [by apply HG|subst].
      destruct (outbid_total p x) as [|Hxp]; [done|]. unfold outbid in Hxp. congruence. }
    exists L', G'. split_and!; try done. rewrite Hperm. by rewrite <-!app_assoc.
Qed.

Lemma partition_nodes_spec P B p C r :
  r = length (P ++ B) →
  ∃ L G, partition_nodes (P ++ B ++ p :: C) (length P) r
      = Some (P ++ L ++ p :: G ++ C, length (P ++ L)) ∧
    L ++ G ≡ₚ B ∧ (∀ a, a ∈ L → outbid a p) ∧ (∀ b, b ∈ G → outbid p b).
Proof.
  intros Hr. unfold partition_nodes.
  rewrite (app_assoc P B), (list_lookup_middle (P ++ B) C p r), <-app_assoc by done.
  cbn [mbind option_bind].
  destruct (partition_loop_spec p P [] [] B (p :: C) (length P) (length P) (r - length P)
    (P ++ B ++ p :: C)) as (L & G & -> & Hperm & HL & HG);
    [done|by rewrite app_nil_r|by rewrite app_nil_r| |set_solver|set_solver|].
  { rewrite Hr, length_app. lia. }
  simpl in Hperm. cbn [mbind option_bind]. rewrite (app_assoc P L). destruct G as [|g G].
  - replace r with (length (P ++ L)) by (by rewrite Hr, !length_app, <-Hperm, app_nil_r).
    erewrite swap_same by (by apply list_lookup_middle).
    exists L, []. by rewrite <-app_assoc.
  - simpl. erewrite swap_forth; [|rewrite Hr, !length_app, <-Hperm, length_app; simpl; lia|done].
    exists L, (G ++ [g]). rewrite <-!app_assoc. split_and!; [done| |done|].
    + rewrite <-Hperm. solve_Permutation.
    + intros b Hb. apply HG. set_solver.
Qed.

(** ** Selection *)

Lemma below_app_l A B C : below (A ++ B) C ↔ below A C ∧ below B C.
Proof. unfold below. setoid_rewrite elem_of_app. naive_solver. Qed.
Lemma below_app_r A B C : below A (B ++ C) ↔ below A B ∧ below A C.
Proof. unfold below. setoid_rewrite elem_of_app. naive_solver. Qed.
Lemma below_pivot L p G :
  (∀ a, a ∈ L → outbid a p) → (∀ b, b ∈ G → outbid p b) →
  below L [p] ∧ below [p] G ∧ below L G.
Proof.
  intros HL HG. split_and!; intros a b Ha Hb.
  - apply list_elem_of_singleton in Hb as ->. auto.
  - apply list_elem_of_singleton in Ha as ->. auto.
  - transitivity p; auto.
Qed.
#[local] Instance below_Permutation : Proper ((≡ₚ) ==> (≡ₚ) ==> iff) below.
Proof.
  intros A A' HA B B' HB. unfold below. setoid_rewrite HA. by setoid_rewrite HB.
Qed.

Lemma quick_sort_nodes_spec fuel P B C k :
  (length B ≤ fuel)%nat → (length P < k ≤ length P + length B)%nat →
  below P (B ++ C) → below B C →
  ∃ rejected out,
    quick_sort_nodes fuel (P ++ B ++ C) (length P) (length P + length B - 1) k = Some out ∧
    P ++ B ++ C ≡ₚ rejected ++ out ∧ length rejected = k ∧ below rejected out.
Proof.
  revert P B C. induction fuel as [|fuel IH]; intros P B C Hfuel Hk HP HB; [lia|].
  destruct (exists_last (l:=B)) as (B' & p & ->); [by intros ->; simpl in *; lia|].
  rewrite length_app in Hfuel, Hk |- *. rewrite <-app_assoc. simpl in *.
  destruct (partition_nodes_spec P B' p C (length P + (length B' + 1) - 1))
    as (L & G & -> & Hperm & HL & HG); [rewrite !length_app; lia|].
  cbn [mbind option_bind].
  pose proof (Permutation_length Hperm) as Hlen. rewrite length_app in Hlen.
  assert (P ++ B' ++ p :: C ≡ₚ P ++ L ++ p :: G ++ C) as Hall by (rewrite <-Hperm; solve_Permutation).
  setoid_rewrite Hall. clear Hall.
  destruct (below_pivot L p G HL HG) as (HLp & HpG & HLG).
  rewrite <-Hperm in HP, HB. rewrite !below_app_r in HP. rewrite !below_app_l in HB.
  destruct HP as [[[HPL HPG] HPp] HPC], HB as [[HLC HGC] HpC].
  rewrite length_app. destruct (Nat.compare_spec (length P + length L) (k - 1)) as [E|E|E].
  - exists (P ++ L ++ [p]), (G ++ C). split_and!.
    + f_equal. rewrite (app_assoc P L), (cons_middle p), (app_assoc (P ++ L)).
      apply drop_app_length'. rewrite !length_app. simpl. lia.
    + by rewrite <-!app_assoc.
    + rewrite !length_app. simpl. lia.
    + by rewrite !below_app_l, !below_app_r.
  - destruct (IH (P ++ L ++ [p]) G C) as (rej & out & Hrun & Hp & Hl & Hb);
      [lia|rewrite !length_app; simpl; lia|by rewrite !below_app_l, !below_app_r|done|].
    exists rej, out. split_and!; try done.
    + rewrite <-Hrun. f_equal; rewrite ?length_app, <-?app_assoc; simpl; try done; lia.
    + rewrite <-Hp. by rewrite <-!app_assoc.
  - destruct (IH P L ([p] ++ G ++ C)) as (rej & out & Hrun & Hp & Hl & Hb);
      [lia|lia|by rewrite !below_app_r|by rewrite !below_app_r|].
    exists rej, out. by split_and!.
Qed.

(** The nodes of [nodes] that lose the auction of [settle_auction]. *)
Definition auction_result (nodes rejected out : list AuctionNode) (count : nat) : Prop :=
  nodes ≡ₚ rejected ++ out ∧
  length out = Nat.min count (length nodes) ∧
  below rejected out.

Lemma settle_auction_result nodes count :
  s.(parameters) !! ProtocolParamKey.NodeCount = Some (ProtocolParamValue.NodeCount count) →
  ∃ rejected out, settle_auction nodes = Some out ∧
    auction_result nodes rejected out (Z.to_nat count).
Proof.
  intros Hc. unfold settle_auction, auction_result. rewrite Hc. case_decide as Hle.
  { exists [], nodes. split_and!; [done|done|lia|]. by intros a b ?%not_elem_of_nil. }
  destruct (quick_sort_nodes_spec (length nodes) [] nodes [] (length nodes - Z.to_nat count))
    as (rej & out & Hrun & Hp & Hl & Hb); [done|simpl; lia|by intros a b ?%not_elem_of_nil|by intros a b _ ?%not_elem_of_nil|].
  simpl in *. rewrite app_nil_r in *. exists rej, out. split_and!; try done.
  pose proof (Permutation_length Hp) as Hlen. rewrite length_app in Hlen. lia.
Qed.

(** C33: Once the genesis set [NodeCount], settling the auction terminates
    without an out-of-range access and returns a correct selection: the
    result has min(NodeCount, number of candidates) nodes, it and the
    rejected nodes together are exactly the candidates, and no rejected node
    beats a selected one in (stake, reputation) order. *)
Theorem settle_auction_spec nodes count :
  s.(parameters) !! ProtocolParamKey.NodeCount = Some (ProtocolParamValue.NodeCount count) →
  ∃ rejected out, settle_auction nodes = Some out ∧
    nodes ≡ₚ rejected ++ out ∧
    length out = Nat.min (Z.to_nat count) (length nodes) ∧
    ∀ a b, a ∈ rejected → b ∈ out →
      staked (node_stake a.2) < staked (node_stake b.2) ∨
      (staked (node_stake a.2) = staked (node_stake b.2) ∧
       default 0 (s.(rep_scores) !! a.1) ≤ default 0 (s.(rep_scores) !! b.1)).
Proof.
  intros Hc. destruct (settle_auction_result nodes count Hc) as (rej & out & Hrun & Hp & Hl & Hb).
  exists rej, out. split_and!; try done. intros a b Ha Hb'. by apply outbid_spec, Hb.
Qed.
End auction.
