(* ===== verification/Jobs.v ===== *)
(** * Recurring jobs

    Jobs live in two tables: [jobs] holds each job with its assignee,
    [assigned_jobs] the job hashes of every node (executor.rs, [add_jobs],
    [remove_jobs], [update_jobs], [assign_jobs]; epoch_change.rs,
    [reassign_jobs]).  The file models the five operations and shows that the
    two tables stay inverse to each other, that every job gets exactly one
    participating node, and how the work is spread. *)

From S2P Require Import Prelude HpFixed Types State Ledger Accounts Nodes.
From stdpp Require Import base gmap list sorting.
From Stdlib Require Import ZArith Lia.
Open Scope Z_scope.

Definition with_assignee (o : option NodeIndex) (j : Job) : Job :=
  mkJob (job_hash j) (job_info j) (job_status j) o.
Definition with_job_status (o : option JobStatus) (j : Job) : Job :=
  mkJob (job_hash j) (job_info j) o (assignee j).

Section jobs.
Context {R : Ruint} {H : Host}.

(** The nodes jobs are scheduled to, before the shuffle. *)
Definition participating_nodes (s : StateExecutor) : list NodeIndex :=
  merge_sort Z.le
    (filter (λ r, participation r.2 = Participation.True)
      (btree_rows (get_node_registry s))).*1.

Fixpoint assign_loop (nodes : list NodeIndex) (chunk i : nat) (jobs : list Hash32)
    (assigned_jobs : gmap NodeIndex (list Hash32))
    : option (gmap NodeIndex (list Hash32)) :=
  match jobs with
  | [] => Some assigned_jobs
  | sched_jobs :: jobs =>
      node_i ← (if decide (chunk = 0)%nat then None else Some (i / chunk)%nat);
      index ← nodes !! node_i;
      assign_loop nodes chunk (S i) jobs
        (<[index:=default [] (assigned_jobs !! index) ++ [sched_jobs]]> assigned_jobs)
  end.

Definition assign_jobs (s : StateExecutor) (jobs : list Hash32)
    : option (gmap NodeIndex (list Hash32)) :=
  let jobs := merge_sort N.le jobs in
  let jobs_hash := sha3_words jobs in
  let nodes := shuffle jobs_hash (participating_nodes s) in
  let chunk :=
    if decide (nodes = [] ∨ (length jobs < length nodes)%nat) then 1%nat
    else ((length jobs + length nodes - 1) / length nodes)%nat in
  assign_loop nodes chunk 0 jobs ∅.

(** [into_iter().map(|job| (job.hash, job)).collect::<HashMap<_, _>>()]. *)
Definition collect_jobs (jobs : list Job) : gmap Hash32 Job :=
  foldl (λ m job, <[job_hash job:=job]> m) ∅ jobs.

(** The assignee of every job hash a node received. *)
Definition record_assignees (assigned_jobs : list (NodeIndex * list Hash32))
    (jobs : gmap Hash32 Job) : gmap Hash32 Job :=
  foldl (λ jobs '(index, node_jobs),
    foldl (λ jobs h, alter (with_assignee (Some index)) h jobs) jobs node_jobs)
    jobs assigned_jobs.

Definition add_jobs (jobs : list Job) : Exec TransactionResponse :=
  s ← get;
  let jobs := collect_jobs jobs in
  let job_hashes := keys jobs in
  assigned_jobs ← unwrap (assign_jobs s job_hashes);
  let jobs := record_assignees (table_rows assigned_jobs) jobs in
  for_each (λ '(node, node_jobs), modify (λ s,
    match s.(State.assigned_jobs) !! node with
    | Some cur_assigned_jobs =>
        set_assigned_jobs (<[node:=cur_assigned_jobs ++ node_jobs]> s.(State.assigned_jobs)) s
    | None => set_assigned_jobs (<[node:=node_jobs]> s.(State.assigned_jobs)) s
    end)) (table_rows assigned_jobs);;
  for_each (λ '(h, job), modify (λ s, set_jobs (<[h:=job]> s.(State.jobs)) s))
    (table_rows jobs);;
  mret (Success ExecutionData.None).

(** [position] followed by [remove]: drops the first occurrence. *)
Fixpoint remove_first (x : Hash32) (l : list Hash32) : list Hash32 :=
  match l with
  | [] => []
  | y :: l => if decide (x = y) then l else y :: remove_first x l
  end.

Definition remove_jobs (jobs : list Hash32) : Exec TransactionResponse :=
  for_each (λ h, modify (λ s,
    let s :=
      match s.(State.jobs) !! h with
      | Some job =>
          match assignee job with
          | Some assignee =>
              match s.(assigned_jobs) !! assignee with
              | Some l =>
                  set_assigned_jobs (<[assignee:=remove_first h l]> s.(assigned_jobs)) s
              | None => s
              end
          | None => s
          end
      | None => s
      end in
    set_jobs (delete h s.(State.jobs)) s)) jobs;;
  mret (Success ExecutionData.None).

Definition update_jobs (updates : list (Hash32 * JobStatus)) : Exec TransactionResponse :=
  for_each (λ '(h, status), modify (λ s,
    match s.(State.jobs) !! h with
    | Some job => set_jobs (<[h:=with_job_status (Some status) job]> s.(State.jobs)) s
    | None => s
    end)) updates;;
  mret (Success ExecutionData.None).

Definition reassign_jobs : Exec unit :=
  s ← get;
  let jobs := with_assignee None <$> (table_rows s.(State.jobs)).*2 in
  modify (set_jobs ∅);;
  modify (set_assigned_jobs ∅);;
  add_jobs jobs;;
  mret tt.
End jobs.

(** ** How the work is divided *)

Section assign.
Context {R : Ruint} {H : Host} {HL : HostLaws H}.

(** The jobs of the [q]-th node when positions [i, i+1, ..] are handed out
    [chunk] at a time. *)
Definition segment (chunk q i : nat) (jobs : list Hash32) : list Hash32 :=
  drop (q * chunk - i) (take (S q * chunk - i) jobs).

Lemma segment_cons chunk q i h jobs :
  chunk ≠ 0%nat →
  segment chunk q i (h :: jobs) =
    if decide (i / chunk = q)%nat then h :: segment chunk q (S i) jobs
    else segment chunk q (S i) jobs.
Proof.
  intros Hc. unfold segment.
  pose proof (Nat.div_mod i chunk Hc) as Hdm. pose proof (Nat.mod_upper_bound i chunk Hc) as Hm.
  case_decide as Hq.
  - replace (q * chunk - i)%nat with 0%nat by nia.
    replace (q * chunk - S i)%nat with 0%nat by nia.
    replace (S q * chunk - i)%nat with (S (S q * chunk - S i))%nat by nia. done.
  - destruct (decide (i < q * chunk)%nat).
    + replace (S q * chunk - i)%nat with (S (S q * chunk - S i))%nat by lia.
      replace (q * chunk - i)%nat with (S (q * chunk - S i))%nat by lia. done.
    + assert (i / chunk > q)%nat by nia.
      replace (S q * chunk - i)%nat with 0%nat by nia.
      replace (S q * chunk - S i)%nat with 0%nat by nia. by rewrite !take_0, !drop_nil.
Qed.

Lemma elem_of_segment chunk q h jobs :
  chunk ≠ 0%nat →
  h ∈ segment chunk q 0 jobs ↔ ∃ p, jobs !! p = Some h ∧ (p / chunk = q)%nat.
Proof.
  intros Hc. unfold segment. rewrite !Nat.sub_0_r, list_elem_of_lookup.
  setoid_rewrite lookup_drop. setoid_rewrite lookup_take_Some. split.
  - intros (i & Hi & Hlt). eexists. split; [done|].
    symmetry. apply (Nat.div_unique _ _ _ i); lia.
  - intros (p & Hp & <-). exists (p mod chunk)%nat.
    pose proof (Nat.div_mod p chunk Hc). pose proof (Nat.mod_upper_bound p chunk Hc).
    replace (p / chunk * chunk + p mod chunk)%nat with p by lia. split; [done|nia].
Qed.

Lemma assign_loop_spec nodes chunk i jobs acc :
  NoDup nodes → chunk ≠ 0%nat → (i + length jobs ≤ chunk * length nodes)%nat →
  ∃ m, assign_loop nodes chunk i jobs acc = Some m ∧
    (∀ q x, nodes !! q = Some x →
      default [] (m !! x) = default [] (acc !! x) ++ segment chunk q i jobs) ∧
    (∀ x, x ∉ nodes → m !! x = acc !! x).
Proof.
  intros Hnd Hc. revert i acc. induction jobs as [|h jobs IH]; intros i acc Hlen; simpl.
  { exists acc. split_and!; [done| |done]. intros q x _. unfold segment.
    by rewrite take_nil, drop_nil, app_nil_r. }
  simpl in Hlen. rewrite decide_False by done. cbn [mbind option_bind].
  assert (i / chunk < length nodes)%nat as Hlt by (apply Nat.div_lt_upper_bound; lia).
  apply lookup_lt_is_Some in Hlt as [y Hy]. rewrite Hy. cbn [mbind option_bind].
  edestruct (IH (S i)) as (m & -> & Hin & Hout); [lia|].
  exists m. split_and!; [done| |].
  - intros q x Hx. rewrite (Hin q x Hx), segment_cons by done. case_decide as Hq.
    + rewrite Hq in Hy. simplify_eq. rewrite lookup_insert_eq. simpl. by rewrite <-app_assoc.
    + rewrite lookup_insert_ne; [done|]. intros ->. apply Hq.
      by eapply NoDup_lookup.
  - intros x Hx. rewrite Hout by done. rewrite lookup_insert_ne; [done|].
    intros ->. by apply list_elem_of_lookup_2 in Hy.
Qed.

Lemma elem_of_participating_nodes s x :
  x ∈ participating_nodes s ↔
    ∃ n, s.(node_info) !! x = Some n ∧ 0 < staked (node_stake n) ∧
         participation n = Participation.True.
Proof.
  unfold participating_nodes, get_node_registry.
  rewrite merge_sort_Permutation, list_elem_of_fmap. split.
  - intros ([y n] & -> & [Hp Hin]%list_elem_of_filter).
    apply elem_of_btree_rows, map_lookup_filter_Some in Hin as [??]. by exists n.
  - intros (n & Hx & Hst & Hp). exists (x, n). split; [done|].
    apply list_elem_of_filter. split; [done|].
    by apply elem_of_btree_rows, map_lookup_filter_Some.
Qed.

Lemma NoDup_participating_nodes s : NoDup (participating_nodes s).
Proof.
  unfold participating_nodes. rewrite merge_sort_Permutation.
  eapply sublist_NoDup; [apply (NoDup_btree_rows (get_node_registry s))|].
  apply fmap_sublist, sublist_filter.
Qed.

(** An assignment of [jobs] to the participating nodes: every job goes to
    exactly one of them, once, and no node gets more than its share. *)
Record assignment (s : StateExecutor) (jobs : list Hash32)
    (m : gmap NodeIndex (list Hash32)) : Prop := {
  assignment_total h : h ∈ jobs → ∃ x, h ∈ default [] (m !! x);
  assignment_sound x h : h ∈ default [] (m !! x) → h ∈ jobs ∧ x ∈ participating_nodes s;
  assignment_unique x y h : h ∈ default [] (m !! x) → h ∈ default [] (m !! y) → x = y;
  assignment_NoDup x : NoDup (default [] (m !! x));
  assignment_share x :
    (length (default [] (m !! x)) * length (participating_nodes s)
      < length jobs + length (participating_nodes s))%nat
}.

Lemma assignment_segments s jobs js nodes chunk m :
  NoDup jobs → js ≡ₚ jobs → nodes ≡ₚ participating_nodes s → (0 < length nodes)%nat →
  chunk ≠ 0%nat →
  (length js ≤ chunk * length nodes)%nat →
  (length js ≠ 0 → chunk * length nodes < length js + length nodes)%nat →
  (∀ q x, nodes !! q = Some x → default [] (m !! x) = segment chunk q 0 js) →
  (∀ x, x ∉ nodes → m !! x = None) →
  assignment s jobs m.
Proof.
  intros Hnd Hjs Hnodes Hpos_n Hc Hle Hub Hin Hout.
  assert (∀ x h, h ∈ default [] (m !! x) → ∃ p, js !! p = Some h ∧
    nodes !! (p / chunk)%nat = Some x) as Hpos.
  { intros x h Hh. destruct (decide (x ∈ nodes)) as [Hx|Hx].
    - apply list_elem_of_lookup in Hx as [q Hq]. rewrite (Hin q x Hq) in Hh.
      apply elem_of_segment in Hh as (p & ? & <-); eauto.
    - rewrite Hout in Hh by done. by apply not_elem_of_nil in Hh. }
  assert (NoDup js) as Hndj by (by rewrite Hjs). split.
  - intros h Hh. rewrite <-Hjs in Hh. apply list_elem_of_lookup in Hh as [p Hp].
    apply lookup_lt_Some in Hp as Hlt.
    assert (p / chunk < length nodes)%nat as [x Hx]%lookup_lt_is_Some
      by (apply Nat.div_lt_upper_bound; lia).
    exists x. rewrite (Hin _ x Hx). apply elem_of_segment; eauto.
  - intros x h (p & Hp & Hx)%Hpos. rewrite <-Hjs, <-Hnodes. eauto using list_elem_of_lookup_2.
  - intros x y h (p & Hp & Hx)%Hpos (p' & Hp' & Hy)%Hpos.
    assert (p = p') as -> by (by eapply NoDup_lookup). congruence.
  - intros x. destruct (decide (x ∈ nodes)) as [Hx|Hx]; [|rewrite Hout by done; constructor].
    apply list_elem_of_lookup in Hx as [q Hq]. rewrite (Hin q x Hq). unfold segment.
    eapply sublist_NoDup; [exact Hndj|]. etrans; [apply sublist_drop|apply sublist_take].
  - intros x. rewrite <-Hnodes, <-Hjs. destruct (decide (x ∈ nodes)) as [Hx|Hx].
    + apply list_elem_of_lookup in Hx as [q Hq]. rewrite (Hin q x Hq). unfold segment.
      apply lookup_lt_Some in Hq. rewrite length_drop, length_take. nia.
    + rewrite Hout by done. simpl. lia.
Qed.

Lemma assign_jobs_assignment s jobs :
  NoDup jobs → participating_nodes s ≠ [] →
  ∃ m, assign_jobs s jobs = Some m ∧ assignment s jobs m.
Proof.
  intros Hnd Hne. unfold assign_jobs.
  set (js := merge_sort N.le jobs). set (nodes := shuffle _ _).
  assert (js ≡ₚ jobs) as Hjs by apply merge_sort_Permutation.
  assert (nodes ≡ₚ participating_nodes s) as Hnodes by apply shuffle_permutation.
  pose proof (Permutation_length Hjs) as Hjl. pose proof (Permutation_length Hnodes) as Hnl.
  destruct (decide (nodes = [])) as [Hnil|Hnil].
  { rewrite Hnil in Hnodes. by apply Permutation_nil_l in Hnodes. }
  set (chunk := if decide _ then _ else _).
  assert (0 < length nodes)%nat by (destruct nodes; [done|simpl; lia]).
  assert (chunk ≠ 0 ∧ length js ≤ chunk * length nodes ∧
    (length js ≠ 0 → chunk * length nodes < length js + length nodes))%nat as (Hc & Hle & Hub).
  { unfold chunk. case_decide as Hd; [destruct Hd; [done|lia]|].
    assert (length nodes ≤ length js)%nat by (apply Nat.nlt_ge; tauto).
    pose proof (Nat.div_mod (length js + length nodes - 1) (length nodes) ltac:(lia)).
    pose proof (Nat.mod_upper_bound (length js + length nodes - 1) (length nodes) ltac:(lia)).
    split_and!; nia. }
  destruct (assign_loop_spec nodes chunk 0 js ∅) as (m & Hm & Hin & Hout);
    [by rewrite Hnodes; apply NoDup_participating_nodes|done|lia|].
  exists m. split; [done|]. setoid_rewrite lookup_empty in Hin.
  setoid_rewrite lookup_empty in Hout. simpl in Hin.
  by eapply assignment_segments.
Qed.
End assign.

(** ** The two job tables *)

Section tables.
Context {R : Ruint} {H : Host} {HL : HostLaws H}.

Definition jobs_of (s : StateExecutor) (x : NodeIndex) : list Hash32 :=
  default [] (s.(assigned_jobs) !! x).

(** The tables are inverse: a node lists exactly the jobs assigned to it. *)
Record jobs_ok (s : StateExecutor) : Prop := {
  jobs_ok_hash h job : s.(jobs) !! h = Some job → job_hash job = h;
  jobs_ok_assigned x h :
    h ∈ jobs_of s x ↔ ∃ job, s.(jobs) !! h = Some job ∧ assignee job = Some x;
  jobs_ok_NoDup x : NoDup (jobs_of s x)
}.

Lemma collect_jobs_spec js h :
  (∀ job, collect_jobs js !! h = Some job → job ∈ js ∧ job_hash job = h) ∧
  (is_Some (collect_jobs js !! h) ↔ ∃ job, job ∈ js ∧ job_hash job = h).
Proof.
  unfold collect_jobs. induction js as [|j js IH] using rev_ind.
  - simpl. rewrite lookup_empty. split; [done|]. split; [by intros []|].
    by intros (? & ?%not_elem_of_nil & _).
  - rewrite foldl_app. simpl. setoid_rewrite elem_of_app. setoid_rewrite list_elem_of_singleton.
    destruct (decide (job_hash j = h)) as [<-|Hne].
    + rewrite lookup_insert_eq. split; [naive_solver|]. split; eauto.
    + rewrite lookup_insert_ne by done. naive_solver.
Qed.

Lemma foldl_alter_lookup x l (J : gmap Hash32 Job) h :
  foldl (λ J h, alter (with_assignee (Some x)) h J) J l !! h =
    if decide (h ∈ l) then with_assignee (Some x) <$> J !! h else J !! h.
Proof.
  revert J. induction l as [|g l IH]; intros J; simpl.
  { done. }
  rewrite IH. destruct (decide (h = g)) as [->|Hne].
  - rewrite lookup_alter_eq, (decide_True (P:=g ∈ g :: l)) by (by left).
    case_decide; [|done]. by destruct (J !! g).
  - rewrite lookup_alter_ne by done.
    do 2 case_decide; rewrite list.elem_of_cons in *; tauto.
Qed.

Lemma record_assignees_lookup rows J h :
  (∃ x l, (x, l) ∈ rows ∧ h ∈ l ∧
    record_assignees rows J !! h = with_assignee (Some x) <$> J !! h) ∨
  ((∀ x l, (x, l) ∈ rows → h ∉ l) ∧ record_assignees rows J !! h = J !! h).
Proof.
  unfold record_assignees. induction rows as [|[x l] rows IH] using rev_ind.
  { right. split; [|done]. by intros ?? ?%not_elem_of_nil. }
  rewrite foldl_app. cbn [foldl]. rewrite foldl_alter_lookup.
  setoid_rewrite elem_of_app. setoid_rewrite list_elem_of_singleton. case_decide as Hh.
  - left. exists x, l. split_and!; [by right|done|].
    destruct IH as [(y & k & _ & _ & ->)|[_ ->]]; [|done]. by destruct (J !! h).
  - naive_solver.
Qed.

(** The lists after each node's new jobs are appended. *)
Definition extend_assigned (rows : list (NodeIndex * list Hash32))
    (T : gmap NodeIndex (list Hash32)) : gmap NodeIndex (list Hash32) :=
  foldl (λ T r, <[r.1:=default [] (T !! r.1) ++ r.2]> T) T rows.

Lemma extend_assigned_lookup rows T x :
  NoDup rows.*1 →
  default [] (extend_assigned rows T !! x)
  = default [] (T !! x) ++ default [] ((list_to_map rows : gmap _ _) !! x).
Proof.
  revert T. induction rows as [|[y l] rows IH]; intros T; simpl.
  { intros _. by rewrite lookup_empty, app_nil_r. }
  intros [Hy Hnd]%list.NoDup_cons. unfold extend_assigned in *. simpl. rewrite IH by done.
  destruct (decide (x = y)) as [->|Hne].
  - rewrite !lookup_insert_eq, (not_elem_of_list_to_map_1 rows y) by done.
    simpl. by rewrite app_nil_r.
  - by rewrite !lookup_insert_ne by done.
Qed.

Lemma add_jobs_run js s m :
  assign_jobs s (keys (collect_jobs js)) = Some m →
  add_jobs js s = Some (Success ExecutionData.None,
    set_jobs (record_assignees (table_rows m) (collect_jobs js) ∪ s.(jobs))
      (set_assigned_jobs (extend_assigned (table_rows m) s.(assigned_jobs)) s)).
Proof.
  intros Hm. unfold add_jobs. unfold_M. rewrite Hm.
  match goal with |- context [for_each ?f (table_rows m)] => set (F := f) end.
  assert (∀ rows t, for_each F rows t
    = Some (tt, set_assigned_jobs (extend_assigned rows t.(assigned_jobs)) t)) as ->.
  { clear. induction rows as [|[x l] rows IH]; intros t; [by destruct t|].
    simpl. unfold_M. unfold F at 1. rewrite IH. unfold extend_assigned. simpl.
    by destruct (t.(assigned_jobs) !! x). }
  set (J := record_assignees _ _).
  match goal with |- context [for_each ?f (table_rows J)] => set (G := f) end.
  assert (∀ rows t, for_each G rows t
    = Some (tt, set_jobs (foldl (λ m r, <[r.1:=r.2]> m) t.(jobs) rows) t)) as ->.
  { clear. induction rows as [|[h j] rows IH]; intros t; [by destruct t|].
    simpl. unfold_M. unfold G at 1. by rewrite IH. }
  rewrite foldl_insert_union by apply NoDup_table_rows. by rewrite list_to_map_table_rows.
Qed.

(** What [add_jobs] leaves behind when it can place the jobs. *)
Record jobs_added (js : list Job) (s s' : StateExecutor) : Prop := {
  jobs_added_ok : jobs_ok s';
  jobs_added_new h job :
    collect_jobs js !! h = Some job →
    ∃ x, x ∈ participating_nodes s ∧ s'.(jobs) !! h = Some (with_assignee (Some x) job);
  jobs_added_old h :
    collect_jobs js !! h = None → s'.(jobs) !! h = s.(jobs) !! h;
  jobs_added_frame :
    s' = set_jobs s'.(jobs) (set_assigned_jobs s'.(assigned_jobs) s)
}.

Lemma jobs_ok_extend js s s' m (J : gmap Hash32 Job) :
  jobs_ok s → assignment s (keys (collect_jobs js)) m →
  (∀ x, jobs_of s' x = jobs_of s x ++ default [] (m !! x)) →
  (∀ h job, collect_jobs js !! h = Some job →
    s.(jobs) !! h = None ∧ ∃ x, h ∈ default [] (m !! x) ∧
      J !! h = Some (with_assignee (Some x) job)) →
  (∀ h, collect_jobs js !! h = None → J !! h = None) →
  (∀ h, s'.(jobs) !! h = (J ∪ s.(jobs)) !! h) →
  jobs_ok s'.
Proof.
  intros [Hhash Hass Hnd] [Htot Hsound Huniq Hmnd _] Hlist Hnew Hnone Hjobs.
  assert (∀ x h, h ∈ default [] (m !! x) → is_Some (collect_jobs js !! h)) as Hkey.
  { intros x h [Hh _]%Hsound. by apply elem_of_keys in Hh. }
  split.
  - intros h job. rewrite Hjobs. destruct (collect_jobs js !! h) as [j|] eqn:Hj.
    + destruct (Hnew h j Hj) as (_ & x & _ & HJ). rewrite (lookup_union_Some_l _ _ _ _ HJ).
      intros [= <-]. simpl. by apply collect_jobs_spec in Hj as [_ ?].
    + rewrite lookup_union_r by auto. apply Hhash.
  - intros x h. rewrite Hlist, elem_of_app, Hjobs, Hass.
    destruct (collect_jobs js !! h) as [j|] eqn:Hj.
    + destruct (Hnew h j Hj) as (Hs & y & Hy & HJ).
      rewrite (lookup_union_Some_l _ _ _ _ HJ), Hs. split.
      * intros [(? & ? & _)|Hx]; [done|]. eexists. split; [done|]. simpl.
        f_equal. by eapply Huniq.
      * intros (job & [= <-] & [= <-]). by right.
    + rewrite lookup_union_r by auto. split; [|by left].
      intros [?|Hx]; [done|]. apply Hkey in Hx as [? ?]. congruence.
  - intros x. rewrite Hlist. apply NoDup_app. split_and!; [done| |done].
    intros h (job & Hs & _)%Hass Hx. destruct (Hkey x h Hx) as [j Hj].
    destruct (Hnew h j Hj) as [? _]. congruence.
Qed.

Lemma add_jobs_added js s :
  jobs_ok s → participating_nodes s ≠ [] →
  (∀ job, job ∈ js → s.(jobs) !! job_hash job = None) →
  ∃ s', add_jobs js s = Some (Success ExecutionData.None, s') ∧ jobs_added js s s'.
Proof.
  intros Hok Hne Hfresh.
  destruct (assign_jobs_assignment s (keys (collect_jobs js))) as (m & Hm & Has);
    [apply keys_NoDup|done|].
  rewrite (add_jobs_run js s m Hm). eexists. split; [done|]. set (s' := set_jobs _ _).
  set (J := record_assignees _ _) in s'.
  assert (∀ x, jobs_of s' x = jobs_of s x ++ default [] (m !! x)) as Hlist.
  { intros x. unfold jobs_of, s'. state_simpl.
    by rewrite extend_assigned_lookup, list_to_map_table_rows by apply NoDup_table_rows. }
  assert (∀ h job, collect_jobs js !! h = Some job →
    s.(jobs) !! h = None ∧ ∃ x, h ∈ default [] (m !! x) ∧
      J !! h = Some (with_assignee (Some x) job)) as Hnew.
  { intros h job Hj. destruct (proj1 (collect_jobs_spec js h) job Hj) as [Hin <-].
    split; [by apply Hfresh|]. unfold J.
    destruct (record_assignees_lookup (table_rows m) (collect_jobs js) (job_hash job))
      as [(x & l & Hx & Hh & ->)|[Hno _]].
    - apply elem_of_table_rows in Hx. exists x. by rewrite Hx, Hj.
    - destruct (assignment_total _ _ _ Has (job_hash job)) as [x Hx]; [by apply elem_of_keys|].
      destruct (m !! x) as [l|] eqn:E; simpl in Hx; [|by apply not_elem_of_nil in Hx].
      by apply elem_of_table_rows, Hno in E. }
  assert (∀ h, collect_jobs js !! h = None → J !! h = None) as Hnone.
  { intros h Hj. unfold J.
    destruct (record_assignees_lookup (table_rows m) (collect_jobs js) h)
      as [(x & l & _ & _ & ->)|[_ ->]]; by rewrite Hj. }
  assert (∀ h, s'.(jobs) !! h = (J ∪ s.(jobs)) !! h) as Hjobs by done.
  split.
  - by eapply jobs_ok_extend.
  - intros h job Hj. destruct (Hnew h job Hj) as (_ & x & Hx & HJ). exists x.
    split; [by eapply assignment_sound|]. rewrite Hjobs. by apply lookup_union_Some_l.
  - intros h Hj. rewrite Hjobs. apply lookup_union_r. by apply Hnone.
  - done.
Qed.

(** When at least one staked node participates and the hashes are new,
    adding jobs succeeds, gives every job exactly one participating node,
    keeps the other jobs and keeps the two job tables inverse. *)
Theorem add_jobs_spec js s :
  jobs_ok s → participating_nodes s ≠ [] →
  (∀ job, job ∈ js → s.(jobs) !! job_hash job = None) →
  ∃ s', add_jobs js s = Some (Success ExecutionData.None, s') ∧ jobs_ok s' ∧
    (∀ h, (∃ job, job ∈ js ∧ job_hash job = h) →
      ∃ x job, x ∈ participating_nodes s ∧ s'.(jobs) !! h = Some job ∧
               assignee job = Some x ∧ h ∈ jobs_of s' x) ∧
    (∀ h, ¬ (∃ job, job ∈ js ∧ job_hash job = h) → s'.(jobs) !! h = s.(jobs) !! h).
Proof.
  intros Hok Hne Hf. destruct (add_jobs_added js s Hok Hne Hf) as (s' & Hrun & [Hok' Hnew Hold _]).
  exists s'. split_and!; [done|done| |].
  - intros h Hh. apply collect_jobs_spec in Hh as [job Hj].
    destruct (Hnew h job Hj) as (x & Hx & Hs'). exists x, (with_assignee (Some x) job).
    split_and!; [done..|]. apply jobs_ok_assigned; eauto.
  - intros h Hh. apply Hold. apply eq_None_not_Some. intros Hs.
    by apply Hh, collect_jobs_spec.
Qed.

Lemma collect_jobs_rows s :
  (∀ h job, s.(jobs) !! h = Some job → job_hash job = h) →
  collect_jobs (with_assignee None <$> (table_rows s.(jobs)).*2)
  = with_assignee None <$> s.(jobs).
Proof.
  intros Hhash. apply map_eq. intros h. rewrite lookup_fmap.
  destruct (collect_jobs_spec (with_assignee None <$> (table_rows s.(jobs)).*2) h) as [Hin Hex].
  assert (∀ job, job ∈ with_assignee None <$> (table_rows s.(jobs)).*2 ∧ job_hash job = h ↔
    ∃ j, s.(jobs) !! h = Some j ∧ job = with_assignee None j) as Hrows.
  { intros job. rewrite list_elem_of_fmap. setoid_rewrite list_elem_of_fmap. split.
    - intros ((j & -> & ([h' j'] & -> & Hr)) & Hj). apply elem_of_table_rows in Hr.
      simpl in *. exists j'. by rewrite (Hhash _ _ Hr) in Hj; subst.
    - intros (j & Hj & ->). split; [|by apply Hhash in Hj].
      exists j. split; [done|]. exists (h, j). by rewrite elem_of_table_rows. }
  setoid_rewrite Hrows in Hex. destruct (collect_jobs _ !! h) as [job|] eqn:Hc.
  - destruct (proj1 (Hrows job)) as (j & -> & ->); [by apply Hin|done].
  - destruct (s.(jobs) !! h) as [j|] eqn:Hj; [|done].
    destruct (proj2 Hex) as [? ?]; [eauto|done].
Qed.

Lemma reassign_jobs_run s s' :
  jobs_added (with_assignee None <$> (table_rows s.(jobs)).*2)
    (set_assigned_jobs ∅ (set_jobs ∅ s)) s' →
  add_jobs (with_assignee None <$> (table_rows s.(jobs)).*2)
    (set_assigned_jobs ∅ (set_jobs ∅ s)) = Some (Success ExecutionData.None, s') →
  reassign_jobs s = Some (tt, s') ∧
  s' = set_jobs s'.(jobs) (set_assigned_jobs s'.(assigned_jobs) s).
Proof.
  intros Had Hrun. unfold reassign_jobs. unfold_M. rewrite Hrun. split; [done|].
  rewrite (jobs_added_frame _ _ _ Had). by state_simpl.
Qed.

Lemma reassign_jobs_total s :
  jobs_ok s → participating_nodes s ≠ [] →
  ∃ s', reassign_jobs s = Some (tt, s') ∧ jobs_ok s' ∧
    (∀ h, with_assignee None <$> s'.(jobs) !! h = with_assignee None <$> s.(jobs) !! h) ∧
    (∀ h job, s'.(jobs) !! h = Some job →
      ∃ x, assignee job = Some x ∧ x ∈ participating_nodes s) ∧
    s' = set_jobs s'.(jobs) (set_assigned_jobs s'.(assigned_jobs) s).
Proof.
  intros Hok Hne. set (s0 := set_assigned_jobs ∅ (set_jobs ∅ s)).
  assert (jobs_ok s0) as Hok0.
  { split; unfold jobs_of, s0; state_simpl.
    - intros h job. by rewrite lookup_empty.
    - intros x h. setoid_rewrite lookup_empty. simpl. rewrite list.elem_of_nil. naive_solver.
    - intros x. rewrite lookup_empty. constructor. }
  destruct (add_jobs_added (with_assignee None <$> (table_rows s.(jobs)).*2) s0 Hok0 Hne)
    as (s' & Hrun & Had).
  { intros job _. unfold s0. state_simpl. apply lookup_empty. }
  destruct (reassign_jobs_run s s' Had Hrun) as [Hre Hfr].
  destruct Had as [Hok' Hnew Hold _].
  rewrite (collect_jobs_rows s (jobs_ok_hash s Hok)) in Hnew, Hold.
  setoid_rewrite lookup_fmap in Hnew. setoid_rewrite lookup_fmap in Hold.
  exists s'. split_and!; try done; intros h; destruct (s.(jobs) !! h) as [j|] eqn:Hj.
  - destruct (Hnew h (with_assignee None j)) as (x & _ & ->); [by rewrite Hj|done].
  - rewrite Hold by (by rewrite Hj). unfold s0. state_simpl. by rewrite lookup_empty.
  - destruct (Hnew h (with_assignee None j)) as (x & ? & ->); [by rewrite Hj|].
    intros job [= <-]. by exists x.
  - rewrite Hold by (by rewrite Hj). unfold s0. state_simpl. by rewrite lookup_empty.
Qed.

(** The reassignment at an epoch change, with at least one staked node
    participating: every job keeps its description and status, is assigned
    to exactly one participating node, and the two tables are inverse;
    nothing else changes. *)
Theorem reassign_jobs_spec s :
  jobs_ok s → participating_nodes s ≠ [] →
  ∃ s', reassign_jobs s = Some (tt, s') ∧ jobs_ok s' ∧
    (∀ h, with_assignee None <$> s'.(jobs) !! h = with_assignee None <$> s.(jobs) !! h) ∧
    (∀ h job, s'.(jobs) !! h = Some job →
      ∃ x, assignee job = Some x ∧ x ∈ participating_nodes s) ∧
    s' = set_jobs s'.(jobs) (set_assigned_jobs s'.(assigned_jobs) s).
Proof. apply reassign_jobs_total. Qed.

(** Without a participating node a non-empty job table aborts the process,
    although [assign_jobs] only warns about the empty node list. *)
Lemma assign_jobs_aborts s js :
  participating_nodes s = [] → js ≠ [] → assign_jobs s js = None.
Proof.
  intros Hnil Hne. unfold assign_jobs. rewrite Hnil.
  pose proof (shuffle_permutation (sha3_words (merge_sort N.le js)) []) as Hp.
  apply Permutation_nil_r in Hp. rewrite Hp. rewrite decide_True by (by left).
  pose proof (merge_sort_Permutation N.le js) as Hs.
  destruct (merge_sort N.le js) as [|h l]; [by apply Permutation_nil_l in Hs|].
  done.
Qed.

Lemma reassign_jobs_aborts s :
  participating_nodes s = [] → s.(jobs) ≠ ∅ →
  (∀ h job, s.(jobs) !! h = Some job → job_hash job = h) →
  reassign_jobs s = None.
Proof.
  intros Hnil Hne Hhash. unfold reassign_jobs, add_jobs. unfold_M.
  rewrite assign_jobs_aborts; [done|done|]. rewrite (collect_jobs_rows s Hhash).
  intros Hk. apply Hne. apply map_empty. intros h. apply eq_None_not_Some.
  intros [j Hj]. assert (h ∈ keys (with_assignee None <$> s.(jobs))) as Hin.
  { apply elem_of_keys. rewrite lookup_fmap, Hj. eauto. }
  rewrite Hk in Hin. by apply not_elem_of_nil in Hin.
Qed.
End tables.

(** ** Removing and updating jobs *)

Section remove.
Context {R : Ruint} {H : Host} {HL : HostLaws H}.

Lemma elem_of_remove_first h g l :
  NoDup l → g ∈ remove_first h l ↔ g ∈ l ∧ g ≠ h.
Proof.
  induction l as [|x l IH]; simpl; [intros _; set_solver|].
  intros [Hx Hl]%list.NoDup_cons. case_decide as Hd; subst; set_solver.
Qed.

Lemma remove_first_sublist h l : remove_first h l `sublist_of` l.
Proof.
  induction l as [|x l IH]; simpl; [done|]. case_decide; [by apply sublist_cons|].
  by apply sublist_skip.
Qed.

(** One iteration of [remove_jobs]. *)
Definition remove_job (h : Hash32) (s : StateExecutor) : StateExecutor :=
  let s :=
    match s.(jobs) !! h with
    | Some job =>
        match assignee job with
        | Some assignee =>
            match s.(assigned_jobs) !! assignee with
            | Some l =>
                set_assigned_jobs (<[assignee:=remove_first h l]> s.(assigned_jobs)) s
            | None => s
            end
        | None => s
        end
    | None => s
    end in
  set_jobs (delete h s.(jobs)) s.

Lemma remove_job_tables h s :
  (remove_job h s).(jobs) = delete h s.(jobs) ∧
  ∀ x, jobs_of (remove_job h s) x =
    if decide (from_option assignee None (s.(jobs) !! h) = Some x)
    then remove_first h (jobs_of s x) else jobs_of s x.
Proof.
  unfold remove_job, jobs_of. destruct (s.(jobs) !! h) as [job|]; simpl; [|done].
  destruct (assignee job) as [y|]; simpl; [|done].
  destruct (s.(assigned_jobs) !! y) as [l|] eqn:Hl; state_simpl; (split; [done|]);
    intros x; case_decide; simplify_eq.
  - by rewrite lookup_insert_eq, Hl.
  - by rewrite lookup_insert_ne by congruence.
  - by rewrite Hl.
  - done.
Qed.

Lemma remove_job_ok h s : jobs_ok s → jobs_ok (remove_job h s).
Proof.
  intros [Hhash Hass Hnd]. destruct (remove_job_tables h s) as [Hj Hl]. split.
  - intros g job. rewrite Hj. intros [_ ?]%lookup_delete_Some. by apply Hhash.
  - intros x g. rewrite Hl, Hj. setoid_rewrite lookup_delete_Some. case_decide as Hx.
    + rewrite elem_of_remove_first, Hass by apply Hnd. naive_solver.
    + rewrite Hass. split; [|naive_solver]. intros (job & Hg & Ha). exists job.
      split_and!; [|done..]. intros <-. rewrite Hg in Hx. done.
  - intros x. rewrite Hl. case_decide; [|done].
    eapply sublist_NoDup; [apply Hnd|]. apply remove_first_sublist.
Qed.

(** Removing jobs always succeeds, deletes exactly the named jobs, and
    keeps the two job tables inverse. *)
Theorem remove_jobs_spec hs s :
  jobs_ok s →
  ∃ s', remove_jobs hs s = Some (Success ExecutionData.None, s') ∧ jobs_ok s' ∧
    s'.(jobs) = filter (λ r, r.1 ∉ hs) s.(jobs) ∧
    ∀ h, h ∈ hs → ∀ x, h ∉ jobs_of s' x.
Proof.
  intros Hok. unfold remove_jobs. unfold_M.
  rewrite (for_each_modify remove_job). eexists. split; [done|].
  set (s' := foldl _ _ _).
  assert (jobs_ok s' ∧ s'.(jobs) = filter (λ r, r.1 ∉ hs) s.(jobs)) as [Hok' Hjobs].
  { unfold s'. rewrite <-foldl_delete_filter. clear s'. revert s Hok.
    induction hs as [|h hs IH]; intros s Hok; [done|]. cbn [foldl].
    rewrite <-(proj1 (remove_job_tables h s)). by apply IH, remove_job_ok. }
  split_and!; [done..|]. intros h Hh x (job & Hj & _)%(jobs_ok_assigned _ Hok').
  rewrite Hjobs in Hj. apply map_lookup_filter_Some in Hj as [_ []]. done.
Qed.

Definition update_job (r : Hash32 * JobStatus) (s : StateExecutor) : StateExecutor :=
  set_jobs (alter (with_job_status (Some r.2)) r.1 s.(jobs)) s.

Lemma update_jobs_run us s :
  update_jobs us s = Some (Success ExecutionData.None, foldl (flip update_job) s us).
Proof.
  unfold update_jobs. unfold_M.
  match goal with |- context [for_each ?f us] => set (F := f) end.
  assert (∀ t, for_each F us t = Some (tt, foldl (flip update_job) t us)) as ->; [|done].
  induction us as [|[h st] us IH]; intros t; [done|]. simpl. unfold_M. unfold F at 1.
  rewrite IH. do 3 f_equal. unfold update_job. simpl. destruct (t.(jobs) !! h) as [j|] eqn:E.
  - f_equal. apply map_eq. intros g. destruct (decide (g = h)) as [->|].
    + by rewrite lookup_insert_eq, lookup_alter_eq, E.
    + by rewrite lookup_insert_ne, lookup_alter_ne by done.
  - rewrite alter_id by (intros ? ?; congruence). by destruct t.
Qed.

(** Status updates touch neither the assignment nor unknown jobs. *)
Lemma update_jobs_ok us s s' r :
  jobs_ok s → update_jobs us s = Some (r, s') →
  jobs_ok s' ∧ dom s'.(jobs) = dom s.(jobs) ∧ s'.(assigned_jobs) = s.(assigned_jobs).
Proof.
  rewrite update_jobs_run. intros Hok [= _ <-]. revert s Hok.
  induction us as [|[h st] us IH]; intros s Hok; [done|]. simpl.
  destruct (IH (update_job (h, st) s)) as (Hok' & Hd & Ha).
  - destruct Hok as [Hhash Hass Hnd]. split; unfold update_job; simpl.
    + intros g job. rewrite lookup_alter_Some.
      intros [(<- & j & Hj & ->)|[_ Hj]]; by apply Hhash in Hj.
    + intros x g. unfold jobs_of. state_simpl. fold (jobs_of s x). rewrite Hass.
      setoid_rewrite lookup_alter_Some. split.
      * intros (job & Hg & Hx). destruct (decide (h = g)) as [->|]; [|eauto 10].
        exists (with_job_status (Some st) job). eauto 10.
      * intros (job & [(-> & j & Hj & ->)|[_ Hj]] & Hx); eauto.
    + apply Hnd.
  - split_and!; [done| |by rewrite Ha]. rewrite Hd. unfold update_job. simpl.
    apply dom_alter_L.
Qed.
End remove.

(** Adding a job whose hash is already assigned breaks the tables: the old
    entry of [assigned_jobs] stays, so the job is listed twice or by a node
    that is not its assignee. *)
Lemma add_jobs_duplicate_breaks_tables {R : Ruint} {H : Host} {HL : HostLaws H} js s r s' job x :
  job ∈ js → job_hash job ∈ jobs_of s x →
  add_jobs js s = Some (r, s') → ¬ jobs_ok s'.
Proof.
  intros Hin Hx Hrun [_ Hass Hnd].
  assert (is_Some (collect_jobs js !! job_hash job)) as Hc by (apply collect_jobs_spec; eauto).
  destruct (assign_jobs s (keys (collect_jobs js))) as [m|] eqn:Hm;
    [|unfold add_jobs in Hrun; unfold_M; by rewrite Hm in Hrun].
  assert (assignment s (keys (collect_jobs js)) m) as Has.
  { destruct (decide (participating_nodes s = [])) as [Hn|Hn].
    - rewrite assign_jobs_aborts in Hm; [done|done|]. intros Hk.
      apply elem_of_keys in Hc. rewrite Hk in Hc. by apply not_elem_of_nil in Hc.
    - destruct (assign_jobs_assignment s (keys (collect_jobs js)))
        as (m' & Hm' & ?); [apply keys_NoDup|done|congruence]. }
  rewrite (add_jobs_run js s m Hm) in Hrun. injection Hrun as _ <-.
  destruct (assignment_total _ _ _ Has (job_hash job)) as [y Hy]; [by apply elem_of_keys|].
  unfold jobs_of in *. state_simpl.
  assert (∀ z, default [] (extend_assigned (table_rows m) s.(assigned_jobs) !! z)
    = default [] (s.(assigned_jobs) !! z) ++ default [] (m !! z)) as Hl.
  { intros z. by rewrite extend_assigned_lookup, list_to_map_table_rows
      by apply NoDup_table_rows. }
  destruct (decide (x = y)) as [->|Hne].
  - specialize (Hnd y). rewrite Hl in Hnd. apply NoDup_app in Hnd as (_ & Hd & _). by eapply Hd.
  - destruct (proj1 (Hass x (job_hash job))) as (jx & Hjx & Hax); [rewrite Hl; set_solver|].
    destruct (proj1 (Hass y (job_hash job))) as (jy & Hjy & Hay); [rewrite Hl; set_solver|].
    congruence.
Qed.
