(* ===== verification/Reputation.v ===== *)
(** * The reputation scores of [core/reputation]

    The crate turns the peer measurements of an epoch into one score and one
    uptime per node: it weights the reports by the reputation of the reporter
    ([CollectedMeasurements]), filters outliers by z-score and takes the
    weighted mean ([NormalizedMeasurements]), rescales every metric to [0, 1]
    by the minimum and maximum over all nodes ([MinMaxValues], [normalize]) and
    averages the metrics ([calculate_score]).  All numbers are [HpFixed<18>];
    a division by zero aborts the process, here [None].  The theorems show that
    no report makes the computation abort and that scores and uptimes are
    percentages when no report has a negative uptime. *)

From S2P Require Import Prelude HpFixed HpSigned Types State.
From Stdlib Require Import String ZArith Lia.
From stdpp Require Import base gmap list sorting.
Open Scope Z_scope.

Record WeightedFloat := mkWeightedFloat {
  wf_value : Z;
  wf_weight : Z
}.

Record WeightedReputationMeasurements := mkWeightedReputationMeasurements {
  wrm_measurements : ReputationMeasurements;
  wrm_weight : Z
}.

(** [CollectedMeasurements], [NormalizedMeasurements] and the two halves of
    [MinMaxValues] hold one entry per metric. *)
Record Metrics (A : Type) := mkMetrics {
  m_latency : A;
  m_interactions : A;
  m_inbound_bandwidth : A;
  m_outbound_bandwidth : A;
  m_bytes_received : A;
  m_bytes_sent : A
}.
Arguments mkMetrics {_} _ _ _ _ _ _.
Arguments m_latency {_} _.
Arguments m_interactions {_} _.
Arguments m_inbound_bandwidth {_} _.
Arguments m_outbound_bandwidth {_} _.
Arguments m_bytes_received {_} _.
Arguments m_bytes_sent {_} _.

Definition CollectedMeasurements : Type := Metrics (list WeightedFloat) * list WeightedFloat.
Definition NormalizedMeasurements : Type := Metrics (option Z) * option Z.
Definition Values : Type := Metrics Z.

Record MinMaxValues := mkMinMaxValues {
  min_values : Values;
  max_values : Values
}.

Section statistics.
Context {B : Bigint}.

(** [impl Default], [Add], [Sub], [Mul], [Div], [From<i128>] and
    [PartialOrd for WeightedFloat]: the weight is that of the left
    operand, the order that of the values. *)
Definition fp (v : Z) : Z := sfp_from_int 18 v.
Definition wf_default : WeightedFloat := mkWeightedFloat 0 (fp 1).
Definition wf_add (a b : WeightedFloat) : WeightedFloat :=
  mkWeightedFloat (sfp_add (wf_value a) (wf_value b)) (wf_weight a).
Definition wf_sub (a b : WeightedFloat) : WeightedFloat :=
  mkWeightedFloat (sfp_sub (wf_value a) (wf_value b)) (wf_weight a).
Definition wf_mul (a b : WeightedFloat) : WeightedFloat :=
  mkWeightedFloat (sfp_mul 18 (wf_value a) (wf_value b)) (wf_weight a).
Definition wf_div (a b : WeightedFloat) : option WeightedFloat :=
  v ← sfp_div 18 (wf_value a) (wf_value b); Some (mkWeightedFloat v (wf_weight a)).
Definition wf_from_i128 (v : Z) : WeightedFloat := mkWeightedFloat (fp v) (fp 1).
Definition wf_lt (a b : WeightedFloat) : bool := bool_decide (wf_value a < wf_value b).
Definition get_weighted_value (w : WeightedFloat) : Z := sfp_mul 18 (wf_value w) (wf_weight w).

(** [statistics.rs]; the outer [option] is an abort, the inner one the
    [Option] of the code. *)
Definition calculate_mean (values : list WeightedFloat) : option (option WeightedFloat) :=
  match values with
  | [] => Some None
  | _ =>
      let sum := foldl wf_add wf_default values in
      let n := Z.of_nat (length values) in
      mean ← wf_div sum (wf_from_i128 n);
      Some (Some mean)
  end.

Definition calculate_variance (values : list WeightedFloat) : option (option WeightedFloat) :=
  if decide (length values = 1%nat) then Some (Some (wf_from_i128 1))
  else
    mean ← calculate_mean values;
    match mean with
    | None => Some None
    | Some values_mean =>
        let n := wf_from_i128 (Z.of_nat (length values)) in
        let sum := foldl wf_add wf_default
          ((λ v, wf_mul (wf_sub v values_mean) (wf_sub v values_mean)) <$> values) in
        variance ← wf_div sum (wf_sub n (wf_from_i128 1));
        Some (Some variance)
    end.

Definition calculate_z_score (x mean variance : WeightedFloat) : option WeightedFloat :=
  wf_div (wf_mul (wf_sub x mean) (wf_sub x mean)) variance.

Fixpoint retain (f : WeightedFloat → option bool) (values : list WeightedFloat)
    : option (list WeightedFloat) :=
  match values with
  | [] => Some []
  | x :: values =>
      keep ← f x;
      rest ← retain f values;
      Some (if keep : bool then x :: rest else rest)
  end.

Definition z_score_normalize_filter (values : list WeightedFloat)
    : option (list WeightedFloat) :=
  variance ← calculate_variance values;
  match variance with
  | None => Some values
  | Some variance =>
      if wf_lt (wf_from_i128 0) variance then
        mean ← calculate_mean values;
        match mean with
        | None => Some values
        | Some mean =>
            retain (λ x, z ← calculate_z_score x mean variance;
                         Some (wf_lt z (wf_from_i128 9))) values
        end
      else Some values
  end.

Definition calculate_weighted_mean (values : list WeightedFloat) : option Z :=
  match values with
  | [] => None
  | _ => Some (foldl (λ acc v, sfp_add acc (get_weighted_value v)) (fp 0) values)
  end.

Definition calculate_z_normalized_weighted_mean (values : list WeightedFloat)
    : option (option Z) :=
  values ← z_score_normalize_filter values;
  Some (calculate_weighted_mean values).

Definition abs_difference (a b : Z) : Z :=
  if bool_decide (b < a) then sfp_sub a b else sfp_sub b a.

Definition min_max_normalize (value min_value max_value : Z) : option Z :=
  sfp_div 18 (sfp_sub value min_value) (sfp_sub max_value min_value).

(** [EPSILON.into()], 1e-8 at precision 18; [format!] prints it as
    [0.00000001]. *)
Definition EPSILON : option Z := sfp_from_f64 18 "0.00000001"%string.

Definition try_min_max_normalize (value min_value max_value : Z) : option (option Z) :=
  epsilon ← EPSILON;
  if bool_decide (abs_difference min_value max_value < epsilon) then Some None
  else v ← min_max_normalize value min_value max_value; Some (Some v).

(** [approx_quantile] over [u8] scores. *)
Definition approx_quantile `{Ruint} (values : list Z) (q : Z) : option (option Z) :=
  lo ← hp_from_f64 18 "0"%string;
  hi ← hp_from_f64 18 "0.99"%string;
  if bool_decide (lo ≤ q) && bool_decide (q ≤ hi) && negb (bool_decide (values = [])) then
    let values := merge_sort Z.le values in
    let index := hp_mul 18 q (hp_from_uint 18 (Z.of_nat (length values))) in
    match hp_try_into_uint 128 18 (HpFixed.floor 18 index) with
    | Ok index => v ← values !! Z.to_nat (wrap 64 index); Some (Some v)
    | Err _ => Some None
    end
  else Some None.
End statistics.

Section scores.
Context {B : Bigint}.

(** *** [impl From<Vec<WeightedReputationMeasurements>> for CollectedMeasurements]

    The code repeats one block per metric; [field] selects the metric and
    [convert] is its conversion to [HpFixed]. *)
Definition weight_sum {V} (field : ReputationMeasurements → option V)
    (ms : list WeightedReputationMeasurements) : Z :=
  foldl (λ acc m, if is_some (field (wrm_measurements m))
                  then sfp_add_assign acc (fp (wrm_weight m)) else acc) (fp 0) ms.

Definition metric_count {V} (field : ReputationMeasurements → option V)
    (ms : list WeightedReputationMeasurements) : Z :=
  foldl (λ acc m, if is_some (field (wrm_measurements m)) then acc + 1 else acc) 0 ms.

Definition metric_weight (weight_sum count weight : Z) : option Z :=
  if bool_decide (weight_sum = fp 0) then sfp_div 18 (fp 1) (fp count)
  else sfp_div 18 (fp weight) weight_sum.

Fixpoint push_metric {V} (field : ReputationMeasurements → option V) (convert : V → Z)
    (sum count : Z) (ms : list WeightedReputationMeasurements)
    : option (list WeightedFloat) :=
  match ms with
  | [] => Some []
  | m :: ms =>
      match field (wrm_measurements m) with
      | Some v =>
          weight ← metric_weight sum count (wrm_weight m);
          rest ← push_metric field convert sum count ms;
          Some (mkWeightedFloat (convert v) weight :: rest)
      | None => push_metric field convert sum count ms
      end
  end.

Definition collect_metric {V} (field : ReputationMeasurements → option V) (convert : V → Z)
    (ms : list WeightedReputationMeasurements) : option (list WeightedFloat) :=
  push_metric field convert (weight_sum field ms) (metric_count field ms) ms.

(** Lower latencies are better: the weights are inverted. *)
Fixpoint set_inverse_weights (inverse_weight_sum : Z) (ws : list WeightedFloat)
    : option (list WeightedFloat) :=
  match ws with
  | [] => Some []
  | w :: ws =>
      weight ← sfp_div 18 (sfp_sub (fp 1) (wf_weight w)) inverse_weight_sum;
      rest ← set_inverse_weights inverse_weight_sum ws;
      Some (mkWeightedFloat (wf_value w) weight :: rest)
  end.

Definition invert_weights (sum : Z) (ws : list WeightedFloat) : option (list WeightedFloat) :=
  if bool_decide (sum ≠ fp 0) && bool_decide (1 < length ws)%nat then
    let inverse_weight_sum :=
      foldl (λ acc w, sfp_add acc (sfp_sub (fp 1) (wf_weight w))) (fp 0) ws in
    set_inverse_weights inverse_weight_sum ws
  else Some ws.

(** [i128::try_from(v).unwrap_or(i128::MAX).into()] of a [u128]. *)
Definition from_u128 (v : Z) : Z :=
  fp (if bool_decide (v < 2 ^ 127) then v else 2 ^ 127 - 1).

Definition CollectedMeasurements_from (ms : list WeightedReputationMeasurements)
    : option CollectedMeasurements :=
  latency' ← collect_metric latency (λ l, from_u128 (l / 10 ^ 6)) ms;
  interactions' ← collect_metric interactions fp ms;
  inbound_bandwidth' ← collect_metric inbound_bandwidth from_u128 ms;
  outbound_bandwidth' ← collect_metric outbound_bandwidth from_u128 ms;
  bytes_received' ← collect_metric bytes_received from_u128 ms;
  bytes_sent' ← collect_metric bytes_sent from_u128 ms;
  uptime' ← collect_metric uptime_measurement id ms;
  latency' ← invert_weights (weight_sum latency ms) latency';
  Some (mkMetrics latency' interactions' inbound_bandwidth' outbound_bandwidth'
          bytes_received' bytes_sent', uptime').

(** *** [impl From<CollectedMeasurements> for NormalizedMeasurements] *)
Definition NormalizedMeasurements_from (c : CollectedMeasurements)
    : option NormalizedMeasurements :=
  let '(m, uptime) := c in
  latency ← calculate_z_normalized_weighted_mean (m_latency m);
  interactions ← calculate_z_normalized_weighted_mean (m_interactions m);
  inbound_bandwidth ← calculate_z_normalized_weighted_mean (m_inbound_bandwidth m);
  outbound_bandwidth ← calculate_z_normalized_weighted_mean (m_outbound_bandwidth m);
  bytes_received ← calculate_z_normalized_weighted_mean (m_bytes_received m);
  bytes_sent ← calculate_z_normalized_weighted_mean (m_bytes_sent m);
  uptime ← calculate_z_normalized_weighted_mean uptime;
  Some (mkMetrics latency interactions inbound_bandwidth outbound_bandwidth
          bytes_received bytes_sent, uptime).

(** *** [impl From<&HashMap<NodeIndex, NormalizedMeasurements>> for MinMaxValues] *)

(** [f64::MAX.into()] and [f64::MIN.into()]: the decimal expansion of the
    largest finite [f64]. *)
Definition f64_max_text : string :=
  String.append "17976931348623157"%string (repeat_zero 292).
Definition f64_MAX : option Z := sfp_from_f64 18 f64_max_text.
Definition f64_MIN : option Z :=
  sfp_from_f64 18 (String.append "-"%string f64_max_text).

Definition update_min_max (field : ∀ A, Metrics A → A) (m : Metrics (option Z))
    (mm : Z * Z) : Z * Z :=
  match field _ m with
  | Some v => (sfp_min mm.1 v, sfp_max mm.2 v)
  | None => mm
  end.

Definition metric_min_max (field : ∀ A, Metrics A → A) (init : Z * Z)
    (ms : list NormalizedMeasurements) : Z * Z :=
  foldl (λ mm m, update_min_max field m.1 mm) init ms.

Definition MinMaxValues_from (ms : list NormalizedMeasurements) : option MinMaxValues :=
  max ← f64_MAX;
  min ← f64_MIN;
  let range field := metric_min_max field (max, min) ms in
  let values (sel : Z * Z → Z) :=
    mkMetrics (sel (range (@m_latency))) (sel (range (@m_interactions)))
      (sel (range (@m_inbound_bandwidth))) (sel (range (@m_outbound_bandwidth)))
      (sel (range (@m_bytes_received))) (sel (range (@m_bytes_sent))) in
  Some (mkMinMaxValues (values fst) (values snd)).

(** *** [NormalizedMeasurements::normalize] *)
Definition normalize_metric (v : option Z) (min_value max_value : Z) : option (option Z) :=
  match v with
  | Some v => try_min_max_normalize v min_value max_value
  | None => Some None
  end.

Definition normalize (mm : MinMaxValues) (self : NormalizedMeasurements)
    : option NormalizedMeasurements :=
  let '(m, uptime) := self in
  let field (f : ∀ A, Metrics A → A) :=
    normalize_metric (f _ m) (f _ (min_values mm)) (f _ (max_values mm)) in
  latency ← field (@m_latency);
  interactions ← field (@m_interactions);
  inbound_bandwidth ← field (@m_inbound_bandwidth);
  outbound_bandwidth ← field (@m_outbound_bandwidth);
  bytes_received ← field (@m_bytes_received);
  bytes_sent ← field (@m_bytes_sent);
  uptime ← match uptime with
           | Some uptime => u ← sfp_div 18 uptime (fp 100); Some (Some u)
           | None => Some None
           end;
  Some (mkMetrics latency interactions inbound_bandwidth outbound_bandwidth
          bytes_received bytes_sent, uptime).

(** *** [NormalizedMeasurements::calculate_score] and [get_uptime] *)
Definition add_metric (v : option Z) (acc : Z * Z) : Z * Z :=
  match v with
  | Some v => (sfp_add acc.1 v, acc.2 + 1)
  | None => acc
  end.

Definition calculate_score (self : NormalizedMeasurements) : option (option Z) :=
  let '(m, uptime) := self in
  let acc := (fp 0, 0) in
  let acc := match m_latency m with
             | Some latency => (sfp_add_assign acc.1 (sfp_sub (fp 1) latency), acc.2 + 1)
             | None => acc
             end in
  let acc := add_metric (m_interactions m) acc in
  let acc := add_metric (m_inbound_bandwidth m) acc in
  let acc := add_metric (m_outbound_bandwidth m) acc in
  let acc := add_metric (m_bytes_received m) acc in
  let acc := add_metric (m_bytes_sent m) acc in
  let '(score, count) := add_metric uptime acc in
  if bool_decide (count < 3) then Some None
  else
    score ← sfp_div 18 score (fp count);
    match sfp_try_into_int 128 18 (sfp_mul 18 score (fp 100)) with
    | Ok score => Some (Some (wrap 8 (Z.min score 100)))
    | Err _ => Some None
    end.

Definition get_uptime (self : NormalizedMeasurements) : option Z :=
  match self.2 with
  | None => None
  | Some uptime =>
      match sfp_try_into_int 128 18 (sfp_mul 18 uptime (fp 100)) with
      | Ok uptime => Some (wrap 8 (Z.min uptime 100))
      | Err _ => None
      end
  end.

(** *** [calculate_reputation_scores] of [lib.rs] *)
Fixpoint mapM_rows {V W} (f : V → option W) (rows : list (NodeIndex * V))
    : option (list (NodeIndex * W)) :=
  match rows with
  | [] => Some []
  | (i, v) :: rows =>
      w ← f v;
      rest ← mapM_rows f rows;
      Some ((i, w) :: rest)
  end.

Definition calculate_normalized_measurements (rows : list (NodeIndex * list WeightedReputationMeasurements))
    : option (list (NodeIndex * NormalizedMeasurements)) :=
  mapM_rows (λ rm, c ← CollectedMeasurements_from rm; NormalizedMeasurements_from c) rows.

Definition calculate_reputation_scores `{Host}
    (weighted_measurements_map : gmap NodeIndex (list WeightedReputationMeasurements))
    : option (gmap NodeIndex (option Z * option Z)) :=
  rows ← calculate_normalized_measurements (table_rows weighted_measurements_map);
  mm ← MinMaxValues_from rows.*2;
  rows ← mapM_rows (normalize mm) rows;
  rows ← mapM_rows (λ m, score ← calculate_score m; Some (score, get_uptime m)) rows;
  Some (list_to_map rows).
End scores.

(** ** Evaluation of the fixed-point operations *)

Section theory.
Context {B : Bigint} {L : BigintLaws B}.

Abbreviation one := (10 ^ 18) (only parsing).

Lemma fp_eq v : fp v = v * one.
Proof. unfold fp. by rewrite sfp_from_int_exact. Qed.

Lemma quot_range a b c : 0 ≤ a → 0 < b → a ≤ c * b → 0 ≤ Z.quot a b ≤ c.
Proof.
  intros Ha Hb Hc. rewrite Z.quot_div_nonneg by lia. split.
  - apply Z.div_pos; lia.
  - apply Z.div_le_upper_bound; lia.
Qed.

Lemma wf_div_total a n : n ≠ 0 → ∃ w, wf_div a (wf_from_i128 n) = Some w.
Proof.
  intros Hn. unfold wf_div, wf_from_i128. simpl. rewrite fp_eq.
  rewrite sfp_div_exact by lia. simpl. eauto.
Qed.

Lemma calculate_mean_total vs : ∃ o, calculate_mean vs = Some o.
Proof.
  destruct vs as [|v vs]; simpl; [eauto|].
  destruct (wf_div_total (foldl wf_add (wf_add wf_default v) vs)
    (Z.of_nat (S (length vs)))) as [w Hw]; [lia|].
  rewrite Hw. simpl. eauto.
Qed.

Lemma calculate_variance_total vs : ∃ o, calculate_variance vs = Some o.
Proof.
  unfold calculate_variance. case_decide as Hlen; [eauto|].
  destruct vs as [|v vs]; [simpl; eauto|].
  destruct (calculate_mean_total (v :: vs)) as [o ->]. cbn [mbind option_bind].
  destruct o as [mean|]; [|eauto]. unfold wf_div, wf_from_i128, wf_sub, sfp_sub.
  cbn [wf_value]. rewrite big_sub_spec, !fp_eq, sfp_div_exact; [simpl; eauto|lia|].
  simpl in *. lia.
Qed.

Lemma retain_total f vs :
  (∀ x, is_Some (f x)) → ∃ vs', retain f vs = Some vs' ∧ vs' `sublist_of` vs.
Proof.
  intros Hf. induction vs as [|x vs IH]; simpl; [eauto|].
  destruct IH as (vs' & -> & Hsub).
  destruct (Hf x) as [keep ->]. simpl. eexists. split; [done|].
  destruct keep; [by apply sublist_skip|by apply sublist_cons].
Qed.

Lemma z_filter_total vs :
  ∃ vs', z_score_normalize_filter vs = Some vs' ∧ vs' `sublist_of` vs.
Proof.
  unfold z_score_normalize_filter.
  destruct (calculate_variance_total vs) as [o ->]. simpl. destruct o as [var|]; [|eauto].
  destruct (wf_lt _ var) eqn:Hlt; [|eauto].
  destruct (calculate_mean_total vs) as [m ->]. simpl. destruct m as [mean|]; [|eauto].
  apply retain_total. intros x. unfold calculate_z_score, wf_div.
  unfold wf_lt in Hlt. apply bool_decide_eq_true_1 in Hlt.
  simpl in Hlt. rewrite fp_eq in Hlt. rewrite sfp_div_exact by lia. simpl. eauto.
Qed.

Lemma z_mean_total vs :
  ∃ vs', calculate_z_normalized_weighted_mean vs = Some (calculate_weighted_mean vs') ∧
    vs' `sublist_of` vs.
Proof.
  unfold calculate_z_normalized_weighted_mean.
  destruct (z_filter_total vs) as (vs' & -> & Hs). simpl. eauto.
Qed.

(** ** Weights

    The weights of the reports of a metric are non-negative and sum up to
    at most one. *)

Definition total_weight (ws : list WeightedFloat) : Z :=
  foldr (λ w acc, wf_weight w + acc) 0 ws.

Definition metric_sum {V} (field : ReputationMeasurements → option V)
    (f : WeightedReputationMeasurements → Z) (ms : list WeightedReputationMeasurements) : Z :=
  foldr (λ m acc, if is_some (field (wrm_measurements m)) then f m + acc else acc) 0 ms.

Lemma metric_sum_nonneg {V} (field : ReputationMeasurements → option V) f ms :
  (∀ m, m ∈ ms → 0 ≤ f m) → 0 ≤ metric_sum field f ms.
Proof.
  induction ms as [|m ms IH]; intros Hf; simpl; [lia|].
  assert (0 ≤ f m) by (apply Hf; by left).
  assert (0 ≤ metric_sum field f ms) by (apply IH; intros; apply Hf; by right).
  unfold metric_sum in *. destruct (is_some _); lia.
Qed.

Lemma weight_sum_eq {V} (field : ReputationMeasurements → option V) ms :
  weight_sum field ms = metric_sum field wrm_weight ms * one.
Proof.
  unfold weight_sum. rewrite fp_eq.
  enough (∀ acc, foldl (λ acc m, if is_some (field (wrm_measurements m))
    then sfp_add_assign acc (fp (wrm_weight m)) else acc) acc ms
    = acc + metric_sum field wrm_weight ms * one) as -> by lia.
  induction ms as [|m ms IH]; intros acc; simpl; [lia|].
  rewrite IH. unfold sfp_add_assign, metric_sum. rewrite big_add_spec, fp_eq.
  destruct (is_some _); simpl; lia.
Qed.

Lemma metric_count_eq {V} (field : ReputationMeasurements → option V) ms :
  metric_count field ms = metric_sum field (λ _, 1) ms.
Proof.
  unfold metric_count.
  enough (∀ acc, foldl (λ acc m, if is_some (field (wrm_measurements m))
    then acc + 1 else acc) acc ms = acc + metric_sum field (λ _, 1) ms) as -> by lia.
  induction ms as [|m ms IH]; intros acc; simpl; [lia|].
  rewrite IH. unfold metric_sum. destruct (is_some _); simpl; lia.
Qed.

Lemma push_metric_spec {V} (field : ReputationMeasurements → option V) convert sum count f D ms :
  0 < D → (∀ m, m ∈ ms → 0 ≤ f m) →
  (∀ m, m ∈ ms → metric_weight sum count (wrm_weight m) = Some (f m * one / D)) →
  ∃ ws, push_metric field convert sum count ms = Some ws ∧
    Forall (λ w, 0 ≤ wf_weight w) ws ∧
    total_weight ws * D ≤ metric_sum field f ms * one ∧
    Z.of_nat (length ws) = metric_sum field (λ _, 1) ms ∧
    (∀ w, w ∈ ws → ∃ m v, m ∈ ms ∧ field (wrm_measurements m) = Some v ∧
      wf_value w = convert v).
Proof.
  intros HD. induction ms as [|m ms IH]; intros Hf Hw; simpl.
  { exists []. split_and!; [done|constructor|simpl; lia|done|by intros ? ?%not_elem_of_nil]. }
  destruct IH as (ws & Hws & Hpos & Hsum & Hlen & Hval);
    [intros; apply Hf; by right|intros; apply Hw; by right|].
  unfold metric_sum in *. destruct (field (wrm_measurements m)) as [v|] eqn:Hv; simpl.
  - rewrite (Hw m), Hws by (by left). simpl. eexists. split; [done|].
    assert (0 ≤ f m) as Hfm by (apply Hf; by left).
    pose proof (Z.div_mod (f m * one) D ltac:(lia)) as Hdm.
    pose proof (Z.mod_pos_bound (f m * one) D HD) as Hmb.
    split_and!.
    + constructor; [|done]. simpl. apply Z.div_pos; lia.
    + simpl. unfold total_weight in *. nia.
    + simpl. lia.
    + intros w [->|Hin]%list.elem_of_cons; [exists m, v; split_and!; [by left|done|done]|].
      destruct (Hval w Hin) as (m' & v' & ? & ? & ?). exists m', v'. split_and!; [by right|done..].
  - exists ws. split_and!; try done. intros w Hin.
    destruct (Hval w Hin) as (m' & v' & ? & ? & ?). exists m', v'. split_and!; [by right|done..].
Qed.

Lemma push_metric_none {V} (field : ReputationMeasurements → option V) convert sum count ms :
  metric_sum field (λ _, 1) ms = 0 → push_metric field convert sum count ms = Some [].
Proof.
  induction ms as [|m ms IH]; simpl; [done|].
  pose proof (metric_sum_nonneg field (λ _, 1) ms ltac:(lia)) as Hnn.
  unfold metric_sum in *. destruct (field _); simpl; [lia|done].
Qed.

Definition weights_ok (ms : list WeightedReputationMeasurements) : Prop :=
  ∀ m, m ∈ ms → 0 ≤ wrm_weight m.

Lemma collect_metric_spec {V} (field : ReputationMeasurements → option V) convert ms :
  weights_ok ms →
  ∃ ws, collect_metric field convert ms = Some ws ∧
    Forall (λ w, 0 ≤ wf_weight w) ws ∧ total_weight ws ≤ one ∧
    (∀ w, w ∈ ws → ∃ m v, m ∈ ms ∧ field (wrm_measurements m) = Some v ∧
      wf_value w = convert v).
Proof.
  intros Hok. unfold collect_metric. rewrite weight_sum_eq, metric_count_eq.
  pose proof (metric_sum_nonneg field wrm_weight ms Hok) as HW.
  pose proof (metric_sum_nonneg field (λ _, 1) ms ltac:(lia)) as HN.
  set (W := metric_sum field wrm_weight ms) in *.
  set (N := metric_sum field (λ _, 1) ms) in *.
  destruct (decide (N = 0)) as [HN0|HN0].
  { exists []. rewrite push_metric_none by done.
    split_and!; [done|constructor|simpl; lia|by intros ? ?%not_elem_of_nil]. }
  destruct (decide (W = 0)) as [HW0|HW0].
  - destruct (push_metric_spec field convert (W * one) N (λ _, 1) N ms)
      as (ws & -> & Hpos & Hsum & _ & Hval); [lia|lia| |fold N in Hsum; eexists; split_and!; eauto; nia].
    intros m _. unfold metric_weight. rewrite HW0, !fp_eq, bool_decide_eq_true_2 by lia.
    rewrite sfp_div_exact by lia. f_equal. rewrite Z.quot_div_nonneg by lia.
    rewrite (Z.mul_comm N), <-Z.div_div by lia. by rewrite Z.mul_1_l, Z.div_mul.
  - destruct (push_metric_spec field convert (W * one) N wrm_weight W ms)
      as (ws & -> & Hpos & Hsum & _ & Hval);
      [lia|done| |fold W in Hsum; eexists; split_and!; eauto; nia].
    intros m Hm. apply Hok in Hm. unfold metric_weight.
    rewrite !fp_eq, bool_decide_eq_false_2 by lia.
    rewrite sfp_div_exact by lia. f_equal. rewrite Z.quot_div_nonneg by nia.
    rewrite (Z.mul_comm W), <-Z.div_div by lia. by rewrite Z.div_mul.
Qed.

(** ** Latency weights can be inverted *)

Lemma inverse_sum_eq ws acc :
  foldl (λ acc w, sfp_add acc (sfp_sub (fp 1) (wf_weight w))) acc ws
  = acc + Z.of_nat (length ws) * one - total_weight ws.
Proof.
  revert acc. induction ws as [|w ws IH]; intros acc; cbn [foldl length total_weight foldr]; [lia|].
  rewrite IH. unfold sfp_add, sfp_sub. rewrite big_add_spec, big_sub_spec, fp_eq.
  unfold total_weight. lia.
Qed.

Lemma set_inverse_weights_total D ws :
  D ≠ 0 → ∃ ws', set_inverse_weights D ws = Some ws'.
Proof.
  intros HD. induction ws as [|w ws [ws' Hws]]; simpl; [eauto|].
  rewrite sfp_div_exact by lia. simpl. rewrite Hws. simpl. eauto.
Qed.

Lemma invert_weights_total sum ws :
  total_weight ws ≤ one → ∃ ws', invert_weights sum ws = Some ws'.
Proof.
  intros Hw. unfold invert_weights. rewrite inverse_sum_eq, !fp_eq.
  destruct (bool_decide (1 < length ws)%nat) eqn:Hl; [|rewrite andb_false_r; eauto].
  apply bool_decide_eq_true_1 in Hl. destruct (bool_decide _); simpl; [|eauto].
  apply set_inverse_weights_total. lia.
Qed.

(** ** Ranges *)

Lemma weighted_mean_range ws v hi :
  Forall (λ w, 0 ≤ wf_weight w) ws → (∀ w, w ∈ ws → 0 ≤ wf_value w ≤ hi) →
  0 ≤ hi → total_weight ws ≤ one →
  calculate_weighted_mean ws = Some v → 0 ≤ v ≤ hi.
Proof.
  intros Hpos Hval Hhi Htot Hv.
  assert (∀ acc, acc ≤ foldl (λ acc v, sfp_add acc (get_weighted_value v)) acc ws ∧
    (foldl (λ acc v, sfp_add acc (get_weighted_value v)) acc ws - acc) * one
      ≤ hi * total_weight ws) as Hacc.
  { clear Hv Htot. induction Hpos as [|w ws Hw Hpos IH]; intros acc; simpl; [lia|].
    destruct (IH ltac:(intros; apply Hval; by right)
      (sfp_add acc (get_weighted_value w))) as [Hlo Hup].
    specialize (Hval w ltac:(by left)). unfold sfp_add, get_weighted_value in *.
    rewrite big_add_spec, sfp_mul_exact in * by lia.
    pose proof (quot_range (wf_value w * wf_weight w) one (hi * wf_weight w)
      ltac:(nia) ltac:(lia) ltac:(nia)) as Hq.
    assert (Z.quot (wf_value w * wf_weight w) one * one ≤ hi * wf_weight w).
    { rewrite Z.quot_div_nonneg by nia.
      pose proof (Z.mul_div_le (wf_value w * wf_weight w) one ltac:(lia)). nia. }
    unfold total_weight in *. nia. }
  specialize (Hacc (fp 0)).
  assert (foldl (λ acc v, sfp_add acc (get_weighted_value v)) (fp 0) ws = v) as Hfold
    by (destruct ws; [done|by injection Hv]).
  rewrite Hfold, fp_eq in Hacc. nia.
Qed.

Lemma total_weight_sublist ws ws' :
  ws' `sublist_of` ws → Forall (λ w, 0 ≤ wf_weight w) ws →
  Forall (λ w, 0 ≤ wf_weight w) ws' ∧ total_weight ws' ≤ total_weight ws.
Proof.
  induction 1 as [|w l k Hs IH|w l k Hs IH]; [done|..];
    (intros [Hw Hf]%Forall_cons; destruct (IH Hf) as [??]; simpl;
     split; [try constructor; done|unfold total_weight in *; simpl; lia]).
Qed.

Lemma EPSILON_eq : EPSILON = Some (10 ^ 10).
Proof.
  unfold EPSILON, sfp_from_f64, get_float_parts_b.
  change (strip_sign "0.00000001"%string) with (false, "0.00000001"%string). cbv iota beta.
  change (split_dot "0.00000001"%string) with ("0"%string, Some "00000001"%string). cbv iota beta.
  rewrite (biguint_from_str_spec "0"%string 0 eq_refl). cbn [mbind option_bind].
  rewrite (biguint_from_str_spec (pad_fraction 18 "00000001"%string) (10 ^ 10) ltac:(by vm_compute)).
  cbn [mbind option_bind]. rewrite big_add_spec, big_mul_spec. done.
Qed.

Lemma f64_MAX_total : is_Some f64_MAX ∧ is_Some f64_MIN.
Proof.
  assert (decimal_value f64_max_text = Some (17976931348623157 * 10 ^ 292)) as Hv
    by (by vm_compute).
  assert (split_dot f64_max_text = (f64_max_text, None)) as Hs by (by vm_compute).
  unfold f64_MAX, f64_MIN, sfp_from_f64, get_float_parts_b.
  change (strip_sign f64_max_text) with (false, f64_max_text).
  change (strip_sign (String.append "-"%string f64_max_text)) with (true, f64_max_text).
  cbv iota beta. rewrite Hs, (biguint_from_str_spec _ _ Hv). simpl. eauto.
Qed.

Lemma normalize_metric_total v lo hi :
  ∃ o, normalize_metric v lo hi = Some o ∧
    ∀ x, o = Some x → (∀ y, v = Some y → lo ≤ y ≤ hi) → 0 ≤ x ≤ one.
Proof.
  destruct v as [v|]; simpl; [|exists None; naive_solver]. unfold try_min_max_normalize. rewrite EPSILON_eq.
  cbn [mbind option_bind]. case_bool_decide as Hd; [exists None; naive_solver|].
  unfold min_max_normalize, abs_difference, sfp_sub in *. rewrite !big_sub_spec in *.
  assert (hi - lo ≠ 0) by (destruct (bool_decide (hi < lo)); lia).
  rewrite sfp_div_exact by lia. simpl. eexists. split; [done|].
  intros x [= <-] Hb. specialize (Hb v eq_refl). apply quot_range; nia.
Qed.

(** ** The whole computation *)

Lemma CollectedMeasurements_total ms :
  weights_ok ms →
  ∃ m up, CollectedMeasurements_from ms = Some (m, up) ∧
    collect_metric uptime_measurement id ms = Some up.
Proof.
  intros Hok. unfold CollectedMeasurements_from.
  destruct (collect_metric_spec latency (λ l, from_u128 (l / 10 ^ 6)) ms Hok)
    as (lat & -> & _ & Hlat & _).
  destruct (collect_metric_spec interactions fp ms Hok) as (? & -> & _).
  destruct (collect_metric_spec inbound_bandwidth from_u128 ms Hok) as (? & -> & _).
  destruct (collect_metric_spec outbound_bandwidth from_u128 ms Hok) as (? & -> & _).
  destruct (collect_metric_spec bytes_received from_u128 ms Hok) as (? & -> & _).
  destruct (collect_metric_spec bytes_sent from_u128 ms Hok) as (? & -> & _).
  destruct (collect_metric_spec uptime_measurement id ms Hok) as (? & -> & _).
  destruct (invert_weights_total (weight_sum latency ms) lat Hlat) as [? Hinv].
  cbn [mbind option_bind]. rewrite Hinv. cbn [mbind option_bind]. eauto.
Qed.

Lemma NormalizedMeasurements_total m up :
  ∃ m' ups, NormalizedMeasurements_from (m, up) = Some (m', calculate_weighted_mean ups) ∧
    ups `sublist_of` up.
Proof.
  unfold NormalizedMeasurements_from.
  destruct (z_mean_total (m_latency m)) as (? & -> & _).
  destruct (z_mean_total (m_interactions m)) as (? & -> & _).
  destruct (z_mean_total (m_inbound_bandwidth m)) as (? & -> & _).
  destruct (z_mean_total (m_outbound_bandwidth m)) as (? & -> & _).
  destruct (z_mean_total (m_bytes_received m)) as (? & -> & _).
  destruct (z_mean_total (m_bytes_sent m)) as (? & -> & _).
  destruct (z_mean_total up) as (ups & -> & Hs). cbn [mbind option_bind]. eauto.
Qed.

(** Reported uptimes are percentages. *)
Definition uptimes_ok (ms : list WeightedReputationMeasurements) : Prop :=
  ∀ m u, m ∈ ms → uptime_measurement (wrm_measurements m) = Some u → 0 ≤ u ≤ 100 * one.

Lemma normalized_total ms :
  weights_ok ms →
  ∃ n, (c ← CollectedMeasurements_from ms; NormalizedMeasurements_from c) = Some n ∧
    (uptimes_ok ms → ∀ u, n.2 = Some u → 0 ≤ u ≤ 100 * one).
Proof.
  intros Hok. destruct (CollectedMeasurements_total ms Hok) as (m & up & -> & Hup).
  cbn [mbind option_bind].
  destruct (NormalizedMeasurements_total m up) as (m' & ups & -> & Hs).
  eexists. split; [done|]. intros Hut u Hu. simpl in Hu.
  destruct (collect_metric_spec uptime_measurement id ms Hok) as (ws & Hws & Hpos & Htot & Hval).
  rewrite Hup in Hws. injection Hws as <-.
  destruct (total_weight_sublist up ups Hs Hpos) as [Hpos' Htot'].
  eapply weighted_mean_range; [exact Hpos'| |lia|lia|exact Hu].
  intros w Hw. destruct (Hval w) as (x & v & Hx & Hfv & ->); [by eapply elem_of_sublist|].
  by eapply Hut.
Qed.

Lemma metric_min_max_range (field : ∀ A, Metrics A → A) init ms n v :
  n ∈ ms → field _ n.1 = Some v →
  (metric_min_max field init ms).1 ≤ v ≤ (metric_min_max field init ms).2.
Proof.
  intros Hn Hv. unfold metric_min_max.
  assert (∀ (ms : list NormalizedMeasurements) mm,
    (foldl (λ mm m, update_min_max field m.1 mm) mm ms).1 ≤ mm.1 ∧
    mm.2 ≤ (foldl (λ mm m, update_min_max field m.1 mm) mm ms).2) as Hmono.
  { clear. induction ms as [|m ms IH]; intros mm; simpl; [lia|].
    specialize (IH (update_min_max field m.1 mm)).
    unfold update_min_max, sfp_min, sfp_max in *. destruct (field _ m.1); simpl in *; [|lia].
    repeat case_bool_decide; lia. }
  revert init. induction ms as [|x ms IH]; intros mm; [by apply not_elem_of_nil in Hn|].
  apply list.elem_of_cons in Hn as [<-|Hn]; simpl; [|by apply IH].
  specialize (Hmono ms (update_min_max field n.1 mm)).
  assert ((update_min_max field n.1 mm).1 ≤ v ≤ (update_min_max field n.1 mm).2); [|lia].
  unfold update_min_max, sfp_min, sfp_max. rewrite Hv. simpl. repeat case_bool_decide; lia.
Qed.

Lemma mapM_rows_total {V W} (f : V → option W) (P : V → Prop) (Q : V → W → Prop) rows :
  (∀ v, P v → ∃ w, f v = Some w ∧ Q v w) → (∀ r, r ∈ rows → P r.2) →
  ∃ rows', mapM_rows f rows = Some rows' ∧ rows'.*1 = rows.*1 ∧
    ∀ r', r' ∈ rows' → ∃ v, (r'.1, v) ∈ rows ∧ Q v r'.2.
Proof.
  intros Hf. induction rows as [|[i v] rows IH]; intros HP; simpl.
  { exists []. split_and!; [done..|]. by intros ? ?%not_elem_of_nil. }
  destruct (Hf v) as (w & -> & HQ); [apply (HP (i, v)); by left|].
  destruct IH as (rows' & -> & Hk & Hin); [intros; apply HP; by right|].
  simpl. eexists. split_and!; [done|by rewrite !fmap_cons, Hk|].
  intros r' [->|Hr]%list.elem_of_cons; [exists v; split; [by left|done]|].
  destruct (Hin r' Hr) as (v' & ? & ?). exists v'. split; [by right|done].
Qed.

Lemma normalize_field (field : ∀ A, Metrics A → A) init ms m (up : option Z) :
  (m, up) ∈ ms →
  ∃ o, normalize_metric (field _ m) (metric_min_max field init ms).1
         (metric_min_max field init ms).2 = Some o ∧
    ∀ x, o = Some x → 0 ≤ x ≤ one.
Proof.
  intros Hn. destruct (normalize_metric_total (field _ m)
    (metric_min_max field init ms).1 (metric_min_max field init ms).2) as (o & -> & Ho).
  exists o. split; [done|]. intros x Hx. apply Ho; [done|].
  intros y Hy. by eapply metric_min_max_range.
Qed.

Definition in_range (n : NormalizedMeasurements) : Prop :=
  (∀ v, v ∈ [m_latency n.1; m_interactions n.1; m_inbound_bandwidth n.1;
             m_outbound_bandwidth n.1; m_bytes_received n.1; m_bytes_sent n.1; n.2] →
    ∀ x, v = Some x → 0 ≤ x ≤ one).

Lemma normalize_total ms mm n :
  MinMaxValues_from ms = Some mm → n ∈ ms →
  ∃ n', normalize mm n = Some n' ∧
    ((∀ u, n.2 = Some u → 0 ≤ u ≤ 100 * one) → in_range n').
Proof.
  intros Hmm Hn. destruct n as [m up]. unfold MinMaxValues_from in Hmm.
  destruct (f64_MAX_total) as [[? HM] [? Hm]]. rewrite HM, Hm in Hmm.
  cbn [mbind option_bind] in Hmm. injection Hmm as <-. unfold normalize. cbn [min_values max_values].
  cbn [m_latency m_interactions m_inbound_bandwidth m_outbound_bandwidth m_bytes_received
    m_bytes_sent].
  destruct (normalize_field (@m_latency) (x, x0) ms m up Hn) as (? & -> & ?).
  destruct (normalize_field (@m_interactions) (x, x0) ms m up Hn) as (? & -> & ?).
  destruct (normalize_field (@m_inbound_bandwidth) (x, x0) ms m up Hn) as (? & -> & ?).
  destruct (normalize_field (@m_outbound_bandwidth) (x, x0) ms m up Hn) as (? & -> & ?).
  destruct (normalize_field (@m_bytes_received) (x, x0) ms m up Hn) as (? & -> & ?).
  destruct (normalize_field (@m_bytes_sent) (x, x0) ms m up Hn) as (? & -> & ?).
  assert (∃ o, match up with
           | Some uptime => u ← sfp_div 18 uptime (fp 100); Some (Some u)
           | None => Some None
           end = Some o ∧ ((∀ u, up = Some u → 0 ≤ u ≤ 100 * one) →
             ∀ x, o = Some x → 0 ≤ x ≤ one)) as (o' & -> & Hup).
  { destruct up as [u|]; [|exists None; naive_solver]. rewrite fp_eq, sfp_div_exact by lia.
    simpl. eexists. split; [done|]. intros Hu y [= <-]. specialize (Hu u eq_refl).
    apply quot_range; lia. }
  cbn [mbind option_bind]. eexists. split; [done|]. intros Hu v Hv. simpl in Hu, Hv.
  rewrite !list.elem_of_cons, list.elem_of_nil in Hv. naive_solver.
Qed.

Lemma percent_range v :
  0 ≤ v ≤ one →
  ∃ p, sfp_try_into_int 128 18 (sfp_mul 18 v (fp 100)) = Ok p ∧ 0 ≤ p ≤ 100.
Proof.
  intros Hv. rewrite fp_eq, sfp_mul_exact by lia.
  pose proof (quot_range (v * (100 * one)) one (100 * one) ltac:(lia) ltac:(lia) ltac:(nia)) as Hq.
  pose proof (quot_range _ one 100 (proj1 Hq) ltac:(lia) ltac:(lia)) as Hr.
  rewrite sfp_try_into_int_exact by lia. eauto.
Qed.

(** The partial sum of a score: a count and as many values in [0, 1]. *)
Definition partial_ok (acc : Z * Z) : Prop := 0 ≤ acc.1 ≤ acc.2 * one.

Lemma add_metric_ok v acc :
  (∀ x, v = Some x → 0 ≤ x ≤ one) → partial_ok acc → partial_ok (add_metric v acc).
Proof.
  unfold partial_ok, add_metric, sfp_add. intros Hv Hacc. destruct v as [v|]; [|done].
  specialize (Hv v eq_refl). simpl. rewrite big_add_spec. lia.
Qed.

Lemma calculate_score_total n :
  ∃ o, calculate_score n = Some o ∧ (in_range n → ∀ x, o = Some x → 0 ≤ x ≤ 100).
Proof.
  destruct n as [m up]. unfold calculate_score.
  set (acc0 := match m_latency m with Some _ => _ | None => _ end).
  destruct (add_metric up _) as [score count] eqn:Hacc.
  case_bool_decide as Hc; [exists None; naive_solver|].
  rewrite (fp_eq count), sfp_div_exact by lia. cbn [mbind option_bind].
  destruct (decide (0 ≤ score ≤ count * one)) as [Hs|Hs].
  - destruct (percent_range (Z.quot (score * one) (count * one))) as (p & -> & Hp);
      [apply quot_range; nia|].
    eexists. split; [done|]. intros _ x [= <-].
    rewrite wrap_small; unfold in_width; lia.
  - assert (¬ in_range (m, up)) as Hno.
    { intros Hr. apply Hs. unfold in_range in Hr. cbn [fst snd] in Hr.
      change (partial_ok (score, count)). rewrite <-Hacc.
      repeat (apply add_metric_ok; [apply Hr; set_solver|]).
      unfold acc0, partial_ok, sfp_add_assign, sfp_sub.
      destruct (m_latency m) as [l|] eqn:Hl; simpl; rewrite ?big_add_spec, ?big_sub_spec, !fp_eq; [|lia].
      specialize (Hr (Some l) ltac:(set_solver) l eq_refl). lia. }
    destruct (sfp_try_into_int _ _ _); eexists; (split; [done|]); naive_solver.
Qed.

Lemma get_uptime_range n x :
  in_range n → get_uptime n = Some x → 0 ≤ x ≤ 100.
Proof.
  intros Hr. unfold get_uptime. destruct n as [m [u|]]; simpl; [|done].
  destruct (percent_range u) as (p & -> & Hp).
  { apply (Hr (Some u)); [simpl; set_solver|done]. }
  intros [= <-]. rewrite wrap_small; unfold in_width; lia.
Qed.

Lemma calculate_reputation_scores_spec {H : Host} {HL : HostLaws H} map :
  (∀ i ms, map !! i = Some ms → weights_ok ms) →
  ∃ res, calculate_reputation_scores map = Some res ∧
    ∀ i score up, res !! i = Some (score, up) → ∃ ms, map !! i = Some ms ∧
      (uptimes_ok ms → (∀ x, score = Some x → 0 ≤ x ≤ 100) ∧ (∀ x, up = Some x → 0 ≤ x ≤ 100)).
Proof.
  intros Hw. unfold calculate_reputation_scores, calculate_normalized_measurements.
  destruct (mapM_rows_total (λ rm, c ← CollectedMeasurements_from rm; NormalizedMeasurements_from c)
    weights_ok (λ ms (n : NormalizedMeasurements), uptimes_ok ms → ∀ u, n.2 = Some u → 0 ≤ u ≤ 100 * one) (table_rows map))
    as (rows1 & -> & Hk1 & Hr1); [apply normalized_total| |].
  { intros [i ms] Hr. apply elem_of_table_rows in Hr. by eapply Hw. }
  cbn [mbind option_bind].
  assert (∃ mm, MinMaxValues_from rows1.*2 = Some mm) as [mm Hmm].
  { unfold MinMaxValues_from. destruct f64_MAX_total as [[? ->] [? ->]]. simpl. eauto. }
  rewrite Hmm. cbn [mbind option_bind].
  destruct (mapM_rows_total (normalize mm) (λ n : NormalizedMeasurements, n ∈ rows1.*2)
    (λ (n n' : NormalizedMeasurements), (∀ u, n.2 = Some u → 0 ≤ u ≤ 100 * one) → in_range n') rows1)
    as (rows2 & -> & Hk2 & Hr2).
  { intros n Hn. by eapply normalize_total. }
  { intros r Hr. by apply list_elem_of_fmap_2. }
  cbn [mbind option_bind].
  destruct (mapM_rows_total (λ m, score ← calculate_score m; Some (score, get_uptime m))
    (λ _ : NormalizedMeasurements, True) (λ n r, in_range n → (∀ x, r.1 = Some x → 0 ≤ x ≤ 100) ∧
      (∀ x, r.2 = Some x → 0 ≤ x ≤ 100)) rows2) as (rows3 & -> & Hk3 & Hr3); [|done|].
  { intros n _. destruct (calculate_score_total n) as (o & -> & Ho). simpl.
    eexists. split; [done|]. intros Hn. split; [by apply Ho|]. intros x. by apply get_uptime_range. }
  simpl. eexists. split; [done|]. intros i score up Hres.
  apply elem_of_list_to_map_2 in Hres. destruct (Hr3 _ Hres) as (n2 & Hn2 & Hq3).
  destruct (Hr2 _ Hn2) as (n1 & Hn1 & Hq2). destruct (Hr1 _ Hn1) as (ms & Hms & Hq1).
  apply elem_of_table_rows in Hms. exists ms. split; [done|]. intros Hut. by apply Hq3, Hq2, Hq1.
Qed.
End theory.

Section theorems.
Context {B : Bigint} {L : BigintLaws B} {H : Host} {HL : HostLaws H}.

(** The reputation computation of an epoch never aborts, whatever the
    nodes reported (weights are the [u8] reputation scores of the
    reporters): no division by zero can occur. *)
Theorem calculate_reputation_scores_total map :
  (∀ i ms, map !! i = Some ms → weights_ok ms) →
  is_Some (calculate_reputation_scores map).
Proof.
  intros Hw. destruct (calculate_reputation_scores_spec map Hw) as (res & -> & _). eauto.
Qed.

(** A verified report whose uptime is not negative, which [verify_measurements] does
    not test. *)
Definition report_ok (m : WeightedReputationMeasurements) : Prop :=
  verify_measurements (wrm_measurements m) = true ∧
  ∀ u, uptime_measurement (wrm_measurements m) = Some u → 0 ≤ u.

(** C36: The reputation computation returns for all reports, and for a node all of whose
    reports are verified and have no negative uptime its score and its uptime are
    percentages, whatever is reported of the other nodes. *)
Theorem calculate_reputation_scores_range map :
  (∀ i ms, map !! i = Some ms → weights_ok ms) →
  ∃ res, calculate_reputation_scores map = Some res ∧
    ∀ i ms score up, map !! i = Some ms → Forall report_ok ms → res !! i = Some (score, up) →
      (∀ x, score = Some x → 0 ≤ x ≤ 100) ∧ (∀ x, up = Some x → 0 ≤ x ≤ 100).
Proof.
  intros Hw. destruct (calculate_reputation_scores_spec map Hw) as (res & Hres & Hr).
  exists res. split; [done|]. intros i ms score up Hms Hok Hi.
  destruct (Hr i score up Hi) as (ms' & Hms' & Hrange). simplify_eq. apply Hrange.
  intros m u Hm Hu. rewrite Forall_forall in Hok. destruct (Hok m Hm) as [Hv Hp]. split; [by apply Hp|].
  unfold verify_measurements in Hv. rewrite Hu in Hv. apply andb_true_iff in Hv as [_ Hv]. by tests.
Qed.
End theorems.

(** [verify_measurements] does not reject negative uptimes; the cast to [u8] turns a
    negative mean into an uptime above 100, which passes the minimum-uptime
    check of the epoch change. *)
Definition negative_uptime_report : ReputationMeasurements :=
  mkReputationMeasurements None None None None None None (Some (- 10 ^ 18)) None.

Lemma negative_uptime_wraps :
  verify_measurements negative_uptime_report = true ∧
  (λ res, res !! 7) <$> @calculate_reputation_scores bigint_exact host_plain
    {[7 := [mkWeightedReputationMeasurements negative_uptime_report 15]]}
  = Some (Some (None, Some 255)).
Proof. split; by vm_compute. Qed.
