(* ===== verification/Measurements.v ===== *)
(** * Measurements: service and reputation reports in the executor

    Nodes report what they served ([submit_pod]) and what they measured of
    their peers ([submit_reputation_measurements]); the epoch change turns the
    measurements into reputation scores, uptimes and latencies
    ([calculate_reputation_scores] and [update_latencies] of
    [state/executor/epoch_change.rs]).  The scoring itself is the crate
    modelled in [Reputation].  The unimplemented service transactions
    ([add_service], [remove_service], [slash]) are here as well. *)

From Stdlib Require Import String ZArith Lia.
From stdpp Require Import base gmap list sorting.
From S2P Require Import Prelude HpFixed HpSigned Types State Ledger Accounts Nodes.
From S2P Require Import Reputation.
Open Scope Z_scope.

(** The constants of [executor.rs]; the [f64] values are the texts their
    conversion reads. *)
Definition DEFAULT_REP_QUANTILE : string := "0.15".
Definition REP_EWMA_WEIGHT : string := "0.7".
Definition MINIMUM_UPTIME : Z := 40.

Section Measurements.
  Context {R : Ruint} {B : Bigint} {H : Host}.

(** *** Served commodities *)

Definition verify_proof_of_delivery (client : EthAddress) (provider : NodeIndex)
  (commodity : Z) (service_id : ServiceId) : bool := true.

(** [for i in 0..=commodity_index { if i >= served.len() { served.push(0) } }] *)
Definition pad_served (commodity_index : nat) (served : list Z) : list Z :=
  foldl (λ served i, if decide (length served ≤ i)%nat then served ++ [0] else served)
    served (seq 0 (S commodity_index)).

(** [served[commodity_index] += commodity] on [u128]; out of range aborts. *)
Definition add_served (commodity_index : nat) (commodity : Z) (served : list Z)
    : option (list Z) :=
  v ← served !! commodity_index;
  Some (<[commodity_index:=v +[128] commodity]> served).

Definition submit_pod (sender : TransactionSender) (commodity : Z) (service_id : ServiceId)
    : Exec TransactionResponse :=
  r ← only_node_with_sufficient_stake_and_participating sender;
  let? sender := r in
  s ← get;
  match s.(node_info) !! sender with
  | None => mret (Revert ExecutionError.NodeDoesNotExist)
  | Some node_info =>
      let account_owner := node_owner node_info in
      match s.(services) !! service_id with
      | None => mret (Revert ExecutionError.InvalidServiceId)
      | Some service =>
          if negb (verify_proof_of_delivery account_owner sender commodity service_id)
          then mret (Revert ExecutionError.InvalidProof)
          else
            let commodity_type := commodity_type service in
            let current_epoch := get_epoch s in
            let node_served := default NodeServed_default (s.(current_epoch_served) !! sender) in
            let total_served := default TotalServed_default (s.(State.total_served) !! current_epoch) in
            commodity_prices ← unwrap (s.(commodity_prices) !! commodity_type);
            let commodity_index := CommodityTypes.as_usize commodity_type in
            let node_list := pad_served commodity_index (Types.node_served node_served) in
            let total_list := pad_served commodity_index (total_served_served total_served) in
            let commodity_to_big := hp_from_uint 6 commodity in
            let revenue := hp_mul 6 commodity_to_big commodity_prices in
            node_list ← unwrap (add_served commodity_index commodity node_list);
            total_list ← unwrap (add_served commodity_index commodity total_list);
            let node_served :=
              mkNodeServed node_list (add_assign (stables_revenue node_served) revenue) in
            let total_served :=
              mkTotalServed total_list (add_assign (reward_pool total_served) revenue) in
            let service_revenue :=
              add_assign (default 0 (s.(State.service_revenue) !! service_id)) revenue in
            modify (λ s, set_current_epoch_served
              (<[sender:=node_served]> s.(current_epoch_served)) s);;
            modify (λ s, set_total_served
              (<[current_epoch:=total_served]> s.(State.total_served)) s);;
            modify (λ s, set_service_revenue
              (<[service_id:=service_revenue]> s.(State.service_revenue)) s);;
            mret (Success ExecutionData.None)
      end
  end.

(** *** Not implemented *)

Definition add_service (sender : TransactionSender) (service : Service)
  (service_id : ServiceId) : Exec TransactionResponse :=
  mret (Revert ExecutionError.Unimplemented).
Definition remove_service (sender : TransactionSender) (service_id : ServiceId)
  : Exec TransactionResponse := mret (Revert ExecutionError.Unimplemented).
Definition slash (sender : TransactionSender) (service_id : ServiceId) (node : NodePublicKey)
  : Exec TransactionResponse := mret (Revert ExecutionError.Unimplemented).

(** *** Measurements *)

Definition record_measurement (reporting_node : NodeIndex)
    (r : NodeIndex * ReputationMeasurements) : Exec unit :=
  let '(peer_index, measurements) := r in
  if bool_decide (peer_index = reporting_node) then mret tt
  else
    b ← has_sufficient_stake peer_index;
    if b && verify_measurements measurements then
      modify (λ s, set_rep_measurements
        (<[peer_index:=default [] (s.(rep_measurements) !! peer_index)
             ++ [mkReported reporting_node measurements]]> s.(rep_measurements)) s)
    else mret tt.

Definition submit_reputation_measurements (sender : TransactionSender)
    (measurements : list (NodeIndex * ReputationMeasurements)) : Exec TransactionResponse :=
  r ← only_node_with_sufficient_stake_and_participating sender;
  let? reporting_node := r in
  s ← get;
  let num_submissions := default 0 (s.(submitted_rep_measurements) !! reporting_node) in
  if bool_decide (MAX_MEASUREMENTS_SUBMIT ≤ num_submissions)
  then mret (Revert ExecutionError.SubmittedTooManyTransactions)
  else
    modify (λ s, set_submitted_rep_measurements
      (<[reporting_node:=num_submissions +[8] 1]> s.(submitted_rep_measurements)) s);;
    let len := Z.of_nat (length measurements) in
    if bool_decide (MAX_MEASUREMENTS_PER_TX < len)
       || bool_decide (Z.of_nat (length (keys s.(node_info))) < len)
    then mret (Revert ExecutionError.TooManyMeasurements)
    else
      for_each (record_measurement reporting_node) measurements;;
      mret (Success ExecutionData.None).

(** *** Latencies *)

Definition duration_add (a b : Duration) : option Duration :=
  if bool_decide (a + b < 2 ^ 64 * 10 ^ 9) then Some (a + b) else None.

Definition latency_key (node reporting_node : NodeIndex) : NodeIndex * NodeIndex :=
  if bool_decide (node < reporting_node) then (node, reporting_node)
  else (reporting_node, node).

Definition average_latency (latency_map : gmap (NodeIndex * NodeIndex) Duration)
    (key : NodeIndex * NodeIndex) (l : Duration)
    : option (gmap (NodeIndex * NodeIndex) Duration) :=
  l ← match latency_map !! key with
      | Some opp_latency => sum ← duration_add l opp_latency; Some (sum / 2)
      | None => Some l
      end;
  Some (<[key:=l]> latency_map).

Definition collect_latencies (rows : list (NodeIndex * list ReportedReputationMeasurements))
    : option (gmap (NodeIndex * NodeIndex) Duration) :=
  foldl (λ acc '(node, reported),
    foldl (λ acc m,
      latency_map ← acc;
      match latency (measurements m) with
      | Some l => average_latency latency_map (latency_key node (reporting_node m)) l
      | None => Some latency_map
      end) acc reported) (Some ∅) rows.

Definition update_latencies : Exec unit :=
  s ← get;
  let node_registry := get_node_registry s in
  for_each (λ '(index_lhs, index_rhs),
    if is_none (node_registry !! index_lhs) || is_none (node_registry !! index_rhs)
    then modify (λ s, set_latencies (delete (index_lhs, index_rhs) s.(latencies)) s)
    else mret tt) (keys s.(latencies));;
  latency_map ← unwrap (collect_latencies (table_rows s.(rep_measurements)));
  for_each (λ '((index_lhs, index_rhs), l), modify (λ s,
    if is_some (s.(node_info) !! index_lhs) && is_some (s.(node_info) !! index_rhs)
    then set_latencies (<[(index_lhs, index_rhs):=l]> s.(latencies)) s
    else s)) (table_rows latency_map).

(** *** Reputation scores at the epoch change *)

Definition weighted_report (s : StateExecutor) (default_score : Z)
    (m : ReportedReputationMeasurements) : WeightedReputationMeasurements :=
  mkWeightedReputationMeasurements (measurements m)
    (default default_score (s.(rep_scores) !! reporting_node m)).

Definition weighted_reports (s : StateExecutor) (default_score : Z) (min_num_measurements : Z)
    : gmap NodeIndex (list WeightedReputationMeasurements) :=
  list_to_map (omap (λ '(node, reported),
    if bool_decide (min_num_measurements ≤ Z.of_nat (length reported))
    then Some (node, weighted_report s default_score <$> reported) else None)
    (table_rows s.(rep_measurements))).

(** [old_score * 0.7 + (1.0 - 0.7) * new_score], truncated to an [u8]. *)
Definition ewma_score (default_score old_score new_score : Z) : option Z :=
  emwa_weight ← hp_from_f64 18 REP_EWMA_WEIGHT;
  one ← hp_from_f64 18 "1"%string;
  let score := hp_add (hp_mul 18 (hp_from_uint 18 old_score) emwa_weight)
                 (hp_mul 18 (hp_sub one emwa_weight) (hp_from_uint 18 new_score)) in
  Some (wrap 8 match hp_try_into_uint 128 18 score with
               | Ok score => score
               | Err _ => default_score
               end).

Definition switch_participation (p : Participation) : Participation :=
  match p with
  | Participation.OptedIn => Participation.True
  | Participation.OptedOut => Participation.False
  | p => p
  end.

Definition score_node (rep_scores : gmap NodeIndex Z) (default_score : Z)
    (new_rep_scores : gmap NodeIndex (option Z * option Z)) (node : NodeIndex) : Exec unit :=
  let '(new_score, uptime) := default (None, None) (new_rep_scores !! node) in
  let old_score := default default_score (rep_scores !! node) in
  let new_score := default 0 new_score in
  score ← unwrap (ewma_score default_score old_score new_score);
  modify (λ s, set_rep_scores (<[node:=score]> s.(State.rep_scores)) s);;
  s ← get;
  info ← unwrap (s.(node_info) !! node);
  let info := with_participation (switch_participation (participation info)) info in
  node_info_set node info;;
  match uptime with
  | None => mret tt
  | Some uptime =>
      modify (λ s, set_uptime (<[node:=uptime]> s.(State.uptime)) s);;
      if bool_decide (uptime < MINIMUM_UPTIME) then
        s ← get;
        match s.(node_info) !! node with
        | Some info => node_info_set node (with_participation Participation.False info)
        | None => mret tt
        end
      else mret tt
  end.

Definition executor_calculate_reputation_scores : Exec unit :=
  s ← get;
  let rep_scores := s.(State.rep_scores) in
  q ← unwrap (hp_from_f64 18 DEFAULT_REP_QUANTILE);
  quantile ← unwrap (approx_quantile (table_rows rep_scores).*2 q);
  let default_score := default 15 quantile in
  match s.(parameters) !! ProtocolParamKey.MinNumMeasurements with
  | Some (ProtocolParamValue.MinNumMeasurements min_num_measurements) =>
      let map := weighted_reports s default_score min_num_measurements in
      for_each (λ node, modify (λ s, set_uptime (delete node s.(uptime)) s)) (keys s.(uptime));;
      new_rep_scores ← unwrap (calculate_reputation_scores map);
      for_each (score_node rep_scores default_score new_rep_scores) (keys s.(node_info));;
      update_latencies;;
      s ← get;
      for_each (λ node, modify (λ s, set_rep_measurements (delete node s.(rep_measurements)) s))
        (keys s.(rep_measurements));;
      s ← get;
      for_each (λ node, modify (λ s,
        set_submitted_rep_measurements (delete node s.(submitted_rep_measurements)) s))
        (keys s.(submitted_rep_measurements))
  | _ => panic
  end.
End Measurements.

(** ** Scores are percentages *)

Section scores.
Context {R : Ruint} {L : RuintLaws R}.

Lemma literal_quantile : hp_from_f64 18 DEFAULT_REP_QUANTILE = Some (15 * 10 ^ 16).
Proof. apply (hp_literal _ 0 (15 * 10 ^ 16)); [do 2 eexists; by vm_compute|lia|lia]. Qed.
Lemma literal_ewma : hp_from_f64 18 REP_EWMA_WEIGHT = Some (7 * 10 ^ 17).
Proof. apply (hp_literal _ 0 (7 * 10 ^ 17)); [do 2 eexists; by vm_compute|lia|lia]. Qed.
Lemma literal_one : hp_from_f64 18 "1"%string = Some (10 ^ 18).
Proof. apply (hp_literal _ 1 0); [do 2 eexists; by vm_compute|lia|lia]. Qed.
Lemma literal_zero : hp_from_f64 18 "0"%string = Some 0.
Proof. apply (hp_literal _ 0 0); [do 2 eexists; by vm_compute|lia|lia]. Qed.
Lemma literal_099 : hp_from_f64 18 "0.99"%string = Some (99 * 10 ^ 16).
Proof. apply (hp_literal _ 0 (99 * 10 ^ 16)); [do 2 eexists; by vm_compute|lia|lia]. Qed.

(** The index of a quantile is in range, also if the products wrap. *)
Lemma quantile_index q n :
  0 ≤ q ≤ 99 * 10 ^ 16 → 0 < n →
  0 ≤ wrap 64 (HpFixed.floor 18 (hp_mul 18 q (hp_from_uint 18 n)) / 10 ^ 18) < n.
Proof.
  intros Hq Hn. unfold HpFixed.floor, hp_mul, hp_from_uint.
  destruct (hp_scale_eq 18) as [-> _]; [lia|].
  rewrite !u256_mul_spec, !u256_div_spec by lia.
  pose proof (wrap_le 256 (n * 10 ^ 18) ltac:(lia) ltac:(lia)) as H1.
  pose proof (wrap_in_width 256 (n * 10 ^ 18) ltac:(lia)) as [H1' _].
  set (a := wrap 256 (n * 10 ^ 18)) in *.
  pose proof (wrap_le 256 (q * a) ltac:(lia) ltac:(nia)) as H2.
  pose proof (wrap_in_width 256 (q * a) ltac:(lia)) as [H2' _].
  set (b := wrap 256 (q * a)) in *.
  assert (0 ≤ b / 10 ^ 18 ∧ b / 10 ^ 18 * 10 ^ 18 ≤ b) as [H3 H3'].
  { split; [apply Z.div_pos; lia|]. pose proof (Z.mul_div_le b (10 ^ 18) ltac:(lia)). lia. }
  set (c := b / 10 ^ 18) in *.
  assert (0 ≤ c / 10 ^ 18 * 10 ^ 18 ≤ c) as H4.
  { split; [assert (0 ≤ c / 10 ^ 18) by (apply Z.div_pos; lia); lia|].
    pose proof (Z.mul_div_le c (10 ^ 18) ltac:(lia)). lia. }
  pose proof (wrap_le 256 (c / 10 ^ 18 * 10 ^ 18) ltac:(lia) ltac:(lia)) as H5.
  pose proof (wrap_in_width 256 (c / 10 ^ 18 * 10 ^ 18) ltac:(lia)) as [H5' _].
  set (d := wrap 256 (c / 10 ^ 18 * 10 ^ 18)) in *.
  assert (0 ≤ d / 10 ^ 18) as H6 by (apply Z.div_pos; lia).
  assert (d / 10 ^ 18 < n) as H7 by (apply Z.div_lt_upper_bound; nia).
  pose proof (wrap_le 64 (d / 10 ^ 18) ltac:(lia) H6).
  pose proof (wrap_in_width 64 (d / 10 ^ 18) ltac:(lia)) as [? _]. lia.
Qed.

Lemma approx_quantile_total values q :
  0 ≤ q → ∃ o, approx_quantile values q = Some o ∧ ∀ v, o = Some v → v ∈ values.
Proof.
  intros Hq. unfold approx_quantile. rewrite literal_zero, literal_099. cbn [mbind option_bind].
  destruct (_ && _ && _) eqn:Hcond; [|exists None; naive_solver].
  apply andb_true_iff in Hcond as [[_ Hhi%bool_decide_eq_true_1]%andb_true_iff Hne].
  apply negb_true_iff, bool_decide_eq_false_1 in Hne.
  set (vs := merge_sort Z.le values).
  assert (vs ≡ₚ values) as Hvs by apply merge_sort_Permutation.
  assert (0 < Z.of_nat (length vs)) as Hlen.
  { rewrite Hvs. destruct values; [done|simpl; lia]. }
  pose proof (quantile_index q (Z.of_nat (length vs)) ltac:(lia) Hlen) as Hidx.
  unfold hp_try_into_uint. destruct (hp_scale_eq 18) as [-> _]; [lia|].
  rewrite bool_decide_eq_false_2, u256_div_spec by lia.
  case_bool_decide; [|exists None; naive_solver].
  destruct (lookup_lt_is_Some_2 vs (Z.to_nat (wrap 64
    (HpFixed.floor 18 (hp_mul 18 q (hp_from_uint 18 (Z.of_nat (length vs)))) / 10 ^ 18))))
    as [v Hv]; [lia|].
  rewrite Hv. simpl. exists (Some v). split; [done|]. intros w [= <-].
  rewrite <-Hvs. by eapply list_elem_of_lookup_2.
Qed.

(** The moving average is computed exactly. *)
Lemma ewma_score_eq d old new :
  0 ≤ old < 256 → 0 ≤ new < 256 → ewma_score d old new = Some ((7 * old + 3 * new) / 10).
Proof.
  intros Ho Hn. unfold ewma_score. rewrite literal_ewma, literal_one. cbn [mbind option_bind].
  rewrite !hp_from_uint_exact by (unfold in_width; lia).
  rewrite hp_sub_exact by (unfold in_width; lia).
  rewrite !hp_mul_exact by (unfold in_width; lia).
  replace (old * 10 ^ 18 * (7 * 10 ^ 17) / 10 ^ 18) with (old * (7 * 10 ^ 17))
    by (rewrite <-(Z.div_mul (old * (7 * 10 ^ 17)) (10 ^ 18)) by lia; f_equal; lia).
  replace ((10 ^ 18 - 7 * 10 ^ 17) * (new * 10 ^ 18) / 10 ^ 18) with (new * (3 * 10 ^ 17))
    by (rewrite <-(Z.div_mul (new * (3 * 10 ^ 17)) (10 ^ 18)) by lia; f_equal; lia).
  rewrite hp_add_exact by (unfold in_width; lia).
  assert ((old * (7 * 10 ^ 17) + new * (3 * 10 ^ 17)) / 10 ^ 18 = (7 * old + 3 * new) / 10) as Hs.
  { replace (10 ^ 18) with (10 ^ 17 * 10) by lia. rewrite <-Z.div_div by lia. f_equal.
    rewrite <-(Z.div_mul (7 * old + 3 * new) (10 ^ 17)) by lia. f_equal. lia. }
  assert (0 ≤ (7 * old + 3 * new) / 10 < 256)
    by (split; [apply Z.div_pos; lia|apply Z.div_lt_upper_bound; lia]).
  rewrite hp_try_into_uint_exact by lia.
  rewrite Hs, wrap_small; [done|unfold in_width; lia].
Qed.
End scores.

(** ** The epoch change of the reputation tables *)

Section epoch.
Context {R : Ruint} {L : RuintLaws R} {B : Bigint} {BL : BigintLaws B}
        {H : Host} {HL : HostLaws H}.

Definition next_participation (p : Participation) (uptime : option Z) : Participation :=
  match uptime with
  | Some u => if bool_decide (u < MINIMUM_UPTIME) then Participation.False
              else switch_participation p
  | None => switch_participation p
  end.

(** The reputation and the participation of a node in the next epoch. *)
Definition next_score (old : Z) (new : option Z) : Z := (7 * old + 3 * default 0 new) / 10.

Abbreviation report new i := (default (None, None) (new !! i)) (only parsing).

Lemma score_node_run old d new node info s :
  s.(node_info) !! node = Some info →
  let r := default (None, None) (new !! node) in
  0 ≤ default d (old !! node) < 256 → 0 ≤ default 0 r.1 < 256 →
  score_node old d new node s = Some (tt,
    set_uptime (from_option (λ u, <[node:=u]> s.(uptime)) s.(uptime) r.2)
     (set_node_info (<[node:=with_participation
         (next_participation (participation info) r.2) info]> s.(node_info))
      (set_rep_scores (<[node:=next_score (default d (old !! node)) r.1]> s.(rep_scores)) s))).
Proof.
  intros Hi r Ho Hn. unfold score_node. fold r. destruct r as [ns up] eqn:Hr. simpl in *.
  unfold_M. rewrite ewma_score_eq by done. state_simpl. rewrite Hi.
  unfold node_info_set. unfold_M. destruct up as [u|]; simpl; [|by destruct s].
  unfold next_participation. case_bool_decide; state_simpl; [|done].
  rewrite lookup_insert_eq. unfold_M. state_simpl. by rewrite insert_insert_eq.
Qed.

(** The node and score tables after the nodes [ks] were scored. *)
Record scored_nodes (old : gmap NodeIndex Z) (d : Z)
    (new : gmap NodeIndex (option Z * option Z)) (ks : list NodeIndex)
    (s s' : StateExecutor) : Prop := {
  scored_info i :
    s'.(node_info) !! i =
      if decide (i ∈ ks) then
        (λ info, with_participation
           (next_participation (participation info) (report new i).2) info) <$> s.(node_info) !! i
      else s.(node_info) !! i;
  scored_score i :
    s'.(rep_scores) !! i =
      if decide (i ∈ ks) then Some (next_score (default d (old !! i)) (report new i).1)
      else s.(rep_scores) !! i;
  scored_uptime i :
    s'.(uptime) !! i =
      if decide (i ∈ ks) then from_option Some (s.(uptime) !! i) (report new i).2
      else s.(uptime) !! i;
  scored_frame :
    s' = set_uptime s'.(uptime) (set_node_info s'.(node_info) (set_rep_scores s'.(rep_scores) s))
}.

Lemma score_nodes_run old d new ks s :
  NoDup ks → (∀ i, i ∈ ks → is_Some (s.(node_info) !! i)) →
  (∀ i, 0 ≤ default d (old !! i) < 256) → (∀ i, 0 ≤ default 0 (report new i).1 < 256) →
  ∃ s', for_each (score_node old d new) ks s = Some (tt, s') ∧ scored_nodes old d new ks s s'.
Proof.
  intros Hnd Hin Ho Hn. revert s Hin. induction ks as [|k ks IH]; intros s Hin.
  { exists s. split; [done|]. split; try (intros i; by rewrite decide_False by apply not_elem_of_nil).
    by destruct s. }
  apply list.NoDup_cons in Hnd as [Hk Hnd]. destruct (Hin k ltac:(by left)) as [info Hi].
  cbn [for_each]. unfold_M. rewrite (score_node_run old d new k info s Hi (Ho k) (Hn k)).
  set (s1 := set_uptime _ _).
  destruct (IH Hnd s1) as (s' & -> & [HI HS HU HF]).
  { intros i Hik. unfold s1. state_simpl. destruct (decide (i = k)) as [->|Hne].
    - rewrite lookup_insert_eq. eauto.
    - rewrite lookup_insert_ne by done. apply Hin. by right. }
  exists s'. split; [done|]. split.
  4: { rewrite HF. unfold s1. by state_simpl. }
  all: intros i; (rewrite HI || rewrite HS || rewrite HU); unfold s1; state_simpl.
  all: destruct (decide (i = k)) as [->|Hne];
    [rewrite (decide_False (P:=k ∈ ks)), (decide_True (P:=k ∈ k :: ks)) by (done || by left)
    |rewrite (decide_ext (i ∈ ks) (i ∈ k :: ks)) by (rewrite list.elem_of_cons; tauto)].
  - by rewrite lookup_insert_eq, Hi.
  - by rewrite lookup_insert_ne.
  - by rewrite lookup_insert_eq.
  - by rewrite lookup_insert_ne.
  - destruct (report new k).2; simpl; by rewrite ?lookup_insert_eq.
  - destruct (report new k).2; simpl; by rewrite ?lookup_insert_ne.
Qed.

(** ** Latencies *)

Definition latency_ok (l : Duration) : Prop := 0 ≤ l < 20 * 10 ^ 9.
Definition latencies_ok (m : gmap (NodeIndex * NodeIndex) Duration) : Prop :=
  ∀ k l, m !! k = Some l → latency_ok l.

Lemma average_latency_total m k l :
  latencies_ok m → latency_ok l → ∃ m', average_latency m k l = Some m' ∧ latencies_ok m'.
Proof.
  intros Hm Hl. unfold average_latency.
  assert (∃ l', match m !! k with
    | Some o => sum ← duration_add l o; Some (sum / 2) | None => Some l end = Some l' ∧
    latency_ok l') as (l' & -> & Hl').
  { destruct (m !! k) as [o|] eqn:Ho; [|eauto]. apply Hm in Ho. unfold latency_ok in *.
    unfold duration_add. rewrite bool_decide_eq_true_2 by lia. simpl. eexists. split; [done|].
    split; [apply Z.div_pos; lia|apply Z.div_lt_upper_bound; lia]. }
  simpl. eexists. split; [done|]. intros k' l''. rewrite lookup_insert_Some.
  intros [[_ <-]|[_ ?]]; [done|by eapply Hm].
Qed.

Lemma collect_latencies_total rows :
  (∀ i rs r l, (i, rs) ∈ rows → r ∈ rs → latency (measurements r) = Some l → latency_ok l) →
  ∃ m, collect_latencies rows = Some m ∧ latencies_ok m.
Proof.
  unfold collect_latencies. intros Hrows.
  enough (∀ m, latencies_ok m → ∃ m', foldl (λ acc '(node, reported),
    foldl (λ acc m, latency_map ← acc;
      match latency (measurements m) with
      | Some l => average_latency latency_map (latency_key node (reporting_node m)) l
      | None => Some latency_map
      end) acc reported) (Some m) rows = Some m' ∧ latencies_ok m') as Hgen.
  { apply Hgen. intros k l. by rewrite lookup_empty. }
  induction rows as [|[i rs] rows IH]; intros m Hm; [simpl; eauto|]. cbn [foldl].
  assert (∃ m', foldl (λ acc m, latency_map ← acc;
      match latency (measurements m) with
      | Some l => average_latency latency_map (latency_key i (reporting_node m)) l
      | None => Some latency_map
      end) (Some m) rs = Some m' ∧ latencies_ok m') as (m' & -> & Hm').
  { specialize (λ r l, Hrows i rs r l ltac:(by left)) as Hrs. clear IH Hrows.
    revert m Hm. induction rs as [|r rs IH]; intros m Hm; [simpl; eauto|]. cbn [foldl mbind option_bind].
    assert (∀ r l, r ∈ rs → latency (measurements r) = Some l → latency_ok l) as Hrs'
      by (intros; eapply Hrs; [by right|done]).
    destruct (latency (measurements r)) as [l|] eqn:Hl; [|by apply IH].
    destruct (average_latency_total m (latency_key i (reporting_node r)) l Hm) as (m1 & -> & Hm1);
      [eapply Hrs; [by left|done]|]. by apply IH. }
  apply IH; [|done]. intros. eapply Hrows; [by right|done..].
Qed.

Definition reports_ok (s : StateExecutor) : Prop :=
  ∀ i rs r, s.(rep_measurements) !! i = Some rs → r ∈ rs →
    (∀ l, latency (measurements r) = Some l → latency_ok l) ∧
    (∀ u, uptime_measurement (measurements r) = Some u → 0 ≤ u ≤ 100 * 10 ^ 18).

Lemma update_latencies_run s :
  reports_ok s → ∃ s', update_latencies s = Some (tt, s') ∧ s' = set_latencies s'.(latencies) s.
Proof.
  intros Hok. unfold update_latencies. unfold_M.
  match goal with |- context [for_each ?f (keys s.(latencies))] => set (F := f) end.
  assert (∀ l t, t = set_latencies t.(latencies) s → ∃ t', for_each F l t = Some (tt, t') ∧
    t' = set_latencies t'.(latencies) s) as HF.
  { induction l as [|[a b] l IH]; intros t Ht; simpl; unfold_M; [eauto|]. unfold F at 1.
    destruct (_ || _); apply IH; [|done]. rewrite Ht. by state_simpl. }
  destruct (HF (keys s.(latencies)) s) as (t & -> & Ht); [by destruct s|].
  destruct (collect_latencies_total (table_rows s.(rep_measurements))) as (m & -> & _).
  { intros i rs r l Hr Hin. apply elem_of_table_rows in Hr. by apply (Hok i rs r Hr Hin). }
  match goal with |- context [for_each ?f (table_rows m)] => set (G := f) end.
  assert (∀ l t, t = set_latencies t.(latencies) s → ∃ t', for_each G l t = Some (tt, t') ∧
    t' = set_latencies t'.(latencies) s) as HG.
  { induction l as [|[[a b] v] l IH]; intros u Hu; simpl; unfold_M; [eauto|]. unfold G at 1.
    apply IH. destruct (_ && _); [|done]. rewrite Hu. by state_simpl. }
  by apply HG.
Qed.

(** ** The whole step *)

Lemma foldl_delete_keys {V} (m : gmap NodeIndex V) :
  foldl (λ m k, delete k m) m (keys m) = ∅.
Proof.
  rewrite foldl_delete_filter. apply map_empty. intros k. apply eq_None_not_Some.
  intros [v [Hv Hk]%map_lookup_filter_Some]. apply Hk. simpl. apply elem_of_keys. eauto.
Qed.

Lemma clear_uptime_run ks s :
  for_each (λ node, modify (λ s, set_uptime (delete node s.(uptime)) s)) ks s
  = Some (tt, set_uptime (foldl (λ m k, delete k m) s.(uptime) ks) s).
Proof.
  rewrite (for_each_modify (λ node s, set_uptime (delete node s.(uptime)) s)).
  do 2 f_equal. revert s. induction ks as [|k ks IH]; intros s; [by destruct s|].
  simpl. rewrite IH. by state_simpl.
Qed.

Lemma clear_measurements_run ks s :
  for_each (λ node, modify (λ s, set_rep_measurements (delete node s.(rep_measurements)) s)) ks s
  = Some (tt, set_rep_measurements (foldl (λ m k, delete k m) s.(rep_measurements) ks) s).
Proof.
  rewrite (for_each_modify (λ node s, set_rep_measurements (delete node s.(rep_measurements)) s)).
  do 2 f_equal. revert s. induction ks as [|k ks IH]; intros s; [by destruct s|].
  simpl. rewrite IH. by state_simpl.
Qed.

Lemma clear_submitted_run ks s :
  for_each (λ node, modify (λ s,
    set_submitted_rep_measurements (delete node s.(submitted_rep_measurements)) s)) ks s
  = Some (tt, set_submitted_rep_measurements
      (foldl (λ m k, delete k m) s.(submitted_rep_measurements) ks) s).
Proof.
  rewrite (for_each_modify (λ node s,
    set_submitted_rep_measurements (delete node s.(submitted_rep_measurements)) s)).
  do 2 f_equal. revert s. induction ks as [|k ks IH]; intros s; [by destruct s|].
  simpl. rewrite IH. by state_simpl.
Qed.

Lemma weighted_reports_lookup s d n i ms :
  weighted_reports s d n !! i = Some ms →
  ∃ rs, s.(rep_measurements) !! i = Some rs ∧ ms = weighted_report s d <$> rs.
Proof.
  intros Hi%elem_of_list_to_map_2. apply list_elem_of_omap in Hi as ([j rs] & Hr & Hc).
  case_bool_decide; simplify_eq. apply elem_of_table_rows in Hr. eauto.
Qed.

Definition scores_ok (s : StateExecutor) : Prop :=
  ∀ i x, s.(rep_scores) !! i = Some x → 0 ≤ x ≤ 100.

Lemma weighted_reports_ok s d n i ms :
  scores_ok s → reports_ok s → 0 ≤ d ≤ 100 → weighted_reports s d n !! i = Some ms →
  weights_ok ms ∧ uptimes_ok ms.
Proof.
  intros Hs Hr Hd (rs & Hrs & ->)%weighted_reports_lookup.
  split; [intros m Hm|intros m u Hm]; apply list_elem_of_fmap in Hm as (r & -> & Hin); simpl.
  - destruct (s.(rep_scores) !! _) eqn:E; simpl; [apply Hs in E|]; lia.
  - by apply (Hr i rs r Hrs Hin).
Qed.

(** What the reputation step of an epoch change does to a state. *)
Record reputation_step (s s' : StateExecutor) : Prop := {
  step_scores : scores_ok s';
  step_scored i : is_Some (s.(node_info) !! i) → is_Some (s'.(rep_scores) !! i);
  step_uptime i u : s'.(uptime) !! i = Some u → 0 ≤ u ≤ 100;
  step_nodes i :
    s'.(node_info) !! i =
      (λ info, with_participation
         (next_participation (participation info) (s'.(uptime) !! i)) info)
      <$> s.(node_info) !! i;
  step_measurements : s'.(rep_measurements) = ∅;
  step_submitted : s'.(submitted_rep_measurements) = ∅;
  step_frame :
    s' = set_submitted_rep_measurements ∅ (set_rep_measurements ∅
           (set_latencies s'.(latencies) (set_uptime s'.(uptime)
             (set_node_info s'.(node_info) (set_rep_scores s'.(rep_scores) s)))))
}.

Lemma reputation_step_intro s d new s1 s2 :
  scores_ok s → (∀ i, 0 ≤ default d (s.(rep_scores) !! i) ≤ 100) →
  (∀ i, 0 ≤ default 0 (report new i).1 ≤ 100 ∧
    ∀ u, (report new i).2 = Some u → 0 ≤ u ≤ 100) →
  scored_nodes s.(rep_scores) d new (keys s.(node_info)) (set_uptime ∅ s) s1 →
  s2 = set_latencies s2.(latencies) s1 →
  reputation_step s (set_submitted_rep_measurements ∅ (set_rep_measurements ∅ s2)).
Proof.
  intros Hs Hold Hrep [HI HS HU HF] HF2. state_simpl.
  assert (∀ i, is_Some (s.(node_info) !! i) → s1.(uptime) !! i = (report new i).2) as Hup.
  { intros i Hi. rewrite HU, decide_True by (by apply elem_of_keys).
    by destruct (report new i).2; simpl; rewrite ?lookup_empty. }
  rewrite HF2. split; state_simpl; try done.
  - intros i x. state_simpl. rewrite HS. case_decide as Hk; [|by apply Hs].
    intros [= <-]. specialize (Hold i). destruct (Hrep i) as [Hn _]. unfold next_score.
    split; [apply Z.div_pos; lia|]. apply Z.lt_succ_r, Z.div_lt_upper_bound; lia.
  - intros i Hi. rewrite HS, decide_True by (by apply elem_of_keys). eauto.
  - intros i u. rewrite HU. case_decide as Hk; [|by rewrite lookup_empty].
    destruct (Hrep i) as [_ Hu]. destruct (report new i).2; simpl; [|by rewrite lookup_empty].
    intros [= <-]. by apply Hu.
  - intros i. rewrite HI. case_decide as Hk.
    + by rewrite Hup by (by apply elem_of_keys in Hk).
    + rewrite elem_of_keys in Hk. apply eq_None_not_Some in Hk. by rewrite Hk.
  - rewrite HF. by state_simpl.
Qed.

Lemma reputation_step_run s n :
  s.(parameters) !! ProtocolParamKey.MinNumMeasurements
    = Some (ProtocolParamValue.MinNumMeasurements n) →
  scores_ok s → reports_ok s →
  ∃ s', executor_calculate_reputation_scores s = Some (tt, s') ∧ reputation_step s s'.
Proof.
  intros Hp Hs Hr. unfold executor_calculate_reputation_scores. unfold_M.
  rewrite literal_quantile.
  destruct (approx_quantile_total (table_rows s.(rep_scores)).*2 (15 * 10 ^ 16) ltac:(lia))
    as (o & -> & Ho). rewrite Hp. set (d := default 15 o).
  assert (0 ≤ d ≤ 100) as Hd.
  { unfold d. destruct o as [v|]; simpl; [|lia]. specialize (Ho v eq_refl).
    apply list_elem_of_fmap in Ho as ([i x] & -> & Hx%elem_of_table_rows). by eapply Hs. }
  rewrite clear_uptime_run, foldl_delete_keys.
  destruct (calculate_reputation_scores_spec (weighted_reports s d n)) as (new & -> & Hnew).
  { intros i ms Hi. by eapply (weighted_reports_ok s d n). }
  assert (∀ i, 0 ≤ default 0 (report new i).1 ≤ 100 ∧
    ∀ u, (report new i).2 = Some u → 0 ≤ u ≤ 100) as Hrep.
  { intros i. destruct (new !! i) as [[sc up]|] eqn:E; simpl; [|split; [lia|done]].
    destruct (Hnew i sc up E) as (ms & Hms & Hrange).
    destruct Hrange as [H1 H2]; [by eapply (weighted_reports_ok s d n)|]. split; [|done]. destruct sc; simpl; [auto|lia]. }
  assert (∀ i, 0 ≤ default d (s.(rep_scores) !! i) ≤ 100) as Hold.
  { intros i. destruct (s.(rep_scores) !! i) eqn:E; simpl; [by apply Hs in E|done]. }
  destruct (score_nodes_run s.(rep_scores) d new (keys s.(node_info)) (set_uptime ∅ s))
    as (s1 & -> & [HI HS HU HF]);
    [apply keys_NoDup|intros i; by rewrite elem_of_keys|intros i; specialize (Hold i); lia
    |intros i; destruct (Hrep i); lia|].
  assert (s1.(rep_measurements) = s.(rep_measurements)) as Hrm by (rewrite HF; by state_simpl).
  destruct (update_latencies_run s1) as (s2 & -> & HF2); [intros i rs r; by rewrite Hrm; apply Hr|].
  rewrite clear_measurements_run. rewrite foldl_delete_keys. state_simpl.
  rewrite clear_submitted_run. state_simpl. rewrite foldl_delete_keys. eexists. split; [done|].
  by eapply reputation_step_intro.
Qed.

(** The reputation step of an epoch change never aborts once the
    genesis set [MinNumMeasurements]: with valid reports (latencies below
    20 s and uptimes between 0 and 100, as percentages of 18 decimals) and
    old scores between 0 and 100 it gives every node a score between 0 and
    100, moves [OptedIn] and [OptedOut] nodes to [True] and [False], takes
    nodes with an uptime below 40 out, empties the measurement tables and
    touches no stake. *)
Theorem reputation_epoch_spec s n :
  s.(parameters) !! ProtocolParamKey.MinNumMeasurements
    = Some (ProtocolParamValue.MinNumMeasurements n) →
  scores_ok s → reports_ok s →
  ∃ s', executor_calculate_reputation_scores s = Some (tt, s') ∧ scores_ok s' ∧
    (∀ i, is_Some (s.(node_info) !! i) → is_Some (s'.(rep_scores) !! i)) ∧
    (∀ i, s'.(node_info) !! i =
      (λ info, with_participation
         (next_participation (participation info) (s'.(uptime) !! i)) info)
      <$> s.(node_info) !! i) ∧
    s'.(rep_measurements) = ∅ ∧ s'.(submitted_rep_measurements) = ∅.
Proof.
  intros Hp Hs Hr. destruct (reputation_step_run s n Hp Hs Hr) as (s' & Hrun & []).
  exists s'. by split_and!.
Qed.
End epoch.

(** ** Reports *)

Section reports.
Context {R : Ruint} {L : RuintLaws R} {B : Bigint} {H : Host} {HL : HostLaws H}.

Lemma submit_pod_revert_clean sender c i : revert_clean (submit_pod sender c i).
Proof. intros s e s' Hrun. unfold submit_pod in Hrun. run_M Hrun; resolve_node_guards; done. Qed.

(** The revenue of a delivery at the price of its commodity. *)
Definition pod_revenue (s : StateExecutor) (commodity : Z) (service : Service) : Z :=
  hp_mul 6 (hp_from_uint 6 commodity)
    (default 0 (s.(commodity_prices) !! commodity_type service)).

Lemma submit_pod_success sender c sid s d s' :
  submit_pod sender c sid s = Some (Success d, s') →
  ∃ i service nl tl,
    let node := default NodeServed_default (s.(current_epoch_served) !! i) in
    let total := default TotalServed_default (s.(total_served) !! get_epoch s) in
    let revenue := pod_revenue s c service in
    only_node s sender = Ok i ∧ s.(services) !! sid = Some service ∧
    s' = set_service_revenue
           (<[sid:=add_assign (default 0 (s.(service_revenue) !! sid)) revenue]> s.(service_revenue))
         (set_total_served (<[get_epoch s:=
            mkTotalServed tl (add_assign (reward_pool total) revenue)]> s.(total_served))
         (set_current_epoch_served (<[i:=
            mkNodeServed nl (add_assign (stables_revenue node) revenue)]>
            s.(current_epoch_served)) s)).
Proof.
  intros Hrun. unfold submit_pod in Hrun. run_M Hrun; resolve_node_guards.
  destruct Heqo as [Hi _]. exists t, s1, l, l0. cbv zeta. unfold pod_revenue. rewrite Heqo2.
  by split_and!.
Qed.

(** The reward pool of the running epoch is the sum of the nodes' revenues
    (as 256-bit numbers). *)
Definition pool_ok (s : StateExecutor) : Prop :=
  reward_pool (default TotalServed_default (s.(total_served) !! get_epoch s))
  = wrap 256 (map_sum stables_revenue s.(current_epoch_served)).

(** A proof of delivery keeps the reward pool of the running epoch equal
    to the sum of the revenues of the nodes, so the shares paid at the epoch
    change add up to the whole pool. *)
Theorem submit_pod_pool sender c sid s d s' :
  pool_ok s → submit_pod sender c sid s = Some (Success d, s') → pool_ok s'.
Proof.
  intros Hok Hrun.
  destruct (submit_pod_success _ _ _ _ _ _ Hrun) as (i & sv & nl & tl & _ & _ & ->).
  unfold pool_ok in *. change (get_epoch _) with (get_epoch s) at 1. state_simpl.
  rewrite lookup_insert_eq. simpl. rewrite Hok, map_sum_insert. simpl.
  unfold add_assign. rewrite !u256_add_spec.
  replace (from_option stables_revenue 0 (s.(current_epoch_served) !! i))
    with (stables_revenue (default NodeServed_default (s.(current_epoch_served) !! i)))
    by (by destruct (s.(current_epoch_served) !! i)).
  unfold wrap. rewrite Zplus_mod_idemp_l.
  rewrite <-Z.add_sub_swap, <-Z.add_sub_assoc, Zplus_mod_idemp_l. f_equal. lia.
Qed.

(** The reports about [peer] that a submission of node [i] may record. *)
Definition stake_sufficient (s : StateExecutor) (p : NodeIndex) : bool :=
  match has_sufficient_stake p s with
  | Some (b, _) => b
  | None => false
  end.

Definition accepted (s : StateExecutor) (i peer : NodeIndex)
    (ms : list (NodeIndex * ReputationMeasurements)) : list ReportedReputationMeasurements :=
  omap (λ r, if bool_decide (r.1 = peer) && negb (bool_decide (r.1 = i))
                && stake_sufficient s r.1 && verify_measurements r.2
             then Some (mkReported i r.2) else None) ms.

Lemma accepted_cons s i p q m ms :
  accepted s i p ((q, m) :: ms) =
    (if bool_decide (q = p)
        && (negb (bool_decide (q = i)) && stake_sufficient s q && verify_measurements m)
     then [mkReported i m] else []) ++ accepted s i p ms.
Proof.
  unfold accepted. simpl. rewrite <-!andb_assoc. by destruct (_ && _).
Qed.

Lemma accepted_frame s t i p ms :
  t.(node_info) = s.(node_info) → t.(parameters) = s.(parameters) →
  accepted t i p ms = accepted s i p ms.
Proof.
  intros Hn Hp. induction ms as [|[q m] ms IH]; [done|]. rewrite !accepted_cons, IH.
  assert (stake_sufficient t q = stake_sufficient s q) as ->; [|done].
  unfold stake_sufficient, has_sufficient_stake, get_min_stake. unfold_M. rewrite Hn.
  destruct (s.(node_info) !! q); [|done]. cbv beta. rewrite Hp.
  by destruct (s.(parameters) !! _) as [[]|].
Qed.

Lemma record_measurements_run i ms s s' :
  for_each (record_measurement i) ms s = Some (tt, s') →
  s' = set_rep_measurements s'.(rep_measurements) s ∧
  ∀ p, default [] (s'.(rep_measurements) !! p)
     = default [] (s.(rep_measurements) !! p) ++ accepted s i p ms.
Proof.
  revert s. induction ms as [|[q m] ms IH]; intros s Hrun; cbn [for_each] in Hrun; unfold_M.
  { injection Hrun as <-. split; [by destruct s|]. intros p. by rewrite app_nil_r. }
  assert (∃ b, record_measurement i (q, m) s = Some (tt, if b : bool
      then set_rep_measurements (<[q:=default [] (s.(rep_measurements) !! q)
             ++ [mkReported i m]]> s.(rep_measurements)) s else s) ∧
    b = negb (bool_decide (q = i)) && stake_sufficient s q && verify_measurements m)
    as (b & Hstep & Hb).
  { unfold record_measurement in *. unfold stake_sufficient. case_bool_decide as Hq.
    - by exists false.
    - unfold_M. destruct (has_sufficient_stake q s) as [[b t]|] eqn:Hs; [|done].
      apply has_sufficient_stake_readonly in Hs as ->.
      exists (b && verify_measurements m). destruct b, (verify_measurements m); done. }
  rewrite Hstep in Hrun. clear Hstep.
  destruct (IH _ Hrun) as [HF Hp]. split.
  { rewrite HF. destruct b; [by state_simpl|done]. }
  intros p. rewrite Hp, accepted_cons, <-Hb. destruct b; [|by rewrite andb_false_r].
  rewrite (accepted_frame s) by done. state_simpl. rewrite andb_true_r.
  destruct (decide (q = p)) as [->|Hqp].
  - rewrite lookup_insert_eq, bool_decide_eq_true_2 by done. simpl. by rewrite <-app_assoc.
  - by rewrite lookup_insert_ne, bool_decide_eq_false_2 by done.
Qed.

Lemma submit_measurements_result sender ms s r s' :
  submit_reputation_measurements sender ms s = Some (r, s') →
  (s' = s ∧ ∃ e, r = Revert e) ∨
  ∃ i, let count := default 0 (s.(submitted_rep_measurements) !! i) in
    only_node s sender = Ok i ∧ count < MAX_MEASUREMENTS_SUBMIT ∧
    s' = set_rep_measurements s'.(rep_measurements)
           (set_submitted_rep_measurements (<[i:=count +[8] 1]> s.(submitted_rep_measurements)) s) ∧
    ((r = Revert ExecutionError.TooManyMeasurements ∧
      s'.(rep_measurements) = s.(rep_measurements)) ∨
     (r = Success ExecutionData.None ∧
      ∀ p, default [] (s'.(rep_measurements) !! p)
         = default [] (s.(rep_measurements) !! p) ++ accepted s i p ms)).
Proof.
  intros Hrun. unfold submit_reputation_measurements in Hrun. run_M Hrun; resolve_node_guards;
    try by eauto.
  - right. destruct Heqo as [Hi _]. exists t. cbv zeta. split_and!; [done|lia|done|by left].
  - right. destruct Heqo as [Hi _]. exists t. cbv zeta.
    destruct u. apply record_measurements_run in Heqo0 as [HF Hp].
    split_and!; [done|lia|by rewrite HF; state_simpl|right]. split; [done|].
    intros p. rewrite Hp. state_simpl. by rewrite (accepted_frame s).
Qed.

(** A node gets its measurements recorded at most
    [MAX_MEASUREMENTS_SUBMIT] times per epoch; an accepted submission
    appends, for every peer, exactly the verified reports about sufficiently
    staked peers other than itself, under the sender's own index; a rejected
    one records nothing. *)
Theorem submit_measurements_spec sender ms s r s' :
  submit_reputation_measurements sender ms s = Some (r, s') →
  match r with
  | Success _ =>
      ∃ i, only_node s sender = Ok i ∧
        default 0 (s.(submitted_rep_measurements) !! i) < MAX_MEASUREMENTS_SUBMIT ∧
        ∀ p, default [] (s'.(rep_measurements) !! p)
           = default [] (s.(rep_measurements) !! p) ++ accepted s i p ms
  | Revert _ => s'.(rep_measurements) = s.(rep_measurements)
  end.
Proof.
  intros [[-> [e ->]]|(i & Hi & Hc & _ & [[-> Hm]|[-> Hp]])]%submit_measurements_result;
    [done|done|]. by exists i.
Qed.
End reports.
