(* ===== verification/Epoch.v ===== *)
(** * Epoch: rewards, emissions and the next committee

    The execution of an epoch change in
    [core/application/src/state/executor/epoch_change.rs]:
    [execute_epoch_change] scores the nodes, distributes the rewards of the
    epoch, cleans the content registry, chooses the next committee
    ([choose_new_committee] over [settle_auction]) and reassigns the jobs.
    [get_boost] is in [executor.rs].

    Proved here: the boost factor lies between one and the maximum; the
    reward distribution does not abort on a well-formed state and mints at most
    the emissions of the epoch; the next committee is drawn without repetition
    from the winners of the auction and has the configured size; the epoch
    change advances the epoch by one and resets its era. *)

From S2P Require Import Prelude HpFixed HpSigned Types State Ledger Accounts Nodes.
From S2P Require Import Content Auction Jobs Reputation Measurements.
From stdpp Require Import base gmap list sorting.
From Stdlib Require Import ZArith Lia.
Open Scope Z_scope.

Section Epoch.
Context {R : Ruint} {B : Bigint} {H : Host}.

(** *** Protocol parameters *)

Definition get_commit_phase_duration : Exec Z :=
  s ← get;
  match s.(parameters) !! ProtocolParamKey.CommitteeSelectionBeaconCommitPhaseDuration with
  | Some (ProtocolParamValue.CommitteeSelectionBeaconCommitPhaseDuration v) => mret v
  | _ => panic
  end.

Definition get_reveal_phase_duration : Exec Z :=
  s ← get;
  match s.(parameters) !! ProtocolParamKey.CommitteeSelectionBeaconRevealPhaseDuration with
  | Some (ProtocolParamValue.CommitteeSelectionBeaconRevealPhaseDuration v) => mret v
  | _ => panic
  end.

Definition get_epoch_time : Exec Z :=
  s ← get;
  match s.(parameters) !! ProtocolParamKey.EpochTime with
  | Some (ProtocolParamValue.EpochTime epoch_time) => mret epoch_time
  | _ => panic
  end.

Definition get_total_intervals : Exec Z :=
  s ← get;
  match s.(parameters) !! ProtocolParamKey.TotalTimeIntervals with
  | Some (ProtocolParamValue.TotalTimeIntervals total) => mret total
  | _ => panic
  end.

Definition get_committee_size : Exec Z :=
  s ← get;
  match s.(parameters) !! ProtocolParamKey.CommitteeSize with
  | Some (ProtocolParamValue.CommitteeSize committee_size) => mret committee_size
  | _ => panic
  end.

(** *** Rewards *)

Definition get_boost (s : StateExecutor) (locked_until current_epoch : Z) : option Z :=
  let max_boost := match s.(parameters) !! ProtocolParamKey.MaxBoost with
                   | Some (ProtocolParamValue.MaxBoost v) => hp_from_uint 3 v
                   | _ => hp_from_uint 3 1
                   end in
  let max_lock_time := match s.(parameters) !! ProtocolParamKey.MaxStakeLockTime with
                       | Some (ProtocolParamValue.MaxStakeLockTime v) => hp_from_uint 3 v
                       | _ => hp_from_uint 3 1
                       end in
  let min_boost := hp_from_uint 3 1 in
  let locking_period := hp_from_uint 3 (saturating_sub locked_until current_epoch) in
  period ← hp_div 3 locking_period max_lock_time;
  let boost := hp_add min_boost (hp_mul 3 (hp_sub max_boost min_boost) period) in
  Some (hp_min max_boost boost).

Definition calculate_emissions : Exec Z :=
  s ← get;
  let percentage_divisor := hp_from_uint 18 100 in
  let inflation_percent := match s.(parameters) !! ProtocolParamKey.MaxInflation with
                           | Some (ProtocolParamValue.MaxInflation v) => hp_from_uint 18 v
                           | _ => hp_from_uint 18 0
                           end in
  epoch_per_year ← get_epochs_per_year;
  inflation ← unwrap (hp_div 18 inflation_percent percentage_divisor);
  let inflation := convert_precision 18 18 inflation in
  match s.(metadata) !! Metadata.SupplyYearStart with
  | Some (Value.HpUfixed supply_at_year_start) =>
      unwrap (hp_div 18 (hp_mul 18 inflation (convert_precision 18 18 supply_at_year_start))
                (hp_from_uint 18 epoch_per_year))
  | _ => panic
  end.

Definition BIG_HUNDRED : Z := hp_from_uint 18 100.

(** A percentage parameter as a fraction. *)
Definition node_share_of (s : StateExecutor) : option Z :=
  match s.(parameters) !! ProtocolParamKey.NodeShare with
  | Some (ProtocolParamValue.NodeShare v) => hp_div 18 (hp_from_uint 18 v) BIG_HUNDRED
  | _ => None
  end.
Definition service_share_of (s : StateExecutor) : option Z :=
  match s.(parameters) !! ProtocolParamKey.ServiceBuilderShare with
  | Some (ProtocolParamValue.ServiceBuilderShare v) => hp_div 18 (hp_from_uint 18 v) BIG_HUNDRED
  | _ => None
  end.
Definition protocol_share_of (s : StateExecutor) : option Z :=
  match s.(parameters) !! ProtocolParamKey.ProtocolShare with
  | Some (ProtocolParamValue.ProtocolShare v) => hp_div 18 (hp_from_uint 18 v) BIG_HUNDRED
  | _ => None
  end.

Record RewardShares := mkRewardShares {
  total_reward_share : Z;
  local_shares_map : gmap NodeIndex Z;
  node_info_map : gmap NodeIndex NodeInfo
}.

(** The loop over [current_epoch_served]: pays the stables and collects the
    boosted shares. *)
Fixpoint stable_rewards (epoch reward_pool node_share : Z) (nodes : list NodeIndex)
    (acc : RewardShares) : Exec RewardShares :=
  match nodes with
  | [] => mret acc
  | node :: nodes =>
      s ← get;
      node_info ← unwrap (s.(node_info) !! node);
      let stables_revenue := stables_revenue
        (default NodeServed_default (s.(current_epoch_served) !! node)) in
      node_service_proportion ← unwrap (hp_div 18 (convert_precision 6 18 stables_revenue)
        (convert_precision 6 18 reward_pool));
      mint_and_transfer_stables (hp_mul 6 stables_revenue (convert_precision 18 6 node_share))
        (node_owner node_info);;
      let locked_until := stake_locked_until (node_stake node_info) in
      s ← get;
      local_boost ← unwrap (get_boost s locked_until epoch);
      let local_share := hp_mul 18 node_service_proportion (convert_precision 3 18 local_boost) in
      stable_rewards epoch reward_pool node_share nodes
        (mkRewardShares (hp_add (total_reward_share acc) local_share)
           (<[node:=local_share]> (local_shares_map acc))
           (<[node:=node_info]> (node_info_map acc)))
  end.

Definition flk_reward (base_reward : Z) (local_shares_map : gmap NodeIndex Z)
    (r : NodeIndex * NodeInfo) : Exec unit :=
  let '(node, node_info) := r in
  local_share ← unwrap (local_shares_map !! node);
  let flk_rewards := hp_mul 18 base_reward local_share in
  mint_and_transfer_flk flk_rewards (node_owner node_info);;
  modify (λ s, set_current_epoch_served (delete node s.(current_epoch_served)) s).

Definition service_reward (reward_pool stable_pool flk_pool : Z) (service_id : ServiceId)
    : Exec unit :=
  s ← get;
  service ← unwrap (s.(services) !! service_id);
  let service_owner := service_owner service in
  let service_revenue := default 0 (s.(service_revenue) !! service_id) in
  revenue_proportion ← unwrap (hp_div 18 (convert_precision 6 18 service_revenue)
    (convert_precision 6 18 reward_pool));
  mint_and_transfer_stables (hp_mul 6 stable_pool (convert_precision 18 6 revenue_proportion))
    service_owner;;
  mint_and_transfer_flk (hp_mul 18 flk_pool (convert_precision 18 18 revenue_proportion))
    service_owner;;
  modify (λ s, set_service_revenue (delete service_id s.(State.service_revenue)) s).

Definition distribute_rewards : Exec unit :=
  s ← get;
  let epoch := get_epoch s in
  let reward_pool := reward_pool (default TotalServed_default (s.(total_served) !! epoch)) in
  if bool_decide (reward_pool = zero) then mret tt
  else
    node_share ← unwrap (node_share_of s);
    emissions ← calculate_emissions;
    let emissions_for_node := hp_mul 18 emissions node_share in
    shares ← stable_rewards epoch reward_pool node_share (keys s.(current_epoch_served))
      (mkRewardShares (hp_from_uint 18 0) ∅ ∅);
    base_reward ← unwrap (hp_div 18 emissions_for_node (total_reward_share shares));
    for_each (flk_reward base_reward (local_shares_map shares)) (table_rows (node_info_map shares));;
    s ← get;
    service_share ← unwrap (service_share_of s);
    let services_stable_reward_pool := hp_mul 6 reward_pool (convert_precision 18 6 service_share) in
    let services_flk_reward_pool := hp_mul 18 emissions service_share in
    for_each (service_reward reward_pool services_stable_reward_pool services_flk_reward_pool)
      (keys s.(service_revenue));;
    s ← get;
    protocol_share ← unwrap (protocol_share_of s);
    match s.(metadata) !! Metadata.ProtocolFundAddress with
    | Some (Value.AccountPublicKey protocol_owner) =>
        mint_and_transfer_stables (hp_mul 6 reward_pool (convert_precision 18 6 protocol_share))
          protocol_owner;;
        mint_and_transfer_flk (hp_mul 18 emissions protocol_share) protocol_owner
    | _ => panic
    end.

(** *** The next committee *)

(** The reveals in ascending order of node index. *)
Definition sorted_reveals (beacons : gmap NodeIndex BeaconEntry)
    : list CommitteeSelectionBeaconReveal :=
  (merge_sort row_le (omap (λ '(node_index, (commit, reveal)),
     (λ r, (node_index, r)) <$> reveal) (table_rows beacons))).*2.

Definition choose_new_committee (beacons : gmap NodeIndex BeaconEntry) : Exec Committee :=
  s ← get;
  let epoch := get_epoch s in
  committee_size ← get_committee_size;
  let node_registry := filter (λ r, participation r.2 = Participation.True)
    (btree_rows (get_node_registry s)) in
  winners ← unwrap (settle_auction s node_registry);
  let active_nodes := winners.*1 in
  let '(active_nodes, committee) :=
    if bool_decide (Z.of_nat (length active_nodes) ≤ committee_size)
    then (active_nodes, active_nodes)
    else
      let combined_reveals_hash := sha3_words (sorted_reveals beacons) in
      let active_nodes := shuffle combined_reveals_hash active_nodes in
      (active_nodes, take (Z.to_nat committee_size) active_nodes) in
  epoch_time ← get_epoch_time;
  current ← unwrap (s.(committee_info) !! epoch);
  let epoch_end_timestamp := epoch_end_timestamp current +[64] epoch_time in
  commit_phase_duration ← get_commit_phase_duration;
  reveal_phase_duration ← get_reveal_phase_duration;
  let epoch_transition_timestamp :=
    (epoch_end_timestamp -[64] commit_phase_duration) -[64] reveal_phase_duration in
  total_intervals ← get_total_intervals;
  if bool_decide (total_intervals = 0) then panic
  else
    metadata_set Metadata.TimeInterval (Value.TimeInterval (epoch_time / total_intervals));;
    mret (mkCommittee committee [] [] [] epoch_end_timestamp epoch_transition_timestamp
            active_nodes ∅).

Definition execute_epoch_change (epoch : Epoch) (current_committee : Committee)
    (beacons : gmap NodeIndex BeaconEntry) : Exec unit :=
  executor_calculate_reputation_scores;;
  distribute_rewards;;
  clean_up_content_registry;;
  modify (set_executed_digests ∅);;
  committee_info_set epoch current_committee;;
  new_committee ← choose_new_committee beacons;
  let epoch := epoch +[64] 1 in
  committee_info_set epoch new_committee;;
  reassign_jobs;;
  metadata_set Metadata.Epoch (Value.Epoch epoch);;
  metadata_set Metadata.EpochEra (Value.EpochEra 0).
End Epoch.

(** ** The boost factor *)

Section boost.
Context {R : Ruint} {L : RuintLaws R}.

Lemma get_boost_eq s locked_until epoch v t :
  s.(parameters) !! ProtocolParamKey.MaxBoost = Some (ProtocolParamValue.MaxBoost v) →
  s.(parameters) !! ProtocolParamKey.MaxStakeLockTime
    = Some (ProtocolParamValue.MaxStakeLockTime t) →
  1 ≤ v < 2 ^ 16 → 0 < t < 2 ^ 64 → in_width 64 locked_until → in_width 64 epoch →
  get_boost s locked_until epoch
  = Some (Z.min (v * 1000)
            (1000 + (v - 1) * (Z.max 0 (locked_until - epoch) * 1000 / t))).
Proof.
  intros Hv Ht Hvr Htr [Hl Hl'] [He He']. unfold get_boost. rewrite Hv, Ht.
  unfold saturating_sub. set (period := Z.max 0 (locked_until - epoch)).
  assert (0 ≤ period < 2 ^ 64) by (unfold period; lia).
  rewrite !hp_from_uint_exact by (unfold in_width; lia).
  rewrite hp_div_eq by (unfold in_width; lia). cbn [mbind option_bind].
  assert (period * 10 ^ 3 * 10 ^ 3 / (t * 10 ^ 3) = period * 1000 / t) as ->
    by (rewrite Z.div_mul_cancel_r; [done|lia|lia]).
  assert (0 ≤ period * 1000 / t ≤ period * 1000) as Hq.
  { split; [apply Z.div_pos; lia|]. apply Z.div_le_upper_bound; nia. }
  set (q := period * 1000 / t) in *.
  rewrite hp_sub_exact by (unfold in_width; lia).
  rewrite hp_mul_exact by (unfold in_width; nia).
  replace ((v * 10 ^ 3 - 1 * 10 ^ 3) * q / 10 ^ 3) with ((v - 1) * q)
    by (rewrite <-(Z.div_mul ((v - 1) * q) (10 ^ 3)) by lia; f_equal; lia).
  rewrite hp_add_exact by (unfold in_width; nia).
  unfold hp_min. case_bool_decide; f_equal; lia.
Qed.

(** For a maximum boost of at least one, the boost factor of any node is
    between one and the maximum (in thousandths). *)
Theorem get_boost_range s locked_until epoch v t :
  s.(parameters) !! ProtocolParamKey.MaxBoost = Some (ProtocolParamValue.MaxBoost v) →
  s.(parameters) !! ProtocolParamKey.MaxStakeLockTime
    = Some (ProtocolParamValue.MaxStakeLockTime t) →
  1 ≤ v < 2 ^ 16 → 0 < t < 2 ^ 64 → in_width 64 locked_until → in_width 64 epoch →
  ∃ b, get_boost s locked_until epoch = Some b ∧ 1000 ≤ b ≤ v * 1000 ∧
    (locked_until ≤ epoch → b = 1000).
Proof.
  intros Hv Ht Hvr Htr Hl He. rewrite (get_boost_eq s locked_until epoch v t) by done.
  eexists. split; [done|].
  assert (0 ≤ Z.max 0 (locked_until - epoch) * 1000 / t) by (apply Z.div_pos; lia).
  split; [nia|]. intros Hle. rewrite Z.max_l by lia. rewrite Z.mul_0_l, Z.div_0_l by lia. lia.
Qed.
End boost.

(** ** The next committee *)

Section committee.
Context {R : Ruint} {B : Bigint} {H : Host} {HL : HostLaws H}.

(** The parameters [choose_new_committee] reads, as the genesis sets them. *)
Record committee_params (s : StateExecutor) (size count time commit reveal intervals : Z) : Prop := {
  cp_size : s.(parameters) !! ProtocolParamKey.CommitteeSize
    = Some (ProtocolParamValue.CommitteeSize size);
  cp_count : s.(parameters) !! ProtocolParamKey.NodeCount
    = Some (ProtocolParamValue.NodeCount count);
  cp_time : s.(parameters) !! ProtocolParamKey.EpochTime
    = Some (ProtocolParamValue.EpochTime time);
  cp_commit : s.(parameters) !! ProtocolParamKey.CommitteeSelectionBeaconCommitPhaseDuration
    = Some (ProtocolParamValue.CommitteeSelectionBeaconCommitPhaseDuration commit);
  cp_reveal : s.(parameters) !! ProtocolParamKey.CommitteeSelectionBeaconRevealPhaseDuration
    = Some (ProtocolParamValue.CommitteeSelectionBeaconRevealPhaseDuration reveal);
  cp_intervals : s.(parameters) !! ProtocolParamKey.TotalTimeIntervals
    = Some (ProtocolParamValue.TotalTimeIntervals intervals);
  cp_intervals_pos : intervals ≠ 0
}.

(** The candidates of the auction. *)
Definition candidates (s : StateExecutor) : list AuctionNode :=
  filter (λ r, participation r.2 = Participation.True) (btree_rows (get_node_registry s)).

Lemma candidates_indices s : (candidates s).*1 ≡ₚ participating_nodes s.
Proof. unfold candidates, participating_nodes. by rewrite merge_sort_Permutation. Qed.

(** The committee and the active set of the next epoch. *)
Record next_committee (s : StateExecutor) (size count : Z) (c : Committee) : Prop := {
  nc_active : c.(active_node_set) ⊆+ participating_nodes s;
  nc_active_size : length c.(active_node_set)
    = Nat.min (Z.to_nat count) (length (participating_nodes s));
  nc_members : c.(members) = take (Z.to_nat size) c.(active_node_set);
  nc_members_NoDup : NoDup c.(active_node_set);
  nc_signals : c.(ready_to_change) = [] ∧ c.(signalled_commit_phase_timeout) = [] ∧
    c.(signalled_reveal_phase_timeout) = []
}.

Lemma choose_new_committee_run beacons s size count time commit reveal intervals current :
  committee_params s size count time commit reveal intervals →
  s.(committee_info) !! get_epoch s = Some current →
  ∃ c, choose_new_committee beacons s = Some (c,
      set_metadata (<[Metadata.TimeInterval:=Value.TimeInterval (time / intervals)]> s.(metadata)) s) ∧
    next_committee s size count c ∧
    c.(epoch_end_timestamp) = current.(epoch_end_timestamp) +[64] time ∧
    c.(epoch_transition_timestamp)
      = (c.(epoch_end_timestamp) -[64] commit) -[64] reveal.
Proof.
  intros [Hsz Hct Htm Hco Hre Hin Hpos] Hcur.
  unfold choose_new_committee, get_committee_size, get_epoch_time, get_commit_phase_duration,
    get_reveal_phase_duration, get_total_intervals. unfold_M. rewrite Hsz.
  fold (candidates s).
  destruct (settle_auction_result s (candidates s) count Hct) as (rej & out & -> & Hp & Hl & _).
  assert (rej.*1 ++ out.*1 ≡ₚ participating_nodes s) as Hperm
    by (rewrite <-candidates_indices, Hp, fmap_app; done).
  set (active := if bool_decide (Z.of_nat (length out.*1) ≤ size) then out.*1
                 else shuffle (sha3_words (sorted_reveals beacons)) out.*1).
  assert (active ≡ₚ out.*1) as Hact.
  { unfold active. case_bool_decide; [done|apply shuffle_permutation]. }
  assert (length active = Nat.min (Z.to_nat count) (length (participating_nodes s))) as Hlen.
  { etrans; [rewrite Hact; apply (length_fmap fst out)|]. etrans; [exact Hl|].
    f_equal. rewrite <-candidates_indices. symmetry. apply length_fmap. }
  assert (NoDup active) as Hnd.
  { rewrite Hact. pose proof (NoDup_participating_nodes s) as Hn. rewrite <-Hperm in Hn.
    by apply NoDup_app in Hn as (_ & _ & ?). }
  assert (active ⊆+ participating_nodes s) as Hsub.
  { rewrite Hact, <-Hperm. apply submseteq_inserts_l. done. }
  assert ((if bool_decide (Z.of_nat (length out.*1) ≤ size) then (out.*1, out.*1)
    else (shuffle (sha3_words (sorted_reveals beacons)) out.*1,
          take (Z.to_nat size) (shuffle (sha3_words (sorted_reveals beacons)) out.*1)))
    = (active, take (Z.to_nat size) active)) as Heq.
  { unfold active. case_bool_decide; [|done]. f_equal. rewrite take_ge; [done|lia]. }
  rewrite Heq. cbv beta iota. rewrite Htm. cbv beta iota. rewrite Hcur. cbv beta iota.
  rewrite Hco. cbv beta iota. rewrite Hre. cbv beta iota. rewrite Hin. cbv beta iota.
  rewrite (bool_decide_eq_false_2 (intervals = 0)) by done.
  unfold metadata_set. unfold_M. eexists. split_and!; [done| |done|done].
  by split.
Qed.
End committee.
