(* ===== verification/Rewards.v ===== *)
(** * Rewards: what an epoch mints

    [distribute_rewards] of [epoch_change.rs] pays the nodes, the service
    builders and the protocol out of the emissions of the epoch.  All amounts
    are truncated fixed-point numbers.  This file proves that the distribution
    does not abort on a well-formed state ([rewards_ok]), that the credited FLK
    and the recorded total supply grow by the same amount, and that this amount
    is at most the part of the emissions of [calculate_emissions] that the three
    shares make up. *)

From S2P Require Import Prelude HpFixed HpSigned Types State Ledger Accounts Nodes.
From S2P Require Import Content Auction Jobs Reputation Measurements Epoch.
From stdpp Require Import base gmap list sorting.
From Stdlib Require Import ZArith Lia.
Open Scope Z_scope.

(** ** Paying FLK *)

(** [s'] is [s] after [a] FLK were minted into accounts (and any stables). *)
Record paid (s s' : StateExecutor) (a : Z) : Prop := {
  paid_total : flk_total s' = flk_total s + a;
  paid_ok : ledger_ok s';
  paid_supply T :
    s.(metadata) !! Metadata.TotalSupply = Some (Value.HpUfixed T) →
    s'.(metadata) !! Metadata.TotalSupply = Some (Value.HpUfixed (T + a));
  paid_meta k :
    k ≠ Metadata.TotalSupply → k ≠ Metadata.SupplyYearStart →
    s'.(metadata) !! k = s.(metadata) !! k;
  paid_frame :
    s' = set_service_revenue s'.(service_revenue)
           (set_current_epoch_served s'.(current_epoch_served)
             (set_metadata s'.(metadata) (set_account_info s'.(account_info) s)))
}.

Lemma paid_refl s : ledger_ok s → paid s s 0.
Proof.
  intros Hok. split; [lia|done| |done|by destruct s].
  intros T. by rewrite Z.add_0_r.
Qed.

Lemma paid_trans s1 s2 s3 a b : paid s1 s2 a → paid s2 s3 b → paid s1 s3 (a + b).
Proof.
  intros [Ht1 Ho1 Hs1 Hm1 Hf1] [Ht2 Ho2 Hs2 Hm2 Hf2]. split.
  - lia.
  - done.
  - intros T HT. rewrite Z.add_assoc. by apply Hs2, Hs1.
  - intros k ??. rewrite Hm2 by done. by apply Hm1.
  - rewrite Hf2, Hf1. by state_simpl.
Qed.

Lemma paid_tables s s' a :
  paid s s' a →
  s'.(parameters) = s.(parameters) ∧ s'.(node_info) = s.(node_info) ∧
  s'.(services) = s.(services) ∧ s'.(total_served) = s.(total_served).
Proof. intros [_ _ _ _ ->]. by state_simpl. Qed.

Lemma paid_epoch s s' a : paid s s' a → get_epoch s' = get_epoch s.
Proof. intros [_ _ _ Hm _]. unfold get_epoch. by rewrite Hm. Qed.

(** Changing the two revenue tables is no payment. *)
Lemma paid_revenue s s' a x y :
  paid s s' a → paid s (set_current_epoch_served x (set_service_revenue y s')) a.
Proof.
  intros [Ht Ho Hs Hm Hf].
  destruct (ledger_frame s' (set_current_epoch_served x (set_service_revenue y s')))
    as [Hft Hfo]; [done..|].
  split; [by rewrite Hft|by apply Hfo|done|done|]. rewrite Hf. by state_simpl.
Qed.

(** What minting needs besides the ledger. *)
Record mint_env (s : StateExecutor) (T y : Z) : Prop := {
  env_supply : s.(metadata) !! Metadata.TotalSupply = Some (Value.HpUfixed T);
  env_years : s.(parameters) !! ProtocolParamKey.EpochsPerYear
    = Some (ProtocolParamValue.EpochsPerYear y);
  env_years_pos : y ≠ 0;
  env_supply_pos : 0 ≤ T
}.

Lemma mint_env_paid s s' T y a :
  mint_env s T y → 0 ≤ a → paid s s' a → mint_env s' (T + a) y.
Proof.
  intros [Hs Hy Hp HT] Ha Hpaid. destruct (paid_tables _ _ _ Hpaid) as [Hpar _].
  split; [by apply (paid_supply _ _ _ Hpaid)|by rewrite Hpar|done|lia].
Qed.

Section mint.
Context {R : Ruint} {L : RuintLaws R}.

Lemma mint_stables_run amount owner s :
  ledger_ok s →
  ∃ s', mint_and_transfer_stables amount owner s = Some (tt, s') ∧ paid s s' 0 ∧
    s'.(current_epoch_served) = s.(current_epoch_served) ∧
    s'.(service_revenue) = s.(service_revenue).
Proof.
  intros Hok. unfold mint_and_transfer_stables, account_info_set. unfold_M.
  eexists. split; [done|]. set (a := with_stables_balance _ _). set (s' := set_account_info _ s).
  destruct (ledger_account_effect s s' owner a) as [Ht Hl]; [done..|].
  pose proof (account_flk_bounds s Hok owner) as Hb. pose proof (ledger_fits s Hok) as Hfit.
  assert (flk_balance a = flk_balance (account_or_default s owner)) as Ha by done.
  split; [|done]. split; [lia|apply Hl; [done|lia|lia]| |done|by destruct s].
  intros T. by rewrite Z.add_0_r.
Qed.

Lemma mint_flk_run amount owner s T y :
  ledger_ok s → mint_env s T y → 0 ≤ amount → flk_total s + amount < 2 ^ 256 →
  T + amount < 2 ^ 256 →
  ∃ s', mint_and_transfer_flk amount owner s = Some (tt, s') ∧ paid s s' amount ∧
    s'.(current_epoch_served) = s.(current_epoch_served) ∧
    s'.(service_revenue) = s.(service_revenue).
Proof.
  intros Hok [HT Hy Hyp HTp] Ha Hfit HTfit.
  unfold mint_and_transfer_flk, account_info_set, get_epochs_per_year, metadata_set. unfold_M.
  state_simpl. rewrite HT. cbv beta iota. state_simpl. rewrite Hy. cbv beta iota.
  rewrite (bool_decide_eq_false_2 (y = 0)) by done.
  pose proof (account_flk_bounds s Hok owner) as Hb.
  pose proof (flk_nodes_nonneg s Hok). unfold flk_total in Hfit.
  assert (add_assign (flk_balance (account_or_default s owner)) amount
    = flk_balance (account_or_default s owner) + amount) as ->
    by (apply hp_add_exact; unfold in_width; lia).
  assert (add_assign T amount = T + amount) as -> by (apply hp_add_exact; unfold in_width; lia).
  set (acc := with_flk_balance _ _).
  assert (∀ s', s'.(account_info) = <[owner:=acc]> s.(account_info) →
    s'.(node_info) = s.(node_info) → flk_total s' = flk_total s + amount ∧ ledger_ok s') as Hledger.
  { intros s' Hacc Hn. destruct (ledger_account_effect s s' owner acc Hacc Hn) as [Ht Hl].
    assert (flk_balance acc = flk_balance (account_or_default s owner) + amount) as Hbal by done.
    rewrite Hbal in *. unfold flk_total in *.
    split; [lia|]. apply Hl; [done|lia|lia]. }
  destruct (bool_decide (_ mod y = 0)); eexists; (split; [done|]); split; try done.
  all: match goal with |- paid _ ?s' _ => destruct (Hledger s') as [Ht' Ho']; [done..|] end.
  all: split; [done|done| | |done].
  - intros T'. rewrite HT. intros [= <-]. state_simpl.
    rewrite lookup_insert_ne, lookup_insert_eq by done. done.
  - intros k ??. state_simpl. by rewrite !lookup_insert_ne by done.
  - intros T'. rewrite HT. intros [= <-]. state_simpl. by rewrite lookup_insert_eq.
  - intros k ??. state_simpl. by rewrite !lookup_insert_ne by done.
Qed.
End mint.

(** ** The stables of the nodes *)

Section nodes.
Context {R : Ruint} {L : RuintLaws R}.

Definition revenue (s : StateExecutor) (n : NodeIndex) : Z :=
  stables_revenue (default NodeServed_default (s.(current_epoch_served) !! n)).

Definition boost (s : StateExecutor) (epoch : Z) (n : NodeIndex) : Z :=
  default 0 (info ← s.(node_info) !! n;
             get_boost s (stake_locked_until (node_stake info)) epoch).

(** The boosted share of a node in the revenue of the epoch. *)
Definition share (s : StateExecutor) (epoch pool : Z) (n : NodeIndex) : Z :=
  revenue s n * 10 ^ 18 / pool * (boost s epoch n * 10 ^ 15) / 10 ^ 18.

(** The boosts of a node are in range: [get_boost] returns between one and
    the largest [u16]. *)
Definition boosts_ok (s : StateExecutor) (epoch : Z) (nodes : list NodeIndex) : Prop :=
  ∀ n, n ∈ nodes → ∃ info b, s.(node_info) !! n = Some info ∧
    get_boost s (stake_locked_until (node_stake info)) epoch = Some b ∧ 1000 ≤ b ≤ 65535000.

Lemma share_range s epoch pool n nodes :
  boosts_ok s epoch nodes → n ∈ nodes → 0 < pool → 0 ≤ revenue s n ≤ pool →
  0 ≤ revenue s n * 10 ^ 18 / pool ≤ 10 ^ 18 ∧
  revenue s n * 10 ^ 18 / pool ≤ share s epoch pool n ≤ 65535 * 10 ^ 18.
Proof.
  intros Hb Hn Hp Hr. destruct (Hb n Hn) as (info & b & Hi & Hg & Hbr).
  unfold share, boost. rewrite Hi. cbn [mbind option_bind]. rewrite Hg. cbn [default from_option].
  assert (0 ≤ revenue s n * 10 ^ 18 / pool ≤ 10 ^ 18) as Hq.
  { split; [apply Z.div_pos; lia|]. apply Z.div_le_upper_bound; nia. }
  simpl. set (q := revenue s n * 10 ^ 18 / pool) in *. split; [done|]. split.
  - apply Z.div_le_lower_bound; nia.
  - apply Z.div_le_upper_bound; nia.
Qed.

Lemma get_boost_frame s s' l e :
  s'.(parameters) = s.(parameters) → get_boost s' l e = get_boost s l e.
Proof. intros Hp. unfold get_boost. by rewrite Hp. Qed.

(** The invariant of the loop: what it collected for [nodes]. *)
Record collected (s : StateExecutor) (epoch pool : Z) (nodes : list NodeIndex)
    (acc acc' : RewardShares) : Prop := {
  collected_total :
    total_reward_share acc' = total_reward_share acc + zsum (share s epoch pool) nodes;
  collected_shares n : local_shares_map acc' !! n
    = if decide (n ∈ nodes) then Some (share s epoch pool n) else local_shares_map acc !! n;
  collected_infos n : node_info_map acc' !! n
    = if decide (n ∈ nodes) then s.(node_info) !! n else node_info_map acc !! n
}.

Lemma share_step s epoch pool node info b :
  s.(node_info) !! node = Some info →
  get_boost s (stake_locked_until (node_stake info)) epoch = Some b → 1000 ≤ b ≤ 65535000 →
  0 < pool < 2 ^ 100 → 0 ≤ revenue s node ≤ pool →
  hp_div 18 (convert_precision 6 18 (revenue s node)) (convert_precision 6 18 pool)
    = Some (revenue s node * 10 ^ 18 / pool) ∧
  hp_mul 18 (revenue s node * 10 ^ 18 / pool) (convert_precision 3 18 b) = share s epoch pool node.
Proof.
  intros Hi Hg Hb Hp Hr.
  assert (0 ≤ revenue s node * 10 ^ 18 / pool ≤ 10 ^ 18) as Hq.
  { split; [apply Z.div_pos; lia|]. apply Z.div_le_upper_bound; nia. }
  rewrite !convert_up by (unfold in_width; lia).
  change (10 ^ (18 - 6)) with (10 ^ 12). change (10 ^ (18 - 3)) with (10 ^ 15). split.
  - rewrite hp_div_eq by (unfold in_width; lia). f_equal.
    replace (revenue s node * 10 ^ 12 * 10 ^ 18) with (revenue s node * 10 ^ 18 * 10 ^ 12) by lia.
    apply Z.div_mul_cancel_r; lia.
  - unfold share, boost. rewrite Hi. cbn [mbind option_bind]. rewrite Hg. simpl.
    rewrite hp_mul_exact by (unfold in_width; nia). done.
Qed.
End nodes.

Section stable_loop.
Context {R : Ruint} {L : RuintLaws R} (s : StateExecutor) (epoch pool ns : Z)
        (Hpool : 0 < pool < 2 ^ 100).

Lemma stable_rewards_run nodes acc t :
  NoDup nodes → boosts_ok s epoch nodes → (∀ n, n ∈ nodes → 0 ≤ revenue s n ≤ pool) →
  0 ≤ total_reward_share acc →
  total_reward_share acc + Z.of_nat (length nodes) * (65535 * 10 ^ 18) < 2 ^ 256 →
  paid s t 0 → t.(current_epoch_served) = s.(current_epoch_served) →
  t.(service_revenue) = s.(service_revenue) →
  ∃ acc' t', stable_rewards epoch pool ns nodes acc t = Some (acc', t') ∧
    paid s t' 0 ∧ t'.(current_epoch_served) = s.(current_epoch_served) ∧
    t'.(service_revenue) = s.(service_revenue) ∧ collected s epoch pool nodes acc acc'.
Proof.
  revert acc t. induction nodes as [|n nodes IH]; intros acc t Hnd Hb Hr Hacc Hfit Hpaid Hserved Hsrv.
  { exists acc, t. split_and!; try done. split; [simpl; lia|..];
      intros m; by rewrite decide_False by apply not_elem_of_nil. }
  apply list.NoDup_cons in Hnd as [Hn Hnd].
  destruct (Hb n ltac:(by left)) as (info & b & Hi & Hg & Hbr).
  specialize (Hr n ltac:(by left)) as Hrn.
  destruct (share_step s epoch pool n info b Hi Hg Hbr Hpool Hrn) as [Hdiv Hmul].
  destruct (share_range s epoch pool n (n :: nodes) Hb ltac:(by left) ltac:(lia) Hrn) as [Hq Hsh].
  destruct (paid_tables _ _ _ Hpaid) as (Hpar & Hni & _ & _).
  cbn [stable_rewards]. unfold_M. rewrite Hni, Hi. cbv beta iota.
  rewrite Hserved. fold (revenue s n). rewrite Hdiv. cbv beta iota.
  destruct (mint_stables_run (hp_mul 6 (revenue s n) (convert_precision 18 6 ns))
    (node_owner info) t (paid_ok _ _ _ Hpaid)) as (t1 & -> & Hp1 & Hs1 & Hv1).
  destruct (paid_tables _ _ _ Hp1) as (Hpar1 & _ & _ & _).
  rewrite (get_boost_frame s t1) by congruence. rewrite Hg. cbv beta iota. rewrite Hmul.
  simpl in Hfit.
  rewrite (hp_add_exact (total_reward_share acc)) by (unfold in_width; lia).
  edestruct (IH (mkRewardShares (total_reward_share acc + share s epoch pool n)
      (<[n:=share s epoch pool n]> (local_shares_map acc)) (<[n:=info]> (node_info_map acc))) t1)
    as (acc' & t' & -> & Hp' & Hs' & Hv' & [Ht Hl Hm]);
    [done|intros m Hm; apply Hb; by right|intros m Hm; apply Hr; by right|simpl; lia|simpl; lia
    |by apply (paid_trans _ _ _ 0 0 Hpaid)|congruence|congruence|].
  exists acc', t'. split_and!; try done. simpl in *. split.
  - simpl. lia.
  - intros m. rewrite Hl. simpl. destruct (decide (m = n)) as [->|Hne].
    + by rewrite (decide_False (P:=n ∈ nodes)), decide_True, lookup_insert_eq by (done || by left).
    + rewrite lookup_insert_ne by done.
      by rewrite (decide_ext (m ∈ n :: nodes) (m ∈ nodes)) by (rewrite list.elem_of_cons; tauto).
  - intros m. rewrite Hm. simpl. destruct (decide (m = n)) as [->|Hne].
    + by rewrite (decide_False (P:=n ∈ nodes)), decide_True, lookup_insert_eq by (done || by left).
    + rewrite lookup_insert_ne by done.
      by rewrite (decide_ext (m ∈ n :: nodes) (m ∈ nodes)) by (rewrite list.elem_of_cons; tauto).
Qed.
End stable_loop.

(** ** The FLK of the nodes and of the service builders *)

Section flk_loops.
Context {R : Ruint} {L : RuintLaws R}.

Lemma flk_rewards_run base shares sh rows t T y :
  ledger_ok t → mint_env t T y → 0 ≤ base →
  (∀ r, r ∈ rows → shares !! r.1 = Some (sh r.1) ∧ 0 ≤ sh r.1 ∧ base * sh r.1 < 2 ^ 256) →
  let minted := zsum (λ r, base * sh r.1 / 10 ^ 18) rows in
  flk_total t + minted < 2 ^ 256 → T + minted < 2 ^ 256 →
  ∃ t', for_each (flk_reward base shares) rows t = Some (tt, t') ∧ paid t t' minted ∧
    t'.(current_epoch_served) = foldl (λ m k, delete k m) t.(current_epoch_served) rows.*1 ∧
    t'.(service_revenue) = t.(service_revenue).
Proof.
  intros Hok Henv Hbase. revert t T Hok Henv.
  induction rows as [|[n info] rows IH]; intros t T Hok Henv Hrows minted Hfit HT.
  { exists t. split_and!; [done|by apply paid_refl|done|done]. }
  destruct (Hrows (n, info) ltac:(by left)) as (Hsh & Hpos & Hlt). simpl in Hsh, Hpos, Hlt.
  assert (∀ r, r ∈ rows → 0 ≤ base * sh r.1 / 10 ^ 18) as Hnn.
  { intros r Hr. destruct (Hrows r ltac:(by right)) as (_ & ? & _). apply Z.div_pos; nia. }
  pose proof (zsum_nonneg _ rows Hnn) as Hsum. unfold minted in *. simpl in Hfit, HT.
  assert (0 ≤ base * sh n / 10 ^ 18) by (apply Z.div_pos; nia).
  fold (zsum (λ r : NodeIndex * NodeInfo, base * sh r.1 / 10 ^ 18) rows) in Hfit, HT.
  destruct (mint_flk_run (base * sh n / 10 ^ 18) (node_owner info) t T y Hok Henv)
    as (t1 & Ht1 & Hp1 & Hs1 & Hv1); [done|lia|lia|].
  set (t2 := set_current_epoch_served (delete n t1.(current_epoch_served)) t1).
  assert (flk_reward base shares (n, info) t = Some (tt, t2)) as Hstep.
  { unfold flk_reward. unfold_M. rewrite Hsh. cbv beta iota.
    rewrite (hp_mul_exact 18 base (sh n)) by (unfold in_width; nia). by rewrite Ht1. }
  cbn [for_each]. unfold_M. rewrite Hstep.
  assert (paid t t2 (base * sh n / 10 ^ 18)) as Hp2.
  { pose proof (paid_revenue t t1 _ (delete n t1.(current_epoch_served)) t1.(service_revenue) Hp1) as Hx.
    unfold t2. by destruct t1. }
  destruct (IH t2 (T + base * sh n / 10 ^ 18)) as (t' & -> & Hp' & Hs' & Hv');
    [apply Hp2|by eapply mint_env_paid|intros r Hr; apply Hrows; by right
    |rewrite (paid_total _ _ _ Hp2); lia|lia|].
  exists t'. split_and!; [done| | |].
  - simpl. by apply (paid_trans t t2 t').
  - rewrite Hs'. unfold t2. state_simpl. by rewrite Hs1.
  - rewrite Hv'. unfold t2. by state_simpl.
Qed.

Definition service_proportion (s : StateExecutor) (pool : Z) (i : ServiceId) : Z :=
  default 0 (s.(service_revenue) !! i) * 10 ^ 18 / pool.

Lemma service_div s pool i :
  0 < pool < 2 ^ 100 → 0 ≤ default 0 (s.(service_revenue) !! i) ≤ pool →
  hp_div 18 (convert_precision 6 18 (default 0 (s.(service_revenue) !! i)))
    (convert_precision 6 18 pool) = Some (service_proportion s pool i).
Proof.
  intros Hp Hr. rewrite !(convert_up 6 18) by (unfold in_width; lia).
  change (10 ^ (18 - 6)) with (10 ^ 12). rewrite hp_div_eq by (unfold in_width; lia).
  f_equal. unfold service_proportion.
  replace (default 0 (s.(service_revenue) !! i) * 10 ^ 12 * 10 ^ 18)
    with (default 0 (s.(service_revenue) !! i) * 10 ^ 18 * 10 ^ 12) by lia.
  apply Z.div_mul_cancel_r; lia.
Qed.

Lemma service_rewards_run s pool stable_pool flk_pool ids t T y :
  NoDup ids → ledger_ok t → mint_env t T y → 0 < pool < 2 ^ 100 → 0 ≤ flk_pool < 2 ^ 180 →
  (∀ i, i ∈ ids → is_Some (t.(services) !! i) ∧
    t.(service_revenue) !! i = s.(service_revenue) !! i ∧
    0 ≤ default 0 (s.(service_revenue) !! i) ≤ pool) →
  let minted := zsum (λ i, flk_pool * service_proportion s pool i / 10 ^ 18) ids in
  flk_total t + minted < 2 ^ 256 → T + minted < 2 ^ 256 →
  ∃ t', for_each (service_reward pool stable_pool flk_pool) ids t = Some (tt, t') ∧
    paid t t' minted ∧ t'.(current_epoch_served) = t.(current_epoch_served).
Proof.
  intros Hnd Hok Henv Hpool Hflk. revert t T Hok Henv.
  induction ids as [|i ids IH]; intros t T Hok Henv Hids minted Hfit HT.
  { exists t. split_and!; [done|by apply paid_refl|done]. }
  apply list.NoDup_cons in Hnd as [Hi Hnd].
  destruct (Hids i ltac:(by left)) as ([sv Hsv] & Hrev & Hr).
  assert (∀ j, j ∈ i :: ids → 0 ≤ service_proportion s pool j ≤ 10 ^ 18) as Hprop.
  { intros j Hj. destruct (Hids j Hj) as (_ & _ & ?). unfold service_proportion.
    split; [apply Z.div_pos; lia|]. apply Z.div_le_upper_bound; nia. }
  specialize (Hprop i ltac:(by left)) as Hpi.
  assert (∀ j, j ∈ ids → 0 ≤ flk_pool * service_proportion s pool j / 10 ^ 18) as Hnn.
  { intros j Hj. specialize (Hprop j ltac:(by right)). apply Z.div_pos; nia. }
  pose proof (zsum_nonneg _ ids Hnn) as Hsum. unfold minted in *. simpl in Hfit, HT.
  fold (zsum (λ i, flk_pool * service_proportion s pool i / 10 ^ 18) ids) in Hfit, HT.
  destruct (mint_stables_run (hp_mul 6 stable_pool (convert_precision 18 6 (service_proportion s pool i)))
    (service_owner sv) t Hok) as (t1 & Ht1 & Hp1 & Hs1 & Hv1).
  assert (0 ≤ flk_pool * service_proportion s pool i / 10 ^ 18) by (apply Z.div_pos; nia).
  destruct (mint_flk_run (flk_pool * service_proportion s pool i / 10 ^ 18) (service_owner sv) t1 T y)
    as (t2 & Ht2 & Hp2 & Hs2 & Hv2);
    [apply Hp1|rewrite <-(Z.add_0_r T); by eapply mint_env_paid|done
    |rewrite (paid_total _ _ _ Hp1); lia|lia|].
  pose proof (paid_trans _ _ _ _ _ Hp1 Hp2) as Hp12. rewrite Z.add_0_l in Hp12.
  set (t3 := set_service_revenue (delete i t2.(service_revenue)) t2).
  assert (service_reward pool stable_pool flk_pool i t = Some (tt, t3)) as Hstep.
  { unfold service_reward. unfold_M. rewrite Hsv. cbv beta iota. rewrite Hrev.
    rewrite (service_div s pool i) by done. cbv beta iota.
    rewrite (convert_up 18 18), Z.mul_1_r by (unfold in_width; lia).
    rewrite (hp_mul_exact 18 flk_pool) by (unfold in_width; nia).
    by rewrite Ht1, Ht2. }
  cbn [for_each]. unfold_M. rewrite Hstep.
  assert (paid t t3 (flk_pool * service_proportion s pool i / 10 ^ 18)) as Hp3.
  { pose proof (paid_revenue t t2 _ t2.(current_epoch_served) (delete i t2.(service_revenue)) Hp12) as Hx.
    unfold t3. by destruct t2. }
  destruct (IH Hnd t3 (T + flk_pool * service_proportion s pool i / 10 ^ 18))
    as (t' & -> & Hp' & Hs');
    [apply Hp3|by eapply mint_env_paid| |rewrite (paid_total _ _ _ Hp3); lia|lia|].
  { intros j Hj. destruct (Hids j ltac:(by right)) as (? & ? & ?).
    destruct (paid_tables _ _ _ Hp3) as (_ & _ & -> & _). split_and!; [done| |lia|lia].
    unfold t3. state_simpl. rewrite Hv2, Hv1, lookup_delete_ne; [done|]. by intros ->. }
  exists t'. split_and!; [done| |].
  - simpl. by apply (paid_trans t t3 t').
  - rewrite Hs'. unfold t3. state_simpl. by rewrite Hs2, Hs1.
Qed.
End flk_loops.

(** ** The whole distribution *)

(** The parameters and metadata the distribution reads. *)
Record RewardParams := mkRewardParams {
  rp_node_share : Z;
  rp_service_share : Z;
  rp_protocol_share : Z;
  rp_inflation : Z;
  rp_years : Z;
  rp_boost : Z;
  rp_lock : Z;
  rp_year_supply : Z;
  rp_supply : Z;
  rp_fund : EthAddress
}.

(** A state in which rewards can be distributed: the parameters are set, with at least
    one epoch per year, a boost and a lock time, no more than 2^128 of FLK and 2^100
    of stables are in play, every reported revenue belongs to a registered node and a
    known service, and the pool is the sum of the revenues. *)
Record rewards_ok (s : StateExecutor) (p : RewardParams) : Prop := {
  ro_node_share : s.(parameters) !! ProtocolParamKey.NodeShare
    = Some (ProtocolParamValue.NodeShare p.(rp_node_share));
  ro_service_share : s.(parameters) !! ProtocolParamKey.ServiceBuilderShare
    = Some (ProtocolParamValue.ServiceBuilderShare p.(rp_service_share));
  ro_protocol_share : s.(parameters) !! ProtocolParamKey.ProtocolShare
    = Some (ProtocolParamValue.ProtocolShare p.(rp_protocol_share));
  ro_inflation : s.(parameters) !! ProtocolParamKey.MaxInflation
    = Some (ProtocolParamValue.MaxInflation p.(rp_inflation));
  ro_years : s.(parameters) !! ProtocolParamKey.EpochsPerYear
    = Some (ProtocolParamValue.EpochsPerYear p.(rp_years));
  ro_boost : s.(parameters) !! ProtocolParamKey.MaxBoost
    = Some (ProtocolParamValue.MaxBoost p.(rp_boost));
  ro_lock : s.(parameters) !! ProtocolParamKey.MaxStakeLockTime
    = Some (ProtocolParamValue.MaxStakeLockTime p.(rp_lock));
  ro_year_supply : s.(metadata) !! Metadata.SupplyYearStart
    = Some (Value.HpUfixed p.(rp_year_supply));
  ro_supply : s.(metadata) !! Metadata.TotalSupply = Some (Value.HpUfixed p.(rp_supply));
  ro_fund : s.(metadata) !! Metadata.ProtocolFundAddress
    = Some (Value.AccountPublicKey p.(rp_fund));
  ro_shares : in_width 16 p.(rp_node_share) ∧ in_width 16 p.(rp_service_share) ∧ in_width 16 p.(rp_protocol_share);
  ro_ranges : 0 ≤ p.(rp_inflation) < 2 ^ 16 ∧ 0 < p.(rp_years) < 2 ^ 64 ∧
    1 ≤ p.(rp_boost) < 2 ^ 16 ∧ 0 < p.(rp_lock) < 2 ^ 64;
  ro_amounts : 0 ≤ p.(rp_year_supply) < 2 ^ 128 ∧ 0 ≤ p.(rp_supply) < 2 ^ 128 ∧
    flk_total s < 2 ^ 128;
  ro_epoch : in_width 64 (get_epoch s);
  ro_ledger : ledger_ok s;
  ro_served n x : s.(current_epoch_served) !! n = Some x →
    0 ≤ stables_revenue x ∧ ∃ info, s.(node_info) !! n = Some info ∧
      in_width 64 (stake_locked_until (node_stake info));
  ro_size : Z.of_nat (size s.(current_epoch_served)) ≤ 10 ^ 18;
  ro_pool : reward_pool (default TotalServed_default (s.(total_served) !! get_epoch s))
    = map_sum stables_revenue s.(current_epoch_served);
  ro_pool_max : map_sum stables_revenue s.(current_epoch_served) < 2 ^ 100;
  ro_services i r : s.(service_revenue) !! i = Some r → 0 ≤ r ∧ is_Some (s.(services) !! i);
  ro_service_sum : map_sum id s.(service_revenue)
    ≤ map_sum stables_revenue s.(current_epoch_served)
}.

(** The percentages of the emissions that are paid out; nothing keeps them at 100. *)
Definition total_shares (p : RewardParams) : Z :=
  p.(rp_node_share) + p.(rp_service_share) + p.(rp_protocol_share).

(** The emissions of an epoch: inflation of the year's supply, per epoch. *)
Definition emissions (p : RewardParams) : Z :=
  p.(rp_inflation) * p.(rp_year_supply) / 100 / p.(rp_years).

Section distribution.
Context {R : Ruint} {L : RuintLaws R} {H : Host} {HL : HostLaws H}.

Lemma percent_eq v : 0 ≤ v ≤ 2 ^ 16 → hp_div 18 (hp_from_uint 18 v) BIG_HUNDRED = Some (v * 10 ^ 16).
Proof.
  intros Hv. unfold BIG_HUNDRED. rewrite !hp_from_uint_exact by (unfold in_width; lia).
  rewrite hp_div_eq by (unfold in_width; lia). f_equal.
  rewrite <-(Z.div_mul (v * 10 ^ 16) (100 * 10 ^ 18)) by lia. f_equal. lia.
Qed.

Lemma emissions_range s p : rewards_ok s p → 0 ≤ emissions p < 2 ^ 144.
Proof.
  intros Hok. pose proof (ro_ranges s p Hok). pose proof (ro_amounts s p Hok). unfold emissions.
  assert (0 ≤ rp_inflation p * rp_year_supply p / 100) by (apply Z.div_pos; nia).
  split; [apply Z.div_pos; lia|]. apply Z.div_lt_upper_bound; [lia|].
  apply (Z.lt_le_trans _ (2 ^ 144)); [|nia]. apply Z.div_lt_upper_bound; nia.
Qed.

Lemma calculate_emissions_run s p :
  rewards_ok s p → calculate_emissions s = Some (emissions p, s).
Proof.
  intros Hok. pose proof (ro_ranges s p Hok) as Hr. pose proof (ro_amounts s p Hok) as Ha.
  unfold calculate_emissions, get_epochs_per_year. unfold_M.
  rewrite (ro_inflation s p Hok), (ro_years s p Hok). cbv beta iota.
  fold BIG_HUNDRED. rewrite percent_eq by lia. cbv beta iota.
  rewrite (ro_year_supply s p Hok). cbv beta iota.
  rewrite !(convert_up 18 18), !Z.mul_1_r by (unfold in_width; lia).
  rewrite hp_mul_exact by (unfold in_width; nia).
  replace (rp_inflation p * 10 ^ 16 * rp_year_supply p / 10 ^ 18)
    with (rp_inflation p * rp_year_supply p / 100).
  2: { replace (10 ^ 18) with (100 * 10 ^ 16) by lia.
       replace (rp_inflation p * 10 ^ 16 * rp_year_supply p)
         with (rp_inflation p * rp_year_supply p * 10 ^ 16) by lia.
       symmetry. apply Z.div_mul_cancel_r; lia. }
  assert (0 ≤ rp_inflation p * rp_year_supply p / 100 < 2 ^ 144)
    by (split; [apply Z.div_pos; nia|apply Z.div_lt_upper_bound; nia]).
  rewrite hp_from_uint_exact by (unfold in_width; lia).
  rewrite hp_div_eq by (unfold in_width; lia). unfold emissions.
  by rewrite Z.div_mul_cancel_r by lia.
Qed.

(** The part of the emissions a percentage stands for. *)
Lemma part_eq E v :
  0 ≤ E < 2 ^ 144 → in_width 16 v → hp_mul 18 E (v * 10 ^ 16) = E * v / 100 ∧ 0 ≤ E * v / 100.
Proof.
  intros HE Hv. unfold in_width in Hv. rewrite hp_mul_exact by (unfold in_width; nia). split.
  - replace (10 ^ 18) with (100 * 10 ^ 16) by lia.
    rewrite Z.mul_assoc. apply Z.div_mul_cancel_r; lia.
  - apply Z.div_pos; nia.
Qed.

Lemma revenue_sum s p :
  rewards_ok s p →
  zsum (revenue s) (keys s.(current_epoch_served)) = map_sum stables_revenue s.(current_epoch_served) ∧
  (∀ n, n ∈ keys s.(current_epoch_served) →
    0 ≤ revenue s n ≤ map_sum stables_revenue s.(current_epoch_served)).
Proof.
  intros Hok. split.
  - rewrite (map_sum_list stables_revenue _ (keys s.(current_epoch_served)));
      [|apply keys_NoDup|apply elem_of_keys].
    apply zsum_ext. intros n _. unfold revenue. by destruct (_ !! n).
  - intros n [x Hx]%elem_of_keys. unfold revenue. rewrite Hx. simpl.
    split; [by apply (ro_served s p Hok n x)|].
    apply (map_sum_lookup_le _ _ n); [|done]. intros k v Hk. by apply (ro_served s p Hok k v).
Qed.

Lemma boosts_of_ok s p :
  rewards_ok s p → boosts_ok s (get_epoch s) (keys s.(current_epoch_served)).
Proof.
  intros Hok n [x Hx]%elem_of_keys.
  destruct (ro_served s p Hok n x Hx) as (_ & info & Hi & Hl).
  pose proof (ro_ranges s p Hok) as Hr.
  pose proof (get_boost_eq s (stake_locked_until (node_stake info)) (get_epoch s)
    (rp_boost p) (rp_lock p) (ro_boost s p Hok) (ro_lock s p Hok)
    ltac:(lia) ltac:(lia) Hl (ro_epoch s p Hok)) as Hg.
  do 2 eexists. split_and!; [done|exact Hg|..];
    set (q := Z.max 0 _ * 1000 / _);
    assert (0 ≤ q) by (apply Z.div_pos; lia); nia.
Qed.

(** Some node has a positive share. *)
Lemma share_sum_positive s p pool :
  rewards_ok s p → pool = map_sum stables_revenue s.(current_epoch_served) → 0 < pool →
  0 < zsum (share s (get_epoch s) pool) (keys s.(current_epoch_served)).
Proof.
  intros Hok Hpe Hp. destruct (revenue_sum s p Hok) as [Hsum Hrange].
  pose proof (ro_size s p Hok) as Hsz. rewrite <-Hpe in Hsum, Hrange.
  assert (Z.of_nat (length (keys s.(current_epoch_served))) ≤ 10 ^ 18) as Hlen.
  { rewrite <-table_rows_fst, length_fmap, table_rows_permutation.
    by rewrite length_map_to_list. }
  set (ks := keys s.(current_epoch_served)) in *.
  assert (∀ n, n ∈ ks → revenue s n * 10 ^ 18 / pool ≤ share s (get_epoch s) pool n) as Hsh.
  { intros n Hn. apply (share_range s (get_epoch s) pool n ks); [by eapply boosts_of_ok|done|done|].
    by apply Hrange. }
  apply Z.lt_nge. intros Hle.
  assert (∀ l, (∀ n, n ∈ l → n ∈ ks) → zsum (share s (get_epoch s) pool) l ≤ 0 →
    zsum (revenue s) l * 10 ^ 18 ≤ Z.of_nat (length l) * (pool - 1)) as Hbound.
  { induction l as [|n l IH]; intros Hl Hz; [simpl; lia|]. simpl in *.
    assert (∀ m, m ∈ ks → 0 ≤ share s (get_epoch s) pool m) as Hnn.
    { intros m Hm. etrans; [|by apply Hsh]. apply Z.div_pos; [|done].
      specialize (Hrange m Hm). lia. }
    assert (0 ≤ zsum (share s (get_epoch s) pool) l)
      by (apply zsum_nonneg; intros m Hm; apply Hnn, Hl; by right).
    pose proof (Hnn n (Hl n ltac:(by left))). unfold zsum in *. simpl in *.
    assert (revenue s n * 10 ^ 18 / pool ≤ 0) as Hq
      by (etrans; [apply Hsh, Hl; by left|lia]).
    assert (revenue s n * 10 ^ 18 < pool) as Hlt.
    { apply Z.nle_gt. intros Hge. pose proof (Z.div_le_lower_bound (revenue s n * 10 ^ 18) pool 1 Hp). lia. }
    specialize (IH ltac:(intros; apply Hl; by right) ltac:(lia)). lia. }
  specialize (Hbound ks ltac:(done) Hle). rewrite Hsum in Hbound. nia.
Qed.

(** The FLK minted for the nodes is at most their part of the emissions. *)
Lemma node_minted_bound (sh : NodeIndex → Z) (rows : list (NodeIndex * NodeInfo)) En T :
  0 ≤ En → 0 < T → T = zsum (λ r, sh r.1) rows → (∀ r, r ∈ rows → 0 ≤ sh r.1) →
  0 ≤ zsum (λ r, En * 10 ^ 18 / T * sh r.1 / 10 ^ 18) rows ≤ En.
Proof.
  intros HE HT Hsum Hsh.
  assert (0 ≤ En * 10 ^ 18 / T) by (apply Z.div_pos; lia). split.
  - apply zsum_nonneg. intros r Hr. specialize (Hsh r Hr). apply Z.div_pos; nia.
  - etrans; [apply (zsum_div (λ r, sh r.1)); lia|]. rewrite <-Hsum.
    apply Z.div_le_upper_bound; [lia|].
    pose proof (Z.mul_div_le (En * 10 ^ 18) T HT). lia.
Qed.

Lemma service_minted_bound s p flk_pool pool :
  rewards_ok s p → pool = map_sum stables_revenue s.(current_epoch_served) → 0 < pool →
  0 ≤ flk_pool →
  0 ≤ zsum (λ i, flk_pool * service_proportion s pool i / 10 ^ 18) (keys s.(service_revenue)) ≤ flk_pool.
Proof.
  intros Hok Hpe Hp Hf.
  assert (∀ i, i ∈ keys s.(service_revenue) → 0 ≤ default 0 (s.(service_revenue) !! i)) as Hrev.
  { intros i [r Hr]%elem_of_keys. rewrite Hr. by apply (ro_services s p Hok i r). }
  assert (0 ≤ zsum (service_proportion s pool) (keys s.(service_revenue)) ≤ 10 ^ 18) as Hprop.
  { split; [apply zsum_nonneg; intros i Hi; apply Z.div_pos; [specialize (Hrev i Hi); lia|lia]|].
    pose proof (ro_service_sum s p Hok) as Hsum.
    rewrite (map_sum_list id _ (keys s.(service_revenue))), <-Hpe in Hsum;
      [|apply keys_NoDup|apply elem_of_keys].
    etrans; [apply (zsum_le _ (λ i, 10 ^ 18 * default 0 (s.(service_revenue) !! i) / pool));
      intros i Hi; unfold service_proportion; by rewrite Z.mul_comm|].
    etrans; [apply (zsum_div (λ i, default 0 (s.(service_revenue) !! i))); lia|].
    apply Z.div_le_upper_bound; [lia|].
    nia. }
  split.
  - apply zsum_nonneg. intros i Hi.
    assert (0 ≤ service_proportion s pool i)
      by (apply Z.div_pos; [specialize (Hrev i Hi); lia|lia]).
    apply Z.div_pos; nia.
  - etrans; [apply zsum_div; lia|]. apply Z.div_le_upper_bound; nia.
Qed.

(** The node loop and the FLK loop together. *)
Lemma node_rewards_run s p pool :
  rewards_ok s p → pool = map_sum stables_revenue s.(current_epoch_served) → 0 < pool →
  let E := emissions p in
  let En := E * p.(rp_node_share) / 100 in
  ∃ shares base t1 t2 minted,
    stable_rewards (get_epoch s) pool (p.(rp_node_share) * 10 ^ 16) (keys s.(current_epoch_served))
      (mkRewardShares (hp_from_uint 18 0) ∅ ∅) s = Some (shares, t1) ∧
    hp_div 18 En (total_reward_share shares) = Some base ∧
    for_each (flk_reward base (local_shares_map shares)) (table_rows (node_info_map shares)) t1
      = Some (tt, t2) ∧
    0 ≤ minted ≤ En ∧ paid s t2 minted ∧ t2.(current_epoch_served) = ∅ ∧
    t2.(service_revenue) = s.(service_revenue).
Proof.
  intros Hok Hpe Hp E En. pose proof (ro_shares s p Hok) as Hshares.
  pose proof (emissions_range s p Hok) as HE. fold E in HE.
  pose proof (ro_amounts s p Hok) as Ham. pose proof (ro_pool_max s p Hok) as Hpm.
  pose proof (ro_size s p Hok) as Hsz. destruct (revenue_sum s p Hok) as [_ Hrange].
  set (ks := keys s.(current_epoch_served)) in *.
  assert (Z.of_nat (length ks) ≤ 10 ^ 18) as Hlen.
  { unfold ks. rewrite <-table_rows_fst, length_fmap, table_rows_permutation.
    by rewrite length_map_to_list. }
  unfold in_width in Hshares. assert (0 ≤ En < 2 ^ 160) as HEn.
  { unfold En. split; [apply Z.div_pos; nia|apply Z.div_lt_upper_bound; nia]. }
  rewrite hp_from_uint_exact by (unfold in_width; lia).
  destruct (stable_rewards_run s (get_epoch s) pool (p.(rp_node_share) * 10 ^ 16) ltac:(lia)
    ks (mkRewardShares (0 * 10 ^ 18) ∅ ∅) s) as (shares & t1 & Hrun1 & Hp1 & Hs1 & Hv1 & [Ht Hl Hi]);
    [apply keys_NoDup|by eapply boosts_of_ok|intros n Hn; rewrite Hpe; by apply Hrange
    |simpl; lia|simpl; lia|apply paid_refl; exact (ro_ledger s p Hok)|done|done|].
  pose proof (share_sum_positive s p pool Hok Hpe Hp) as Hpos. fold ks in Hpos.
  set (sh := share s (get_epoch s) pool) in *. simpl in Ht. rewrite Z.add_0_l in Ht.
  set (rows := table_rows (node_info_map shares)).
  assert (rows.*1 ≡ₚ ks) as Hrows.
  { unfold rows. rewrite table_rows_fst. apply NoDup_Permutation; [apply keys_NoDup..|].
    intros n. rewrite elem_of_keys, Hi. case_decide as Hn; [|cbn [node_info_map]; rewrite lookup_empty; split; [by intros []|done]].
    split; [done|]. intros _. unfold ks in Hn. apply elem_of_keys in Hn as [x Hx].
    destruct (ro_served s p Hok n x Hx) as (_ & info & -> & _). eauto. }
  assert (zsum (λ r, sh r.1) rows = zsum sh ks) as Hzs.
  { by rewrite <-(zsum_perm sh _ _ Hrows), zsum_fmap. }
  assert (∀ n, n ∈ ks → 0 ≤ sh n) as Hshn.
  { intros n Hn. specialize (Hrange n Hn). rewrite <-Hpe in Hrange.
    destruct (share_range s (get_epoch s) pool n ks) as [Hq [Hlo _]];
      [by eapply boosts_of_ok|done|done|done|]. fold sh in Hlo. lia. }
  assert (∀ r, r ∈ rows → r.1 ∈ ks) as Hin.
  { intros r Hr. rewrite <-Hrows. by apply list_elem_of_fmap_2. }
  destruct (node_minted_bound sh rows En (zsum sh ks)) as [Hm0 Hm1]; [lia|lia|done|auto|].
  exists shares. rewrite Ht. exists (En * 10 ^ 18 / zsum sh ks), t1.
  assert (0 ≤ En * 10 ^ 18 / zsum sh ks) as Hb0 by (apply Z.div_pos; lia).
  destruct (flk_rewards_run (En * 10 ^ 18 / zsum sh ks) (local_shares_map shares) sh rows t1
    (rp_supply p) (rp_years p)) as (t2 & Hrun2 & Hp2 & Hs2 & Hv2); [apply Hp1| |done| | | |].
  { rewrite <-(Z.add_0_r (rp_supply p)). eapply mint_env_paid; [|done|exact Hp1].
    split; [by apply ro_supply|by apply ro_years|..]; pose proof (ro_ranges s p Hok); lia. }
  { intros r Hr. specialize (Hin r Hr). rewrite Hl, decide_True by done. split_and!; [done|auto|].
    pose proof (zsum_elem_le sh ks r.1 Hshn Hin) as Hle. specialize (Hshn _ Hin).
    pose proof (Z.mul_div_le (En * 10 ^ 18) (zsum sh ks) Hpos). nia. }
  { rewrite (paid_total _ _ _ Hp1). lia. }
  { lia. }
  eexists t2, _. split_and!; [done| |exact Hrun2|exact Hm0|exact Hm1
    |exact (paid_trans _ _ _ _ _ Hp1 Hp2)| |congruence].
  - apply hp_div_eq; [lia|unfold in_width; lia|lia].
  - rewrite Hs2, Hs1, foldl_delete_filter. apply map_empty. intros n. apply eq_None_not_Some.
    intros [x [Hx Hno]%map_lookup_filter_Some]. apply Hno. simpl. rewrite Hrows. unfold ks.
    apply elem_of_keys. eauto.
Qed.

Lemma distribute_rewards_run s p :
  rewards_ok s p →
  ∃ s' minted, distribute_rewards s = Some (tt, s') ∧ paid s s' minted ∧
    0 ≤ minted ∧ 100 * minted ≤ emissions p * total_shares p.
Proof.
  intros Hok. pose proof (emissions_range s p Hok) as HE. pose proof (ro_shares s p Hok) as (Hsh1 & Hsh2 & Hsh3).
  pose proof Hsh1. pose proof Hsh2. pose proof Hsh3. unfold in_width in Hsh1, Hsh2, Hsh3. unfold total_shares.
  pose proof (ro_amounts s p Hok) as Ham. pose proof (ro_ranges s p Hok) as Hrg.
  unfold distribute_rewards. unfold_M. rewrite (ro_pool s p Hok).
  set (pool := map_sum stables_revenue s.(current_epoch_served)).
  assert (0 ≤ pool) as Hp0
    by (apply map_sum_nonneg; intros n x Hx; by apply (ro_served s p Hok n x)).
  case_bool_decide as Hz; unfold zero in Hz.
  { exists s, 0. split_and!; [done|apply paid_refl; exact (ro_ledger s p Hok)|lia|nia]. }
  unfold node_share_of. rewrite (ro_node_share s p Hok), percent_eq by lia. cbv beta iota.
  rewrite (calculate_emissions_run s p Hok). cbv beta iota.
  destruct (part_eq (emissions p) (rp_node_share p) HE ltac:(done)) as [-> Hn0].
  destruct (node_rewards_run s p pool Hok eq_refl ltac:(lia))
    as (shares & base & t1 & t2 & m1 & -> & -> & -> & Hm1 & Hp2 & _ & Hv2).
  destruct (paid_tables _ _ _ Hp2) as (Hpar2 & _ & Hsv2 & _).
  unfold service_share_of. rewrite Hpar2, (ro_service_share s p Hok), percent_eq by lia. cbv beta iota.
  destruct (part_eq (emissions p) (rp_service_share p) HE ltac:(done)) as [-> Hs0].
  rewrite Hv2.
  pose proof (service_minted_bound s p (emissions p * rp_service_share p / 100) pool Hok eq_refl
    ltac:(lia) Hs0) as Hm2.
  assert (100 * (emissions p * rp_node_share p / 100 + emissions p * rp_service_share p / 100
    + emissions p * rp_protocol_share p / 100)
    ≤ emissions p * (rp_node_share p + rp_service_share p + rp_protocol_share p)) as Htot.
  { pose proof (Z.mul_div_le (emissions p * rp_node_share p) 100 ltac:(lia)).
    pose proof (Z.mul_div_le (emissions p * rp_service_share p) 100 ltac:(lia)).
    pose proof (Z.mul_div_le (emissions p * rp_protocol_share p) 100 ltac:(lia)). nia. }
  assert (emissions p * (rp_node_share p + rp_service_share p + rp_protocol_share p) < 2 ^ 170) as Hmax by nia.
  assert (mint_env s (rp_supply p) (rp_years p)) as Henv
    by (split; [by apply ro_supply|by apply ro_years|lia|lia]).
  destruct (part_eq (emissions p) (rp_protocol_share p) HE ltac:(done)) as [Hpe Hpr0].
  pose proof (paid_total _ _ _ Hp2) as Hft2.
  edestruct (service_rewards_run s pool
    (hp_mul 6 pool (convert_precision 18 6 (rp_service_share p * 10 ^ 16)))
    (emissions p * rp_service_share p / 100) (keys s.(service_revenue)) t2
    (rp_supply p + m1) (rp_years p)) as (t3 & -> & Hp3 & _);
    [apply keys_NoDup|apply Hp2|by eapply mint_env_paid; [|lia|]
    |pose proof (ro_pool_max s p Hok); lia|lia| |lia|lia|].
  { intros i [r Hr]%elem_of_keys. destruct (ro_services s p Hok i r Hr) as [Hr0 Hsome].
    rewrite Hv2, Hsv2, Hr. split_and!; [done|done|done|].
    etrans; [|exact (ro_service_sum s p Hok)].
    apply (map_sum_lookup_le id _ i); [|done]. intros k v Hk. by apply (ro_services s p Hok k v). }
  pose proof (paid_trans _ _ _ _ _ Hp2 Hp3) as Hp23.
  set (m2 := zsum _ (keys s.(service_revenue))) in *.
  destruct (paid_tables _ _ _ Hp23) as (Hpar3 & _). cbv beta iota.
  unfold protocol_share_of. rewrite Hpar3, (ro_protocol_share s p Hok), percent_eq by lia.
  cbv beta iota. rewrite (paid_meta _ _ _ Hp23), (ro_fund s p Hok) by done. cbv beta iota.
  rewrite Hpe.
  destruct (mint_stables_run (hp_mul 6 pool (convert_precision 18 6 (rp_protocol_share p * 10 ^ 16)))
    (rp_fund p) t3 (paid_ok _ _ _ Hp3)) as (t4 & -> & Hp4 & _).
  pose proof (paid_trans _ _ _ _ _ Hp23 Hp4) as Hp24. pose proof (paid_total _ _ _ Hp24) as Hft4.
  destruct (mint_flk_run (emissions p * rp_protocol_share p / 100) (rp_fund p) t4
    (rp_supply p + (m1 + m2 + 0)) (rp_years p)) as (t5 & -> & Hp5 & _);
    [apply Hp4|eapply mint_env_paid; [exact Henv|lia|exact Hp24]|done|lia|lia|].
  exists t5. eexists. split_and!; [done|exact (paid_trans _ _ _ _ _ Hp24 Hp5)|lia|lia].
Qed.

End distribution.
