(* ===== verification/EpochChange.v ===== *)
(** * EpochChange: the epoch change as a whole

    [execute_epoch_change] of [epoch_change.rs] runs six steps, each verified
    in its own file.  This file composes them: a state is [epoch_ready] when
    every step's precondition holds, and [execute_epoch_change_spec] shows that the
    whole change then runs to its end and what the next epoch starts with. *)

From S2P Require Import Prelude HpFixed HpSigned Types State Ledger Accounts Nodes.
From S2P Require Import Content Auction Jobs Reputation Measurements Epoch Rewards.
From stdpp Require Import base gmap list sorting.
From Stdlib Require Import ZArith Lia.
Open Scope Z_scope.

(** ** Steps keep what the next ones need *)

Section frames.
Context {R : Ruint} {B : Bigint} {H : Host} {HL : HostLaws H}.

(** The reputation step changes participations only. *)
Lemma reputation_step_ledger s s' :
  reputation_step s s' → flk_total s' = flk_total s ∧ (ledger_ok s → ledger_ok s').
Proof.
  intros Hst. pose proof (step_nodes s s' Hst) as Hn.
  assert (s'.(account_info) = s.(account_info)) as Ha by (by rewrite (step_frame s s' Hst)).
  assert (flk_nodes s' = flk_nodes s) as Hf.
  { apply map_sum_rows; intros k; rewrite Hn; destruct (s.(node_info) !! k); simpl;
      [done..|by rewrite ?fmap_is_Some|done]. }
  assert (flk_total s' = flk_total s) as Ht by (unfold flk_total, flk_accounts; by rewrite Hf, Ha).
  split; [done|]. intros [Hl1 Hl2 Hl3]. split; [by rewrite Ha| |by rewrite Ht].
  intros i n. rewrite Hn. intros (n0 & Hi & ->)%fmap_Some. by apply (Hl2 i n0).
Qed.

Lemma reputation_step_tables s s' :
  reputation_step s s' →
  s'.(parameters) = s.(parameters) ∧ s'.(metadata) = s.(metadata) ∧
  s'.(current_epoch_served) = s.(current_epoch_served) ∧
  s'.(total_served) = s.(total_served) ∧ s'.(service_revenue) = s.(service_revenue) ∧
  s'.(services) = s.(services) ∧ s'.(uri_to_node) = s.(uri_to_node) ∧
  s'.(node_to_uri) = s.(node_to_uri) ∧ s'.(committee_info) = s.(committee_info) ∧
  s'.(jobs) = s.(jobs) ∧ s'.(assigned_jobs) = s.(assigned_jobs).
Proof. intros Hst. rewrite (step_frame s s' Hst). by state_simpl. Qed.

Lemma reputation_step_rewards s s' p :
  reputation_step s s' → rewards_ok s p → rewards_ok s' p.
Proof.
  intros Hst Hok. destruct (reputation_step_ledger s s' Hst) as [Hft Hlo].
  destruct (reputation_step_tables s s' Hst)
    as (Hpar & Hmeta & Hserved & Htot & Hrev & Hsvc & _).
  assert (get_epoch s' = get_epoch s) as Hep by (unfold get_epoch; by rewrite Hmeta).
  destruct Hok. split; rewrite ?Hpar, ?Hmeta, ?Hserved, ?Htot, ?Hrev, ?Hsvc, ?Hep, ?Hft; auto.
  intros n x Hx. destruct (ro_served n x Hx) as (? & info & Hi & Hl). split; [done|].
  rewrite (step_nodes s s' Hst), Hi. simpl. eexists. split; [done|]. done.
Qed.

Lemma participating_frame s s' :
  s'.(node_info) = s.(node_info) → participating_nodes s' = participating_nodes s.
Proof. intros Hn. unfold participating_nodes, get_node_registry. by rewrite Hn. Qed.

Lemma content_frame s s' :
  s'.(uri_to_node) = s.(uri_to_node) → s'.(node_to_uri) = s.(node_to_uri) →
  content_ok s → content_ok s'.
Proof. intros Hu Hn Hok i u. unfold uris_of, providers_of in *. rewrite Hu, Hn. apply Hok. Qed.

Lemma jobs_frame s s' :
  s'.(jobs) = s.(jobs) → s'.(assigned_jobs) = s.(assigned_jobs) → jobs_ok s → jobs_ok s'.
Proof.
  intros Hj Ha Hok. assert (∀ x, jobs_of s' x = jobs_of s x) as Hof
    by (intros x; unfold jobs_of; by rewrite Ha).
  destruct Hok as [H1 H2 H3]. split; [by rewrite Hj| |intros x; rewrite Hof; apply H3].
  intros x h. rewrite Hof, Hj. apply H2.
Qed.

Lemma next_committee_frame s s' size count c :
  s'.(node_info) = s.(node_info) → next_committee s size count c → next_committee s' size count c.
Proof. intros Hn []. split; rewrite ?(participating_frame s s' Hn); done. Qed.

Lemma committee_params_frame s s' a b c d e f :
  s'.(parameters) = s.(parameters) →
  committee_params s a b c d e f → committee_params s' a b c d e f.
Proof. intros Hp []. split; rewrite ?Hp; done. Qed.
End frames.

(** ** The epoch change *)

Section change.
Context {R : Ruint} {L : RuintLaws R} {B : Bigint} {BL : BigintLaws B} {H : Host} {HL : HostLaws H}.

(** The preconditions of the six steps. *)
Record epoch_ready (s : StateExecutor) (p : RewardParams) (size count : Z) : Prop := {
  er_measurements : ∃ n, s.(parameters) !! ProtocolParamKey.MinNumMeasurements
    = Some (ProtocolParamValue.MinNumMeasurements n);
  er_scores : scores_ok s;
  er_reports : reports_ok s;
  er_rewards : rewards_ok s p;
  er_shares : total_shares p ≤ 100;
  er_content : content_ok s;
  er_committee : ∃ time commit reveal intervals,
    committee_params s size count time commit reveal intervals;
  er_jobs : jobs_ok s;
  (* some node participates after the reputation step *)
  er_participates s1 :
    executor_calculate_reputation_scores s = Some (tt, s1) → participating_nodes s1 ≠ [];
  er_epoch : get_epoch s + 1 < 2 ^ 64
}.

(** The steps up to the choice of the committee. *)
Lemma settle_epoch_run s p size count :
  epoch_ready s p size count →
  ∃ s1 s2 s3 minted,
    executor_calculate_reputation_scores s = Some (tt, s1) ∧ reputation_step s s1 ∧
    distribute_rewards s1 = Some (tt, s2) ∧ paid s1 s2 minted ∧ 0 ≤ minted ≤ emissions p ∧
    clean_up_content_registry s2 = Some (tt, s3) ∧ content_ok s3 ∧
    s3 = set_node_to_uri s3.(node_to_uri) (set_uri_to_node s3.(uri_to_node) s2).
Proof.
  intros [[n Hn] Hsc Hre Hrw Hsh Hct _ _ _ _].
  destruct (reputation_step_run s n Hn Hsc Hre) as (s1 & H1 & Hst).
  destruct (distribute_rewards_run s1 p (reputation_step_rewards s s1 p Hst Hrw))
    as (s2 & m & H2 & Hp & Hm0 & Hm).
  assert (0 ≤ m ≤ emissions p) as Hme by (pose proof (emissions_range s p Hrw); nia). clear Hm0 Hm.
  destruct (reputation_step_tables s s1 Hst) as (_ & _ & _ & _ & _ & _ & Hu & Hnu & _).
  destruct (clean_up_content_registry_run s2) as (s3 & H3 & Hc3 & _ & _ & Hf3).
  { apply (content_frame s); [| |done]; rewrite (paid_frame _ _ _ Hp); by state_simpl. }
  exists s1, s2, s3, m. destruct Hme. by split_and!.
Qed.

(** What is left of the tables the last steps read. *)
Lemma settled_tables s s1 s2 s3 minted :
  reputation_step s s1 → paid s1 s2 minted →
  s3 = set_node_to_uri s3.(node_to_uri) (set_uri_to_node s3.(uri_to_node) s2) →
  s3.(parameters) = s.(parameters) ∧ get_epoch s3 = get_epoch s ∧
  s3.(node_info) = s1.(node_info) ∧ s3.(jobs) = s.(jobs) ∧
  s3.(assigned_jobs) = s.(assigned_jobs) ∧ s3.(committee_info) = s.(committee_info) ∧
  flk_total s3 = flk_total s + minted ∧ ledger_ok s3.
Proof.
  intros Hst Hp Hf. destruct (reputation_step_tables s s1 Hst)
    as (Hpar & Hmeta & _ & _ & _ & _ & _ & _ & Hcom & Hjobs & Hass).
  destruct (reputation_step_ledger s s1 Hst) as [Hfl _].
  destruct (ledger_frame s2 s3) as [Hf3 Ho3]; [by rewrite Hf|by rewrite Hf|].
  assert (get_epoch s3 = get_epoch s2) as He3 by (unfold get_epoch; by rewrite Hf).
  assert (get_epoch s1 = get_epoch s) as He1 by (unfold get_epoch; by rewrite Hmeta).
  pose proof (paid_frame _ _ _ Hp) as Hpf.
  split_and!; [|by rewrite He3, (paid_epoch _ _ _ Hp)| | | |
    |rewrite Hf3, (paid_total _ _ _ Hp); lia|apply Ho3, Hp].
  all: rewrite Hf; simpl; rewrite Hpf; by simpl.
Qed.

(** C19: The epoch change runs to its end from every ready state: the epoch
    advances by one and its era starts at zero, the committee of the next
    epoch is drawn from the nodes that participate after the reputation step,
    the executed digests are cleared, at most the epoch's emissions are
    minted, and the ledger, content and job invariants hold again. *)
Theorem execute_epoch_change_spec s p size count committee beacons :
  epoch_ready s p size count → in_width 64 (get_epoch s) →
  ∃ s' s1 c minted,
    execute_epoch_change (get_epoch s) committee beacons s = Some (tt, s') ∧
    get_epoch s' = get_epoch s + 1 ∧ get_epoch_era s' = 0 ∧
    executor_calculate_reputation_scores s = Some (tt, s1) ∧
    s'.(committee_info) !! get_epoch s' = Some c ∧ next_committee s1 size count c ∧
    s'.(committee_info) !! get_epoch s = Some committee ∧
    s'.(executed_digests) = ∅ ∧
    flk_total s' = flk_total s + minted ∧ 0 ≤ minted ≤ emissions p ∧
    ledger_ok s' ∧ content_ok s' ∧ jobs_ok s'.
Proof.
  intros Hrd [He _].
  destruct (settle_epoch_run s p size count Hrd)
    as (s1 & s2 & s3 & m & H1 & Hst & H2 & Hp & Hm & H3 & Hc3 & Hf3).
  destruct (settled_tables s s1 s2 s3 m Hst Hp Hf3)
    as (Hpar & Hep & Hni & Hjobs & Hass & _ & Hfl & Hlo).
  destruct Hrd as [_ _ _ _ _ _ (time & com & rev & itv & Hcp) Hjo Hpt Hov].
  unfold execute_epoch_change, committee_info_set. unfold_M. rewrite H1. cbv beta iota. rewrite H2.
  cbv beta iota. rewrite H3. cbv beta iota. state_simpl.
  set (s4 := set_committee_info _ _).
  destruct (choose_new_committee_run beacons s4 size count time com rev itv committee)
    as (c & -> & Hnc & _).
  { by apply (committee_params_frame s). }
  { unfold s4, get_epoch. state_simpl. fold (get_epoch s3). by rewrite Hep, lookup_insert_eq. }
  rewrite wrap_small by (unfold in_width; lia). cbv beta iota.
  set (s5 := set_committee_info _ (set_metadata _ _)).
  destruct (reassign_jobs_total s5) as (s6 & -> & Hjo6 & _ & _ & Hf6).
  { by apply (jobs_frame s). }
  { rewrite (participating_frame s1) by done. by apply Hpt. }
  unfold metadata_set. unfold_M.
  match goal with |- context [Some (tt, ?x) = _] => set (s' := x) end.
  assert (s'.(committee_info) = s5.(committee_info)) as Hci by (unfold s'; by rewrite Hf6).
  assert (get_epoch s' = get_epoch s + 1) as He' by (unfold s', get_epoch; by simplify_map_eq).
  destruct (ledger_frame s3 s') as [Hf' Ho']; [unfold s'; by rewrite Hf6..|].
  exists s', s1, c, m. destruct Hm. rewrite Hci, He', Hf'. split_and!; try done.
  - unfold s', get_epoch_era. by simplify_map_eq.
  - unfold s5. state_simpl. apply lookup_insert_eq.
  - by apply (next_committee_frame s4).
  - unfold s5. state_simpl. rewrite lookup_insert_ne by lia. apply lookup_insert_eq.
  - unfold s'. by rewrite Hf6.
  - by apply Ho'.
  - apply (content_frame s3); [unfold s'; by rewrite Hf6..|done].
  - by apply (jobs_frame s6).
Qed.
End change.
