(* ===== verification/Beacon.v ===== *)
(** * Beacon: the committee selection beacon

    The epoch-change transactions of
    [core/application/src/state/executor/epoch_change.rs]: the readiness
    signals of the committee ([change_epoch]), the commit and the reveal of a
    beacon, the two timeouts that move the beacon from one phase to the next,
    and the slashing of the nodes that committed and did not reveal.

    The beacon is a state machine: no phase, [Commit (epoch, round)],
    [Reveal (epoch, round)].  [beacon_step] is its step relation, one rule per
    transaction and one for everything else the executor does; [beacon_inv]
    is its invariant. *)

From S2P Require Import Prelude HpFixed HpSigned Types State Ledger Accounts Nodes.
From S2P Require Import Content Auction Jobs Reputation Measurements Epoch Rewards.
From stdpp Require Import base gmap list sorting.
From Stdlib Require Import ZArith Lia.
Open Scope Z_scope.

Section Beacon.
Context {R : Ruint} {B : Bigint} {H : Host}.

(** ** The phase helpers *)

Definition set_committee_selection_beacon_commit_phase (epoch : Epoch)
    (round : CommitteeSelectionBeaconRound) : Exec unit :=
  metadata_set Metadata.CommitteeSelectionBeaconPhase
    (Value.CommitteeSelectionBeaconPhase (CommitteeSelectionBeaconPhase.Commit (epoch, round))).

Definition set_committee_selection_beacon_reveal_phase (epoch : Epoch)
    (round : CommitteeSelectionBeaconRound) : Exec unit :=
  metadata_set Metadata.CommitteeSelectionBeaconPhase
    (Value.CommitteeSelectionBeaconPhase (CommitteeSelectionBeaconPhase.Reveal (epoch, round))).

Definition clear_committee_selection_beacon_phase : Exec unit :=
  modify (λ s, set_metadata (delete Metadata.CommitteeSelectionBeaconPhase s.(metadata)) s).

Definition clear_committee_selection_beacons : Exec unit :=
  modify (set_committee_selection_beacon ∅).

Definition clear_committee_selection_beacon_non_revealing_node : Exec unit :=
  modify (set_committee_selection_beacon_non_revealing_node ∅).

(** The fields of a committee the handlers assign. *)
Definition with_ready_to_change (l : list NodeIndex) (k : Committee) : Committee :=
  mkCommittee k.(members) l k.(signalled_commit_phase_timeout)
    k.(signalled_reveal_phase_timeout) k.(epoch_end_timestamp)
    k.(epoch_transition_timestamp) k.(active_node_set) k.(node_registry_changes).

Definition with_timeouts (commits reveals : list NodeIndex) (k : Committee) : Committee :=
  mkCommittee k.(members) k.(ready_to_change) commits reveals k.(epoch_end_timestamp)
    k.(epoch_transition_timestamp) k.(active_node_set) k.(node_registry_changes).

Definition without_node (i : NodeIndex) (k : Committee) : Committee :=
  mkCommittee (filter (λ m, m ≠ i) k.(members)) k.(ready_to_change)
    k.(signalled_commit_phase_timeout) k.(signalled_reveal_phase_timeout)
    k.(epoch_end_timestamp) k.(epoch_transition_timestamp)
    (filter (λ m, m ≠ i) k.(active_node_set)) k.(node_registry_changes).

Definition clear_committee_selection_beacon_timeouts (epoch : Epoch) : Exec unit :=
  s ← get;
  committee_info_set epoch (with_timeouts [] [] (get_committee s epoch)).

(** [CommitteeSelectionBeaconPhase] as the handlers read it. *)
Definition beacon_phase (s : StateExecutor) : option CommitteeSelectionBeaconPhase :=
  match s.(metadata) !! Metadata.CommitteeSelectionBeaconPhase with
  | Some (Value.CommitteeSelectionBeaconPhase p) => Some p
  | _ => None
  end.

Definition threshold (c : Committee) : nat := (2 * length c.(members) / 3 + 1)%nat.

(** ** Readiness *)

Definition change_epoch (sender : TransactionSender) (epoch : Epoch) : Exec TransactionResponse :=
  r ← only_node_with_sufficient_stake_and_participating sender;
  match r with
  | Err e => mret e
  | Ok index =>
      s ← get;
      let current_epoch := get_epoch s in
      match epoch ?= current_epoch with
      | Lt => mret (Revert ExecutionError.EpochAlreadyChanged)
      | Gt => mret (Revert ExecutionError.EpochHasNotStarted)
      | Eq =>
          let current_committee := get_committee s current_epoch in
          if negb (contains current_committee.(members) index)
          then mret (Revert ExecutionError.NotCommitteeMember)
          else if contains current_committee.(ready_to_change) index
          then mret (Revert ExecutionError.AlreadySignaled)
          else
            let current_committee := with_ready_to_change
              (current_committee.(ready_to_change) ++ [index]) current_committee in
            committee_info_set current_epoch current_committee;;
            if bool_decide (length current_committee.(ready_to_change)
                            = threshold current_committee)
            then
              _ ← get_block_number;
              set_committee_selection_beacon_commit_phase epoch 0;;
              mret (Success ExecutionData.None)
            else mret (Success ExecutionData.None)
      end
  end.

(** ** Commits and reveals *)

Definition committee_selection_beacon_commit (sender : TransactionSender)
    (commit : CommitteeSelectionBeaconCommit) : Exec TransactionResponse :=
  r ← only_node_with_sufficient_stake_and_participating sender;
  match r with
  | Err e => mret e
  | Ok node_index =>
      s ← get;
      let epoch := get_epoch s in
      let current_committee := get_committee s epoch in
      if negb (contains current_committee.(members) node_index)
      then mret (Revert ExecutionError.NotCommitteeMember)
      else if negb (contains (get_committee s epoch).(active_node_set) node_index)
      then mret (Revert ExecutionError.CommitteeSelectionBeaconNodeNotActive)
      else if is_some (s.(committee_selection_beacon_non_revealing_node) !! node_index)
      then mret (Revert ExecutionError.CommitteeSelectionBeaconNonRevealingNode)
      else
        match beacon_phase s with
        | Some (CommitteeSelectionBeaconPhase.Commit _) =>
            if is_some (s.(committee_selection_beacon) !! node_index)
            then mret (Revert ExecutionError.CommitteeSelectionBeaconAlreadyCommitted)
            else
              modify (λ s, set_committee_selection_beacon
                (<[node_index:=(commit, None)]> s.(committee_selection_beacon)) s);;
              mret (Success ExecutionData.None)
        | _ => mret (Revert ExecutionError.CommitteeSelectionBeaconCommitPhaseNotActive)
        end
  end.

Definition committee_selection_beacon_reveal (sender : TransactionSender)
    (reveal : CommitteeSelectionBeaconReveal) : Exec TransactionResponse :=
  r ← only_node_with_sufficient_stake_and_participating sender;
  match r with
  | Err e => mret e
  | Ok node_index =>
      s ← get;
      match beacon_phase s with
      | Some (CommitteeSelectionBeaconPhase.Reveal (_, round)) =>
          let epoch := get_epoch s in
          let current_committee := get_committee s epoch in
          if negb (contains current_committee.(members) node_index)
          then mret (Revert ExecutionError.NotCommitteeMember)
          else
            match s.(committee_selection_beacon) !! node_index with
            | None => mret (Revert ExecutionError.CommitteeSelectionBeaconNotCommitted)
            | Some (existing_commit, existing_reveal) =>
                if is_some existing_reveal
                then mret (Revert ExecutionError.CommitteeSelectionBeaconAlreadyRevealed)
                else
                  let commit := sha3_beacon epoch round reveal in
                  if bool_decide (existing_commit ≠ commit)
                  then mret (Revert ExecutionError.CommitteeSelectionBeaconInvalidReveal)
                  else
                    modify (λ s, set_committee_selection_beacon
                      (<[node_index:=(existing_commit, Some reveal)]>
                         s.(committee_selection_beacon)) s);;
                    mret (Success ExecutionData.None)
            end
      | _ => mret (Revert ExecutionError.CommitteeSelectionBeaconRevealPhaseNotActive)
      end
  end.

(** ** Slashing *)

Definition get_committee_selection_beacon_non_reveal_slash_amount : Exec Z :=
  s ← get;
  match s.(parameters) !! ProtocolParamKey.CommitteeSelectionBeaconNonRevealSlashAmount with
  | Some (ProtocolParamValue.CommitteeSelectionBeaconNonRevealSlashAmount amount) =>
      mret (hp_from_uint 18 amount)
  | None => mret zero
  | Some _ => panic
  end.

(** The stake left after [amount] is taken, first from the staked and then
    from the locked tokens. *)
Definition slashed_stake (amount : Z) (st : Staking) : Staking :=
  let '(staked', remaining_amount) :=
    if bool_decide (amount ≤ staked st) then (sub_assign (staked st) amount, zero)
    else (zero, hp_sub amount (staked st)) in
  let locked' :=
    if bool_decide (remaining_amount ≤ locked st) then sub_assign (locked st) remaining_amount
    else zero in
  mkStaking staked' (stake_locked_until st) locked' (Types.locked_until st).

Definition slash_node_after_non_reveal_and_maybe_kick (node_index : NodeIndex) (amount : Z)
    : Exec unit :=
  s ← get;
  node_info ← unwrap (s.(node_info) !! node_index);
  let node_info := with_stake (slashed_stake amount (node_stake node_info)) node_info in
  node_info_set node_index node_info;;
  record_node_registry_change (public_key node_info)
    (NodeRegistryChange.Slashed amount (node_stake node_info)
       NodeRegistryChangeSlashReason.CommitteeBeaconNonReveal);;
  b ← has_sufficient_stake node_index;
  if negb b then
    s ← get;
    let epoch := get_epoch s in
    committee_info_set epoch (without_node node_index (get_committee s epoch))
  else mret tt.

(** ** Timeouts *)

(** The end of a commit phase: the reveal phase if enough members committed,
    a new round otherwise. *)
Definition finalize_commit_phase (current_epoch : Epoch)
    (commit_phase_round : CommitteeSelectionBeaconRound) : Exec unit :=
  s ← get;
  let current_committee := get_committee s current_epoch in
  let participating_committee_members :=
    filter (λ i, s.(committee_selection_beacon_non_revealing_node) !! i = None)
      current_committee.(members) in
  let beacons := s.(committee_selection_beacon) in
  let committee_beacons :=
    filter (λ '(i, _), i ∈ participating_committee_members) beacons in
  if bool_decide (2 * length participating_committee_members / 3
                  < size committee_beacons)%nat
  then set_committee_selection_beacon_reveal_phase current_epoch commit_phase_round
  else
    set_committee_selection_beacon_commit_phase current_epoch (commit_phase_round +[64] 1);;
    clear_committee_selection_beacons;;
    clear_committee_selection_beacon_non_revealing_node;;
    clear_committee_selection_beacon_timeouts current_epoch.

Definition committee_selection_beacon_commit_phase_timeout (sender : TransactionSender)
    (epoch : Epoch) (round : CommitteeSelectionBeaconRound) : Exec TransactionResponse :=
  r ← only_node_with_sufficient_stake sender;
  match r with
  | Err e => mret e
  | Ok node_index =>
      s ← get;
      let current_epoch := get_epoch s in
      match beacon_phase s with
      | Some (CommitteeSelectionBeaconPhase.Commit (commit_phase_epoch, commit_phase_round)) =>
          if bool_decide (commit_phase_epoch ≠ epoch) || bool_decide (commit_phase_round ≠ round)
          then mret (Revert ExecutionError.CommitteeSelectionBeaconInvalidCommitPhaseTimeout)
          else
          let current_committee := get_committee s current_epoch in
          if negb (contains current_committee.(members) node_index)
          then mret (Revert ExecutionError.NotCommitteeMember)
          else if contains current_committee.(signalled_commit_phase_timeout) node_index
          then mret (Revert ExecutionError.AlreadySignaled)
          else
          let current_committee := with_timeouts
            (current_committee.(signalled_commit_phase_timeout) ++ [node_index])
            current_committee.(signalled_reveal_phase_timeout) current_committee in
          committee_info_set current_epoch current_committee;;
          (if bool_decide (length current_committee.(signalled_commit_phase_timeout)
                           = threshold current_committee)
           then finalize_commit_phase current_epoch commit_phase_round
           else mret tt);;
          mret (Success ExecutionData.None)
      | _ => mret (Revert ExecutionError.CommitteeSelectionBeaconCommitPhaseNotActive)
      end
  end.

(** A reveal phase that not every committed node used: the nodes that did
    not reveal are recorded and slashed, and a new round starts. *)
Definition restart_after_non_reveal (current_epoch : Epoch)
    (reveal_phase_round : CommitteeSelectionBeaconRound) : Exec unit :=
  set_committee_selection_beacon_commit_phase current_epoch (reveal_phase_round +[64] 1);;
  s ← get;
  let beacons := s.(committee_selection_beacon) in
  let non_revealing_nodes :=
    (filter (λ '(_, (_, reveal)), is_some reveal = false) (table_rows beacons)).*1 in
  for_each (λ i, modify (λ s, set_committee_selection_beacon_non_revealing_node
    (<[i:=tt]> s.(committee_selection_beacon_non_revealing_node)) s)) non_revealing_nodes;;
  slash_amount ← get_committee_selection_beacon_non_reveal_slash_amount;
  for_each (λ i, slash_node_after_non_reveal_and_maybe_kick i slash_amount)
    non_revealing_nodes;;
  s ← get;
  for_each (λ i, modify (λ s, set_committee_selection_beacon
    (delete i s.(committee_selection_beacon)) s)) (keys s.(committee_selection_beacon));;
  clear_committee_selection_beacon_timeouts current_epoch.

(** The end of a reveal phase: the epoch change if every committed node
    revealed, a new round otherwise. *)
Definition finalize_reveal_phase (current_epoch : Epoch)
    (reveal_phase_round : CommitteeSelectionBeaconRound) : Exec TransactionResponse :=
  s ← get;
  let committee := get_committee s current_epoch in
  let beacons := s.(committee_selection_beacon) in
  if forallb (λ '(_, (_, reveal)), is_some reveal) (table_rows beacons)
  then
    clear_committee_selection_beacon_phase;;
    clear_committee_selection_beacons;;
    clear_committee_selection_beacon_non_revealing_node;;
    execute_epoch_change current_epoch committee beacons;;
    mret (Success ExecutionData.EpochChange)
  else
    restart_after_non_reveal current_epoch reveal_phase_round;;
    mret (Success ExecutionData.None).

Definition committee_selection_beacon_reveal_phase_timeout (sender : TransactionSender)
    (epoch : Epoch) (round : CommitteeSelectionBeaconRound) : Exec TransactionResponse :=
  r ← only_node_with_sufficient_stake sender;
  match r with
  | Err e => mret e
  | Ok node_index =>
      s ← get;
      let current_epoch := get_epoch s in
      match beacon_phase s with
      | Some (CommitteeSelectionBeaconPhase.Reveal (reveal_phase_epoch, reveal_phase_round)) =>
          if bool_decide (reveal_phase_epoch ≠ epoch) || bool_decide (reveal_phase_round ≠ round)
          then mret (Revert ExecutionError.CommitteeSelectionBeaconInvalidRevealPhaseTimeout)
          else
          let current_committee := get_committee s current_epoch in
          if negb (contains current_committee.(members) node_index)
          then mret (Revert ExecutionError.NotCommitteeMember)
          else if contains current_committee.(signalled_reveal_phase_timeout) node_index
          then mret (Revert ExecutionError.AlreadySignaled)
          else
          let current_committee := with_timeouts
            current_committee.(signalled_commit_phase_timeout)
            (current_committee.(signalled_reveal_phase_timeout) ++ [node_index])
            current_committee in
          committee_info_set current_epoch current_committee;;
          if bool_decide (length current_committee.(signalled_reveal_phase_timeout)
                          = threshold current_committee)
          then finalize_reveal_phase current_epoch reveal_phase_round
          else mret (Success ExecutionData.None)
      | _ => mret (Revert ExecutionError.CommitteeSelectionBeaconRevealPhaseNotActive)
      end
  end.
End Beacon.

(** ** What the beacon can see of a state *)

Record BeaconView := mkBeaconView {
  v_phase : option CommitteeSelectionBeaconPhase;
  v_epoch : Epoch;
  v_beacons : gmap NodeIndex BeaconEntry;
  v_non_revealing : gmap NodeIndex unit;
  v_members : list NodeIndex;
  v_active : list NodeIndex;
  v_ready : list NodeIndex;
  v_commit_timeouts : list NodeIndex;
  v_reveal_timeouts : list NodeIndex
}.

Definition view_of (s : StateExecutor) (c : Committee) : BeaconView :=
  mkBeaconView (beacon_phase s) (get_epoch s) s.(committee_selection_beacon)
    s.(committee_selection_beacon_non_revealing_node) c.(members) c.(active_node_set)
    c.(ready_to_change) c.(signalled_commit_phase_timeout) c.(signalled_reveal_phase_timeout).

Definition view (s : StateExecutor) : BeaconView := view_of s (get_committee s (get_epoch s)).

Section views.
Context {R : Ruint} {B : Bigint} {H : Host}.

Lemma metadata_set_view k v :
  k ≠ Metadata.Epoch → k ≠ Metadata.CommitteeSelectionBeaconPhase →
  preserves view (metadata_set k v).
Proof.
  intros H1 H2. apply preserves_modify. intros s. unfold view, view_of, beacon_phase, get_committee, get_epoch.
  state_simpl. by rewrite !lookup_insert_ne by done.
Qed.

Lemma committee_info_set_view s c :
  view (set_committee_info (<[get_epoch s:=c]> s.(committee_info)) s) = view_of s c.
Proof.
  unfold view, get_committee. change (get_epoch (set_committee_info _ s)) with (get_epoch s).
  state_simpl. by rewrite lookup_insert_eq.
Qed.

Lemma record_node_registry_change_view k c : preserves view (record_node_registry_change k c).
Proof.
  intros s a s' Hrun. unfold record_node_registry_change, get_block_number, committee_info_set in Hrun.
  run_M Hrun; rewrite committee_info_set_view; unfold view, get_committee;
    match goal with Hc : committee_info _ !! _ = Some _ |- _ => by rewrite Hc end.
Qed.

#[local] Hint Resolve metadata_set_view record_node_registry_change_view : preserves.
#[local] Hint Extern 1 (_ ≠ _) => discriminate : preserves.

Lemma executor_calculate_reputation_scores_view : preserves view executor_calculate_reputation_scores.
Proof.
  unfold executor_calculate_reputation_scores, update_latencies, score_node, node_info_set.
  solve_preserves.
Qed.

Lemma mint_and_transfer_stables_view a o : preserves view (mint_and_transfer_stables a o).
Proof. unfold mint_and_transfer_stables, account_info_set. solve_preserves. Qed.
Lemma mint_and_transfer_flk_view a o : preserves view (mint_and_transfer_flk a o).
Proof. unfold mint_and_transfer_flk, account_info_set, get_epochs_per_year. solve_preserves. Qed.
#[local] Hint Resolve mint_and_transfer_stables_view mint_and_transfer_flk_view : preserves.

Lemma stable_rewards_view e p n l acc : preserves view (stable_rewards e p n l acc).
Proof. revert acc. induction l as [|x l IH]; intros acc; simpl; solve_preserves. Qed.
#[local] Hint Resolve stable_rewards_view : preserves.

Lemma distribute_rewards_view : preserves view distribute_rewards.
Proof.
  unfold distribute_rewards, calculate_emissions, get_epochs_per_year, flk_reward, service_reward.
  solve_preserves.
Qed.

Lemma clean_up_content_registry_view : preserves view clean_up_content_registry.
Proof.
  unfold clean_up_content_registry, clear_content_registry, write_providers. solve_preserves.
Qed.

Lemma reassign_jobs_view : preserves view reassign_jobs.
Proof. unfold reassign_jobs, add_jobs. solve_preserves. Qed.

Lemma reassign_jobs_committee : preserves committee_info reassign_jobs.
Proof. unfold reassign_jobs, add_jobs. solve_preserves. Qed.

Lemma choose_new_committee_view beacons : preserves view (choose_new_committee beacons).
Proof.
  unfold choose_new_committee, get_committee_size, get_epoch_time, get_commit_phase_duration,
    get_reveal_phase_duration, get_total_intervals.
  solve_preserves.
Qed.

(** The committee of the next epoch starts without signals. *)
Lemma choose_new_committee_fresh beacons s c s' :
  choose_new_committee beacons s = Some (c, s') →
  c.(ready_to_change) = [] ∧ c.(signalled_commit_phase_timeout) = [] ∧
  c.(signalled_reveal_phase_timeout) = [].
Proof.
  intros Hrun. unfold choose_new_committee, get_committee_size, get_epoch_time,
    get_commit_phase_duration, get_reveal_phase_duration, get_total_intervals, metadata_set in Hrun.
  by run_M Hrun.
Qed.

Lemma execute_epoch_change_view c beacons s s' :
  execute_epoch_change (get_epoch s) c beacons s = Some (tt, s') →
  ∃ members active,
    view s' = mkBeaconView (beacon_phase s) (get_epoch s +[64] 1) s.(committee_selection_beacon)
      s.(committee_selection_beacon_non_revealing_node) members active [] [] [].
Proof.
  intros Hrun. unfold execute_epoch_change, committee_info_set, metadata_set in Hrun. unfold_M.
  destruct (executor_calculate_reputation_scores s) as [[[] s1]|] eqn:H1; [|done].
  destruct (distribute_rewards s1) as [[[] s2]|] eqn:H2; [|done].
  destruct (clean_up_content_registry s2) as [[[] s3]|] eqn:H3; [|done].
  apply executor_calculate_reputation_scores_view in H1. apply distribute_rewards_view in H2.
  apply clean_up_content_registry_view in H3. rewrite H2, H1 in H3. clear H1 H2.
  destruct (choose_new_committee _ _) as [[c' s4]|] eqn:H4; [|done].
  destruct (choose_new_committee_fresh _ _ _ _ H4) as (Hr & Hc & Hv).
  apply choose_new_committee_view in H4. unfold_M.
  destruct (reassign_jobs _) as [[[] s5]|] eqn:H5; [|done]. simplify_eq.
  pose proof (reassign_jobs_committee _ _ _ H5) as Hci. state_simpl.
  apply reassign_jobs_view in H5.
  pose proof (f_equal v_phase H5). pose proof (f_equal v_beacons H5).
  pose proof (f_equal v_non_revealing H5). unfold view, view_of, beacon_phase in *. simpl in *.
  exists (members c'), (active_node_set c').
  match goal with |- context [get_epoch (set_metadata ?m ?t)] =>
    assert (get_epoch (set_metadata m t) = get_epoch s +[64] 1) as ->
      by (unfold get_epoch at 1; by simplify_map_eq) end.
  unfold get_committee. simpl. simplify_map_eq. rewrite Hci, lookup_insert_eq. simpl.
  rewrite Hr, Hc, Hv. by f_equal; congruence.
Qed.
End views.

(** ** The abstract machine *)

Section spec.
Context {H : Host}.
#[local] Arguments Nat.mul : simpl never.
#[local] Arguments Nat.div : simpl never.

Definition v_threshold (v : BeaconView) : nat := (2 * length v.(v_members) / 3 + 1)%nat.

(** The members that may commit in this round. *)
Definition eligible (v : BeaconView) : list NodeIndex :=
  filter (λ i, v.(v_non_revealing) !! i = None) v.(v_members).

(** The commits of eligible members are more than two thirds of them. *)
Definition quorum (v : BeaconView) : Prop :=
  (2 * length (eligible v) / 3
   < size (filter (λ '(i, _), i ∈ eligible v) v.(v_beacons)))%nat.

Definition revealed (v : BeaconView) (i : NodeIndex) : Prop :=
  ∃ commit reveal, v.(v_beacons) !! i = Some (commit, Some reveal).
Definition all_revealed (v : BeaconView) : Prop :=
  ∀ i, is_Some (v.(v_beacons) !! i) → revealed v i.

Definition v_with_phase p v := mkBeaconView p v.(v_epoch) v.(v_beacons) v.(v_non_revealing)
  v.(v_members) v.(v_active) v.(v_ready) v.(v_commit_timeouts) v.(v_reveal_timeouts).
Definition v_with_beacons b v := mkBeaconView v.(v_phase) v.(v_epoch) b v.(v_non_revealing)
  v.(v_members) v.(v_active) v.(v_ready) v.(v_commit_timeouts) v.(v_reveal_timeouts).
Definition v_with_ready l v := mkBeaconView v.(v_phase) v.(v_epoch) v.(v_beacons)
  v.(v_non_revealing) v.(v_members) v.(v_active) l v.(v_commit_timeouts) v.(v_reveal_timeouts).
Definition v_with_timeouts c r v := mkBeaconView v.(v_phase) v.(v_epoch) v.(v_beacons)
  v.(v_non_revealing) v.(v_members) v.(v_active) v.(v_ready) c r.

(** A new signal of member [i], and whether it completes the two thirds. *)
Definition new_signal (v : BeaconView) (l : list NodeIndex) (i : NodeIndex) : Prop :=
  i ∈ v.(v_members) ∧ i ∉ l.
Definition completes (v : BeaconView) (l : list NodeIndex) : Prop :=
  S (length l) = v_threshold v.

(** A new commit round after [p]: the beacons are discarded. *)
Definition v_recommit (round : CommitteeSelectionBeaconRound) nr mem act (v : BeaconView)
    : BeaconView :=
  mkBeaconView (Some (CommitteeSelectionBeaconPhase.Commit (v.(v_epoch), round +[64] 1)))
    v.(v_epoch) ∅ nr mem act v.(v_ready) [] [].

Inductive vstep (v : BeaconView) : BeaconView → Prop :=
| V_stay : vstep v v
| V_ready i :
    new_signal v v.(v_ready) i → ¬ completes v v.(v_ready) →
    vstep v (v_with_ready (v.(v_ready) ++ [i]) v)
| V_start i :
    new_signal v v.(v_ready) i → completes v v.(v_ready) →
    vstep v (v_with_phase (Some (CommitteeSelectionBeaconPhase.Commit (v.(v_epoch), 0)))
               (v_with_ready (v.(v_ready) ++ [i]) v))
| V_commit i commit er :
    v.(v_phase) = Some (CommitteeSelectionBeaconPhase.Commit er) →
    i ∈ eligible v → i ∈ v.(v_active) → v.(v_beacons) !! i = None →
    vstep v (v_with_beacons (<[i:=(commit, None)]> v.(v_beacons)) v)
| V_reveal i reveal epoch round :
    v.(v_phase) = Some (CommitteeSelectionBeaconPhase.Reveal (epoch, round)) →
    i ∈ v.(v_members) →
    v.(v_beacons) !! i = Some (sha3_beacon v.(v_epoch) round reveal, None) →
    vstep v (v_with_beacons
      (<[i:=(sha3_beacon v.(v_epoch) round reveal, Some reveal)]> v.(v_beacons)) v)
| V_commit_timeout i er :
    v.(v_phase) = Some (CommitteeSelectionBeaconPhase.Commit er) →
    new_signal v v.(v_commit_timeouts) i → ¬ completes v v.(v_commit_timeouts) →
    vstep v (v_with_timeouts (v.(v_commit_timeouts) ++ [i]) v.(v_reveal_timeouts) v)
| V_to_reveal i epoch round :
    v.(v_phase) = Some (CommitteeSelectionBeaconPhase.Commit (epoch, round)) →
    new_signal v v.(v_commit_timeouts) i → completes v v.(v_commit_timeouts) → quorum v →
    vstep v (v_with_phase (Some (CommitteeSelectionBeaconPhase.Reveal (v.(v_epoch), round)))
      (v_with_timeouts (v.(v_commit_timeouts) ++ [i]) v.(v_reveal_timeouts) v))
| V_no_quorum i epoch round :
    v.(v_phase) = Some (CommitteeSelectionBeaconPhase.Commit (epoch, round)) →
    new_signal v v.(v_commit_timeouts) i → completes v v.(v_commit_timeouts) → ¬ quorum v →
    vstep v (v_recommit round ∅ v.(v_members) v.(v_active) v)
| V_reveal_timeout i er :
    v.(v_phase) = Some (CommitteeSelectionBeaconPhase.Reveal er) →
    new_signal v v.(v_reveal_timeouts) i → ¬ completes v v.(v_reveal_timeouts) →
    vstep v (v_with_timeouts v.(v_commit_timeouts) (v.(v_reveal_timeouts) ++ [i]) v)
| V_epoch_change i er mem act :
    v.(v_phase) = Some (CommitteeSelectionBeaconPhase.Reveal er) →
    new_signal v v.(v_reveal_timeouts) i → completes v v.(v_reveal_timeouts) →
    all_revealed v →
    vstep v (mkBeaconView None (v.(v_epoch) +[64] 1) ∅ ∅ mem act [] [] [])
| V_not_revealed i epoch round nr mem act :
    v.(v_phase) = Some (CommitteeSelectionBeaconPhase.Reveal (epoch, round)) →
    new_signal v v.(v_reveal_timeouts) i → completes v v.(v_reveal_timeouts) →
    ¬ all_revealed v →
    (∀ j, is_Some (nr !! j) ↔ is_Some (v.(v_non_revealing) !! j) ∨
       ∃ commit, v.(v_beacons) !! j = Some (commit, None)) →
    mem `sublist_of` v.(v_members) → act `sublist_of` v.(v_active) →
    (∀ j, revealed v j → j ∈ v.(v_members) → j ∈ mem) →
    vstep v (v_recommit round nr mem act v).

(** ** The invariant *)

Definition phase_ok (v : BeaconView) : Prop :=
  match v.(v_phase) with
  | None =>
      v.(v_beacons) = ∅ ∧ v.(v_non_revealing) = ∅ ∧ (length v.(v_ready) < v_threshold v)%nat ∧
      v.(v_commit_timeouts) = [] ∧ v.(v_reveal_timeouts) = []
  | Some (CommitteeSelectionBeaconPhase.Commit (epoch, _)) =>
      epoch = v.(v_epoch) ∧ (v_threshold v ≤ length v.(v_ready))%nat ∧
      v.(v_reveal_timeouts) = [] ∧
      (length v.(v_commit_timeouts) < v_threshold v)%nat ∧
      ∀ i commit reveal, v.(v_beacons) !! i = Some (commit, reveal) → reveal = None
  | Some (CommitteeSelectionBeaconPhase.Reveal (epoch, round)) =>
      epoch = v.(v_epoch) ∧ (v_threshold v ≤ length v.(v_ready))%nat ∧
      (length v.(v_reveal_timeouts) < v_threshold v)%nat ∧
      (2 * length (eligible v) / 3 < size v.(v_beacons))%nat ∧
      ∀ i commit reveal, v.(v_beacons) !! i = Some (commit, Some reveal) →
        commit = sha3_beacon epoch round reveal
  end.

Record beacon_inv (v : BeaconView) : Prop := {
  bi_committed i : is_Some (v.(v_beacons) !! i) → i ∈ eligible v;
  bi_ready : NoDup v.(v_ready);
  bi_commit_timeouts : NoDup v.(v_commit_timeouts) ∧ v.(v_commit_timeouts) ⊆ v.(v_members);
  bi_reveal_timeouts : NoDup v.(v_reveal_timeouts) ∧ v.(v_reveal_timeouts) ⊆ v.(v_members);
  bi_phase : phase_ok v
}.

(** A fresh committee, as genesis and every epoch change leave it. *)
Definition fresh (v : BeaconView) : Prop :=
  v.(v_phase) = None ∧ v.(v_beacons) = ∅ ∧ v.(v_non_revealing) = ∅ ∧
  v.(v_ready) = [] ∧ v.(v_commit_timeouts) = [] ∧ v.(v_reveal_timeouts) = [].

Lemma fresh_inv v : fresh v → beacon_inv v.
Proof.
  destruct v as [p e b n m a r ct rt]. intros (Hp & Hb & Hn & Hr & Hc & Ht).
  simpl in *. subst. split; simpl.
  - intros i. rewrite lookup_empty. by intros [].
  - constructor.
  - split; [constructor|set_solver].
  - split; [constructor|set_solver].
  - unfold phase_ok, v_threshold. simpl. split_and!; try done. lia.
Qed.

Lemma NoDup_snoc {A} (l : list A) x : NoDup l → x ∉ l → NoDup (l ++ [x]).
Proof.
  intros Hl Hx. apply NoDup_app. split; [done|]. split; [|apply NoDup_singleton].
  intros y Hy ->%list_elem_of_singleton. done.
Qed.

Lemma signal_ok v l i :
  new_signal v l i → NoDup l ∧ l ⊆ v.(v_members) →
  NoDup (l ++ [i]) ∧ l ++ [i] ⊆ v.(v_members).
Proof.
  intros [Hi Hn] [Hd Hs]. split; [by apply NoDup_snoc|].
  intros j [Hj|Hj]%elem_of_app; [by apply Hs|by apply list_elem_of_singleton in Hj as ->].
Qed.

Lemma committed_insert v i e :
  i ∈ eligible v → (∀ j, is_Some (v.(v_beacons) !! j) → j ∈ eligible v) →
  ∀ j, is_Some (<[i:=e]> v.(v_beacons) !! j) → j ∈ eligible v.
Proof.
  intros Hi Hc j. destruct (decide (i = j)) as [<-|]; [done|].
  rewrite lookup_insert_ne by done. apply Hc.
Qed.

Lemma size_insert_le {V} (m : gmap Z V) i x : (size m ≤ size (<[i:=x]> m))%nat.
Proof.
  destruct (m !! i) eqn:E; [rewrite map_size_insert_Some by eauto; done|].
  rewrite map_size_insert_None by done. lia.
Qed.

Lemma vstep_commit_inv v i commit er :
  v.(v_phase) = Some (CommitteeSelectionBeaconPhase.Commit er) →
  i ∈ eligible v → beacon_inv v →
  beacon_inv (v_with_beacons (<[i:=(commit, None)]> v.(v_beacons)) v).
Proof.
  intros Hp Hi [Hc Hr Hct Hrt Hph]. split; try done.
  - by apply committed_insert.
  - unfold phase_ok in *. simpl. rewrite Hp in *. destruct er as [e r].
    destruct Hph as (? & ? & ? & ? & Hb). split_and!; try done.
    intros j c rv. destruct (decide (i = j)) as [<-|].
    + rewrite lookup_insert_eq. by intros [= _ <-].
    + rewrite lookup_insert_ne by done. apply Hb.
Qed.

Lemma vstep_reveal_inv v i reveal epoch round :
  v.(v_phase) = Some (CommitteeSelectionBeaconPhase.Reveal (epoch, round)) →
  is_Some (v.(v_beacons) !! i) → beacon_inv v →
  beacon_inv (v_with_beacons
    (<[i:=(sha3_beacon v.(v_epoch) round reveal, Some reveal)]> v.(v_beacons)) v).
Proof.
  intros Hp Hi [Hc Hr Hct Hrt Hph]. split; try done.
  - by apply committed_insert; [apply Hc|].
  - unfold phase_ok in *. simpl. rewrite Hp in *.
    destruct Hph as (-> & ? & ? & ? & Hb). split_and!; try done.
    + eapply Nat.lt_le_trans; [done|apply size_insert_le].
    + intros j c rv. destruct (decide (i = j)) as [<-|].
      * rewrite lookup_insert_eq. by intros [= <- <-].
      * rewrite lookup_insert_ne by done. apply Hb.
Qed.

Lemma v_recommit_inv v round nr mem act :
  beacon_inv v → (v_threshold v ≤ length v.(v_ready))%nat → mem `sublist_of` v.(v_members) →
  beacon_inv (v_recommit round nr mem act v).
Proof.
  intros [_ Hr _ _ _] Hle Hsub. split; simpl; try done.
  - intros i. rewrite lookup_empty. by intros [].
  - split; [constructor|set_solver].
  - split; [constructor|set_solver].
  - unfold phase_ok, v_threshold in *. simpl. apply sublist_length in Hsub.
    assert (2 * length mem / 3 ≤ 2 * length v.(v_members) / 3)%nat
      by (apply Nat.Div0.div_le_mono; lia).
    split_and!; try done; try lia.
Qed.

Lemma vstep_inv v v' : vstep v v' → beacon_inv v → beacon_inv v'.
Proof.
  intros Hst Hinv. pose proof Hinv as [Hc Hr Hct Hrt Hph].
  destruct Hst as [|i [Hm Hn] Hk|i [Hm Hn] Hk|i commit er Hp Hi|i reveal epoch round Hp Hi Hb
    |i er Hp Hs Hk|i e r Hp Hs Hk Hq|i e r Hp Hs Hk|i er Hp Hs Hk|i er mem act Hp
    |i e r nr mem act Hp Hs Hk _ _ Hsub].
  - done.
  - split; try done; [by apply NoDup_snoc|]. unfold phase_ok, completes, v_threshold in *. simpl in *.
    rewrite length_app. simpl. repeat case_match; intuition lia.
  - split; try done; [by apply NoDup_snoc|]. unfold phase_ok, completes, v_threshold in *. simpl in *.
    rewrite length_app. simpl. repeat case_match.
    + intuition lia.
    + intuition lia.
    + destruct Hph as (-> & _ & Hl & -> & ->). simpl. split_and!; try done; lia.
  - by eapply vstep_commit_inv.
  - eapply vstep_reveal_inv; eauto.
  - split; try done; [by apply signal_ok|]. unfold phase_ok, completes, v_threshold in *. simpl in *.
    rewrite Hp in *. rewrite length_app. simpl. destruct er. intuition lia.
  - split; try done; [by apply signal_ok|]. unfold phase_ok, v_threshold in *. simpl in *.
    rewrite Hp in *. destruct Hph as (-> & Hl & Hrt0 & _ & Hb). rewrite Hrt0. simpl.
    split_and!; try done; try lia.
    + eapply Nat.lt_le_trans; [exact Hq|]. apply map_subseteq_size, map_filter_subseteq.
    + intros j c rv Hj. by apply Hb in Hj.
  - apply v_recommit_inv; [done| |done]. unfold phase_ok in Hph. rewrite Hp in Hph. by destruct Hph as (_ & ? & _).
  - split; try done; [by apply signal_ok|]. unfold phase_ok, completes, v_threshold in *. simpl in *.
    rewrite Hp in *. rewrite length_app. simpl. destruct er. intuition lia.
  - by apply fresh_inv.
  - apply v_recommit_inv; [done| |done]. unfold phase_ok in Hph. rewrite Hp in Hph. by destruct Hph as (_ & ? & _).
Qed.
End spec.

(** ** The state machine *)

Section machine.
Context {R : Ruint} {B : Bigint} {H : Host} {HL : HostLaws H}.

(** One step: a transaction of the beacon, or anything that keeps its view. *)
Inductive beacon_step (s s' : StateExecutor) : Prop :=
| step_change_epoch sender epoch r :
    change_epoch sender epoch s = Some (r, s') → beacon_step s s'
| step_commit sender commit r :
    committee_selection_beacon_commit sender commit s = Some (r, s') → beacon_step s s'
| step_reveal sender reveal r :
    committee_selection_beacon_reveal sender reveal s = Some (r, s') → beacon_step s s'
| step_commit_timeout sender epoch round r :
    committee_selection_beacon_commit_phase_timeout sender epoch round s = Some (r, s') →
    beacon_step s s'
| step_reveal_timeout sender epoch round r :
    committee_selection_beacon_reveal_phase_timeout sender epoch round s = Some (r, s') →
    beacon_step s s'
| step_other :
    view s' = view s → beacon_step s s'.


(** *** The transactions refine the abstract machine *)

Lemma phase_set_view s p :
  view (set_metadata (<[Metadata.CommitteeSelectionBeaconPhase:=
    Value.CommitteeSelectionBeaconPhase p]> s.(metadata)) s) = v_with_phase (Some p) (view s).
Proof.
  unfold view, view_of, v_with_phase, beacon_phase, get_committee, get_epoch. state_simpl.
  rewrite lookup_insert_eq, lookup_insert_ne by done. done.
Qed.

(** Compares a list with one more signal to the threshold of the committee. *)
Ltac count_signals :=
  unfold completes, v_threshold, threshold in *;
  cbn [with_ready_to_change with_timeouts ready_to_change signalled_commit_phase_timeout
    signalled_reveal_phase_timeout members view view_of v_members v_ready v_commit_timeouts
    v_reveal_timeouts] in *;
  rewrite length_app in *; cbn [length] in *; lia.

Lemma change_epoch_refines sender epoch s r s' :
  change_epoch sender epoch s = Some (r, s') → vstep (view s) (view s').
Proof.
  intros Hrun. unfold change_epoch, committee_info_set, get_block_number,
    set_committee_selection_beacon_commit_phase, metadata_set in Hrun.
  run_M Hrun; resolve_node_guards; tests; subst; try apply V_stay.
  - rewrite phase_set_view, committee_info_set_view. eapply (V_start (view s)); [by split|].
    count_signals.
  - rewrite committee_info_set_view. eapply (V_ready (view s)); [by split|].
    count_signals.
Qed.

Lemma elem_of_eligible s i :
  i ∈ (get_committee s (get_epoch s)).(members) →
  s.(committee_selection_beacon_non_revealing_node) !! i = None → i ∈ eligible (view s).
Proof. intros. by apply list_elem_of_filter. Qed.

Lemma commit_refines sender commit s r s' :
  committee_selection_beacon_commit sender commit s = Some (r, s') → vstep (view s) (view s').
Proof.
  intros Hrun. unfold committee_selection_beacon_commit in Hrun.
  run_M Hrun; resolve_node_guards; tests; subst; try apply V_stay.
  eapply (V_commit (view s)); eauto using elem_of_eligible.
Qed.

Lemma reveal_refines sender reveal s r s' :
  committee_selection_beacon_reveal sender reveal s = Some (r, s') → vstep (view s) (view s').
Proof.
  intros Hrun. unfold committee_selection_beacon_reveal in Hrun.
  run_M Hrun; resolve_node_guards; tests; subst; try apply V_stay.
  eapply (V_reveal (view s)); eauto.
Qed.

(** Recording one more signal. *)
Definition v_signal_commit (i : NodeIndex) (v : BeaconView) : BeaconView :=
  v_with_timeouts (v.(v_commit_timeouts) ++ [i]) v.(v_reveal_timeouts) v.
Definition v_signal_reveal (i : NodeIndex) (v : BeaconView) : BeaconView :=
  v_with_timeouts v.(v_commit_timeouts) (v.(v_reveal_timeouts) ++ [i]) v.

Lemma clear_timeouts_view s :
  ∃ s', clear_committee_selection_beacon_timeouts (get_epoch s) s = Some (tt, s') ∧
    view s' = v_with_timeouts [] [] (view s).
Proof.
  unfold clear_committee_selection_beacon_timeouts, committee_info_set. unfold_M.
  eexists. split; [done|]. by rewrite committee_info_set_view.
Qed.

Lemma phase_set_epoch s p :
  get_epoch (set_metadata (<[Metadata.CommitteeSelectionBeaconPhase:=p]> s.(metadata)) s)
  = get_epoch s.
Proof. unfold get_epoch. simpl. by rewrite lookup_insert_ne. Qed.

Lemma finalize_commit_phase_view round s s' :
  finalize_commit_phase (get_epoch s) round s = Some (tt, s') →
  (quorum (view s) ∧ view s' = v_with_phase
     (Some (CommitteeSelectionBeaconPhase.Reveal (get_epoch s, round))) (view s)) ∨
  (¬ quorum (view s) ∧
     view s' = v_recommit round ∅ (view s).(v_members) (view s).(v_active) (view s)).
Proof.
  unfold finalize_commit_phase, set_committee_selection_beacon_reveal_phase,
    set_committee_selection_beacon_commit_phase, metadata_set, clear_committee_selection_beacons,
    clear_committee_selection_beacon_non_revealing_node. unfold_M.
  case_bool_decide as Hq; intros Hrun; [left|right]; (split; [done|]).
  { simplify_eq. apply phase_set_view. }
  set (p := Value.CommitteeSelectionBeaconPhase _) in Hrun.
  set (s1 := set_metadata _ s) in Hrun.
  set (s2 := set_committee_selection_beacon_non_revealing_node _ _) in Hrun.
  assert (get_epoch s2 = get_epoch s) as He by (apply (phase_set_epoch s p)).
  rewrite <-He in Hrun. destruct (clear_timeouts_view s2) as (s3 & Hr3 & Hv3).
  rewrite Hr3 in Hrun. simplify_eq. rewrite Hv3.
  change (view s2) with (mkBeaconView (view s1).(v_phase) (view s1).(v_epoch) ∅ ∅
    (view s1).(v_members) (view s1).(v_active) (view s1).(v_ready)
    (view s1).(v_commit_timeouts) (view s1).(v_reveal_timeouts)).
  unfold s1, p. by rewrite phase_set_view.
Qed.

Lemma commit_timeout_refines sender epoch round s r s' :
  committee_selection_beacon_commit_phase_timeout sender epoch round s = Some (r, s') →
  vstep (view s) (view s').
Proof.
  intros Hrun. unfold committee_selection_beacon_commit_phase_timeout, committee_info_set in Hrun.
  run_M Hrun; resolve_node_guards; tests; subst; try apply V_stay.
  - destruct (finalize_commit_phase _ _ _) as [[[] s1]|] eqn:Hf; [|done]. simplify_eq.
    change (get_epoch s) with (get_epoch (set_committee_info
      (<[get_epoch s:=with_timeouts ((get_committee s (get_epoch s)).(signalled_commit_phase_timeout) ++ [t])
       (get_committee s (get_epoch s)).(signalled_reveal_phase_timeout) (get_committee s (get_epoch s))]>
       s.(committee_info)) s)) in Hf at 1.
    apply finalize_commit_phase_view in Hf. rewrite committee_info_set_view in Hf.
    destruct Hf as [[Hq ->]|[Hq ->]].
    + eapply (V_to_reveal (view s) t); eauto; [by split|count_signals].
    + eapply (V_no_quorum (view s) t); eauto; [by split|count_signals].
  - rewrite committee_info_set_view. eapply (V_commit_timeout (view s)); [done|by split|count_signals].
Qed.

(** *** Restarting after a reveal phase *)

Definition v_with_nodes mem act v := mkBeaconView v.(v_phase) v.(v_epoch) v.(v_beacons)
  v.(v_non_revealing) mem act v.(v_ready) v.(v_commit_timeouts) v.(v_reveal_timeouts).

(** What slashing the nodes of [l] can do: kick nodes of [l]. *)
Definition kicked (l : list NodeIndex) (v v' : BeaconView) : Prop :=
  ∃ mem act, v' = v_with_nodes mem act v ∧ mem `sublist_of` v.(v_members) ∧
    act `sublist_of` v.(v_active) ∧ ∀ j, j ∉ l → j ∈ v.(v_members) → j ∈ mem.

Lemma kicked_refl l v : kicked l v v.
Proof. exists v.(v_members), v.(v_active). by destruct v. Qed.

Lemma kicked_trans l v1 v2 v3 : kicked l v1 v2 → kicked l v2 v3 → kicked l v1 v3.
Proof.
  intros (m1 & a1 & -> & Hm1 & Ha1 & Hk1) (m2 & a2 & -> & Hm2 & Ha2 & Hk2). simpl in *.
  exists m2, a2. split_and!; [done|by etrans|by etrans|]. intros j Hj Hin. auto.
Qed.

Lemma slash_node_kicked l i amount s s' :
  i ∈ l → slash_node_after_non_reveal_and_maybe_kick i amount s = Some (tt, s') →
  kicked l (view s) (view s').
Proof.
  intros Hi Hrun. unfold slash_node_after_non_reveal_and_maybe_kick, node_info_set in Hrun.
  unfold_M. destruct (s.(node_info) !! i) as [info|] eqn:En; [|done].
  set (s1 := set_node_info _ s) in Hrun. assert (view s1 = view s) as Hv1 by done.
  destruct (record_node_registry_change _ _ s1) as [[[] s2]|] eqn:Hr; [|done].
  apply record_node_registry_change_view in Hr. unfold_M.
  destruct (has_sufficient_stake i s2) as [[b s3]|] eqn:Hb; [|done].
  pose proof (has_sufficient_stake_readonly _ _ _ _ Hb) as ->.
  rewrite <-Hv1, <-Hr. destruct b; simpl in Hrun; unfold committee_info_set in Hrun; unfold_M; simplify_eq.
  { apply kicked_refl. }
  rewrite committee_info_set_view. eexists _, _. split_and!; [done|apply sublist_filter..|].
  intros j Hj Hin. apply list_elem_of_filter. split; [by intros ->|done].
Qed.

Lemma slash_nodes_kicked k amount l s s' :
  l ⊆ k → for_each (λ i, slash_node_after_non_reveal_and_maybe_kick i amount) l s = Some (tt, s') →
  kicked k (view s) (view s').
Proof.
  intros Hl. apply (for_each_inv (λ t, kicked k (view s) (view t))).
  - intros x t t' Hx Ht Hrun. eapply kicked_trans; [done|]. eapply slash_node_kicked; [|done]. auto.
  - apply kicked_refl.
Qed.

Lemma record_non_revealing_run l s :
  for_each (λ i, modify (λ s, set_committee_selection_beacon_non_revealing_node
    (<[i:=tt]> s.(committee_selection_beacon_non_revealing_node)) s)) l s
  = Some (tt, set_committee_selection_beacon_non_revealing_node
      (foldl (λ m i, <[i:=tt]> m) s.(committee_selection_beacon_non_revealing_node) l) s).
Proof.
  rewrite (for_each_modify (λ i s, set_committee_selection_beacon_non_revealing_node
    (<[i:=tt]> s.(committee_selection_beacon_non_revealing_node)) s)).
  do 2 f_equal. revert s. induction l as [|k l IH]; intros s; [by destruct s|].
  simpl. rewrite IH. by state_simpl.
Qed.

Lemma remove_beacons_run l s :
  for_each (λ i, modify (λ s, set_committee_selection_beacon
    (delete i s.(committee_selection_beacon)) s)) l s
  = Some (tt, set_committee_selection_beacon
      (foldl (λ m i, delete i m) s.(committee_selection_beacon) l) s).
Proof.
  rewrite (for_each_modify (λ i s, set_committee_selection_beacon
    (delete i s.(committee_selection_beacon)) s)).
  do 2 f_equal. revert s. induction l as [|k l IH]; intros s; [by destruct s|].
  simpl. rewrite IH. by state_simpl.
Qed.

Lemma foldl_insert_unit l (m : gmap NodeIndex unit) j :
  is_Some (foldl (λ m i, <[i:=tt]> m) m l !! j) ↔ is_Some (m !! j) ∨ j ∈ l.
Proof.
  revert m. induction l as [|i l IH]; intros m; simpl.
  - rewrite list.elem_of_nil. tauto.
  - rewrite IH, list.elem_of_cons, lookup_insert_is_Some'. naive_solver.
Qed.

(** The committed nodes without a reveal. *)
Lemma elem_of_non_revealing (b : gmap NodeIndex BeaconEntry) j :
  j ∈ (filter (λ '(_, (_, reveal)), is_some reveal = false) (table_rows b)).*1 ↔
  ∃ commit, b !! j = Some (commit, None).
Proof.
  rewrite list_elem_of_fmap. split.
  - intros ([i [c o]] & -> & [Ho Hi%elem_of_table_rows]%list_elem_of_filter).
    apply is_some_false in Ho as ->. simpl. eauto.
  - intros [c Hc]. exists (j, (c, None)). split; [done|]. apply list_elem_of_filter.
    split; [done|]. by apply elem_of_table_rows.
Qed.

Lemma slash_amount_readonly s a s' :
  get_committee_selection_beacon_non_reveal_slash_amount s = Some (a, s') → s' = s.
Proof.
  intros Hrun. unfold get_committee_selection_beacon_non_reveal_slash_amount in Hrun.
  by run_M Hrun.
Qed.

Lemma restart_view round s s' :
  restart_after_non_reveal (get_epoch s) round s = Some (tt, s') →
  ∃ nr mem act, view s' = v_recommit round nr mem act (view s) ∧
    (∀ j, is_Some (nr !! j) ↔ is_Some ((view s).(v_non_revealing) !! j) ∨
       ∃ commit, (view s).(v_beacons) !! j = Some (commit, None)) ∧
    mem `sublist_of` (view s).(v_members) ∧ act `sublist_of` (view s).(v_active) ∧
    (∀ j, revealed (view s) j → j ∈ (view s).(v_members) → j ∈ mem).
Proof.
  unfold restart_after_non_reveal, set_committee_selection_beacon_commit_phase, metadata_set.
  unfold_M. intros Hrun.
  set (p := Value.CommitteeSelectionBeaconPhase _) in Hrun.
  set (s1 := set_metadata _ s) in Hrun. rewrite record_non_revealing_run in Hrun.
  change (s1.(committee_selection_beacon)) with s.(committee_selection_beacon) in Hrun.
  set (l := (filter _ (table_rows s.(committee_selection_beacon))).*1) in Hrun.
  set (s2 := set_committee_selection_beacon_non_revealing_node _ s1) in Hrun.
  destruct (get_committee_selection_beacon_non_reveal_slash_amount s2) as [[a t]|] eqn:Ha; [|done].
  apply slash_amount_readonly in Ha as ->.
  destruct (for_each _ l s2) as [[[] s3]|] eqn:Hk; [|done].
  apply (slash_nodes_kicked l) in Hk as (mem & act & Hv3 & Hm & Hact & Hkeep); [|done].
  rewrite remove_beacons_run, foldl_delete_keys in Hrun.
  set (s4 := set_committee_selection_beacon ∅ s3) in Hrun.
  pose proof (phase_set_view s (CommitteeSelectionBeaconPhase.Commit (get_epoch s, round +[64] 1))) as Hv1.
  assert (get_epoch s4 = get_epoch s) as He4.
  { change (get_epoch s4) with (view s3).(v_epoch). rewrite Hv3. apply phase_set_epoch. }
  rewrite <-He4 in Hrun. destruct (clear_timeouts_view s4) as (s5 & Hr5 & Hv5).
  rewrite Hr5 in Hrun. simplify_eq.
  assert (view s2 = mkBeaconView (view s1).(v_phase) (view s1).(v_epoch) (view s1).(v_beacons)
    s2.(committee_selection_beacon_non_revealing_node) (view s1).(v_members) (view s1).(v_active)
    (view s1).(v_ready) (view s1).(v_commit_timeouts) (view s1).(v_reveal_timeouts)) as Hv2 by done.
  unfold s1, p in Hv2. rewrite Hv1 in Hv2. rewrite Hv2 in Hv3, Hm, Hact, Hkeep. simpl in Hm, Hact, Hkeep.
  exists s2.(committee_selection_beacon_non_revealing_node), mem, act.
  split_and!; [| |done|done|].
  - rewrite Hv5. change (view s4) with (v_with_beacons ∅ (view s3)). by rewrite Hv3.
  - intros j. unfold s2. simpl. rewrite foldl_insert_unit. unfold l. by rewrite elem_of_non_revealing.
  - intros j (c & rv & Hj) Hin. apply Hkeep; [|done]. unfold l. rewrite elem_of_non_revealing.
    simpl in Hj. intros [c' Hc']. congruence.
Qed.

Lemma all_revealed_forallb s :
  forallb (λ '(_, (_, reveal)), is_some reveal) (table_rows s.(committee_selection_beacon)) = true
  ↔ all_revealed (view s).
Proof.
  rewrite forallb_forall. unfold all_revealed, revealed. simpl. split.
  - intros Hall i [[c o] Hi]. specialize (Hall (i, (c, o))).
    rewrite <-list_elem_of_In, elem_of_table_rows in Hall. specialize (Hall Hi).
    destruct o; [eauto|done].
  - intros Hall [i [c o]] Hi%list_elem_of_In%elem_of_table_rows.
    destruct (Hall i) as (c' & rv & Hrv); [eauto|]. by simplify_eq.
Qed.

Lemma finalize_reveal_phase_view round s r s' :
  finalize_reveal_phase (get_epoch s) round s = Some (r, s') →
  (r = Success ExecutionData.EpochChange ∧ all_revealed (view s) ∧ ∃ mem act,
     view s' = mkBeaconView None (get_epoch s +[64] 1) ∅ ∅ mem act [] [] []) ∨
  (r = Success ExecutionData.None ∧ ¬ all_revealed (view s) ∧
     restart_after_non_reveal (get_epoch s) round s = Some (tt, s')).
Proof.
  unfold finalize_reveal_phase, clear_committee_selection_beacon_phase,
    clear_committee_selection_beacons, clear_committee_selection_beacon_non_revealing_node.
  unfold_M. destruct (forallb _ _) eqn:Hall; intros Hrun.
  - left. apply all_revealed_forallb in Hall.
    set (s1 := set_committee_selection_beacon_non_revealing_node _ _) in Hrun.
    assert (get_epoch s1 = get_epoch s) as He1
      by (unfold s1, get_epoch; simpl; by rewrite lookup_delete_ne).
    destruct (execute_epoch_change _ _ _ s1) as [[[] s2]|] eqn:Hx; [|done]. simplify_eq.
    rewrite <-He1 in Hx at 1. apply execute_epoch_change_view in Hx as (mem & act & Hv).
    split_and!; [done|done|]. exists mem, act. rewrite Hv, He1. unfold beacon_phase, s1. simpl.
    by rewrite lookup_delete_eq.
  - right. destruct (restart_after_non_reveal _ _ s) as [[[] s1]|] eqn:Hr; [|done]. simplify_eq.
    split_and!; [done| |done]. rewrite <-all_revealed_forallb. by rewrite Hall.
Qed.

Lemma reveal_timeout_refines sender epoch round s r s' :
  committee_selection_beacon_reveal_phase_timeout sender epoch round s = Some (r, s') →
  vstep (view s) (view s').
Proof.
  intros Hrun. unfold committee_selection_beacon_reveal_phase_timeout, committee_info_set in Hrun.
  run_M Hrun; resolve_node_guards; tests; subst; try apply V_stay.
  - change (get_epoch s) with (get_epoch (set_committee_info
      (<[get_epoch s:=with_timeouts (get_committee s (get_epoch s)).(signalled_commit_phase_timeout)
       ((get_committee s (get_epoch s)).(signalled_reveal_phase_timeout) ++ [t])
       (get_committee s (get_epoch s))]> s.(committee_info)) s)) in Hrun at 1.
    apply finalize_reveal_phase_view in Hrun as [(_ & Hall & mem & act & ->)|(_ & Hall & Hr)].
    + eapply (V_epoch_change (view s) t); eauto; [by split|count_signals].
    + apply restart_view in Hr as (nr & mem & act & -> & Hnr & Hm & Ha & Hk).
      rewrite committee_info_set_view in *.
      eapply (V_not_revealed (view s) t); eauto; [by split|count_signals].
  - rewrite committee_info_set_view. eapply (V_reveal_timeout (view s)); [done|by split|count_signals].
Qed.

Lemma beacon_step_refines s s' : beacon_step s s' → vstep (view s) (view s').
Proof.
  intros [| | | | |Hv]; eauto using change_epoch_refines, commit_refines, reveal_refines,
    commit_timeout_refines, reveal_timeout_refines. rewrite Hv. apply V_stay.
Qed.

Lemma reachable_inv s0 s : fresh (view s0) → rtc beacon_step s0 s → beacon_inv (view s).
Proof.
  intros Hf Hr. apply fresh_inv in Hf. revert Hf.
  induction Hr as [s|s t u Hst Hr IH]; [done|]. intros Hs. apply IH.
  eapply vstep_inv; [by apply beacon_step_refines|done].
Qed.

(** ** Claims *)

(** C6: The transactions of the epoch change implement the abstract beacon
    machine: every completed step of the executor is a step of [vstep] on
    what the beacon can see, for every response including reverts. *)
Theorem beacon_refinement s s' : beacon_step s s' → vstep (view s) (view s').
Proof. apply beacon_step_refines. Qed.

(** C4: From a fresh committee no sequence of transactions reaches a state
    in which the phase belongs to another epoch, a node that is not an
    eligible member has committed, a commit was revealed before the reveal
    phase, or a stored reveal does not hash to its commit; and a reveal phase
    always has commits of more than two thirds of the eligible members. *)
Theorem beacon_invariant s0 s : fresh (view s0) → rtc beacon_step s0 s → beacon_inv (view s).
Proof. apply reachable_inv. Qed.

(** More signals than two thirds, once the threshold is reached. *)
Lemma threshold_two_thirds v (l : list NodeIndex) :
  length l = v_threshold v → (2 * length v.(v_members) < 3 * length l)%nat.
Proof.
  intros ->. unfold v_threshold. 
  pose proof (Nat.div_mod_eq (2 * length v.(v_members)) 3).
  pose proof (Nat.mod_upper_bound (2 * length v.(v_members)) 3). lia.
Qed.

Lemma reveal_timeout_epoch_change sender epoch round s s' :
  committee_selection_beacon_reveal_phase_timeout sender epoch round s
    = Some (Success ExecutionData.EpochChange, s') →
  ∃ i mem act, only_node s sender = Ok i ∧
    beacon_phase s = Some (CommitteeSelectionBeaconPhase.Reveal (epoch, round)) ∧
    new_signal (view s) (view s).(v_reveal_timeouts) i ∧
    completes (view s) (view s).(v_reveal_timeouts) ∧ all_revealed (view s) ∧
    view s' = mkBeaconView None (get_epoch s +[64] 1) ∅ ∅ mem act [] [] [].
Proof.
  intros Hrun. unfold committee_selection_beacon_reveal_phase_timeout, committee_info_set in Hrun.
  run_M Hrun; resolve_node_guards; tests; subst; try done.
  change (get_epoch s) with (get_epoch (set_committee_info
    (<[get_epoch s:=with_timeouts (get_committee s (get_epoch s)).(signalled_commit_phase_timeout)
     ((get_committee s (get_epoch s)).(signalled_reveal_phase_timeout) ++ [t])
     (get_committee s (get_epoch s))]> s.(committee_info)) s)) in Hrun at 1.
  apply finalize_reveal_phase_view in Hrun as [(_ & Hall & mem & act & Hv)|(? & _ & _)]; [|done].
  exists t, mem, act. split_and!; [by apply Heqo|done|by split|count_signals|exact Hall|done].
Qed.

(** *** The history of the signals *)

(** Node [i] has signalled the timeout of this reveal phase on the way from [s0] to [s]:
    a transaction of this node was executed successfully. *)
Definition reveal_signalled (s0 s : StateExecutor) (epoch : Epoch) (round : CommitteeSelectionBeaconRound)
    (i : NodeIndex) : Prop :=
  ∃ s1 s2 sender data, rtc beacon_step s0 s1 ∧ only_node s1 sender = Ok i ∧
    committee_selection_beacon_reveal_phase_timeout sender epoch round s1 = Some (Success data, s2) ∧
    rtc beacon_step s2 s.

(** The transactions that record no signal of a reveal timeout. *)
Definition no_new_reveal_signal (v v' : BeaconView) : Prop :=
  v.(v_reveal_timeouts) = v'.(v_reveal_timeouts) ∨ v'.(v_reveal_timeouts) = [].

Lemma change_epoch_no_signal sender epoch s r s' :
  change_epoch sender epoch s = Some (r, s') → no_new_reveal_signal (view s) (view s').
Proof.
  intros Hrun. unfold change_epoch, committee_info_set, get_block_number,
    set_committee_selection_beacon_commit_phase, metadata_set in Hrun.
  run_M Hrun; resolve_node_guards; left; rewrite ?phase_set_view, ?committee_info_set_view; done.
Qed.

Lemma commit_no_signal sender commit s r s' :
  committee_selection_beacon_commit sender commit s = Some (r, s') → no_new_reveal_signal (view s) (view s').
Proof.
  intros Hrun. unfold committee_selection_beacon_commit in Hrun. by run_M Hrun; resolve_node_guards; left.
Qed.

Lemma reveal_no_signal sender reveal s r s' :
  committee_selection_beacon_reveal sender reveal s = Some (r, s') → no_new_reveal_signal (view s) (view s').
Proof.
  intros Hrun. unfold committee_selection_beacon_reveal in Hrun. by run_M Hrun; resolve_node_guards; left.
Qed.

Lemma commit_timeout_no_signal sender epoch round s r s' :
  committee_selection_beacon_commit_phase_timeout sender epoch round s = Some (r, s') →
  no_new_reveal_signal (view s) (view s').
Proof.
  intros Hrun. unfold committee_selection_beacon_commit_phase_timeout, committee_info_set in Hrun.
  run_M Hrun; resolve_node_guards; tests; subst; try (by left).
  - destruct (finalize_commit_phase _ _ _) as [[[] s1]|] eqn:Hf; [|done]. simplify_eq.
    change (get_epoch s) with (get_epoch (set_committee_info
      (<[get_epoch s:=with_timeouts ((get_committee s (get_epoch s)).(signalled_commit_phase_timeout) ++ [t])
       (get_committee s (get_epoch s)).(signalled_reveal_phase_timeout) (get_committee s (get_epoch s))]>
       s.(committee_info)) s)) in Hf at 1.
    apply finalize_commit_phase_view in Hf. rewrite committee_info_set_view in Hf.
    destruct Hf as [[_ ->]|[_ ->]]; [by left|by right].
  - left. by rewrite committee_info_set_view.
Qed.

(** The one that does records its sender, in the phase it names. *)
Lemma reveal_timeout_signal sender epoch round s r s' j :
  committee_selection_beacon_reveal_phase_timeout sender epoch round s = Some (r, s') →
  j ∈ (view s').(v_reveal_timeouts) →
  j ∈ (view s).(v_reveal_timeouts) ∨
  (∃ data, r = Success data) ∧ only_node s sender = Ok j ∧
    (view s').(v_phase) = Some (CommitteeSelectionBeaconPhase.Reveal (epoch, round)).
Proof.
  intros Hrun Hj. unfold committee_selection_beacon_reveal_phase_timeout, committee_info_set in Hrun.
  run_M Hrun; resolve_node_guards; tests; subst; try (by left).
  - change (get_epoch s) with (get_epoch (set_committee_info
      (<[get_epoch s:=with_timeouts (get_committee s (get_epoch s)).(signalled_commit_phase_timeout)
       ((get_committee s (get_epoch s)).(signalled_reveal_phase_timeout) ++ [t])
       (get_committee s (get_epoch s))]> s.(committee_info)) s)) in Hrun at 1.
    apply finalize_reveal_phase_view in Hrun as [(_ & _ & mem & act & Hv)|(_ & _ & Hr)].
    + rewrite Hv in Hj. by apply not_elem_of_nil in Hj.
    + apply restart_view in Hr as (nr & mem & act & Hv & _). rewrite Hv in Hj. by apply not_elem_of_nil in Hj.
  - rewrite committee_info_set_view in Hj |- *. cbn in Hj |- *.
    apply elem_of_app in Hj as [Hj|Hj%list_elem_of_singleton]; [by left|right].
    subst j. split_and!; [eauto|by apply Heqo|done].
Qed.

(** A phase with signals stays until they are discarded. *)
Lemma vstep_signals_phase v v' j :
  beacon_inv v → vstep v v' → j ∈ v.(v_reveal_timeouts) → j ∈ v'.(v_reveal_timeouts) → v'.(v_phase) = v.(v_phase).
Proof.
  intros [_ _ _ _ Hph] Hstep Hj Hj'. unfold phase_ok in Hph.
  destruct Hstep as [|?|? _ Hc|?|?|?|? ? ? Hp|?|?|?|?]; try done; try (by apply not_elem_of_nil in Hj').
  - exfalso. unfold completes in Hc. destruct (v_phase v) as [[[]|[]]|]; destruct_and!; try lia.
    replace (v_reveal_timeouts v) with (@nil NodeIndex) in Hj. by apply not_elem_of_nil in Hj.
  - exfalso. rewrite Hp in Hph. destruct_and!. replace (v_reveal_timeouts v) with (@nil NodeIndex) in Hj.
    by apply not_elem_of_nil in Hj.
Qed.

Lemma step_reveal_signal s s' j :
  beacon_step s s' → j ∈ (view s').(v_reveal_timeouts) →
  j ∈ (view s).(v_reveal_timeouts) ∨
  ∃ sender epoch round data, only_node s sender = Ok j ∧
    committee_selection_beacon_reveal_phase_timeout sender epoch round s = Some (Success data, s') ∧
    (view s').(v_phase) = Some (CommitteeSelectionBeaconPhase.Reveal (epoch, round)).
Proof.
  intros Hstep Hj. assert (no_new_reveal_signal (view s) (view s') → j ∈ (view s).(v_reveal_timeouts)) as Hquiet.
  { intros [->|Hnil]; [done|]. rewrite Hnil in Hj. by apply not_elem_of_nil in Hj. }
  destruct Hstep as [| | | |sender epoch round r Hrun|Hv];
    [left; eauto using change_epoch_no_signal, commit_no_signal, reveal_no_signal, commit_timeout_no_signal..| |].
  - destruct (reveal_timeout_signal sender epoch round s r s' j Hrun Hj) as [|([data ->] & Hn & Hp)]; [by left|right].
    by exists sender, epoch, round, data.
  - left. by rewrite <-Hv.
Qed.

(** Every recorded signal was sent by its node in the current reveal phase. *)
Lemma reveal_history s0 s j :
  fresh (view s0) → rtc beacon_step s0 s → j ∈ (view s).(v_reveal_timeouts) →
  ∃ epoch round, (view s).(v_phase) = Some (CommitteeSelectionBeaconPhase.Reveal (epoch, round)) ∧
    reveal_signalled s0 s epoch round j.
Proof.
  intros Hf Hr. revert s Hr. refine (rtc_ind_r (λ s, _ → ∃ epoch round, _ ∧ reveal_signalled s0 s epoch round j) s0 _ _).
  { intros Hj. destruct Hf as (_ & _ & _ & _ & _ & Hnil). rewrite Hnil in Hj. by apply not_elem_of_nil in Hj. }
  intros s s' Hr Hstep IH Hj.
  destruct (step_reveal_signal s s' j Hstep Hj) as [Hold|(sender & epoch & round & data & Hn & Hrun & Hp)].
  - destruct (IH Hold) as (epoch & round & Hp & s1 & s2 & sender & data & Hr1 & Hn & Hrun & Hr2).
    exists epoch, round. split.
    + rewrite (vstep_signals_phase _ _ j (reachable_inv s0 s Hf Hr) (beacon_step_refines _ _ Hstep) Hold Hj). done.
    + exists s1, s2, sender, data. split_and!; [done..|]. by eapply rtc_r.
  - exists epoch, round. split; [done|]. exists s, s', sender, data. done.
Qed.

(** C3: The epoch changes only by agreement: when a reveal timeout of a state reached
    from a fresh committee answers [EpochChange], the recorded signals together with
    that of the sender are those of more than two thirds of the committee, each of a
    different member, and each recorded signal was sent by its node in this reveal
    phase; more than two thirds of the eligible members have committed, every
    committed node has revealed a value that hashes to its commit for this epoch and
    round, and the next epoch starts without a phase. *)
Theorem epoch_change_agreement s0 s sender epoch round s' :
  fresh (view s0) → rtc beacon_step s0 s →
  committee_selection_beacon_reveal_phase_timeout sender epoch round s
    = Some (Success ExecutionData.EpochChange, s') →
  let committee := get_committee s epoch in
  epoch = get_epoch s ∧
  (∃ i, only_node s sender = Ok i ∧
     let signals := committee.(signalled_reveal_phase_timeout) ++ [i] in
     NoDup signals ∧ signals ⊆ committee.(members) ∧
     (2 * length committee.(members) < 3 * length signals)%nat ∧
     ∀ j, j ∈ committee.(signalled_reveal_phase_timeout) → reveal_signalled s0 s epoch round j) ∧
  (2 * length (eligible (view s)) / 3 < size s.(committee_selection_beacon))%nat ∧
  (∀ i, is_Some (s.(committee_selection_beacon) !! i) → i ∈ eligible (view s) ∧
     ∃ reveal, s.(committee_selection_beacon) !! i
       = Some (sha3_beacon epoch round reveal, Some reveal)) ∧
  get_epoch s' = epoch +[64] 1 ∧ fresh (view s').
Proof.
  intros Hf Hr Hrun committee. pose proof (reachable_inv s0 s Hf Hr) as [Hc _ _ Hrt Hph].
  apply reveal_timeout_epoch_change in Hrun as (i & mem & act & Hi & Hp & Hsig & Hk & Hall & Hv).
  unfold phase_ok in Hph. change (v_phase (view s)) with (beacon_phase s) in Hph.
  rewrite Hp in Hph. destruct Hph as (He & _ & _ & Hq & Hb). change (v_epoch (view s)) with (get_epoch s) in He.
  unfold committee. clear committee. rewrite He. split_and!; [done| |done| | |].
  - exists i. destruct (signal_ok _ _ _ Hsig Hrt) as [Hnd Hsub]. split_and!; [done|done|done| |].
    + apply (threshold_two_thirds (view s)). rewrite length_app. cbn [length]. rewrite Nat.add_1_r. exact Hk.
    + intros j Hj. destruct (reveal_history s0 s j Hf Hr Hj) as (e & rd & Hp' & Hs).
      change (v_phase (view s)) with (beacon_phase s) in Hp'. rewrite Hp, He in Hp'. by simplify_eq.
  - intros k Hk'. split; [by apply Hc|]. destruct (Hall k Hk') as (c & rv & Hkk).
    exists rv. simpl in Hkk. rewrite Hkk. rewrite (Hb k c rv Hkk). by rewrite He.
  - change (get_epoch s') with (view s').(v_epoch). by rewrite Hv.
  - by rewrite Hv.
Qed.
End machine.

(** ** What a slash takes *)

Section slashing.
Context {R : Ruint} {L : RuintLaws R} {B : Bigint} {H : Host}.

Lemma slashed_stake_eq amount st :
  0 ≤ staked st → 0 ≤ locked st → staked st + locked st < 2 ^ 256 → in_width 256 amount →
  staked (slashed_stake amount st) = Z.max 0 (staked st - amount) ∧
  staked (slashed_stake amount st) + locked (slashed_stake amount st)
    = Z.max 0 (staked st + locked st - amount) ∧
  0 ≤ locked (slashed_stake amount st).
Proof.
  intros Hs Hl Hf [Ha0 Ha]. unfold slashed_stake, zero, sub_assign. fold (hp_sub (staked st) amount).
  case_bool_decide; cbn [staked locked].
  - fold (hp_sub (locked st) 0). rewrite bool_decide_true by done.
    rewrite (hp_sub_exact (staked st)), (hp_sub_exact (locked st)) by (unfold in_width; lia). lia.
  - rewrite (hp_sub_exact amount) by (unfold in_width; lia). case_bool_decide; simpl; [|lia].
    fold (hp_sub (locked st) (amount - staked st)).
    rewrite hp_sub_exact by (unfold in_width; lia). lia.
Qed.

Lemma record_node_registry_change_run k change s c n :
  s.(committee_info) !! get_epoch s = Some c →
  s.(metadata) !! Metadata.BlockNumber = Some n →
  ∃ ch, record_node_registry_change k change s = Some (tt, set_committee_info
    (<[get_epoch s:=with_node_registry_changes ch c]> s.(committee_info)) s).
Proof.
  intros Hc Hn. unfold record_node_registry_change, get_block_number, committee_info_set.
  unfold_M. rewrite Hn, Hc. eauto.
Qed.

Lemma has_sufficient_stake_run i s info min :
  s.(node_info) !! i = Some info →
  s.(parameters) !! ProtocolParamKey.MinimumNodeStake
    = Some (ProtocolParamValue.MinimumNodeStake min) →
  in_width 256 (min * 10 ^ 18) → in_width 256 (node_flk info) →
  has_sufficient_stake i s = Some (bool_decide (min * 10 ^ 18 ≤ node_flk info), s).
Proof.
  intros Hi Hp Hm Hw. unfold has_sufficient_stake, get_min_stake. unfold_M. rewrite Hi, Hp.
  by rewrite hp_from_uint_exact, hp_add_exact by (done || lia).
Qed.

(** Slashing a node takes the amount from its stake, first from the
    staked and then from the locked tokens and at most what is there; nothing
    else of the ledger changes, and the node stays in the committee and in
    the active set exactly if the rest covers the minimum stake. *)
Theorem slash_node_spec i amount s info c n min :
  ledger_ok s → in_width 256 amount → in_width 256 (min * 10 ^ 18) →
  s.(node_info) !! i = Some info → s.(committee_info) !! get_epoch s = Some c →
  s.(metadata) !! Metadata.BlockNumber = Some n →
  s.(parameters) !! ProtocolParamKey.MinimumNodeStake
    = Some (ProtocolParamValue.MinimumNodeStake min) →
  ∃ s' st c',
    slash_node_after_non_reveal_and_maybe_kick i amount s = Some (tt, s') ∧
    s'.(node_info) = <[i:=with_stake st info]> s.(node_info) ∧
    staked st = Z.max 0 (staked (node_stake info) - amount) ∧
    staked st + locked st = Z.max 0 (node_flk info - amount) ∧
    flk_total s' = flk_total s - Z.min amount (node_flk info) ∧ ledger_ok s' ∧
    s'.(committee_info) !! get_epoch s = Some c' ∧
    (∀ j, j ∈ c'.(members) ↔ j ∈ c.(members) ∧
       (j = i → min * 10 ^ 18 ≤ Z.max 0 (node_flk info - amount))) ∧
    (∀ j, j ∈ c'.(active_node_set) ↔ j ∈ c.(active_node_set) ∧
       (j = i → min * 10 ^ 18 ≤ Z.max 0 (node_flk info - amount))).
Proof.
  intros Hok Ha Hmin Hi Hc Hn Hp. pose proof Ha as [Ha0 Ha1].
  destruct (node_flk_bounds s Hok i info Hi) as (Hs0 & Hl0 & Hfl).
  pose proof (flk_accounts_nonneg s Hok) as Hac. pose proof (ledger_fits s Hok) as Hfit.
  unfold flk_total in Hfit. unfold node_flk in Hfl.
  destruct (slashed_stake_eq amount (node_stake info) Hs0 Hl0 ltac:(lia) Ha) as (Hst & Hsum & Hlk).
  set (st := slashed_stake amount (node_stake info)) in *.
  unfold slash_node_after_non_reveal_and_maybe_kick, node_info_set. unfold_M.
  rewrite Hi. cbv beta iota. fold st.
  set (s1 := set_node_info _ s).
  assert (ledger_ok s1) as Hok1.
  { apply (ledger_ok_node_update s i info); [done|done|simpl; lia|done|].
    unfold flk_total, node_flk. simpl. lia. }
  assert (flk_total s1 = flk_total s - Z.min amount (node_flk info)) as Hft1.
  { unfold flk_total. unfold s1 at 2. rewrite (flk_nodes_update s i info) by done.
    unfold flk_accounts, node_flk in *. simpl. lia. }
  destruct (record_node_registry_change_run (public_key (with_stake st info))
    (NodeRegistryChange.Slashed amount (node_stake (with_stake st info))
       NodeRegistryChangeSlashReason.CommitteeBeaconNonReveal) s1 c n Hc Hn) as (ch & ->).
  cbv beta iota. set (s2 := set_committee_info _ s1).
  rewrite (has_sufficient_stake_run i s2 (with_stake st info) min);
    [|apply lookup_insert_eq|done|done|unfold in_width, node_flk; simpl; lia].
  assert (s2.(committee_info) !! get_epoch s = Some (with_node_registry_changes ch c)) as Hc2
    by apply lookup_insert_eq.
  destruct (ledger_frame s1 s2) as [Hf2 Ho2]; [done|done|].
  replace (node_flk (with_stake st info)) with (Z.max 0 (node_flk info - amount))
    by (unfold node_flk; simpl; lia).
  case_bool_decide as Hb; cbv beta iota; cbn [negb].
  - exists s2, st, (with_node_registry_changes ch c).
    rewrite Hf2. split_and!; try done; [by apply Ho2|simpl; tauto|simpl; tauto].
  - unfold committee_info_set. unfold_M. set (s3 := set_committee_info _ s2).
    destruct (ledger_frame s2 s3) as [Hf3 Ho3]; [done|done|].
    exists s3, st, (without_node i (with_node_registry_changes ch c)). rewrite Hf3, Hf2.
    split_and!; try done; [by apply Ho3, Ho2| | |].
    + unfold s3, committee_info_set. simpl. change (get_epoch s2) with (get_epoch s).
      unfold get_committee. rewrite lookup_insert_eq, Hc2. done.
    + intros j. simpl. rewrite list_elem_of_filter. naive_solver.
    + intros j. simpl. rewrite list_elem_of_filter. naive_solver.
Qed.
End slashing.
