(* ===== verification/Executor.v ===== *)
(** * Executor: transactions as a whole

    [execute_transaction] and [verify_transaction] of
    [core/application/src/state/executor.rs], with the accessors of
    [TransactionRequest] ([core/types/src/transaction.rs]) and
    [TransactionSender::verify] ([lib/fleek-crypto/src/transaction.rs]): the
    dispatch of every update method and of every call of the Fleek contract,
    the bookkeeping after it, and the checks before it.

    The theorems are about every method at once: a reverted transaction
    leaves no trace but its digest and its nonce, an executed one is not
    accepted again, and the key indexes of the node registry stay exact. *)

From Stdlib Require Import String.
From S2P Require Import Prelude HpFixed HpSigned Types State Ledger Accounts Nodes.
From S2P Require Import Content Auction Jobs Reputation Measurements Epoch Rewards Beacon.
From stdpp Require Import base gmap list sorting.
From Stdlib Require Import ZArith Lia.
Open Scope Z_scope.

Section Executor.
Context {R : Ruint} {B : Bigint} {H : Host}.

(** ** Accessors of a request *)

Definition sender (txn : TransactionRequest) : TransactionSender :=
  match txn with
  | UpdateRequest_ r => payload_sender (payload r)
  | EthereumRequest t => TransactionSender.AccountOwner (eth_from t)
  end.

Definition hash (txn : TransactionRequest) : TxHash :=
  match txn with
  | UpdateRequest_ r => to_digest (payload r)
  | EthereumRequest t => eth_hash t
  end.

(** [U256::as_u32] and [U256::as_u64] panic when the value does not fit. *)
Definition as_uint (w : Z) (v : Z) : option Z :=
  if bool_decide (0 ≤ v < 2 ^ w) then Some v else None.

Definition chain_id (txn : TransactionRequest) : option ChainId :=
  match txn with
  | UpdateRequest_ r => Some (payload_chain_id (payload r))
  | EthereumRequest t => v ← eth_chain_id t; as_uint 32 v
  end.

(** [TransactionSender::verify]. *)
Definition sender_verify (sender : TransactionSender) (signature : TransactionSignature)
    (digest : TxHash) : bool :=
  match sender, signature with
  | TransactionSender.NodeConsensus pk, TransactionSignature.NodeConsensus sig =>
      consensus_verify pk sig digest
  | TransactionSender.AccountOwner pk, TransactionSignature.AccountOwner sig =>
      account_verify pk sig digest
  | TransactionSender.NodeMain pk, TransactionSignature.NodeMain sig =>
      node_verify pk sig digest
  | _, _ => false
  end.

(** ** Execution *)

Definition FLEEK_CONTRACT : EthAddress := 0x0606060606060606060606060606060606060606%N.

Definition execute_fleek_transaction (txn : UpdateRequest) : Exec TransactionResponse :=
  let sender := payload_sender (payload txn) in
  match payload_method (payload txn) with
  | UpdateMethod.SubmitDeliveryAcknowledgmentAggregation commodity service_id _ _ =>
      submit_pod sender commodity service_id
  | UpdateMethod.Withdraw amount token receiving_address =>
      withdraw sender receiving_address amount token
  | UpdateMethod.ClearWithdraws withdraw_id => clear_withdraws sender withdraw_id
  | UpdateMethod.Mint amount token receiving_address eth_tx_hash block_number =>
      mint sender receiving_address amount token eth_tx_hash block_number
  | UpdateMethod.ClearMints block_number => clear_mints sender block_number
  | UpdateMethod.Deposit token amount => deposit sender amount token
  | UpdateMethod.Transfer amount token to => transfer sender amount token to
  | UpdateMethod.Stake amount node_public_key consensus_key node_domain worker_public_key
      worker_domain ports =>
      stake sender amount node_public_key consensus_key node_domain worker_public_key
        worker_domain ports
  | UpdateMethod.StakeLock node locked_for => stake_lock sender node locked_for
  | UpdateMethod.Unstake amount node => unstake sender amount node
  | UpdateMethod.WithdrawUnstaked node recipient => withdraw_unstaked sender node recipient
  | UpdateMethod.ChangeEpoch epoch => change_epoch sender epoch
  | UpdateMethod.CommitteeSelectionBeaconCommit commit =>
      committee_selection_beacon_commit sender commit
  | UpdateMethod.CommitteeSelectionBeaconReveal reveal =>
      committee_selection_beacon_reveal sender reveal
  | UpdateMethod.CommitteeSelectionBeaconCommitPhaseTimeout epoch round =>
      committee_selection_beacon_commit_phase_timeout sender epoch round
  | UpdateMethod.CommitteeSelectionBeaconRevealPhaseTimeout epoch round =>
      committee_selection_beacon_reveal_phase_timeout sender epoch round
  | UpdateMethod.AddService service service_id => add_service sender service service_id
  | UpdateMethod.RemoveService service_id => remove_service sender service_id
  | UpdateMethod.Slash service_id node => slash sender service_id node
  | UpdateMethod.SubmitReputationMeasurements measurements =>
      submit_reputation_measurements sender measurements
  | UpdateMethod.ChangeProtocolParam param value => change_protocol_param sender param value
  | UpdateMethod.OptIn => opt_in sender
  | UpdateMethod.OptOut => opt_out sender
  | UpdateMethod.UpdateContentRegistry updates => update_content_registry sender updates
  | UpdateMethod.IncrementNonce => mret (Success ExecutionData.None)
  | UpdateMethod.AddJobs jobs => add_jobs jobs
  | UpdateMethod.RemoveJobs jobs => remove_jobs jobs
  | UpdateMethod.JobUpdates updates => update_jobs updates
  end.

Definition execute_ethereum_transaction (txn : EthersTransaction) : Exec TransactionResponse :=
  match eth_to txn with
  | None => mret (Revert ExecutionError.InvalidStateFunction)
  | Some to_address =>
      let sender := eth_from txn in
      let owner := TransactionSender.AccountOwner sender in
      if bool_decide (to_address = FLEEK_CONTRACT) then
        match fleek_contract_decode (eth_input txn) with
        | Some (FleekContractCalls.Deposit token amount) =>
            match Tokens.try_from token with
            | None => mret (Revert ExecutionError.InvalidToken)
            | Some token => deposit owner (hp_from_ethers amount) token
            end
        | Some (FleekContractCalls.Withdraw amount token recipient) =>
            match Tokens.try_from token with
            | None => mret (Revert ExecutionError.InvalidToken)
            | Some token => withdraw owner recipient (hp_from_ethers amount) token
            end
        | Some (FleekContractCalls.Unstake amount node_public_key) =>
            unstake owner (hp_from_ethers amount) node_public_key
        | Some (FleekContractCalls.WithdrawUnstaked node_public_key _) =>
            withdraw_unstaked owner node_public_key None
        | Some (FleekContractCalls.Stake amount node_public_key consensus_key domain _ _) =>
            match parse_ip_addr domain with
            | None => mret (Revert ExecutionError.InvalidInternetAddress)
            | Some node_domain =>
                if bool_decide (List.length consensus_key ≠ 96%nat)
                then mret (Revert ExecutionError.InvalidConsensusKey)
                else
                  stake owner (hp_from_ethers amount) node_public_key
                    (Some (bytes_to_N consensus_key)) (Some node_domain)
                    (Some node_public_key) (Some node_domain) (Some NodePorts_default)
            end
        | Some (FleekContractCalls.ApproveClientKey client_key) =>
            approve_client_key sender client_key
        | Some FleekContractCalls.RevokeClientKey => revoke_client_key sender
        | None => mret (Revert ExecutionError.InvalidStateFunction)
        end
      else transfer owner (hp_from_ethers (eth_value txn)) Tokens.FLK to_address
  end.

Definition execute_transaction (txn : TransactionRequest) : Exec TransactionResponse :=
  let hash := hash txn in
  response ← match txn with
             | UpdateRequest_ payload => execute_fleek_transaction payload
             | EthereumRequest payload => execute_ethereum_transaction payload
             end;
  modify (λ s, set_executed_digests (<[hash:=tt]> s.(executed_digests)) s);;
  increment_nonce (sender txn);;
  mret response.

(** ** Verification *)

Definition verify_chain_id (txn : TransactionRequest) : Exec (Result unit ExecutionError) :=
  s ← get;
  match s.(metadata) !! Metadata.ChainId with
  | Some (Value.ChainId id) =>
      txn_id ← unwrap (chain_id txn);
      mret (if bool_decide (id = txn_id) then Ok tt else Err ExecutionError.InvalidChainId)
  | _ => mret (Ok tt)
  end.

(** The nonce check of [verify_fleek_transaction]. *)
Definition verify_nonce (s : StateExecutor) (sender : TransactionSender) (nonce : Nonce)
    : Result unit ExecutionError :=
  match sender with
  | TransactionSender.NodeMain node =>
      match s.(pub_key_to_index) !! node with
      | Some index =>
          match s.(node_info) !! index with
          | Some info =>
              if bool_decide (nonce ≠ node_nonce info +[64] 1)
              then Err ExecutionError.InvalidNonce else Ok tt
          | None => Err ExecutionError.NodeDoesNotExist
          end
      | None => Err ExecutionError.NodeDoesNotExist
      end
  | TransactionSender.NodeConsensus node =>
      match s.(consensus_key_to_index) !! node with
      | Some index =>
          match s.(node_info) !! index with
          | Some info =>
              if bool_decide (nonce ≠ node_nonce info +[64] 1)
              then Err ExecutionError.InvalidNonce else Ok tt
          | None => Ok tt
          end
      | None => Err ExecutionError.NodeDoesNotExist
      end
  | TransactionSender.AccountOwner account =>
      let account_info := account_or_default s account in
      if bool_decide (nonce ≠ Types.nonce account_info +[64] 1)
      then Err ExecutionError.InvalidNonce else Ok tt
  end.

Definition verify_fleek_transaction (s : StateExecutor) (txn : UpdateRequest)
    : Result unit ExecutionError :=
  if is_some (s.(executed_digests) !! to_digest (payload txn))
  then Err ExecutionError.AlreadyExecutedDigest
  else
    match verify_nonce s (payload_sender (payload txn)) (payload_nonce (payload txn)) with
    | Err e => Err e
    | Ok _ =>
        let digest := to_digest (payload txn) in
        if negb (sender_verify (payload_sender (payload txn)) (signature txn) digest)
        then Err ExecutionError.InvalidSignature
        else Ok tt
    end.

Definition with_from (a : EthAddress) (t : EthersTransaction) : EthersTransaction :=
  mkEthersTransaction (eth_hash t) (eth_nonce t) a (eth_to t) (eth_value t) (eth_input t)
    (eth_chain_id t) (eth_signature t).

(** [recover_from_mut] writes the recovered address into the transaction. *)
Definition verify_ethereum_transaction (txn : EthersTransaction)
    : Exec (Result unit ExecutionError * EthersTransaction) :=
  match recover_from_mut txn with
  | None => mret (Err ExecutionError.InvalidSignature, txn)
  | Some sender =>
      let txn := with_from sender txn in
      s ← get;
      let account_info := account_or_default s sender in
      n ← unwrap (as_uint 64 (eth_nonce txn));
      if bool_decide (n ≠ Types.nonce account_info +[64] 1)
      then mret (Err ExecutionError.InvalidNonce, txn)
      else if eth_verify_signature txn sender
      then mret (Ok tt, txn)
      else mret (Err ExecutionError.InvalidSignature, txn)
  end.

(** The transaction comes back as verification leaves it. *)
Definition verify_transaction (txn : TransactionRequest)
    : Exec (Result unit ExecutionError * TransactionRequest) :=
  r ← verify_chain_id txn;
  match r with
  | Err e => mret (Err e, txn)
  | Ok _ =>
      match txn with
      | UpdateRequest_ payload =>
          s ← get; mret (verify_fleek_transaction s payload, txn)
      | EthereumRequest payload =>
          r ← verify_ethereum_transaction payload;
          mret (r.1, EthereumRequest r.2)
      end
  end.
End Executor.

(** ** Reverts *)

Section reverts.
Context {R : Ruint} {B : Bigint} {H : Host} {HL : HostLaws H}.

Lemma change_epoch_revert_clean sender epoch : revert_clean (change_epoch sender epoch).
Proof.
  intros s e s' Hrun. unfold change_epoch, committee_info_set, get_block_number,
    set_committee_selection_beacon_commit_phase, metadata_set in Hrun.
  run_M Hrun; resolve_node_guards; done.
Qed.

Lemma beacon_commit_revert_clean sender commit :
  revert_clean (committee_selection_beacon_commit sender commit).
Proof.
  intros s e s' Hrun. unfold committee_selection_beacon_commit in Hrun.
  run_M Hrun; resolve_node_guards; done.
Qed.

Lemma beacon_reveal_revert_clean sender reveal :
  revert_clean (committee_selection_beacon_reveal sender reveal).
Proof.
  intros s e s' Hrun. unfold committee_selection_beacon_reveal in Hrun.
  run_M Hrun; resolve_node_guards; done.
Qed.

Lemma commit_timeout_revert_clean sender epoch round :
  revert_clean (committee_selection_beacon_commit_phase_timeout sender epoch round).
Proof.
  intros s e s' Hrun. unfold committee_selection_beacon_commit_phase_timeout in Hrun.
  run_M Hrun; resolve_node_guards; done.
Qed.

Lemma finalize_reveal_phase_success epoch round s r s' :
  finalize_reveal_phase epoch round s = Some (r, s') → is_success r = true.
Proof.
  intros Hrun. unfold finalize_reveal_phase in Hrun. unfold_M.
  destruct (forallb _ _); by run_M Hrun.
Qed.

Lemma reveal_timeout_revert_clean sender epoch round :
  revert_clean (committee_selection_beacon_reveal_phase_timeout sender epoch round).
Proof.
  intros s e s' Hrun. unfold committee_selection_beacon_reveal_phase_timeout in Hrun.
  run_M Hrun; resolve_node_guards; try done.
  by apply finalize_reveal_phase_success in Hrun.
Qed.

Lemma ret_revert_clean r : revert_clean (mret r).
Proof. intros s e s' Hrun. unfold_M. by simplify_eq. Qed.

Lemma add_jobs_revert_clean js : revert_clean (add_jobs js).
Proof.
  intros s e s' Hrun. unfold add_jobs in Hrun. unfold_M. destruct (assign_jobs _ _); [|done].
  destruct (for_each _ _ s) as [[? t]|]; [|done]. by destruct (for_each _ _ t) as [[]|].
Qed.
Lemma remove_jobs_revert_clean hs : revert_clean (remove_jobs hs).
Proof.
  intros s e s' Hrun. unfold remove_jobs in Hrun. unfold_M. by destruct (for_each _ _ s) as [[]|].
Qed.
Lemma update_jobs_revert_clean us : revert_clean (update_jobs us).
Proof.
  intros s e s' Hrun. unfold update_jobs in Hrun. unfold_M. by destruct (for_each _ _ s) as [[]|].
Qed.
End reverts.

#[export] Hint Resolve change_epoch_revert_clean beacon_commit_revert_clean
  beacon_reveal_revert_clean commit_timeout_revert_clean reveal_timeout_revert_clean
  ret_revert_clean add_jobs_revert_clean remove_jobs_revert_clean
  update_jobs_revert_clean submit_pod_revert_clean : lightning.

Section atomic.
Context {R : Ruint} {B : Bigint} {H : Host} {HL : HostLaws H}.

(** What remains of every executed transaction: its digest and its nonce. *)
Definition bookkeeping (txn : TransactionRequest) : Exec unit :=
  modify (λ s, set_executed_digests (<[hash txn:=tt]> s.(executed_digests)) s);;
  increment_nonce (sender txn).

Definition is_measurements (txn : TransactionRequest) : bool :=
  match txn with
  | UpdateRequest_ r =>
      match payload_method (payload r) with
      | UpdateMethod.SubmitReputationMeasurements _ => true
      | _ => false
      end
  | EthereumRequest _ => false
  end.

Lemma execute_ethereum_revert_clean t : revert_clean (execute_ethereum_transaction t).
Proof. unfold execute_ethereum_transaction. repeat case_match; eauto with lightning. Qed.

Lemma execute_fleek_revert_clean r :
  is_measurements (UpdateRequest_ r) = false → revert_clean (execute_fleek_transaction r).
Proof.
  unfold is_measurements, execute_fleek_transaction, add_service, remove_service, slash.
  intros. case_match; eauto with lightning. done.
Qed.

Lemma submit_measurements_revert sender ms s e s' :
  submit_reputation_measurements sender ms s = Some (Revert e, s') →
  ∃ m, s' = set_submitted_rep_measurements m s.
Proof.
  intros Hrun. unfold submit_reputation_measurements in Hrun.
  run_M Hrun; resolve_node_guards;
    first [by exists s.(submitted_rep_measurements); destruct s|by eexists].
Qed.

Lemma execute_transaction_split txn s r s' :
  execute_transaction txn s = Some (r, s') →
  ∃ t, match txn with
       | UpdateRequest_ p => execute_fleek_transaction p
       | EthereumRequest p => execute_ethereum_transaction p
       end s = Some (r, t) ∧ bookkeeping txn t = Some (tt, s').
Proof.
  intros Hrun. unfold execute_transaction in Hrun. unfold bookkeeping. unfold_M.
  destruct txn as [p|p]; cbn [sender hash] in *.
  - destruct (execute_fleek_transaction p s) as [[r1 t]|]; [|done]. exists t.
    destruct (increment_nonce _ _) as [[[] u]|]; by simplify_eq.
  - destruct (execute_ethereum_transaction p s) as [[r1 t]|]; [|done]. exists t.
    destruct (increment_nonce _ _) as [[[] u]|]; by simplify_eq.
Qed.

(** C28: A reverted transaction leaves nothing behind but its digest and the
    nonce of its sender; only a reverted report of measurements also counts
    as one of the submissions of its node. *)
Theorem revert_atomic txn s e s' :
  execute_transaction txn s = Some (Revert e, s') →
  ∃ m, bookkeeping txn (set_submitted_rep_measurements m s) = Some (tt, s') ∧
    (is_measurements txn = false → m = s.(submitted_rep_measurements)).
Proof.
  intros (t & Hex & Hb)%execute_transaction_split.
  destruct (is_measurements txn) eqn:Hm.
  - destruct txn as [p|p]; [|done]. unfold is_measurements in Hm.
    unfold execute_fleek_transaction in Hex. destruct (payload_method _); try done.
    apply submit_measurements_revert in Hex as [m ->]. by exists m.
  - exists s.(submitted_rep_measurements). split; [|done].
    replace (set_submitted_rep_measurements _ s) with t; [done|].
    trans s; [|by destruct s]. destruct txn as [p|p].
    + by eapply execute_fleek_revert_clean.
    + by eapply execute_ethereum_revert_clean.
Qed.
End atomic.

(** ** Nonces *)

Section nonces.
Context {R : Ruint} {B : Bigint} {H : Host} {HL : HostLaws H}.

Definition account_nonce (a : EthAddress) (s : StateExecutor) : Nonce :=
  nonce (account_or_default s a).

Lemma accounts_nonce {A} (m : Exec A) a :
  preserves account_info m → preserves (account_nonce a) m.
Proof.
  intros Hm s x s' Hrun. unfold account_nonce, account_or_default. by rewrite (Hm s x s' Hrun).
Qed.

Ltac nonce_eq :=
  unfold account_nonce, account_or_default in *; state_simpl;
  repeat match goal with
  | |- context [<[?k:=_]> _ !! ?a] =>
      destruct (decide (k = a)) as [<-|];
      [rewrite lookup_insert_eq|rewrite lookup_insert_ne by done]
  end; simpl; repeat case_match; simplify_eq/=; try done; by simplify_option_eq.

Lemma withdraw_nonce sender rcv amount token a :
  preserves (account_nonce a) (withdraw sender rcv amount token).
Proof.
  intros s r s' Hrun. unfold withdraw, withdraws_set, metadata_set, account_info_set in Hrun.
  run_M Hrun; nonce_eq.
Qed.

Lemma mint_nonce sender rcv amount token h n a :
  preserves (account_nonce a) (mint sender rcv amount token h n).
Proof.
  intros s r s' Hrun. unfold mint, governance_address, account_info_set in Hrun.
  run_M Hrun; nonce_eq.
Qed.

Lemma deposit_nonce sender amount token a :
  preserves (account_nonce a) (deposit sender amount token).
Proof. intros s r s' Hrun. unfold deposit, account_info_set in Hrun. run_M Hrun; nonce_eq. Qed.

Lemma transfer_nonce sender amount token to a :
  preserves (account_nonce a) (transfer sender amount token to).
Proof. intros s r s' Hrun. unfold transfer, account_info_set in Hrun. run_M Hrun; nonce_eq. Qed.

Lemma approve_client_key_nonce k bs a : preserves (account_nonce a) (approve_client_key k bs).
Proof. intros s r s' Hrun. unfold approve_client_key, account_info_set in Hrun. run_M Hrun; nonce_eq. Qed.

Lemma revoke_client_key_nonce k a : preserves (account_nonce a) (revoke_client_key k).
Proof. intros s r s' Hrun. unfold revoke_client_key, account_info_set in Hrun. run_M Hrun; nonce_eq. Qed.

Lemma withdraw_unstaked_nonce sender pk rcp a :
  preserves (account_nonce a) (withdraw_unstaked sender pk rcp).
Proof.
  intros s r s' Hrun. unfold withdraw_unstaked, node_info_set, account_info_set in Hrun.
  run_M Hrun; nonce_eq.
Qed.

Lemma create_node_accounts n : preserves account_info (create_node n).
Proof. unfold create_node, node_info_set, metadata_set. solve_preserves. Qed.
Lemma registry_change_accounts k c : preserves account_info (record_node_registry_change k c).
Proof. unfold record_node_registry_change, get_block_number, committee_info_set. solve_preserves. Qed.

Lemma stake_nonce sender amount pk ck d wk wd p a :
  preserves (account_nonce a) (stake sender amount pk ck d wk wd p).
Proof.
  intros s r s' Hrun. unfold stake, account_info_set, node_info_set in Hrun.
  run_M Hrun;
    repeat match goal with
    | Hc : create_node _ _ = Some _ |- _ => apply create_node_accounts in Hc
    | Hc : record_node_registry_change _ _ _ = Some _ |- _ => apply registry_change_accounts in Hc
    end;
    try (assert (account_info s1 = account_info s) as Ha by congruence);
    unfold account_nonce, account_or_default; state_simpl; try rewrite Ha; nonce_eq.
Qed.

Lemma mint_stables_nonce amount o a :
  preserves (account_nonce a) (mint_and_transfer_stables amount o).
Proof.
  intros s r s' Hrun. unfold mint_and_transfer_stables, account_info_set in Hrun. run_M Hrun; nonce_eq.
Qed.

Lemma mint_flk_nonce amount o a : preserves (account_nonce a) (mint_and_transfer_flk amount o).
Proof.
  intros s r s' Hrun. unfold mint_and_transfer_flk, account_info_set, get_epochs_per_year,
    metadata_set in Hrun. run_M Hrun; nonce_eq.
Qed.
#[local] Hint Resolve withdraw_nonce mint_nonce deposit_nonce transfer_nonce approve_client_key_nonce
  revoke_client_key_nonce withdraw_unstaked_nonce stake_nonce mint_stables_nonce mint_flk_nonce
  create_node_accounts registry_change_accounts : preserves.

Lemma stable_rewards_nonce e p n l acc a : preserves (account_nonce a) (stable_rewards e p n l acc).
Proof. revert acc. induction l as [|x l IH]; intros acc; simpl; solve_preserves. Qed.
#[local] Hint Resolve stable_rewards_nonce : preserves.

Lemma execute_epoch_change_nonce e c b a : preserves (account_nonce a) (execute_epoch_change e c b).
Proof.
  unfold execute_epoch_change, executor_calculate_reputation_scores, update_latencies, score_node,
    distribute_rewards, calculate_emissions, get_epochs_per_year, flk_reward, service_reward,
    clean_up_content_registry, clear_content_registry, write_providers, choose_new_committee,
    get_committee_size, get_epoch_time, get_commit_phase_duration, get_reveal_phase_duration,
    get_total_intervals, reassign_jobs, add_jobs, metadata_set, committee_info_set, node_info_set.
  solve_preserves.
Qed.
#[local] Hint Resolve execute_epoch_change_nonce : preserves.

Lemma guard_nonce sender a : preserves (account_nonce a) (only_node_with_sufficient_stake sender).
Proof. intros s r s' [-> _]%sufficient_stake_guard. done. Qed.
Lemma participating_guard_nonce sender a :
  preserves (account_nonce a) (only_node_with_sufficient_stake_and_participating sender).
Proof. intros s r s' [[-> _] _]%participating_guard. done. Qed.
Lemma has_sufficient_stake_nonce i a : preserves (account_nonce a) (has_sufficient_stake i).
Proof. intros s r s' ->%has_sufficient_stake_readonly. done. Qed.
Lemma registry_change_nonce k c a : preserves (account_nonce a) (record_node_registry_change k c).
Proof. apply accounts_nonce, registry_change_accounts. Qed.
#[local] Hint Resolve guard_nonce participating_guard_nonce has_sufficient_stake_nonce
  registry_change_nonce : preserves.

Lemma beacon_nonce r a :
  match payload_method (payload r) with
  | UpdateMethod.CommitteeSelectionBeaconCommit _ | UpdateMethod.CommitteeSelectionBeaconReveal _
  | UpdateMethod.CommitteeSelectionBeaconCommitPhaseTimeout _ _
  | UpdateMethod.CommitteeSelectionBeaconRevealPhaseTimeout _ _
  | UpdateMethod.ChangeEpoch _ => preserves (account_nonce a) (execute_fleek_transaction r)
  | _ => True
  end.
Proof.
  destruct (payload_method (payload r)) eqn:Hm; try done; unfold execute_fleek_transaction; rewrite Hm.
  - unfold change_epoch, committee_info_set, get_block_number,
      set_committee_selection_beacon_commit_phase, metadata_set. solve_preserves.
  - unfold committee_selection_beacon_commit. solve_preserves.
  - unfold committee_selection_beacon_reveal. solve_preserves.
  - unfold committee_selection_beacon_commit_phase_timeout, finalize_commit_phase,
      committee_info_set, set_committee_selection_beacon_commit_phase,
      set_committee_selection_beacon_reveal_phase, clear_committee_selection_beacons,
      clear_committee_selection_beacon_non_revealing_node,
      clear_committee_selection_beacon_timeouts, committee_info_set, metadata_set. solve_preserves.
  - unfold committee_selection_beacon_reveal_phase_timeout, finalize_reveal_phase,
      restart_after_non_reveal, slash_node_after_non_reveal_and_maybe_kick,
      get_committee_selection_beacon_non_reveal_slash_amount, clear_committee_selection_beacon_phase,
      committee_info_set, set_committee_selection_beacon_commit_phase,
      clear_committee_selection_beacons, clear_committee_selection_beacon_non_revealing_node,
      clear_committee_selection_beacon_timeouts, committee_info_set, metadata_set, node_info_set.
    solve_preserves.
Qed.

Lemma execute_fleek_nonce r a : preserves (account_nonce a) (execute_fleek_transaction r).
Proof.
  pose proof (beacon_nonce r a) as Hb. unfold execute_fleek_transaction in *.
  destruct (payload_method (payload r)); try done; clear Hb;
    unfold submit_pod, clear_withdraws, clear_mints, governance_address, stake_lock, unstake,
      add_service, remove_service, slash, submit_reputation_measurements, record_measurement,
      change_protocol_param, opt_in, opt_out, only_node_with_sufficient_unlocked_stake,
      update_content_registry, write_providers, add_jobs, remove_jobs, update_jobs, node_info_set,
      get_min_stake; solve_preserves.
Qed.

Lemma execute_ethereum_nonce t a : preserves (account_nonce a) (execute_ethereum_transaction t).
Proof. unfold execute_ethereum_transaction. solve_preserves. Qed.

Lemma bookkeeping_nonce txn s s' a :
  bookkeeping txn s = Some (tt, s') →
  account_nonce a s' = if decide (sender txn = TransactionSender.AccountOwner a)
                       then account_nonce a s +[64] 1 else account_nonce a s.
Proof.
  intros Hrun. unfold bookkeeping, increment_nonce, node_info_set, account_info_set in Hrun.
  run_M Hrun; unfold account_nonce, account_or_default in *; state_simpl; case_decide; simplify_eq; try done.
  - by rewrite lookup_insert_eq.
  - by rewrite lookup_insert_ne by congruence.
Qed.

Lemma bookkeeping_digest txn s s' :
  bookkeeping txn s = Some (tt, s') → s'.(executed_digests) = <[hash txn:=tt]> s.(executed_digests).
Proof.
  intros Hrun. unfold bookkeeping, increment_nonce, node_info_set, account_info_set in Hrun.
  by run_M Hrun.
Qed.

Lemma execute_transaction_nonce txn s r s' a :
  execute_transaction txn s = Some (r, s') →
  account_nonce a s' = if decide (sender txn = TransactionSender.AccountOwner a)
                       then account_nonce a s +[64] 1 else account_nonce a s.
Proof.
  intros (t & Hex & Hb)%execute_transaction_split.
  rewrite (bookkeeping_nonce _ _ _ _ Hb). assert (account_nonce a t = account_nonce a s) as ->; [|done].
  destruct txn; [by eapply execute_fleek_nonce|by eapply execute_ethereum_nonce].
Qed.

(** An executed transaction, reverted or not, advances the nonce of the
    account that sent it by one and the nonce of no other account. *)
Theorem nonce_advances txn s r s' a :
  execute_transaction txn s = Some (r, s') →
  account_nonce a s' = if decide (sender txn = TransactionSender.AccountOwner a)
                       then account_nonce a s +[64] 1 else account_nonce a s.
Proof. apply execute_transaction_nonce. Qed.

(** The transactions executed one after the other, whatever their responses. *)
Fixpoint execute_all (txns : list TransactionRequest) : Exec unit :=
  match txns with
  | [] => mret tt
  | txn :: txns => _ ← execute_transaction txn; execute_all txns
  end.

Lemma execute_all_nonce txns s s' a :
  execute_all txns s = Some (tt, s') →
  ∃ k, 0 ≤ k ≤ Z.of_nat (length txns) ∧
    wrap 64 (account_nonce a s') = wrap 64 (account_nonce a s + k).
Proof.
  revert s. induction txns as [|txn txns IH]; intros s Hrun.
  { exists 0. rewrite Z.add_0_r. split; [simpl; lia|]. by injection Hrun as <-. }
  simpl in Hrun. unfold_M. destruct (execute_transaction txn s) as [[r s1]|] eqn:Hex; [|done].
  destruct (IH s1 Hrun) as (k & Hk & Hn). rewrite Hn.
  rewrite (execute_transaction_nonce _ _ _ _ a Hex). case_decide.
  - exists (k + 1). split; [simpl; lia|]. unfold wrap. rewrite Zplus_mod_idemp_l. f_equal. lia.
  - exists k. split; [simpl; lia|done].
Qed.

(** A nonce that was the next one is not the next one again for 2^64 steps. *)
Lemma nonce_used n n' k :
  0 ≤ k < 2 ^ 64 - 1 → wrap 64 n' = wrap 64 ((n +[64] 1) + k) → n +[64] 1 ≠ n' +[64] 1.
Proof.
  intros Hk Hn' Heq. unfold wrap in *. rewrite Zplus_mod_idemp_l in Hn'.
  assert ((n + 1) mod 2 ^ 64 = (n + 1 + (k + 1)) mod 2 ^ 64) as Hm.
  { rewrite Heq, <-Zplus_mod_idemp_l, Hn', Zplus_mod_idemp_l. f_equal. lia. }
  assert ((k + 1) mod 2 ^ 64 = 0) as Hz.
  { replace (k + 1) with (n + 1 + (k + 1) - (n + 1)) by lia.
    rewrite Zminus_mod, <-Hm, Z.sub_diag. done. }
  rewrite Z.mod_small in Hz; lia.
Qed.

Lemma verify_ethereum_ok p s txn' s1 :
  verify_transaction (EthereumRequest p) s = Some (Ok tt, txn', s1) →
  ∃ a, recover_from_mut p = Some a ∧ txn' = EthereumRequest (with_from a p) ∧
    as_uint 64 (eth_nonce p) = Some (account_nonce a s +[64] 1).
Proof.
  intros Hv. unfold verify_transaction, verify_chain_id, verify_ethereum_transaction in Hv.
  destruct (recover_from_mut p) as [a|] eqn:Hr; [|by run_M Hv].
  run_M Hv; tests; simplify_eq/=; eauto.
Qed.

Lemma verify_fleek_ok p s txn' s1 :
  verify_transaction (UpdateRequest_ p) s = Some (Ok tt, txn', s1) →
  txn' = UpdateRequest_ p ∧ verify_fleek_transaction s p = Ok tt.
Proof. intros Hv. unfold verify_transaction, verify_chain_id in Hv. by run_M Hv. Qed.

Lemma verify_fleek_nonce p s a :
  verify_fleek_transaction s p = Ok tt → payload_sender (payload p) = TransactionSender.AccountOwner a →
  payload_nonce (payload p) = account_nonce a s +[64] 1.
Proof.
  unfold verify_fleek_transaction, verify_nonce. intros Hv Hs. rewrite Hs in Hv.
  destruct (is_some _); [done|]. case_bool_decide; [done|].
  done.
Qed.

(** The nonce an accepted transaction of an account carries. *)
Lemma verify_next_nonce txn s txn' s1 a :
  verify_transaction txn s = Some (Ok tt, txn', s1) →
  sender txn' = TransactionSender.AccountOwner a →
  ∀ s' txn2 s2, verify_transaction txn s' = Some (Ok tt, txn2, s2) →
  account_nonce a s +[64] 1 = account_nonce a s' +[64] 1.
Proof.
  intros Hv Hs s' txn2 s2 Hv2. destruct txn as [p|p].
  - apply verify_fleek_ok in Hv as [-> Hv], Hv2 as [_ Hv2]. simpl in Hs.
    by rewrite <-(verify_fleek_nonce p s a), <-(verify_fleek_nonce p s' a).
  - apply verify_ethereum_ok in Hv as (b & Hb & -> & Hn), Hv2 as (c & Hc & -> & Hn2).
    simpl in Hs. simplify_eq. congruence.
Qed.

(** C29: No transaction is accepted twice: after a verified transaction was
    executed, whatever its response, verifying the same request again does not
    succeed, neither at once nor, when an account sent it, after any later
    transactions (epoch changes, which clear the executed digests, included)
    until the 64-bit nonce comes round. *)
Theorem replay_rejected txn txn' s r s1 s2 later s' txn2 s3 :
  verify_transaction txn s = Some (Ok tt, txn', s1) →
  execute_transaction txn' s = Some (r, s2) →
  execute_all later s2 = Some (tt, s') →
  later = [] ∨ (∃ a, sender txn' = TransactionSender.AccountOwner a) ∧
    Z.of_nat (length later) < 2 ^ 64 - 1 →
  ¬ verify_transaction txn s' = Some (Ok tt, txn2, s3).
Proof.
  intros Hv Hex Hall Hcase Hv2.
  assert ((∃ a, sender txn' = TransactionSender.AccountOwner a) ∧
    Z.of_nat (length later) < 2 ^ 64 - 1 → False) as Haccount.
  { intros [[a Ha] Hlen]. destruct (execute_all_nonce later s2 s' a Hall) as (k & Hk & Hn).
    rewrite (execute_transaction_nonce _ _ _ _ a Hex), decide_True in Hn by done.
    apply (nonce_used (account_nonce a s) (account_nonce a s') k); [lia|done|].
    by eapply verify_next_nonce. }
  destruct Hcase as [->|?]; [|by apply Haccount]. injection Hall as <-.
  destruct txn as [p|p].
  - apply verify_fleek_ok in Hv as [-> _]. apply verify_fleek_ok in Hv2 as [_ Hv2].
    apply execute_transaction_split in Hex as (t & _ & Hb%bookkeeping_digest).
    unfold verify_fleek_transaction in Hv2. rewrite Hb in Hv2. simpl in Hv2.
    by rewrite lookup_insert_eq in Hv2.
  - apply Haccount. apply verify_ethereum_ok in Hv as (a & _ & -> & _). split; [by eexists|done].
Qed.
End nonces.
