(* ===== verification/Invariants.v ===== *)
(** * Invariants: what every transaction keeps

    Two invariants of the whole executor, over every update method and every
    Ethereum call: the key indexes of the node registry ([registry_ok], the
    assertion at the end of [execute_fleek_transaction]) and the FLK ledger
    ([ledger_ok]), with the exact amount by which a transaction changes the
    FLK in existence. *)

From Stdlib Require Import String.
From S2P Require Import Prelude HpFixed HpSigned Types State Ledger Accounts Nodes.
From S2P Require Import Content Auction Jobs Reputation Measurements Epoch Rewards Beacon.
From S2P Require Import Executor.
From stdpp Require Import base gmap list sorting.
From Stdlib Require Import ZArith Lia.
Open Scope Z_scope.

Section registry.
Context {R : Ruint} {B : Bigint} {H : Host} {HL : HostLaws H}.

Definition node_keys (n : NodeInfo) : NodePublicKey * ConsensusPublicKey :=
  (public_key n, consensus_key n).

(** What the registry invariant depends on. *)
Definition reg_view (s : StateExecutor) :=
  (s.(pub_key_to_index), s.(consensus_key_to_index), get_next_node_index s,
   node_keys <$> s.(node_info)).

Lemma fmap_row {V W} (f : V → W) (m m' : gmap Z V) i n :
  f <$> m = f <$> m' → m !! i = Some n → ∃ n', m' !! i = Some n' ∧ f n' = f n.
Proof.
  intros Hm Hi. assert (f <$> m' !! i = Some (f n)) as Hf
    by (by rewrite <-lookup_fmap, <-Hm, lookup_fmap, Hi).
  apply fmap_Some in Hf as (n' & Hi' & Heq). eauto.
Qed.

Lemma reg_view_ok s s' : reg_view s' = reg_view s → registry_ok s → registry_ok s'.
Proof.
  intros [= Hp Hc Hx Hn] [R1 R2 R3].
  assert (∀ (P : NodePublicKey * ConsensusPublicKey → Prop) i,
    (∃ n, s'.(node_info) !! i = Some n ∧ P (node_keys n)) ↔
    (∃ n, s.(node_info) !! i = Some n ∧ P (node_keys n))) as He.
  { intros P i. split; intros (n & Hi & HP).
    - destruct (fmap_row node_keys _ _ i n Hn Hi) as (n' & Hi' & Heq). exists n'. by rewrite Heq.
    - destruct (fmap_row node_keys _ _ i n (eq_sym Hn) Hi) as (n' & Hi' & Heq).
      exists n'. by rewrite Heq. }
  split.
  - intros k i. rewrite Hp, R1. symmetry. apply (He (λ x, x.1 = k)).
  - intros k i. rewrite Hc, R2. symmetry. apply (He (λ x, x.2 = k)).
  - intros i n Hi. rewrite Hx. eapply fmap_row in Hi as (n' & Hi' & _); [|exact Hn]. by apply R3 in Hi'.
Qed.

Lemma reg_view_node s i n n' :
  s.(node_info) !! i = Some n → node_keys n' = node_keys n →
  reg_view (set_node_info (<[i:=n']> s.(node_info)) s) = reg_view s.
Proof.
  intros Hi Hk. unfold reg_view. change (get_next_node_index (set_node_info _ s))
    with (get_next_node_index s). state_simpl.
  rewrite fmap_insert, insert_id; [done|]. by rewrite lookup_fmap, Hi, Hk.
Qed.

(** One or two writes to the row of a registered node. *)
Ltac reg_node :=
  first [done | by eapply reg_view_node
    | etrans; [eapply reg_view_node; [apply lookup_insert_eq|done]|by eapply reg_view_node]].

Lemma metadata_set_reg k v : k ≠ Metadata.NextNodeIndex → preserves reg_view (metadata_set k v).
Proof.
  intros Hk. apply preserves_modify. intros s. unfold reg_view, get_next_node_index. state_simpl.
  by rewrite lookup_insert_ne.
Qed.

Lemma guard_reg sender : preserves reg_view (only_node_with_sufficient_stake sender).
Proof. intros s r s' [-> _]%sufficient_stake_guard. done. Qed.
Lemma participating_guard_reg sender :
  preserves reg_view (only_node_with_sufficient_stake_and_participating sender).
Proof. intros s r s' [[-> _] _]%participating_guard. done. Qed.
Lemma has_sufficient_stake_reg i : preserves reg_view (has_sufficient_stake i).
Proof. intros s r s' ->%has_sufficient_stake_readonly. done. Qed.
#[local] Hint Resolve metadata_set_reg guard_reg participating_guard_reg has_sufficient_stake_reg : preserves.
#[local] Hint Extern 1 (_ ≠ _) => discriminate : preserves.

Lemma unstake_reg sender amount pk : preserves reg_view (unstake sender amount pk).
Proof.
  intros s r s' Hrun. unfold unstake, node_info_set in Hrun.
  run_M Hrun; resolve_node_guards; reg_node.
Qed.

Lemma stake_lock_reg sender pk t : preserves reg_view (stake_lock sender pk t).
Proof.
  intros s r s' Hrun. unfold stake_lock, node_info_set in Hrun.
  run_M Hrun; resolve_node_guards; reg_node.
Qed.

Lemma withdraw_unstaked_reg sender pk rcp : preserves reg_view (withdraw_unstaked sender pk rcp).
Proof.
  intros s r s' Hrun. unfold withdraw_unstaked, node_info_set, account_info_set in Hrun.
  run_M Hrun; resolve_node_guards; try done;
    match goal with |- reg_view (set_node_info _ ?t) = _ =>
      change (reg_view s) with (reg_view t); by eapply (reg_view_node t) end.
Qed.

Lemma opt_in_reg sender : preserves reg_view (opt_in sender).
Proof.
  intros s r s' Hrun. unfold opt_in, node_info_set in Hrun.
  run_M Hrun; resolve_node_guards; reg_node.
Qed.

Lemma opt_out_reg sender : preserves reg_view (opt_out sender).
Proof.
  intros s r s' Hrun. unfold opt_out, node_info_set in Hrun.
  run_M Hrun; resolve_node_guards; reg_node.
Qed.

Lemma increment_nonce_reg sender : preserves reg_view (increment_nonce sender).
Proof.
  intros s r s' Hrun. unfold increment_nonce, node_info_set, account_info_set in Hrun.
  run_M Hrun; reg_node.
Qed.

Lemma reg_view_intro s s' :
  s'.(pub_key_to_index) = s.(pub_key_to_index) →
  s'.(consensus_key_to_index) = s.(consensus_key_to_index) →
  get_next_node_index s' = get_next_node_index s →
  (∀ j, node_keys <$> s'.(node_info) !! j = node_keys <$> s.(node_info) !! j) →
  reg_view s' = reg_view s.
Proof.
  intros Hp Hc Hx Hn. unfold reg_view. rewrite Hp, Hc, Hx. f_equal.
  apply map_eq. intros j. by rewrite !lookup_fmap.
Qed.

Lemma score_node_reg sc d new i : preserves reg_view (score_node sc d new i).
Proof.
  intros s r s' Hrun. unfold score_node, node_info_set in Hrun.
  destruct (default (None, None) (new !! i)) as [x u].
  run_M Hrun; state_simpl; (apply reg_view_intro; [done..|]); intros j; state_simpl;
    (destruct (decide (i = j)) as [<-|]; [|by rewrite ?lookup_insert_ne]);
    rewrite ?lookup_insert_eq in *; simplify_eq; simpl; match goal with
    | Hn : node_info s !! _ = Some _ |- _ => by rewrite Hn
    end.
Qed.

Lemma registry_change_reg k c : preserves reg_view (record_node_registry_change k c).
Proof. intros s r s' [m ->]%record_node_registry_change_frame. done. Qed.
#[local] Hint Resolve score_node_reg registry_change_reg : preserves.

Lemma slash_node_reg i amount : preserves reg_view (slash_node_after_non_reveal_and_maybe_kick i amount).
Proof.
  intros s r s' Hrun. unfold slash_node_after_non_reveal_and_maybe_kick, node_info_set in Hrun.
  unfold_M. destruct (s.(node_info) !! i) as [n|] eqn:Hn; [|done].
  set (s1 := set_node_info _ s) in Hrun.
  assert (reg_view s1 = reg_view s) as Hv by (by eapply reg_view_node).
  rewrite <-Hv. clearbody s1.
  destruct (record_node_registry_change _ _ s1) as [[[] s2]|] eqn:Hr; [|done].
  apply registry_change_reg in Hr. rewrite <-Hr.
  destruct (has_sufficient_stake i s2) as [[b s3]|] eqn:Hb; [|done].
  apply has_sufficient_stake_reg in Hb. rewrite <-Hb.
  unfold committee_info_set in Hrun. unfold_M. destruct b; simpl in Hrun; by simplify_eq.
Qed.
#[local] Hint Resolve slash_node_reg unstake_reg stake_lock_reg withdraw_unstaked_reg
  opt_in_reg opt_out_reg : preserves.

Lemma mint_stables_reg amount o : preserves reg_view (mint_and_transfer_stables amount o).
Proof. unfold mint_and_transfer_stables, account_info_set. solve_preserves. Qed.
Lemma mint_flk_reg amount o : preserves reg_view (mint_and_transfer_flk amount o).
Proof. unfold mint_and_transfer_flk, account_info_set, get_epochs_per_year. solve_preserves. Qed.
#[local] Hint Resolve mint_stables_reg mint_flk_reg : preserves.

Lemma stable_rewards_reg e p n l acc : preserves reg_view (stable_rewards e p n l acc).
Proof. revert acc. induction l as [|x l IH]; intros acc; simpl; solve_preserves. Qed.
#[local] Hint Resolve stable_rewards_reg : preserves.

Lemma execute_epoch_change_reg e c b : preserves reg_view (execute_epoch_change e c b).
Proof.
  unfold execute_epoch_change, executor_calculate_reputation_scores, update_latencies,
    distribute_rewards, calculate_emissions, get_epochs_per_year, flk_reward, service_reward,
    clean_up_content_registry, clear_content_registry, write_providers, choose_new_committee,
    get_committee_size, get_epoch_time, get_commit_phase_duration, get_reveal_phase_duration,
    get_total_intervals, reassign_jobs, add_jobs, committee_info_set.
  solve_preserves.
Qed.
#[local] Hint Resolve execute_epoch_change_reg : preserves.

Lemma delete_phase_reg : preserves reg_view clear_committee_selection_beacon_phase.
Proof.
  apply preserves_modify. intros s. unfold reg_view, get_next_node_index. state_simpl.
  by rewrite lookup_delete_ne.
Qed.
Lemma commit_phase_reg e r : preserves reg_view (set_committee_selection_beacon_commit_phase e r).
Proof. by apply metadata_set_reg. Qed.
#[local] Hint Resolve delete_phase_reg commit_phase_reg : preserves.

(** Every method but staking. *)
Lemma execute_fleek_reg r :
  (∀ a b c d e f g, payload_method (payload r) ≠ UpdateMethod.Stake a b c d e f g) →
  preserves reg_view (execute_fleek_transaction r).
Proof.
  intros Hst. unfold execute_fleek_transaction.
  destruct (payload_method (payload r)); try (by exfalso; eapply Hst);
    unfold withdraw, withdraws_set, mint, deposit, transfer, account_info_set,
      submit_pod, clear_withdraws, clear_mints, governance_address,
      add_service, remove_service, slash, submit_reputation_measurements, record_measurement,
      change_protocol_param, update_content_registry, write_providers, add_jobs, remove_jobs,
      update_jobs, change_epoch, committee_info_set, get_block_number,
      committee_selection_beacon_commit,
      committee_selection_beacon_reveal, committee_selection_beacon_commit_phase_timeout,
      finalize_commit_phase, set_committee_selection_beacon_reveal_phase,
      clear_committee_selection_beacons, clear_committee_selection_beacon_non_revealing_node,
      clear_committee_selection_beacon_timeouts, committee_selection_beacon_reveal_phase_timeout,
      finalize_reveal_phase, restart_after_non_reveal,
      get_committee_selection_beacon_non_reveal_slash_amount, committee_info_set;
    solve_preserves.
Qed.

Lemma execute_ethereum_reg p :
  (∀ a b c d e f, fleek_contract_decode (eth_input p) ≠ Some (FleekContractCalls.Stake a b c d e f)) →
  preserves reg_view (execute_ethereum_transaction p).
Proof.
  intros Hst. unfold execute_ethereum_transaction.
  destruct (eth_to p); [|solve_preserves]. case_bool_decide.
  - destruct (fleek_contract_decode (eth_input p)) as [[]|]; try (by exfalso; eapply Hst);
      unfold deposit, withdraw, withdraws_set, account_info_set, approve_client_key,
        revoke_client_key, account_info_set; solve_preserves.
  - unfold transfer, account_info_set. solve_preserves.
Qed.

(** The registry stays consistent and at most one index is given out. *)
Definition reg_grows (s s' : StateExecutor) : Prop :=
  registry_ok s' ∧
  get_next_node_index s ≤ get_next_node_index s' ≤ get_next_node_index s + 1.

Lemma reg_grows_view s s' : reg_view s' = reg_view s → registry_ok s → reg_grows s s'.
Proof.
  intros Hv Hok. split; [by eapply reg_view_ok|]. injection Hv as _ _ Hx _. lia.
Qed.

Lemma stake_keeps_registry sender amount pk ck d wk wd p s r s' :
  registry_ok s → in_width 32 (get_next_node_index s + 1) →
  stake sender amount pk ck d wk wd p s = Some (r, s') → reg_grows s s'.
Proof.
  intros Hreg Hw Hrun. destruct r as [x|e].
  - split; [by eapply stake_registry|].
    apply stake_success in Hrun as (a & -> & _ & _ & [(i & n & n' & _ & _ & _ & _ & _ & _ & _ & _ &
      _ & Hm)|(n & _ & _ & _ & _ & _ & _ & _ & _ & _ & Hm)]); unfold get_next_node_index at 2 3.
    + rewrite Hm. fold (get_next_node_index s). lia.
    + rewrite Hm, lookup_insert_eq, wrap_small by done. lia.
  - rewrite (stake_revert_clean _ _ _ _ _ _ _ _ _ _ _ Hrun). split; [done|lia].
Qed.

Lemma execute_keeps_registry txn s r s' :
  registry_ok s → in_width 32 (get_next_node_index s + 1) →
  execute_transaction txn s = Some (r, s') → reg_grows s s'.
Proof.
  intros Hreg Hw (t & Hex & Hb)%execute_transaction_split.
  assert (reg_grows s t) as [Ht Hx].
  { destruct txn as [p|p].
    - destruct (payload_method (payload p)) eqn:Hm;
        try (refine (reg_grows_view s t _ Hreg); eapply execute_fleek_reg; [|exact Hex];
             rewrite Hm; congruence).
      unfold execute_fleek_transaction in Hex. rewrite Hm in Hex. by eapply stake_keeps_registry.
    - destruct (fleek_contract_decode (eth_input p)) as [[]|] eqn:Hd;
        try (refine (reg_grows_view s t _ Hreg); eapply execute_ethereum_reg; [|exact Hex];
             rewrite Hd; congruence).
      unfold execute_ethereum_transaction in Hex.
      destruct (eth_to p); [|unfold_M; simplify_eq; by apply reg_grows_view].
      case_bool_decide.
      + rewrite Hd in Hex.
        repeat case_match; try (unfold_M; simplify_eq; by apply reg_grows_view);
          by eapply stake_keeps_registry.
      + refine (reg_grows_view s t _ Hreg). revert Hex.
        assert (preserves reg_view (transfer (TransactionSender.AccountOwner (eth_from p))
          (hp_from_ethers (eth_value p)) Tokens.FLK n)) as Hp
          by (unfold transfer, account_info_set; solve_preserves). apply Hp. }
  assert (reg_view s' = reg_view t) as Hv.
  { revert Hb. assert (preserves reg_view (bookkeeping txn)) as Hp; [|apply Hp].
    unfold bookkeeping. apply preserves_bind; [by apply preserves_modify|].
    intros _. apply increment_nonce_reg. }
  split; [by apply (reg_view_ok t)|]. injection Hv as _ _ Hxv _. lia.
Qed.

(** No two nodes share a network key or a consensus key. *)
Definition keys_unique (s : StateExecutor) : Prop :=
  ∀ i j n m, s.(node_info) !! i = Some n → s.(node_info) !! j = Some m →
    public_key n = public_key m ∨ consensus_key n = consensus_key m → i = j.

(** C2: The condition that [execute_fleek_transaction] asserts in debug
    builds holds after every transaction: the node table and its two key
    indexes have the same number of rows.  The indexes stay exact, and no two
    nodes share a network key or a consensus key. *)
Theorem registry_invariant txn s r s' :
  registry_ok s → in_width 32 (get_next_node_index s + 1) →
  execute_transaction txn s = Some (r, s') →
  registry_ok s' ∧
  size s'.(pub_key_to_index) = size s'.(node_info) ∧
  size s'.(consensus_key_to_index) = size s'.(node_info) ∧ keys_unique s'.
Proof.
  intros Hreg Hw Hex. pose proof (execute_keeps_registry txn s r s' Hreg Hw Hex) as [Hr _].
  split; [done|]. by apply registry_counts.
Qed.
End registry.

(** ** The ledger *)

Section ledger.
Context {R : Ruint} {L : RuintLaws R} {B : Bigint} {H : Host} {HL : HostLaws H}.

Definition node_amounts (n : NodeInfo) : Z * Z := (staked (node_stake n), locked (node_stake n)).

(** What the ledger depends on. *)
Definition amount_view (s : StateExecutor) :=
  (s.(account_info), node_amounts <$> s.(node_info)).

Lemma amount_view_ledger s s' :
  amount_view s' = amount_view s → flk_total s' = flk_total s ∧ (ledger_ok s → ledger_ok s').
Proof.
  intros [= Ha Hn].
  assert (∀ k, node_amounts <$> s'.(node_info) !! k = node_amounts <$> s.(node_info) !! k) as Hk
    by (intros k; by rewrite <-!lookup_fmap, Hn).
  assert (flk_total s' = flk_total s) as Ht.
  { unfold flk_total, flk_accounts. rewrite Ha. f_equal. apply map_sum_rows; intros k; specialize (Hk k).
    - destruct (s'.(node_info) !! k), (s.(node_info) !! k); simplify_eq/=; try done.
      unfold node_amounts in Hk. simplify_eq. unfold node_flk. lia.
    - by rewrite <-(fmap_is_Some node_amounts), Hk, fmap_is_Some. }
  split; [done|]. intros [L1 L2 L3]. split; [by rewrite Ha| |by rewrite Ht].
  intros i n Hi. eapply fmap_row in Hi as (n' & Hi' & Heq); [|exact Hn].
  apply L2 in Hi'. unfold node_amounts in Heq. simplify_eq. lia.
Qed.

Lemma amount_view_node s i n n' :
  s.(node_info) !! i = Some n → node_amounts n' = node_amounts n →
  amount_view (set_node_info (<[i:=n']> s.(node_info)) s) = amount_view s.
Proof.
  intros Hi Hk. unfold amount_view. state_simpl. f_equal.
  rewrite fmap_insert, insert_id; [done|]. by rewrite lookup_fmap, Hi, Hk.
Qed.

Lemma guard_amounts sender : preserves amount_view (only_node_with_sufficient_stake sender).
Proof. intros s r s' [-> _]%sufficient_stake_guard. done. Qed.
Lemma participating_guard_amounts sender :
  preserves amount_view (only_node_with_sufficient_stake_and_participating sender).
Proof. intros s r s' [[-> _] _]%participating_guard. done. Qed.
Lemma has_sufficient_stake_amounts i : preserves amount_view (has_sufficient_stake i).
Proof. intros s r s' ->%has_sufficient_stake_readonly. done. Qed.
Lemma registry_change_amounts k c : preserves amount_view (record_node_registry_change k c).
Proof. intros s r s' [m ->]%record_node_registry_change_frame. done. Qed.

Lemma stake_lock_amounts sender pk t : preserves amount_view (stake_lock sender pk t).
Proof.
  intros s r s' Hrun. unfold stake_lock, node_info_set in Hrun.
  run_M Hrun; resolve_node_guards; first [done|by eapply amount_view_node].
Qed.
Lemma opt_in_amounts sender : preserves amount_view (opt_in sender).
Proof.
  intros s r s' Hrun. unfold opt_in, node_info_set in Hrun.
  run_M Hrun; resolve_node_guards; first [done|by eapply amount_view_node].
Qed.
Lemma opt_out_amounts sender : preserves amount_view (opt_out sender).
Proof.
  intros s r s' Hrun. unfold opt_out, node_info_set in Hrun.
  run_M Hrun; resolve_node_guards; first [done|by eapply amount_view_node].
Qed.
#[local] Hint Resolve guard_amounts participating_guard_amounts has_sufficient_stake_amounts
  registry_change_amounts stake_lock_amounts opt_in_amounts opt_out_amounts : preserves.

(** The methods that move no tokens. *)
Definition moves_tokens (m : UpdateMethod) : bool :=
  match m with
  | UpdateMethod.Withdraw _ _ _ | UpdateMethod.Mint _ _ _ _ _ | UpdateMethod.Deposit _ _
  | UpdateMethod.Transfer _ _ _ | UpdateMethod.Stake _ _ _ _ _ _ _ | UpdateMethod.Unstake _ _
  | UpdateMethod.WithdrawUnstaked _ _
  | UpdateMethod.CommitteeSelectionBeaconRevealPhaseTimeout _ _ => true
  | _ => false
  end.

Lemma execute_fleek_amounts r :
  moves_tokens (payload_method (payload r)) = false →
  preserves amount_view (execute_fleek_transaction r).
Proof.
  intros Hm. unfold execute_fleek_transaction.
  destruct (payload_method (payload r)); try done; clear Hm;
    unfold submit_pod, clear_withdraws, clear_mints, governance_address,
      add_service, remove_service, slash, submit_reputation_measurements, record_measurement,
      change_protocol_param, update_content_registry, write_providers, add_jobs, remove_jobs,
      update_jobs, change_epoch, committee_info_set, get_block_number, metadata_set,
      set_committee_selection_beacon_commit_phase, committee_selection_beacon_commit,
      committee_selection_beacon_reveal, committee_selection_beacon_commit_phase_timeout,
      finalize_commit_phase, set_committee_selection_beacon_reveal_phase,
      set_committee_selection_beacon_commit_phase,
      clear_committee_selection_beacons, clear_committee_selection_beacon_non_revealing_node,
      clear_committee_selection_beacon_timeouts, committee_info_set, metadata_set;
    solve_preserves.
Qed.

(** *** The methods that move tokens *)

Lemma transfer_ledger sender amount token to s r s' :
  ledger_ok s → 0 ≤ amount → transfer sender amount token to s = Some (Success r, s') →
  flk_total s' = flk_total s ∧ ledger_ok s'.
Proof.
  intros Hok Ha Hrun. apply transfer_success in Hrun as (a & -> & Hne & Hle & ->).
  assert (a ≠ to) as Hato by congruence.
  destruct (ledger_debit_exact s a amount Hok ltac:(lia)) as [Hs _].
  pose proof (ledger_credit_exact s a to amount Hok Hato ltac:(lia)) as Hc.
  rewrite Hs, Hc. by apply ledger_transfer.
Qed.

Lemma unstake_ledger sender amount pk s r s' :
  ledger_ok s → 0 ≤ amount → unstake sender amount pk s = Some (Success r, s') →
  flk_total s' = flk_total s ∧ ledger_ok s'.
Proof.
  intros Hok Ha Hrun. apply unstake_success in Hrun as (i & n & p & _ & _ & Hi & _ & Hle & _ & ->).
  pose proof (node_flk_bounds s Hok i n Hi) as (Bs & Bl & Bn).
  pose proof (ledger_fits s Hok). pose proof (flk_accounts_nonneg s Hok).
  rewrite hp_sub_exact by (unfold node_flk, flk_total in *; try split; lia).
  rewrite hp_add_exact by (unfold node_flk, flk_total in *; split; lia).
  set (n' := with_participation p _).
  destruct (ledger_node_effect s (set_node_info (<[i:=n']> s.(node_info)) s) i n n')
    as [Ht Hl]; [done..|].
  assert (node_flk n' = node_flk n) as Hf by (unfold node_flk, n'; simpl; lia).
  split; [lia|]. apply Hl; subst n'; simpl; try done; lia.
Qed.

Lemma withdraw_unstaked_ledger sender pk rcp s r s' :
  ledger_ok s → withdraw_unstaked sender pk rcp s = Some (Success r, s') →
  flk_total s' = flk_total s ∧ ledger_ok s'.
Proof.
  intros Hok Hrun. apply withdraw_unstaked_effect in Hrun as (i & n & _ & _ & _ & _ & _ & Hx); [|done].
  by destruct Hx as (_ & _ & Ht & Hl & _).
Qed.

Lemma slash_node_ledger i amount s s' :
  ledger_ok s → in_width 256 amount →
  slash_node_after_non_reveal_and_maybe_kick i amount s = Some (tt, s') →
  ledger_ok s' ∧ flk_total s' ≤ flk_total s.
Proof.
  intros Hok Ha Hrun. unfold slash_node_after_non_reveal_and_maybe_kick, node_info_set in Hrun.
  unfold_M. destruct (s.(node_info) !! i) as [n|] eqn:Hi; [|done].
  pose proof (node_flk_bounds s Hok i n Hi) as (Bs & Bl & Bn).
  pose proof (ledger_fits s Hok). pose proof (flk_accounts_nonneg s Hok).
  destruct (slashed_stake_eq amount (node_stake n) Bs Bl) as (Hst & Hsum & Hlk);
    [unfold node_flk, flk_total in *; lia|done|]. destruct Ha as [Ha0 _].
  set (n' := with_stake (slashed_stake amount (node_stake n)) n) in Hrun.
  set (s1 := set_node_info _ s) in Hrun.
  destruct (ledger_node_effect s s1 i n n') as [Ht Hl]; [done..|].
  assert (node_flk n' ≤ node_flk n) as Hf by (unfold node_flk, n'; simpl; lia).
  assert (ledger_ok s1) as Hok1 by (apply Hl; unfold n'; simpl; try done; lia).
  enough (amount_view s' = amount_view s1) as Hv.
  { apply amount_view_ledger in Hv as [Ht' Hl']. split; [by apply Hl'|lia]. }
  clearbody s1. clear -Hrun.
  destruct (record_node_registry_change _ _ s1) as [[[] s2]|] eqn:Hr; [|done].
  apply registry_change_amounts in Hr. rewrite <-Hr.
  destruct (has_sufficient_stake i s2) as [[b s3]|] eqn:Hb; [|done].
  apply has_sufficient_stake_amounts in Hb. rewrite <-Hb.
  unfold committee_info_set in Hrun. unfold_M. destruct b; simpl in Hrun; by simplify_eq.
Qed.

Lemma slash_amount_width s a s' :
  get_committee_selection_beacon_non_reveal_slash_amount s = Some (a, s') → in_width 256 a.
Proof.
  intros Hrun. unfold get_committee_selection_beacon_non_reveal_slash_amount in Hrun.
  assert (∀ v, in_width 256 (hp_from_uint 18 v)) as Hw.
  { intros v. unfold hp_from_uint. rewrite u256_mul_spec. by apply wrap_in_width. }
  run_M Hrun; [apply Hw|done].
Qed.

Lemma restart_ledger epoch round s s' :
  ledger_ok s → restart_after_non_reveal epoch round s = Some (tt, s') →
  ledger_ok s' ∧ flk_total s' ≤ flk_total s.
Proof.
  intros Hok. unfold restart_after_non_reveal, set_committee_selection_beacon_commit_phase,
    metadata_set, clear_committee_selection_beacon_timeouts, committee_info_set.
  unfold_M. rewrite record_non_revealing_run. set (l := (filter _ _).*1).
  set (s2 := set_committee_selection_beacon_non_revealing_node _ _). intros Hrun.
  destruct (amount_view_ledger s s2) as [Ht2 Hl2]; [done|].
  destruct (get_committee_selection_beacon_non_reveal_slash_amount s2) as [[a t]|] eqn:Ha; [|done].
  pose proof (slash_amount_width _ _ _ Ha) as Hw. apply slash_amount_readonly in Ha as ->.
  destruct (for_each _ l s2) as [[[] s3]|] eqn:Hk; [|done].
  assert (ledger_ok s3 ∧ flk_total s3 ≤ flk_total s2) as [Hl3 Ht3].
  { revert Hk. apply (for_each_inv (λ t, ledger_ok t ∧ flk_total t ≤ flk_total s2)).
    - intros x t t' _ [Htok Htle] Hsl. apply slash_node_ledger in Hsl as [? ?]; [|done..].
      split; [done|lia].
    - split; [by apply Hl2|lia]. }
  rewrite remove_beacons_run in Hrun. simplify_eq.
  match goal with |- ledger_ok ?t ∧ _ => destruct (amount_view_ledger s3 t) as [Ht4 Hl4]; [done|] end.
  split; [by apply Hl4|lia].
Qed.

Lemma finalize_reveal_phase_restart epoch round s r s' :
  finalize_reveal_phase epoch round s = Some (r, s') → r ≠ Success ExecutionData.EpochChange →
  restart_after_non_reveal epoch round s = Some (tt, s').
Proof.
  intros Hrun Hr. unfold finalize_reveal_phase in Hrun. unfold_M.
  destruct (forallb _ _); [by run_M Hrun|].
  destruct (restart_after_non_reveal epoch round s) as [[[] t]|]; by simplify_eq.
Qed.

Lemma reveal_timeout_ledger sender epoch round s r s' :
  ledger_ok s → r ≠ Success ExecutionData.EpochChange →
  committee_selection_beacon_reveal_phase_timeout sender epoch round s = Some (r, s') →
  ledger_ok s' ∧ flk_total s' ≤ flk_total s.
Proof.
  intros Hok Hr Hrun. unfold committee_selection_beacon_reveal_phase_timeout, committee_info_set in Hrun.
  run_M Hrun; resolve_node_guards; try (by split; [done|lia]).
  - apply finalize_reveal_phase_restart in Hrun; [|done].
    match type of Hrun with _ ?t = _ => destruct (amount_view_ledger s t) as [Ht4 Hl4]; [done|] end.
    apply restart_ledger in Hrun as [? ?]; [|by apply Hl4]. split; [done|lia].
  - match goal with |- ledger_ok ?t ∧ _ => destruct (amount_view_ledger s t) as [Ht4 Hl4]; [done|] end.
    split; [by apply Hl4|lia].
Qed.

(** *** Ethereum calls as update methods *)

(** The update method an Ethereum transaction stands for; [None] for the
    client-key calls and for what the dispatch rejects. *)
Definition ethereum_method (txn : EthersTransaction) : option UpdateMethod :=
  to_address ← eth_to txn;
  if bool_decide (to_address = FLEEK_CONTRACT) then
    call ← fleek_contract_decode (eth_input txn);
    match call with
    | FleekContractCalls.Deposit token amount =>
        (λ token, UpdateMethod.Deposit token amount) <$> Tokens.try_from token
    | FleekContractCalls.Withdraw amount token recipient =>
        (λ token, UpdateMethod.Withdraw amount token recipient) <$> Tokens.try_from token
    | FleekContractCalls.Unstake amount node => Some (UpdateMethod.Unstake amount node)
    | FleekContractCalls.WithdrawUnstaked node _ => Some (UpdateMethod.WithdrawUnstaked node None)
    | FleekContractCalls.Stake amount node consensus_key domain _ _ =>
        d ← parse_ip_addr domain;
        if bool_decide (List.length consensus_key ≠ 96%nat) then None
        else Some (UpdateMethod.Stake amount node (Some (bytes_to_N consensus_key)) (Some d)
                     (Some node) (Some d) (Some NodePorts_default))
    | FleekContractCalls.ApproveClientKey _ | FleekContractCalls.RevokeClientKey => None
    end
  else Some (UpdateMethod.Transfer (eth_value txn) Tokens.FLK to_address).

(** The update request with the same effect. *)
Definition ethereum_request (txn : EthersTransaction) (m : UpdateMethod) : UpdateRequest :=
  mkUpdateRequest (TransactionSignature.AccountOwner (eth_signature txn))
    (mkUpdatePayload (TransactionSender.AccountOwner (eth_from txn)) (eth_nonce txn) m 0).

Lemma ethereum_method_Some t m s :
  ethereum_method t = Some m →
  execute_ethereum_transaction t s = execute_fleek_transaction (ethereum_request t m) s.
Proof.
  unfold ethereum_method, execute_ethereum_transaction, execute_fleek_transaction.
  destruct (eth_to t) as [to|]; simpl; [|done]. case_bool_decide; [|by intros [= <-]].
  destruct (fleek_contract_decode (eth_input t))
    as [[? token ?|???? ? ?|token ?|??|??|?|]|]; simpl; try done; try by intros [= <-].
  - destruct (Tokens.try_from token); simpl; [by intros [= <-]|done].
  - destruct (parse_ip_addr _); simpl; [|done]. case_bool_decide; [done|by intros [= <-]].
  - destruct (Tokens.try_from token); simpl; [by intros [= <-]|done].
Qed.

Lemma ethereum_method_None t s r s' :
  ethereum_method t = None → execute_ethereum_transaction t s = Some (r, s') →
  s' = s ∨ ∃ k x, s' = set_account_info (<[k:=x]> s.(account_info)) s ∧
    flk_balance x = flk_balance (account_or_default s k).
Proof.
  unfold ethereum_method, execute_ethereum_transaction.
  destruct (eth_to t) as [to|]; simpl; [|intros _ Hrun; unfold_M; simplify_eq; by left].
  case_bool_decide; [|done].
  destruct (fleek_contract_decode (eth_input t)) as [[]|]; simpl; intros Hm Hrun;
    unfold approve_client_key, revoke_client_key, account_info_set in Hrun.
  all: try (run_M Hrun; simplify_option_eq; first [by left|by right; eauto]).
Qed.

(** *** Every transaction *)

Definition method_of (txn : TransactionRequest) : option UpdateMethod :=
  match txn with
  | UpdateRequest_ r => Some (payload_method (payload r))
  | EthereumRequest t => ethereum_method t
  end.

(** The amount a method carries, and what it adds to the FLK in existence. *)
Definition method_amount (m : UpdateMethod) : Z :=
  match m with
  | UpdateMethod.Withdraw amount _ _ | UpdateMethod.Mint amount _ _ _ _
  | UpdateMethod.Deposit _ amount | UpdateMethod.Transfer amount _ _
  | UpdateMethod.Stake amount _ _ _ _ _ _ | UpdateMethod.Unstake amount _ => amount
  | _ => 0
  end.
Definition method_delta (m : UpdateMethod) : Z :=
  match m with
  | UpdateMethod.Withdraw amount Tokens.FLK _ => - amount
  | UpdateMethod.Mint amount Tokens.FLK _ _ _ => amount
  | UpdateMethod.Deposit Tokens.FLK amount => amount
  | _ => 0
  end.
Definition is_reveal_timeout (m : UpdateMethod) : bool :=
  match m with
  | UpdateMethod.CommitteeSelectionBeaconRevealPhaseTimeout _ _ => true
  | _ => false
  end.

Lemma execute_fleek_ledger p s r s' :
  let m := payload_method (payload p) in
  ledger_ok s → registry_ok s → in_width 256 (method_amount m) → is_reveal_timeout m = false →
  execute_fleek_transaction p s = Some (Success r, s') →
  credited (flk_total s) (method_delta m) (flk_total s') ∧ (flk_total s + method_delta m < 2 ^ 256 → ledger_ok s').
Proof.
  cbv zeta. intros Hok Hreg Ha Hrt Hrun.
  assert (∀ d, flk_total s' = flk_total s + d ∧ ledger_ok s' →
    credited (flk_total s) d (flk_total s') ∧ (flk_total s + d < 2 ^ 256 → ledger_ok s')) as Hexact
    by (intros d [??]; split; [by left|done]).
  destruct (moves_tokens (payload_method (payload p))) eqn:Hmv.
  - unfold execute_fleek_transaction in Hrun.
    destruct (payload_method (payload p)); try done; simpl in *; clear Hmv Hrt; pose proof (proj1 Ha).
    + apply withdraw_ledger in Hrun as [Hx ?]; [|done..]. apply Hexact. destruct token; simpl in *; split; try done; lia.
    + apply mint_ledger in Hrun; [|done..]. by destruct token.
    + apply deposit_ledger in Hrun; [|done..]. by destruct token.
    + apply transfer_ledger in Hrun as [Hx ?]; [|done..]. apply Hexact. split; [lia|done].
    + apply stake_conserves in Hrun as (Hx & ? & _); [|done..]. apply Hexact. split; [lia|done].
    + apply unstake_ledger in Hrun as [Hx ?]; [|done..]. apply Hexact. split; [lia|done].
    + apply withdraw_unstaked_ledger in Hrun as [Hx ?]; [|done..]. apply Hexact. split; [lia|done].
  - apply execute_fleek_amounts in Hrun; [|done]. apply amount_view_ledger in Hrun as [Hx Hl].
    apply Hexact. split; [|by apply Hl]. destruct (payload_method (payload p)); simpl; try done; lia.
Qed.

Lemma account_row_ledger s k x :
  flk_balance x = flk_balance (account_or_default s k) →
  let s' := set_account_info (<[k:=x]> s.(account_info)) s in
  flk_total s' = flk_total s ∧ (ledger_ok s → ledger_ok s').
Proof.
  intros Hx. cbv zeta.
  destruct (ledger_account_effect s (set_account_info (<[k:=x]> s.(account_info)) s) k x)
    as [Ht Hl]; [done..|]. split; [lia|]. intros Hok.
  pose proof (account_flk_bounds s Hok k). pose proof (ledger_fits s Hok). apply Hl; [done|lia|lia].
Qed.

Lemma bookkeeping_ledger txn s s' :
  bookkeeping txn s = Some (tt, s') → flk_total s' = flk_total s ∧ (ledger_ok s → ledger_ok s').
Proof.
  intros Hrun. unfold bookkeeping, increment_nonce, node_info_set, account_info_set in Hrun.
  set (s1 := λ s, set_executed_digests (<[hash txn:=tt]> s.(executed_digests)) s) in Hrun.
  destruct (amount_view_ledger s (s1 s)) as [Ht1 Hl1]; [done|].
  assert (∀ t, flk_total t = flk_total (s1 s) ∧ (ledger_ok (s1 s) → ledger_ok t) →
    flk_total t = flk_total s ∧ (ledger_ok s → ledger_ok t)) as Htrans by (intros t [??]; split; [lia|auto]).
  run_M Hrun; apply Htrans.
  - apply amount_view_ledger. by eapply amount_view_node.
  - apply amount_view_ledger. by eapply amount_view_node.
  - by apply account_row_ledger.
Qed.

(** What a transaction with its answer may do to the ledger. *)
Definition ledger_effect (txn : TransactionRequest) (r : TransactionResponse) (s s' : StateExecutor) : Prop :=
  match method_of txn with
  | Some m =>
      if is_reveal_timeout m then ledger_ok s' ∧ flk_total s' ≤ flk_total s
      else if is_success r then
        credited (flk_total s) (method_delta m) (flk_total s') ∧ (flk_total s + method_delta m < 2 ^ 256 → ledger_ok s')
      else ledger_ok s' ∧ flk_total s' = flk_total s
  | None => ledger_ok s' ∧ flk_total s' = flk_total s
  end.

Lemma ledger_effect_total txn r s t s' :
  flk_total s' = flk_total t → (ledger_ok t → ledger_ok s') → ledger_effect txn r s t → ledger_effect txn r s s'.
Proof.
  intros Ht Hl. unfold ledger_effect. rewrite Ht. destruct (method_of txn) as [m|]; [|naive_solver].
  destruct (is_reveal_timeout m); [naive_solver|]. destruct (is_success r); naive_solver.
Qed.

(** The response and the state before the bookkeeping. *)
Lemma execute_ledger txn s r s' :
  ledger_ok s → registry_ok s → (∀ m, method_of txn = Some m → in_width 256 (method_amount m)) →
  r ≠ Success ExecutionData.EpochChange →
  match txn with
  | UpdateRequest_ p => execute_fleek_transaction p
  | EthereumRequest p => execute_ethereum_transaction p
  end s = Some (r, s') →
  ledger_effect txn r s s'.
Proof.
  intros Hok Hreg Ham Hr Hrun.
  assert (∀ p, execute_fleek_transaction p s = Some (r, s') → in_width 256 (method_amount (payload_method (payload p))) →
    ledger_effect (UpdateRequest_ p) r s s') as Hf.
  { intros p Hx Ha. unfold ledger_effect. cbn [method_of]. destruct (is_reveal_timeout _) eqn:Hrt.
    - unfold execute_fleek_transaction in Hx. destruct (payload_method (payload p)); try done.
      by eapply reveal_timeout_ledger.
    - destruct r as [d|e]; simpl.
      + by eapply execute_fleek_ledger.
      + destruct (is_measurements (UpdateRequest_ p)) eqn:Hm.
        * unfold is_measurements in Hm. unfold execute_fleek_transaction in Hx.
          destruct (payload_method (payload p)); try done.
          apply submit_measurements_revert in Hx as [m ->].
          destruct (amount_view_ledger s (set_submitted_rep_measurements m s)) as [? Hl]; [done|].
          split; [by apply Hl|done].
        * apply execute_fleek_revert_clean in Hx as ->; done. }
  destruct txn as [p|p]; [apply Hf; [done|by apply Ham]|].
  destruct (ethereum_method p) as [m|] eqn:Hm.
  - rewrite (ethereum_method_Some p m s Hm) in Hrun. specialize (Hf (ethereum_request p m) Hrun (Ham m Hm)).
    unfold ledger_effect in *. cbn [method_of] in *. by rewrite Hm.
  - unfold ledger_effect. cbn [method_of]. rewrite Hm.
    destruct (ethereum_method_None p s r s' Hm Hrun) as [->|(k & x & -> & Hx)]; [done|].
    destruct (account_row_ledger s k x Hx). auto.
Qed.

(** C1: The FLK in existence is conserved by every transaction that does not end the
    epoch, up to the amount its method declares.  Amounts are values of 256 bits.  A
    successful FLK mint or deposit adds its amount and a successful FLK withdrawal
    takes its amount away; a reveal timeout that slashes never adds any; everything
    else, and every reverted transaction, leaves the total as it is, and no balance or
    stake overflows or becomes negative.  The exception is a mint or a deposit that
    takes the total to 2^256 or more: the balance it credits may wrap, and then
    exactly 2^256 are lost. *)
Theorem flk_conservation txn s r s' :
  ledger_ok s → registry_ok s → (∀ m, method_of txn = Some m → in_width 256 (method_amount m)) →
  r ≠ Success ExecutionData.EpochChange → execute_transaction txn s = Some (r, s') →
  match method_of txn with
  | Some m =>
      if is_reveal_timeout m then ledger_ok s' ∧ flk_total s' ≤ flk_total s
      else if is_success r then
        credited (flk_total s) (method_delta m) (flk_total s') ∧ (flk_total s + method_delta m < 2 ^ 256 → ledger_ok s')
      else ledger_ok s' ∧ flk_total s' = flk_total s
  | None => ledger_ok s' ∧ flk_total s' = flk_total s
  end.
Proof.
  intros Hok Hreg Ham Hr (t & Hex & Hb)%execute_transaction_split.
  assert (flk_total s' = flk_total t ∧ (ledger_ok t → ledger_ok s')) as [Ht Hl] by (by eapply bookkeeping_ledger).
  by apply (ledger_effect_total txn r s t s' Ht Hl), execute_ledger.
Qed.

(** The recipient of an Ethereum call to withdraw unstaked tokens is ignored, and so are
    the worker key and the worker domain of a call to stake. *)
Lemma ethereum_recipient_ignored t node recipient s :
  eth_to t = Some FLEEK_CONTRACT → fleek_contract_decode (eth_input t) = Some (FleekContractCalls.WithdrawUnstaked node recipient) →
  execute_ethereum_transaction t s = withdraw_unstaked (TransactionSender.AccountOwner (eth_from t)) node None s.
Proof. intros Ht Hd. unfold execute_ethereum_transaction. rewrite Ht. simpl. by rewrite Hd. Qed.

Lemma ethereum_worker_ignored t amount node key domain d worker worker_domain s :
  eth_to t = Some FLEEK_CONTRACT →
  fleek_contract_decode (eth_input t) = Some (FleekContractCalls.Stake amount node key domain worker worker_domain) →
  parse_ip_addr domain = Some d → List.length key = 96%nat →
  execute_ethereum_transaction t s = stake (TransactionSender.AccountOwner (eth_from t)) amount node
    (Some (bytes_to_N key)) (Some d) (Some node) (Some d) (Some NodePorts_default) s.
Proof.
  intros Ht Hd Hp Hk. unfold execute_ethereum_transaction. rewrite Ht. simpl.
  rewrite Hd, Hp. by rewrite bool_decide_false by lia.
Qed.
End ledger.
