(* ===== verification/Genesis.v ===== *)
(** * Genesis: the first state

    [Genesis] and its parts ([core/types/src/genesis.rs]) and
    [apply_genesis_block] ([core/application/src/env.rs]), which fills the
    empty tables.  The theorems show that the state it builds satisfies the
    invariants the other files start from, that it sets every parameter whose
    absence the executor treats as unreachable, and that loading a genesis
    twice changes nothing. *)

From S2P Require Import Prelude HpFixed Types State Ledger Accounts Nodes Content Jobs.
From S2P Require Import Measurements Epoch Beacon.
From stdpp Require Import base gmap list strings sorting.
From Stdlib Require Import ZArith Lia.
Open Scope Z_scope.

Record GenesisAccount := mkGenesisAccount {
  ga_public_key : EthAddress;
  ga_flk_balance : Z;
  ga_stables_balance : Z;
  ga_bandwidth_balance : Z
}.

Record GenesisService := mkGenesisService {
  gs_id : ServiceId;
  gs_owner : EthAddress;
  gs_commodity_type : CommodityTypes
}.

Record GenesisNodeServed := mkGenesisNodeServed {
  gns_served : CommodityServed;
  gns_stables_revenue : Z
}.

Record GenesisTotalServed := mkGenesisTotalServed {
  gts_served : CommodityServed;
  gts_reward_pool : Z
}.

Record GenesisNode := mkGenesisNode {
  gn_owner : EthAddress;
  gn_primary_public_key : NodePublicKey;
  gn_consensus_public_key : ConsensusPublicKey;
  gn_primary_domain : IpAddr;
  gn_worker_domain : IpAddr;
  gn_worker_public_key : NodePublicKey;
  gn_ports : NodePorts;
  gn_stake : Staking;
  gn_reputation : option Z;
  gn_current_epoch_served : option GenesisNodeServed;
  gn_genesis_committee : bool
}.

(** The price is an [f64]: the text it prints as. *)
Record GenesisPrices := mkGenesisPrices {
  gp_commodity : CommodityTypes;
  gp_price : string
}.

Record GenesisLatency := mkGenesisLatency {
  gl_node_public_key_lhs : NodePublicKey;
  gl_node_public_key_rhs : NodePublicKey;
  gl_latency_in_millis : Z
}.

Record Genesis := mkGenesis {
  g_chain_id : ChainId;
  g_epoch_start : Z;
  g_epoch_time : Z;
  g_epochs_per_year : Z;
  g_committee_size : Z;
  g_node_count : Z;
  g_min_stake : Z;
  g_eligibility_time : Z;
  g_lock_time : Epoch;
  g_max_inflation : Z;
  g_protocol_share : Z;
  g_node_share : Z;
  g_service_builder_share : Z;
  g_consumer_rebate : Z;
  g_max_boost : Z;
  g_max_lock_time : Z;
  g_min_num_measurements : Z;
  g_node_info : list GenesisNode;
  g_service : list GenesisService;
  g_account : list GenesisAccount;
  g_client : gmap ClientPublicKey EthAddress;
  g_commodity_prices : list GenesisPrices;
  g_supply_at_genesis : Z;
  g_protocol_fund_address : EthAddress;
  g_governance_address : EthAddress;
  g_total_served : gmap Epoch GenesisTotalServed;
  g_latencies : option (list GenesisLatency);
  g_reputation_ping_timeout : Duration;
  g_topology_target_k : Z;
  g_topology_min_nodes : Z;
  g_commit_phase_duration : Z;
  g_reveal_phase_duration : Z;
  g_non_reveal_slash_amount : Z;
  g_total_intervals : Z
}.

(** [load_from_file] after parsing: the arithmetic is on [u64]. *)
Definition load_from_file_check (g : Genesis) : bool :=
  negb (bool_decide
    (g_commit_phase_duration g +[64] g_reveal_phase_duration g
     > wrap 64 (2 * g_epoch_time g) / 3)).

(** [NodeInfo::from], [NodeServed::from], [TotalServed::from]. *)
Definition NodeInfo_from (value : GenesisNode) : NodeInfo :=
  mkNodeInfo (gn_owner value) (gn_primary_public_key value) (gn_consensus_public_key value) 0
    (gn_stake value) (gn_primary_domain value) (gn_worker_domain value) (gn_ports value)
    (gn_worker_public_key value) Participation.True 0.
Definition NodeServed_from (v : GenesisNodeServed) : NodeServed :=
  mkNodeServed (gns_served v) (gns_stables_revenue v).
Definition TotalServed_from (v : GenesisTotalServed) : TotalServed :=
  mkTotalServed (gts_served v) (gts_reward_pool v).

Section genesis.
Context {R : Ruint} {H : Host}.

Definition total_intervals (g : Genesis) : Z :=
  if bool_decide (g_total_intervals g = 0) then 1 else g_total_intervals g.

(** The metadata written first, and the governance account. *)
Definition genesis_metadata (g : Genesis) : Exec unit :=
  metadata_set Metadata.LastEpochHash (Value.Hash 0%N);;
  metadata_set Metadata.ChainId (Value.ChainId (g_chain_id g));;
  metadata_set Metadata.BlockNumber (Value.BlockNumber 0);;
  metadata_set Metadata.WithdrawId (Value.WithdrawId 0);;
  metadata_set Metadata.ProtocolFundAddress
    (Value.AccountPublicKey (g_protocol_fund_address g));;
  metadata_set Metadata.TimeInterval
    (Value.TimeInterval (g_epoch_time g / total_intervals g));;
  metadata_set Metadata.GovernanceAddress (Value.AccountPublicKey (g_governance_address g));;
  account_info_set (g_governance_address g)
    (mkAccountInfo (hp_from_uint 18 0) (hp_from_uint 6 0) 0 0 None);;
  let supply_at_genesis := hp_from_uint 18 (g_supply_at_genesis g) in
  metadata_set Metadata.TotalSupply (Value.HpUfixed supply_at_genesis);;
  metadata_set Metadata.SupplyYearStart (Value.HpUfixed supply_at_genesis).

Definition genesis_parameters (g : Genesis) : list (ProtocolParamKey * ProtocolParamValue) :=
  [(ProtocolParamKey.MaxBoost, ProtocolParamValue.MaxBoost (g_max_boost g));
   (ProtocolParamKey.MaxStakeLockTime, ProtocolParamValue.MaxStakeLockTime (g_max_lock_time g));
   (ProtocolParamKey.EpochTime, ProtocolParamValue.EpochTime (g_epoch_time g));
   (ProtocolParamKey.EpochsPerYear, ProtocolParamValue.EpochsPerYear (g_epochs_per_year g));
   (ProtocolParamKey.MinimumNodeStake, ProtocolParamValue.MinimumNodeStake (g_min_stake g));
   (ProtocolParamKey.LockTime, ProtocolParamValue.LockTime (g_lock_time g));
   (ProtocolParamKey.MaxInflation, ProtocolParamValue.MaxInflation (g_max_inflation g));
   (ProtocolParamKey.NodeShare, ProtocolParamValue.NodeShare (g_node_share g));
   (ProtocolParamKey.ProtocolShare, ProtocolParamValue.ProtocolShare (g_protocol_share g));
   (ProtocolParamKey.ServiceBuilderShare,
    ProtocolParamValue.ServiceBuilderShare (g_service_builder_share g));
   (ProtocolParamKey.EligibilityTime, ProtocolParamValue.EligibilityTime (g_eligibility_time g));
   (ProtocolParamKey.CommitteeSize, ProtocolParamValue.CommitteeSize (g_committee_size g));
   (ProtocolParamKey.NodeCount, ProtocolParamValue.NodeCount (g_node_count g));
   (ProtocolParamKey.MinNumMeasurements,
    ProtocolParamValue.MinNumMeasurements (g_min_num_measurements g));
   (ProtocolParamKey.ReputationPingTimeout,
    ProtocolParamValue.ReputationPingTimeout (g_reputation_ping_timeout g));
   (ProtocolParamKey.TopologyTargetK, ProtocolParamValue.TopologyTargetK (g_topology_target_k g));
   (ProtocolParamKey.TopologyMinNodes,
    ProtocolParamValue.TopologyMinNodes (g_topology_min_nodes g));
   (ProtocolParamKey.CommitteeSelectionBeaconCommitPhaseDuration,
    ProtocolParamValue.CommitteeSelectionBeaconCommitPhaseDuration (g_commit_phase_duration g));
   (ProtocolParamKey.CommitteeSelectionBeaconRevealPhaseDuration,
    ProtocolParamValue.CommitteeSelectionBeaconRevealPhaseDuration (g_reveal_phase_duration g));
   (ProtocolParamKey.CommitteeSelectionBeaconNonRevealSlashAmount,
    ProtocolParamValue.CommitteeSelectionBeaconNonRevealSlashAmount
      (g_non_reveal_slash_amount g));
   (ProtocolParamKey.TotalTimeIntervals,
    ProtocolParamValue.TotalTimeIntervals (total_intervals g))].

Definition param_insert (r : ProtocolParamKey * ProtocolParamValue) : Exec unit :=
  modify (λ s, set_parameters (<[r.1:=r.2]> s.(parameters)) s).

(** What the loop over the genesis nodes collects. *)
Record GenesisNodes := mkGenesisNodes {
  committee_members : list NodeIndex;
  active_nodes : list NodeIndex;
  new_nodes : list (NodePublicKey * NodeRegistryChange)
}.

Definition add_genesis_node (min_stake : Z) (acc : GenesisNodes) (node : GenesisNode)
    : Exec GenesisNodes :=
  let node_info := NodeInfo_from node in
  let node_info := with_stake
    (with_staked (Z.max (staked (node_stake node_info)) (hp_from_uint 18 min_stake))
       (node_stake node_info)) node_info in
  let changes := new_nodes acc ++ [(public_key node_info, NodeRegistryChange.New)] in
  s ← get;
  let node_index := get_next_node_index s in
  modify (λ s, set_consensus_key_to_index
    (<[consensus_key node_info:=node_index]> s.(consensus_key_to_index)) s);;
  modify (λ s, set_pub_key_to_index
    (<[public_key node_info:=node_index]> s.(pub_key_to_index)) s);;
  node_info_set node_index node_info;;
  metadata_set Metadata.NextNodeIndex (Value.NextNodeIndex (node_index +[32] 1));;
  match gn_current_epoch_served node with
  | Some served => modify (λ s, set_current_epoch_served
      (<[node_index:=NodeServed_from served]> s.(current_epoch_served)) s)
  | None => mret tt
  end;;
  match gn_reputation node with
  | Some rep =>
      if bool_decide (0 ≤ rep ≤ 100)
      then modify (λ s, set_rep_scores (<[node_index:=rep]> s.(rep_scores)) s)
      else panic
  | None => mret tt
  end;;
  mret (mkGenesisNodes
    (if gn_genesis_committee node then committee_members acc ++ [node_index]
     else committee_members acc)
    (active_nodes acc ++ [node_index]) changes).

Fixpoint add_genesis_nodes (min_stake : Z) (acc : GenesisNodes) (nodes : list GenesisNode)
    : Exec GenesisNodes :=
  match nodes with
  | [] => mret acc
  | node :: nodes =>
      acc ← add_genesis_node min_stake acc node;
      add_genesis_nodes min_stake acc nodes
  end.

Definition genesis_committee (g : Genesis) (nodes : GenesisNodes) : Committee :=
  let epoch_end := g_epoch_time g +[64] g_epoch_start g in
  let epoch_transition_timestamp :=
    (epoch_end -[64] g_commit_phase_duration g) -[64] g_reveal_phase_duration g in
  mkCommittee (committee_members nodes) [] [] [] epoch_end epoch_transition_timestamp
    (active_nodes nodes) {[0 := new_nodes nodes]}.

Definition add_genesis_service (v : GenesisService) : Exec unit :=
  modify (λ s, set_services
    (<[gs_id v:=mkService (gs_owner v) (gs_commodity_type v)]> s.(services)) s).

Definition add_genesis_account (v : GenesisAccount) : Exec unit :=
  account_info_set (ga_public_key v)
    (mkAccountInfo (ga_flk_balance v) (hp_from_uint 6 (ga_stables_balance v))
       (ga_bandwidth_balance v) 0 None).

Definition add_genesis_client (r : ClientPublicKey * EthAddress) : Exec unit :=
  modify (λ s, set_client_keys (<[r.1:=(r.2, 0)]> s.(client_keys)) s).

Definition add_genesis_price (v : GenesisPrices) : Exec unit :=
  big_price ← unwrap (hp_from_f64 6 (gp_price v));
  modify (λ s, set_commodity_prices (<[gp_commodity v:=big_price]> s.(commodity_prices)) s).

Definition add_genesis_total (r : Epoch * GenesisTotalServed) : Exec unit :=
  modify (λ s, set_total_served (<[r.1:=TotalServed_from r.2]> s.(total_served)) s).

Definition add_genesis_latency (lat : GenesisLatency) : Exec unit :=
  if bool_decide (gl_node_public_key_lhs lat < gl_node_public_key_rhs lat)%N then
    s ← get;
    index_lhs ← unwrap (s.(pub_key_to_index) !! gl_node_public_key_lhs lat);
    index_rhs ← unwrap (s.(pub_key_to_index) !! gl_node_public_key_rhs lat);
    modify (λ s, set_latencies
      (<[(index_lhs, index_rhs):=gl_latency_in_millis lat * 10 ^ 6]> s.(latencies)) s)
  else panic.

Definition apply_genesis_block (g : Genesis) : Exec bool :=
  s ← get;
  if is_some (s.(metadata) !! Metadata.Epoch) then mret false
  else
    genesis_metadata g;;
    for_each param_insert (genesis_parameters g);;
    nodes ← add_genesis_nodes (g_min_stake g) (mkGenesisNodes [] [] []) (g_node_info g);
    metadata_set Metadata.GenesisCommittee (Value.GenesisCommittee (committee_members nodes));;
    committee_info_set 0 (genesis_committee g nodes);;
    for_each add_genesis_service (g_service g);;
    for_each add_genesis_account (g_account g);;
    for_each add_genesis_client (table_rows (g_client g));;
    for_each add_genesis_price (g_commodity_prices g);;
    for_each add_genesis_total (table_rows (g_total_served g));;
    for_each add_genesis_latency (default [] (g_latencies g));;
    metadata_set Metadata.Epoch (Value.Epoch 0);;
    metadata_set Metadata.EpochEra (Value.EpochEra 0);;
    mret true.
End genesis.

(** ** The invariants at genesis *)

(** The tables [apply_genesis_block] does not write. *)
Definition unwritten (s : StateExecutor) :=
  (s.(rep_measurements), s.(submitted_rep_measurements), s.(last_epoch_served),
   s.(service_revenue), s.(executed_digests), s.(uptime),
   (s.(uri_to_node), s.(node_to_uri), s.(committee_selection_beacon),
    s.(committee_selection_beacon_non_revealing_node)),
   (s.(withdraws), s.(mints), s.(assigned_jobs), s.(jobs))).

(** The empty database. *)
Definition empty_state : StateExecutor :=
  mkState ∅ ∅ ∅ ∅ ∅ ∅ ∅ ∅ ∅ ∅ ∅ ∅ ∅ ∅ ∅ ∅ ∅ ∅ ∅ ∅ ∅ ∅ ∅ ∅ ∅ ∅ ∅ ∅.

(** The stake a genesis node starts with. *)
Definition genesis_flk (min_stake : Z) (n : GenesisNode) : Z :=
  Z.max (staked (gn_stake n)) (min_stake * 10 ^ 18) + locked (gn_stake n).

Section invariants.
Context {R : Ruint} {L : RuintLaws R} {H : Host} {HL : HostLaws H}.

(** A genesis file whose nodes have different keys, whose amounts are not
    negative and fit, and whose prices and latencies can be loaded. *)
Record genesis_ok (g : Genesis) : Prop := {
  go_keys : NoDup (gn_primary_public_key <$> g_node_info g);
  go_consensus : NoDup (gn_consensus_public_key <$> g_node_info g);
  go_count : Z.of_nat (length (g_node_info g)) < 2 ^ 32;
  go_reputation n x : n ∈ g_node_info g → gn_reputation n = Some x → 0 ≤ x ≤ 100;
  go_stakes n : n ∈ g_node_info g → 0 ≤ staked (gn_stake n) ∧ 0 ≤ locked (gn_stake n);
  go_min_stake : 0 ≤ g_min_stake g ∧ in_width 256 (g_min_stake g * 10 ^ 18);
  go_accounts a : a ∈ g_account g → 0 ≤ ga_flk_balance a;
  go_total : zsum ga_flk_balance (g_account g)
    + zsum (genesis_flk (g_min_stake g)) (g_node_info g) < 2 ^ 256;
  go_prices p : p ∈ g_commodity_prices g → is_Some (hp_from_f64 6 (gp_price p));
  go_latencies l : l ∈ default [] (g_latencies g) →
    (gl_node_public_key_lhs l < gl_node_public_key_rhs l)%N ∧
    gl_node_public_key_lhs l ∈ gn_primary_public_key <$> g_node_info g ∧
    gl_node_public_key_rhs l ∈ gn_primary_public_key <$> g_node_info g
}.

(** What holds between the steps, with at most [T] FLK credited so far. *)
Record loading (T : Z) (s : StateExecutor) : Prop := {
  ld_registry : registry_ok s;
  ld_ledger : ledger_ok s;
  ld_total : flk_total s ≤ T;
  ld_scores : scores_ok s
}.

(** Steps that write other tables. *)
Lemma loading_frame T s s' :
  s'.(account_info) = s.(account_info) → s'.(node_info) = s.(node_info) →
  s'.(pub_key_to_index) = s.(pub_key_to_index) →
  s'.(consensus_key_to_index) = s.(consensus_key_to_index) →
  s'.(rep_scores) = s.(rep_scores) →
  get_next_node_index s' = get_next_node_index s →
  loading T s → loading T s'.
Proof.
  intros Ha Hn Hp Hc Hr Hx [Hreg Hled Htot Hsc].
  destruct (ledger_frame s s' Ha Hn) as [Ht Hl]. split.
  - by apply (registry_frame s).
  - by apply Hl.
  - by rewrite Ht.
  - unfold scores_ok. by rewrite Hr.
Qed.

Lemma loading_account T s k a :
  loading T s → 0 ≤ flk_balance a → T + flk_balance a < 2 ^ 256 →
  loading (T + flk_balance a) (set_account_info (<[k:=a]> s.(account_info)) s).
Proof.
  intros [Hreg Hled Htot Hsc] Ha Hfit.
  pose proof (account_flk_bounds s Hled k) as [Hk _].
  pose proof (flk_accounts_update s k a) as Hu.
  assert (flk_total (set_account_info (<[k:=a]> s.(account_info)) s)
    = flk_total s + flk_balance a - flk_balance (account_or_default s k)) as Ht.
  { unfold flk_total. rewrite Hu. unfold flk_nodes. state_simpl. lia. }
  split.
  - by apply (registry_frame s).
  - apply ledger_ok_account_update; [done|done|lia].
  - lia.
  - done.
Qed.

Lemma loading_empty : loading 0 empty_state.
Proof.
  split.
  - split; [intros k i; split; [done|by intros (n & ? & _)]..|done].
  - by split.
  - done.
  - intros i x Hi. done.
Qed.

Definition key_view (s : StateExecutor) :=
  (s.(pub_key_to_index), s.(consensus_key_to_index), get_next_node_index s).

(** What the later steps keep of the earlier ones. *)
Definition settled (s : StateExecutor) :=
  (s.(parameters), s.(metadata) !! Metadata.CommitteeSelectionBeaconPhase,
   s.(metadata) !! Metadata.BlockNumber).

Lemma genesis_metadata_wp g :
  wp (genesis_metadata g) (λ _ s, loading 0 s ∧ key_view s = (∅, ∅, 0) ∧
    settled s = (∅, None, Some (Value.BlockNumber 0))) empty_state.
Proof.
  eexists _, _. split; [unfold genesis_metadata, metadata_set, account_info_set; by unfold_M|].
  split; [|done].
  assert (hp_from_uint 18 0 = 0) as -> by (rewrite hp_from_uint_exact; unfold in_width; lia).
  apply (loading_frame 0 (set_account_info (<[g_governance_address g:=
    mkAccountInfo 0 (hp_from_uint 6 0) 0 0 None]> empty_state.(account_info)) empty_state));
    [done..|].
  by apply (loading_account 0 empty_state (g_governance_address g)
    (mkAccountInfo 0 (hp_from_uint 6 0) 0 0 None) loading_empty).
Qed.

(** The rows of one genesis node. *)
Definition genesis_info (min_stake : Z) (n : GenesisNode) : NodeInfo :=
  with_stake (with_staked (Z.max (staked (gn_stake n)) (hp_from_uint 18 min_stake))
    (gn_stake n)) (NodeInfo_from n).

Lemma loading_node T s s' min_stake n :
  loading T s → 0 ≤ min_stake ∧ in_width 256 (min_stake * 10 ^ 18) →
  0 ≤ staked (gn_stake n) ∧ 0 ≤ locked (gn_stake n) →
  s.(pub_key_to_index) !! gn_primary_public_key n = None →
  s.(consensus_key_to_index) !! gn_consensus_public_key n = None →
  T + genesis_flk min_stake n < 2 ^ 256 →
  s'.(account_info) = s.(account_info) →
  s'.(node_info) = <[get_next_node_index s:=genesis_info min_stake n]> s.(node_info) →
  key_view s' = (<[gn_primary_public_key n:=get_next_node_index s]> s.(pub_key_to_index),
    <[gn_consensus_public_key n:=get_next_node_index s]> s.(consensus_key_to_index),
    get_next_node_index s + 1) →
  scores_ok s' →
  loading (T + genesis_flk min_stake n) s'.
Proof.
  intros [Hreg Hled Htot Hsc] [Hmin Hmin'] [Hst Hlo] Hpk Hck Hfit Ha Hn Hk Hsc'.
  assert (node_flk (genesis_info min_stake n) = genesis_flk min_stake n) as Hflk.
  { unfold node_flk, genesis_info, genesis_flk. simpl. by rewrite hp_from_uint_exact by (done || lia). }
  injection Hk as Hp Hc Hx.
  destruct (ledger_node_new_effect s s' (get_next_node_index s) (genesis_info min_stake n)
    (registry_fresh s Hreg) Hn Ha) as [Ht Hl].
  split; [by apply (registry_new_node s s' (genesis_info min_stake n))| |lia|done].
  apply Hl; [done|simpl; lia|done|lia].
Qed.

Lemma key_view_new s s' pk ck i m :
  s'.(pub_key_to_index) = <[pk:=i]> s.(pub_key_to_index) →
  s'.(consensus_key_to_index) = <[ck:=i]> s.(consensus_key_to_index) →
  s'.(metadata) = <[Metadata.NextNodeIndex:=Value.NextNodeIndex (i +[32] 1)]> m →
  in_width 32 (i + 1) →
  key_view s' = (<[pk:=i]> s.(pub_key_to_index), <[ck:=i]> s.(consensus_key_to_index), i + 1).
Proof.
  intros Hp Hc Hm Hw. unfold key_view, get_next_node_index.
  rewrite Hp, Hc, Hm, lookup_insert_eq. by rewrite wrap_small.
Qed.

Lemma scores_insert s s' i x :
  s'.(rep_scores) = <[i:=x]> s.(rep_scores) → scores_ok s → 0 ≤ x ≤ 100 → scores_ok s'.
Proof.
  intros Hr Hs Hx j y. rewrite Hr.
  intros [[<- <-]|[_ Hj]]%lookup_insert_Some; [done|by apply (Hs j)].
Qed.

Lemma add_genesis_node_wp T min_stake acc n s :
  loading T s → 0 ≤ min_stake ∧ in_width 256 (min_stake * 10 ^ 18) →
  0 ≤ staked (gn_stake n) ∧ 0 ≤ locked (gn_stake n) →
  s.(pub_key_to_index) !! gn_primary_public_key n = None →
  s.(consensus_key_to_index) !! gn_consensus_public_key n = None →
  in_width 32 (get_next_node_index s + 1) →
  (∀ x, gn_reputation n = Some x → 0 ≤ x ≤ 100) →
  T + genesis_flk min_stake n < 2 ^ 256 →
  wp (add_genesis_node min_stake acc n) (λ _ s',
    loading (T + genesis_flk min_stake n) s' ∧
    key_view s' = (<[gn_primary_public_key n:=get_next_node_index s]> s.(pub_key_to_index),
      <[gn_consensus_public_key n:=get_next_node_index s]> s.(consensus_key_to_index),
      get_next_node_index s + 1)) s.
Proof.
  intros Hld Hmin Hst Hpk Hck Hw Hrep Hfit.
  unfold add_genesis_node, node_info_set, metadata_set.
  destruct (gn_reputation n) as [rep|] eqn:Er; [rewrite bool_decide_eq_true_2 by (by apply Hrep)|];
    destruct (gn_current_epoch_served n) as [served|];
    (eexists _, _; split; [by unfold_M|]); (split; [|by eapply (key_view_new s)]);
    eapply (loading_node T s); try done; try (by eapply (key_view_new s)).
  all: first [ exact (ld_scores _ _ Hld)
             | by eapply (scores_insert s); [|exact (ld_scores _ _ Hld)|apply Hrep] ].
Qed.

Definition keys_new (nodes : list GenesisNode) (s : StateExecutor) : Prop :=
  (∀ n, n ∈ nodes → s.(pub_key_to_index) !! gn_primary_public_key n = None) ∧
  (∀ n, n ∈ nodes → s.(consensus_key_to_index) !! gn_consensus_public_key n = None).

Lemma add_genesis_nodes_wp T min_stake nodes acc s :
  loading T s → 0 ≤ min_stake ∧ in_width 256 (min_stake * 10 ^ 18) →
  (∀ n, n ∈ nodes → 0 ≤ staked (gn_stake n) ∧ 0 ≤ locked (gn_stake n)) →
  (∀ n x, n ∈ nodes → gn_reputation n = Some x → 0 ≤ x ≤ 100) →
  NoDup (gn_primary_public_key <$> nodes) → NoDup (gn_consensus_public_key <$> nodes) →
  keys_new nodes s → 0 ≤ get_next_node_index s →
  get_next_node_index s + Z.of_nat (length nodes) < 2 ^ 32 →
  T + zsum (genesis_flk min_stake) nodes < 2 ^ 256 →
  wp (add_genesis_nodes min_stake acc nodes) (λ _ s',
    loading (T + zsum (genesis_flk min_stake) nodes) s' ∧
    (∀ k, (k ∈ gn_primary_public_key <$> nodes) ∨ is_Some (s.(pub_key_to_index) !! k) →
      is_Some (s'.(pub_key_to_index) !! k)) ∧
    get_next_node_index s' = get_next_node_index s + Z.of_nat (length nodes)) s.
Proof.
  intros Hld Hmin Hst Hrep. revert T acc s Hld.
  induction nodes as [|n nodes IH]; intros T acc s Hld Hp Hc [Hkp Hkc] Hi Hw Hfit.
  { apply wp_ret. simpl. rewrite !Z.add_0_r. split_and!; [done| |done].
    intros k [Hk|Hk]; [by apply list.elem_of_nil in Hk|done]. }
  simpl in *. apply list.NoDup_cons in Hp as [Hnp Hp]. apply list.NoDup_cons in Hc as [Hnc Hc].
  assert (0 ≤ zsum (genesis_flk min_stake) nodes).
  { apply zsum_nonneg. intros x Hx. unfold genesis_flk.
    destruct (Hst x); [by right|]. lia. }
  apply wp_bind. eapply wp_mono.
  { apply (add_genesis_node_wp T); [done|done|apply Hst; by left|apply Hkp; by left
      |apply Hkc; by left|unfold in_width; lia|intros; eapply Hrep; [by left|done]|lia]. }
  intros acc' t [Ht Hk]. injection Hk as Hkp' Hkc' Hx.
  eapply wp_mono.
  { apply (IH ltac:(intros; apply Hst; by right) ltac:(intros; eapply Hrep; [by right|done])
      (T + genesis_flk min_stake n) acc' t); [done..| |lia|lia|lia].
    split; intros m Hm; [rewrite Hkp'|rewrite Hkc'];
      (rewrite lookup_insert_ne; [first [apply Hkp|apply Hkc]; by right|]);
      intros Heq; [apply Hnp|apply Hnc]; rewrite Heq; by apply list_elem_of_fmap_2. }
  intros acc'' u (Hu & Hsub & Hnext). rewrite <-Z.add_assoc in Hu. split_and!; [done| |lia].
  intros k Hk2. apply Hsub. rewrite Hkp'.
  destruct (decide (gn_primary_public_key n = k)) as [<-|Hne].
  { right. by rewrite lookup_insert_eq. }
  rewrite lookup_insert_ne by done. destruct Hk2 as [Hin|]; [left|by right].
  apply list.elem_of_cons in Hin as [?|?]; [congruence|done].
Qed.

(** The loops after the nodes. *)
Definition indexed (ks : list NodePublicKey) (s : StateExecutor) : Prop :=
  ∀ k, k ∈ ks → is_Some (s.(pub_key_to_index) !! k).

Lemma frame_loop_wp {A} T ks (f : A → StateExecutor → StateExecutor) (l : list A) s :
  (∀ x t, loading T t → loading T (f x t)) →
  (∀ x t, (f x t).(pub_key_to_index) = t.(pub_key_to_index)) →
  loading T s ∧ indexed ks s →
  wp (for_each (λ x, modify (f x)) l) (λ _ s', loading T s' ∧ indexed ks s') s.
Proof.
  intros Hf Hk HI. apply (wp_for_each (λ _ t, loading T t ∧ indexed ks t)); [|done].
  intros x _ t [Ht Hi]. apply wp_modify. split; [by apply Hf|].
  intros k. rewrite Hk. apply Hi.
Qed.

Lemma accounts_wp T ks l s :
  (∀ a, a ∈ l → 0 ≤ ga_flk_balance a) → T + zsum ga_flk_balance l < 2 ^ 256 →
  loading T s ∧ indexed ks s →
  wp (for_each add_genesis_account l)
    (λ _ s', loading (T + zsum ga_flk_balance l) s' ∧ indexed ks s') s.
Proof.
  intros Hl Hfit HI. set (F := T + zsum ga_flk_balance l).
  eapply wp_mono; [apply (wp_for_each (λ l t, (∀ a, a ∈ l → 0 ≤ ga_flk_balance a) ∧
    loading (F - zsum ga_flk_balance l) t ∧ indexed ks t))|].
  - intros a l' t (Hpos & Ht & Hi). apply wp_modify. split; [intros; apply Hpos; by right|].
    split; [|exact Hi]. assert (0 ≤ zsum ga_flk_balance l') by
      (apply zsum_nonneg; intros; apply Hpos; by right).
    pose proof (Hpos a ltac:(by left)) as Ha.
    replace (F - zsum ga_flk_balance l') with
      (F - zsum ga_flk_balance (a :: l') + ga_flk_balance a) by (simpl; lia).
    apply (loading_account _ t (ga_public_key a) (mkAccountInfo (ga_flk_balance a) _ _ 0 None));
      [done|done|simpl; lia].
  - split; [done|]. replace (F - zsum ga_flk_balance l) with T by (unfold F; lia). done.
  - intros _ t (_ & Ht & Hi). simpl in Ht. by rewrite Z.sub_0_r in Ht.
Qed.

Lemma prices_wp T ks l s :
  (∀ p, p ∈ l → is_Some (hp_from_f64 6 (gp_price p))) →
  loading T s ∧ indexed ks s →
  wp (for_each add_genesis_price l) (λ _ s', loading T s' ∧ indexed ks s') s.
Proof.
  intros Hl HI. eapply wp_mono; [apply (wp_for_each (λ l t,
    (∀ p, p ∈ l → is_Some (hp_from_f64 6 (gp_price p))) ∧ loading T t ∧ indexed ks t))|].
  - intros p l' t (Hp & Ht & Hi). destruct (Hp p ltac:(by left)) as [v Hv].
    apply wp_bind. apply (wp_unwrap _ v); [done|]. apply wp_modify.
    split_and!; [intros; apply Hp; by right| |exact Hi]. by apply (loading_frame T t).
  - done.
  - by intros _ t (_ & Ht).
Qed.

Lemma latencies_wp T ks l s :
  (∀ x, x ∈ l → (gl_node_public_key_lhs x < gl_node_public_key_rhs x)%N ∧
     gl_node_public_key_lhs x ∈ ks ∧ gl_node_public_key_rhs x ∈ ks) →
  loading T s ∧ indexed ks s →
  wp (for_each add_genesis_latency l) (λ _ s', loading T s' ∧ indexed ks s') s.
Proof.
  intros Hl HI. eapply wp_mono; [apply (wp_for_each (λ l t,
    (∀ x, x ∈ l → (gl_node_public_key_lhs x < gl_node_public_key_rhs x)%N ∧
     gl_node_public_key_lhs x ∈ ks ∧ gl_node_public_key_rhs x ∈ ks) ∧
    loading T t ∧ indexed ks t))|].
  - intros x l' t (Hp & Ht & Hi). destruct (Hp x ltac:(by left)) as (Hlt & Hlhs & Hrhs).
    unfold add_genesis_latency. rewrite bool_decide_eq_true_2 by done.
    destruct (Hi _ Hlhs) as [i Hi1]. destruct (Hi _ Hrhs) as [j Hj].
    apply wp_bind, wp_get, wp_bind. apply (wp_unwrap _ i); [done|]. apply wp_bind.
    apply (wp_unwrap _ j); [done|]. apply wp_modify.
    split_and!; [intros; apply Hp; by right| |exact Hi]. by apply (loading_frame T t).
  - done.
  - by intros _ t (_ & Ht).
Qed.

Lemma settled_metadata_set k v :
  k ≠ Metadata.CommitteeSelectionBeaconPhase → k ≠ Metadata.BlockNumber →
  preserves settled (metadata_set k v).
Proof.
  intros Hk Hb. apply preserves_modify. intros s. unfold settled. state_simpl.
  by rewrite !lookup_insert_ne.
Qed.

Lemma next_metadata_set k v :
  k ≠ Metadata.NextNodeIndex → preserves get_next_node_index (metadata_set k v).
Proof.
  intros Hk. apply preserves_modify. intros s. unfold get_next_node_index. state_simpl.
  by rewrite lookup_insert_ne.
Qed.

#[local] Hint Extern 1 (preserves get_next_node_index (metadata_set _ _)) =>
  (apply next_metadata_set; discriminate) : preserves.
#[local] Hint Extern 1 (preserves settled (metadata_set _ _)) =>
  (apply settled_metadata_set; discriminate) : preserves.

Lemma add_genesis_nodes_settled min_stake nodes acc :
  preserves settled (add_genesis_nodes min_stake acc nodes).
Proof.
  revert acc. induction nodes as [|n nodes IH]; intros acc; simpl; [solve_preserves|].
  apply preserves_bind; [|intros acc'; apply IH]. unfold add_genesis_node, node_info_set.
  solve_preserves.
Qed.

Lemma unwritten_metadata_set k v : preserves unwritten (metadata_set k v).
Proof. by apply preserves_modify. Qed.
#[local] Hint Resolve unwritten_metadata_set : preserves.

Lemma apply_genesis_unwritten g : preserves unwritten (apply_genesis_block g).
Proof.
  assert (∀ min nodes acc, preserves unwritten (add_genesis_nodes min acc nodes)) as Hn.
  { intros min nodes. induction nodes as [|n nodes IH]; intros acc; simpl; [solve_preserves|].
    apply preserves_bind; [|intros acc'; apply IH]. unfold add_genesis_node, node_info_set.
    solve_preserves. }
  unfold apply_genesis_block, genesis_metadata, account_info_set, committee_info_set,
    param_insert, add_genesis_service, add_genesis_account, account_info_set,
    add_genesis_client, add_genesis_price, add_genesis_total, add_genesis_latency.
  solve_preserves.
Qed.

(** [genesis_parameters] as the table it becomes. *)
Definition parameter_table (g : Genesis) : gmap ProtocolParamKey ProtocolParamValue :=
  foldl (λ m r, <[r.1:=r.2]> m) ∅ (genesis_parameters g).

Lemma param_loop l s :
  for_each param_insert l s
  = Some (tt, set_parameters (foldl (λ m r, <[r.1:=r.2]> m) s.(parameters) l) s).
Proof.
  revert s. induction l as [|r l IH]; intros s; simpl; [by destruct s|].
  etrans; [apply (IH (set_parameters (<[r.1:=r.2]> s.(parameters)) s))|by state_simpl].
Qed.

(** The steps after the nodes. *)
Definition genesis_rest (g : Genesis) : Exec bool :=
  for_each add_genesis_service (g_service g);;
  for_each add_genesis_account (g_account g);;
  for_each add_genesis_client (table_rows (g_client g));;
  for_each add_genesis_price (g_commodity_prices g);;
  for_each add_genesis_total (table_rows (g_total_served g));;
  for_each add_genesis_latency (default [] (g_latencies g));;
  metadata_set Metadata.Epoch (Value.Epoch 0);;
  metadata_set Metadata.EpochEra (Value.EpochEra 0);;
  mret true.

Lemma genesis_rest_settled g : preserves settled (genesis_rest g).
Proof.
  unfold genesis_rest, add_genesis_service, add_genesis_account, account_info_set,
    add_genesis_client, add_genesis_price, add_genesis_total, add_genesis_latency.
  solve_preserves.
Qed.

Lemma genesis_rest_committee g : preserves committee_info (genesis_rest g).
Proof.
  unfold genesis_rest, add_genesis_service, add_genesis_account, account_info_set,
    add_genesis_client, add_genesis_price, add_genesis_total, add_genesis_latency, metadata_set.
  solve_preserves.
Qed.

Lemma genesis_rest_next g : preserves get_next_node_index (genesis_rest g).
Proof.
  unfold genesis_rest, add_genesis_service, add_genesis_account, account_info_set,
    add_genesis_client, add_genesis_price, add_genesis_total, add_genesis_latency.
  solve_preserves.
Qed.

Lemma genesis_rest_wp T g s :
  genesis_ok g → T = zsum (genesis_flk (g_min_stake g)) (g_node_info g) →
  loading T s ∧ indexed (gn_primary_public_key <$> g_node_info g) s →
  wp (genesis_rest g) (λ b s, b = true ∧ (∃ T, loading T s) ∧
    s.(metadata) !! Metadata.Epoch = Some (Value.Epoch 0)) s.
Proof.
  intros Hg HT HI. unfold genesis_rest.
  apply wp_bind. eapply wp_mono.
  { apply frame_loop_wp; [intros x t Ht; by apply (loading_frame _ t)|done|exact HI]. }
  intros [] s1 H1. apply wp_bind. eapply wp_mono.
  { apply accounts_wp; [apply (go_accounts g Hg)| |exact H1]. pose proof (go_total g Hg). lia. }
  intros [] s2 H2. apply wp_bind.
  eapply wp_mono.
  { apply frame_loop_wp; [intros x t Ht; by apply (loading_frame _ t)|done|exact H2]. }
  intros [] s3 H3. apply wp_bind.
  eapply wp_mono; [by apply prices_wp; [apply (go_prices g Hg)|]|].
  intros [] s4 H4. apply wp_bind.
  eapply wp_mono.
  { apply frame_loop_wp; [intros x t Ht; by apply (loading_frame _ t)|done|exact H4]. }
  intros [] s5 H5. apply wp_bind.
  eapply wp_mono; [by apply latencies_wp; [apply (go_latencies g Hg)|]|].
  intros [] s6 [H6 _]. apply wp_bind, wp_modify, wp_bind, wp_modify, wp_ret.
  split; [done|]. split.
  - eexists. eapply (loading_frame _ s6); [done..| |done].
    unfold get_next_node_index. state_simpl. by rewrite !lookup_insert_ne.
  - state_simpl. by rewrite lookup_insert_ne, lookup_insert_eq.
Qed.

Lemma genesis_run g :
  genesis_ok g →
  wp (apply_genesis_block g) (λ b s, b = true ∧ (∃ T, loading T s) ∧
    s.(metadata) !! Metadata.Epoch = Some (Value.Epoch 0) ∧
    (∃ nodes, s.(committee_info) !! 0 = Some (genesis_committee g nodes)) ∧
    settled s = (parameter_table g, None, Some (Value.BlockNumber 0)) ∧
    get_next_node_index s = Z.of_nat (length (g_node_info g))) empty_state.
Proof.
  intros Hg. unfold apply_genesis_block. apply wp_bind, wp_get.
  destruct (is_some (empty_state.(metadata) !! Metadata.Epoch)) eqn:E; [done|clear E].
  apply wp_bind. eapply wp_mono; [apply (genesis_metadata_wp g)|].
  intros [] s0 (Hl0 & Hk0 & Hs0). injection Hk0 as Hp0 Hc0 Hi0. injection Hs0 as Hpar Hph Hbn.
  apply wp_bind. eexists _, _. split; [apply param_loop|].
  rewrite Hpar. fold (parameter_table g). set (s1 := set_parameters (parameter_table g) s0).
  assert (loading 0 s1) as Hl1 by (by apply (loading_frame 0 s0)).
  apply wp_bind. eapply wp_mono.
  { apply (wp_preserves settled); [apply add_genesis_nodes_settled|].
    apply (add_genesis_nodes_wp 0); [done|apply (go_min_stake g Hg)|apply (go_stakes g Hg)
      |apply (go_reputation g Hg)|apply (go_keys g Hg)|apply (go_consensus g Hg)| | | |].
    - split; intros n _; [change (s0.(pub_key_to_index) !! gn_primary_public_key n = None)
        |change (s0.(consensus_key_to_index) !! gn_consensus_public_key n = None)];
        by rewrite ?Hp0, ?Hc0.
    - change (0 ≤ get_next_node_index s0). lia.
    - change (get_next_node_index s0 + Z.of_nat (length (g_node_info g)) < 2 ^ 32).
      rewrite Hi0. apply (go_count g Hg).
    - pose proof (go_total g Hg). pose proof (zsum_nonneg _ _ (go_accounts g Hg)). lia. }
  cbv beta. intros nodes s2 [(Hl2 & Hix & Hx2) Hs2].
  apply wp_bind, wp_modify, wp_bind, wp_modify. fold (genesis_rest g).
  match goal with |- wp _ _ ?t => set (s3 := t) end.
  assert (get_next_node_index s3 = get_next_node_index s2) as Hx3.
  { unfold get_next_node_index, s3. state_simpl. by rewrite lookup_insert_ne. }
  assert (settled s3 = settled s2) as Hs3.
  { unfold settled, s3. state_simpl. by rewrite !lookup_insert_ne. }
  eapply wp_mono.
  { apply (wp_preserves committee_info); [apply genesis_rest_committee|].
    apply (wp_preserves settled); [apply genesis_rest_settled|].
    apply (wp_preserves get_next_node_index); [apply genesis_rest_next|].
    apply (genesis_rest_wp _ g s3 Hg eq_refl). split.
    - by apply (loading_frame _ s2).
    - intros k Hk. apply Hix. by left. }
  cbv beta. intros b s4 [[[(Hb & Hl4 & He) Hx4] Hset] Hcom]. split_and!; [done..| | |].
  - exists nodes. rewrite Hcom. apply lookup_insert_eq.
  - rewrite Hset, Hs3, Hs2. unfold settled, s1. state_simpl. by rewrite Hph, Hbn.
  - rewrite Hx4, Hx3, Hx2. change (get_next_node_index s1) with (get_next_node_index s0). lia.
Qed.

(** The check of [load_from_file] places the beacon of the first epoch inside
    the epoch: the wrapping subtractions of the transition time are exact. *)
Lemma loaded_transition g nodes :
  load_from_file_check g = true →
  0 ≤ g_epoch_start g → 0 ≤ g_commit_phase_duration g → 0 ≤ g_reveal_phase_duration g →
  g_commit_phase_duration g + g_reveal_phase_duration g < 2 ^ 64 →
  0 ≤ 2 * g_epoch_time g < 2 ^ 64 → g_epoch_time g + g_epoch_start g < 2 ^ 64 →
  let c := genesis_committee g nodes in
  epoch_end_timestamp c = g_epoch_time g + g_epoch_start g ∧
  epoch_transition_timestamp c = epoch_end_timestamp c
    - (g_commit_phase_duration g + g_reveal_phase_duration g) ∧
  g_epoch_start g + g_epoch_time g / 3 ≤ epoch_transition_timestamp c.
Proof.
  intros Hc Hs H1 H2 H3 H4 H5 c. unfold load_from_file_check in Hc.
  apply negb_true_iff, bool_decide_eq_false in Hc.
  rewrite !wrap_small in Hc by (unfold in_width; lia).
  pose proof (Z.mul_div_le (2 * g_epoch_time g) 3). pose proof (Z.mul_div_le (g_epoch_time g) 3).
  unfold c, genesis_committee. cbn [epoch_end_timestamp epoch_transition_timestamp].
  rewrite (wrap_small 64 (g_epoch_time g + g_epoch_start g)) by (unfold in_width; lia).
  rewrite (wrap_small 64 (g_epoch_time g + g_epoch_start g - g_commit_phase_duration g)) by (unfold in_width; lia).
  rewrite wrap_small by (unfold in_width; lia). split_and!; lia.
Qed.

(** What the other components assume of the state they start from. *)
Record initial (g : Genesis) (s : StateExecutor) : Prop := {
  in_epoch : get_epoch s = 0;
  in_registry : registry_ok s;
  in_ledger : ledger_ok s;
  in_scores : scores_ok s;
  in_content : content_ok s;
  in_jobs : jobs_ok s;
  in_beacon : Beacon.fresh (view s);
  in_params : committee_params s (g_committee_size g) (g_node_count g) (g_epoch_time g)
    (g_commit_phase_duration g) (g_reveal_phase_duration g) (total_intervals g);
  in_next : get_next_node_index s = Z.of_nat (length (g_node_info g));
  in_loaded : is_some (s.(metadata) !! Metadata.Epoch) = true
}.

Lemma genesis_initial g :
  genesis_ok g → ∃ s, apply_genesis_block g empty_state = Some (true, s) ∧ initial g s.
Proof.
  intros Hg. destruct (genesis_run g Hg) as (b & s & Hrun & -> & [T [Hreg Hled _ Hsc]] & He &
    [nodes Hcom] & Hset & Hnext).
  pose proof (apply_genesis_unwritten g empty_state true s Hrun) as Hun.
  unfold unwritten in Hun. injection Hun as _ _ _ _ _ _ Hu1 Hu2 Hb Hnr _ _ Haj Hj.
  injection Hset as Hpar Hph _. assert (get_epoch s = 0) as Hepoch by (unfold get_epoch; by rewrite He).
  exists s. split; [done|]. split; try done.
  - intros n u. unfold uris_of, providers_of. rewrite Hu1, Hu2. done.
  - split.
    + intros h job. by rewrite Hj.
    + intros x h. unfold jobs_of. rewrite Haj, Hj. simpl. split;
        [by intros ?%list.elem_of_nil|by intros (? & ? & _)].
    + intros x. unfold jobs_of. rewrite Haj. apply base.NoDup_nil_2.
  - unfold view, view_of, beacon_phase, get_committee. rewrite Hepoch, Hcom, Hph, Hb, Hnr.
    by split_and!.
  - split; rewrite ?Hpar; try done. unfold total_intervals. case_bool_decide; lia.
  - by rewrite He.
Qed.

(** C21: Loading a well-formed genesis file into the empty database succeeds
    and establishes the invariants of every component: the node registry, the
    ledger, the reputation scores, the content and the job tables; the beacon
    waits for the first epoch change with the genesis committee.  The
    parameters the committee selection needs are set, with a non-zero number
    of time intervals whatever the file says, and the nodes have the first
    indices.  Loading any genesis again changes nothing. *)
Theorem genesis_establishes g :
  genesis_ok g →
  ∃ s, apply_genesis_block g empty_state = Some (true, s) ∧ initial g s ∧
    ∀ g', apply_genesis_block g' s = Some (false, s).
Proof.
  intros Hg. destruct (genesis_initial g Hg) as (s & Hrun & Hs). exists s. split_and!; [done..|].
  intros g'. unfold apply_genesis_block. unfold_M. by rewrite (in_loaded g s Hs).
Qed.
End invariants.
