(* ===== verification/Env.v ===== *)
(** * Env: executing blocks

    [ApplicationEnv::run] ([core/application/src/env.rs]) with the receipts
    and events it produces ([core/types/src/response.rs], [application.rs],
    [transaction.rs]) and [ApplicationState::run] ([state/writer.rs]), which
    updates the root of the state tree after the mutation.  The root of the
    tree of a state ([tree_root], lib/merklize over trie-db) and the stored
    checkpoint are parameters.

    The theorems compose the executor with the chain: blocks are numbered and
    linked, every transaction leaves one receipt with its outcome, the registry and the beacon
    invariants hold in every state reachable from a genesis state. *)

From S2P Require Import Prelude HpFixed HpSigned Types State Ledger Accounts Nodes.
From S2P Require Import Content Auction Jobs Reputation Measurements Epoch Rewards EpochChange.
From S2P Require Import Beacon Executor Invariants Genesis.
From stdpp Require Import base gmap list sorting.
From Stdlib Require Import ZArith Lia.
Open Scope Z_scope.

Module Event.
Inductive Event :=
| Transfer (token from to : EthAddress) (amount : Z)
| ServiceEvent (service_id : ServiceId) (event : list Z).
End Event.
Abbreviation Event := Event.Event.

Module TransactionDestination.
Inductive TransactionDestination :=
| Fleek (method : UpdateMethod)
| Ethereum (address : EthAddress).

Definition to_eth_address (d : TransactionDestination) : EthAddress :=
  match d with Ethereum address => address | Fleek _ => 0%N end.
End TransactionDestination.
Abbreviation TransactionDestination := TransactionDestination.TransactionDestination.

Record TransactionReceipt := mkTransactionReceipt {
  receipt_block_hash : Hash32;
  receipt_block_number : BlockNumber;
  transaction_index : Z;
  transaction_hash : TxHash;
  receipt_from : TransactionSender;
  receipt_to : TransactionDestination;
  response : TransactionResponse;
  event : option Event
}.

Record BlockExecutionResponse := mkBlockExecutionResponse {
  block_number : BlockNumber;
  block_hash : Hash32;
  parent_hash : Hash32;
  block_change_epoch : bool;
  block_node_registry_changes : BlockNodeRegistryChanges;
  txn_receipts : list TransactionReceipt;
  previous_state_root : Hash32;
  new_state_root : Hash32
}.

Record BlockReceipt := mkBlockReceipt {
  br_block_number : BlockNumber;
  br_block_hash : Hash32;
  br_parent_hash : Hash32;
  br_change_epoch : bool;
  br_node_registry_changes : BlockNodeRegistryChanges;
  br_txn_hashes : list TxHash
}.

Definition to_receipts (r : BlockExecutionResponse) : BlockReceipt * list TransactionReceipt :=
  (mkBlockReceipt (block_number r) (block_hash r) (parent_hash r) (block_change_epoch r)
     (block_node_registry_changes r) (transaction_hash <$> txn_receipts r),
   txn_receipts r).

Section Env.
Context {R : Ruint} {B : Bigint} {H : Host}.

(** [TransactionRequest::to], [event] and [nonce]. *)
Definition to (txn : TransactionRequest) : TransactionDestination :=
  match txn with
  | UpdateRequest_ payload =>
      TransactionDestination.Fleek (payload_method (Types.payload payload))
  | EthereumRequest payload =>
      TransactionDestination.Ethereum (default 0%N (eth_to payload))
  end.

Definition txn_event (txn : TransactionRequest) : option Event :=
  match sender txn with
  | TransactionSender.AccountOwner sender =>
      match txn with
      | UpdateRequest_ payload =>
          match payload_method (Types.payload payload) with
          | UpdateMethod.Transfer amount token to =>
              Some (Event.Transfer (Tokens.address token) sender to amount)
          | UpdateMethod.SubmitDeliveryAcknowledgmentAggregation _ service_id _ event =>
              Event.ServiceEvent service_id <$> event
          | _ => None
          end
      | EthereumRequest _ => None
      end
  | _ => None
  end.

Definition txn_nonce (txn : TransactionRequest) : option Nonce :=
  match txn with
  | UpdateRequest_ payload => Some (payload_nonce (Types.payload payload))
  | EthereumRequest payload => as_uint 64 (eth_nonce payload)
  end.

(** One transaction of a block: its receipt. *)
Definition run_transaction (digest : Hash32) (block_number : BlockNumber) (index : Z)
    (txn : TransactionRequest) : Exec TransactionReceipt :=
  v ← verify_transaction txn;
  let '(verified, txn) := v in
  results ← match verified with
            | Ok _ => execute_transaction txn
            | Err err => mret (Revert err)
            end;
  let event := if is_success results then txn_event txn else None in
  mret (mkTransactionReceipt digest block_number index (hash txn) (sender txn) (to txn)
          results event).

Fixpoint run_transactions (digest : Hash32) (block_number : BlockNumber) (index : Z)
    (txns : list TransactionRequest) : Exec (list TransactionReceipt) :=
  match txns with
  | [] => mret []
  | txn :: txns =>
      receipt ← run_transaction digest block_number index txn;
      receipts ← run_transactions digest block_number (index + 1) txns;
      mret (receipt :: receipts)
  end.

Definition is_epoch_change (r : TransactionReceipt) : bool :=
  match response r with
  | Success ExecutionData.EpochChange => true
  | _ => false
  end.

(** The changes after the transactions: the era, the last block. *)
Definition finish_block (block : Block) (change_epoch : bool)
    (committee_before_execution : option Committee) : Exec unit :=
  s ← get;
  let has_committee_members_changes :=
    bool_decide (members <$> committee_before_execution
                 ≠ members <$> get_current_committee s) in
  (if has_committee_members_changes then set_epoch_era (get_epoch_era s +[64] 1) else mret tt);;
  let '(new_sub_dag_index, new_sub_dag_round) :=
    if change_epoch || has_committee_members_changes then (0, 0)
    else (sub_dag_index block, sub_dag_round block) in
  set_last_block (digest block) new_sub_dag_index new_sub_dag_round.

(** The database: the tables and the recorded root of the state tree, which
    is filled when the database is built. *)
Record Env := mkEnv {
  tables : StateExecutor;
  state_root : Hash32
}.

(** The root of the state tree of the tables (lib/merklize), and the hash of
    the checkpoint file, [None] for the in-memory backend. *)
Context (tree_root : StateExecutor → Hash32) (checkpoint : Env → option Hash32).

Definition get_state_root : M Env Hash32 := e ← get; mret (state_root e).

(** [ApplicationState::executor]: the executor works on the tables. *)
Definition executor {A} (m : Exec A) : M Env A := λ e,
  match m (tables e) with
  | Some (a, s) => Some (a, mkEnv s (state_root e))
  | None => None
  end.

(** [ApplicationState::run]: the mutation, then the update of the tree, of which only
    the root is kept. *)
Definition state_run {A} (mutation : M Env A) : M Env A :=
  result ← mutation;
  modify (λ e, mkEnv (tables e) (tree_root (tables e)));;
  mret result.

Definition update_last_epoch_hash (state_hash : Hash32) : M Env unit :=
  state_run (executor (set_last_epoch_hash state_hash)).

Definition run (block : Block) : M Env BlockExecutionResponse :=
  response ← state_run (
    previous_state_root ← get_state_root;
    '(last_block_hash, block_number, committee_before_execution) ← executor (
      s ← get;
      last_block_number ← get_block_number;
      mret (get_block_hash s, last_block_number +[64] 1, get_current_committee s));
    txn_receipts ← executor
      (run_transactions (digest block) block_number 0 (transactions block));
    let change_epoch := existsb is_epoch_change txn_receipts in
    node_registry_changes ← executor (
      s ← get;
      mret (default [] (c ← get_current_committee s; c.(node_registry_changes) !! block_number)));
    executor (finish_block block change_epoch committee_before_execution);;
    new_state_root ← get_state_root;
    mret (mkBlockExecutionResponse block_number (digest block) last_block_hash change_epoch
            node_registry_changes txn_receipts previous_state_root new_state_root));
  (if block_change_epoch response then
     e ← get;
     match checkpoint e with
     | Some state_hash => update_last_epoch_hash state_hash
     | None => mret tt
     end
   else mret tt);;
  mret response.
End Env.

(** ** The beacon along a chain

    The beacon handlers are one kind of transaction among many: all others
    leave the view of the beacon unchanged. *)

(** The handlers outside the beacon. *)
Ltac unfold_handlers :=
  unfold stake, create_node, node_info_set, stake_lock, unstake, withdraw_unstaked, opt_in,
    opt_out, withdraw, withdraws_set, mint, deposit, transfer, account_info_set,
    submit_pod, clear_withdraws, clear_mints, governance_address, add_service, remove_service,
    slash, submit_reputation_measurements, record_measurement, change_protocol_param,
    update_content_registry, write_providers, add_jobs, remove_jobs, update_jobs,
    approve_client_key, revoke_client_key, get_min_stake, account_info_set, node_info_set.

Section beacon.
Context {R : Ruint} {B : Bigint} {H : Host} {HL : HostLaws H}.

Lemma set_metadata_view k v :
  k ≠ Metadata.CommitteeSelectionBeaconPhase → k ≠ Metadata.Epoch →
  preserves view (metadata_set k v).
Proof.
  intros Hp He. apply preserves_modify. intros s.
  unfold view, view_of, beacon_phase, get_committee, get_epoch. state_simpl.
  by rewrite !lookup_insert_ne.
Qed.
#[local] Hint Extern 1 (preserves view (metadata_set _ _)) =>
  (apply set_metadata_view; discriminate) : preserves.

Lemma registry_change_view k c : preserves view (record_node_registry_change k c).
Proof.
  intros s [] s' Hrun. unfold record_node_registry_change, get_block_number, committee_info_set
    in Hrun. run_M Hrun.
  unfold view, view_of, beacon_phase, get_committee, get_epoch in *. state_simpl.
  rewrite lookup_insert_eq. simpl.
  match goal with Hc : committee_info s !! _ = Some _ |- _ => rewrite Hc end. done.
Qed.
#[local] Hint Resolve registry_change_view : preserves.
Lemma guard_view sender : preserves view (only_node_with_sufficient_stake sender).
Proof. intros s r s' [-> _]%sufficient_stake_guard. done. Qed.
Lemma participating_guard_view sender :
  preserves view (only_node_with_sufficient_stake_and_participating sender).
Proof. intros s r s' [[-> _] _]%participating_guard. done. Qed.
Lemma has_sufficient_stake_view i : preserves view (has_sufficient_stake i).
Proof. intros s r s' ->%has_sufficient_stake_readonly. done. Qed.
#[local] Hint Resolve guard_view participating_guard_view has_sufficient_stake_view : preserves.

Definition beacon_method (m : UpdateMethod) : bool :=
  match m with
  | UpdateMethod.ChangeEpoch _ | UpdateMethod.CommitteeSelectionBeaconCommit _
  | UpdateMethod.CommitteeSelectionBeaconReveal _
  | UpdateMethod.CommitteeSelectionBeaconCommitPhaseTimeout _ _
  | UpdateMethod.CommitteeSelectionBeaconRevealPhaseTimeout _ _ => true
  | _ => false
  end.

Lemma execute_fleek_view r :
  beacon_method (payload_method (payload r)) = false →
  preserves view (execute_fleek_transaction r).
Proof.
  intros Hm. unfold execute_fleek_transaction.
  destruct (payload_method (payload r)); try discriminate; unfold_handlers; solve_preserves.
Qed.

Lemma execute_ethereum_view p : preserves view (execute_ethereum_transaction p).
Proof. unfold execute_ethereum_transaction. unfold_handlers. solve_preserves. Qed.

Lemma bookkeeping_view txn : preserves view (bookkeeping txn).
Proof. unfold bookkeeping, increment_nonce. unfold_handlers. solve_preserves. Qed.

(** Every transaction is a step of the beacon protocol, followed by the
    bookkeeping of the transaction. *)
Lemma execute_beacon_steps txn s r s' :
  execute_transaction txn s = Some (r, s') → rtc beacon_step s s'.
Proof.
  intros (t & Hex & Hb)%execute_transaction_split.
  apply (rtc_l _ s t); [|apply rtc_once, step_other; by eapply bookkeeping_view].
  destruct txn as [p|p]; [|apply step_other; by eapply execute_ethereum_view].
  destruct (beacon_method (payload_method (payload p))) eqn:Hm;
    [|apply step_other; by eapply execute_fleek_view].
  unfold execute_fleek_transaction in Hex.
  destruct (payload_method (payload p)); try discriminate Hm; by econstructor.
Qed.
End beacon.

(** ** The block number

    No transaction writes the number of the last block. *)

Section block_number.
Context {R : Ruint} {B : Bigint} {H : Host} {HL : HostLaws H}.

Definition number_view (s : StateExecutor) : option Value :=
  s.(metadata) !! Metadata.BlockNumber.

Lemma metadata_set_number k v :
  k ≠ Metadata.BlockNumber → preserves number_view (metadata_set k v).
Proof.
  intros Hk. apply preserves_modify. intros s. unfold number_view. state_simpl.
  by rewrite lookup_insert_ne.
Qed.
#[local] Hint Extern 1 (preserves number_view (metadata_set _ _)) =>
  (apply metadata_set_number; discriminate) : preserves.

Lemma delete_phase_number : preserves number_view clear_committee_selection_beacon_phase.
Proof.
  apply preserves_modify. intros s. unfold number_view. state_simpl. by rewrite lookup_delete_ne.
Qed.
Lemma commit_phase_number e r :
  preserves number_view (set_committee_selection_beacon_commit_phase e r).
Proof. by apply metadata_set_number. Qed.
Lemma guard_number sender : preserves number_view (only_node_with_sufficient_stake sender).
Proof. intros s r s' [-> _]%sufficient_stake_guard. done. Qed.
Lemma participating_guard_number sender :
  preserves number_view (only_node_with_sufficient_stake_and_participating sender).
Proof. intros s r s' [[-> _] _]%participating_guard. done. Qed.
Lemma has_sufficient_stake_number i : preserves number_view (has_sufficient_stake i).
Proof. intros s r s' ->%has_sufficient_stake_readonly. done. Qed.
Lemma registry_change_number k c : preserves number_view (record_node_registry_change k c).
Proof. intros s r s' [m ->]%record_node_registry_change_frame. done. Qed.
#[local] Hint Resolve delete_phase_number commit_phase_number guard_number participating_guard_number
  has_sufficient_stake_number registry_change_number : preserves.

Lemma mint_flk_number amount o : preserves number_view (mint_and_transfer_flk amount o).
Proof. unfold mint_and_transfer_flk, account_info_set, get_epochs_per_year. solve_preserves. Qed.
Lemma mint_stables_number amount o : preserves number_view (mint_and_transfer_stables amount o).
Proof. unfold mint_and_transfer_stables, account_info_set. solve_preserves. Qed.
#[local] Hint Resolve mint_flk_number mint_stables_number : preserves.
Lemma stable_rewards_number e p n l acc : preserves number_view (stable_rewards e p n l acc).
Proof. revert acc. induction l as [|x l IH]; intros acc; simpl; solve_preserves. Qed.
Lemma score_node_number sc d new i : preserves number_view (score_node sc d new i).
Proof.
  intros s r s' Hrun. unfold score_node, node_info_set in Hrun.
  destruct (default (None, None) (new !! i)) as [x u]. by run_M Hrun.
Qed.
#[local] Hint Resolve stable_rewards_number score_node_number : preserves.

Lemma execute_epoch_change_number e c b : preserves number_view (execute_epoch_change e c b).
Proof.
  unfold execute_epoch_change, executor_calculate_reputation_scores, update_latencies,
    distribute_rewards, calculate_emissions, get_epochs_per_year, flk_reward, service_reward,
    clean_up_content_registry, clear_content_registry, write_providers, choose_new_committee,
    get_committee_size, get_epoch_time, get_commit_phase_duration, get_reveal_phase_duration,
    get_total_intervals, reassign_jobs, add_jobs, committee_info_set.
  solve_preserves.
Qed.
#[local] Hint Resolve execute_epoch_change_number : preserves.

Lemma execute_fleek_number r : preserves number_view (execute_fleek_transaction r).
Proof.
  unfold execute_fleek_transaction. destruct (payload_method (payload r)); unfold_handlers;
    unfold change_epoch, committee_info_set, get_block_number,
      set_committee_selection_beacon_commit_phase, committee_selection_beacon_commit,
      committee_selection_beacon_reveal, committee_selection_beacon_commit_phase_timeout,
      finalize_commit_phase, set_committee_selection_beacon_reveal_phase,
      clear_committee_selection_beacons, clear_committee_selection_beacon_non_revealing_node,
      clear_committee_selection_beacon_timeouts, committee_selection_beacon_reveal_phase_timeout,
      finalize_reveal_phase, restart_after_non_reveal,
      slash_node_after_non_reveal_and_maybe_kick, node_info_set,
      get_committee_selection_beacon_non_reveal_slash_amount, committee_info_set;
    solve_preserves.
Qed.

Lemma execute_number txn : preserves number_view (execute_transaction txn).
Proof.
  intros s r s' (t & Hex & Hb)%execute_transaction_split. transitivity (number_view t).
  - revert Hb. assert (preserves number_view (bookkeeping txn)) as Hp; [|apply Hp].
    unfold bookkeeping, increment_nonce. unfold_handlers. solve_preserves.
  - destruct txn as [p|p]; [by eapply execute_fleek_number|]. revert Hex.
    assert (preserves number_view (execute_ethereum_transaction p)) as Hp; [|apply Hp].
    unfold execute_ethereum_transaction. unfold_handlers. solve_preserves.
Qed.
End block_number.

(** ** Blocks *)

Section blocks.
Context {R : Ruint} {L : RuintLaws R} {B : Bigint} {H : Host} {HL : HostLaws H}.
Context (tree_root : StateExecutor → Hash32) (checkpoint : Env → option Hash32).

#[local] Hint Extern 1 (preserves view (metadata_set _ _)) =>
  (apply set_metadata_view; discriminate) : preserves.
#[local] Hint Extern 1 (preserves reg_view (metadata_set _ _)) =>
  (apply metadata_set_reg; discriminate) : preserves.

Lemma verify_transaction_state txn s v s' : verify_transaction txn s = Some (v, s') → s' = s.
Proof.
  intros Hv. unfold verify_transaction, verify_chain_id, verify_ethereum_transaction in Hv.
  by run_M Hv.
Qed.

Lemma run_transaction_effect d n i txn s rc s' :
  run_transaction d n i txn s = Some (rc, s') →
  receipt_block_hash rc = d ∧ receipt_block_number rc = n ∧ transaction_index rc = i ∧
  rtc beacon_step s s' ∧
  (registry_ok s → in_width 32 (get_next_node_index s + 1) → reg_grows s s').
Proof.
  intros Hrun. unfold run_transaction in Hrun. unfold_M.
  destruct (verify_transaction txn s) as [[[[u|e] txn'] t]|] eqn:Hv; [..|done];
    apply verify_transaction_state in Hv; subst t.
  - destruct (execute_transaction txn' s) as [[r t]|] eqn:He; [|done]. simplify_eq.
    split_and!; [done..| |].
    + by eapply execute_beacon_steps.
    + intros. by eapply execute_keeps_registry.
  - simplify_eq. split_and!; [done..|apply rtc_refl|]. intros. by apply reg_grows_view.
Qed.

Lemma run_transactions_effect d n i txns s rs s' :
  registry_ok s → 0 ≤ get_next_node_index s →
  get_next_node_index s + Z.of_nat (length txns) < 2 ^ 32 →
  run_transactions d n i txns s = Some (rs, s') →
  rtc beacon_step s s' ∧ registry_ok s' ∧ length rs = length txns ∧
  get_next_node_index s ≤ get_next_node_index s' ≤
    get_next_node_index s + Z.of_nat (length txns).
Proof.
  revert i s rs. induction txns as [|txn txns IH]; intros i s rs Hreg Hpos Hw Hrun.
  { simpl in Hrun. unfold_M. simplify_eq. split_and!; [apply rtc_refl|done..|simpl; lia]. }
  cbn [run_transactions length] in *. rewrite Nat2Z.inj_succ in Hw. unfold_M.
  destruct (run_transaction d n i txn s) as [[rc t]|] eqn:Hr; [|done].
  destruct (run_transactions d n (i + 1) txns t) as [[rs' t']|] eqn:Hrs; [|done]. simplify_eq.
  apply run_transaction_effect in Hr as (_ & _ & _ & Hsteps & Hg).
  destruct (Hg Hreg) as [Ht Hx]; [unfold in_width; lia|].
  destruct (IH (i + 1) t rs') as (Hsteps' & Hok & Hlen & Hx'); [done|lia|lia|done|].
  split_and!; [by etrans|done|simpl; by rewrite Hlen|lia|lia].
Qed.

(** The changes at the end of a block only write metadata. *)
Lemma finish_block_view block ce k : preserves view (finish_block block ce k).
Proof.
  unfold finish_block, set_epoch_era, set_last_block, get_block_number. solve_preserves.
Qed.
Lemma finish_block_reg block ce k : preserves reg_view (finish_block block ce k).
Proof.
  unfold finish_block, set_epoch_era, set_last_block, get_block_number. solve_preserves.
Qed.

(** The parts of a block. *)
Lemma run_split block e r e' :
  run tree_root checkpoint block e = Some (r, e') →
  ∃ n s1 s2,
    get_block_number (tables e) = Some (n, tables e) ∧
    run_transactions (digest block) (n +[64] 1) 0 (transactions block) (tables e)
      = Some (txn_receipts r, s1) ∧
    finish_block block (block_change_epoch r) (get_current_committee (tables e)) s1
      = Some (tt, s2) ∧
    (tables e' = s2 ∨ ∃ h, set_last_epoch_hash h s2 = Some (tt, tables e')) ∧
    state_root e' = tree_root (tables e') ∧
    block_number r = n +[64] 1 ∧ block_hash r = digest block ∧
    parent_hash r = get_block_hash (tables e) ∧
    block_change_epoch r = existsb is_epoch_change (txn_receipts r) ∧
    block_node_registry_changes r = default [] (c ← get_current_committee s1;
      c.(node_registry_changes) !! block_number r) ∧
    previous_state_root r = state_root e ∧ new_state_root r = state_root e.
Proof.
  intros Hrun. unfold run, state_run, get_state_root, executor in Hrun. unfold_M.
  destruct (get_block_number (tables e)) as [[n s0]|] eqn:Hn; [|done].
  assert (s0 = tables e) as -> by (unfold get_block_number in Hn; by run_M Hn).
  cbn [tables state_root] in Hrun.
  destruct (run_transactions _ _ 0 _ (tables e)) as [[rs s1]|] eqn:Hrs; [|done].
  cbn [tables state_root] in Hrun.
  destruct (finish_block _ _ _ s1) as [[[] s2]|] eqn:Hf; [|done].
  cbn [tables state_root block_change_epoch] in Hrun. exists n, s1, s2.
  destruct (existsb is_epoch_change rs) eqn:Hce;
    [destruct (checkpoint _) as [h|]|];
    unfold update_last_epoch_hash, state_run, executor in Hrun; unfold_M;
    cbn [tables state_root] in Hrun;
    try (destruct (set_last_epoch_hash h s2) as [[[] s3]|] eqn:Hh; [|done]);
    simplify_eq; cbn; rewrite ?Hce; split_and!; eauto.
Qed.

Lemma run_transactions_number d n i txns : preserves number_view (run_transactions d n i txns).
Proof.
  revert i. induction txns as [|txn txns IH]; intros i; simpl; [solve_preserves|].
  apply preserves_bind; [|intros; apply preserves_bind; [apply IH|solve_preserves]].
  intros s rc s' Hrun. unfold run_transaction in Hrun. unfold_M.
  destruct (verify_transaction txn s) as [[[[u|e] txn'] t]|] eqn:Hv; [..|done];
    apply verify_transaction_state in Hv; subst t; [|by simplify_eq].
  destruct (execute_transaction txn' s) as [[r t]|] eqn:He; [|done]. simplify_eq.
  by eapply execute_number.
Qed.

Lemma get_block_number_view s s' n :
  number_view s' = number_view s → get_block_number s = Some (n, s) →
  get_block_number s' = Some (n, s').
Proof.
  unfold get_block_number, number_view. unfold_M. intros ->.
  destruct (metadata s !! Metadata.BlockNumber); naive_solver.
Qed.

(** Verification recovers the sender of an Ethereum transaction and changes nothing else. *)
Lemma verify_transaction_keeps txn s v txn' s' :
  verify_transaction txn s = Some ((v, txn'), s') → hash txn' = hash txn ∧ to txn' = to txn.
Proof.
  intros Hv. unfold verify_transaction, verify_chain_id, verify_ethereum_transaction in Hv. by run_M Hv.
Qed.

(** A receipt of a transaction: verification and execution of this transaction take
    [s] to [s'] with the response of the receipt. *)
Definition receipt_for (txn : TransactionRequest) (s : StateExecutor) (rc : TransactionReceipt) (s' : StateExecutor) : Prop :=
  transaction_hash rc = hash txn ∧ receipt_to rc = to txn ∧
  ∃ verified txn', verify_transaction txn s = Some ((verified, txn'), s) ∧ receipt_from rc = sender txn' ∧
    event rc = (if is_success (response rc) then txn_event txn' else None) ∧
    match verified with
    | Ok _ => execute_transaction txn' s = Some (response rc, s')
    | Err err => response rc = Revert err ∧ s' = s
    end.

Lemma run_transaction_receipt d n i txn s rc s' :
  run_transaction d n i txn s = Some (rc, s') →
  receipt_for txn s rc s' ∧ transaction_index rc = i ∧ receipt_block_hash rc = d ∧ receipt_block_number rc = n.
Proof.
  intros Hrun. unfold run_transaction in Hrun. unfold_M.
  destruct (verify_transaction txn s) as [[[v txn'] t]|] eqn:Hv; [|done].
  pose proof (verify_transaction_state _ _ _ _ Hv) as ->. pose proof (verify_transaction_keeps _ _ _ _ _ Hv) as [Hh Ht].
  destruct v as [u|e].
  - destruct (execute_transaction txn' s) as [[r t]|] eqn:He; [|done]. simplify_eq.
    split_and!; [|done..]. split_and!; [done|done|]. by exists (Ok u), txn'.
  - simplify_eq. split_and!; [|done..]. split_and!; [done|done|]. by exists (Err e), txn'.
Qed.

(** The receipts of a block, and the states between its transactions. *)
Lemma run_transactions_receipts d n i txns s rs s' :
  run_transactions d n i txns s = Some (rs, s') →
  length rs = length txns ∧
  ∃ states, head states = Some s ∧ last states = Some s' ∧ length states = S (length txns) ∧
    ∀ j txn, txns !! j = Some txn → ∃ t rc t', states !! j = Some t ∧ rs !! j = Some rc ∧ states !! S j = Some t' ∧
      receipt_for txn t rc t' ∧ transaction_index rc = i + Z.of_nat j ∧
      receipt_block_hash rc = d ∧ receipt_block_number rc = n.
Proof.
  revert i s rs. induction txns as [|txn txns IH]; intros i s rs Hrun; simpl in Hrun; unfold_M.
  { simplify_eq. split; [done|]. by exists [s']. }
  destruct (run_transaction d n i txn s) as [[rc t]|] eqn:Hr; [|done].
  destruct (run_transactions d n (i + 1) txns t) as [[rs' t']|] eqn:Hrs; [|done]. simplify_eq.
  destruct (IH _ _ _ Hrs) as (Hlen & states & Hh & Hl & Hn & Hj). split; [by simpl; rewrite Hlen|].
  destruct states as [|t0 states]; [done|]. injection Hh as ->.
  exists (s :: t :: states). split_and!; [done|done|by simpl in *; rewrite Hn|].
  intros [|j] txn' Htxn; simpl in Htxn.
  - simplify_eq. apply run_transaction_receipt in Hr as (? & ? & ? & ?). exists s, rc, t. split_and!; [done..|lia|done|done].
  - destruct (Hj j txn' Htxn) as (u & rc' & u' & ? & ? & ? & ? & ? & ? & ?). exists u, rc', u'.
    split_and!; [done..|lia|done|done].
Qed.

(** The end of a block writes nothing but metadata. *)
Definition but_metadata (s : StateExecutor) : StateExecutor := set_metadata ∅ s.

Lemma finish_block_metadata block ce k : preserves but_metadata (finish_block block ce k).
Proof.
  unfold finish_block, set_epoch_era, set_last_block, get_block_number, metadata_set. solve_preserves.
Qed.

Lemma set_last_block_effect h i r s s' n :
  get_block_number s = Some (n, s) → set_last_block h i r s = Some (tt, s') →
  get_block_hash s' = h ∧ number_view s' = Some (Value.BlockNumber (n +[64] 1)).
Proof.
  intros Hn Hrun. unfold set_last_block, get_block_number, metadata_set, number_view in *.
  unfold_M. revert Hrun. state_simpl. rewrite !lookup_insert_ne by done.
  destruct (metadata s !! Metadata.BlockNumber) as [v|]; [|done]. intros Hrun. simplify_eq.
  unfold get_block_hash. state_simpl. split; [|by rewrite lookup_insert_eq].
  rewrite !lookup_insert_ne by done. by rewrite lookup_insert_eq.
Qed.

Lemma finish_block_effect block ce k s s' n :
  get_block_number s = Some (n, s) → finish_block block ce k s = Some (tt, s') →
  get_block_hash s' = digest block ∧ number_view s' = Some (Value.BlockNumber (n +[64] 1)).
Proof.
  intros Hn Hrun. unfold finish_block in Hrun. unfold_M.
  destruct (bool_decide (members <$> k ≠ members <$> get_current_committee s)) eqn:Hc; unfold_M.
  - destruct (set_epoch_era _ s) as [[[] t]|] eqn:He; [|done].
    assert (number_view t = number_view s) as Hv
      by (by eapply (metadata_set_number Metadata.EpochEra)).
    rewrite orb_true_r in Hrun.
    eapply set_last_block_effect; [|exact Hrun]. by apply (get_block_number_view s).
  - destruct ce; simpl in Hrun; by eapply set_last_block_effect.
Qed.

(** Storing the checkpoint hash keeps the last block. *)
Lemma last_epoch_hash_block h s s' :
  set_last_epoch_hash h s = Some (tt, s') →
  get_block_hash s' = get_block_hash s ∧ number_view s' = number_view s ∧
  view s' = view s ∧ reg_view s' = reg_view s.
Proof.
  intros Hrun. split_and!; [|by eapply (metadata_set_number Metadata.LastEpochHash)
    |by eapply (set_metadata_view Metadata.LastEpochHash)
    |by eapply (metadata_set_reg Metadata.LastEpochHash)].
  unfold set_last_epoch_hash, metadata_set in Hrun. unfold_M. simplify_eq.
  unfold get_block_hash. state_simpl. by rewrite lookup_insert_ne.
Qed.

(** The executed block is the last block, under the next number. *)
Lemma run_last_block block e r e' n :
  run tree_root checkpoint block e = Some (r, e') →
  get_block_number (tables e) = Some (n, tables e) →
  get_block_hash (tables e') = digest block ∧
  number_view (tables e') = Some (Value.BlockNumber (n +[64] 1)).
Proof.
  intros (n' & s1 & s2 & Hn & Hrs & Hf & He' & _)%run_split Hn'.
  assert (n' = n) as -> by congruence.
  pose proof (run_transactions_number _ _ _ _ _ _ _ Hrs) as Hv1.
  destruct (finish_block_effect _ _ _ s1 s2 n ltac:(by eapply get_block_number_view) Hf)
    as [Hh2 Hv2].
  destruct He' as [->|[h Hset]]; [done|].
  apply last_epoch_hash_block in Hset as (-> & -> & _). done.
Qed.

Lemma run_sets_last_block block e r e' :
  run tree_root checkpoint block e = Some (r, e') → get_block_hash (tables e') = digest block.
Proof.
  intros Hrun. pose proof Hrun as (n & _ & _ & Hn & _)%run_split.
  by destruct (run_last_block block e r e' n Hrun Hn).
Qed.

(** C22: Executing a block: it gets the next number and is linked to the hash of the
    block before, which the state then replaces by its own.  It has one receipt per
    transaction, numbered in their order, and there are states between the
    transactions, from that before the block to one with the tables after it but for
    the metadata, such that each receipt carries the hash, the destination, the
    verified sender and the response of its transaction, which verification and
    execution give in the state before it and which lead to the state after it.  The
    block reports an epoch change exactly when one of these responses is one.  The
    response carries the recorded root of before the block as both its previous and its
    new root, because the tree is updated after the response is built. *)
Theorem run_block_spec block e r e' :
  run tree_root checkpoint block e = Some (r, e') →
  ∃ n states, get_block_number (tables e) = Some (n, tables e) ∧
    block_number r = n +[64] 1 ∧ block_hash r = digest block ∧
    parent_hash r = get_block_hash (tables e) ∧
    get_block_hash (tables e') = digest block ∧
    get_block_number (tables e') = Some (block_number r, tables e') ∧
    length (txn_receipts r) = length (transactions block) ∧
    length states = S (length (transactions block)) ∧ head states = Some (tables e) ∧
    (∃ s, last states = Some s ∧ but_metadata (tables e') = but_metadata s) ∧
    (∀ i txn, transactions block !! i = Some txn →
       ∃ s rc s', states !! i = Some s ∧ txn_receipts r !! i = Some rc ∧ states !! S i = Some s' ∧
         receipt_for txn s rc s' ∧ transaction_index rc = Z.of_nat i ∧
         receipt_block_hash rc = digest block ∧ receipt_block_number rc = block_number r) ∧
    (block_change_epoch r = true ↔
       ∃ rc, rc ∈ txn_receipts r ∧ response rc = Success ExecutionData.EpochChange) ∧
    previous_state_root r = state_root e ∧ new_state_root r = state_root e.
Proof.
  intros Hrun. pose proof Hrun as (n & s1 & s2 & Hn & Hrs & Hf & He' & _ & Hbn & Hbh & Hph &
    Hce & _ & Hpr & Hnr)%run_split.
  destruct (run_last_block block e r e' n Hrun Hn) as [Hh Hv].
  destruct (run_transactions_receipts _ _ _ _ _ _ _ Hrs) as (Hlen & states & Hhead & Hlast & Hcount & Hrc).
  exists n, states. split_and!; try done; try congruence.
  - unfold get_block_number. unfold_M. unfold number_view in Hv. rewrite Hv. by rewrite Hbn.
  - exists s1. split; [done|]. apply finish_block_metadata in Hf as <-. destruct He' as [->|[h Hset]]; [done|].
    by assert (Some (tt, set_metadata _ s2) = Some (tt, tables e')) as [= <-] by exact Hset.
  - intros i txn Hi. rewrite Hbn. destruct (Hrc i txn Hi) as (s & rc & s' & Hx). exists s, rc, s'. exact Hx.
  - rewrite Hce, existsb_exists. unfold is_epoch_change. split; intros (rc & Hin & Hr).
    + exists rc. rewrite list_elem_of_In. split; [done|].
      by destruct (response rc) as [[]|].
    + exists rc. rewrite <-list_elem_of_In. split; [done|]. by rewrite Hr.
Qed.

(** Service events are computed for account owners only, but only nodes can
    submit delivered commodity: no receipt ever carries one. *)
Lemma submit_pod_owner_reverts a c sid s r s' :
  submit_pod (TransactionSender.AccountOwner a) c sid s = Some (r, s') → is_success r = false.
Proof.
  intros Hrun. unfold submit_pod in Hrun. unfold_M.
  destruct (only_node_with_sufficient_stake_and_participating _ s) as [[g t]|] eqn:Hg; [|done].
  apply participating_guard in Hg as [[-> Hok] _].
  destruct g as [i|e]; simpl in Hok; [by destruct Hok|].
  destruct Hok as [err ->]. by simplify_eq.
Qed.

Lemma service_events_never_emitted d n i txn s rc s' sid data :
  run_transaction d n i txn s = Some (rc, s') → event rc ≠ Some (Event.ServiceEvent sid data).
Proof.
  intros Hrun. unfold run_transaction in Hrun. unfold_M.
  destruct (verify_transaction txn s) as [[[[u|e] txn'] t]|] eqn:Hv; [..|done];
    [|by simplify_eq].
  destruct (execute_transaction txn' t) as [[r t']|] eqn:He; [|done]. simplify_eq. simpl.
  destruct (is_success r) eqn:Hs; [|done]. intros Hev.
  apply execute_transaction_split in He as (t1 & Hex & _). destruct txn' as [p|p];
    unfold txn_event in Hev; cbn [sender] in Hev; [|done].
  destruct (payload_sender (payload p)) as [| |a] eqn:Hsend; try done.
  unfold execute_fleek_transaction in Hex. destruct (payload_method (payload p)); try done.
  rewrite Hsend in Hex. apply submit_pod_owner_reverts in Hex. congruence.
Qed.

(** ** Chains of blocks *)

Fixpoint run_blocks (blocks : list Block) : M Env (list BlockExecutionResponse) :=
  match blocks with
  | [] => mret []
  | block :: blocks =>
      r ← run tree_root checkpoint block;
      rs ← run_blocks blocks;
      mret (r :: rs)
  end.

Definition num_txns (blocks : list Block) : Z :=
  zsum (λ b, Z.of_nat (length (transactions b))) blocks.

Lemma num_txns_nonneg blocks : 0 ≤ num_txns blocks.
Proof. apply zsum_nonneg. intros. lia. Qed.

Lemma run_keeps block e r e' :
  registry_ok (tables e) → 0 ≤ get_next_node_index (tables e) →
  get_next_node_index (tables e) + Z.of_nat (length (transactions block)) < 2 ^ 32 →
  run tree_root checkpoint block e = Some (r, e') →
  rtc beacon_step (tables e) (tables e') ∧ registry_ok (tables e') ∧
  0 ≤ get_next_node_index (tables e') ≤
    get_next_node_index (tables e) + Z.of_nat (length (transactions block)).
Proof.
  intros Hreg Hpos Hw (n & s1 & s2 & _ & Hrs & Hf & He' & _)%run_split.
  destruct (run_transactions_effect _ _ _ _ _ _ _ Hreg Hpos Hw Hrs) as (Hst & Hok & _ & Hx).
  pose proof (finish_block_view _ _ _ _ _ _ Hf) as Hv2.
  pose proof (finish_block_reg _ _ _ _ _ _ Hf) as Hr2.
  assert (view (tables e') = view s2 ∧ reg_view (tables e') = reg_view s2) as [Hv Hr].
  { destruct He' as [->|[h Hset]]; [done|].
    by apply last_epoch_hash_block in Hset as (_ & _ & -> & ->). }
  assert (reg_view (tables e') = reg_view s1) as Hr' by congruence.
  split_and!.
  - etrans; [exact Hst|]. apply rtc_once, step_other. congruence.
  - by apply (reg_view_ok s1).
  - injection Hr' as _ _ -> _. lia.
  - injection Hr' as _ _ -> _. lia.
Qed.

Lemma run_blocks_keeps blocks e rs e' :
  registry_ok (tables e) → 0 ≤ get_next_node_index (tables e) →
  get_next_node_index (tables e) + num_txns blocks < 2 ^ 32 →
  run_blocks blocks e = Some (rs, e') →
  rtc beacon_step (tables e) (tables e') ∧ registry_ok (tables e').
Proof.
  revert e rs. induction blocks as [|block blocks IH]; intros e rs Hreg Hpos Hw Hrun;
    simpl in Hrun; unfold_M; [simplify_eq; by split; [apply rtc_refl|]|].
  unfold num_txns in Hw. simpl in Hw. fold (num_txns blocks) in Hw.
  pose proof (num_txns_nonneg blocks).
  destruct (run _ _ block e) as [[r e1]|] eqn:Hr; [|done].
  destruct (run_blocks blocks e1) as [[rs1 e2]|] eqn:Hrs; [|done]. simplify_eq.
  destruct (run_keeps block e r e1 Hreg Hpos ltac:(lia) Hr) as (Hst & Hok & Hx).
  destruct (IH e1 rs1) as [Hst' Hok']; [done|lia|lia|done|].
  split; [by etrans|done].
Qed.

(** C5: From genesis on, along every chain of blocks, whatever transactions
    they contain and however they respond, the node registry stays consistent
    and the beacon satisfies its protocol invariant, as long as fewer node
    indices than the 32 bits of an index are given out. *)
Theorem chain_invariant g s root blocks rs e' :
  genesis_ok g → apply_genesis_block g empty_state = Some (true, s) →
  Z.of_nat (length (g_node_info g)) + num_txns blocks < 2 ^ 32 →
  run_blocks blocks (mkEnv s root) = Some (rs, e') →
  registry_ok (tables e') ∧ beacon_inv (view (tables e')).
Proof.
  intros Hg Hs Hw Hrun. destruct (genesis_initial g Hg) as (s0 & Hs0 & Hin).
  assert (s0 = s) as -> by congruence. pose proof (in_next g s Hin) as Hnext.
  destruct (run_blocks_keeps blocks (mkEnv s root) rs e') as [Hst Hok];
    [exact (in_registry g s Hin)|simpl; lia|simpl; lia|done|].
  split; [done|]. eapply reachable_inv; [exact (in_beacon g s Hin)|exact Hst].
Qed.
End blocks.
