(* ===== verification/Codec.v ===== *)
(** * Codec: blocks and transactions as bytes

    The conversions between [Block], [TransactionRequest] and [Vec<u8>] of
    [core/types/src/transaction.rs], the form in which blocks travel and are
    archived.  The payload encodings (bincode for Fleek transactions, RLP for
    Ethereum transactions) are a class parameter with their round trips as
    laws.  Bytes are integers; an outer [None] is a panic, [Err] the error the
    code returns. *)

From S2P Require Import Prelude Types.
From stdpp Require Import base list.
From Stdlib Require Import ZArith Lia.
Open Scope Z_scope.

Abbreviation Bytes := (list Z) (only parsing).

Class Codec := {
  bincode_serialize : UpdateRequest → option Bytes;
  bincode_deserialize : Bytes → option UpdateRequest;
  eth_rlp : EthersTransaction → Bytes;
  rlp_decode : Bytes → option EthersTransaction;
  (** The transactions RLP represents completely. *)
  rlp_canonical : EthersTransaction → Prop;
  (** [size_of::<TransactionRequest>()]. *)
  size_of_transaction : Z
}.

Class CodecLaws (C : Codec) : Prop := {
  bincode_roundtrip r bs : bincode_serialize r = Some bs → bincode_deserialize bs = Some r;
  rlp_roundtrip t : rlp_canonical t → rlp_decode (eth_rlp t) = Some t
}.

(** ** Fixed-width integers *)

(** [uN::to_le_bytes] and [uN::from_le_bytes] for [k] bytes. *)
Fixpoint to_le_bytes (k : nat) (v : Z) : Bytes :=
  match k with
  | O => []
  | S k => v mod 256 :: to_le_bytes k (v / 256)
  end.

Definition from_le_bytes (bs : Bytes) : Z := foldr (λ b acc, b + 256 * acc) 0 bs.

(** A 32-byte array is the number it encodes in big-endian order. *)
Definition array_bytes (n : Hash32) : Bytes := reverse (to_le_bytes 32 (Z.of_N n)).
Definition array_of_bytes (bs : Bytes) : Hash32 := Z.to_N (from_le_bytes (reverse bs)).

Lemma to_le_bytes_length k v : length (to_le_bytes k v) = k.
Proof. revert v. induction k; intros; simpl; congruence. Qed.

Lemma array_bytes_length n : length (array_bytes n) = 32%nat.
Proof. unfold array_bytes. by rewrite length_reverse, to_le_bytes_length. Qed.

Lemma le_bytes_roundtrip k v :
  0 ≤ v < 2 ^ (8 * Z.of_nat k) → from_le_bytes (to_le_bytes k v) = v.
Proof.
  revert v. induction k as [|k IH]; intros v Hv; simpl; [simpl in Hv; lia|].
  rewrite IH; [pose proof (Z.div_mod v 256); lia|].
  replace (8 * Z.of_nat (S k)) with (8 * Z.of_nat k + 8) in Hv by lia.
  rewrite Z.pow_add_r in Hv by lia. change (2 ^ 8) with 256 in Hv.
  split; [apply Z.div_pos; lia|apply Z.div_lt_upper_bound; lia].
Qed.

Lemma array_roundtrip n : (n < 2 ^ 256)%N → array_of_bytes (array_bytes n) = n.
Proof.
  intros Hn. unfold array_of_bytes, array_bytes. rewrite reverse_involutive.
  rewrite le_bytes_roundtrip; [lia|]. change (8 * Z.of_nat 32) with 256. lia.
Qed.

(** ** Slices *)

(** [value.get(a..b)]. *)
Definition get_range (value : Bytes) (a b : Z) : option Bytes :=
  if bool_decide (a ≤ b ≤ Z.of_nat (length value))
  then Some (take (Z.to_nat (b - a)) (drop (Z.to_nat a) value))
  else None.

Lemma get_range_app pre bs post :
  get_range (pre ++ bs ++ post) (Z.of_nat (length pre))
    (Z.of_nat (length pre) + Z.of_nat (length bs)) = Some bs.
Proof.
  unfold get_range. rewrite bool_decide_eq_true_2 by (rewrite !length_app; lia).
  replace (Z.to_nat (_ - _)) with (length bs) by lia.
  rewrite Nat2Z.id, drop_app_length. by rewrite take_app_length.
Qed.

Section Codec.
Context {C : Codec}.

(** ** Transactions *)

Definition transaction_to_bytes (value : TransactionRequest) : Result Bytes unit :=
  match value with
  | UpdateRequest_ update_req =>
      match bincode_serialize update_req with
      | Some bytes => Ok (bytes ++ [0x00])
      | None => Err tt
      end
  | EthereumRequest eth_tx => Ok (eth_rlp eth_tx ++ [0x01])
  end.

Definition transaction_from_bytes (value : Bytes) : option (Result TransactionRequest unit) :=
  magic_byte ← last value;
  let body := take (length value - 1) value in
  Some (
    if bool_decide (magic_byte = 0x00) then
      match bincode_deserialize body with
      | Some update_req => Ok (UpdateRequest_ update_req)
      | None => Err tt
      end
    else if bool_decide (magic_byte = 0x01) then
      match rlp_decode body with
      | Some eth_tx => Ok (EthereumRequest eth_tx)
      | None => Err tt
      end
    else Err tt).

(** ** Blocks *)

Fixpoint transactions_to_bytes (txns : list TransactionRequest) : Result Bytes unit :=
  match txns with
  | [] => Ok []
  | tx :: txns =>
      match transaction_to_bytes tx with
      | Err e => Err e
      | Ok tx_bytes =>
          match transactions_to_bytes txns with
          | Err e => Err e
          | Ok rest => Ok (to_le_bytes 8 (Z.of_nat (length tx_bytes)) ++ tx_bytes ++ rest)
          end
      end
  end.

Definition block_to_bytes (value : Block) : Result Bytes unit :=
  match transactions_to_bytes (transactions value) with
  | Err e => Err e
  | Ok rest =>
      Ok (array_bytes (digest value) ++ to_le_bytes 8 (sub_dag_index value)
          ++ to_le_bytes 8 (sub_dag_round value)
          ++ to_le_bytes 8 (Z.of_nat (length (transactions value))) ++ rest)
  end.

(** The loop over the transactions; the pointer is a [usize]. *)
Fixpoint read_transactions (value : Bytes) (num_txns : nat) (pointer : Z)
    : option (Result (list TransactionRequest) unit) :=
  match num_txns with
  | O => Some (Ok [])
  | S num_txns =>
      match get_range value pointer (pointer +[64] 8) with
      | None => Some (Err tt)
      | Some tx_len_bytes =>
          let tx_len := from_le_bytes tx_len_bytes in
          let pointer := pointer +[64] 8 in
          match get_range value pointer (pointer +[64] tx_len) with
          | None => Some (Err tt)
          | Some tx_bytes =>
              tx ← transaction_from_bytes tx_bytes;
              match tx with
              | Err e => Some (Err e)
              | Ok tx =>
                  txns ← read_transactions value num_txns (pointer +[64] tx_len);
                  Some (match txns with Err e => Err e | Ok txns => Ok (tx :: txns) end)
              end
          end
      end
  end.

(** [Vec::with_capacity] panics when the bytes exceed [isize::MAX]. *)
Definition with_capacity (n : Z) : option unit :=
  if bool_decide (n * size_of_transaction ≤ 2 ^ 63 - 1) then Some tt else None.

Definition block_from_bytes (value : Bytes) : option (Result Block unit) :=
  match get_range value 0 32, get_range value 32 40, get_range value 40 48,
        get_range value 48 56 with
  | Some digest, Some sub_dag_index_bytes, Some sub_dag_round_bytes, Some num_txns_bytes =>
      let num_txns := from_le_bytes num_txns_bytes in
      with_capacity num_txns;;
      txns ← read_transactions value (Z.to_nat num_txns) 56;
      Some (match txns with
            | Err e => Err e
            | Ok txns =>
                Ok (mkBlock (array_of_bytes digest) (from_le_bytes sub_dag_index_bytes)
                      (from_le_bytes sub_dag_round_bytes) txns)
            end)
  | _, _, _, _ => Some (Err tt)
  end.
End Codec.

(** ** Round trips *)

#[local] Opaque to_le_bytes array_bytes.

Section roundtrip.
Context {C : Codec} {CL : CodecLaws C}.

Definition canonical (tx : TransactionRequest) : Prop :=
  match tx with
  | UpdateRequest_ _ => True
  | EthereumRequest t => rlp_canonical t
  end.

Lemma take_snoc (bs : Bytes) b : take (length (bs ++ [b]) - 1) (bs ++ [b]) = bs.
Proof.
  rewrite length_app. simpl. replace (length bs + 1 - 1)%nat with (length bs) by lia.
  apply take_app_length.
Qed.

Lemma transaction_roundtrip tx bs :
  canonical tx → transaction_to_bytes tx = Ok bs → transaction_from_bytes bs = Some (Ok tx).
Proof.
  intros Hc. unfold transaction_to_bytes, transaction_from_bytes. destruct tx as [r|t].
  - destruct (bincode_serialize r) as [body|] eqn:Hb; [|done]. intros [= <-].
    rewrite last_snoc, take_snoc. simpl. by rewrite (bincode_roundtrip r body Hb).
  - intros [= <-]. rewrite last_snoc, take_snoc. simpl. by rewrite rlp_roundtrip.
Qed.

(** A length prefix and the bytes it announces, read behind [pre]. *)
Lemma read_prefixed pre bs post :
  Z.of_nat (length (pre ++ to_le_bytes 8 (Z.of_nat (length bs)) ++ bs ++ post)) < 2 ^ 64 →
  let value := pre ++ to_le_bytes 8 (Z.of_nat (length bs)) ++ bs ++ post in
  let p := Z.of_nat (length pre) in
  get_range value p (p +[64] 8) = Some (to_le_bytes 8 (Z.of_nat (length bs))) ∧
  p +[64] 8 = p + 8 ∧
  get_range value (p + 8) ((p + 8) +[64] Z.of_nat (length bs)) = Some bs ∧
  (p + 8) +[64] Z.of_nat (length bs) = p + 8 + Z.of_nat (length bs).
Proof.
  intros Hlen value p. rewrite !length_app, to_le_bytes_length in Hlen.
  assert (p +[64] 8 = p + 8) as H8 by (apply wrap_small; unfold in_width, p; lia).
  assert ((p + 8) +[64] Z.of_nat (length bs) = p + 8 + Z.of_nat (length bs)) as Hb
    by (apply wrap_small; unfold in_width, p; lia).
  split_and!; [|done| |done].
  - rewrite H8. replace 8 with (Z.of_nat (length (to_le_bytes 8 (Z.of_nat (length bs)))))
      at 1 by (by rewrite to_le_bytes_length). apply get_range_app.
  - rewrite Hb. unfold value. rewrite app_assoc.
    replace (p + 8) with (Z.of_nat (length (pre ++ to_le_bytes 8 (Z.of_nat (length bs)))))
      by (rewrite length_app, to_le_bytes_length; unfold p; lia).
    apply get_range_app.
Qed.

Lemma read_transactions_roundtrip txns rest pre post :
  Forall canonical txns → transactions_to_bytes txns = Ok rest →
  Z.of_nat (length (pre ++ rest ++ post)) < 2 ^ 64 →
  read_transactions (pre ++ rest ++ post) (length txns) (Z.of_nat (length pre))
  = Some (Ok txns).
Proof.
  revert rest pre. induction txns as [|tx txns IH]; intros rest pre Hc Henc Hlen; [done|].
  apply Forall_cons in Hc as [Htx Hc]. cbn [transactions_to_bytes] in Henc.
  destruct (transaction_to_bytes tx) as [bs|e] eqn:Hbs; [|done].
  destruct (transactions_to_bytes txns) as [rest'|e] eqn:Hrest; [|done].
  assert (rest = to_le_bytes 8 (Z.of_nat (length bs)) ++ bs ++ rest') as -> by congruence.
  clear Henc.
  rewrite <-!app_assoc in Hlen |- *.
  destruct (read_prefixed pre bs (rest' ++ post) Hlen) as (H1 & H2 & H3 & H4).
  cbn [read_transactions length]. rewrite H1, H2.
  rewrite le_bytes_roundtrip, H3, H4 by (rewrite !length_app in Hlen; simpl; lia).
  rewrite (transaction_roundtrip tx bs Htx Hbs). simpl.
  rewrite !app_assoc. rewrite !app_assoc in Hlen.
  replace (Z.of_nat (length pre) + 8 + Z.of_nat (length bs)) with
    (Z.of_nat (length ((pre ++ to_le_bytes 8 (Z.of_nat (length bs))) ++ bs))) by
    (rewrite !length_app, to_le_bytes_length; lia).
  rewrite <-(app_assoc _ rest' post). rewrite (IH rest'); [done..|].
  by rewrite app_assoc.
Qed.

Lemma read_transactions_at txns rest pre post p :
  Forall canonical txns → transactions_to_bytes txns = Ok rest →
  Z.of_nat (length (pre ++ rest ++ post)) < 2 ^ 64 → p = Z.of_nat (length pre) →
  read_transactions (pre ++ rest ++ post) (length txns) p = Some (Ok txns).
Proof. intros ??? ->. by apply read_transactions_roundtrip. Qed.

(** Every transaction takes up at least its length prefix. *)
Lemma transactions_fit txns rest :
  transactions_to_bytes txns = Ok rest → (length txns ≤ length rest)%nat.
Proof.
  revert rest. induction txns as [|tx txns IH]; intros rest; simpl; [lia|].
  destruct (transaction_to_bytes tx) as [bs|e]; [|done].
  destruct (transactions_to_bytes txns) as [rest'|e]; [|done].
  intros [= <-]. rewrite !length_app, to_le_bytes_length. pose proof (IH rest' eq_refl). lia.
Qed.

(** A slice of known length read behind [pre]. *)
Lemma get_range_at pre bs post a b :
  a = Z.of_nat (length pre) → b = a + Z.of_nat (length bs) →
  get_range (pre ++ bs ++ post) a b = Some bs.
Proof. intros -> ->. apply get_range_app. Qed.

(** The four header fields in front of the transactions. *)
Lemma header_fields b rest :
  let value := array_bytes (digest b) ++ to_le_bytes 8 (sub_dag_index b)
    ++ to_le_bytes 8 (sub_dag_round b)
    ++ to_le_bytes 8 (Z.of_nat (length (transactions b))) ++ rest in
  get_range value 0 32 = Some (array_bytes (digest b)) ∧
  get_range value 32 40 = Some (to_le_bytes 8 (sub_dag_index b)) ∧
  get_range value 40 48 = Some (to_le_bytes 8 (sub_dag_round b)) ∧
  get_range value 48 56 = Some (to_le_bytes 8 (Z.of_nat (length (transactions b)))).
Proof.
  intros value. unfold value. split_and!.
  - apply (get_range_at []); [done|]. by rewrite array_bytes_length.
  - apply get_range_at; by rewrite ?array_bytes_length, ?to_le_bytes_length.
  - rewrite app_assoc. apply get_range_at;
      by rewrite ?length_app, ?array_bytes_length, ?to_le_bytes_length.
  - rewrite !app_assoc, <-(app_assoc _ _ rest). apply get_range_at;
      by rewrite ?length_app, ?array_bytes_length, ?to_le_bytes_length.
Qed.

(** C40: a block survives its encoding.  The bytes [Vec::try_from] makes of a block, with
    anything at all behind them, are decoded by [Block::try_from] to that block, whenever its
    fields have their widths, its Ethereum transactions are as a decoder delivers them and the
    whole fits the address space. *)
Theorem block_roundtrip b bs post :
  block_to_bytes b = Ok bs →
  Forall canonical (transactions b) →
  (digest b < 2 ^ 256)%N → in_width 64 (sub_dag_index b) → in_width 64 (sub_dag_round b) →
  Z.of_nat (length (transactions b)) * size_of_transaction ≤ 2 ^ 63 - 1 →
  Z.of_nat (length (bs ++ post)) < 2 ^ 64 →
  block_from_bytes (bs ++ post) = Some (Ok b).
Proof.
  intros Henc Hc Hd Hi Hr Hcap Hlen. unfold block_to_bytes in Henc.
  destruct (transactions_to_bytes (transactions b)) as [rest|e] eqn:Hrest; [|done].
  injection Henc as <-. unfold block_from_bytes. rewrite <-!app_assoc in Hlen |- *.
  destruct (header_fields b (rest ++ post)) as (-> & -> & -> & ->).
  assert (Z.of_nat (length (transactions b)) < 2 ^ 64) as Hn
    by (apply transactions_fit in Hrest; rewrite !length_app in Hlen; lia).
  rewrite !le_bytes_roundtrip by (try done; simpl; unfold in_width in *; lia).
  rewrite array_roundtrip, Nat2Z.id by done.
  unfold with_capacity. rewrite bool_decide_eq_true_2 by done. simpl.
  rewrite !app_assoc in Hlen |- *. rewrite <-(app_assoc _ rest post) in Hlen |- *.
  rewrite read_transactions_at by (try done; by rewrite !length_app, ?array_bytes_length,
    ?to_le_bytes_length).
  by destruct b.
Qed.
End roundtrip.

(** ** Malformed input *)

#[local] Transparent to_le_bytes array_bytes.

Section malformed.
Context {C : Codec}.

(** The magic byte of an empty slice is read out of bounds. *)
Lemma empty_transaction_panics : transaction_from_bytes [] = None.
Proof. done. Qed.

(** So a block announcing one transaction of no bytes does not decode to an error: the decoder
    panics. *)
Lemma empty_transaction_in_block_panics header :
  length header = 48%nat →
  block_from_bytes (header ++ to_le_bytes 8 1 ++ to_le_bytes 8 0) = None.
Proof.
  intros Hh. do 48 (destruct header as [|? header]; [done|]). destruct header; [|done].
  unfold block_from_bytes, with_capacity. simpl. by destruct (bool_decide _).
Qed.

(** Neither does one announcing more transactions than a vector can hold. *)
Lemma transaction_count_panics header n :
  length header = 48%nat → 0 ≤ n < 2 ^ 64 → 2 ^ 63 - 1 < n * size_of_transaction →
  block_from_bytes (header ++ to_le_bytes 8 n) = None.
Proof.
  intros Hh Hn Hs. unfold block_from_bytes.
  assert (∃ a b c, get_range (header ++ to_le_bytes 8 n) 0 32 = Some a ∧
    get_range (header ++ to_le_bytes 8 n) 32 40 = Some b ∧
    get_range (header ++ to_le_bytes 8 n) 40 48 = Some c) as (? & ? & ? & -> & -> & ->).
  { unfold get_range. rewrite !bool_decide_eq_true_2
      by (rewrite length_app, Hh, to_le_bytes_length; lia). by do 3 eexists. }
  rewrite <-(app_nil_r (to_le_bytes 8 n)) at 1.
  rewrite (get_range_at header _ []) by (rewrite ?Hh, ?to_le_bytes_length; lia).
  rewrite le_bytes_roundtrip by (simpl; lia).
  unfold with_capacity. by rewrite bool_decide_eq_false_2 by lia.
Qed.
End malformed.
