(* ===== verification/Typing.v ===== *)
(** * Typing: the values under the keys

    The metadata and the protocol parameters are tables from keys to tagged
    values: the accessors of [state/executor.rs] match on the tag they expect and
    mark the other branches as unreachable.  The tags fit the keys in every state
    of a chain, and what genesis sets stays set, as long as every change of a
    parameter carries a value of the tag of its key, which the code does not
    test. *)

From S2P Require Import Prelude HpFixed HpSigned Types State Ledger Accounts Nodes Content Auction Jobs Reputation Measurements Epoch Rewards EpochChange Beacon Executor Invariants Genesis Env.
From stdpp Require Import base gmap list.
From Stdlib Require Import ZArith Lia.
Open Scope Z_scope.

(** ** The types of the keys *)

Definition metadata_type (k : Metadata) (v : Value) : bool :=
  match k, v with
  | Metadata.ChainId, Value.ChainId _ | Metadata.Epoch, Value.Epoch _
  | Metadata.BlockNumber, Value.BlockNumber _ | Metadata.SupplyYearStart, Value.HpUfixed _
  | Metadata.TotalSupply, Value.HpUfixed _ | Metadata.ProtocolFundAddress, Value.AccountPublicKey _
  | Metadata.NextNodeIndex, Value.NextNodeIndex _
  | Metadata.GovernanceAddress, Value.AccountPublicKey _ | Metadata.LastEpochHash, Value.Hash _
  | Metadata.LastBlockHash, Value.Hash _ | Metadata.GenesisCommittee, Value.GenesisCommittee _
  | Metadata.SubDagIndex, Value.SubDagIndex _ | Metadata.SubDagRound, Value.SubDagRound _
  | Metadata.CommitteeSelectionBeaconPhase, Value.CommitteeSelectionBeaconPhase _
  | Metadata.EpochEra, Value.EpochEra _ | Metadata.WithdrawId, Value.WithdrawId _
  | Metadata.TimeInterval, Value.TimeInterval _ => true
  | _, _ => false
  end.

Definition param_type (k : ProtocolParamKey) (v : ProtocolParamValue) : bool :=
  match k, v with
  | ProtocolParamKey.EpochTime, ProtocolParamValue.EpochTime _
  | ProtocolParamKey.EpochsPerYear, ProtocolParamValue.EpochsPerYear _
  | ProtocolParamKey.CommitteeSize, ProtocolParamValue.CommitteeSize _
  | ProtocolParamKey.NodeCount, ProtocolParamValue.NodeCount _
  | ProtocolParamKey.MinimumNodeStake, ProtocolParamValue.MinimumNodeStake _
  | ProtocolParamKey.EligibilityTime, ProtocolParamValue.EligibilityTime _
  | ProtocolParamKey.LockTime, ProtocolParamValue.LockTime _
  | ProtocolParamKey.ProtocolShare, ProtocolParamValue.ProtocolShare _
  | ProtocolParamKey.NodeShare, ProtocolParamValue.NodeShare _
  | ProtocolParamKey.ServiceBuilderShare, ProtocolParamValue.ServiceBuilderShare _
  | ProtocolParamKey.MaxInflation, ProtocolParamValue.MaxInflation _
  | ProtocolParamKey.MaxBoost, ProtocolParamValue.MaxBoost _
  | ProtocolParamKey.MaxStakeLockTime, ProtocolParamValue.MaxStakeLockTime _
  | ProtocolParamKey.MinNumMeasurements, ProtocolParamValue.MinNumMeasurements _
  | ProtocolParamKey.SGXSharedPubKey, ProtocolParamValue.SGXSharedPubKey _
  | ProtocolParamKey.ReputationPingTimeout, ProtocolParamValue.ReputationPingTimeout _
  | ProtocolParamKey.TopologyTargetK, ProtocolParamValue.TopologyTargetK _
  | ProtocolParamKey.TopologyMinNodes, ProtocolParamValue.TopologyMinNodes _
  | ProtocolParamKey.CommitteeSelectionBeaconCommitPhaseDuration,
    ProtocolParamValue.CommitteeSelectionBeaconCommitPhaseDuration _
  | ProtocolParamKey.CommitteeSelectionBeaconRevealPhaseDuration,
    ProtocolParamValue.CommitteeSelectionBeaconRevealPhaseDuration _
  | ProtocolParamKey.CommitteeSelectionBeaconNonRevealSlashAmount,
    ProtocolParamValue.CommitteeSelectionBeaconNonRevealSlashAmount _
  | ProtocolParamKey.TotalTimeIntervals, ProtocolParamValue.TotalTimeIntervals _ => true
  | _, _ => false
  end.

(** The tags fit, and the keys of the two lists are set. *)
Definition typed (ks : list Metadata) (ps : list ProtocolParamKey) (s : StateExecutor) : Prop :=
  (∀ k v, s.(metadata) !! k = Some v → metadata_type k v = true) ∧
  (∀ k v, s.(parameters) !! k = Some v → param_type k v = true) ∧
  (∀ k, k ∈ ks → is_Some (s.(metadata) !! k)) ∧ (∀ k, k ∈ ps → is_Some (s.(parameters) !! k)).

(** What genesis sets. *)
Definition genesis_keys : list Metadata :=
  [Metadata.LastEpochHash; Metadata.ChainId; Metadata.BlockNumber; Metadata.WithdrawId;
   Metadata.ProtocolFundAddress; Metadata.TimeInterval; Metadata.GovernanceAddress;
   Metadata.TotalSupply; Metadata.SupplyYearStart; Metadata.GenesisCommittee; Metadata.Epoch;
   Metadata.EpochEra].

Definition genesis_params : list ProtocolParamKey :=
  filter (λ k, k ≠ ProtocolParamKey.SGXSharedPubKey) ProtocolParamKey.all.

(** ** Operations that keep the types *)

Definition maintains {S A} (I : S → Prop) (m : M S A) : Prop :=
  ∀ s a s', I s → m s = Some (a, s') → I s'.

Section maintains.
Context {S : Type} (I : S → Prop).

Lemma maintains_ret {A} (a : A) : maintains I (mret a).
Proof. intros s b s' HI Hrun. unfold_M. by simplify_eq. Qed.
Lemma maintains_get : maintains I get.
Proof. intros s b s' HI Hrun. unfold_M. by simplify_eq. Qed.
Lemma maintains_panic {A} : maintains I (panic : M S A).
Proof. done. Qed.
Lemma maintains_unwrap {A} (o : option A) : maintains I (unwrap o).
Proof. destruct o; [apply maintains_ret|apply maintains_panic]. Qed.
Lemma maintains_modify g : (∀ s, I s → I (g s)) → maintains I (modify g).
Proof. intros Hg s b s' HI Hrun. unfold_M. simplify_eq. by apply Hg. Qed.
Lemma maintains_bind {A C} (m : M S A) (k : A → M S C) :
  maintains I m → (∀ a, maintains I (k a)) → maintains I (m ≫= k).
Proof.
  intros Hm Hk s b s' HI Hrun. unfold_M. destruct (m s) as [[a t]|] eqn:E; [|done].
  eapply Hk; [|exact Hrun]. by eapply Hm.
Qed.
Lemma maintains_for_each {A} (g : A → M S unit) l :
  (∀ x, maintains I (g x)) → maintains I (for_each g l).
Proof.
  intros Hg. induction l as [|x l IH]; simpl; [apply maintains_ret|].
  by apply maintains_bind; [|intros []].
Qed.
End maintains.

Create HintDb typing.
Ltac solve_maintains :=
  repeat first
    [ progress intros
    | solve [auto 2 with typing nocore]
    | lazymatch goal with
      | |- maintains _ (mret _) => apply maintains_ret
      | |- maintains _ get => apply maintains_get
      | |- maintains _ panic => apply maintains_panic
      | |- maintains _ (unwrap _) => apply maintains_unwrap
      | |- maintains _ (mbind _ _) => apply maintains_bind
      | |- maintains _ (for_each _ _) => apply maintains_for_each
      | |- maintains _ (modify _) => apply maintains_modify; intros; solve [done | by repeat case_match]
      | |- maintains _ (match ?x with _ => _ end) => destruct x
      end
    | progress cbv beta zeta
    | apply maintains_modify; intros; solve [done | by repeat case_match]
    | apply maintains_ret
    | apply maintains_bind ].

Section typing.
Context {R : Ruint} {B : Bigint} {H : Host}.
Context (ks : list Metadata) (ps : list ProtocolParamKey).
Hypothesis Hphase : Metadata.CommitteeSelectionBeaconPhase ∉ ks.
#[local] Abbreviation T := (typed ks ps).

Lemma metadata_set_typed k v : metadata_type k v = true → maintains T (metadata_set k v).
Proof.
  intros Hv. apply maintains_modify. intros s (Hm & Hp & Hk & Hq). unfold typed. state_simpl.
  split_and!; [|done| |done].
  - intros j w. rewrite lookup_insert_Some. intros [[<- <-]|[_ Hj]]; [done|by apply Hm].
  - intros j Hj. rewrite lookup_insert_is_Some'. right. by apply Hk.
Qed.
#[local] Hint Extern 1 (maintains (typed _ _) (metadata_set _ _)) =>
  (apply metadata_set_typed; reflexivity) : typing.

Lemma clear_phase_typed : maintains T clear_committee_selection_beacon_phase.
Proof.
  apply maintains_modify. intros s (Hm & Hp & Hk & Hq). unfold typed. state_simpl.
  split_and!; [|done| |done].
  - intros j w [_ Hj]%lookup_delete_Some. by apply Hm.
  - intros j Hj. rewrite lookup_delete_ne; [by apply Hk|]. by intros <-.
Qed.
#[local] Hint Resolve clear_phase_typed : typing.

Lemma change_param_typed sender k v :
  param_type k v = true → maintains T (change_protocol_param sender k v).
Proof.
  intros Hv. unfold change_protocol_param, governance_address. solve_maintains.
  apply maintains_modify. intros s (Hm & Hp & Hk & Hq). unfold typed. state_simpl. split_and!; [done| |done|].
  - intros j w. rewrite lookup_insert_Some. intros [[<- <-]|[_ Hj]]; [done|by apply Hp].
  - intros j Hj. rewrite lookup_insert_is_Some'. right. by apply Hq.
Qed.

(** ** Transactions *)

Lemma stable_rewards_typed e p n l acc : maintains T (stable_rewards e p n l acc).
Proof.
  revert acc. induction l as [|x l IH]; intros acc; simpl; unfold mint_and_transfer_stables, account_info_set;
    solve_maintains.
Qed.
#[local] Hint Resolve stable_rewards_typed : typing.

Lemma mint_flk_typed amount o : maintains T (mint_and_transfer_flk amount o).
Proof. unfold mint_and_transfer_flk, account_info_set, get_epochs_per_year. solve_maintains. Qed.
#[local] Hint Resolve mint_flk_typed : typing.

Lemma execute_epoch_change_typed e c b : maintains T (execute_epoch_change e c b).
Proof.
  unfold execute_epoch_change, executor_calculate_reputation_scores, update_latencies, score_node,
    distribute_rewards, calculate_emissions, get_epochs_per_year, flk_reward, service_reward,
    mint_and_transfer_stables, account_info_set,
    clean_up_content_registry, clear_content_registry, write_providers, choose_new_committee,
    get_committee_size, get_epoch_time, get_commit_phase_duration, get_reveal_phase_duration,
    get_total_intervals, reassign_jobs, add_jobs, committee_info_set, node_info_set.
  solve_maintains.
Qed.
#[local] Hint Resolve execute_epoch_change_typed : typing.

Lemma guard_typed sender : maintains T (only_node_with_sufficient_stake sender).
Proof. intros s r s' HI [-> _]%sufficient_stake_guard. done. Qed.
Lemma participating_guard_typed sender :
  maintains T (only_node_with_sufficient_stake_and_participating sender).
Proof. intros s r s' HI [[-> _] _]%participating_guard. done. Qed.
Lemma has_sufficient_stake_typed i : maintains T (has_sufficient_stake i).
Proof. intros s r s' HI ->%has_sufficient_stake_readonly. done. Qed.
Lemma registry_change_typed k c : maintains T (record_node_registry_change k c).
Proof. intros s r s' HI [m ->]%record_node_registry_change_frame. done. Qed.
#[local] Hint Resolve guard_typed participating_guard_typed has_sufficient_stake_typed
  registry_change_typed : typing.

(** The changes of parameters that carry a value of the type of the key. *)
Definition method_typed (m : UpdateMethod) : bool :=
  match m with
  | UpdateMethod.ChangeProtocolParam k v => param_type k v
  | _ => true
  end.

Lemma execute_fleek_typed r :
  method_typed (payload_method (payload r)) = true → maintains T (execute_fleek_transaction r).
Proof.
  intros Hm. unfold execute_fleek_transaction.
  destruct (payload_method (payload r)) eqn:E; try (by apply change_param_typed); clear Hm E.
  all: unfold_handlers; unfold change_epoch, committee_info_set, get_block_number,
    set_committee_selection_beacon_commit_phase, committee_selection_beacon_commit,
    committee_selection_beacon_reveal, committee_selection_beacon_commit_phase_timeout,
    finalize_commit_phase, set_committee_selection_beacon_reveal_phase,
    clear_committee_selection_beacons, clear_committee_selection_beacon_non_revealing_node,
    clear_committee_selection_beacon_timeouts, committee_selection_beacon_reveal_phase_timeout,
    finalize_reveal_phase, restart_after_non_reveal, slash_node_after_non_reveal_and_maybe_kick,
    get_committee_selection_beacon_non_reveal_slash_amount, committee_info_set,
    set_committee_selection_beacon_commit_phase, node_info_set.
  all: solve_maintains.
Qed.

Lemma execute_ethereum_typed p : maintains T (execute_ethereum_transaction p).
Proof. unfold execute_ethereum_transaction. unfold_handlers. solve_maintains. Qed.

Definition txn_typed (txn : TransactionRequest) : bool :=
  match txn with
  | UpdateRequest_ r => method_typed (payload_method (payload r))
  | EthereumRequest _ => true
  end.

Lemma execute_transaction_typed txn : txn_typed txn = true → maintains T (execute_transaction txn).
Proof.
  intros Ht. unfold execute_transaction, increment_nonce. destruct txn as [r|p].
  - pose proof (execute_fleek_typed r Ht). unfold_handlers. solve_maintains.
  - pose proof (execute_ethereum_typed p). unfold_handlers. solve_maintains.
Qed.

Lemma verify_transaction_typed txn s v txn' s' :
  txn_typed txn = true → T s → verify_transaction txn s = Some ((v, txn'), s') →
  T s' ∧ txn_typed txn' = true.
Proof.
  intros Ht HI Hrun. unfold verify_transaction, verify_chain_id, verify_ethereum_transaction in Hrun.
  run_M Hrun; done.
Qed.

Lemma run_transactions_typed d n i txns :
  forallb txn_typed txns = true → maintains T (run_transactions d n i txns).
Proof.
  revert i. induction txns as [|txn txns IH]; intros i Ht; simpl; [solve_maintains|].
  apply andb_true_iff in Ht as [Ht Hts]. specialize (IH (i + 1) Hts).
  assert (maintains T (run_transaction d n i txn)) by
    (intros s a s' HI Hrun; unfold run_transaction in Hrun; unfold_M;
     destruct (verify_transaction txn s) as [[[v txn'] t]|] eqn:Hv; [|done];
     destruct (verify_transaction_typed txn s v txn' t Ht HI Hv) as [HT Ht'];
     destruct v as [u|e]; [|by simplify_eq];
     destruct (execute_transaction txn' t) as [[r t']|] eqn:He; [|done]; simplify_eq;
     by eapply execute_transaction_typed).
  solve_maintains.
Qed.

Lemma finish_block_typed block c m : maintains T (finish_block block c m).
Proof.
  unfold finish_block, set_epoch_era, set_last_block, get_block_number. solve_maintains.
Qed.

Lemma last_epoch_hash_typed h : maintains T (set_last_epoch_hash h).
Proof. unfold set_last_epoch_hash. solve_maintains. Qed.

(** ** Genesis *)

Lemma param_insert_typed r : param_type r.1 r.2 = true → maintains T (param_insert r).
Proof.
  intros Hv. apply maintains_modify. intros s (Hm & Hp & Hk & Hq). unfold typed. state_simpl.
  split_and!; [done| |done|].
  - intros j w. rewrite lookup_insert_Some. intros [[<- <-]|[_ Hj]]; [done|by apply Hp].
  - intros j Hj. rewrite lookup_insert_is_Some'. right. by apply Hq.
Qed.

Lemma add_genesis_nodes_typed m nodes acc : maintains T (add_genesis_nodes m acc nodes).
Proof.
  revert acc. induction nodes as [|n nodes IH]; intros acc; simpl; [solve_maintains|].
  apply maintains_bind; [|intros acc'; apply IH]. unfold add_genesis_node, node_info_set.
  solve_maintains.
Qed.
#[local] Hint Resolve add_genesis_nodes_typed : typing.

(** The rows that genesis adds after the parameters. *)
Lemma genesis_rows_typed g nodes :
  maintains T (committee_info_set 0 (genesis_committee g nodes)) ∧
  maintains T (for_each add_genesis_service (g_service g)) ∧
  maintains T (for_each add_genesis_account (g_account g)) ∧
  maintains T (for_each add_genesis_client (table_rows (g_client g))) ∧
  maintains T (for_each add_genesis_price (g_commodity_prices g)) ∧
  maintains T (for_each add_genesis_total (table_rows (g_total_served g))) ∧
  maintains T (for_each add_genesis_latency (default [] (g_latencies g))).
Proof.
  unfold committee_info_set, add_genesis_service, add_genesis_account, account_info_set,
    add_genesis_client, add_genesis_price, add_genesis_total, add_genesis_latency.
  split_and!; solve_maintains.
Qed.
End typing.

Lemma get_bind {S A} (k : S → M S A) s : (get ≫= k) s = k s s.
Proof. reflexivity. Qed.

(** A completed run from [I] ends in [J]. *)
Definition establishes {S A} (I J : S → Prop) (m : M S A) : Prop :=
  ∀ s a s', I s → m s = Some (a, s') → J s'.

Lemma establishes_bind {S A C} (I J K : S → Prop) (m : M S A) (k : A → M S C) :
  establishes I J m → (∀ a, establishes J K (k a)) → establishes I K (m ≫= k).
Proof.
  intros Hm Hk s b s' HI Hrun. unfold_M. destruct (m s) as [[a t]|] eqn:E; [|done].
  eapply Hk; [|exact Hrun]. by eapply Hm.
Qed.

Section genesis_typing.
Context {R : Ruint} {B : Bigint} {H : Host}.

Lemma metadata_set_sets ks ps k v :
  metadata_type k v = true → establishes (typed ks ps) (typed (k :: ks) ps) (metadata_set k v).
Proof.
  intros Hv s [] s' HI Hrun. pose proof (metadata_set_typed ks ps k v Hv s tt s' HI Hrun) as (Hm & Hp & Hk & Hq).
  unfold metadata_set in Hrun. unfold_M. simplify_eq. state_simpl. split_and!; [done|done| |done].
  intros j [->|Hj]%elem_of_cons; [|by apply Hk]. state_simpl. by rewrite lookup_insert_eq.
Qed.

Lemma param_insert_sets ks ps r :
  param_type r.1 r.2 = true → establishes (typed ks ps) (typed ks (r.1 :: ps)) (param_insert r).
Proof.
  intros Hv s [] s' HI Hrun. pose proof (param_insert_typed ks ps r Hv s tt s' HI Hrun) as (Hm & Hp & Hk & Hq).
  unfold param_insert in Hrun. unfold_M. simplify_eq. state_simpl. split_and!; [done|done|done|].
  intros j [->|Hj]%elem_of_cons; [|by apply Hq]. state_simpl. by rewrite lookup_insert_eq.
Qed.

Lemma param_inserts_set ks ps l :
  forallb (λ r, param_type r.1 r.2) l = true →
  establishes (typed ks ps) (typed ks (reverse l.*1 ++ ps)) (for_each param_insert l).
Proof.
  revert ps. induction l as [|r l IH]; intros ps Hl.
  { intros s [] s' HI Hrun. simpl in Hrun. unfold_M. by simplify_eq. }
  apply andb_true_iff in Hl as [Hr Hl]. cbn [for_each].
  eapply establishes_bind; [by apply param_insert_sets|]. intros _.
  rewrite fmap_cons, reverse_cons, <-app_assoc. by apply IH.
Qed.

Lemma typed_mono ks ks' ps ps' s :
  typed ks ps s → (∀ k, k ∈ ks' → k ∈ ks) → (∀ k, k ∈ ps' → k ∈ ps) → typed ks' ps' s.
Proof. intros (Hm & Hp & Hk & Hq) H1 H2. split_and!; auto. Qed.

Lemma empty_typed : typed [] [] empty_state.
Proof. split_and!; intros k; set_solver. Qed.

(** Follows the writes of genesis, by the head of the next one. *)
Ltac step_genesis :=
  eapply establishes_bind;
    [lazymatch goal with
     | |- establishes _ _ (metadata_set _ _) => apply metadata_set_sets; reflexivity
     | |- establishes _ _ (for_each param_insert _) => apply param_inserts_set; reflexivity
     | |- establishes _ _ (add_genesis_nodes _ _ _) => apply add_genesis_nodes_typed
     | |- establishes _ _ (for_each _ _) =>
       lazymatch goal with g : Genesis |- _ => eapply (genesis_rows_typed _ _ g (mkGenesisNodes [] [] [])) end
     | |- establishes _ _ (committee_info_set _ _) => eapply genesis_rows_typed
     | |- establishes _ _ (account_info_set _ _) => by apply (maintains_modify (typed _ _))
     end|intros ?].

Lemma genesis_metadata_sets g ps :
  establishes (typed [] ps) (typed (reverse (take 9 genesis_keys)) ps) (genesis_metadata g).
Proof.
  unfold genesis_metadata. cbn zeta. repeat step_genesis. by apply metadata_set_sets.
Qed.

Lemma genesis_typed g s :
  apply_genesis_block g empty_state = Some (true, s) → typed genesis_keys genesis_params s.
Proof.
  intros Hrun. set (ps := reverse (genesis_parameters g).*1 ++ []).
  apply (typed_mono (reverse genesis_keys) _ ps); [|set_solver|].
  2: { intros k [Hne _]%list_elem_of_filter. subst ps. rewrite app_nil_r, elem_of_reverse.
       destruct k; try done; apply list_elem_of_In; simpl; tauto. }
  unfold apply_genesis_block in Hrun. rewrite get_bind in Hrun.
  destruct (is_some (metadata empty_state !! Metadata.Epoch)) eqn:E; [by vm_compute in E|clear E].
  match type of Hrun with ?m empty_state = _ =>
    enough (establishes (typed [] []) (typed (reverse genesis_keys) ps) m) as Hest
      by exact (Hest _ _ _ empty_typed Hrun) end.
  eapply establishes_bind; [apply genesis_metadata_sets|intros ?].
  step_genesis. step_genesis. step_genesis. step_genesis.
  step_genesis. step_genesis. step_genesis. step_genesis. step_genesis. step_genesis.
  step_genesis. step_genesis. apply maintains_ret.
Qed.

(** ** Chains *)

Section chain_typing.
Context (tree_root : StateExecutor → Hash32) (checkpoint : Env → option Hash32).

Lemma phase_not_genesis : Metadata.CommitteeSelectionBeaconPhase ∉ genesis_keys.
Proof. unfold genesis_keys. set_solver. Qed.

Definition block_typed (b : Block) : bool := forallb txn_typed (transactions b).

Lemma run_typed block e r e' :
  block_typed block = true → typed genesis_keys genesis_params (tables e) →
  run tree_root checkpoint block e = Some (r, e') → typed genesis_keys genesis_params (tables e').
Proof.
  intros Hb HI (n & s1 & s2 & _ & Hrs & Hf & He' & _)%run_split.
  assert (typed genesis_keys genesis_params s1) as H1
    by (eapply run_transactions_typed; [apply phase_not_genesis|exact Hb|exact HI|exact Hrs]).
  assert (typed genesis_keys genesis_params s2) as H2 by (eapply finish_block_typed; [exact H1|exact Hf]).
  destruct He' as [->|[h Hset]]; [done|]. eapply last_epoch_hash_typed; [exact H2|exact Hset].
Qed.

Lemma run_blocks_typed blocks e rs e' :
  forallb block_typed blocks = true → typed genesis_keys genesis_params (tables e) →
  run_blocks tree_root checkpoint blocks e = Some (rs, e') →
  typed genesis_keys genesis_params (tables e').
Proof.
  revert e rs. induction blocks as [|b blocks IH]; intros e rs Hb HI Hrun; simpl in Hrun; unfold_M.
  { by simplify_eq. }
  apply andb_true_iff in Hb as [Hb Hbs].
  destruct (run _ _ b e) as [[r e1]|] eqn:Hr; [|done].
  destruct (run_blocks _ _ blocks e1) as [[rs1 e2]|] eqn:Hrs; [|done]. simplify_eq.
  apply (IH e1 rs1); [done|by eapply run_typed|done].
Qed.

Lemma typed_param k s :
  typed genesis_keys genesis_params s → k ≠ ProtocolParamKey.SGXSharedPubKey →
  ∃ v, s.(parameters) !! k = Some v ∧ param_type k v = true.
Proof.
  intros (_ & Hp & _ & Hq) Hk. destruct (Hq k) as [v Hv].
  - unfold genesis_params. rewrite list_elem_of_filter. split; [done|].
    apply list_elem_of_In. destruct k; simpl; tauto.
  - exists v. split; [done|by apply Hp].
Qed.

(** C27: From genesis on, along every chain of blocks whose parameter changes
    carry values of the type of their keys, every value of the metadata and of
    the protocol parameters has the type of its key and nothing that genesis sets
    is lost: so the accessors that the code marks as unreachable otherwise find
    the governance address, the minimum stake, the epochs per year, the number of
    nodes and the duration of an epoch. *)
Theorem chain_typed g s root blocks rs e' :
  apply_genesis_block g empty_state = Some (true, s) → forallb block_typed blocks = true →
  run_blocks tree_root checkpoint blocks (mkEnv s root) = Some (rs, e') →
  typed genesis_keys genesis_params (tables e') ∧
  is_Some (governance_address (tables e')) ∧ is_Some (get_min_stake (tables e')) ∧
  is_Some (get_epochs_per_year (tables e')) ∧ is_Some (get_epoch_time (tables e')) ∧
  is_Some (get_committee_size (tables e')) ∧ is_Some (get_block_number (tables e')).
Proof.
  intros Hg Hb Hrun. pose proof (run_blocks_typed blocks (mkEnv s root) rs e' Hb (genesis_typed g s Hg) Hrun) as HT.
  split; [done|]. pose proof HT as (Hm & _ & Hk & _).
  unfold governance_address, get_min_stake, get_epochs_per_year, get_epoch_time, get_committee_size,
    get_block_number. unfold_M. split_and!.
  - destruct (Hk Metadata.GovernanceAddress) as [v Hv]; [unfold genesis_keys; set_solver|].
    specialize (Hm _ _ Hv). rewrite Hv. by destruct v.
  - destruct (typed_param ProtocolParamKey.MinimumNodeStake _ HT) as (v & -> & Hv); [done|]. by destruct v.
  - destruct (typed_param ProtocolParamKey.EpochsPerYear _ HT) as (v & -> & Hv); [done|]. by destruct v.
  - destruct (typed_param ProtocolParamKey.EpochTime _ HT) as (v & -> & Hv); [done|]. by destruct v.
  - destruct (typed_param ProtocolParamKey.CommitteeSize _ HT) as (v & -> & Hv); [done|]. by destruct v.
  - destruct (Hk Metadata.BlockNumber) as [v Hv]; [unfold genesis_keys; set_solver|]. by rewrite Hv.
Qed.

(** A value of another type under the minimum stake aborts every node that
    reads it: the governance account can store it. *)
Lemma ill_typed_param_aborts s gov v :
  s.(metadata) !! Metadata.GovernanceAddress = Some (Value.AccountPublicKey gov) →
  param_type ProtocolParamKey.MinimumNodeStake v = false →
  ∃ s', change_protocol_param (TransactionSender.AccountOwner gov) ProtocolParamKey.MinimumNodeStake v s
        = Some (Success ExecutionData.None, s') ∧ get_min_stake s' = None.
Proof.
  intros Hgov Hv. unfold change_protocol_param, governance_address, get_min_stake. simpl. unfold_M.
  rewrite Hgov, (bool_decide_false (gov ≠ gov)) by (by intros []). eexists. split; [done|]. state_simpl.
  rewrite lookup_insert_eq. by destruct v.
Qed.
End chain_typing.
End genesis_typing.
