(* ===== verification/Query.v ===== *)
(** * Query: reading the application state

    The [QueryRunner] of [core/application/src/state/query.rs] and the
    extension trait [QueryRunnerExt] of [core/utils/src/application.rs], through
    which every other component reads the tables.  A query is a function of the
    tables; [None] outside of a result is a panic.  Where the source iterates
    over a table, the order is that of [keys].

    Proved here: pages of the node registry join up to the whole registry; the
    key queries are inverse to each other on a consistent registry; the job
    query returns exactly the jobs assigned to a node. *)

From S2P Require Import Prelude HpFixed HpSigned Types State Ledger Accounts Nodes.
From S2P Require Import Content Jobs Executor.
From stdpp Require Import base gmap list sorting.
From Stdlib Require Import ZArith Lia.
Open Scope Z_scope.

(** A row of the node table: [NodeInfoWithIndex]. *)
Abbreviation NodeInfoWithIndex := (NodeIndex * NodeInfo)%type (only parsing).

Record NodePagingParams := mkNodePagingParams {
  ignore_stake : bool;
  npp_start : NodeIndex;
  npp_limit : nat
}.

Record WithdrawPagingParams := mkWithdrawPagingParams {
  wpp_start : Z;
  wpp_limit : nat
}.

Section Query.
Context {R : Ruint} {B : HpSigned.Bigint} {H : Host}.
Implicit Types s : StateExecutor.

(** ** The query runner *)

Definition get_metadata s (key : Metadata) : option Value := s.(metadata) !! key.

Definition get_account_info {V} s (address : EthAddress) (selector : AccountInfo → V)
    : option V := selector <$> s.(account_info) !! address.

Definition client_key_to_account_key s (pub_key : ClientPublicKey) : option EthAddress :=
  fst <$> s.(client_keys) !! pub_key.

Definition get_client_nonce s (pub_key : ClientPublicKey) : Nonce :=
  default 0 (snd <$> s.(client_keys) !! pub_key).

Definition get_node_info {V} s (node : NodeIndex) (selector : NodeInfo → V) : option V :=
  selector <$> s.(node_info) !! node.

Definition get_node_table_iter {V} s (closure : list NodeIndex → V) : V :=
  closure (keys s.(node_info)).

Definition pubkey_to_index s (pub_key : NodePublicKey) : option NodeIndex :=
  s.(pub_key_to_index) !! pub_key.

Definition get_committee_info {V} s (epoch : Epoch) (selector : Committee → V) : option V :=
  selector <$> s.(committee_info) !! epoch.

Definition get_committee_selection_beacons s : gmap NodeIndex BeaconEntry :=
  s.(committee_selection_beacon).

Definition get_committee_selection_beacon s (node : NodeIndex) : option BeaconEntry :=
  s.(committee_selection_beacon) !! node.

Definition get_committee_selection_beacon_non_revealing_nodes s : list NodeIndex :=
  keys s.(committee_selection_beacon_non_revealing_node).

Definition get_service_info s (id : ServiceId) : option Service := s.(services) !! id.

Definition get_protocol_param s (param : ProtocolParamKey) : option ProtocolParamValue :=
  s.(parameters) !! param.

Definition get_current_epoch_served s (node : NodeIndex) : option NodeServed :=
  s.(current_epoch_served) !! node.

Definition get_reputation_measurements s (node : NodeIndex)
    : option (list ReportedReputationMeasurements) := s.(rep_measurements) !! node.

Definition get_latencies s (nodes : NodeIndex * NodeIndex) : option Duration :=
  s.(latencies) !! nodes.

Definition get_latencies_iter {V} s (closure : list (NodeIndex * NodeIndex) → V) : V :=
  closure (keys s.(latencies)).

Definition get_reputation_score s (node : NodeIndex) : option Z := s.(rep_scores) !! node.

Definition get_total_served s (epoch : Epoch) : option TotalServed := s.(total_served) !! epoch.

Definition has_executed_digest s (digest : TxHash) : bool :=
  is_some (s.(executed_digests) !! digest).

Definition index_to_pubkey s (node_index : NodeIndex) : option NodePublicKey :=
  get_node_info s node_index public_key.

(** The transaction runs on a snapshot, which is discarded. *)
Definition simulate_txn s (txn : TransactionRequest) : option TransactionResponse :=
  fst <$> execute_transaction txn s.

Definition get_node_uptime s (node_index : NodeIndex) : option Z := s.(uptime) !! node_index.

Definition get_uri_providers s (uri : Blake3Hash) : option (gset NodeIndex) :=
  s.(uri_to_node) !! uri.

Definition get_content_registry s (node_index : NodeIndex) : option (gset Blake3Hash) :=
  s.(node_to_uri) !! node_index.

Definition has_genesis s : bool := is_some (get_metadata s Metadata.Epoch).

Definition get_withdraws s (paging : WithdrawPagingParams) : list (Z * WithdrawInfo) :=
  take (wpp_limit paging)
    (filter (λ r, wpp_start paging ≤ r.1) (table_rows s.(withdraws))).

Definition has_minted s (tx_hash : Hash32) : bool := is_some (s.(mints) !! tx_hash).

Definition get_job_assignments s : list (NodeIndex * list Hash32) :=
  table_rows s.(assigned_jobs).

Definition get_jobs_for_node s (node_index : NodeIndex) : option (list Job) :=
  (λ job_hashes : list Hash32, omap (λ h, s.(jobs) !! h) job_hashes)
    <$> (s.(assigned_jobs) !! node_index).

Definition get_all_jobs s : list Job := snd <$> table_rows s.(jobs).

(** ** The extension trait *)

Definition get_chain_id s : Z :=
  match get_metadata s Metadata.ChainId with Some (Value.ChainId id) => id | _ => 0 end.

Definition get_current_epoch s : Epoch :=
  match get_metadata s Metadata.Epoch with Some (Value.Epoch epoch) => epoch | _ => 0 end.

Definition query_epoch_era s : EpochEra :=
  match get_metadata s Metadata.EpochEra with Some (Value.EpochEra era) => era | _ => 0 end.

Definition get_committee_members_by_index s : list NodeIndex :=
  default [] (get_committee_info s (get_current_epoch s) members).

Definition get_committee_members s : list NodePublicKey :=
  omap (index_to_pubkey s) (get_committee_members_by_index s).

Definition get_epoch_info s : EpochInfo :=
  let epoch := get_current_epoch s in
  let committee := default Committee_default (get_committee_info s epoch id) in
  mkEpochInfo (omap (λ member, get_node_info s member id) (members committee)) epoch
    (query_epoch_era s) (epoch_end_timestamp committee) (epoch_transition_timestamp committee).

(** Later pairs of an iterator overwrite earlier ones in the collected map. *)
Definition get_current_latencies s : gmap (NodePublicKey * NodePublicKey) Duration :=
  get_latencies_iter s (λ nodes,
    foldl (λ m r, <[r.1:=r.2]> m) ∅
      (omap (λ '((index_lhs, index_rhs), latency),
         node_lhs ← get_node_info s index_lhs public_key;
         node_rhs ← get_node_info s index_rhs public_key;
         Some ((node_lhs, node_rhs), latency))
       (omap (λ nodes, (λ latency, (nodes, latency)) <$> get_latencies s nodes) nodes))).

Definition get_genesis_committee s : list (NodeIndex * NodeInfo) :=
  match get_metadata s Metadata.GenesisCommittee with
  | Some (Value.GenesisCommittee committee) =>
      omap (λ node_index, (λ info, (node_index, info)) <$> get_node_info s node_index id) committee
  | _ => []
  end.

(** [unreachable!] panics. *)
Definition query_block_number s : option (option Z) :=
  match get_metadata s Metadata.BlockNumber with
  | Some (Value.BlockNumber block) => Some (Some block)
  | None => Some None
  | _ => None
  end.

Definition get_last_block s : Hash32 :=
  match get_metadata s Metadata.LastBlockHash with Some (Value.Hash hash) => hash | _ => 0%N end.

Definition query_sub_dag_index s : Z :=
  match get_metadata s Metadata.SubDagIndex with Some (Value.SubDagIndex v) => v | _ => 0 end.

Definition query_sub_dag_round s : Z :=
  match get_metadata s Metadata.SubDagRound with Some (Value.SubDagRound v) => v | _ => 0 end.

Definition get_staking_amount s : Z :=
  match get_protocol_param s ProtocolParamKey.MinimumNodeStake with
  | Some (ProtocolParamValue.MinimumNodeStake min_stake) => min_stake
  | _ => 0
  end.

Definition query_node_registry s (paging : option NodePagingParams)
    : option (list NodeInfoWithIndex) :=
  let staking_amount := hp_from_uint 18 (get_staking_amount s) in
  get_node_table_iter s (λ nodes,
    nodes ← mapM (λ index, (λ info, (index, info)) <$> get_node_info s index id) nodes;
    Some match paging with
    | None => filter (λ node, staking_amount ≤ staked (node_stake node.2)) nodes
    | Some p =>
        let nodes := filter (λ node, ignore_stake p = true
                                     ∨ staking_amount ≤ staked (node_stake node.2)) nodes in
        let nodes := merge_sort row_le nodes in
        take (npp_limit p) (filter (λ info, npp_start p ≤ info.1) nodes)
    end).

Definition get_active_node_set s : gset NodeIndex :=
  list_to_set (default [] (get_committee_info s (get_current_epoch s) active_node_set)).

Definition get_active_nodes s : list NodeInfoWithIndex :=
  omap (λ index, (λ info, (index, info)) <$> get_node_info s index id)
    (keys (mapset.mapset_car (get_active_node_set s))).

Definition query_has_sufficient_stake s (id : NodePublicKey) : bool :=
  let minimum_stake_amount := hp_from_uint 18 (get_staking_amount s) in
  match pubkey_to_index s id with
  | Some node_idx =>
      match get_node_info s node_idx node_stake with
      | Some stake => bool_decide (minimum_stake_amount ≤ hp_add (staked stake) (locked stake))
      | None => false
      end
  | None => false
  end.

Definition query_is_participating_node s (id : NodePublicKey) : bool :=
  match pubkey_to_index s id with
  | Some node_idx =>
      match get_node_info s node_idx participation with
      | Some Participation.OptedIn | Some Participation.True => true
      | _ => false
      end
  | None => false
  end.

Definition get_protocol_fund_address s : option (option EthAddress) :=
  match get_metadata s Metadata.ProtocolFundAddress with
  | Some (Value.AccountPublicKey value) => Some (Some value)
  | None => Some None
  | _ => None
  end.

Definition get_total_supply s : option (option Z) :=
  match get_metadata s Metadata.TotalSupply with
  | Some (Value.HpUfixed value) => Some (Some value)
  | None => Some None
  | _ => None
  end.

Definition get_supply_year_start s : option (option Z) :=
  match get_metadata s Metadata.SupplyYearStart with
  | Some (Value.HpUfixed value) => Some (Some value)
  | None => Some None
  | _ => None
  end.

(** Durations are nanoseconds: the default is 15 seconds. *)
Definition get_reputation_ping_timeout s : option Duration :=
  match get_protocol_param s ProtocolParamKey.ReputationPingTimeout with
  | Some (ProtocolParamValue.ReputationPingTimeout timeout) => Some timeout
  | None => Some (15 * 10 ^ 9)
  | _ => None
  end.

Definition get_topology_target_k s : Z :=
  match get_protocol_param s ProtocolParamKey.TopologyTargetK with
  | Some (ProtocolParamValue.TopologyTargetK target_k) => target_k
  | _ => 8
  end.

Definition get_topology_min_nodes s : Z :=
  match get_protocol_param s ProtocolParamKey.TopologyMinNodes with
  | Some (ProtocolParamValue.TopologyMinNodes min_nodes) => min_nodes
  | _ => 16
  end.

Definition get_committee_selection_beacon_phase s
    : option (option CommitteeSelectionBeaconPhase) :=
  match get_metadata s Metadata.CommitteeSelectionBeaconPhase with
  | Some (Value.CommitteeSelectionBeaconPhase phase) => Some (Some phase)
  | None => Some None
  | _ => None
  end.

Definition get_committee_beacon_commit_phase_duration s : option Z :=
  match get_protocol_param s ProtocolParamKey.CommitteeSelectionBeaconCommitPhaseDuration with
  | Some (ProtocolParamValue.CommitteeSelectionBeaconCommitPhaseDuration duration) =>
      Some duration
  | _ => None
  end.

Definition get_committee_beacon_reveal_phase_duration s : option Z :=
  match get_protocol_param s ProtocolParamKey.CommitteeSelectionBeaconRevealPhaseDuration with
  | Some (ProtocolParamValue.CommitteeSelectionBeaconRevealPhaseDuration duration) =>
      Some duration
  | _ => None
  end.

Definition get_time_interval s : option (option Z) :=
  match get_metadata s Metadata.TimeInterval with
  | Some (Value.TimeInterval interval) => Some (Some interval)
  | None => Some None
  | _ => None
  end.
End Query.

(** ** Pages of the node registry *)

Section pages.
Context {R : Ruint} {H : Host} {HL : HostLaws H}.
Implicit Types s : StateExecutor.

Definition eligible (ignore : bool) s (n : NodeInfo) : Prop :=
  ignore = true ∨ hp_from_uint 18 (get_staking_amount s) ≤ staked (node_stake n).

Lemma node_rows s :
  mapM (λ index, (λ info, (index, info)) <$> get_node_info s index id) (keys s.(node_info))
  = Some (table_rows s.(node_info)).
Proof.
  assert (∀ l, (∀ k, k ∈ l → is_Some (s.(node_info) !! k)) →
    mapM (λ index, (λ info, (index, info)) <$> get_node_info s index id) l
    = Some (omap (λ k, (λ v, (k, v)) <$> (s.(node_info) !! k)) l)) as Hl.
  { induction l as [|k l IH]; intros Hin; [done|].
    destruct (Hin k ltac:(by left)) as [v Hv].
    assert (get_node_info s k id = Some v) as Hg by (unfold get_node_info; by rewrite Hv).
    simpl. rewrite Hg, Hv. simpl. rewrite IH; [done|]. intros k' Hk'. apply Hin. by right. }
  apply Hl. intros k. apply elem_of_keys.
Qed.

(** The eligible rows in the order of their indices. *)
Definition sorted_rows (ignore : bool) s : list (NodeIndex * NodeInfo) :=
  merge_sort row_le (filter (λ node, ignore = true
    ∨ hp_from_uint 18 (get_staking_amount s) ≤ staked (node_stake node.2))
    (table_rows s.(node_info))).

Lemma elem_of_sorted_rows ignore s i n :
  (i, n) ∈ sorted_rows ignore s ↔ eligible ignore s n ∧ s.(node_info) !! i = Some n.
Proof.
  unfold sorted_rows. rewrite merge_sort_Permutation, list_elem_of_filter. simpl.
  by rewrite elem_of_table_rows.
Qed.

(** Rows sorted by their keys, without a key twice, are strictly sorted. *)
Lemma strictly_sorted {V} (l : list (Z * V)) :
  Sorted row_le l → NoDup l.*1 → StronglySorted (λ a b, a.1 < b.1) l.
Proof.
  intros Hs Hn. apply Sorted_StronglySorted in Hs; [|intros ???; unfold row_le; lia].
  induction Hs as [|a l Hs IH Hall]; [constructor|].
  simpl in Hn. apply list.NoDup_cons in Hn as [Ha Hn]. constructor; [by apply IH|].
  rewrite Forall_forall in *. intros b Hb. pose proof (Hall b Hb) as Hle. unfold row_le in Hle.
  destruct (decide (a.1 = b.1)) as [Heq|]; [|lia].
  exfalso. apply Ha. rewrite Heq. by apply list_elem_of_fmap_2.
Qed.

Lemma sorted_rows_sorted ignore s : StronglySorted (λ a b, a.1 < b.1) (sorted_rows ignore s).
Proof.
  apply strictly_sorted; [apply Sorted_merge_sort; intros ??; unfold row_le; lia|].
  unfold sorted_rows. rewrite merge_sort_Permutation.
  eapply sublist_NoDup; [|apply fmap_sublist, sublist_filter].
  rewrite table_rows_fst. apply keys_NoDup.
Qed.

Lemma StronglySorted_filter {A} (Q : A → A → Prop) (P : A → Prop) `{∀ x, Decision (P x)} l :
  StronglySorted Q l → StronglySorted Q (filter P l).
Proof.
  induction 1 as [|a l Hs IH Hall]; [constructor|]. rewrite filter_cons.
  case_decide; [|done]. constructor; [done|]. rewrite Forall_forall in *.
  intros x Hx. apply list_elem_of_filter in Hx as [_ Hx]. by apply Hall.
Qed.

(** The first rows of a sorted list: what they leave out comes after them. *)
Lemma take_sorted {V} (l : list (Z * V)) k r :
  StronglySorted (λ a b, a.1 < b.1) l → r ∈ l →
  r ∈ take k l ∨ (length (take k l) = k ∧ ∀ x, x ∈ take k l → x.1 < r.1).
Proof.
  intros Hs Hr. rewrite <-(take_drop k l) in Hr, Hs. apply elem_of_app in Hr as [Hr|Hr]; [by left|].
  right. split.
  - rewrite length_take. apply list_elem_of_lookup in Hr as [j Hj].
    apply lookup_lt_Some in Hj. rewrite length_drop in Hj. lia.
  - intros x Hx. by eapply StronglySorted_app_1_elem_of in Hs.
Qed.

(** A page of the node registry is the next part of the registry in the
    order of the indices: the query always returns, its rows are in the table,
    eligible and from the start index on, at most as many as asked for; and an
    eligible row from the start index on that is not on the page comes after
    all rows of a full page, so that asking again behind the last row misses
    nothing. *)
Theorem registry_page s ignore start limit :
  ∃ page, query_node_registry s (Some (mkNodePagingParams ignore start limit)) = Some page ∧
    StronglySorted (λ a b, a.1 < b.1) page ∧ (length page ≤ limit)%nat ∧
    (∀ i n, (i, n) ∈ page → s.(node_info) !! i = Some n ∧ eligible ignore s n ∧ start ≤ i) ∧
    (∀ i n, s.(node_info) !! i = Some n → eligible ignore s n → start ≤ i →
       (i, n) ∈ page ∨ (length page = limit ∧ ∀ r, r ∈ page → r.1 < i)).
Proof.
  set (rows := filter (λ info, start ≤ info.1) (sorted_rows ignore s)).
  assert (StronglySorted (λ a b, a.1 < b.1) rows) as Hs
    by (apply StronglySorted_filter, sorted_rows_sorted).
  assert (∀ i n, (i, n) ∈ rows ↔ start ≤ i ∧ eligible ignore s n ∧ s.(node_info) !! i = Some n)
    as Hin by (intros i n; unfold rows; rewrite list_elem_of_filter, elem_of_sorted_rows; done).
  exists (take limit rows). split_and!.
  - unfold query_node_registry, get_node_table_iter. by rewrite node_rows.
  - rewrite <-(take_drop limit rows) in Hs. by apply StronglySorted_app_1_l in Hs.
  - rewrite length_take. lia.
  - intros i n Hi. apply elem_of_take in Hi as (j & Hj & _). apply list_elem_of_lookup_2, Hin in Hj.
    naive_solver.
  - intros i n Hi Hel Hst. by apply (take_sorted rows limit (i, n)); [|apply Hin].
Qed.
End pages.

(** ** Queries and the executor *)

Section agreement.
Context {R : Ruint} {H : Host}.
Implicit Types s : StateExecutor.

(** On a consistent registry the two key queries are inverse. *)
Lemma key_queries_inverse s k i :
  registry_ok s → pubkey_to_index s k = Some i ↔ index_to_pubkey s i = Some k.
Proof.
  intros Hs. unfold pubkey_to_index, index_to_pubkey, get_node_info.
  rewrite (registry_pk s Hs), fmap_Some. naive_solver.
Qed.

(** The stake query answers what the guard of the executor tests. *)
Lemma stake_query_agrees s k i v :
  s.(parameters) !! ProtocolParamKey.MinimumNodeStake
    = Some (ProtocolParamValue.MinimumNodeStake v) →
  pubkey_to_index s k = Some i →
  has_sufficient_stake i s = Some (query_has_sufficient_stake s k, s).
Proof.
  intros Hv Hk. unfold has_sufficient_stake, query_has_sufficient_stake, get_min_stake,
    get_staking_amount, get_protocol_param, get_node_info. rewrite Hk, Hv. unfold_M.
  destruct (s.(node_info) !! i); [|done]. by rewrite Hv.
Qed.

(** A node is told exactly the jobs it is assigned. *)
Lemma jobs_query_exact s x js :
  jobs_ok s → get_jobs_for_node s x = Some js →
  ∀ job, job ∈ js ↔ s.(jobs) !! job_hash job = Some job ∧ assignee job = Some x.
Proof.
  intros Hs Hq job. unfold get_jobs_for_node in Hq.
  apply fmap_Some in Hq as (hs & Hhs & ->). rewrite list_elem_of_omap.
  pose proof (jobs_ok_assigned s Hs x) as Ha. unfold jobs_of in Ha. rewrite Hhs in Ha. simpl in Ha.
  split.
  - intros (h & Hh & Hjob). pose proof (jobs_ok_hash s Hs h job Hjob) as <-.
    split; [done|]. apply Ha in Hh as (job' & ? & ?). congruence.
  - intros [Hjob Hx]. exists (job_hash job). split; [|done]. apply Ha. eauto.
Qed.
End agreement.

(** ** Pages of the withdrawals *)

(** A host that iterates over maps backwards. *)
Definition host_reversed : Host := {|
  to_digest := @to_digest host_plain;
  consensus_verify := @consensus_verify host_plain;
  node_verify := @node_verify host_plain;
  account_verify := @account_verify host_plain;
  recover_from_mut := @recover_from_mut host_plain;
  eth_verify_signature := @eth_verify_signature host_plain;
  fleek_contract_decode := @fleek_contract_decode host_plain;
  parse_ip_addr := @parse_ip_addr host_plain;
  sha3_words := @sha3_words host_plain;
  sha3_beacon := @sha3_beacon host_plain;
  shuffle _ l := l;
  keys K V _ _ m := reverse (map_to_list m).*1
|}.

Lemma host_reversed_laws : HostLaws host_reversed.
Proof.
  split; simpl.
  - done.
  - intros. rewrite reverse_Permutation. apply NoDup_fst_map_to_list.
  - intros K V ?? m k. rewrite elem_of_reverse. apply (@elem_of_keys _ host_plain_laws).
Qed.

(** The rows of a page of withdrawals come in the order of the map, not of the
    ids: of two withdrawals one host puts the first on the first page and
    another one the second, and a client that goes on behind the last id it saw
    misses the other. *)
Lemma withdraw_pages_unordered w :
  let s := set_withdraws {[0 := w; 1 := w]} (mkState ∅ ∅ ∅ ∅ ∅ ∅ ∅ ∅ ∅ ∅ ∅ ∅ ∅ ∅ ∅ ∅ ∅ ∅ ∅
             ∅ ∅ ∅ ∅ ∅ ∅ ∅ ∅ ∅) in
  ∃ H1 H2 : Host, HostLaws H1 ∧ HostLaws H2 ∧
    fst <$> @get_withdraws H1 s (mkWithdrawPagingParams 0 1) = [0] ∧
    fst <$> @get_withdraws H2 s (mkWithdrawPagingParams 0 1) = [1] ∧
    @get_withdraws H2 s (mkWithdrawPagingParams 2 1) = [].
Proof.
  intros s. exists host_reversed, host_plain.
  split; [exact host_reversed_laws|]. split; [exact host_plain_laws|].
  unfold s. by vm_compute.
Qed.
