(* ===== verification/TxnStore.v ===== *)
(** * TxnStore: parcels and attestations

    The data of the execution worker of [core/consensus/src/execution]:
    [AuthenticStampedParcel] and [CommitteeAttestation] ([parcel.rs]) and the
    [TransactionStore] ([transaction_store.rs]), a ring of three maps for the
    previous, the current and the next epoch.

    A broadcast event is an opaque handle; consuming it is an [EventAction],
    and dropping it leaves no trace.  The hash functions are the class
    [ParcelHash].  The theorems show that the ring implements three epochs that
    are handed on, that the current epoch only ever holds what committee
    members sent, and what a parcel digest binds and does not bind. *)

From S2P Require Import Prelude HpFixed Types State Codec.
From stdpp Require Import base gmap list.
From Stdlib Require Import ZArith Lia.
Open Scope Z_scope.

(** ** Parcels ([parcel.rs]) *)

Record AuthenticStampedParcel := mkAuthenticStampedParcel {
  asp_transactions : list Bytes;
  asp_last_executed : Hash32;
  asp_epoch : Epoch;
  asp_sub_dag_index : Z;
  asp_sub_dag_round : Z
}.

Record CommitteeAttestation := mkCommitteeAttestation {
  att_digest : Hash32;
  att_node_index : NodeIndex;
  att_epoch : Epoch
}.

(** [DefaultHashFunction] of Narwhal and BLAKE3, on bytes. *)
Class ParcelHash := {
  default_hash : Bytes → Hash32;
  blake3_hash : Bytes → Hash32
}.

Section parcel.
Context {PH : ParcelHash}.

(** [HashFunction::digest_iterator] feeds the hash function with one item after the
    other: it hashes their concatenation. *)
Definition digest_iterator (items : list Bytes) : Hash32 := default_hash (concat items).

Definition parcel_bytes (p : AuthenticStampedParcel) : Bytes :=
  to_le_bytes 4 (wrap 32 (Z.of_nat (length (asp_transactions p))))
  ++ array_bytes (digest_iterator (asp_transactions p))
  ++ array_bytes (asp_last_executed p)
  ++ to_le_bytes 8 (asp_sub_dag_index p)
  ++ to_le_bytes 8 (asp_sub_dag_round p).

Definition parcel_to_digest (p : AuthenticStampedParcel) : Hash32 :=
  blake3_hash (parcel_bytes p).
End parcel.

(** ** The store ([transaction_store.rs]) *)

Record Parcel := mkParcel {
  inner : AuthenticStampedParcel;
  originator : NodeIndex;
  message_digest : option Hash32
}.

Section store.
Context {PH : ParcelHash} {H : Host} {Event : Type}.

Inductive EventAction :=
| Propagate (e : Event)
| MarkInvalidSender (e : Event).

Record ParcelWrapper := mkParcelWrapper {
  parcel : option Parcel;
  attestations : option (gset NodeIndex);
  parcel_event : option Event;
  attestation_events : option (gmap NodeIndex Event)
}.

Record TransactionStore := mkTransactionStore {
  ring : list (gmap Hash32 ParcelWrapper);
  pointer : nat
}.

Definition TransactionStore_default : TransactionStore := mkTransactionStore [∅; ∅; ∅] 1.

Definition next_pointer (t : TransactionStore) : nat :=
  (pointer t + 1) `mod` length (ring t).

Definition prev_pointer (t : TransactionStore) : nat :=
  if bool_decide (pointer t = 0%nat) then (length (ring t) - 1)%nat else (pointer t - 1)%nat.

(** Indexing the ring out of its bounds panics. *)
Definition get_parcel (digest : Hash32) (t : TransactionStore) : option (option Parcel) :=
  cur ← ring t !! pointer t;
  prev ← ring t !! prev_pointer t;
  Some (match w ← cur !! digest; parcel w with
        | Some p => Some p
        | None => w ← prev !! digest; parcel w
        end).

Definition get_attestations (digest : Hash32) (t : TransactionStore)
    : option (option (gset NodeIndex)) :=
  cur ← ring t !! pointer t;
  prev ← ring t !! prev_pointer t;
  Some (match w ← cur !! digest; attestations w with
        | Some a => Some a
        | None => w ← prev !! digest; attestations w
        end).

(** The entry of a slot after storing a parcel.  The event of an entry that
    exists is not replaced, and a new event is dropped. *)
Definition parcel_entry (p : AuthenticStampedParcel) (o : NodeIndex) (m : option Hash32)
    (event : option Event) (w : option ParcelWrapper) : ParcelWrapper :=
  match w with
  | None => mkParcelWrapper (Some (mkParcel p o m)) None event None
  | Some w =>
      match parcel w with
      | Some stored =>
          let stored :=
            match message_digest stored with
            | None => mkParcel (inner stored) (originator stored) m
            | Some _ => stored
            end in
          mkParcelWrapper (Some stored) (attestations w) (parcel_event w) (attestation_events w)
      | None =>
          mkParcelWrapper (Some (mkParcel p o m)) (attestations w) (parcel_event w)
            (attestation_events w)
      end
  end.

Definition attestation_entry (node_index : NodeIndex) (event : option Event)
    (w : option ParcelWrapper) : ParcelWrapper :=
  match w with
  | Some w =>
      mkParcelWrapper (parcel w)
        (Some match attestations w with
              | Some a => {[node_index]} ∪ a
              | None => {[node_index]}
              end)
        (parcel_event w) (attestation_events w)
  | None =>
      mkParcelWrapper None (Some {[node_index]}) None
        ((λ e, {[node_index := e]}) <$> event)
  end.

Definition update_slot (ptr : nat) (digest : Hash32)
    (f : option ParcelWrapper → ParcelWrapper) : M TransactionStore unit :=
  t ← get;
  slot ← unwrap (ring t !! ptr);
  modify (λ t, mkTransactionStore
    (<[ptr:=<[digest:=f (slot !! digest)]> slot]> (ring t)) (pointer t)).

Definition store_parcel_internal (ptr : nat) (p : AuthenticStampedParcel) (o : NodeIndex)
    (m : option Hash32) (event : option Event) : M TransactionStore unit :=
  update_slot ptr (parcel_to_digest p) (parcel_entry p o m event).

Definition store_attestation_internal (ptr : nat) (digest : Hash32) (node_index : NodeIndex)
    (event : option Event) : M TransactionStore unit :=
  update_slot ptr digest (attestation_entry node_index event).

Definition store_parcel (p : AuthenticStampedParcel) (o : NodeIndex) (m : option Hash32)
    : M TransactionStore unit :=
  t ← get; store_parcel_internal (pointer t) p o m None.

Definition store_pending_parcel (p : AuthenticStampedParcel) (o : NodeIndex)
    (m : option Hash32) (event : Event) : M TransactionStore unit :=
  t ← get; store_parcel_internal (next_pointer t) p o m (Some event).

Definition store_attestation (digest : Hash32) (node_index : NodeIndex)
    : M TransactionStore unit :=
  t ← get; store_attestation_internal (pointer t) digest node_index None.

Definition store_pending_attestation (digest : Hash32) (node_index : NodeIndex) (event : Event)
    : M TransactionStore unit :=
  t ← get; store_attestation_internal (next_pointer t) digest node_index (Some event).

(** The members of a hash set in iteration order. *)
Definition set_order (X : gset NodeIndex) : list NodeIndex := keys (mapset.mapset_car X).

(** What [TransactionStore::change_epoch] makes of one entry of the next epoch. *)
Definition settle_parcel (committee : list NodeIndex) (w : ParcelWrapper)
    : option Parcel * list EventAction :=
  match parcel w with
  | None => (None, [])
  | Some p =>
      if contains committee (originator p)
      then (Some p, match parcel_event w with Some e => [Propagate e] | None => [] end)
      else (None, match parcel_event w with Some e => [MarkInvalidSender e] | None => [] end)
  end.

Definition take_events (mark : Event → EventAction) (nodes : list NodeIndex)
    (events : gmap NodeIndex Event) : list EventAction :=
  omap (λ i, mark <$> events !! i) nodes.

Definition settle_attestations (committee : list NodeIndex) (w : ParcelWrapper)
    : option (gset NodeIndex) * list EventAction :=
  match attestations w with
  | None => (None, [])
  | Some attns =>
      let valid_attn := filter (λ i, contains committee i = true) attns in
      let invalid_attn := filter (λ i, contains committee i = false) attns in
      (if bool_decide (valid_attn = ∅) then None else Some valid_attn,
       match attestation_events w with
       | None => []
       | Some events =>
           take_events MarkInvalidSender (set_order invalid_attn) events
           ++ take_events Propagate (set_order valid_attn) events
       end)
  end.

Definition settle (committee : list NodeIndex) (w : ParcelWrapper)
    : option ParcelWrapper * list EventAction :=
  let '(p, parcel_actions) := settle_parcel committee w in
  let '(a, attestation_actions) := settle_attestations committee w in
  (if is_some p || is_some a then Some (mkParcelWrapper p a None None) else None,
   parcel_actions ++ attestation_actions).

Definition store_change_epoch (committee : list NodeIndex) : M TransactionStore (list EventAction) :=
  t ← get;
  slot ← unwrap (ring t !! next_pointer t);
  let settled := settle committee <$> slot in
  let actions := concat ((λ '(_, r), snd r) <$> table_rows settled) in
  let ring1 := <[next_pointer t:=omap fst settled]> (ring t) in
  _ ← unwrap (ring1 !! prev_pointer t);
  modify (λ t, mkTransactionStore (<[prev_pointer t:=∅]> ring1) (next_pointer t));;
  mret actions.
End store.

Arguments EventAction : clear implicits.
Arguments ParcelWrapper : clear implicits.
Arguments TransactionStore : clear implicits.

(** ** Three epochs *)

(** The contract: entries of the previous, the current and the next epoch. *)
Record Epochs (Event : Type) := mkEpochs {
  previous : gmap Hash32 (ParcelWrapper Event);
  current : gmap Hash32 (ParcelWrapper Event);
  upcoming : gmap Hash32 (ParcelWrapper Event)
}.
Arguments mkEpochs {Event}.
Arguments previous {Event}.
Arguments current {Event}.
Arguments upcoming {Event}.

Section epochs.
Context {PH : ParcelHash} {H : Host} {Event : Type}.
Implicit Types t : TransactionStore Event.

Inductive StoreOp :=
| StoreParcel (p : AuthenticStampedParcel) (o : NodeIndex) (m : option Hash32)
| StorePendingParcel (p : AuthenticStampedParcel) (o : NodeIndex) (m : option Hash32) (e : Event)
| StoreAttestation (d : Hash32) (i : NodeIndex)
| StorePendingAttestation (d : Hash32) (i : NodeIndex) (e : Event)
| ChangeEpoch (committee : list NodeIndex).

Definition store_op (op : StoreOp) : M (TransactionStore Event) unit :=
  match op with
  | StoreParcel p o m => store_parcel p o m
  | StorePendingParcel p o m e => store_pending_parcel p o m e
  | StoreAttestation d i => store_attestation d i
  | StorePendingAttestation d i e => store_pending_attestation d i e
  | ChangeEpoch committee => _ ← store_change_epoch committee; mret tt
  end.

Definition update_entry (d : Hash32) (f : option (ParcelWrapper Event) → ParcelWrapper Event)
    (s : gmap Hash32 (ParcelWrapper Event)) : gmap Hash32 (ParcelWrapper Event) :=
  <[d:=f (s !! d)]> s.

(** What each operation means on the three epochs. *)
Definition epochs_op (op : StoreOp) (e : Epochs Event) : Epochs Event :=
  match op with
  | StoreParcel p o m => mkEpochs (previous e)
      (update_entry (parcel_to_digest p) (parcel_entry p o m None) (current e)) (upcoming e)
  | StorePendingParcel p o m ev => mkEpochs (previous e) (current e)
      (update_entry (parcel_to_digest p) (parcel_entry p o m (Some ev)) (upcoming e))
  | StoreAttestation d i => mkEpochs (previous e)
      (update_entry d (attestation_entry i None) (current e)) (upcoming e)
  | StorePendingAttestation d i ev => mkEpochs (previous e) (current e)
      (update_entry d (attestation_entry i (Some ev)) (upcoming e))
  | ChangeEpoch committee => mkEpochs (current e)
      (omap (λ w, fst (settle committee w)) (upcoming e)) ∅
  end.

(** The ring represents the three epochs. *)
Inductive represents : TransactionStore Event → Epochs Event → Prop :=
| represents_0 p c u : represents (mkTransactionStore [c; u; p] 0) (mkEpochs p c u)
| represents_1 p c u : represents (mkTransactionStore [p; c; u] 1) (mkEpochs p c u)
| represents_2 p c u : represents (mkTransactionStore [u; p; c] 2) (mkEpochs p c u).

Lemma default_represents : represents TransactionStore_default (mkEpochs ∅ ∅ ∅).
Proof. apply represents_1. Qed.

Lemma settle_fmap committee (s : gmap Hash32 (ParcelWrapper Event)) :
  omap fst (settle committee <$> s) = omap (λ w, fst (settle committee w)) s.
Proof.
  apply map_eq. intros d. rewrite !lookup_omap, lookup_fmap. by destruct (s !! d).
Qed.

Lemma store_op_represents op t e :
  represents t e →
  ∃ t', store_op op t = Some (tt, t') ∧ represents t' (epochs_op op e).
Proof.
  intros Hr. destruct op; destruct Hr; (eexists; split; [reflexivity|]); simpl;
    rewrite ?settle_fmap; constructor.
Qed.

(** C25: The ring of three maps implements three epochs that are handed on.
    In every state the store reaches from its initial one by any sequence of
    operations it represents the previous, the current and the next epoch the
    operations mean: each operation returns (no index of the ring is out of
    bounds), the messages of the current and of the next epoch are kept apart,
    and at an epoch change the current epoch becomes the previous one, the
    messages for the next epoch become the current ones as far as committee
    members sent them, and the next one is empty. *)
Theorem txn_store_refines ops :
  ∃ t, foldl (λ m op, '(_, t) ← m; store_op op t) (Some (tt, TransactionStore_default)) ops
       = Some (tt, t) ∧
    represents t (foldl (λ e op, epochs_op op e) (mkEpochs ∅ ∅ ∅) ops).
Proof.
  induction ops as [|op ops IH] using rev_ind.
  { exists TransactionStore_default. split; [done|apply represents_1]. }
  destruct IH as (t & Hrun & Hr). destruct (store_op_represents op t _ Hr) as (t' & Hop & Hr').
  exists t'. rewrite !foldl_snoc, Hrun. done.
Qed.

(** Lookups prefer the current epoch and fall back to the previous one. *)
Lemma get_parcel_represents d t e :
  represents t e →
  get_parcel d t = Some (match w ← current e !! d; parcel w with
                         | Some p => Some p
                         | None => w ← previous e !! d; parcel w
                         end).
Proof. by intros []. Qed.

Lemma get_attestations_represents d t e :
  represents t e →
  get_attestations d t = Some (match w ← current e !! d; attestations w with
                               | Some a => Some a
                               | None => w ← previous e !! d; attestations w
                               end).
Proof. by intros []. Qed.

(** ** Parcels are stored under their digests *)

Definition keyed_slot (s : gmap Hash32 (ParcelWrapper Event)) : Prop :=
  ∀ d w p, s !! d = Some w → parcel w = Some p → parcel_to_digest (inner p) = d.

Definition keyed (e : Epochs Event) : Prop :=
  keyed_slot (previous e) ∧ keyed_slot (current e) ∧ keyed_slot (upcoming e).

Lemma keyed_update s d f :
  keyed_slot s →
  (∀ p, parcel (f (s !! d)) = Some p →
     parcel_to_digest (inner p) = d ∨ ∃ w q, s !! d = Some w ∧ parcel w = Some q ∧
       inner p = inner q) →
  keyed_slot (update_entry d f s).
Proof.
  intros Hs Hf d' w p Hw Hp. unfold update_entry in Hw.
  destruct (decide (d = d')) as [<-|Hne].
  - rewrite lookup_insert_eq in Hw. injection Hw as <-.
    destruct (Hf p Hp) as [?|(w & q & Hw & Hq & Heq)]; [done|]. rewrite Heq. by eapply Hs.
  - rewrite lookup_insert_ne in Hw by done. by eapply Hs.
Qed.

Lemma keyed_parcel s p o m ev :
  keyed_slot s → keyed_slot (update_entry (parcel_to_digest p) (parcel_entry p o m ev) s).
Proof.
  intros Hs. apply keyed_update; [done|]. intros q Hq. unfold parcel_entry in Hq.
  destruct (s !! parcel_to_digest p) as [w|] eqn:Hw; [|left; by simplify_eq/=].
  destruct (parcel w) as [stored|] eqn:Hst; [|left; by simplify_eq/=].
  right. exists w, stored. split_and!; [done..|]. by destruct (message_digest stored); simplify_eq/=.
Qed.

Lemma keyed_attestation s d i ev :
  keyed_slot s → keyed_slot (update_entry d (attestation_entry i ev) s).
Proof.
  intros Hs. apply keyed_update; [done|]. intros q Hq. unfold attestation_entry in Hq.
  destruct (s !! d) as [w|] eqn:Hw; [|done]. right. simpl in Hq. eauto.
Qed.

Lemma settle_parcel_inner committee (w : ParcelWrapper Event) w' p :
  fst (settle committee w) = Some w' → parcel w' = Some p → parcel w = Some p.
Proof.
  unfold settle, settle_parcel. intros Hs Hp.
  destruct (settle_attestations committee w) as [a aa].
  destruct (parcel w) as [q|]; simpl in Hs;
    [destruct (contains committee (originator q))|]; simpl in Hs;
    destruct (is_some a); by simplify_eq/=.
Qed.

Lemma epochs_op_keyed op e : keyed e → keyed (epochs_op op e).
Proof.
  intros (Hp & Hc & Hu). destruct op; split_and!; simpl; try done;
    try (by apply keyed_parcel); try (by apply keyed_attestation).
  intros d w p Hw Hpw. rewrite lookup_omap in Hw.
  destruct (upcoming e !! d) as [w0|] eqn:Hw0; [|done]. simpl in Hw.
  eapply Hu; [done|]. by eapply settle_parcel_inner.
Qed.

Lemma get_parcel_keyed d t e p :
  represents t e → keyed e → get_parcel d t = Some (Some p) → parcel_to_digest (inner p) = d.
Proof.
  intros Hr (Hp & Hc & _) Hg. rewrite (get_parcel_represents d t e Hr) in Hg.
  injection Hg as Hg. destruct (current e !! d) as [w|] eqn:Hw; simpl in Hg.
  - destruct (parcel w) as [q|] eqn:Hq; [simplify_eq; by eapply Hc|].
    destruct (previous e !! d) as [w'|] eqn:Hw'; [|done]. by eapply Hp.
  - destruct (previous e !! d) as [w'|] eqn:Hw'; [|done]. by eapply Hp.
Qed.

(** ** Who sent what *)

Definition sent_by (committee : gset NodeIndex) (w : ParcelWrapper Event) : Prop :=
  (∀ p, parcel w = Some p → originator p ∈ committee) ∧
  (∀ a, attestations w = Some a → a ⊆ committee).

Lemma settle_parcel_sent committee (w : ParcelWrapper Event) p :
  fst (settle_parcel committee w) = Some p → originator p ∈ committee.
Proof.
  unfold settle_parcel. destruct (parcel w) as [q|]; [|done].
  destruct (contains committee (originator q)) eqn:Hc; intros Hs; simplify_eq/=. by tests.
Qed.

Lemma settle_attestations_sent committee (w : ParcelWrapper Event) a i :
  fst (settle_attestations committee w) = Some a → i ∈ a → i ∈ committee.
Proof.
  unfold settle_attestations. destruct (attestations w) as [b|]; [|done].
  simpl. case_bool_decide; intros Hs Hi; simplify_eq/=.
  apply elem_of_filter in Hi as [Hi _]. by tests.
Qed.

Lemma settle_sent_by committee w w' :
  fst (settle committee w) = Some w' → sent_by (list_to_set committee) w'.
Proof.
  unfold settle. intros Hs.
  destruct (settle_parcel committee w) as [p pa] eqn:Hp.
  destruct (settle_attestations committee w) as [a aa] eqn:Ha. simpl in Hs.
  destruct (is_some p || is_some a); [|done]. injection Hs as <-. split; simpl.
  - intros q ->. apply elem_of_list_to_set. apply (settle_parcel_sent committee w). by rewrite Hp.
  - intros b -> i Hi. apply elem_of_list_to_set.
    apply (settle_attestations_sent committee w b); [by rewrite Ha|done].
Qed.
End epochs.

(** ** What a digest binds *)

Section binding.
Context {PH : ParcelHash}.

(** Two parcels that differ at most in the epoch they name. *)
Definition same_content (p q : AuthenticStampedParcel) : Prop :=
  asp_transactions p = asp_transactions q ∧ asp_last_executed p = asp_last_executed q ∧
  asp_sub_dag_index p = asp_sub_dag_index q ∧ asp_sub_dag_round p = asp_sub_dag_round q.

(** What the digest covers: the number and the concatenation of the transactions, the
    predecessor and the place in the ordering. *)
Definition same_coverage (p q : AuthenticStampedParcel) : Prop :=
  wrap 32 (Z.of_nat (length (asp_transactions p))) = wrap 32 (Z.of_nat (length (asp_transactions q))) ∧
  concat (asp_transactions p) = concat (asp_transactions q) ∧
  asp_last_executed p = asp_last_executed q ∧
  asp_sub_dag_index p = asp_sub_dag_index q ∧ asp_sub_dag_round p = asp_sub_dag_round q.

(** Two strings of bytes with the same hash, of one of the hash functions. *)
Definition collision (p q : AuthenticStampedParcel) : Prop :=
  (parcel_bytes p ≠ parcel_bytes q ∧ blake3_hash (parcel_bytes p) = blake3_hash (parcel_bytes q))
  ∨ (concat (asp_transactions p) ≠ concat (asp_transactions q) ∧
     default_hash (concat (asp_transactions p)) = default_hash (concat (asp_transactions q))).

Record parcel_ok (p : AuthenticStampedParcel) : Prop := {
  po_batch : (digest_iterator (asp_transactions p) < 2 ^ 256)%N;
  po_last : (asp_last_executed p < 2 ^ 256)%N;
  po_index : in_width 64 (asp_sub_dag_index p);
  po_round : in_width 64 (asp_sub_dag_round p)
}.

Lemma le_bytes_inj k x y :
  0 ≤ x < 2 ^ (8 * Z.of_nat k) → 0 ≤ y < 2 ^ (8 * Z.of_nat k) →
  to_le_bytes k x = to_le_bytes k y → x = y.
Proof. intros Hx Hy Heq. by rewrite <-(le_bytes_roundtrip k x), Heq, le_bytes_roundtrip. Qed.

Lemma array_bytes_inj x y :
  (x < 2 ^ 256)%N → (y < 2 ^ 256)%N → array_bytes x = array_bytes y → x = y.
Proof. intros Hx Hy Heq. by rewrite <-(array_roundtrip x), Heq, array_roundtrip. Qed.

Lemma parcel_bytes_inj p q :
  parcel_ok p → parcel_ok q → parcel_bytes p = parcel_bytes q →
  wrap 32 (Z.of_nat (length (asp_transactions p))) = wrap 32 (Z.of_nat (length (asp_transactions q))) ∧
  digest_iterator (asp_transactions p) = digest_iterator (asp_transactions q) ∧
  asp_last_executed p = asp_last_executed q ∧
  asp_sub_dag_index p = asp_sub_dag_index q ∧ asp_sub_dag_round p = asp_sub_dag_round q.
Proof.
  intros [] [] Heq. unfold parcel_bytes in Heq.
  apply app_inj_1 in Heq as [H0 Heq]; [|by rewrite !to_le_bytes_length].
  apply app_inj_1 in Heq as [H1 Heq]; [|by rewrite !array_bytes_length].
  apply app_inj_1 in Heq as [H2 Heq]; [|by rewrite !array_bytes_length].
  apply app_inj_1 in Heq as [H3 H4]; [|by rewrite !to_le_bytes_length].
  split_and!; [apply (le_bytes_inj 4); [by apply wrap_in_width..|done]
    |by apply array_bytes_inj|by apply array_bytes_inj|by apply (le_bytes_inj 8)..].
Qed.

(** Lists of byte strings of the same lengths are told apart by their concatenation. *)
Lemma concat_inj_lengths (l k : list Bytes) : length <$> l = length <$> k → concat l = concat k → l = k.
Proof.
  revert k. induction l as [|x l IH]; intros [|y k] Hlen Heq; simplify_eq/=; [done|].
  apply app_inj_1 in Heq as [-> Heq]; [|done]. f_equal. by apply IH.
Qed.

(** C39: What a parcel digest binds: two parcels with the same digest have the same
    number of transactions modulo 2^32, the same concatenation of their bytes, the same
    predecessor and the same place in the ordering, unless one of the two hash functions
    has a collision at two different strings of bytes; and they have the same
    transactions if these have the same lengths, which the digest does not cover (and
    neither the epoch). *)
Theorem parcel_digest_binds p q :
  parcel_ok p → parcel_ok q → parcel_to_digest p = parcel_to_digest q →
  (same_coverage p q ∧ (length <$> asp_transactions p = length <$> asp_transactions q → same_content p q)) ∨
  collision p q.
Proof.
  intros Hp Hq Heq. unfold parcel_to_digest in Heq.
  destruct (decide (parcel_bytes p = parcel_bytes q)) as [Hb|Hb]; [|by right; left].
  destruct (parcel_bytes_inj p q Hp Hq Hb) as (Hn & Hd & Hl & Hi & Hr).
  destruct (decide (concat (asp_transactions p) = concat (asp_transactions q))) as [Ht|Ht]; [left|by right; right].
  split; [done|]. intros Hlen. split_and!; [by apply concat_inj_lengths|done..].
Qed.

(** The boundaries between the transactions are not bound: two parcels of two
    transactions with the same digest, whatever the hash functions. *)
Lemma parcel_digest_ignores_boundaries (a b c : Bytes) last epoch index round :
  parcel_to_digest (mkAuthenticStampedParcel [a ++ b; c] last epoch index round)
  = parcel_to_digest (mkAuthenticStampedParcel [a; b ++ c] last epoch index round).
Proof.
  unfold parcel_to_digest, parcel_bytes, digest_iterator. simpl. by rewrite !app_nil_r, <-app_assoc.
Qed.

(** The epoch is not bound: the digest that is attested is the same for every
    epoch the parcel claims to be of. *)
Lemma parcel_digest_ignores_epoch p e :
  parcel_to_digest (mkAuthenticStampedParcel (asp_transactions p) (asp_last_executed p) e
    (asp_sub_dag_index p) (asp_sub_dag_round p)) = parcel_to_digest p.
Proof. done. Qed.
End binding.

(** ** Events of pending messages *)

(** Two nodes attest the same parcel of the next epoch.  Both attestations are
    kept, but only the event of the first is acted on at the epoch change: the
    second one is dropped when it is stored. *)
Lemma second_pending_event_lost :
  let m : M (TransactionStore nat) (list (EventAction nat)) :=
    store_pending_attestation 7%N 1 100%nat;;
    store_pending_attestation 7%N 2 200%nat;;
    @store_change_epoch host_plain nat [1; 2] in
  ∃ t, m TransactionStore_default = Some ([Propagate 100%nat], t) ∧
    get_attestations 7%N t = Some (Some {[1; 2]}).
Proof. eexists. split; [by vm_compute|]. by vm_compute. Qed.
