(* ===== verification/Worker.v ===== *)
(** * Worker: executing what consensus ordered

    The execution worker of [core/consensus/src/execution/worker.rs].  A
    validator executes what Narwhal orders and broadcasts it as a parcel with an
    attestation ([handle_consensus_output]); every other node stores the parcels
    and attestations it receives and executes a parcel once a quorum attested it
    and its predecessors connect it to the last executed block ([execute_digest]
    and below).

    The worker is a state machine over its [Context]; what it sends is appended
    to an outbox.  The application is the interface [Application], which
    [Env] implements.  The timing of missing-parcel requests ([get_timeout],
    [update_estimated_tbe]) is not modelled: a timer may fire at any time.  The
    sending of a message may fail ([handle_consensus_output] takes its result),
    and the cache of pending requests may evict ([cache_insert]).

    Proved here: the application only ever executes parcels that extend its
    last block, so that two nodes with the same last block have the same state;
    an edge node executes only what a quorum attested; the walk back along the
    predecessors ends, unless they form a circle, and succeeds exactly when the chain
    is complete. *)

From S2P Require Import Prelude HpFixed HpSigned Types State Ledger Accounts Nodes.
From S2P Require Import Executor Env Codec Query TxnStore.
From stdpp Require Import base gmap list.
From Stdlib Require Import ZArith Lia.
Open Scope Z_scope.

(** ** The application as the worker sees it *)

Class Application (App : Type) := {
  app_run : Block → App → option (BlockExecutionResponse * App);
  app_last_block : App → Hash32;
  app_epoch : App → Epoch;
  app_era : App → EpochEra;
  app_committee : App → list NodeIndex;
  app_index : App → NodePublicKey → option NodeIndex;
  app_executed : App → TxHash → bool;
  app_last_epoch_hash : App → option Hash32
}.

(** What the worker relies on: the executed block becomes the last block. *)
Class ApplicationLaws (App : Type) `{Application App} : Prop := {
  app_run_last_block b a r a' : app_run b a = Some (r, a') → app_last_block a' = digest b
}.

(** ** Messages *)

(** A message received over the broadcast: [BroadcastEventInterface]. *)
Record BroadcastEvent := mkBroadcastEvent {
  ev_id : nat;
  ev_originator : NodeIndex;
  ev_digest : Hash32
}.

Inductive PubSubMsg :=
| Transactions (p : AuthenticStampedParcel)
| Attestation (a : CommitteeAttestation)
| RequestTransactions (d : Hash32).

Record FilteredConsensusOutput := mkFilteredConsensusOutput {
  fco_transactions : list Bytes;
  fco_sub_dag_index : Z;
  fco_sub_dag_round : Z
}.

(** What the worker reads of a sub-dag Narwhal has ordered: the epochs of its
    certificates and, for each certificate, its batches of transactions. *)
Record ConsensusOutput := mkConsensusOutput {
  co_sub_dag_index : Z;
  co_leader_round : Z;
  co_certificates : list Epoch;
  co_batches : list (list (list Bytes))
}.

(** [Execution::handle_consensus_output]: the transactions of the certificates
    of the current epoch; nothing is sent to the worker where there are none. *)
Definition batch_payload (current_epoch : Epoch) (o : ConsensusOutput) : list Bytes :=
  concat (omap (λ '(cert, batch),
      if bool_decide (cert ≠ current_epoch) then None else Some (concat batch))
    (zip (co_certificates o) (co_batches o))).

Definition filter_consensus_output (current_epoch : Epoch) (o : ConsensusOutput)
    : option FilteredConsensusOutput :=
  match batch_payload current_epoch o with
  | [] => None
  | payload =>
      Some (mkFilteredConsensusOutput payload (co_sub_dag_index o) (co_leader_round o))
  end.

Inductive NotExecuted :=
| MissingParcel (d : Hash32)
| RejectedParcel (d : Hash32)
| MissingAttestations (d : Hash32).

(** What the worker does to the outside. *)
Inductive Action :=
| OnEvent (a : EventAction BroadcastEvent)
| Send (m : PubSubMsg)
| Repropagate (d : Hash32) (filter : list NodeIndex)
| ParcelTimer (d : Hash32)
| Reconfigure
| EmitEvents (l : list Event.Event)
| NewBlock (b : Block) (r : BlockExecutionResponse)
| EpochChanged (epoch : Epoch) (epoch_hash previous_state_root new_state_root : Hash32).

Definition MAX_PENDING_TIMEOUTS : nat := 100.

(** The parcel must be from the current committee or from the next epoch. *)
Definition is_valid_message (in_committee : bool) (msg_epoch current_epoch : Epoch) : bool :=
  (in_committee && bool_decide (msg_epoch = current_epoch))
  || bool_decide (msg_epoch = current_epoch +[64] 1).

Section Worker.
Context {App : Type} `{AI : Application App}.
Context {PH : ParcelHash} {H : Host} {C : Codec}.
Context (cache_insert : Hash32 → gset Hash32 → gset Hash32).

Record Context := mkContext {
  c_app : App;
  c_store : TransactionStore BroadcastEvent;
  c_pending : gset Hash32;
  c_executed : gset Hash32;
  c_quorum : nat;
  c_committee : list NodeIndex;
  c_our_index : NodeIndex;
  c_on_committee : bool;
  c_key : NodePublicKey;
  c_timeouts : gset Hash32;
  c_requests : gset Hash32;
  c_outbox : list Action
}.

Definition set_app (a : App) (c : Context) : Context :=
  mkContext a (c_store c) (c_pending c) (c_executed c) (c_quorum c) (c_committee c)
    (c_our_index c) (c_on_committee c) (c_key c) (c_timeouts c) (c_requests c) (c_outbox c).
Definition set_store (t : TransactionStore BroadcastEvent) (c : Context) : Context :=
  mkContext (c_app c) t (c_pending c) (c_executed c) (c_quorum c) (c_committee c)
    (c_our_index c) (c_on_committee c) (c_key c) (c_timeouts c) (c_requests c) (c_outbox c).
Definition set_digests (pending executed : gset Hash32) (c : Context) : Context :=
  mkContext (c_app c) (c_store c) pending executed (c_quorum c) (c_committee c)
    (c_our_index c) (c_on_committee c) (c_key c) (c_timeouts c) (c_requests c) (c_outbox c).
Definition set_role (quorum : nat) (committee : list NodeIndex) (our_index : NodeIndex)
    (on_committee : bool) (c : Context) : Context :=
  mkContext (c_app c) (c_store c) (c_pending c) (c_executed c) quorum committee
    our_index on_committee (c_key c) (c_timeouts c) (c_requests c) (c_outbox c).
Definition set_timeouts (X : gset Hash32) (c : Context) : Context :=
  mkContext (c_app c) (c_store c) (c_pending c) (c_executed c) (c_quorum c) (c_committee c)
    (c_our_index c) (c_on_committee c) (c_key c) X (c_requests c) (c_outbox c).
Definition set_requests (X : gset Hash32) (c : Context) : Context :=
  mkContext (c_app c) (c_store c) (c_pending c) (c_executed c) (c_quorum c) (c_committee c)
    (c_our_index c) (c_on_committee c) (c_key c) (c_timeouts c) X (c_outbox c).

Definition emit (l : list Action) : M Context unit :=
  modify (λ c, mkContext (c_app c) (c_store c) (c_pending c) (c_executed c) (c_quorum c)
    (c_committee c) (c_our_index c) (c_on_committee c) (c_key c) (c_timeouts c) (c_requests c)
    (c_outbox c ++ l)).

(** An operation of the store, an operation of the application. *)
Definition on_store {A} (m : M (TransactionStore BroadcastEvent) A) : M Context A := λ c,
  match m (c_store c) with Some (a, t) => Some (a, set_store t c) | None => None end.

Definition on_app {A} (m : App → option (A * App)) : M Context A := λ c,
  match m (c_app c) with Some (r, a) => Some (r, set_app a c) | None => None end.

(** Take over the committee of the application. *)
Definition quorum_of (committee : list NodeIndex) : nat := (length committee * 2 / 3 + 1)%nat.

Definition index_of (a : App) (key : NodePublicKey) : NodeIndex :=
  default (2 ^ 32 - 1) (app_index a key).

Definition update_role : M Context unit :=
  modify (λ c,
    let committee := app_committee (c_app c) in
    let our_index := index_of (c_app c) (c_key c) in
    set_role (quorum_of committee) committee our_index (contains committee our_index) c).

Definition spawn_worker (key : NodePublicKey) (a : App) : Context :=
  let committee := app_committee a in
  let our_index := index_of a key in
  mkContext a TransactionStore_default ∅ ∅ (quorum_of committee) committee our_index
    (contains committee our_index) key ∅ ∅ [].

(** The transactions of a batch that decode and were not executed. *)
Fixpoint decode_batch (a : App) (payload : list Bytes) : option (list TransactionRequest) :=
  match payload with
  | [] => Some []
  | txn :: payload =>
      decoded ← transaction_from_bytes txn;
      txns ← decode_batch a payload;
      Some (match decoded with
            | Ok txn => if app_executed a (hash txn) then txns else txn :: txns
            | Err _ => txns
            end)
  end.

Definition submit_batch (payload : list Bytes) (digest : Hash32)
    (sub_dag_index sub_dag_round : Z) : M Context BlockExecutionResponse :=
  c ← get;
  transactions ← unwrap (decode_batch (c_app c) payload);
  let block := mkBlock digest sub_dag_index sub_dag_round transactions in
  response ← on_app (app_run block);
  emit [EmitEvents (omap event (txn_receipts response)); NewBlock block response];;
  (if block_change_epoch response then
     c ← get;
     epoch_hash ← unwrap (app_last_epoch_hash (c_app c));
     emit [EpochChanged (app_epoch (c_app c)) epoch_hash
             (previous_state_root response) (new_state_root response)]
   else mret tt);;
  mret response.

(** [msg_digest] is the result of broadcasting the parcel. *)
Definition handle_consensus_output (output : FilteredConsensusOutput)
    (msg_digest : option Hash32) : M Context unit :=
  c ← get;
  if negb (c_on_committee c) then mret tt
  else
    let parcel := mkAuthenticStampedParcel (fco_transactions output) (app_last_block (c_app c))
      (app_epoch (c_app c)) (fco_sub_dag_index output) (fco_sub_dag_round output) in
    let epoch_era_before_execution := app_era (c_app c) in
    response ← submit_batch (fco_transactions output) (parcel_to_digest parcel)
      (fco_sub_dag_index output) (fco_sub_dag_round output);
    emit [Send (Attestation (mkCommitteeAttestation (parcel_to_digest parcel) (c_our_index c)
                               (asp_epoch parcel)));
          Send (Transactions parcel)];;
    on_store (store_parcel parcel (c_our_index c) msg_digest);;
    c' ← get;
    let is_epoch_era_changed :=
      bool_decide (epoch_era_before_execution ≠ app_era (c_app c')) in
    if block_change_epoch response || is_epoch_era_changed then
      emit [Reconfigure];;
      update_role;;
      if block_change_epoch response then
        c'' ← get;
        actions ← on_store (store_change_epoch (c_committee c''));
        emit (OnEvent <$> actions)
      else mret tt
    else mret tt.

(** ** Executing as an edge node *)

(** A parcel of the chain with its digest. *)
Abbreviation Link := (Hash32 * AuthenticStampedParcel)%type (only parsing).

Inductive Walk :=
| Connected (chain : list Link)
| Stopped (e : NotExecuted) (chain : list Link)
| Looping.

(** The loop of [try_execute_chain]: from [current] back to [head]; [chain]
    holds the parcels seen, in the order of their execution. *)
Fixpoint connect (fuel : nat) (t : TransactionStore BroadcastEvent) (epoch : Epoch)
    (head current : Hash32) (chain : list Link) : option Walk :=
  match fuel with
  | O => Some Looping
  | S fuel =>
      found ← get_parcel current t;
      match found with
      | Some parcel =>
          let last_executed := asp_last_executed (inner parcel) in
          if bool_decide (asp_epoch (inner parcel) < epoch)
             || (bool_decide (last_executed = 0%N) && negb (bool_decide (head = 0%N)))
          then Some (Stopped (RejectedParcel current) [])
          else
            let chain := (current, inner parcel) :: chain in
            if bool_decide (last_executed = head) then Some (Connected chain)
            else connect fuel t epoch head last_executed chain
      | None =>
          if negb (bool_decide (current = 0%N))
          then Some (Stopped (MissingParcel current) chain)
          else Some (Stopped (RejectedParcel current) [])
      end
  end.

(** One step more than there are entries in the store. *)
Definition walk_fuel (t : TransactionStore BroadcastEvent) : nat :=
  S (foldr (λ s n, size s + n)%nat 0%nat (ring t)).

Fixpoint submit_chain (chain : list Link) : M Context bool :=
  match chain with
  | [] => mret false
  | (digest, p) :: chain =>
      response ← submit_batch (asp_transactions p) digest (asp_sub_dag_index p)
        (asp_sub_dag_round p);
      epoch_changed ← submit_chain chain;
      mret (block_change_epoch response || epoch_changed)
  end.

Definition chain_digests (chain : list Link) : gset Hash32 := list_to_set (fst <$> chain).

(** A walk that does not end has no result, like an abort. *)
Definition try_execute_chain (digest head : Hash32) : M Context (Result bool NotExecuted) :=
  c ← get;
  walk ← unwrap (connect (walk_fuel (c_store c)) (c_store c) (app_epoch (c_app c)) head digest []);
  match walk with
  | Connected chain =>
      epoch_changed ← submit_chain chain;
      modify (λ c, set_digests (c_pending c ∖ chain_digests chain)
                     (c_executed c ∪ chain_digests chain) c);;
      mret (Ok epoch_changed)
  | Stopped e chain =>
      modify (λ c, set_digests (c_pending c ∪ chain_digests chain) (c_executed c) c);;
      mret (Err e)
  | Looping => panic
  end.

Definition try_execute_internal (digest head : Hash32) : M Context (Result bool NotExecuted) :=
  c ← get;
  if bool_decide (digest ∈ c_executed c) then mret (Ok false)
  else
    attns ← unwrap (get_attestations digest (c_store c));
    match attns with
    | Some x =>
        if bool_decide (c_quorum c ≤ size x)%nat then try_execute_chain digest head
        else mret (Err (MissingAttestations digest))
    | None => mret (Err (MissingAttestations digest))
    end.

Fixpoint try_pending (digests : list Hash32) (epoch_changed : bool) : M Context bool :=
  match digests with
  | [] => mret epoch_changed
  | digest :: digests =>
      c ← get;
      if bool_decide (digest ∈ c_pending c) then
        r ← try_execute_internal digest (app_last_block (c_app c));
        try_pending digests
          (match r with Ok epoch_changed_ => epoch_changed || epoch_changed_
                      | Err _ => epoch_changed end)
      else try_pending digests epoch_changed
  end.

Definition try_execute (digest : Hash32) : M Context (Result bool NotExecuted) :=
  c ← get;
  r ← try_execute_internal digest (app_last_block (c_app c));
  match r with
  | Ok _ | Err (MissingAttestations _) =>
      c ← get;
      epoch_changed ← try_pending (keys (mapset.mapset_car (c_pending c)))
        (match r with Ok epoch_changed => epoch_changed | Err _ => false end);
      mret (Ok epoch_changed)
  | Err e => mret (Err e)
  end.

Definition set_parcel_timer (digest : Hash32) : M Context unit :=
  c ← get;
  if negb (bool_decide (digest ∈ c_timeouts c))
     && bool_decide (size (c_timeouts c) < MAX_PENDING_TIMEOUTS)%nat
  then emit [ParcelTimer digest];; modify (λ c, set_timeouts ({[digest]} ∪ c_timeouts c) c)
  else mret tt.

Definition handle_not_executed (not_executed : NotExecuted) : M Context unit :=
  match not_executed with
  | MissingParcel digest => set_parcel_timer digest
  | _ => mret tt
  end.

Definition execute_digest (digest : Hash32) : M Context unit :=
  c ← get;
  let epoch_era_before_execution := app_era (c_app c) in
  r ← try_execute digest;
  match r with
  | Ok epoch_changed =>
      c ← get;
      let epoch_era_changed := bool_decide (epoch_era_before_execution ≠ app_era (c_app c)) in
      if epoch_changed || epoch_era_changed then
        update_role;;
        emit [Reconfigure];;
        if epoch_changed then
          c ← get;
          actions ← on_store (store_change_epoch (c_committee c));
          emit (OnEvent <$> actions)
        else mret tt
      else mret tt
  | Err not_executed => handle_not_executed not_executed
  end.

(** ** Messages from the broadcast *)

Definition handle_parcel (msg : BroadcastEvent) (parcel : AuthenticStampedParcel)
    : M Context unit :=
  c ← get;
  let epoch := app_epoch (c_app c) in
  let originator := ev_originator msg in
  let is_committee := contains (c_committee c) originator in
  if negb (is_valid_message is_committee (asp_epoch parcel) epoch)
  then emit [OnEvent (MarkInvalidSender msg)]
  else
    let parcel_digest := parcel_to_digest parcel in
    let from_next_epoch := bool_decide (asp_epoch parcel = epoch +[64] 1) in
    let last_executed := asp_last_executed parcel in
    let parcel_request := bool_decide (parcel_digest ∈ c_requests c) in
    modify (λ c, set_requests (c_requests c ∖ {[parcel_digest]}) c);;
    (if negb parcel_request && negb from_next_epoch then emit [OnEvent (Propagate msg)]
     else mret tt);;
    (if from_next_epoch
     then on_store (store_pending_parcel parcel originator (Some (ev_digest msg)) msg)
     else on_store (store_parcel parcel originator (Some (ev_digest msg))));;
    (if parcel_request && negb (bool_decide (last_executed = 0%N))
     then set_parcel_timer last_executed else mret tt);;
    c ← get;
    if negb (c_on_committee c) then execute_digest parcel_digest else mret tt.

Definition handle_attestation (msg : BroadcastEvent) (att : CommitteeAttestation)
    : M Context unit :=
  c ← get;
  let originator := ev_originator msg in
  let epoch := app_epoch (c_app c) in
  let is_committee := contains (c_committee c) originator in
  if negb (bool_decide (originator = att_node_index att))
     || negb (is_valid_message is_committee (att_epoch att) epoch)
  then emit [OnEvent (MarkInvalidSender msg)]
  else
    let from_next_epoch := bool_decide (att_epoch att = epoch +[64] 1) in
    (if negb from_next_epoch then emit [OnEvent (Propagate msg)] else mret tt);;
    if negb (c_on_committee c) then
      (if from_next_epoch
       then on_store (store_pending_attestation (att_digest att) (att_node_index att) msg)
       else on_store (store_attestation (att_digest att) (att_node_index att)));;
      execute_digest (att_digest att)
    else mret tt.

Definition handle_request (msg : BroadcastEvent) (digest : Hash32) : M Context unit :=
  c ← get;
  found ← unwrap (get_parcel digest (c_store c));
  match p ← found; message_digest p with
  | Some msg_digest => emit [Repropagate msg_digest [ev_originator msg]]
  | None => mret tt
  end.

Definition handle_pubsub_event (msg : BroadcastEvent) (m : PubSubMsg) : M Context unit :=
  match m with
  | Transactions parcel => handle_parcel msg parcel
  | Attestation att => handle_attestation msg att
  | RequestTransactions digest => handle_request msg digest
  end.

(** The timer of a missing parcel fires. *)
Definition handle_timeout (digest : Hash32) : M Context unit :=
  modify (λ c, set_timeouts (c_timeouts c ∖ {[digest]}) c);;
  c ← get;
  found ← unwrap (get_parcel digest (c_store c));
  match found with
  | None =>
      emit [Send (RequestTransactions digest)];;
      modify (λ c, set_requests (cache_insert digest (c_requests c)) c)
  | Some _ => mret tt
  end.

(** One turn of the event loop. *)
Inductive worker_step : Context → Context → Prop :=
| step_output output msg_digest c c' :
    handle_consensus_output output msg_digest c = Some (tt, c') → worker_step c c'
| step_event msg m c c' :
    handle_pubsub_event msg m c = Some (tt, c') → worker_step c c'
| step_timeout digest c c' :
    handle_timeout digest c = Some (tt, c') → worker_step c c'.
End Worker.

(** ** The output of Narwhal *)

(** The worker gets exactly the transactions of the current epoch, and never
    an empty parcel. *)
Lemma filter_consensus_output_spec epoch o :
  match filter_consensus_output epoch o with
  | Some f => fco_transactions f ≠ [] ∧ fco_sub_dag_index f = co_sub_dag_index o ∧
      fco_sub_dag_round f = co_leader_round o ∧
      ∀ txn, txn ∈ fco_transactions f ↔ ∃ i batches batch,
        co_certificates o !! i = Some epoch ∧ co_batches o !! i = Some batches ∧
        batch ∈ batches ∧ txn ∈ batch
  | None => ∀ i batches batch txn, co_certificates o !! i = Some epoch →
      co_batches o !! i = Some batches → batch ∈ batches → txn ∉ batch
  end.
Proof.
  assert (∀ txn, txn ∈ batch_payload epoch o ↔ ∃ i batches batch,
    co_certificates o !! i = Some epoch ∧ co_batches o !! i = Some batches ∧
    batch ∈ batches ∧ txn ∈ batch) as Hin.
  { intros txn. unfold batch_payload. rewrite list_elem_of_In, in_concat. split.
    - intros (l & Hl%list_elem_of_In & Htxn).
      apply list_elem_of_omap in Hl as ([cert bs] & Hz & Hc).
      simpl in Hc. case_bool_decide as Hcert; [done|]. subst cert.
      injection Hc as <-.
      apply list_elem_of_lookup in Hz as [i (Hi & Hb)%lookup_zip_Some].
      apply in_concat in Htxn as (batch & Hb1%list_elem_of_In & Hb2%list_elem_of_In).
      by exists i, bs, batch.
    - intros (i & bs & batch & Hi & Hbs & Hb & Htxn). exists (concat bs). split.
      + apply list_elem_of_In, list_elem_of_omap. exists (epoch, bs). split.
        * apply list_elem_of_lookup. exists i. by apply lookup_zip_Some.
        * rewrite bool_decide_false; [done|naive_solver].
      + apply in_concat. exists batch. split; by apply list_elem_of_In. }
  unfold filter_consensus_output. destruct (batch_payload epoch o) as [|t ts] eqn:Hp.
  - intros i bs batch txn Hi Hbs Hb Htxn. apply (list.not_elem_of_nil txn).
    apply Hin. by exists i, bs, batch.
  - split_and!; done.
Qed.

(** ** The application executes linked parcels *)

Section chain.
Context {App : Type} `{AI : Application App} {AL : ApplicationLaws App}.
Context {PH : ParcelHash} {H : Host} {C : Codec}.

(** A parcel on an application state. *)
Definition run_parcel (p : AuthenticStampedParcel) (a : App)
    : option (BlockExecutionResponse * App) :=
  txns ← decode_batch a (asp_transactions p);
  app_run (mkBlock (parcel_to_digest p) (asp_sub_dag_index p) (asp_sub_dag_round p) txns) a.

(** Parcels executed one after the other, each on its predecessor. *)
Inductive executes (a : App) : list AuthenticStampedParcel → App → Prop :=
| executes_nil : executes a [] a
| executes_snoc ps a1 p r a2 :
    executes a ps a1 → asp_last_executed p = app_last_block a1 →
    run_parcel p a1 = Some (r, a2) → executes a (ps ++ [p]) a2.

Lemma executes_app a ps a1 qs a2 :
  executes a ps a1 → executes a1 qs a2 → executes a (ps ++ qs) a2.
Proof.
  intros Hp Hq. induction Hq as [|qs a2 q r a3 _ IH Hl Hr]; [by rewrite app_nil_r|].
  rewrite app_assoc. by eapply executes_snoc.
Qed.

Lemma executes_one p a r a' :
  asp_last_executed p = app_last_block a → run_parcel p a = Some (r, a') → executes a [p] a'.
Proof. intros Hl Hr. apply (executes_snoc a [] a p r a'); [constructor|done..]. Qed.

Lemma run_parcel_last p a r a' :
  run_parcel p a = Some (r, a') → app_last_block a' = parcel_to_digest p.
Proof.
  unfold run_parcel. destruct (decode_batch _ _); [|done]. simpl. intros Hr.
  by apply app_run_last_block in Hr.
Qed.

(** A parcel acts by its content. *)
Lemma run_parcel_same p q a :
  same_content p q → parcel_to_digest p = parcel_to_digest q → run_parcel p a = run_parcel q a.
Proof. intros (Ht & _ & Hi & Hr) Hd. unfold run_parcel. by rewrite Ht, Hi, Hr, Hd. Qed.

(** Equal last blocks mean equal histories: the last parcels have equal
    digests, so equal content and equal predecessors. *)
Lemma executes_agree a ps a1 qs a2 :
  executes a ps a1 → executes a qs a2 → app_last_block a1 = app_last_block a2 →
  (∀ p q, p ∈ ps → q ∈ qs → parcel_to_digest p = parcel_to_digest q → same_content p q) →
  (∀ p, p ∈ ps ++ qs → parcel_to_digest p ≠ app_last_block a) →
  a1 = a2.
Proof.
  intros Hp. revert qs a2. induction Hp as [|ps a1 p r a1' Hp IH Hl Hr]; intros qs a2 Hq Hlast Hsame Hfresh.
  - inversion Hq as [|qs' b q r' a2' _ _ Hr']; subst; [done|].
    apply run_parcel_last in Hr'. exfalso. apply (Hfresh q); [set_solver|congruence].
  - inversion Hq as [|qs' b q r' a2' Hq' Hl' Hr']; subst.
    { apply run_parcel_last in Hr. exfalso. apply (Hfresh p); [set_solver|congruence]. }
    pose proof (run_parcel_last _ _ _ _ Hr) as Hd. pose proof (run_parcel_last _ _ _ _ Hr') as Hd'.
    assert (same_content p q) as Hpq by (apply Hsame; [set_solver..|congruence]).
    assert (a1 = b) as ->.
    { apply (IH qs'); [done| |intros; apply Hsame; set_solver|intros; apply Hfresh; set_solver].
      destruct Hpq as (_ & Hle & _). congruence. }
    rewrite (run_parcel_same p q) in Hr by (done || congruence). congruence.
Qed.
End chain.

(** ** Relations a handler keeps *)

Section keeps.
Context {App : Type}.
Implicit Types c : Context (App := App).

(** Every run of [m] from [c] ends in a context related to [c]. *)
Definition keeps_at {A} (Q : relation Context) (m : M Context A) c : Prop :=
  ∀ a c', m c = Some (a, c') → Q c c'.

Context (Q : relation (Context (App := App))) `{!PreOrder Q}.

Lemma keeps_ret {A} (a : A) c : keeps_at Q (mret a) c.
Proof. intros a' c' Hr. unfold mret, M_ret in Hr. by simplify_eq. Qed.

Lemma keeps_bind {A B} (m : M Context A) (f : A → M Context B) c :
  keeps_at Q m c → (∀ a c1, m c = Some (a, c1) → keeps_at Q (f a) c1) →
  keeps_at Q (m ≫= f) c.
Proof.
  intros Hm Hf b c' Hr. unfold mbind, M_bind in Hr. destruct (m c) as [[a c1]|] eqn:E; [|done].
  etrans; [by eapply Hm|by eapply Hf].
Qed.

Lemma keeps_get {B} (f : Context → M Context B) c :
  keeps_at Q (f c) c → keeps_at Q (c ← get; f c) c.
Proof. intros Hf b c' Hr. by apply (Hf b c'). Qed.

Lemma keeps_unwrap {A B} (o : option A) (f : A → M Context B) c :
  (∀ a, o = Some a → keeps_at Q (f a) c) → keeps_at Q (a ← unwrap o; f a) c.
Proof.
  intros Hf b c' Hr. unfold mbind, M_bind, unwrap in Hr. destruct o as [a|]; [|done].
  by apply (Hf a eq_refl b c').
Qed.

Lemma keeps_modify f c : Q c (f c) → keeps_at Q (modify f) c.
Proof. intros HQ [] c' Hr. unfold modify in Hr. by simplify_eq. Qed.

Lemma keeps_if {A} (b : bool) (m1 m2 : M Context A) c :
  (b = true → keeps_at Q m1 c) → (b = false → keeps_at Q m2 c) →
  keeps_at Q (if b then m1 else m2) c.
Proof. destruct b; eauto. Qed.
End keeps.

Section progress.
Context {App : Type} `{AI : Application App} {AL : ApplicationLaws App}.
Context {PH : ParcelHash} {H : Host} {C : Codec}.
Context (cache_insert : Hash32 → gset Hash32 → gset Hash32).
Implicit Types c : Context (App := App).

Definition store_inv c : Prop := ∃ e, represents (c_store c) e ∧ keyed e.

(** The store stays in order and the application executes linked parcels. *)
Definition progress : relation (Context (App := App)) := λ c c',
  store_inv c → store_inv c' ∧ ∃ ps, executes (c_app c) ps (c_app c').

#[local] Instance progress_preorder : PreOrder progress.
Proof.
  split.
  - intros c Hc. split; [done|]. exists []. constructor.
  - intros c1 c2 c3 H12 H23 Hc. destruct (H12 Hc) as [Hc2 [ps Hps]].
    destruct (H23 Hc2) as [Hc3 [qs Hqs]]. split; [done|].
    exists (ps ++ qs). by eapply executes_app.
Qed.

Lemma progress_frame c c' :
  c_app c' = c_app c → c_store c' = c_store c → progress c c'.
Proof.
  intros Ha Ht Hc. unfold store_inv in *. rewrite Ht, Ha. split; [done|].
  exists []. constructor.
Qed.

Lemma emit_progress l c : keeps_at progress (emit l) c.
Proof. apply keeps_modify. by apply progress_frame. Qed.

Lemma store_op_progress op c : keeps_at progress (on_store (store_op op)) c.
Proof.
  intros [] c' Hr (e & Hrep & Hk). unfold on_store in Hr.
  destruct (store_op_represents op (c_store c) e Hrep) as (t' & Hop & Hrep').
  rewrite Hop in Hr. injection Hr as <-. split.
  - exists (epochs_op op e). split; [done|by apply epochs_op_keyed].
  - exists []. constructor.
Qed.

Lemma change_epoch_progress committee c :
  keeps_at progress (on_store (store_change_epoch committee)) c.
Proof.
  intros acts c' Hr. apply (store_op_progress (ChangeEpoch committee) c tt).
  unfold on_store in *. simpl. unfold_M.
  by destruct (store_change_epoch committee (c_store c)) as [[? ?]|]; simplify_eq.
Qed.

Lemma set_parcel_timer_progress d c : keeps_at progress (set_parcel_timer d) c.
Proof.
  apply keeps_get, keeps_if; intros _; [|apply keeps_ret, _].
  apply (keeps_bind _); [apply emit_progress|]. intros [] c1 _. apply keeps_modify.
  by apply progress_frame.
Qed.

(** Submitting a batch runs it on the application and changes nothing else but
    the outbox. *)
Lemma submit_batch_run payload d i r c resp c' :
  submit_batch payload d i r c = Some (resp, c') →
  ∃ txns, decode_batch (c_app c) payload = Some txns ∧
    app_run (mkBlock d i r txns) (c_app c) = Some (resp, c_app c') ∧
    ∃ l, c' = mkContext (c_app c') (c_store c) (c_pending c) (c_executed c) (c_quorum c)
      (c_committee c) (c_our_index c) (c_on_committee c) (c_key c) (c_timeouts c) (c_requests c)
      (c_outbox c ++ l).
Proof.
  unfold submit_batch, on_app, emit. unfold_M.
  destruct (decode_batch (c_app c) payload) as [txns|]; [|done].
  destruct (app_run (mkBlock d i r txns) (c_app c)) as [[resp' a']|] eqn:Hrun; [|done].
  intros Hr. exists txns. split; [done|].
  destruct (block_change_epoch resp'); simpl in Hr;
    [destruct (app_last_epoch_hash a') as [h|]; [|done]|]; injection Hr as <- <-;
    (split; [done|]); simpl; [|by eexists].
  exists ([EmitEvents (omap event (txn_receipts resp'));
    NewBlock (mkBlock d i r txns) resp'] ++
    [EpochChanged (app_epoch a') h (previous_state_root resp') (new_state_root resp')]).
  by rewrite app_assoc.
Qed.

(** ** The walk back to the last block *)

(** Parcels under their digests, each on the one before it. *)
Inductive linked (head : Hash32) : list (Hash32 * AuthenticStampedParcel) → Hash32 → Prop :=
| linked_nil : linked head [] head
| linked_cons d p l last :
    asp_last_executed p = head → parcel_to_digest p = d → linked d l last →
    linked head ((d, p) :: l) last.

Lemma connect_linked fuel t e epoch head current chain last chain' :
  represents t e → keyed e → linked current chain last →
  connect fuel t epoch head current chain = Some (Connected chain') →
  linked head chain' last.
Proof.
  intros Hrep Hk. revert current chain.
  induction fuel as [|fuel IH]; intros current chain Hl Hc; [done|]. simpl in Hc.
  destruct (get_parcel current t) as [[p|]|] eqn:Hp; simpl in Hc; [| |done].
  - destruct (bool_decide _ || _); [done|].
    assert (linked (asp_last_executed (inner p)) ((current, inner p) :: chain) last) as Hl'
      by (constructor; [done|by eapply get_parcel_keyed|done]).
    case_bool_decide; [simplify_eq; congruence|]. by eapply IH.
  - by destruct (negb _).
Qed.

Lemma submit_chain_executes head chain last c b c' :
  linked head chain last → app_last_block (c_app c) = head →
  submit_chain chain c = Some (b, c') →
  executes (c_app c) (snd <$> chain) (c_app c') ∧ app_last_block (c_app c') = last ∧
  ∃ l, c' = mkContext (c_app c') (c_store c) (c_pending c) (c_executed c) (c_quorum c)
    (c_committee c) (c_our_index c) (c_on_committee c) (c_key c) (c_timeouts c) (c_requests c)
    (c_outbox c ++ l).
Proof.
  intros Hl. revert c b c'. induction Hl as [|head d p chain last Hp Hd _ IH]; intros c b c' Hh Hr.
  { unfold submit_chain in Hr. unfold_M. injection Hr as _ <-. split_and!; [constructor|done|].
    exists []. rewrite app_nil_r. by destruct c. }
  simpl in Hr. unfold_M.
  destruct (submit_batch _ _ _ _ c) as [[resp c1]|] eqn:Hs; [|done].
  apply submit_batch_run in Hs as (txns & Hdec & Hrun & l1 & Hc1).
  destruct (submit_chain chain c1) as [[b1 c2]|] eqn:Hs; [|done]. injection Hr as _ <-.
  destruct (IH c1 b1 c2) as (Hex & Hlast & l2 & Hc2); [|done|].
  { by apply app_run_last_block in Hrun. }
  split_and!; [|done|].
  - apply (executes_app _ [p] (c_app c1)); [|done]. apply (executes_one p _ resp); [congruence|].
    unfold run_parcel. rewrite Hdec. simpl. by rewrite Hd.
  - exists (l1 ++ l2). rewrite Hc2, Hc1. simpl. by rewrite app_assoc.
Qed.

(** ** Every handler makes progress *)

Lemma try_execute_chain_progress d c :
  keeps_at progress (try_execute_chain d (app_last_block (c_app c))) c.
Proof.
  apply keeps_get, keeps_unwrap. intros [chain|e chain|] Hw; [| |done].
  - intros r c' Hr (e & Hrep & Hk). unfold_M.
    destruct (submit_chain chain c) as [[b c1]|] eqn:Hs; [|done]. injection Hr as _ <-.
    assert (linked (app_last_block (c_app c)) chain d) as Hl
      by (eapply connect_linked; [exact Hrep|exact Hk|apply linked_nil|exact Hw]).
    destruct (submit_chain_executes _ _ _ _ _ _ Hl eq_refl Hs) as (Hex & _ & l & Hc1).
    split; [|by exists (snd <$> chain)]. exists e. rewrite Hc1. done.
  - apply (keeps_bind _); [apply keeps_modify; by apply progress_frame|].
    intros [] c1 _. apply keeps_ret, _.
Qed.

Lemma try_execute_internal_progress d c :
  keeps_at progress (try_execute_internal d (app_last_block (c_app c))) c.
Proof.
  apply keeps_get, keeps_if; intros _; [apply keeps_ret, _|].
  apply keeps_unwrap. intros [x|] _; [|apply keeps_ret, _].
  apply keeps_if; intros _; [apply try_execute_chain_progress|apply keeps_ret, _].
Qed.

Lemma try_pending_progress ds b c : keeps_at progress (try_pending ds b) c.
Proof.
  revert b c. induction ds as [|d ds IH]; intros b c; simpl; [apply keeps_ret, _|].
  apply keeps_get, keeps_if; intros _; [|apply IH].
  apply (keeps_bind _); [apply try_execute_internal_progress|]. intros r c1 _. apply IH.
Qed.

Lemma try_execute_progress d c : keeps_at progress (try_execute d) c.
Proof.
  apply keeps_get, (keeps_bind _); [apply try_execute_internal_progress|]. intros r c1 _.
  assert (∀ b, keeps_at progress (c ← get;
    epoch_changed ← try_pending (keys (mapset.mapset_car (c_pending c))) b;
    mret (Ok epoch_changed) : M Context (Result bool NotExecuted)) c1) as Hp.
  { intros b. apply keeps_get, (keeps_bind _); [apply try_pending_progress|].
    intros b' c2 _. apply keeps_ret, _. }
  destruct r as [b|[]]; first [apply Hp|apply keeps_ret, _].
Qed.

Lemma update_role_progress c : keeps_at progress update_role c.
Proof. apply keeps_modify. by apply progress_frame. Qed.

Lemma change_epoch_block_progress c :
  keeps_at progress (c ← get; actions ← on_store (store_change_epoch (c_committee c));
                     emit (OnEvent <$> actions)) c.
Proof.
  apply keeps_get, (keeps_bind _); [apply change_epoch_progress|].
  intros acts c1 _. apply emit_progress.
Qed.

Lemma execute_digest_progress d c : keeps_at progress (execute_digest d) c.
Proof.
  apply keeps_get, (keeps_bind _); [apply try_execute_progress|]. intros [b|e] c1 _.
  - apply keeps_get, keeps_if; intros _; [|apply keeps_ret, _].
    apply (keeps_bind _); [apply update_role_progress|]. intros [] c2 _.
    apply (keeps_bind _); [apply emit_progress|]. intros [] c3 _.
    apply keeps_if; intros _; [apply change_epoch_block_progress|apply keeps_ret, _].
  - destruct e; simpl; first [apply set_parcel_timer_progress|apply keeps_ret, _].
Qed.

Lemma handle_parcel_progress msg p c : keeps_at progress (handle_parcel msg p) c.
Proof.
  apply keeps_get, keeps_if; intros _; [apply emit_progress|].
  apply (keeps_bind _); [apply keeps_modify; by apply progress_frame|]. intros [] c1 _.
  apply (keeps_bind _); [apply keeps_if; intros _; [apply emit_progress|apply keeps_ret, _]|].
  intros [] c2 _. apply (keeps_bind _).
  { apply keeps_if; intros _.
    - apply (store_op_progress (StorePendingParcel p _ _ msg)).
    - apply (store_op_progress (StoreParcel p _ _)). }
  intros [] c3 _. apply (keeps_bind _);
    [apply keeps_if; intros _; [apply set_parcel_timer_progress|apply keeps_ret, _]|].
  intros [] c4 _. apply keeps_get, keeps_if; intros _;
    [apply execute_digest_progress|apply keeps_ret, _].
Qed.

Lemma handle_attestation_progress msg a c : keeps_at progress (handle_attestation msg a) c.
Proof.
  apply keeps_get, keeps_if; intros _; [apply emit_progress|].
  apply (keeps_bind _); [apply keeps_if; intros _; [apply emit_progress|apply keeps_ret, _]|].
  intros [] c1 _. apply keeps_if; intros _; [|apply keeps_ret, _].
  apply (keeps_bind _); [|intros [] c2 _; apply execute_digest_progress].
  apply keeps_if; intros _.
  - apply (store_op_progress (StorePendingAttestation _ _ msg)).
  - apply (store_op_progress (StoreAttestation _ _)).
Qed.

Lemma handle_request_progress msg d c : keeps_at progress (handle_request msg d) c.
Proof.
  apply keeps_get, keeps_unwrap. intros found _.
  destruct (p ← found; message_digest p); [apply emit_progress|apply keeps_ret, _].
Qed.

Lemma handle_timeout_progress d c : keeps_at progress (handle_timeout cache_insert d) c.
Proof.
  apply (keeps_bind _); [apply keeps_modify; by apply progress_frame|]. intros [] c1 _.
  apply keeps_get, keeps_unwrap. intros [p|] _; [apply keeps_ret, _|].
  apply (keeps_bind _); [apply emit_progress|]. intros [] c2 _.
  apply keeps_modify. by apply progress_frame.
Qed.

(** A validator executes its own parcel, on the last block by construction. *)
Lemma handle_consensus_output_progress o md c :
  keeps_at progress (handle_consensus_output o md) c.
Proof.
  apply keeps_get, keeps_if; intros _; [apply keeps_ret, _|].
  apply (keeps_bind _).
  { intros resp c1 Hs (e & Hrep & Hk).
    apply submit_batch_run in Hs as (txns & Hdec & Hrun & l & Hc1).
    split; [exists e; by rewrite Hc1|].
    exists [mkAuthenticStampedParcel (fco_transactions o) (app_last_block (c_app c))
      (app_epoch (c_app c)) (fco_sub_dag_index o) (fco_sub_dag_round o)].
    apply (executes_one _ _ resp); [done|]. unfold run_parcel. simpl. by rewrite Hdec. }
  intros resp c1 _. apply (keeps_bind _); [apply emit_progress|]. intros [] c2 _.
  apply (keeps_bind _); [apply (store_op_progress (StoreParcel _ _ _))|]. intros [] c3 _.
  apply keeps_get, keeps_if; intros _; [|apply keeps_ret, _].
  apply (keeps_bind _); [apply emit_progress|]. intros [] c4 _.
  apply (keeps_bind _); [apply update_role_progress|]. intros [] c5 _.
  apply keeps_if; intros _; [apply change_epoch_block_progress|apply keeps_ret, _].
Qed.

Lemma worker_step_progress c c' : worker_step cache_insert c c' → progress c c'.
Proof.
  destruct 1 as [o md c c' Hr|msg m c c' Hr|d c c' Hr].
  - by eapply handle_consensus_output_progress.
  - destruct m; [by eapply handle_parcel_progress|by eapply handle_attestation_progress
      |by eapply handle_request_progress].
  - by eapply handle_timeout_progress.
Qed.

Lemma worker_runs key a c :
  rtc (worker_step cache_insert) (spawn_worker key a) c →
  store_inv c ∧ ∃ ps, executes a ps (c_app c).
Proof.
  intros Hs. assert (progress (spawn_worker key a) c) as Hp.
  { induction Hs as [c|c1 c2 c3 H12 _ IH]; [done|]. etrans; [|exact IH].
    by apply worker_step_progress. }
  apply Hp. exists (mkEpochs ∅ ∅ ∅). split; [apply represents_1|done].
Qed.
End progress.

(** ** Replication *)

Section replication.
Context {App : Type} `{AI : Application App} {AL : ApplicationLaws App}.
Context {PH : ParcelHash} {H : Host} {C : Codec}.

#[local] Instance same_content_dec p q : Decision (same_content p q).
Proof. unfold same_content. apply _. Defined.

(** C7: The nodes are replicas.  Two workers, each on any validator or edge
    node, that started from the same application state and went through any
    messages, timeouts and consensus outputs whatsoever have each executed a
    sequence of parcels, every parcel on the block it names as its predecessor.
    When they have the same last block they have the same application state,
    unless these two sequences exhibit two parcels with different content and
    the same digest, or a parcel with the digest of the block both started
    from. *)
Theorem replicated_state cache1 cache2 key1 key2 (a : App) c1 c2 :
  rtc (worker_step cache1) (spawn_worker key1 a) c1 →
  rtc (worker_step cache2) (spawn_worker key2 a) c2 →
  app_last_block (c_app c1) = app_last_block (c_app c2) →
  ∃ ps qs, executes a ps (c_app c1) ∧ executes a qs (c_app c2) ∧
    (c_app c1 = c_app c2 ∨
     (∃ p q, p ∈ ps ∧ q ∈ qs ∧ parcel_to_digest p = parcel_to_digest q ∧ ¬ same_content p q) ∨
     (∃ p, p ∈ ps ++ qs ∧ parcel_to_digest p = app_last_block a)).
Proof.
  intros [_ [ps Hps]]%worker_runs [_ [qs Hqs]]%worker_runs Hlast.
  exists ps, qs. split_and!; [done..|].
  destruct (decide (Exists (λ p, Exists (λ q, parcel_to_digest p = parcel_to_digest q ∧
    ¬ same_content p q) qs) ps)) as [Hbad|Hsame].
  { right; left. apply Exists_exists in Hbad as (p & Hp & Hbad).
    apply Exists_exists in Hbad as (q & Hq & Hbad). by exists p, q. }
  destruct (decide (Exists (λ p, parcel_to_digest p = app_last_block a) (ps ++ qs)))
    as [Hbad|Hfresh].
  { right; right. by apply Exists_exists in Hbad. }
  left. apply (executes_agree a ps _ qs); [done..| |].
  - intros p q Hp Hq Hd. destruct (decide (same_content p q)) as [|Hne]; [done|].
    exfalso. apply Hsame. apply Exists_exists. exists p. split; [done|].
    apply Exists_exists. by exists q.
  - intros p Hp Hd. apply Hfresh. apply Exists_exists. by exists p.
Qed.
End replication.

(** ** Quorums *)

Section quorum.
Context {App : Type} `{AI : Application App} {AL : ApplicationLaws App}.
Context {PH : ParcelHash} {H : Host} {C : Codec}.
Implicit Types c : Context (App := App).

Lemma quorum_two_thirds committee :
  (2 * length committee < 3 * quorum_of committee)%nat.
Proof.
  unfold quorum_of. pose proof (Nat.div_mod (length committee * 2) 3).
  pose proof (Nat.mod_upper_bound (length committee * 2) 3). lia.
Qed.

(** The parcels of a connected chain are stored and of the current epoch. *)
Lemma connect_stored fuel t epoch head current chain chain' :
  connect fuel t epoch head current chain = Some (Connected chain') →
  ∀ d p, (d, p) ∈ chain' → (d, p) ∈ chain ∨
    epoch ≤ asp_epoch p ∧ ∃ q, get_parcel d t = Some (Some q) ∧ inner q = p.
Proof.
  revert current chain. induction fuel as [|fuel IH]; intros current chain Hc d p Hin; [done|].
  simpl in Hc. destruct (get_parcel current t) as [[q|]|] eqn:Hq; simpl in Hc; [| |done].
  - destruct (bool_decide _ || _) eqn:Hrej; [done|]. tests.
    assert ((d, p) ∈ (current, inner q) :: chain → (d, p) ∈ chain ∨
      epoch ≤ asp_epoch p ∧ ∃ q, get_parcel d t = Some (Some q) ∧ inner q = p) as Hcons.
    { intros [[= -> ->]|?]%list.elem_of_cons; [|by left]. right. split; [lia|eauto]. }
    case_bool_decide; [simplify_eq; by apply Hcons|].
    destruct (IH _ _ Hc d p Hin) as [?|?]; [by apply Hcons|by right].
  - by destruct (negb _).
Qed.

(** C8: An edge node executes only what a quorum attested.  When
    [try_execute_internal] reports an execution, either the digest was executed
    before and nothing happens, or at least as many distinct nodes as the
    quorum attested the digest, the executed parcels are stored parcels of the
    current epoch or later that link the last block to the digest, each on its
    predecessor, all of them are executed in this order, are marked as
    executed and no longer pending, and the digest is the last block. *)
Theorem edge_execution_quorum d c b c' :
  store_inv c → try_execute_internal d (app_last_block (c_app c)) c = Some (Ok b, c') →
  (d ∈ c_executed c ∧ c' = c ∧ b = false) ∨
  ∃ attns chain, get_attestations d (c_store c) = Some (Some attns) ∧
    (c_quorum c ≤ size attns)%nat ∧
    linked (app_last_block (c_app c)) chain d ∧
    (∀ d' p, (d', p) ∈ chain → app_epoch (c_app c) ≤ asp_epoch p ∧
       ∃ q, get_parcel d' (c_store c) = Some (Some q) ∧ inner q = p) ∧
    executes (c_app c) (snd <$> chain) (c_app c') ∧ app_last_block (c_app c') = d ∧
    c_executed c' = c_executed c ∪ chain_digests chain ∧
    c_pending c' = c_pending c ∖ chain_digests chain.
Proof.
  intros (e & Hrep & Hk) Hr. unfold try_execute_internal, try_execute_chain in Hr. unfold_M.
  case_bool_decide; [injection Hr as <- <-; by left|].
  destruct (get_attestations d (c_store c)) as [[attns|]|] eqn:Ha; [|done..].
  destruct (bool_decide (c_quorum c ≤ size attns)%nat) eqn:Hq; [|done]. tests.
  destruct (connect _ _ _ _ _ _) as [[chain| |]|] eqn:Hw; [|done..].
  destruct (submit_chain chain c) as [[b1 c1]|] eqn:Hs; [|done]. injection Hr as <- <-.
  assert (linked (app_last_block (c_app c)) chain d) as Hl
    by (eapply connect_linked; [exact Hrep|exact Hk|apply linked_nil|exact Hw]).
  destruct (submit_chain_executes _ _ _ _ _ _ Hl eq_refl Hs) as (Hex & Hlast & l & Hc1).
  right. exists attns, chain. split_and!; try done.
  - intros d' p Hin. destruct (connect_stored _ _ _ _ _ _ _ Hw d' p Hin) as [Hn|?]; [|done].
    by apply list.elem_of_nil in Hn.
  - by rewrite Hc1.
  - by rewrite Hc1.
Qed.
End quorum.

(** ** Who can be counted *)

Section senders.
Context {App : Type} `{AI : Application App}.
Context {PH : ParcelHash} {H : Host} {C : Codec}.
Context (cache_insert : Hash32 → gset Hash32 → gset Hash32).
Implicit Types c : Context (App := App).

(** [i] sent a parcel or an attestation of the current epoch. *)
Definition sender_of (e : Epochs BroadcastEvent) (i : NodeIndex) : Prop :=
  ∃ d w, current e !! d = Some w ∧
    ((∃ p, parcel w = Some p ∧ originator p = i) ∨ (∃ a, attestations w = Some a ∧ i ∈ a)).

(** The role of a node follows from its committee. *)
Definition role_ok c : Prop := c_on_committee c = contains (c_committee c) (c_our_index c).

(** The part of the context that executing parcels does not touch. *)
Definition standing c :=
  (c_store c, c_committee c, c_our_index c, c_on_committee c, c_key c).

Lemma emit_standing l : preserves standing (emit l : M (Context (App := App)) unit).
Proof. by apply preserves_modify. Qed.
Lemma on_app_standing {A} (m : App → option (A * App)) : preserves standing (on_app m).
Proof.
  intros c a c' Hr. unfold on_app in Hr. by destruct (m (c_app c)) as [[]|]; simplify_eq.
Qed.
#[local] Hint Resolve emit_standing on_app_standing : preserves.

Lemma submit_batch_standing payload d i r : preserves standing (submit_batch payload d i r).
Proof. unfold submit_batch. solve_preserves. Qed.
#[local] Hint Resolve submit_batch_standing : preserves.

Lemma submit_chain_standing chain : preserves standing (submit_chain chain).
Proof. induction chain as [|[d p] chain IH]; simpl; solve_preserves. Qed.
#[local] Hint Resolve submit_chain_standing : preserves.

Lemma try_execute_internal_standing d h : preserves standing (try_execute_internal d h).
Proof. unfold try_execute_internal, try_execute_chain. solve_preserves. Qed.
#[local] Hint Resolve try_execute_internal_standing : preserves.

Lemma try_pending_standing ds b : preserves standing (try_pending ds b).
Proof. revert b. induction ds as [|d ds IH]; intros b; simpl; solve_preserves. Qed.
#[local] Hint Resolve try_pending_standing : preserves.

Lemma try_execute_standing d : preserves standing (try_execute d).
Proof. unfold try_execute. solve_preserves. Qed.

Lemma set_parcel_timer_standing d : preserves standing (set_parcel_timer d).
Proof. unfold set_parcel_timer. solve_preserves. Qed.

(** The contexts whose store represents [e], in the role of their committee. *)
Definition stands c (e : Epochs BroadcastEvent) : Prop := represents (c_store c) e ∧ role_ok c.

Lemma stands_standing c c' e : standing c' = standing c → stands c e → stands c' e.
Proof.
  unfold standing. intros [= Ht Hc Ho Hon _]. unfold stands, role_ok.
  by rewrite Ht, Hc, Ho, Hon.
Qed.

(** Only committee members become senders: of the committee before the run or
    of the one after it. *)
Definition admits c (e : Epochs BroadcastEvent) c' : Prop :=
  ∃ e', stands c' e' ∧
    ∀ i, sender_of e' i → sender_of e i ∨ i ∈ c_committee c ∨ i ∈ c_committee c'.

Lemma admits_standing c e c' : stands c e → standing c' = standing c → admits c e c'.
Proof. intros Hs Heq. exists e. split; [by eapply stands_standing|]. intros i Hi. by left. Qed.

Lemma settled_sender committee e i :
  sender_of (epochs_op (ChangeEpoch committee) e) i → i ∈ committee.
Proof.
  intros (d & w & Hw & Hi). simpl in Hw. rewrite lookup_omap in Hw.
  destruct (upcoming e !! d) as [w0|]; [|done]. simpl in Hw.
  apply settle_sent_by in Hw as [Hp Ha]. rewrite <-(elem_of_list_to_set (C := gset NodeIndex)).
  destruct Hi as [(p & Hp' & <-)|(a & Ha' & Hi)]; [by apply Hp|by apply (Ha a)].
Qed.

(** Taking over the committee of the application, and the epoch change. *)
Lemma reconfigure_admits c e (epoch_changed : bool) (l : list Action) c' :
  stands c e →
  (update_role;; emit l;;
   if epoch_changed then
     c ← get; actions ← on_store (store_change_epoch (c_committee c));
     emit (OnEvent <$> actions)
   else mret tt) c = Some (tt, c') →
  admits c e c'.
Proof.
  intros [Hrep Hrole] Hr. unfold update_role, emit in Hr. unfold_M.
  destruct epoch_changed.
  - unfold on_store in Hr. simpl in Hr.
    destruct (store_op_represents (ChangeEpoch (app_committee (c_app c))) (c_store c) e Hrep)
      as (t' & Hop & Hrep').
    simpl in Hop. unfold_M.
    destruct (store_change_epoch _ (c_store c)) as [[acts t1]|]; [|done].
    injection Hop as ->. injection Hr as <-. eexists. split; [split; [exact Hrep'|done]|].
    intros i Hi. right; right. by apply settled_sender in Hi.
  - injection Hr as <-. exists e. split; [by split|]. intros i Hi. by left.
Qed.

Lemma execute_digest_admits d c e c' :
  stands c e → execute_digest d c = Some (tt, c') → admits c e c'.
Proof.
  intros Hs Hr. unfold execute_digest in Hr. unfold_M.
  destruct (try_execute d c) as [[r c1]|] eqn:Ht; [|done].
  apply try_execute_standing in Ht. pose proof (stands_standing c c1 e Ht Hs) as Hs1.
  assert (c_committee c1 = c_committee c) as Hcom by (by injection Ht).
  destruct r as [b|ne].
  - destruct (b || _).
    + destruct (reconfigure_admits c1 e b [Reconfigure] c' Hs1) as (e' & Hs' & Hi); [exact Hr|].
      exists e'. split; [done|]. by rewrite <-Hcom.
    + injection Hr as <-. by apply admits_standing.
  - apply admits_standing; [done|]. rewrite <-Ht.
    destruct ne; simpl in Hr; [by apply set_parcel_timer_standing in Hr|by injection Hr as <-..].
Qed.

(** A stored message of the current epoch adds its sender, one of the next
    epoch adds nobody yet. *)
Lemma stored_sender op e i :
  sender_of (epochs_op op e) i →
  match op with
  | StoreParcel _ o _ => sender_of e i ∨ i = o
  | StoreAttestation _ j => sender_of e i ∨ i = j
  | ChangeEpoch _ => True
  | _ => sender_of e i
  end.
Proof.
  destruct op as [p o m|p o m ev|d j|d j ev|committee]; try done; simpl.
  - intros (d & w & Hw & Hi). simpl in Hw. unfold update_entry in Hw.
    destruct (decide (parcel_to_digest p = d)) as [<-|Hne];
      [|rewrite lookup_insert_ne in Hw by done; left; by exists d, w].
    rewrite lookup_insert_eq in Hw. injection Hw as <-. unfold parcel_entry in Hi.
    destruct (current e !! parcel_to_digest p) as [w|] eqn:Hw; simpl in Hi; [|naive_solver].
    destruct (parcel w) as [q|] eqn:Hq; simpl in Hi.
    + left. exists (parcel_to_digest p), w. split; [done|].
      destruct Hi as [(p' & Hp' & <-)|?]; [left|by right]. exists q. split; [done|].
      by destruct (message_digest q); simplify_eq/=.
    + destruct Hi as [(p' & Hp' & <-)|?]; [right; by simplify_eq/=|].
      left. exists (parcel_to_digest p), w. eauto.
  - intros (d' & w & Hw & Hi). simpl in Hw. unfold update_entry in Hw.
    destruct (decide (d = d')) as [<-|Hne];
      [|rewrite lookup_insert_ne in Hw by done; left; by exists d', w].
    rewrite lookup_insert_eq in Hw. injection Hw as <-. unfold attestation_entry in Hi.
    destruct (current e !! d) as [w|] eqn:Hw; simpl in Hi;
      [|destruct Hi as [(? & ? & _)|(a & Ha & Hi)]; simplify_eq/=; right; set_solver].
    destruct Hi as [?|(a & Ha & Hi)]; [left; exists d, w; eauto|]. simplify_eq/=.
    destruct (attestations w) as [b|] eqn:Hb; [|set_solver].
    apply elem_of_union in Hi as [Hi|Hi]; [right; set_solver|]. left. exists d, w. eauto.
Qed.

Lemma on_store_admits op c e c' :
  stands c e → on_store (store_op op) c = Some (tt, c') →
  (match op with StoreParcel _ o _ => o ∈ c_committee c | StoreAttestation _ j => j ∈ c_committee c
               | ChangeEpoch _ => False | _ => True end) →
  admits c e c' ∧ c_committee c' = c_committee c.
Proof.
  intros [Hrep Hrole] Hr Hop. unfold on_store in Hr.
  destruct (store_op_represents op (c_store c) e Hrep) as (t' & Ht' & Hrep').
  rewrite Ht' in Hr. injection Hr as <-. split; [|done].
  exists (epochs_op op e). split; [by split|]. intros i Hi. apply stored_sender in Hi.
  destruct op; try done; naive_solver.
Qed.

Lemma admits_trans c e c1 c2 :
  c_committee c1 = c_committee c → admits c e c1 →
  (∀ e1, stands c1 e1 → admits c1 e1 c2) → admits c e c2.
Proof.
  intros Hcom (e1 & Hs1 & H1) H2. destruct (H2 e1 Hs1) as (e2 & Hs2 & H2').
  exists e2. split; [done|]. intros i Hi. rewrite <-Hcom in *.
  destruct (H2' i Hi) as [Hi1|[?|?]]; [|by right; left|by right; right].
  destruct (H1 i Hi1) as [?|[?|?]]; [by left|by right; left|by right; left].
Qed.

Lemma valid_current in_committee msg_epoch epoch :
  is_valid_message in_committee msg_epoch epoch = true →
  bool_decide (msg_epoch = epoch +[64] 1) = false → in_committee = true.
Proof.
  unfold is_valid_message. intros Hv Hn. rewrite Hn, orb_false_r in Hv.
  by apply andb_true_iff in Hv as [? _].
Qed.

Lemma handle_attestation_admits msg a c e c' :
  stands c e → handle_attestation msg a c = Some (tt, c') → admits c e c'.
Proof.
  intros Hs Hr. unfold handle_attestation in Hr. unfold_M.
  destruct (negb _ || negb _) eqn:Hv.
  { by apply admits_standing; [|apply emit_standing in Hr]. }
  apply orb_false_iff in Hv as [Hsame%negb_false_iff Hvalid%negb_false_iff]. tests.
  set (next := bool_decide (att_epoch a = app_epoch (c_app c) +[64] 1)) in *.
  match type of Hr with match ?m c with _ => _ end = _ =>
    destruct (m c) as [[[] c1]|] eqn:H1; [|done] end.
  assert (standing c1 = standing c) as Hst.
  { destruct next; simpl in H1; [by injection H1 as <-|by apply emit_standing in H1]. }
  pose proof (stands_standing _ _ _ Hst Hs) as Hs1.
  assert (c_committee c1 = c_committee c) as Hcom by (by injection Hst).
  destruct (c_on_committee c); simpl in Hr; [injection Hr as <-; by apply admits_standing|].
  apply (admits_trans _ _ c1); [done|by apply admits_standing|]. intros e1 Hs1'.
  set (op := if next then StorePendingAttestation (att_digest a) (att_node_index a) msg
             else StoreAttestation (att_digest a) (att_node_index a)).
  assert (match on_store (store_op op) c1 with
          | Some (_, c2) => execute_digest (att_digest a) c2 | None => None end
          = Some (tt, c')) as Hr' by (unfold op; by destruct next).
  destruct (on_store (store_op op) c1) as [[[] c2]|] eqn:H2; [|done].
  destruct (on_store_admits op c1 e1 c2) as [Hadm Hcom2]; [done|done| |].
  { unfold op. destruct next eqn:Hn; [done|]. rewrite Hcom, <-Hsame. apply contains_true.
    by eapply valid_current. }
  apply (admits_trans _ _ c2); [done|done|]. intros e2 Hs2. by eapply execute_digest_admits.
Qed.

Lemma handle_parcel_admits msg p c e c' :
  stands c e → handle_parcel msg p c = Some (tt, c') → admits c e c'.
Proof.
  intros Hs Hr. unfold handle_parcel in Hr. unfold_M.
  destruct (negb _) eqn:Hv.
  { by apply admits_standing; [|apply emit_standing in Hr]. }
  apply negb_false_iff in Hv.
  set (next := bool_decide (asp_epoch p = app_epoch (c_app c) +[64] 1)) in *.
  set (asked := bool_decide (parcel_to_digest p ∈ c_requests c)) in *.
  match type of Hr with match ?m ?c0 with _ => _ end = _ =>
    set (c0' := c0) in Hr; destruct (m c0') as [[[] c1]|] eqn:H1; [|done] end.
  assert (standing c1 = standing c) as Hst.
  { assert (standing c0' = standing c) as <- by done.
    destruct (negb asked && negb next); [by apply emit_standing in H1|by injection H1 as <-]. }
  pose proof (stands_standing _ _ _ Hst Hs) as Hs1.
  assert (c_committee c1 = c_committee c) as Hcom by (by injection Hst).
  apply (admits_trans _ _ c1); [done|by apply admits_standing|]. intros e1 Hs1'.
  set (op := if next then StorePendingParcel p (ev_originator msg) (Some (ev_digest msg)) msg
             else StoreParcel p (ev_originator msg) (Some (ev_digest msg))).
  match type of Hr with match ?m c1 with _ => _ end = _ =>
    assert (m c1 = on_store (store_op op) c1) as Hm by (unfold op; by destruct next);
    rewrite Hm in Hr end.
  destruct (on_store (store_op op) c1) as [[[] c2]|] eqn:H2; [|done].
  destruct (on_store_admits op c1 e1 c2) as [Hadm Hcom2]; [done|done| |].
  { unfold op. destruct next eqn:Hn; [done|]. rewrite Hcom. apply contains_true.
    by eapply valid_current. }
  apply (admits_trans _ _ c2); [done|done|]. intros e2 Hs2.
  match type of Hr with match ?m c2 with _ => _ end = _ =>
    destruct (m c2) as [[[] c3]|] eqn:H3; [|done] end.
  assert (standing c3 = standing c2) as Hst3.
  { destruct (asked && _); [by apply set_parcel_timer_standing in H3|by injection H3 as <-]. }
  apply (admits_trans _ _ c3); [by injection Hst3|by apply admits_standing|]. intros e3 Hs3.
  destruct (c_on_committee c3); simpl in Hr; [injection Hr as <-; by apply admits_standing|].
  by eapply execute_digest_admits.
Qed.

Lemma bind_inv {A B} (m : M (Context (App := App)) A) (f : A → M Context B) c r :
  (m ≫= f) c = Some r → ∃ a c1, m c = Some (a, c1) ∧ f a c1 = Some r.
Proof. unfold mbind, M_bind. destruct (m c) as [[a c1]|]; [eauto|done]. Qed.

Lemma handle_consensus_output_admits o md c e c' :
  stands c e → handle_consensus_output o md c = Some (tt, c') → admits c e c'.
Proof.
  intros Hs Hr. unfold handle_consensus_output in Hr.
  apply bind_inv in Hr as (? & ? & [= <- <-] & Hr). cbv zeta in Hr.
  destruct (c_on_committee c) eqn:Hon; simpl in Hr; [|injection Hr as <-; by apply admits_standing].
  apply bind_inv in Hr as (resp & c1 & H1 & Hr). apply submit_batch_standing in H1.
  apply bind_inv in Hr as ([] & c2 & H2 & Hr). apply emit_standing in H2.
  assert (standing c2 = standing c) as Hst by congruence.
  assert (c_committee c2 = c_committee c) as Hcom by (by injection Hst).
  apply (admits_trans _ _ c2); [done|by apply admits_standing|]. intros e2 Hs2.
  apply bind_inv in Hr as ([] & c3 & H3 & Hr).
  eapply (on_store_admits (StoreParcel _ _ _) c2 e2 c3 Hs2) in H3 as [Hadm Hcom3]; last first.
  { destruct Hs as [_ Hrole]. unfold role_ok in Hrole. rewrite Hcom. apply contains_true. congruence. }
  apply (admits_trans _ _ c3); [done|done|]. intros e3 Hs3.
  apply bind_inv in Hr as (? & ? & [= <- <-] & Hr).
  destruct (block_change_epoch resp || _); [|injection Hr as <-; by apply admits_standing].
  apply bind_inv in Hr as ([] & c4 & H4 & Hr). apply emit_standing in H4.
  apply (admits_trans _ _ c4); [by injection H4|by apply admits_standing|]. intros e4 Hs4.
  apply (reconfigure_admits c4 e4 (block_change_epoch resp) []); [done|].
  unfold update_role, emit in *. unfold_M. rewrite app_nil_r. exact Hr.
Qed.

Lemma worker_step_admits c e c' : stands c e → worker_step cache_insert c c' → admits c e c'.
Proof.
  intros Hs. destruct 1 as [o md c c' Hr|msg m c c' Hr|d c c' Hr].
  - by eapply handle_consensus_output_admits.
  - destruct m as [p|a|d]; simpl in Hr; [by eapply handle_parcel_admits
      |by eapply handle_attestation_admits|].
    apply admits_standing; [done|].
    assert (preserves standing (handle_request (App := App) msg d)) as Hp
      by (unfold handle_request; solve_preserves). by apply Hp in Hr.
  - apply admits_standing; [done|].
    assert (preserves standing (handle_timeout (App := App) cache_insert d)) as Hp
      by (unfold handle_timeout; solve_preserves). by apply Hp in Hr.
Qed.

(** C24: Only committee members count.  In every reachable context of a worker
    the parcels and attestations of the current epoch, which the quorum is
    counted from, were sent by nodes that were on the committee at some time
    since the worker started, whatever the messages claimed and in whatever
    order they arrived. *)
Theorem committee_senders key (a : App) c :
  rtc (worker_step cache_insert) (spawn_worker key a) c →
  ∃ e, represents (c_store c) e ∧ ∀ i, sender_of e i →
    ∃ c1, rtc (worker_step cache_insert) (spawn_worker key a) c1 ∧
      rtc (worker_step cache_insert) c1 c ∧ i ∈ c_committee c1.
Proof.
  intros Hs. assert (∃ e, stands c e ∧ ∀ i, sender_of e i →
    ∃ c1, rtc (worker_step cache_insert) (spawn_worker key a) c1 ∧
      rtc (worker_step cache_insert) c1 c ∧ i ∈ c_committee c1) as (e & [Hrep _] & Hi);
    [|by exists e].
  revert c Hs. apply rtc_ind_r.
  { exists (mkEpochs ∅ ∅ ∅). split; [split; [apply represents_1|done]|].
    intros i (d & w & Hw & _). done. }
  intros c c' Hreach Hstep (e & Hs & Hi). destruct (worker_step_admits c e c' Hs Hstep) as (e' & Hs' & Hi').
  exists e'. split; [done|]. intros i Hsend. destruct (Hi' i Hsend) as [Hold|[Hc|Hc]].
  - destruct (Hi i Hold) as (c1 & H1 & H2 & H3). exists c1. split_and!; [done| |done].
    by eapply rtc_r.
  - exists c. split_and!; [done|by apply rtc_once|done].
  - exists c'. split_and!; [by eapply rtc_r|done|done].
Qed.
End senders.

(** ** The walk ends *)

Section walk.
Context {PH : ParcelHash}.
Implicit Types t : TransactionStore BroadcastEvent.

(** A parcel the walk does not reject. *)
Definition accepted (epoch : Epoch) (head : Hash32) (p : AuthenticStampedParcel) : Prop :=
  epoch ≤ asp_epoch p ∧ (asp_last_executed p = 0%N → head = 0%N).

Lemma accepted_iff epoch head p :
  bool_decide (asp_epoch p < epoch) || (bool_decide (asp_last_executed p = 0%N) && negb (bool_decide (head = 0%N)))
    = false ↔ accepted epoch head p.
Proof.
  unfold accepted. rewrite orb_false_iff, andb_false_iff, negb_false_iff, !bool_decide_eq_false, bool_decide_eq_true.
  destruct (decide (asp_last_executed p = 0%N)); intuition lia.
Qed.

(** Stored, accepted parcels from [head] to [d], the chain in the order of
    execution; only the first is on [head]. *)
Inductive walkable t (epoch : Epoch) (head : Hash32)
    : list (Hash32 * AuthenticStampedParcel) → Hash32 → Prop :=
| walk_first d q :
    get_parcel d t = Some (Some q) → accepted epoch head (inner q) →
    asp_last_executed (inner q) = head → walkable t epoch head [(d, inner q)] d
| walk_next l d' d q :
    walkable t epoch head l d' →
    get_parcel d t = Some (Some q) → accepted epoch head (inner q) →
    asp_last_executed (inner q) = d' → d' ≠ head →
    walkable t epoch head (l ++ [(d, inner q)]) d.

Lemma connect_walkable fuel t epoch head current acc chain :
  connect fuel t epoch head current acc = Some (Connected chain) →
  ∃ l, chain = l ++ acc ∧ walkable t epoch head l current.
Proof.
  revert current acc. induction fuel as [|fuel IH]; intros current acc Hc; [done|]. simpl in Hc.
  destruct (get_parcel current t) as [[q|]|] eqn:Hq; simpl in Hc; [|by destruct (negb _)|done].
  destruct (bool_decide _ || _) eqn:Hrej; [done|].
  apply accepted_iff in Hrej as Hacc.
  case_bool_decide as Hhead.
  - injection Hc as <-. exists [(current, inner q)]. split; [done|]. by constructor.
  - destruct (IH _ _ Hc) as (l & -> & Hl). exists (l ++ [(current, inner q)]).
    split; [by rewrite <-app_assoc|]. by eapply walk_next.
Qed.

Lemma walkable_connect t epoch head l d acc :
  walkable t epoch head l d →
  ∀ fuel, (length l ≤ fuel)%nat →
  connect fuel t epoch head d acc = Some (Connected (l ++ acc)).
Proof.
  pose proof (λ p, proj2 (accepted_iff epoch head p)) as Hacc.
  intros Hw. revert acc. induction Hw as [d q Hq Ha Hl|l d' d q Hw IH Hq Ha Hl Hne];
    intros acc [|fuel] Hf; simpl in Hf; try (rewrite length_app in Hf; simpl in Hf); try lia.
  - simpl. rewrite Hq. simpl. rewrite (Hacc _ Ha). by rewrite bool_decide_eq_true_2.
  - simpl. rewrite Hq. simpl. rewrite (Hacc _ Ha), bool_decide_eq_false_2 by congruence.
    rewrite Hl, IH by lia. by rewrite <-app_assoc.
Qed.

Lemma connect_total t e epoch head :
  represents t e → ∀ fuel cur acc, is_Some (connect fuel t epoch head cur acc).
Proof.
  intros Hrep. induction fuel as [|fuel IH]; intros cur acc; simpl; [by eexists|].
  rewrite (get_parcel_represents cur t e Hrep). simpl. repeat case_match; eauto.
Qed.

(** A step of the walk: from a stored, accepted parcel to its predecessor, which is not
    the last block. *)
Definition walk_step t (epoch : Epoch) (head : Hash32) (d d' : Hash32) : Prop :=
  ∃ q, get_parcel d t = Some (Some q) ∧ accepted epoch head (inner q) ∧
    asp_last_executed (inner q) = d' ∧ d' ≠ head.

(** The walk is not over after [fuel] steps if there are as many steps. *)
Lemma connect_looping fuel t epoch head current acc :
  connect fuel t epoch head current acc = Some Looping ↔ ∃ d, nsteps (walk_step t epoch head) fuel current d.
Proof.
  revert current acc. induction fuel as [|fuel IH]; intros current acc.
  { split; [by exists current; constructor|done]. }
  simpl. split.
  - intros Hc. destruct (get_parcel current t) as [[q|]|] eqn:Hq; simpl in Hc; [|by destruct (negb _)|done].
    destruct (bool_decide _ || _) eqn:Hrej; [done|]. case_bool_decide as Hhead; [done|].
    apply IH in Hc as [d Hd]. exists d. econstructor; [|exact Hd]. exists q. split_and!; [done| |done|done].
    by apply accepted_iff.
  - intros [d Hd]. inversion Hd as [|? ? d' ? (q & Hq & Ha & Hl & Hne) Hrest]; subst. rewrite Hq. simpl.
    rewrite (proj2 (accepted_iff _ _ _) Ha), bool_decide_eq_false_2 by done. apply IH. by exists d.
Qed.

(** A result is the same with more fuel. *)
Lemma connect_more fuel fuel' t epoch head current acc w :
  (fuel ≤ fuel')%nat → w ≠ Looping →
  connect fuel t epoch head current acc = Some w → connect fuel' t epoch head current acc = Some w.
Proof.
  intros Hle Hw. revert fuel' Hle current acc. induction fuel as [|fuel IH]; intros [|fuel'] Hle current acc Hc;
    simpl in *; [congruence|congruence|lia|].
  destruct (get_parcel current t) as [[q|]|]; simpl in *; [|done|done].
  destruct (bool_decide _ || _); [done|]. case_bool_decide; [done|]. apply IH; [lia|done].
Qed.

(** There are fewer stored digests than the walk has fuel. *)
Lemma stored_bound t e (l : list Hash32) :
  represents t e → NoDup l → (∀ d, d ∈ l → ∃ p, get_parcel d t = Some (Some p)) →
  (length l < walk_fuel t)%nat.
Proof.
  intros Hrep Hnd Hst.
  assert (list_to_set l ⊆ dom (current e) ∪ dom (previous e)) as Hsub.
  { intros d Hd. apply elem_of_list_to_set, Hst in Hd as [p Hp].
    rewrite (get_parcel_represents d t e Hrep) in Hp. rewrite elem_of_union, !elem_of_dom.
    destruct (current e !! d); [left; by eexists|]. simpl in Hp.
    destruct (previous e !! d); [right; by eexists|done]. }
  apply subseteq_size in Hsub. rewrite size_list_to_set in Hsub by done.
  pose proof (size_union_alt (dom (current e)) (dom (previous e))) as Hsz.
  assert (size (dom (previous e) ∖ dom (current e)) ≤ size (dom (previous e)))%nat
    by (apply subseteq_size; set_solver).
  rewrite Hsz, !size_dom in *. unfold walk_fuel. destruct Hrep; simpl in *; lia.
Qed.

(** C26: The walk along the predecessors ends within as many steps as there are entries
    in the store and finds the chain exactly when there is one: it connects precisely
    the chain of stored parcels of the current epoch that leads from the last block to
    the digest.  The only exception is a store with parcels each of which is the
    predecessor of the next, in a circle, whose digests would be hashes of each other:
    from a digest that leads there the walk never ends, and there is no chain. *)
Theorem walk_decides t e epoch head d :
  represents t e →
  (∃ w, w ≠ Looping ∧ (∀ fuel, (walk_fuel t ≤ fuel)%nat → connect fuel t epoch head d [] = Some w) ∧
     ∀ chain, w = Connected chain ↔ walkable t epoch head chain d) ∨
  (∃ x, rtc (walk_step t epoch head) d x ∧ tc (walk_step t epoch head) x x ∧
     (∀ fuel, connect fuel t epoch head d [] = Some Looping) ∧ ∀ chain, ¬ walkable t epoch head chain d).
Proof.
  intros Hrep. destruct (connect_total t e epoch head Hrep (walk_fuel t) d []) as [w Hw].
  assert (w = Looping ∨ w ≠ Looping) as [->|Hne] by (destruct w; [by right..|by left]); [right|left].
  - apply connect_looping in Hw as [y Hy]. destruct (nsteps_points _ _ _ _ Hy) as (l & Hlen & Hl & [Hnd|(x & Hdx & Hx)]).
    { exfalso. pose proof (stored_bound t e l Hrep Hnd) as Hb. rewrite Hlen in Hb.
      enough (walk_fuel t < walk_fuel t)%nat by lia. apply Hb.
      intros z Hz. destruct (Hl z Hz) as [_ (z' & q & Hq & _)]. by exists q. }
    assert (∀ fuel, connect fuel t epoch head d [] = Some Looping) as Hloop.
    { intros fuel. apply connect_looping. apply (tc_endless _ x); [done|]. by eapply tc_rtc_l. }
    exists x. split_and!; [done..|]. intros chain Hwalk.
    pose proof (walkable_connect t epoch head chain d [] Hwalk _ (le_n _)) as Hc. by rewrite Hloop in Hc.
  - exists w. assert (∀ fuel, (walk_fuel t ≤ fuel)%nat → connect fuel t epoch head d [] = Some w) as Hmore
      by (intros fuel Hf; by eapply connect_more).
    split_and!; [done|done|]. intros chain. split.
    + intros ->. destruct (connect_walkable _ _ _ _ _ _ _ Hw) as (l & -> & Hl). by rewrite app_nil_r.
    + intros Hwalk. pose proof (Hmore (walk_fuel t + length chain)%nat ltac:(lia)) as Hm.
      rewrite (walkable_connect t epoch head chain d [] Hwalk), app_nil_r in Hm by lia. congruence.
Qed.
End walk.

(** ** The application implements the interface *)

Section env.
Context {R : Ruint} {L : RuintLaws R} {B : Bigint} {H : Host} {HL : HostLaws H}.
Context (tree_root : StateExecutor → Hash32) (checkpoint : Env → option Hash32).

Definition env_application : Application Env := {|
  app_run := Env.run tree_root checkpoint;
  app_last_block e := get_last_block (tables e);
  app_epoch e := get_current_epoch (tables e);
  app_era e := query_epoch_era (tables e);
  app_committee e := get_committee_members_by_index (tables e);
  app_index e := pubkey_to_index (tables e);
  app_executed e := has_executed_digest (tables e);
  app_last_epoch_hash e := v ← get_metadata (tables e) Metadata.LastEpochHash; Value.maybe_hash v
|}.

Lemma env_application_laws : @ApplicationLaws Env env_application.
Proof.
  split. intros b e r e' Hrun. simpl in *.
  assert (get_last_block (tables e') = get_block_hash (tables e')) as -> by done.
  by eapply run_sets_last_block.
Qed.
End env.
