(* ===== verification/ConsensusExample.v ===== *)
(** * ConsensusExample: the worker on a small network

    A validator and an edge node of a committee of four, an application that
    logs the blocks it runs, and concrete functions for the hashes and the
    transaction codec.  The theorems of [TxnStore] and [Worker] are applied to
    the contexts the two nodes reach. *)

From S2P Require Import Prelude Types State Executor Env Codec TxnStore Worker.
From stdpp Require Import base gmap list.
From Stdlib Require Import ZArith Lia.
Open Scope Z_scope.

(** ** Concrete hashes, codec and application *)

(** The bytes as the digits of a number, cut to 256 bits. *)
Definition number_of (bs : Bytes) : Hash32 :=
  Z.to_N (foldl (λ n b, (n * 257 + b + 1) mod 2 ^ 256) 0 bs).

#[local] Instance hash_digits : ParcelHash := {|
  default_hash := number_of;
  blake3_hash := number_of
|}.

(** No transaction decodes: a batch is executed as an empty block. *)
#[local] Instance codec_none : Codec := {|
  bincode_serialize _ := None;
  bincode_deserialize _ := None;
  eth_rlp _ := [];
  rlp_decode _ := None;
  rlp_canonical _ := True;
  size_of_transaction := 500
|}.

#[local] Existing Instance host_plain.

Definition log_response (b : Block) : BlockExecutionResponse :=
  mkBlockExecutionResponse 0 (digest b) 0%N false [] [] 0%N 0%N.

#[local] Instance log_application : Application (list Block) := {|
  app_run b log := Some (log_response b, b :: log);
  app_last_block log := match log with [] => 0%N | b :: _ => digest b end;
  app_epoch _ := 4;
  app_era _ := 0;
  app_committee _ := [0; 1; 2; 3];
  app_index _ key := Some (Z.of_N key);
  app_executed _ _ := false;
  app_last_epoch_hash _ := None
|}.

#[local] Instance log_application_laws : ApplicationLaws (list Block).
Proof. split. intros b log r log' Hr. simpl in *. by simplify_eq. Qed.

(** ** Two nodes *)

(** The timed cache of requests keeps what is inserted. *)
Definition keep (d : Hash32) (X : gset Hash32) : gset Hash32 := {[d]} ∪ X.

Definition output : FilteredConsensusOutput := mkFilteredConsensusOutput [[4; 7]; [4; 9]] 3 6.
Definition parcel1 : AuthenticStampedParcel :=
  mkAuthenticStampedParcel [[4; 7]; [4; 9]] 0%N 4 3 6.
Definition digest1 : Hash32 := parcel_to_digest parcel1.

Definition sent (i : nat) (from : NodeIndex) : BroadcastEvent := mkBroadcastEvent i from (N.of_nat i).
Definition attest (from : NodeIndex) : PubSubMsg :=
  Attestation (mkCommitteeAttestation digest1 from 4).

(** Run a handler; the context is unchanged where it does not return. *)
Definition step_with {A} (m : M (Context (App := list Block)) A) (c : Context) : Context :=
  match m c with Some (_, c') => c' | None => c end.

Definition validator0 : Context := spawn_worker 0%N [].
Definition validator1 : Context := step_with (handle_consensus_output output (Some 12%N)) validator0.

Definition edge0 : Context := spawn_worker 77%N [].
Definition edge1 : Context :=
  step_with (handle_pubsub_event (sent 1 0) (Transactions parcel1)) edge0.
Definition edge2 : Context := step_with (handle_pubsub_event (sent 2 0) (attest 0)) edge1.
Definition edge3 : Context := step_with (handle_pubsub_event (sent 3 1) (attest 1)) edge2.
Definition edge4 : Context := step_with (handle_pubsub_event (sent 4 2) (attest 2)) edge3.

Definition returns {A} (m : M (Context (App := list Block)) A) (c : Context) : bool :=
  match m c with Some _ => true | None => false end.

Lemma step_with_run (m : M (Context (App := list Block)) unit) c :
  returns m c = true → m c = Some (tt, step_with m c).
Proof. unfold returns, step_with. by destruct (m c) as [[[] c']|]. Qed.

Lemma event_step msg m (c : Context (App := list Block)) :
  returns (handle_pubsub_event msg m) c = true →
  worker_step keep c (step_with (handle_pubsub_event msg m) c).
Proof. intros Hr. apply (step_event keep msg m), step_with_run, Hr. Qed.

Lemma validator_runs : rtc (worker_step keep) validator0 validator1.
Proof.
  apply rtc_once, (step_output keep output (Some 12%N)), step_with_run. by vm_compute.
Qed.

Lemma edge_runs3 : rtc (worker_step keep) edge0 edge3.
Proof.
  apply (rtc_l _ _ edge1); [apply event_step; by vm_compute|].
  apply (rtc_l _ _ edge2); [apply event_step; by vm_compute|].
  apply rtc_once, event_step. by vm_compute.
Qed.

Lemma edge_runs : rtc (worker_step keep) edge0 edge4.
Proof. apply (rtc_r _ edge3); [apply edge_runs3|apply event_step; by vm_compute]. Qed.

(** The third attestation makes the edge node execute. *)
Lemma edge_executes :
  length (c_app edge3) = 0%nat ∧ length (c_app edge4) = 1%nat ∧
  app_last_block (c_app edge4) = app_last_block (c_app validator1).
Proof. by vm_compute. Qed.

(** ** The theorems on the two nodes *)

Lemma replicated_state_witness :
  ∃ ps qs, executes [] ps (c_app validator1) ∧ executes [] qs (c_app edge4) ∧
    (c_app validator1 = c_app edge4 ∨
     (∃ p q, p ∈ ps ∧ q ∈ qs ∧ parcel_to_digest p = parcel_to_digest q ∧ ¬ same_content p q) ∨
     (∃ p, p ∈ ps ++ qs ∧ parcel_to_digest p = app_last_block ([] : list Block))).
Proof.
  apply (replicated_state keep keep 0%N 77%N [] validator1 edge4);
    [apply validator_runs|apply edge_runs|apply eq_sym, edge_executes].
Defined.

Lemma committee_senders_witness :
  ∃ e, represents (c_store edge4) e ∧ ∀ i, sender_of e i →
    ∃ c1, rtc (worker_step keep) edge0 c1 ∧ rtc (worker_step keep) c1 edge4 ∧ i ∈ c_committee c1.
Proof. apply (committee_senders keep 77%N [] edge4). apply edge_runs. Defined.

(** The attestations of a quorum on the parcel, before the parcel is executed. *)
Definition attested : Context :=
  step_with (on_store (store_attestation digest1 2)) edge3.

Lemma attested_store : store_inv attested.
Proof.
  destruct (worker_runs keep 77%N [] edge3 edge_runs3) as [Hinv _].
  apply (store_op_progress (StoreAttestation digest1 2) edge3 tt attested); [|done].
  apply step_with_run. by vm_compute.
Qed.

Definition reports (r : Result bool NotExecuted) : bool :=
  match r with Ok b => negb b | Err _ => false end.

Lemma attested_executes :
  ∃ c', try_execute_internal digest1 (app_last_block (c_app attested)) attested = Some (Ok false, c').
Proof.
  assert (match try_execute_internal digest1 (app_last_block (c_app attested)) attested with
          | Some (r, _) => reports r | None => false end = true) as Hr by by vm_compute.
  destruct (try_execute_internal _ _ _) as [[[[]|] c']|]; try done. by exists c'.
Qed.

Lemma edge_execution_quorum_witness :
  ∃ c', try_execute_internal digest1 (app_last_block (c_app attested)) attested = Some (Ok false, c')
    ∧ ((digest1 ∈ c_executed attested ∧ c' = attested ∧ false = false) ∨
       ∃ attns chain, get_attestations digest1 (c_store attested) = Some (Some attns) ∧
         (c_quorum attested ≤ size attns)%nat ∧
         linked (app_last_block (c_app attested)) chain digest1 ∧
         (∀ d' p, (d', p) ∈ chain → app_epoch (c_app attested) ≤ asp_epoch p ∧
            ∃ q, get_parcel d' (c_store attested) = Some (Some q) ∧ inner q = p) ∧
         executes (c_app attested) (snd <$> chain) (c_app c') ∧
         app_last_block (c_app c') = digest1 ∧
         c_executed c' = c_executed attested ∪ chain_digests chain ∧
         c_pending c' = c_pending attested ∖ chain_digests chain).
Proof.
  destruct attested_executes as [c' Hc']. exists c'. split; [exact Hc'|].
  apply (edge_execution_quorum digest1 attested false c'); [apply attested_store|exact Hc'].
Defined.

Lemma walk_decides_witness :
  ∃ w, connect (walk_fuel (c_store attested)) (c_store attested) 4 0%N digest1 [] = Some w ∧
    w ≠ Looping ∧ ∀ chain, w = Connected chain ↔ walkable (c_store attested) 4 0%N chain digest1.
Proof.
  destruct attested_store as (e & Hrep & _).
  destruct (walk_decides (c_store attested) e 4 0%N digest1 Hrep) as [(w & Hw & Hrun & Hc)|(x & _ & _ & Hloop & _)].
  - exists w. exact (conj (Hrun _ (le_n _)) (conj Hw Hc)).
  - exfalso. specialize (Hloop 5%nat). vm_compute in Hloop. discriminate Hloop.
Defined.

(** The same batch stamped for another epoch has the same digest. *)
Definition parcel2 : AuthenticStampedParcel :=
  mkAuthenticStampedParcel [[4; 7]; [4; 9]] 0%N 5 3 6.

Lemma parcel_digest_binds_witness :
  parcel_to_digest parcel1 = parcel_to_digest parcel2 ∧
  ((same_coverage parcel1 parcel2 ∧ same_content parcel1 parcel2) ∨ collision parcel1 parcel2).
Proof.
  split; [done|]. destruct (parcel_digest_binds parcel1 parcel2) as [[Hc Hs]|Hcol].
  - split; unfold in_width; by vm_compute.
  - split; unfold in_width; by vm_compute.
  - done.
  - left. exact (conj Hc (Hs eq_refl)).
  - by right.
Defined.
