(* ===== verification/HashTree.v ===== *)
(** * HashTree: hash trees in post order and walks on them

    [lib/b3fs/src/utils.rs], [lib/b3fs/src/collections/flat.rs],
    [lib/b3fs/src/collections/hashtree.rs] and
    [lib/b3fs/src/stream/walker.rs].  The hashes of a tree over a list of
    blocks lie in one array, in post order; the left subtree of every node
    holds the largest power of two of blocks that leaves one for the right.
    The code never builds the tree: it computes with positions in the array.
    Here the tree is an inductive type and the positions are shown to be the
    positions of its nodes. *)

From S2P Require Import Prelude Types Codec.
From stdpp Require Import base list.
From Stdlib Require Import ZArith Lia.
Open Scope Z_scope.

(** ** Machine integers *)

Fixpoint pos_ones (p : positive) : Z :=
  match p with
  | xH => 1
  | xO p => pos_ones p
  | xI p => 1 + pos_ones p
  end.

Definition count_ones (x : Z) : Z :=
  match x with Zpos p => pos_ones p | _ => 0 end.

Fixpoint pos_trailing_zeros (p : positive) : Z :=
  match p with xO p => 1 + pos_trailing_zeros p | _ => 0 end.

Definition trailing_zeros (x : Z) : Z :=
  match x with Zpos p => pos_trailing_zeros p | _ => 64 end.

Definition leading_zeros (x : Z) : Z := if bool_decide (x ≤ 0) then 64 else 63 - Z.log2 x.

(** [usize::next_power_of_two]; the release profile wraps above [2 ^ 63]. *)
Definition next_power_of_two (n : Z) : Z := wrap 64 (2 ^ Z.log2_up n).

(** ** [utils.rs] *)

Definition previous_pow_of_two (n : Z) : Z := next_power_of_two n / 2.

Definition largest_power_of_two_leq (n : Z) : Z := next_power_of_two (n / 2 +[64] 1).

Definition tree_index (block_counter : Z) : Z :=
  wrap 64 (2 * block_counter) -[64] count_ones block_counter.

(** The loop of [block_counter_from_tree_index]; a shift takes its amount
    modulo the width. *)
Fixpoint block_counter_loop (fuel : nat) (x result : Z) : option Z :=
  if bool_decide (x = 0) then Some result
  else
    match fuel with
    | O => None
    | S fuel =>
        let exp := 64 - leading_zeros (x +[64] 1) -[32] 1 in
        let m := wrap 64 (Z.shiftl 1 ((exp -[32] 1) mod 64)) in
        block_counter_loop fuel (x -[64] (2 * m - 1)) (Z.lor result m)
    end.

Definition block_counter_from_tree_index (index : Z) : option (option Z) :=
  result ← block_counter_loop (Z.to_nat index) index 0;
  Some (if bool_decide (tree_index result = index) then Some result else None).

Definition hashtree_size_to_node_count (n : Z) : Z := Z.shiftr (n +[64] 1) 1.

Definition is_valid_proof_len (n : Z) : bool :=
  let SEG_SIZE := 32 * 8 + 1 in
  let s := n mod SEG_SIZE in
  bool_decide (s = 0) || (bool_decide (n > 64) && bool_decide ((s - 1) mod 32 = 0)).

Definition is_valid_tree_len (n : Z) : bool := bool_decide (Z.land (n +[64] 1) 1 = 0).

Definition is_valid_filename_len (n : Z) : bool := bool_decide (n > 0) && bool_decide (n < 256).
Definition is_valid_symlink_len (n : Z) : bool := bool_decide (n > 0) && bool_decide (n < 1024).

Definition zlength {A} (l : list A) : Z := Z.of_nat (length l).

Definition is_valid_filename (bytes : Bytes) : bool :=
  is_valid_filename_len (zlength bytes) && negb (existsb (Z.eqb 0) bytes).
Definition is_valid_symlink (bytes : Bytes) : bool :=
  is_valid_symlink_len (zlength bytes) && negb (existsb (Z.eqb 0) bytes).

(** ** Counting bits *)

Lemma count_ones_double x : 0 ≤ x → count_ones (2 * x) = count_ones x.
Proof. by destruct x. Qed.

Lemma count_ones_succ_double x : 0 ≤ x → count_ones (2 * x + 1) = 1 + count_ones x.
Proof. by destruct x. Qed.

Lemma even_odd x : 0 ≤ x → ∃ y, 0 ≤ y ∧ (x = 2 * y ∨ x = 2 * y + 1).
Proof.
  intros Hx. exists (x / 2). pose proof (Z.div_mod x 2). pose proof (Z.mod_pos_bound x 2). lia.
Qed.

Lemma pos_ones_bound p : 1 ≤ pos_ones p ≤ Zpos p.
Proof. induction p; simpl; lia. Qed.

Lemma count_ones_bound x : 0 ≤ x → 0 ≤ count_ones x ≤ x ∧ (0 < x → 1 ≤ count_ones x).
Proof. destruct x as [|p|]; simpl; [lia| |lia]. pose proof (pos_ones_bound p). lia. Qed.

Lemma count_ones_pow2_add k i :
  0 ≤ k → 0 ≤ i < 2 ^ k → count_ones (2 ^ k + i) = 1 + count_ones i.
Proof.
  intros Hk. revert i. pattern k. apply natlike_ind; [|clear k Hk|done].
  { intros i Hi. assert (i = 0) as -> by lia. done. }
  intros k Hk IH i Hi. rewrite Z.pow_succ_r in * by done.
  destruct (even_odd i) as (j & Hj & [->| ->]); [lia|..].
  - rewrite <-Z.mul_add_distr_l, !count_ones_double by lia. apply IH. lia.
  - rewrite Z.add_assoc, <-Z.mul_add_distr_l, !count_ones_succ_double by lia.
    rewrite IH by lia. lia.
Qed.

Lemma tree_index_eq b : 0 ≤ b < 2 ^ 63 → tree_index b = 2 * b - count_ones b.
Proof.
  intros Hb. unfold tree_index. pose proof (count_ones_bound b).
  rewrite (wrap_small 64 (2 * b)) by (unfold in_width; lia).
  apply wrap_small. unfold in_width. lia.
Qed.

Lemma tree_index_pow2_add k i :
  0 ≤ k < 62 → 0 ≤ i < 2 ^ k → tree_index (2 ^ k + i) = 2 * 2 ^ k - 1 + tree_index i.
Proof.
  intros Hk Hi. assert (2 ^ k ≤ 2 ^ 61) by (apply Z.pow_le_mono_r; lia).
  rewrite !tree_index_eq, count_ones_pow2_add by lia. lia.
Qed.

Lemma tree_index_bound i : 0 ≤ i < 2 ^ 63 → i ≤ tree_index i ≤ 2 * i ∧ (0 < i → tree_index i < 2 * i).
Proof. intros Hi. rewrite tree_index_eq by done. pose proof (count_ones_bound i). lia. Qed.

(** ** The position of a block and the block at a position *)

(** The highest bit of a number and the rest. *)
Lemma high_bit b : 0 < b → ∃ k i, 0 ≤ k ∧ 0 ≤ i < 2 ^ k ∧ b = 2 ^ k + i.
Proof.
  intros Hb. exists (Z.log2 b), (b - 2 ^ Z.log2 b). pose proof (Z.log2_spec b Hb).
  pose proof (Z.log2_nonneg b). rewrite Z.pow_succ_r in * by done. lia.
Qed.

Lemma lor_pow2_add k i : 0 ≤ k → 0 ≤ i < 2 ^ k → Z.lor (2 ^ k) i = 2 ^ k + i.
Proof.
  intros Hk Hi. assert (Z.land (2 ^ k) i = 0) as H0.
  { apply Z.bits_inj'. intros n Hn. rewrite Z.land_spec, Z.bits_0, Z.pow2_bits_eqb by done.
    destruct (Z.eqb_spec k n) as [<-|]; [|done]. simpl.
    destruct (decide (i = 0)) as [->|]; [apply Z.bits_0|].
    apply Z.bits_above_log2; [lia|]. apply Z.log2_lt_pow2; lia. }
  pose proof (Z.add_lor_land (2 ^ k) i). lia.
Qed.

(** One turn of the loop takes the highest bit off. *)
Lemma block_counter_turn fuel k i r :
  0 ≤ k < 62 → 0 ≤ i < 2 ^ k →
  block_counter_loop (S fuel) (tree_index (2 ^ k + i)) r
  = block_counter_loop fuel (tree_index i) (Z.lor r (2 ^ k)).
Proof.
  intros Hk Hi. rewrite tree_index_pow2_add by done.
  assert (2 ^ k ≤ 2 ^ 61) as Hle by (apply Z.pow_le_mono_r; lia).
  pose proof (tree_index_bound i ltac:(lia)) as Hti. simpl.
  rewrite bool_decide_false by lia.
  rewrite (wrap_small 64 (_ + 1)) by (unfold in_width; lia).
  assert (Z.log2 (2 * 2 ^ k - 1 + tree_index i + 1) = k + 1) as Hlog.
  { apply Z.log2_unique; [lia|]. rewrite (Z.pow_add_r 2 k 1), Z.pow_succ_r, Z.pow_add_r by lia.
    lia. }
  unfold leading_zeros. rewrite bool_decide_false, Hlog by lia.
  rewrite (wrap_small 32 (64 - _ - 1)) by (unfold in_width; lia).
  rewrite (wrap_small 32) by (unfold in_width; lia).
  rewrite Z.mod_small by lia.
  replace (64 - (63 - (k + 1)) - 1 - 1) with k by lia.
  rewrite Z.shiftl_1_l, (wrap_small 64 (2 ^ k)) by (unfold in_width; lia).
  f_equal. replace (_ - _) with (tree_index i) by lia. apply wrap_small. unfold in_width. lia.
Qed.

Lemma block_counter_loop_tree_index b r fuel :
  0 ≤ b < 2 ^ 62 → (Z.to_nat (count_ones b) ≤ fuel)%nat →
  block_counter_loop fuel (tree_index b) r = Some (Z.lor r b).
Proof.
  revert r fuel. induction (Z.lt_wf 0 b) as [b _ IH]. intros r fuel Hb Hf.
  destruct (decide (b = 0)) as [->|].
  { rewrite Z.lor_0_r. by destruct fuel. }
  destruct (high_bit b) as (k & i & Hk & Hi & ->); [lia|].
  assert (k < 62) as Hk62 by (apply (Z.pow_lt_mono_r_iff 2); lia).
  rewrite count_ones_pow2_add in Hf by done. pose proof (count_ones_bound i).
  destruct fuel as [|fuel]; [lia|].
  rewrite block_counter_turn, IH by lia. by rewrite <-Z.lor_assoc, lor_pow2_add.
Qed.

(** The loop ends: every turn decreases the position. *)
Lemma block_counter_total fuel x r :
  0 ≤ x < 2 ^ 63 → (Z.to_nat x ≤ fuel)%nat → is_Some (block_counter_loop fuel x r).
Proof.
  revert x r. induction fuel as [|fuel IH]; intros x r Hx Hf; simpl;
    (case_bool_decide; [by eexists|]); [lia|].
  rewrite (wrap_small 64 (x + 1)) by (unfold in_width; lia).
  unfold leading_zeros. rewrite bool_decide_false by lia.
  pose proof (Z.log2_spec (x + 1) ltac:(lia)) as Hs.
  assert (1 ≤ Z.log2 (x + 1) ≤ 63) as Hl.
  { split; [by apply (Z.log2_le_mono 2); lia|]. apply Z.lt_succ_r, Z.log2_lt_pow2; lia. }
  rewrite (wrap_small 32 (64 - _ - 1)) by (unfold in_width; lia).
  rewrite (wrap_small 32) by (unfold in_width; lia).
  rewrite Z.mod_small by lia.
  replace (64 - (63 - Z.log2 (x + 1)) - 1 - 1) with (Z.log2 (x + 1) - 1) by lia.
  assert (2 ^ Z.log2 (x + 1) = 2 * 2 ^ (Z.log2 (x + 1) - 1)) as Hp.
  { rewrite <-Z.pow_succ_r by lia. f_equal. lia. }
  assert (1 ≤ 2 ^ (Z.log2 (x + 1) - 1)) by (apply (Z.pow_le_mono_r 2 0); lia).
  rewrite Z.shiftl_1_l, (wrap_small 64 (2 ^ _)), wrap_small by (unfold in_width; lia).
  apply IH; lia.
Qed.

(** [block_counter_from_tree_index] inverts [tree_index]: for every position
    it terminates, gives the block whose position it is, and gives none exactly
    when the position is that of no block. *)
Theorem tree_index_inverse x :
  0 ≤ x < 2 ^ 62 →
  ∃ r, block_counter_from_tree_index x = Some r ∧
    ∀ b, 0 ≤ b < 2 ^ 62 → (r = Some b ↔ tree_index b = x).
Proof.
  intros Hx. unfold block_counter_from_tree_index.
  destruct (block_counter_total (Z.to_nat x) x 0) as [result Hr]; [lia..|].
  rewrite Hr. eexists. split; [done|]. intros b Hb. split.
  - case_bool_decide; [|done]. by intros [= <-].
  - intros <-. pose proof (tree_index_bound b ltac:(lia)). pose proof (count_ones_bound b).
    rewrite block_counter_loop_tree_index in Hr by lia.
    injection Hr as <-. by rewrite bool_decide_true.
Qed.

(** ** Powers of two *)

Lemma previous_pow_of_two_spec n :
  2 ≤ n ≤ 2 ^ 63 → ∃ k, 0 ≤ k < 63 ∧ previous_pow_of_two n = 2 ^ k ∧ 2 ^ k < n ≤ 2 * 2 ^ k.
Proof.
  intros Hn. pose proof (Z.log2_up_spec n ltac:(lia)) as [Hlo Hhi].
  assert (1 ≤ Z.log2_up n ≤ 63) as Hlog.
  { split; [|by apply Z.log2_up_le_pow2; lia]. apply (Z.log2_up_le_mono 2). lia. }
  exists (Z.log2_up n - 1). unfold previous_pow_of_two, next_power_of_two.
  assert (2 ^ Z.log2_up n = 2 * 2 ^ (Z.log2_up n - 1)) as Hp.
  { rewrite <-Z.pow_succ_r by lia. f_equal. lia. }
  assert (2 ^ Z.log2_up n ≤ 2 ^ 63) by (apply Z.pow_le_mono_r; lia).
  rewrite wrap_small by (unfold in_width; lia). rewrite <-Z.sub_1_r in Hlo.
  split; [lia|]. rewrite Hp, Z.mul_comm, Z.div_mul by lia. lia.
Qed.

Lemma previous_pow_of_two_unique k n :
  0 ≤ k < 63 → 2 ^ k < n ≤ 2 * 2 ^ k → previous_pow_of_two n = 2 ^ k.
Proof.
  intros Hk Hn. assert (1 ≤ 2 ^ k) by (apply (Z.pow_le_mono_r 2 0); lia).
  assert (2 ^ k ≤ 2 ^ 62) by (apply Z.pow_le_mono_r; lia).
  destruct (previous_pow_of_two_spec n) as (j & Hj & -> & Hjn); [lia|].
  f_equal. assert (2 ^ j < 2 ^ Z.succ k ∧ 2 ^ k < 2 ^ Z.succ j) as [H1 H2]
    by (rewrite !Z.pow_succ_r by lia; lia).
  apply Z.pow_lt_mono_r_iff in H1, H2; lia.
Qed.

(** [largest_power_of_two_leq] is what its name says. *)
Lemma largest_power_of_two_leq_spec n :
  1 ≤ n < 2 ^ 63 → ∃ k, 0 ≤ k ∧ largest_power_of_two_leq n = 2 ^ k ∧ 2 ^ k ≤ n < 2 * 2 ^ k.
Proof.
  intros Hn. exists (Z.log2 n). pose proof (Z.log2_spec n ltac:(lia)) as Hs.
  pose proof (Z.log2_nonneg n). rewrite Z.pow_succ_r in Hs by done.
  split; [done|]. split; [|lia]. unfold largest_power_of_two_leq, next_power_of_two.
  assert (Z.log2 n < 63) by (apply Z.log2_lt_pow2; lia).
  assert (2 ^ Z.log2 n ≤ 2 ^ 62) by (apply Z.pow_le_mono_r; lia).
  pose proof (Z.div_mod n 2). pose proof (Z.mod_pos_bound n 2).
  rewrite (wrap_small 64 (_ + 1)) by (unfold in_width; lia).
  assert (Z.log2_up (n / 2 + 1) = Z.log2 n) as ->; [|apply wrap_small; unfold in_width; lia].
  destruct (decide (n = 1)) as [->|]; [done|].
  apply Z.log2_up_unique.
  - apply Z.log2_pos. lia.
  - assert (2 ^ Z.log2 n = 2 * 2 ^ Z.pred (Z.log2 n)) as Hp.
    { pose proof (Z.log2_pos n ltac:(lia)). rewrite <-Z.pow_succ_r by lia. f_equal. lia. }
    lia.
Qed.

(** ** Trees *)

Inductive tree (A : Type) : Type :=
| Leaf (a : A)
| Node (l r : tree A).
Arguments Leaf {A} a.
Arguments Node {A} l r.

Fixpoint leaves {A} (t : tree A) : list A :=
  match t with
  | Leaf a => [a]
  | Node l r => leaves l ++ leaves r
  end.

Definition count {A} (t : tree A) : Z := zlength (leaves t).

Lemma count_node {A} (l r : tree A) : count (Node l r) = count l + count r.
Proof. unfold count, zlength. simpl. rewrite length_app. lia. Qed.

Lemma count_pos {A} (t : tree A) : 1 ≤ count t.
Proof. induction t; [done|]. rewrite count_node. lia. Qed.

(** The shape of a BLAKE3 tree. *)
Fixpoint shaped {A} (t : tree A) : Prop :=
  match t with
  | Leaf _ => True
  | Node l r => shaped l ∧ shaped r ∧ count l = previous_pow_of_two (count l + count r)
  end.

Lemma shaped_split {A} (l r : tree A) :
  shaped (Node l r) → count (Node l r) < 2 ^ 62 →
  ∃ k, 0 ≤ k < 62 ∧ count l = 2 ^ k ∧ 1 ≤ count r ≤ 2 ^ k.
Proof.
  intros (_ & _ & Hl) Hc. rewrite count_node in Hc.
  pose proof (count_pos l). pose proof (count_pos r).
  destruct (previous_pow_of_two_spec (count l + count r)) as (k & Hk & Hp & Hs); [lia|].
  exists k. split_and!; [lia| |congruence|lia..].
  apply (Z.pow_lt_mono_r_iff 2); lia.
Qed.

(** The tree over a list of blocks. *)
Fixpoint build {A} (fuel : nat) (l : list A) : option (tree A) :=
  match fuel with
  | O => None
  | S fuel =>
      match l with
      | [] => None
      | [a] => Some (Leaf a)
      | _ =>
          let split := Z.to_nat (previous_pow_of_two (zlength l)) in
          left ← build fuel (take split l);
          right ← build fuel (drop split l);
          Some (Node left right)
      end
  end.

(** Every list of blocks has exactly one tree of the shape. *)
Lemma build_shaped {A} (l : list A) fuel :
  l ≠ [] → zlength l < 2 ^ 62 → (length l ≤ fuel)%nat →
  ∃ t, build fuel l = Some t ∧ shaped t ∧ leaves t = l.
Proof.
  revert l. induction fuel as [|fuel IH]; intros [|a l] Hne Hlen Hf; [done..|simpl in Hf; lia|done|].
  simpl build. destruct l as [|b l]; [by exists (Leaf a)|].
  set (m := a :: b :: l) in *. assert (2 ≤ zlength m) as H2 by (unfold zlength, m; simpl; lia).
  clearbody m. destruct (previous_pow_of_two_spec (zlength m)) as (k & Hk & Hp & Hs); [lia|]. rewrite Hp.
  assert (1 ≤ 2 ^ k) by (apply (Z.pow_le_mono_r 2 0); lia). unfold zlength in *.
  destruct (IH (take (Z.to_nat (2 ^ k)) m)) as (t1 & -> & Hs1 & Hl1).
  { intros Heq%(f_equal length). rewrite length_take in Heq. simpl in Heq. lia. }
  { rewrite length_take. lia. }
  { rewrite length_take. lia. }
  destruct (IH (drop (Z.to_nat (2 ^ k)) m)) as (t2 & -> & Hs2 & Hl2).
  { intros Heq%(f_equal length). rewrite length_drop in Heq. simpl in Heq. lia. }
  { rewrite length_drop. lia. }
  { rewrite length_drop. lia. }
  exists (Node t1 t2). simpl. unfold count, zlength. rewrite Hl1, Hl2, <-Nat2Z.inj_add, <-length_app.
  rewrite take_drop, Hp, length_take. split_and!; [done..|lia|done].
Qed.

(** The shape is determined by the number of blocks. *)
Lemma shaped_unique {A} (t1 t2 : tree A) :
  shaped t1 → shaped t2 → leaves t1 = leaves t2 → t1 = t2.
Proof.
  revert t2. induction t1 as [a|l1 IHl r1 IHr]; intros [b|l2 r2]; simpl; intros H1 H2 Heq.
  - congruence.
  - apply (f_equal length) in Heq. rewrite length_app in Heq. simpl in Heq.
    pose proof (count_pos l2). pose proof (count_pos r2). unfold count, zlength in *. lia.
  - apply (f_equal length) in Heq. rewrite length_app in Heq. simpl in Heq.
    pose proof (count_pos l1). pose proof (count_pos r1). unfold count, zlength in *. lia.
  - destruct H1 as (Hl1 & Hr1 & Hc1), H2 as (Hl2 & Hr2 & Hc2).
    pose proof (f_equal zlength Heq) as Hlen. unfold count, zlength in *.
    rewrite !length_app, !Nat2Z.inj_add in Hlen.
    apply app_inj_1 in Heq as [Hl Hr]; [|apply Nat2Z.inj; congruence].
    f_equal; [by apply IHl|by apply IHr].
Qed.

(** ** The array of a tree *)

Section array.
Context {A : Type} (merge : A → A → bool → A).

(** The hash of a node; the flag marks the root of the whole tree. *)
Fixpoint root_of (is_root : bool) (t : tree A) : A :=
  match t with
  | Leaf a => a
  | Node l r => merge (root_of false l) (root_of false r) is_root
  end.

Fixpoint post_order (is_root : bool) (t : tree A) : list A :=
  match t with
  | Leaf a => [a]
  | Node l r => post_order false l ++ post_order false r ++ [root_of is_root t]
  end.

Lemma post_order_length b t : zlength (post_order b t) = 2 * count t - 1.
Proof.
  revert b. unfold zlength. induction t as [a|l IHl r IHr]; intros b; [done|].
  simpl. rewrite !length_app, count_node, !Nat2Z.inj_add, IHl, IHr. simpl. lia.
Qed.

Lemma post_order_last b t : ∃ init, post_order b t = init ++ [root_of b t].
Proof.
  destruct t as [a|l r]; [by exists []|]. simpl. eexists. by rewrite app_assoc.
Qed.

(** The array [arr] holds the tree [t] from position [base] on. *)
Definition embedded (arr : list A) (base : Z) (b : bool) (t : tree A) : Prop :=
  ∃ pre post, arr = pre ++ post_order b t ++ post ∧ zlength pre = base.

Lemma embedded_whole b t : embedded (post_order b t) 0 b t.
Proof. exists [], []. by rewrite app_nil_r. Qed.

Lemma embedded_left arr base b l r :
  embedded arr base b (Node l r) → embedded arr base false l.
Proof.
  intros (pre & post & -> & Hb). simpl. exists pre. eexists. by rewrite <-!app_assoc.
Qed.

Lemma embedded_right arr base b l r :
  embedded arr base b (Node l r) → embedded arr (base + 2 * count l - 1) false r.
Proof.
  intros (pre & post & -> & <-). simpl. exists (pre ++ post_order false l). eexists. split.
  - by rewrite <-!app_assoc.
  - unfold zlength. rewrite length_app, Nat2Z.inj_add. fold (zlength (post_order false l)).
    rewrite post_order_length. unfold zlength. lia.
Qed.

(** The root of a tree is the last of its positions. *)
Lemma embedded_root arr base b t :
  embedded arr base b t → arr !! Z.to_nat (base + 2 * count t - 2) = Some (root_of b t).
Proof.
  intros (pre & post & -> & <-). pose proof (post_order_length b t) as Hlen.
  destruct (post_order_last b t) as [init Hi]. rewrite Hi in *. pose proof (count_pos t).
  unfold zlength in *. rewrite length_app in Hlen. simpl in Hlen.
  rewrite lookup_app_r by lia. rewrite <-app_assoc. by apply list_lookup_middle; lia.
Qed.
End array.

(** ** [flat.rs]: a slice of bytes as a list of hashes *)

Inductive CollectionTryFromError := InvalidNumberOfBytes | InvalidHashCount.

Record FlatHashSlice := mkFlatHashSlice { flat_bytes : Bytes }.

Definition flat_try_from (value : Bytes) : Result FlatHashSlice CollectionTryFromError :=
  if bool_decide (Z.land (zlength value) 31 = 0) then Ok (mkFlatHashSlice value)
  else Err InvalidNumberOfBytes.

Definition flat_from (value : list Bytes) : FlatHashSlice := mkFlatHashSlice (concat value).

Definition flat_len (s : FlatHashSlice) : Z := Z.shiftr (zlength (flat_bytes s)) 5.
Definition flat_is_empty (s : FlatHashSlice) : bool := bool_decide (flat_len s = 0).

(** [None] is the panic out of bounds. *)
Definition flat_get (s : FlatHashSlice) (index : Z) : option Bytes :=
  if bool_decide (flat_len s ≤ index) then None
  else Some (take 32 (drop (Z.to_nat (Z.shiftl index 5)) (flat_bytes s))).

Definition flat_skip (s : FlatHashSlice) (n : Z) : option FlatHashSlice :=
  if bool_decide (n > flat_len s) then None
  else Some (mkFlatHashSlice (drop (Z.to_nat (Z.shiftl n 5)) (flat_bytes s))).

Definition flat_skip_end (s : FlatHashSlice) (n : Z) : option FlatHashSlice :=
  if bool_decide (n > flat_len s) then None
  else Some (mkFlatHashSlice (take (Z.to_nat (Z.shiftl (flat_len s - n) 5)) (flat_bytes s))).

(** The iterator is its remaining slice. *)
Definition flat_next : M FlatHashSlice (option Bytes) :=
  s ← get;
  if flat_is_empty s then mret None
  else
    output ← unwrap (flat_get s 0);
    s' ← unwrap (flat_skip s 1);
    modify (λ _, s');;
    mret (Some output).

Definition flat_nth (n : Z) : M FlatHashSlice (option Bytes) :=
  s ← get;
  s' ← unwrap (flat_skip s (Z.min n (flat_len s)));
  modify (λ _, s');;
  flat_next.

Definition flat_next_back : M FlatHashSlice (option Bytes) :=
  s ← get;
  if flat_is_empty s then mret None
  else
    output ← unwrap (flat_get s (flat_len s - 1));
    s' ← unwrap (flat_skip_end s 1);
    modify (λ _, s');;
    mret (Some output).

Definition flat_nth_back (n : Z) : M FlatHashSlice (option Bytes) :=
  s ← get;
  s' ← unwrap (flat_skip_end s (Z.min n (flat_len s)));
  modify (λ _, s');;
  flat_next_back.

(** ** [hashtree.rs]: a slice of hashes as a tree *)

Record HashTree := mkHashTree { ht_inner : FlatHashSlice }.

Definition ht_try_from (value : FlatHashSlice) : Result HashTree CollectionTryFromError :=
  if is_valid_tree_len (flat_len value) then Ok (mkHashTree value) else Err InvalidHashCount.

Definition ht_inner_len (t : HashTree) : Z := flat_len (ht_inner t).
Definition ht_len (t : HashTree) : Z := Z.shiftr (ht_inner_len t +[64] 1) 1.
Definition ht_root (t : HashTree) : option Bytes := flat_get (ht_inner t) (ht_inner_len t -[64] 1).
Definition ht_nth (t : HashTree) (index : Z) : option Bytes :=
  flat_get (ht_inner t) (tree_index index).
Definition ht_index (t : HashTree) (index : Z) : option Bytes :=
  if bool_decide (ht_len t ≤ index) then None else ht_nth t index.

Record HashTreeIter := mkHashTreeIter {
  it_forward : Z;
  it_backward : Z;
  it_tree : HashTree
}.

Definition hti_new (t : HashTree) : HashTreeIter := mkHashTreeIter 0 (ht_len t) t.
Definition hti_is_done (i : HashTreeIter) : bool := bool_decide (it_backward i ≤ it_forward i).

Definition hti_next : M HashTreeIter (option Bytes) :=
  i ← get;
  if hti_is_done i then mret None
  else
    modify (λ i, mkHashTreeIter (it_forward i +[64] 1) (it_backward i) (it_tree i));;
    hash ← unwrap (ht_nth (it_tree i) (it_forward i));
    mret (Some hash).

Definition hti_nth (n : Z) : M HashTreeIter (option Bytes) :=
  modify (λ i, mkHashTreeIter (it_forward i +[64] n) (it_backward i) (it_tree i));;
  hti_next.

Definition hti_next_back : M HashTreeIter (option Bytes) :=
  i ← get;
  if hti_is_done i then mret None
  else
    modify (λ i, mkHashTreeIter (it_forward i) (it_backward i - 1) (it_tree i));;
    hash ← unwrap (ht_nth (it_tree i) (it_backward i - 1));
    mret (Some hash).

Definition hti_nth_back (n : Z) : M HashTreeIter (option Bytes) :=
  modify (λ i, mkHashTreeIter (it_forward i) (saturating_sub (it_backward i) n) (it_tree i));;
  hti_next.

(** ** [walker.rs]: the walk from the root to a block *)

Inductive Direction := Target | Left | Right.

Inductive Mode := Initial | Proceeding.

Record TreeWalker := mkTreeWalker {
  w_target : Z;
  w_current : Z;
  w_subtree_size : Z
}.

Definition walker_empty : TreeWalker := mkTreeWalker 0 0 0.

Definition walker_initial (target tree_len : Z) : TreeWalker :=
  if bool_decide (tree_len ≤ 1) then walker_empty
  else
    let walker := mkTreeWalker (tree_index target) (tree_len - 1) ((tree_len +[64] 2) / 2) in
    if bool_decide (w_target walker > w_current walker) then walker_empty else walker.

Definition walker_proceeding (target tree_len : Z) : option TreeWalker :=
  if bool_decide (target = 0) then None
  else
    let target_index := tree_index target in
    if bool_decide (tree_len ≤ target_index) || bool_decide (tree_len < 3)
    then Some walker_empty
    else
      let distance_to_ancestor := trailing_zeros target in
      let subtree_size := (tree_len +[64] 2) / 2 in
      let subtree_size := Z.min (wrap 64 (Z.shiftl 1 (distance_to_ancestor mod 64)))
        (subtree_size -[64] target) in
      let ancestor := wrap 64 (target_index + wrap 64 (Z.shiftl subtree_size 1) - 2) in
      if bool_decide (subtree_size ≤ 1) then Some walker_empty
      else Some (mkTreeWalker target_index ancestor subtree_size).

Definition walker_new (mode : Mode) (target tree_len : Z) : option TreeWalker :=
  match mode with
  | Initial => Some (walker_initial target tree_len)
  | Proceeding => walker_proceeding target tree_len
  end.

(** [Iterator::next]: the item and the walker after it. *)
Definition walker_next (w : TreeWalker) : option ((Direction * Z) * TreeWalker) :=
  if bool_decide (w_subtree_size w = 0) || bool_decide (w_target w > w_current w) then None
  else if bool_decide (w_current w = w_target w) then
    Some ((Target, w_current w), mkTreeWalker (w_target w) (w_current w) 0)
  else
    let left_subtree_size := previous_pow_of_two (w_subtree_size w) in
    let right_subtree_size := w_subtree_size w -[64] left_subtree_size in
    let right_subtree_total_nodes := wrap 64 (right_subtree_size * 2 - 1) in
    let left := wrap 64 (w_current w - right_subtree_total_nodes - 1) in
    let right := w_current w -[64] 1 in
    if bool_decide (w_target w ≤ left)
    then Some ((Right, right), mkTreeWalker (w_target w) left left_subtree_size)
    else Some ((Left, left), mkTreeWalker (w_target w) right right_subtree_size).

(** All items of the iterator; [None] when it does not end within the fuel. *)
Fixpoint walk (fuel : nat) (w : TreeWalker) : option (list (Direction * Z)) :=
  match fuel with
  | O => None
  | S fuel =>
      match walker_next w with
      | None => Some []
      | Some (item, w) => items ← walk fuel w; Some (item :: items)
      end
  end.

Definition walker_size_hint (w : TreeWalker) : Z :=
  if bool_decide (w_subtree_size w = 0) then 0
  else 64 - leading_zeros (saturating_sub (w_subtree_size w) 1) + 1.

(** ** The positions of the blocks *)

Section positions.
Context {A : Type} (merge : A → A → bool → A).
Implicit Types t : tree A.

Lemma tree_index_0 : tree_index 0 = 0.
Proof. done. Qed.

(** A block of the right subtree. *)
Lemma right_block k n i :
  0 ≤ k < 62 → 1 ≤ n ≤ 2 ^ k → 2 ^ k ≤ i < 2 ^ k + n →
  0 ≤ i - 2 ^ k < n ∧ tree_index i = 2 * 2 ^ k - 1 + tree_index (i - 2 ^ k).
Proof.
  intros Hk Hn Hi. split; [lia|]. replace i with (2 ^ k + (i - 2 ^ k)) at 1 by lia.
  apply tree_index_pow2_add; lia.
Qed.

Lemma embedded_leaf arr base b t i :
  embedded merge arr base b t → shaped t → count t < 2 ^ 62 → 0 ≤ base → 0 ≤ i < count t →
  arr !! Z.to_nat (base + tree_index i) = leaves t !! Z.to_nat i.
Proof.
  revert base b i. induction t as [a|l IHl r IHr]; intros base b i He Hs Hc Hb Hi.
  - assert (i = 0) as -> by (unfold count, zlength in Hi; simpl in Hi; lia).
    apply embedded_root in He. rewrite tree_index_0. by replace (base + 0) with (base + 2 * 1 - 2) by lia.
  - destruct (shaped_split l r Hs Hc) as (k & Hk & Hl & Hr). destruct Hs as (Hsl & Hsr & _).
    rewrite count_node in Hc, Hi. simpl. pose proof (count_pos r).
    destruct (decide (i < 2 ^ k)) as [Hlt|Hge].
    + rewrite lookup_app_l by (unfold count, zlength in Hl; lia).
      eapply (IHl base false i); [by eapply embedded_left|done|lia..].
    + destruct (right_block k (count r) i) as [Hj Hti]; [lia..|].
      rewrite lookup_app_r by (unfold count, zlength in Hl; lia).
      replace (Z.to_nat i - length (leaves l))%nat with (Z.to_nat (i - 2 ^ k))
        by (unfold count, zlength in Hl; lia).
      rewrite Hti. replace (base + _) with (base + 2 * count l - 1 + tree_index (i - 2 ^ k)) by lia.
      eapply (IHr _ false); [by eapply embedded_right|done|lia..].
Qed.

(** The path from the root of a tree at [base] to its block [i]. *)
Fixpoint path t (base i : Z) : list (Direction * Z) :=
  match t with
  | Leaf _ => [(Target, base)]
  | Node l r =>
      let right := base + 2 * count l - 1 in
      if bool_decide (i < count l)
      then (Right, right + 2 * count r - 2) :: path l base i
      else (Left, base + 2 * count l - 2) :: path r right (i - count l)
  end.

(** One step of the walker at the root of a tree. *)
Lemma walker_next_node (l r : tree A) base i :
  shaped (Node l r) → count (Node l r) < 2 ^ 62 → 0 ≤ base < 2 ^ 62 →
  0 ≤ i < count (Node l r) →
  walker_next (mkTreeWalker (base + tree_index i) (base + 2 * count (Node l r) - 2)
                 (count (Node l r)))
  = Some (if bool_decide (i < count l)
          then ((Right, base + 2 * count l - 1 + 2 * count r - 2),
                mkTreeWalker (base + tree_index i) (base + 2 * count l - 2) (count l))
          else ((Left, base + 2 * count l - 2),
                mkTreeWalker (base + 2 * count l - 1 + tree_index (i - count l))
                  (base + 2 * count l - 1 + 2 * count r - 2) (count r))).
Proof.
  intros Hs Hc Hb Hi. destruct (shaped_split l r Hs Hc) as (k & Hk & Hl & Hr).
  destruct Hs as (_ & _ & Hp). rewrite count_node in *.
  assert (2 ^ k ≤ 2 ^ 61) by (apply Z.pow_le_mono_r; lia).
  pose proof (count_pos l). pose proof (tree_index_bound i ltac:(lia)).
  assert (tree_index i < 2 * (count l + count r) - 2) as Hti.
  { destruct (decide (i = 0)) as [->|]; [rewrite tree_index_0; lia|lia]. }
  unfold walker_next. simpl.
  rewrite !(bool_decide_false) by lia. simpl. rewrite <-Hp.
  replace (count l + count r - count l) with (count r) by lia.
  rewrite (wrap_small 64 (count r)) by (unfold in_width; lia).
  rewrite (wrap_small 64 (count r * 2 - 1)) by (unfold in_width; lia).
  rewrite !wrap_small by (unfold in_width; lia).
  destruct (decide (i < count l)) as [Hlt|Hge].
  - rewrite !bool_decide_true by lia. do 3 f_equal; lia.
  - destruct (right_block k (count r) i) as [Hj Hx]; [lia..|].
    pose proof (tree_index_bound (i - 2 ^ k) ltac:(lia)).
    rewrite !bool_decide_false by lia. rewrite Hx, Hl. do 3 f_equal; lia.
Qed.

(** The walker visits the siblings of the path to the block. *)
Lemma walk_path t base i fuel :
  shaped t → count t < 2 ^ 62 → 0 ≤ base → base + 2 * count t < 2 ^ 62 → 0 ≤ i < count t →
  (length (path t base i) < fuel)%nat →
  walk fuel (mkTreeWalker (base + tree_index i) (base + 2 * count t - 2) (count t))
  = Some (path t base i).
Proof.
  revert base i fuel. induction t as [a|l IHl r IHr]; intros base i fuel Hs Hc Hb Hbc Hi Hf;
    (destruct fuel as [|fuel]; [lia|]).
  - assert (i = 0) as -> by (unfold count, zlength in Hi; simpl in Hi; lia).
    simpl in Hf. destruct fuel as [|fuel]; [lia|]. simpl. unfold walker_next. simpl.
    rewrite tree_index_0. replace (base + 2 * count (Leaf a) - 2) with (base + 0) by (unfold count, zlength; simpl; lia).
    rewrite !bool_decide_false, bool_decide_true by lia. simpl. by rewrite Z.add_0_r.
  - simpl walk. rewrite walker_next_node by (done || lia). rewrite count_node in *.
    destruct Hs as (Hsl & Hsr & _). pose proof (count_pos l). pose proof (count_pos r).
    simpl in *. case_bool_decide; simpl in *.
    + by rewrite IHl by (done || lia).
    + by rewrite IHr by (done || lia).
Qed.

Lemma path_length t base i :
  shaped t → count t < 2 ^ 62 → zlength (path t base i) ≤ Z.log2_up (count t) + 1.
Proof.
  revert base i. unfold zlength. induction t as [a|l IHl r IHr]; intros base i Hs Hc; [done|].
  destruct (shaped_split l r Hs Hc) as (k & Hk & Hl & Hr). destruct Hs as (Hsl & Hsr & _).
  rewrite count_node in *. pose proof (count_pos r).
  assert (Z.log2_up (count l + count r) = k + 1) as ->.
  { apply Z.log2_up_unique; [lia|]. rewrite Z.pow_add_r by lia.
    replace (Z.pred (k + 1)) with k by lia. lia. }
  assert (Z.log2_up (count l) = k) as Hlk by (rewrite Hl; apply Z.log2_up_pow2; lia).
  assert (Z.log2_up (count r) ≤ k) by (apply Z.log2_up_le_pow2; lia).
  simpl. case_bool_decide; simpl.
  - pose proof (IHl base i Hsl ltac:(lia)). lia.
  - pose proof (IHr (base + 2 * count l - 1) (i - count l) Hsr ltac:(lia)). lia.
Qed.

Lemma size_hint_eq target current n :
  1 ≤ n < 2 ^ 63 → walker_size_hint (mkTreeWalker target current n) = Z.log2_up n + 1.
Proof.
  intros Hn. unfold walker_size_hint, saturating_sub, leading_zeros. simpl.
  rewrite bool_decide_false by lia. rewrite Z.max_r by lia.
  destruct (decide (n = 1)) as [->|]; [done|]. rewrite bool_decide_false by lia.
  rewrite Z.log2_up_eqn by lia. rewrite Z.sub_1_r. lia.
Qed.
End positions.

(** ** Trailing zeros *)

Lemma trailing_zeros_double x : 0 < x → trailing_zeros (2 * x) = 1 + trailing_zeros x.
Proof. by destruct x. Qed.

Lemma trailing_zeros_odd x : 0 ≤ x → trailing_zeros (2 * x + 1) = 0.
Proof. by destruct x. Qed.

Lemma trailing_zeros_unique a m : 0 ≤ a → 0 ≤ m → trailing_zeros (2 ^ a * (2 * m + 1)) = a.
Proof.
  intros Ha Hm. pattern a. apply natlike_ind; [|clear a Ha|done].
  { rewrite Z.mul_1_l. by apply trailing_zeros_odd. }
  intros a Ha IH. rewrite Z.pow_succ_r, <-Z.mul_assoc, trailing_zeros_double, IH by lia. lia.
Qed.

Lemma trailing_zeros_spec x :
  0 < x → ∃ m, 0 ≤ m ∧ 0 ≤ trailing_zeros x ∧ x = 2 ^ trailing_zeros x * (2 * m + 1).
Proof.
  induction (Z.lt_wf 0 x) as [x _ IH]. intros Hx.
  destruct (even_odd x) as (y & Hy & [->| ->]); [lia|..].
  - destruct (IH y) as (m & Hm & Ht & Heq); [lia..|]. exists m.
    rewrite trailing_zeros_double by lia. rewrite Z.pow_add_r by lia. lia.
  - exists y. rewrite trailing_zeros_odd by done. lia.
Qed.

(** Below a power of two the trailing zeros leave room up to the power. *)
Lemma trailing_zeros_below k x :
  0 ≤ k → 0 < x < 2 ^ k →
  trailing_zeros x < k ∧ x + 2 ^ trailing_zeros x ≤ 2 ^ k ∧
  trailing_zeros (2 ^ k + x) = trailing_zeros x.
Proof.
  intros Hk Hx. destruct (trailing_zeros_spec x) as (m & Hm & Ht & Heq); [lia|].
  set (a := trailing_zeros x) in *.
  assert (1 ≤ 2 ^ a) by (apply (Z.pow_le_mono_r 2 0); lia).
  assert (a < k) as Hak by (apply (Z.pow_lt_mono_r_iff 2); nia).
  assert (2 ^ k = 2 ^ a * (2 * 2 ^ (k - a - 1))) as Hp.
  { rewrite <-Z.pow_succ_r, <-Z.pow_add_r by lia. f_equal. lia. }
  clearbody a. rewrite Hp in *. set (B := 2 ^ (k - a - 1)) in *.
  assert (2 * m + 1 < 2 * B) by (apply (Z.mul_lt_mono_pos_l (2 ^ a)); lia).
  split_and!; [done|nia|].
  replace (2 ^ a * (2 * B) + x) with (2 ^ a * (2 * (B + m) + 1)) by lia.
  apply trailing_zeros_unique; lia.
Qed.

Lemma trailing_zeros_pow2 k : 0 ≤ k → trailing_zeros (2 ^ k) = k.
Proof. intros Hk. rewrite <-(trailing_zeros_unique k 0) at 2 by lia. f_equal. lia. Qed.

(** ** Continuing a walk *)

Section proceeding.
Context {A : Type} (merge : A → A → bool → A).
Implicit Types t : tree A.

(** The largest subtree whose first block is [i], and its position. *)
Fixpoint next_tree t (base i : Z) : option (tree A * Z) :=
  match t with
  | Leaf _ => None
  | Node l r =>
      if bool_decide (i < count l) then next_tree l base i
      else if bool_decide (i = count l) then Some (r, base + 2 * count l - 1)
      else next_tree r (base + 2 * count l - 1) (i - count l)
  end.

Lemma next_tree_spec t base i :
  shaped t → count t < 2 ^ 62 → 0 ≤ base → 0 < i < count t →
  ∃ s, next_tree t base i = Some (s, base + tree_index i) ∧ shaped s ∧
    count s = Z.min (2 ^ trailing_zeros i) (count t - i).
Proof.
  revert base i. induction t as [a|l IHl r IHr]; intros base i Hs Hc Hb Hi.
  { unfold count, zlength in Hi. simpl in Hi. lia. }
  destruct (shaped_split l r Hs Hc) as (k & Hk & Hl & Hr). destruct Hs as (Hsl & Hsr & _).
  rewrite count_node in *. pose proof (count_pos r). simpl.
  destruct (decide (i < count l)) as [Hlt|Hge].
  - rewrite bool_decide_true by done.
    destruct (IHl base i) as (s & -> & Hs & Hcs); [done|lia..|]. exists s.
    destruct (trailing_zeros_below k i) as (_ & Hroom & _); [lia..|]. split_and!; [done..|]. lia.
  - rewrite bool_decide_false by lia.
    destruct (right_block k (count r) i) as [Hj Hti]; [lia..|].
    case_bool_decide as Heq.
    + exists r. split_and!; [|done|].
      * rewrite Hti, Heq, Hl, Z.sub_diag, tree_index_0. do 2 f_equal. lia.
      * rewrite Heq, Hl, trailing_zeros_pow2 by lia. lia.
    + destruct (IHr (base + 2 * count l - 1) (i - count l)) as (s & -> & Hs & Hcs); [done|lia..|].
      exists s. split_and!; [|done|].
      * rewrite Hti, Hl. do 2 f_equal. lia.
      * destruct (trailing_zeros_below k (i - 2 ^ k)) as (_ & _ & Htz); [lia..|].
        replace (2 ^ k + (i - 2 ^ k)) with i in Htz by lia. rewrite Htz, <-Hl. lia.
Qed.

(** The number of blocks of a tree from the length of its array. *)
Lemma half_tree_len n : 1 ≤ n < 2 ^ 62 → ((2 * n - 1) +[64] 2) / 2 = n.
Proof.
  intros Hn. rewrite wrap_small by (unfold in_width; lia).
  replace (2 * n - 1 + 2) with (1 + n * 2) by lia. by rewrite Z.div_add by lia.
Qed.

(** A walk finds its way without the tree: the walker, which only knows the
    length of the array and the number of a block, visits exactly the positions
    of the siblings on the path from the root of the tree to that block, and at
    last the block, within the number of steps its size hint announces.  When
    the block before was visited already, it starts at the largest subtree that
    begins with the block, and visits nothing when that is the block itself. *)
Lemma walker_visits_path mode t i :
  shaped t → count t < 2 ^ 60 → 0 ≤ i < count t → (mode = Proceeding → i ≠ 0) →
  ∃ w items, walker_new mode i (2 * count t - 1) = Some w ∧
    walk (S (Z.to_nat (walker_size_hint w))) w = Some items ∧
    zlength items ≤ walker_size_hint w ≤ 64 ∧
    match mode with
    | Initial => items = if bool_decide (count t = 1) then [] else path t 0 i
    | Proceeding => ∃ s, next_tree t 0 i = Some (s, tree_index i) ∧
        items = if bool_decide (count s = 1) then [] else path s (tree_index i) 0
    end.
Proof.
  intros Hs Hc Hi Hm. pose proof (tree_index_bound i ltac:(lia)) as Hti.
  destruct mode; unfold walker_new.
  - unfold walker_initial. destruct (decide (count t = 1)) as [H1|].
    { rewrite H1. rewrite !bool_decide_true by lia. exists walker_empty, []. done. }
    rewrite (bool_decide_false (_ ≤ 1)) by lia. cbn [w_target w_current].
    rewrite (bool_decide_false (_ > _)) by lia. rewrite half_tree_len by lia.
    exists (mkTreeWalker (tree_index i) (2 * count t - 1 - 1) (count t)), (path t 0 i). rewrite size_hint_eq by lia.
    pose proof (path_length t 0 i Hs ltac:(lia)) as Hlen. unfold zlength in *.
    assert (Z.log2_up (count t) ≤ 60) by (apply Z.log2_up_le_pow2; lia).
    split_and!; [done| |lia|lia|by rewrite bool_decide_false].
    replace (2 * count t - 1 - 1) with (0 + 2 * count t - 2) by lia.
    apply (walk_path t 0 i); [done|lia..].
  - specialize (Hm eq_refl). unfold walker_proceeding.
    destruct (next_tree_spec t 0 i) as (s & Hn & Hss & Hcs); [done|lia..|].
    rewrite Hn. rewrite !(bool_decide_false (i = 0)), !(bool_decide_false (_ ≤ tree_index i)),
      (bool_decide_false (_ < 3)) by lia. cbn [orb].
    destruct (trailing_zeros_below 60 i) as (Ht60 & Hroom & _); [lia..|].
    destruct (trailing_zeros_spec i) as (_ & _ & Ht0 & _); [lia|].
    assert (2 ^ trailing_zeros i ≤ 2 ^ 60) by (apply Z.pow_le_mono_r; lia).
    assert (1 ≤ 2 ^ trailing_zeros i) by (apply (Z.pow_le_mono_r 2 0); lia).
    rewrite Z.mod_small, half_tree_len, Z.shiftl_1_l by lia.
    rewrite (wrap_small 64 (2 ^ _)), (wrap_small 64 (_ - i)) by (unfold in_width; lia).
    rewrite <-Hcs, Z.shiftl_mul_pow2 by lia. pose proof (count_pos s) as Hpos.
    rewrite (wrap_small 64 (count s * _)) by (unfold in_width; lia).
    rewrite wrap_small by (unfold in_width; lia).
    case_bool_decide as H1.
    + exists walker_empty, []. split_and!; [done..|]. exists s. split; [done|].
      by rewrite bool_decide_true by lia.
    + eexists (mkTreeWalker (tree_index i) (tree_index i + count s * 2 ^ 1 - 2) (count s)),
        (path s (tree_index i) 0).
      rewrite size_hint_eq by lia.
      pose proof (path_length s (tree_index i) 0 Hss ltac:(lia)) as Hlen. unfold zlength in *.
      assert (Z.log2_up (count s) ≤ 60) by (apply Z.log2_up_le_pow2; lia).
      split_and!; [done| |lia|lia|exists s; by rewrite bool_decide_false by lia].
      rewrite <-(walk_path s (tree_index i) 0 (S (Z.to_nat (Z.log2_up (count s) + 1))))
        by (done || lia).
      f_equal. f_equal; [by rewrite tree_index_0, Z.add_0_r|lia].
Qed.
End proceeding.

(** The walker does not notice a block that the tree does not have: in a tree of
    seven blocks the number 7 leads to an inner node. *)
Lemma walk_out_of_range :
  walk 9 (walker_initial 7 13) = Some [(Left, 6); (Target, 11)].
Proof. by vm_compute. Qed.

(** ** Hash trees over slices *)

Definition is_hash (h : Bytes) : Prop := length h = 32%nat.

Lemma concat_hashes_length (arr : list Bytes) : Forall is_hash arr → length (concat arr) = (32 * length arr)%nat.
Proof.
  induction 1 as [|h arr Hh Hall IH]; [done|]. simpl. rewrite length_app, IH, Hh. lia.
Qed.

Lemma flat_len_from arr : Forall is_hash arr → flat_len (flat_from arr) = zlength arr.
Proof.
  intros Hall. unfold flat_len, zlength. simpl. rewrite concat_hashes_length by done.
  rewrite Z.shiftr_div_pow2 by lia. rewrite Nat2Z.inj_mul, Z.mul_comm. by apply Z.div_mul.
Qed.

Lemma flat_get_from arr index :
  Forall is_hash arr → 0 ≤ index → flat_get (flat_from arr) index = arr !! Z.to_nat index.
Proof.
  intros Hall Hi. unfold flat_get. rewrite flat_len_from by done. unfold zlength.
  case_bool_decide; [by rewrite lookup_ge_None_2 by lia|].
  destruct (lookup_lt_is_Some_2 arr (Z.to_nat index)) as [h Hh]; [lia|]. rewrite Hh. f_equal.
  unfold flat_from, flat_bytes. pose proof (take_drop_middle arr _ _ Hh) as Harr.
  rewrite <-Harr in Hall. apply Forall_app in Hall as [H1 [H2 _]%Forall_cons].
  assert (length (concat (take (Z.to_nat index) arr)) = Z.to_nat (Z.shiftl index 5)) as Hd.
  { rewrite concat_hashes_length, length_take, Z.shiftl_mul_pow2 by (done || lia). lia. }
  rewrite <-Hd. rewrite <-Harr at 2. rewrite concat_app, drop_app_length. simpl.
  rewrite <-H2. apply take_app_length.
Qed.

Section hashtree.
Context (merge : Bytes → Bytes → bool → Bytes).
Implicit Types t : tree Bytes.

(** The slice that holds the array of [t]. *)
Definition slice_of (b : bool) t : FlatHashSlice := flat_from (post_order merge b t).

Definition hashes_ok t : Prop := ∀ b, Forall is_hash (post_order merge b t).

Lemma slice_len b t : hashes_ok t → flat_len (slice_of b t) = 2 * count t - 1.
Proof. intros Hok. unfold slice_of. by rewrite flat_len_from, post_order_length. Qed.

(** A slice that holds the array of a tree is accepted, and shows its number of
    blocks, its root and its blocks; an index out of range panics. *)
Lemma hash_tree_spec b t :
  shaped t → count t < 2 ^ 60 → hashes_ok t →
  ∃ h, ht_try_from (slice_of b t) = Ok h ∧ ht_inner h = slice_of b t ∧ ht_len h = count t ∧
    ht_root h = Some (root_of merge b t) ∧ ∀ i, 0 ≤ i → ht_index h i = leaves t !! Z.to_nat i.
Proof.
  intros Hs Hc Hok. pose proof (slice_len b t Hok) as Hlen. pose proof (count_pos t).
  assert (2 * count t - 1 +[64] 1 = count t * 2) as Hw
    by (rewrite wrap_small by (unfold in_width; lia); lia).
  assert (ht_len (mkHashTree (slice_of b t)) = count t) as Hl.
  { unfold ht_len, ht_inner_len. simpl. rewrite Hlen, Hw, Z.shiftr_div_pow2 by lia.
    by apply Z.div_mul. }
  exists (mkHashTree (slice_of b t)). split_and!; [|done|done| |].
  - unfold ht_try_from, is_valid_tree_len. rewrite Hlen, Hw. rewrite bool_decide_true; [done|].
    rewrite (Z.land_ones _ 1) by lia. by apply Z.mod_mul.
  - unfold ht_root, ht_inner_len. simpl. rewrite Hlen, wrap_small by (unfold in_width; lia).
    unfold slice_of. rewrite flat_get_from by (done || lia).
    pose proof (embedded_root merge _ 0 b t (embedded_whole merge b t)) as Hr.
    by replace (2 * count t - 1 - 1) with (0 + 2 * count t - 2) by lia.
  - intros i Hi. unfold ht_index. rewrite Hl. case_bool_decide.
    { symmetry. apply lookup_ge_None_2. unfold count, zlength in *. lia. }
    pose proof (tree_index_bound i ltac:(lia)). unfold ht_nth, slice_of. simpl.
    rewrite flat_get_from by (done || lia).
    rewrite <-(embedded_leaf merge _ 0 b t i (embedded_whole merge b t)) by (done || lia).
    by rewrite Z.add_0_l.
Qed.

(** The iterator yields the next block from the front and from the back. *)
Lemma hti_next_spec b t f k :
  shaped t → count t < 2 ^ 60 → hashes_ok t → 0 ≤ f < k → k ≤ count t →
  let it := mkHashTreeIter f k (mkHashTree (slice_of b t)) in
  hti_next it = Some (leaves t !! Z.to_nat f, mkHashTreeIter (f + 1) k (it_tree it)) ∧
  hti_next_back it = Some (leaves t !! Z.to_nat (k - 1), mkHashTreeIter f (k - 1) (it_tree it)).
Proof.
  intros Hs Hc Hok Hf Hk it.
  assert (∀ i, 0 ≤ i < count t → ht_nth (it_tree it) i = leaves t !! Z.to_nat i ∧
    is_Some (leaves t !! Z.to_nat i)) as Hi.
  { intros i Hi. destruct (hash_tree_spec b t Hs Hc Hok) as (h & Hh & Hin & Hl & _ & Hix).
    specialize (Hix i ltac:(lia)). unfold ht_index in Hix. rewrite Hl, bool_decide_false in Hix by lia.
    assert (it_tree it = h) as -> by (destruct h; simpl in Hin; by subst). split; [done|].
    apply lookup_lt_is_Some_2. unfold count, zlength in *. lia. }
  unfold hti_next, hti_next_back, hti_is_done. unfold_M. simpl.
  rewrite !bool_decide_false by lia.
  destruct (Hi f ltac:(lia)) as [Hf1 [x Hx]], (Hi (k - 1) ltac:(lia)) as [Hk1 [y Hy]].
  simpl in Hf1, Hk1. rewrite Hf1, Hk1, Hx, Hy. simpl.
  by rewrite (wrap_small 64 (f + 1)) by (unfold in_width; lia).
Qed.

(** [nth_back] takes its item from the front. *)
Lemma nth_back_from_front b t n :
  shaped t → 2 ≤ count t < 2 ^ 60 → hashes_ok t → 0 ≤ n < count t →
  ∃ it, hti_nth_back n (hti_new (mkHashTree (slice_of b t))) = Some (leaves t !! 0%nat, it).
Proof.
  intros Hs Hc Hok Hn.
  destruct (hash_tree_spec b t Hs ltac:(lia) Hok) as (h & _ & Hin & Hl & _).
  assert (mkHashTree (slice_of b t) = h) as -> by (destruct h; simpl in Hin; by subst).
  unfold hti_nth_back, hti_new. rewrite Hl. eexists.
  destruct (hti_next_spec b t 0 (saturating_sub (count t) n) Hs) as [Hnext _];
    [lia|done|unfold saturating_sub; lia..|].
  assert (mkHashTree (slice_of b t) = h) as Heq by (destruct h; simpl in Hin; by subst).
  rewrite Heq in Hnext. unfold_M. exact Hnext.
Qed.
End hashtree.
