(* ===== verification/ProofBuf.v ===== *)
(** * ProofBuf: proofs as bytes

    [lib/b3fs/src/stream/encoder.rs], [lib/b3fs/src/stream/buffer.rs] and
    [lib/b3fs/src/stream/iter.rs].  The encoder receives the hashes of a walk
    from the root to a block and fills a buffer from right to left, eight hashes
    behind one byte of signs; the iterator reads the buffer from left to right,
    from the block to the root.  Reading what was written gives the walk
    backwards. *)

From S2P Require Import Prelude Types Codec HashTree.
From stdpp Require Import base list.
From Stdlib Require Import ZArith Lia.
Open Scope Z_scope.

(** ** [encoder.rs] *)

Record ProofEncoder := mkProofEncoder {
  pe_cursor : Z;
  pe_size : Z;
  pe_buffer : Bytes
}.

Record ProofBuf := mkProofBuf {
  pb_index : Z;
  pb_buffer : Bytes
}.

(** Reading and writing a buffer; out of bounds is a panic. *)
Definition read_at (i : Z) (buffer : Bytes) : option Z :=
  if bool_decide (0 ≤ i) then buffer !! Z.to_nat i else None.

Definition write_at (i : Z) (bytes buffer : Bytes) : option Bytes :=
  if bool_decide (0 ≤ i) && bool_decide (i + zlength bytes ≤ zlength buffer)
  then Some (take (Z.to_nat i) buffer ++ bytes ++ drop (Z.to_nat i + length bytes) buffer)
  else None.

Definition encoder_new (n : Z) : ProofEncoder :=
  let capacity := n * 32 + (n + 7) / 8 in
  mkProofEncoder capacity 0 (replicate (Z.to_nat capacity) 0).

Definition encoder_insert (direction : Direction) (hash : Bytes) : M ProofEncoder unit :=
  e ← get;
  if negb (bool_decide (pe_cursor e > 0)) then panic
  else
    sign ← unwrap (read_at (pe_cursor e - 1) (pe_buffer e));
    let cursor := pe_cursor e -[64] 32 in
    buffer ← unwrap (write_at cursor hash (pe_buffer e));
    let sign := match direction with
                | Left => Z.lor sign (Z.shiftl 1 (Z.land (pe_size e) 7))
                | _ => sign
                end in
    let size := pe_size e + 1 in
    buffer ← unwrap (write_at (cursor -[64] 1) [sign] buffer);
    if bool_decide (Z.land size 7 = 0) then
      let cursor := cursor - 1 in
      if bool_decide (cursor > 0) then
        buffer ← unwrap (write_at (cursor - 1) [0] buffer);
        modify (λ _, mkProofEncoder cursor size buffer)
      else modify (λ _, mkProofEncoder cursor size buffer)
    else modify (λ _, mkProofEncoder cursor size buffer).

Definition encoder_finalize (e : ProofEncoder) : option ProofBuf :=
  if bool_decide (Z.land (pe_size e) 7 > 0) then
    sign ← read_at (pe_cursor e - 1) (pe_buffer e);
    buffer ← write_at (pe_cursor e - 1)
      [wrap 8 (Z.shiftl sign (8 - Z.land (pe_size e) 7))] (pe_buffer e);
    Some (mkProofBuf (pe_cursor e - 1) buffer)
  else Some (mkProofBuf (pe_cursor e) (pe_buffer e)).

(** ** [buffer.rs] *)

Definition pb_as_slice (p : ProofBuf) : Bytes := drop (Z.to_nat (pb_index p)) (pb_buffer p).
Definition pb_len (p : ProofBuf) : Z := zlength (pb_buffer p) - pb_index p.
Definition pb_is_empty (p : ProofBuf) : bool := bool_decide (pb_len p = 0).

(** [ProofBuf::try_from]. *)
Definition pb_try_from (value : Bytes) : Result ProofBuf unit :=
  if is_valid_proof_len (zlength value) then Ok (mkProofBuf 0 value) else Err tt.

(** The hashes of a walk, looked up in the array and inserted in its order. *)
Definition insert_items (t : HashTree) (items : list (Direction * Z)) : M ProofEncoder unit :=
  for_each (λ '(direction, index),
    hash ← unwrap (flat_get (ht_inner t) index);
    encoder_insert direction hash) items.

Definition pb_new_internal (t : HashTree) (walker : TreeWalker) : option ProofBuf :=
  let size := walker_size_hint walker in
  items ← walk (S (Z.to_nat size)) walker;
  '(_, encoder) ← insert_items t items (encoder_new size);
  encoder_finalize encoder.

Definition pb_new (mode : Mode) (t : HashTree) (block : Z) : option ProofBuf :=
  walker ← walker_new mode block (ht_inner_len t);
  pb_new_internal t walker.

(** [HashTree::generate_proof]. *)
Definition generate_proof (t : HashTree) (mode : Mode) (index : Z) : option ProofBuf :=
  pb_new mode t index.

(** ** [iter.rs] *)

Definition SEGMENT_SIZE : Z := 32 * 8 + 1.

Record ProofBufIter := mkProofBufIter {
  pi_buffer : Bytes;
  pi_segment : Bytes;
  pi_sign : Z
}.

(** [None] is the panic on an invalid length. *)
Definition iter_new (buffer : Bytes) : option ProofBufIter :=
  if negb (is_valid_proof_len (zlength buffer)) then None
  else
    match buffer with
    | [] => Some (mkProofBufIter [] [] 0)
    | sign :: _ =>
        let read := zlength buffer mod SEGMENT_SIZE in
        let read := if bool_decide (read = 0) then SEGMENT_SIZE else read in
        Some (mkProofBufIter (drop (Z.to_nat read) buffer)
                (drop 1 (take (Z.to_nat read) buffer)) sign)
    end.

Definition iter_is_done (i : ProofBufIter) : bool := bool_decide (pi_segment i = []).

Definition iter_next (i : ProofBufIter) : option ((bool * Bytes) * ProofBufIter) :=
  match pi_segment i with
  | [] => None
  | _ =>
      let hash := take 32 (pi_segment i) in
      let should_flip := negb (bool_decide (Z.land (pi_sign i) 128 = 0)) in
      let segment := drop 32 (pi_segment i) in
      let sign := wrap 8 (Z.shiftl (pi_sign i) 1) in
      Some ((should_flip, hash),
        match segment, pi_buffer i with
        | [], sign :: _ =>
            mkProofBufIter (drop (Z.to_nat SEGMENT_SIZE) (pi_buffer i))
              (drop 1 (take (Z.to_nat SEGMENT_SIZE) (pi_buffer i))) sign
        | _, _ => mkProofBufIter (pi_buffer i) segment sign
        end)
  end.

(** All items; [None] when the iterator does not end within the fuel. *)
Fixpoint iter_items (fuel : nat) (i : ProofBufIter) : option (list (bool * Bytes)) :=
  match iter_next i with
  | None => Some []
  | Some (item, i) =>
      match fuel with
      | O => None
      | S fuel => items ← iter_items fuel i; Some (item :: items)
      end
  end.

(** The items of a proof; every item takes more than 32 bytes. *)
Definition proof_items (proof : Bytes) : option (list (bool * Bytes)) :=
  i ← iter_new proof; iter_items (length proof) i.

(** ** The layout of a proof *)

(** An item: whether the hash is on the left, and the hash. *)
Abbreviation Item := (bool * Bytes)%type (only parsing).

Definition flip_of (d : Direction) : bool := match d with Left => true | _ => false end.

(** The sign of the first of [m] items is bit [m - 1]. *)
Fixpoint sign_of (p : list Item) : Z :=
  match p with
  | [] => 0
  | (flip, _) :: p => (if flip then 2 ^ zlength p else 0) + sign_of p
  end.

Definition hashes (p : list Item) : Bytes := concat (snd <$> p).
Definition segment (g : list Item) : Bytes := sign_of g :: hashes g.
Definition segments (gs : list (list Item)) : Bytes := concat (segment <$> gs).

(** The items inserted last, fewer than eight, and the full groups of eight. *)
Definition pack_step (s : list Item * list (list Item)) (x : Item)
    : list Item * list (list Item) :=
  let '(p, gs) := s in
  if bool_decide (length p = 7%nat) then ([], (x :: p) :: gs) else (x :: p, gs).

Definition pack (xs : list Item) : list Item * list (list Item) := foldl pack_step ([], []) xs.

Definition items_ok (p : list Item) : Prop := Forall (λ x, is_hash x.2) p.

Lemma zlength_app {A} (l k : list A) : zlength (l ++ k) = zlength l + zlength k.
Proof. unfold zlength. rewrite length_app. lia. Qed.

Lemma zlength_cons {A} (x : A) l : zlength (x :: l) = 1 + zlength l.
Proof. unfold zlength. simpl. lia. Qed.

Lemma zlength_nonneg {A} (l : list A) : 0 ≤ zlength l.
Proof. unfold zlength. lia. Qed.

Lemma sign_of_bound p : 0 ≤ sign_of p < 2 ^ zlength p.
Proof.
  induction p as [|[f h] p IH]; [done|]. simpl. rewrite zlength_cons.
  pose proof (zlength_nonneg p). rewrite Z.pow_add_r by lia. destruct f; lia.
Qed.

Lemma hashes_length p : items_ok p → zlength (hashes p) = 32 * zlength p.
Proof.
  intros Hok. unfold hashes, zlength. rewrite concat_hashes_length, length_fmap; [lia|].
  by apply Forall_fmap.
Qed.

Lemma pack_snoc xs x : pack (xs ++ [x]) = pack_step (pack xs) x.
Proof. unfold pack. by rewrite foldl_snoc. Qed.

Lemma pack_spec xs p gs :
  pack xs = (p, gs) →
  reverse xs = p ++ concat gs ∧ (length p < 8)%nat ∧ Forall (λ g, length g = 8%nat) gs.
Proof.
  revert p gs. induction xs as [|x xs IH] using rev_ind; intros p gs Hp.
  { unfold pack in Hp. simplify_eq/=. split_and!; [done|lia|constructor]. }
  rewrite pack_snoc in Hp. destruct (pack xs) as [p0 gs0].
  destruct (IH p0 gs0 eq_refl) as (Hr & Hlen & Hall). rewrite reverse_snoc, Hr.
  unfold pack_step in Hp. case_bool_decide; simplify_eq/=; split_and!; try done; try lia.
  constructor; [simpl; congruence|done].
Qed.

Lemma concat_length_8 (gs : list (list Item)) :
  Forall (λ g, length g = 8%nat) gs → length (concat gs) = (8 * length gs)%nat.
Proof. induction 1 as [|g gs Hg Hall IH]; [done|]. simpl. rewrite length_app, IH. lia. Qed.

(** ** Writing *)

Lemma write_at_spec a bs c d :
  length c = length bs → write_at (zlength a) bs (a ++ c ++ d) = Some (a ++ bs ++ d).
Proof.
  intros Hc. unfold write_at, zlength. rewrite !length_app, !bool_decide_true by lia. simpl.
  rewrite Nat2Z.id, take_app_length. do 3 f_equal.
  rewrite app_assoc, drop_app_length'; [done|]. rewrite length_app. lia.
Qed.

Lemma read_at_spec a x d : read_at (zlength a) (a ++ x :: d) = Some x.
Proof.
  unfold read_at, zlength. rewrite bool_decide_true by lia. rewrite Nat2Z.id.
  by apply list_lookup_middle.
Qed.

Lemma land_7 q m : 0 ≤ q → 0 ≤ m < 8 → Z.land (8 * q + m) 7 = m.
Proof.
  intros Hq Hm. rewrite (Z.land_ones _ 3) by lia. change (2 ^ 3) with 8.
  rewrite Z.add_comm, Z.mul_comm, Z.mod_add by lia. by apply Z.mod_small.
Qed.

(** The state of the encoder of capacity [n] after inserting [xs]. *)
Definition encodes (n : Z) (xs : list Item) (e : ProofEncoder) : Prop :=
  ∃ p gs pre, pack xs = (p, gs) ∧ pe_size e = zlength xs ∧
    pe_buffer e = pre ++ hashes p ++ segments gs ∧
    pe_cursor e = zlength pre ∧
    pe_cursor e = (n - zlength xs) * 32 + (n + 7) / 8 - zlength gs ∧
    (p = [] ∧ pre = [] ∨ ∃ pre', pre = pre' ++ [sign_of p]).

Lemma encodes_new n : 0 ≤ n → encodes n [] (encoder_new n).
Proof.
  intros Hn. unfold encoder_new.
  assert (0 ≤ (n + 7) / 8) by (apply Z.div_pos; lia).
  exists [], [], (replicate (Z.to_nat (n * 32 + (n + 7) / 8)) 0). simpl. unfold hashes, segments. simpl.
  unfold zlength. rewrite length_replicate. split_and!; [done|done|by rewrite app_nil_r|simpl; lia..|].
  destruct (Z.to_nat _) as [|m]; [by left|]. right. exists (replicate m 0).
  rewrite <-replicate_S_end. done.
Qed.

(** The number of the items inserted, by groups. *)
Lemma pack_count xs p gs :
  pack xs = (p, gs) → zlength xs = 8 * zlength gs + zlength p ∧ zlength p < 8.
Proof.
  intros Hp. destruct (pack_spec xs p gs Hp) as (Hr & Hlen & Hall).
  apply (f_equal length) in Hr. rewrite length_reverse, length_app, concat_length_8 in Hr by done.
  unfold zlength. lia.
Qed.

(** There is room for one more item before the capacity is used. *)
Lemma encodes_room n xs e :
  encodes n xs e → zlength xs < n →
  ∃ p gs pre y c, pack xs = (p, gs) ∧ pe_size e = 8 * zlength gs + zlength p ∧
    pe_buffer e = (pre ++ [y]) ++ (c ++ [sign_of p]) ++ hashes p ++ segments gs ∧
    length c = 31%nat ∧ pe_cursor e = zlength pre + 33 ∧
    zlength pre + 33 = (n - zlength xs) * 32 + (n + 7) / 8 - zlength gs.
Proof.
  intros (p & gs & pre & Hp & Hsize & Hbuf & Hcur & Hroom & Hpre) Hn.
  destruct (pack_count xs p gs Hp) as [Hcount Hlt].
  pose proof (Z.div_mod (n + 7) 8). pose proof (Z.mod_pos_bound (n + 7) 8).
  pose proof (zlength_nonneg gs). pose proof (zlength_nonneg p).
  destruct Hpre as [[_ ->]|[pre' ->]]; [change (zlength []) with 0 in Hcur; lia|].
  rewrite zlength_app in Hcur. change (zlength [sign_of p]) with 1 in Hcur.
  assert (32 ≤ length pre')%nat as Hl by (unfold zlength in Hcur; lia).
  destruct (lookup_lt_is_Some_2 pre' (length pre' - 32)) as [y Hy]; [lia|].
  exists p, gs, (take (length pre' - 32) pre'), y, (drop (S (length pre' - 32)) pre').
  split_and!; [done|lia| | | |].
  - rewrite Hbuf. rewrite <-(take_drop_middle pre' _ y Hy) at 1. by rewrite <-!app_assoc.
  - rewrite length_drop. lia.
  - unfold zlength in *. rewrite length_take. lia.
  - unfold zlength in *. rewrite length_take. lia.
Qed.

Lemma sign_of_insert d h p :
  zlength p < 8 →
  match d with Left => Z.lor (sign_of p) (Z.shiftl 1 (zlength p)) | _ => sign_of p end
  = sign_of ((flip_of d, h) :: p).
Proof.
  intros Hp. pose proof (sign_of_bound p). pose proof (zlength_nonneg p).
  destruct d; simpl; [lia| |lia]. rewrite Z.shiftl_1_l, Z.lor_comm. by apply lor_pow2_add.
Qed.

Lemma hashes_cons f h p : hashes ((f, h) :: p) = h ++ hashes p.
Proof. done. Qed.

Lemma segments_cons g gs : segments (g :: gs) = sign_of g :: hashes g ++ segments gs.
Proof. done. Qed.

(** The byte before the cursor is the next sign byte, cleared if it exists. *)
Definition cleared (pre : Bytes) : Bytes :=
  match pre with [] => [] | _ => take (length pre - 1) pre ++ [0] end.

Lemma cleared_length pre : zlength (cleared pre) = zlength pre.
Proof.
  unfold cleared, zlength. destruct pre; [done|]. rewrite length_app, length_take. simpl. lia.
Qed.

Lemma cleared_shape pre : cleared pre = [] ∨ ∃ pre', cleared pre = pre' ++ [0].
Proof. destruct pre; [by left|]. right. by eexists. Qed.

Lemma write_cleared pre d :
  pre ≠ [] → write_at (zlength pre - 1) [0] (pre ++ d) = Some (cleared pre ++ d).
Proof.
  destruct pre as [|z pre _] using rev_ind; [done|]. intros _. rewrite zlength_app.
  change (zlength [z]) with 1. replace (zlength pre + 1 - 1) with (zlength pre) by lia.
  rewrite <-app_assoc, write_at_spec by done. f_equal. unfold cleared.
  destruct (pre ++ [z]) eqn:E; [by destruct pre|]. rewrite <-E, length_app. simpl.
  rewrite Nat.add_sub, take_app_length. by rewrite <-app_assoc.
Qed.

(** What an insertion does to the buffer. *)
Lemma encoder_insert_run e d h p q pre y c rest :
  is_hash h → length c = 31%nat → 0 ≤ q → zlength p < 8 → zlength pre < 2 ^ 60 →
  pe_cursor e = zlength pre + 33 → pe_size e = 8 * q + zlength p →
  pe_buffer e = (pre ++ [y]) ++ (c ++ [sign_of p]) ++ rest →
  encoder_insert d h e = Some (tt,
    let sign := sign_of ((flip_of d, h) :: p) in
    if bool_decide (zlength p = 7)
    then mkProofEncoder (zlength pre) (pe_size e + 1) (cleared pre ++ sign :: h ++ rest)
    else mkProofEncoder (zlength pre + 1) (pe_size e + 1) (pre ++ sign :: h ++ rest)).
Proof.
  intros Hh Hc Hq Hp Hpre Hcur Hsize Hbuf.
  pose proof (zlength_nonneg p). pose proof (zlength_nonneg pre).
  unfold encoder_insert. unfold_M. rewrite Hcur, bool_decide_true by lia. cbn [negb].
  assert (read_at (zlength pre + 33 - 1) (pe_buffer e) = Some (sign_of p)) as ->.
  { rewrite Hbuf. replace (zlength pre + 33 - 1) with (zlength ((pre ++ [y]) ++ c))
      by (rewrite !zlength_app; unfold zlength; simpl; lia).
    replace ((pre ++ [y]) ++ (c ++ [sign_of p]) ++ _)
      with (((pre ++ [y]) ++ c) ++ sign_of p :: rest) by (by rewrite <-!app_assoc).
    apply read_at_spec. }
  rewrite (wrap_small 64 (_ - 32)) by (unfold in_width; lia).
  replace (zlength pre + 33 - 32) with (zlength (pre ++ [y]))
    by (rewrite zlength_app; change (zlength [y]) with 1; lia).
  rewrite Hbuf, write_at_spec by (rewrite length_app, Hc, Hh; done).
  rewrite Hsize, land_7, (sign_of_insert d h p) by lia.
  rewrite zlength_app. change (zlength [y]) with 1.
  replace (zlength pre + 1 - 1) with (zlength pre) by lia.
  rewrite wrap_small by (unfold in_width; lia). rewrite <-(app_assoc pre), write_at_spec by done.
  destruct (decide (zlength p = 7)) as [H7|H7].
  - rewrite !(bool_decide_true (_ = _)); [|done|].
    2:{ replace (8 * q + zlength p + 1) with (8 * (q + 1) + 0) by lia. apply land_7; lia. }
    case_bool_decide as Hpos.
    + rewrite write_cleared; [done|]. intros ->. by change (zlength []) with 0 in Hpos.
    + by destruct pre; [|rewrite zlength_cons in *; pose proof (zlength_nonneg pre); lia].
  - rewrite !bool_decide_false; [done|done|].
    replace (8 * q + zlength p + 1) with (8 * q + (zlength p + 1)) by lia. rewrite land_7; lia.
Qed.

Lemma encoder_insert_encodes n xs e d h :
  n < 2 ^ 50 → zlength xs < n → encodes n xs e → is_hash h →
  ∃ e', encoder_insert d h e = Some (tt, e') ∧ encodes n (xs ++ [(flip_of d, h)]) e'.
Proof.
  intros Hn Hlt He Hh. destruct (encodes_room n xs e He Hlt)
    as (p & gs & pre & y & c & Hp & Hsize & Hbuf & Hc & Hcur & Hroom).
  destruct (pack_count xs p gs Hp) as [Hcount Hlt8].
  pose proof (Z.div_mod (n + 7) 8). pose proof (Z.mod_pos_bound (n + 7) 8).
  pose proof (zlength_nonneg gs). pose proof (zlength_nonneg p). pose proof (zlength_nonneg xs).
  rewrite (encoder_insert_run e d h p (zlength gs) pre y c (hashes p ++ segments gs))
    by (done || lia).
  eexists. split; [done|]. unfold encodes. rewrite pack_snoc, Hp, zlength_app.
  set (x := (flip_of d, h)). change (zlength [x]) with 1. unfold pack_step.
  destruct (decide (length p = 7%nat)) as [H7|H7].
  - rewrite !bool_decide_true by (unfold zlength; lia).
    exists [], ((x :: p) :: gs), (cleared pre). rewrite zlength_cons, cleared_length. simpl.
    assert (zlength p = 7) by (unfold zlength; lia).
    split_and!; [done|lia|unfold x; by rewrite segments_cons, hashes_cons, <-app_assoc|done|lia|].
    destruct (cleared_shape pre) as [->|[pre' ->]]; [by left|right; by exists pre'].
  - rewrite !bool_decide_false by (unfold zlength; lia).
    exists (x :: p), gs, (pre ++ [sign_of (x :: p)]). rewrite zlength_app.
    change (zlength [sign_of (x :: p)]) with 1. cbn [pe_cursor pe_size pe_buffer].
    split_and!; [done|lia|unfold x; by rewrite hashes_cons, <-!app_assoc|done|lia|right; by eexists].
Qed.

(** ** Reading *)

(** The signs of at most eight items, from the highest bit down. *)
Definition shifted (p : list Item) : Z := sign_of p * 2 ^ (8 - zlength p).

Definition layout (p : list Item) (gs : list (list Item)) : Bytes :=
  match p with [] => segments gs | _ => shifted p :: hashes p ++ segments gs end.

Lemma shifted_bound p : zlength p ≤ 8 → 0 ≤ shifted p < 256.
Proof.
  intros Hp. unfold shifted. pose proof (sign_of_bound p) as Hs. pose proof (zlength_nonneg p).
  assert (2 ^ zlength p * 2 ^ (8 - zlength p) = 256).
  { rewrite <-Z.pow_add_r by lia. by replace (zlength p + (8 - zlength p)) with 8 by lia. }
  assert (0 < 2 ^ (8 - zlength p)) by (apply Z.pow_pos_nonneg; lia). nia.
Qed.

Lemma shifted_cons f h p :
  zlength p < 8 → shifted ((f, h) :: p) = (if f then 128 else 0) + shifted p / 2 ∧
    shifted p = 2 * (shifted p / 2) ∧ 0 ≤ shifted p / 2 < 128.
Proof.
  intros Hp. pose proof (shifted_bound p ltac:(lia)) as Hb. pose proof (zlength_nonneg p).
  assert (shifted p = 2 * (sign_of p * 2 ^ (7 - zlength p))) as Heq.
  { unfold shifted. replace (8 - zlength p) with (Z.succ (7 - zlength p)) by lia.
    rewrite Z.pow_succ_r by lia. lia. }
  assert (shifted p / 2 = sign_of p * 2 ^ (7 - zlength p)) as Hd
    by (rewrite Heq, Z.mul_comm; by apply Z.div_mul).
  split; [|lia]. rewrite Hd. unfold shifted. simpl. rewrite zlength_cons.
  replace (8 - (1 + zlength p)) with (7 - zlength p) by lia. rewrite Z.mul_add_distr_r.
  f_equal. destruct f; [|done]. rewrite <-Z.pow_add_r by lia.
  by replace (zlength p + (7 - zlength p)) with 7 by lia.
Qed.

Lemma land_128 a : 0 ≤ a < 256 → (Z.land a 128 = 0 ↔ a < 128).
Proof.
  intros Ha. assert (forallb (λ a, Bool.eqb (Z.land a 128 =? 0) (a <? 128)) (seqZ 0 256) = true)
    as Hall by by vm_compute.
  rewrite forallb_forall in Hall. specialize (Hall a).
  rewrite <-list_elem_of_In, elem_of_seqZ in Hall. specialize (Hall ltac:(lia)).
  apply Bool.eqb_prop in Hall. rewrite <-Z.eqb_eq, Hall, Z.ltb_lt. done.
Qed.

(** One step of the iterator. *)
Lemma iter_next_cons f h q buffer :
  is_hash h → items_ok q → zlength q < 8 →
  iter_next (mkProofBufIter buffer (hashes ((f, h) :: q)) (shifted ((f, h) :: q)))
  = Some ((f, h), match q, buffer with
                  | [], sign :: _ => mkProofBufIter (drop 257 buffer) (drop 1 (take 257 buffer)) sign
                  | _, _ => mkProofBufIter buffer (hashes q) (shifted q)
                  end).
Proof.
  intros Hh Hq Hlen. destruct (shifted_cons f h q Hlen) as (Hs & Heven & Hb).
  unfold iter_next. rewrite hashes_cons. simpl pi_segment. simpl pi_sign. simpl pi_buffer.
  destruct (h ++ hashes q) as [|b bs] eqn:Hbs.
  { apply (f_equal length) in Hbs. rewrite length_app, Hh in Hbs. simpl in Hbs. lia. }
  rewrite <-Hbs, (take_app_length' h _ 32), (drop_app_length' h _ 32) by done.
  assert (negb (bool_decide (Z.land (shifted ((f, h) :: q)) 128 = 0)) = f) as ->.
  { destruct (land_128 (shifted ((f, h) :: q))) as [H1 H2]; [rewrite Hs; destruct f; lia|].
    destruct f; [rewrite bool_decide_false|rewrite bool_decide_true]; [done| |done|].
    - intros H0%H1. lia.
    - apply H2. lia. }
  assert (wrap 8 (Z.shiftl (shifted ((f, h) :: q)) 1) = shifted q) as ->.
  { rewrite Z.shiftl_mul_pow2, Hs by lia. unfold wrap. rewrite Heven at 2.
    destruct f.
    - replace ((128 + shifted q / 2) * 2 ^ 1) with (2 * (shifted q / 2) + 1 * 2 ^ 8) by lia.
      rewrite Z.mod_add, Z.mod_small by lia. done.
    - rewrite Z.mod_small by lia. lia. }
  do 2 f_equal.
  destruct q as [|[f' h'] q]; [by destruct buffer|].
  rewrite hashes_cons. apply Forall_cons in Hq as [Hh' _]. simpl in Hh'.
  destruct h' as [|b' h']; [done|]. by destruct buffer.
Qed.

Lemma segment_split g gs :
  items_ok g → length g = 8%nat →
  drop 257 (segments (g :: gs)) = segments gs ∧
  drop 1 (take 257 (segments (g :: gs))) = hashes g ∧ shifted g = sign_of g.
Proof.
  intros Hg Hlen. pose proof (hashes_length g Hg) as Hl. unfold zlength in Hl. rewrite Hlen in Hl.
  rewrite segments_cons. rewrite app_comm_cons. split_and!.
  - apply drop_app_length'. simpl. lia.
  - rewrite take_app_length'; [done|]. simpl. lia.
  - unfold shifted, zlength. rewrite Hlen. lia.
Qed.

Lemma iter_items_groups fuel q gs :
  q ≠ [] → zlength q ≤ 8 → items_ok q → Forall (λ g, length g = 8%nat ∧ items_ok g) gs →
  (length q + length (concat gs) ≤ fuel)%nat →
  iter_items fuel (mkProofBufIter (segments gs) (hashes q) (shifted q)) = Some (q ++ concat gs).
Proof.
  revert q gs. induction fuel as [|fuel IH]; intros q gs Hne Hlen Hq Hgs Hf;
    (destruct q as [|[f h] q]; [done|]); [simpl in Hf; lia|].
  rewrite zlength_cons in Hlen. apply Forall_cons in Hq as [Hh Hq].
  simpl iter_items. rewrite iter_next_cons by (done || lia). simpl in Hf.
  destruct q as [|x q].
  - destruct gs as [|g gs]; [by destruct fuel|].
    apply Forall_cons in Hgs as [[Hg Hgok] Hgs].
    destruct (segment_split g gs Hgok Hg) as (Hd & Ht & Hsh).
    rewrite segments_cons at 1. rewrite Hd, Ht, <-Hsh, IH; [done| |unfold zlength; lia|done|done|].
    + by destruct g.
    + simpl in Hf. rewrite length_app in Hf. lia.
  - rewrite (IH (x :: q) gs); [done|done|lia|done|done|lia].
Qed.

Lemma segments_length gs :
  Forall (λ g, length g = 8%nat ∧ items_ok g) gs → zlength (segments gs) = 257 * zlength gs.
Proof.
  induction 1 as [|g gs [Hg Hok] Hall IH]; [done|].
  rewrite segments_cons, zlength_cons, zlength_app, IH, hashes_length, zlength_cons by done.
  unfold zlength. rewrite Hg. lia.
Qed.

(** The length of a proof is valid unless it holds a single item. *)
Lemma layout_length p gs :
  zlength p < 8 → items_ok p → Forall (λ g, length g = 8%nat ∧ items_ok g) gs →
  zlength (layout p gs) mod 257 = (if bool_decide (p = []) then 0 else 1 + 32 * zlength p) ∧
  ((length p + length gs)%nat ≠ 1%nat ∨ p = [] → is_valid_proof_len (zlength (layout p gs)) = true) ∧
  (length p + length (concat gs) ≤ length (layout p gs))%nat.
Proof.
  intros Hp Hok Hgs. pose proof (segments_length gs Hgs) as Hs. pose proof (hashes_length p Hok) as Hh.
  pose proof (zlength_nonneg gs). pose proof (zlength_nonneg p).
  assert (length (concat gs) = (8 * length gs)%nat) as Hc.
  { apply concat_length_8. eapply Forall_impl; [exact Hgs|]. by intros g [? _]. }
  assert (zlength (layout p gs) = (if bool_decide (p = []) then 0 else 1 + 32 * zlength p)
    + zlength gs * 257) as Hl.
  { destruct p as [|x p]; [simpl; lia|]. unfold layout.
    rewrite bool_decide_false, zlength_cons, zlength_app by done. lia. }
  assert (zlength (layout p gs) mod 257
    = (if bool_decide (p = []) then 0 else 1 + 32 * zlength p)) as Hmod.
  { rewrite Hl, Z.mod_add by lia. apply Z.mod_small. case_bool_decide; lia. }
  split_and!; [done| |].
  - intros Hne. unfold is_valid_proof_len. change (32 * 8 + 1) with 257. rewrite Hmod.
    case_bool_decide as Hpe; [done|]. rewrite (bool_decide_false (_ = 0)) by lia. simpl.
    destruct Hne as [Hne|?]; [|done].
    rewrite !bool_decide_true; [done| |].
    + replace (1 + 32 * zlength p - 1) with (zlength p * 32) by lia. by apply Z.mod_mul.
    + rewrite Hl. unfold zlength in *. destruct p; [done|]. simpl in *. lia.
  - unfold zlength in *. destruct p as [|x p]; [rewrite Hc; simpl in *; lia|].
    rewrite bool_decide_false in Hl by done. simpl in *. lia.
Qed.

Lemma read_layout p gs :
  zlength p < 8 → items_ok p → Forall (λ g, length g = 8%nat ∧ items_ok g) gs →
  (length p + length gs)%nat ≠ 1%nat ∨ p = [] →
  is_valid_proof_len (zlength (layout p gs)) = true ∧
  proof_items (layout p gs) = Some (p ++ concat gs).
Proof.
  intros Hp Hok Hgs Hne. destruct (layout_length p gs Hp Hok Hgs) as (Hmod & Hvalid & Hfuel).
  specialize (Hvalid Hne). split; [done|]. unfold proof_items, iter_new. rewrite Hvalid.
  change SEGMENT_SIZE with 257. rewrite Hmod. cbn [negb].
  destruct p as [|x p].
  - destruct gs as [|g gs]; [done|]. apply Forall_cons in Hgs as [[Hg Hgok] Hgs].
    destruct (segment_split g gs Hgok Hg) as (Hd & Ht & Hsh).
    unfold layout in *. destruct (segments (g :: gs)) as [|s bs] eqn:Hsg; [done|].
    rewrite bool_decide_true by done. change (Z.to_nat 257) with 257%nat. cbn [mbind option_bind].
    assert (s = sign_of g) as -> by (rewrite segments_cons in Hsg; congruence).
    rewrite Hd, Ht, <-Hsh. rewrite iter_items_groups; [done| |unfold zlength; lia|done|done|].
    + by destruct g.
    + simpl in Hfuel |- *. rewrite length_app in Hfuel. lia.
  - unfold layout in *. rewrite (bool_decide_false (x :: p = [])) in * by done.
    pose proof (zlength_nonneg (x :: p)). pose proof (hashes_length (x :: p) Hok) as Hh.
    rewrite bool_decide_false by lia.
    replace (Z.to_nat (1 + 32 * zlength (x :: p))) with (S (length (hashes (x :: p))))
      by (unfold zlength in *; lia).
    cbn [mbind option_bind firstn skipn]. rewrite take_app_length, drop_app_length.
    apply iter_items_groups; [done|lia|done|done|done].
Qed.

Lemma items_ok_pack xs p gs :
  items_ok xs → pack xs = (p, gs) →
  items_ok p ∧ Forall (λ g, length g = 8%nat ∧ items_ok g) gs.
Proof.
  intros Hok Hp. destruct (pack_spec xs p gs Hp) as (Hr & _ & H8).
  assert (items_ok (p ++ concat gs)) as [Hpok Hgs]%Forall_app
    by (rewrite <-Hr; unfold items_ok; by rewrite Forall_reverse).
  split; [done|]. apply Forall_and. split; [done|]. by apply Forall_concat.
Qed.

Lemma encoder_finalize_layout n xs e p gs :
  encodes n xs e → pack xs = (p, gs) →
  ∃ b, encoder_finalize e = Some b ∧ pb_as_slice b = layout p gs ∧
    pb_len b = zlength (layout p gs).
Proof.
  intros (p' & gs' & pre & Hp & Hsize & Hbuf & Hcur & _ & Hpre) Hp'. rewrite Hp' in Hp. simplify_eq.
  destruct (pack_count xs p' gs' Hp') as [Hcount Hlt].
  pose proof (zlength_nonneg gs'). pose proof (zlength_nonneg p').
  unfold encoder_finalize. rewrite Hsize, Hcount, land_7 by lia.
  destruct p' as [|x p].
  - rewrite bool_decide_false by (unfold zlength; simpl; lia). eexists. split; [done|].
    unfold pb_as_slice, pb_len. simpl. rewrite Hcur, Hbuf. simpl. unfold hashes. simpl.
    unfold zlength at 1. rewrite Nat2Z.id, drop_app_length. split; [done|].
    rewrite zlength_app. unfold layout. lia.
  - destruct Hpre as [[? _]|[pre' ->]]; [done|]. rewrite zlength_cons in *.
    pose proof (zlength_nonneg p).
    rewrite bool_decide_true by lia. rewrite zlength_app in Hcur.
    change (zlength [_]) with 1 in Hcur. rewrite Hcur, Hbuf.
    replace (zlength pre' + 1 - 1) with (zlength pre') by lia.
    rewrite <-app_assoc. cbn [app]. rewrite read_at_spec. cbn [mbind option_bind].
    assert (wrap 8 (Z.shiftl (sign_of (x :: p)) (8 - (1 + zlength p))) = shifted (x :: p)) as ->.
    { rewrite Z.shiftl_mul_pow2 by lia. unfold shifted. rewrite zlength_cons. apply wrap_small.
      unfold in_width. pose proof (shifted_bound (x :: p) ltac:(rewrite zlength_cons; lia)) as Hb.
      unfold shifted in Hb. by rewrite zlength_cons in Hb. }
    rewrite (write_at_spec pre' _ [sign_of (x :: p)] (hashes (x :: p) ++ segments gs')) by done.
    eexists. split; [done|]. unfold pb_as_slice, pb_len. simpl pb_index. simpl pb_buffer.
    rewrite zlength_app. unfold zlength at 1. rewrite Nat2Z.id, drop_app_length.
    split; [done|]. unfold layout. simpl. lia.
Qed.

(** What the iterator reads back from the hashes of a walk. *)
Definition written (xs : list (Direction * Bytes)) : list Item :=
  (λ '(d, h), (flip_of d, h)) <$> xs.

Definition insert_hashes (xs : list (Direction * Bytes)) : M ProofEncoder unit :=
  for_each (λ '(d, h), encoder_insert d h) xs.

Lemma insert_hashes_encodes n xs :
  0 ≤ n < 2 ^ 50 → zlength xs ≤ n → Forall (λ x, is_hash x.2) xs →
  ∃ e, insert_hashes xs (encoder_new n) = Some (tt, e) ∧ encodes n (written xs) e.
Proof.
  intros Hn. induction xs as [|[d h] xs IH] using rev_ind; intros Hlen Hok.
  { exists (encoder_new n). split; [done|]. apply encodes_new. lia. }
  rewrite zlength_app in Hlen. change (zlength [_]) with 1 in Hlen.
  apply Forall_app in Hok as [Hok [Hh _]%Forall_cons].
  destruct IH as (e & Hrun & He); [lia|done|].
  destruct (encoder_insert_encodes n (written xs) e d h) as (e' & Hi & He');
    [lia|unfold written, zlength in *; rewrite length_fmap; lia|done|done|].
  exists e'. unfold insert_hashes, written in *. rewrite for_each_app, fmap_app. unfold_M.
  rewrite Hrun. simpl. unfold_M. rewrite Hi. done.
Qed.

(** Reading a proof gives back what was written: whatever hashes are
    inserted, no more than the encoder was made for and not a single one alone,
    no insertion panics, the buffer has a valid length, and the iterator yields
    the hashes in the reverse order, each with the sign of its direction. *)
Lemma proof_roundtrip n xs :
  0 ≤ n < 2 ^ 50 → zlength xs ≤ n → length xs ≠ 1%nat → Forall (λ x, is_hash x.2) xs →
  ∃ e b, insert_hashes xs (encoder_new n) = Some (tt, e) ∧ encoder_finalize e = Some b ∧
    is_valid_proof_len (pb_len b) = true ∧
    proof_items (pb_as_slice b) = Some (reverse (written xs)) ∧ (xs = [] → pb_as_slice b = []).
Proof.
  intros Hn Hlen H1 Hok. destruct (insert_hashes_encodes n xs Hn Hlen Hok) as (e & Hrun & He).
  destruct (pack (written xs)) as [p gs] eqn:Hp.
  destruct (encoder_finalize_layout n _ e p gs He Hp) as (b & Hf & Hs & Hl).
  assert (items_ok (written xs)) as Hw.
  { apply Forall_fmap. eapply Forall_impl; [exact Hok|]. by intros [d h]. }
  destruct (items_ok_pack _ p gs Hw Hp) as [Hpok Hgs].
  destruct (pack_count _ p gs Hp) as [Hcount Hlt].
  destruct (pack_spec _ p gs Hp) as (Hr & _).
  destruct (read_layout p gs Hlt Hpok Hgs) as [Hv Hi].
  { unfold written, zlength in Hcount. rewrite length_fmap in Hcount.
    destruct p; [by right|left]. simpl in *. lia. }
  exists e, b. rewrite Hs, Hl, Hr. split_and!; [done..|]. intros ->. by injection Hp as <- <-.
Qed.

(** ** Which lengths the iterator reads *)

Lemma iter_next_decreases i item i' :
  iter_next i = Some (item, i') →
  (length (pi_segment i') + length (pi_buffer i') < length (pi_segment i) + length (pi_buffer i))%nat.
Proof.
  unfold iter_next. destruct i as [buffer seg sign]. simpl. destruct seg as [|x seg]; [done|].
  change (match ?y with [] => ?a | _ => ?b end) with (match y with [] => a | _ :: _ => b end).
  intros [= _ <-]. pose proof (length_drop seg 31).
  destruct (skipn 31 seg) as [|y seg'] eqn:Hd; [destruct buffer as [|b buffer]|];
    cbn [pi_segment pi_buffer length] in *; try lia.
  rewrite !length_drop, length_take. change (Z.to_nat SEGMENT_SIZE) with 257%nat. cbn [length]. lia.
Qed.

Lemma iter_items_total fuel i :
  (length (pi_segment i) + length (pi_buffer i) ≤ fuel)%nat →
  ∃ items, iter_items fuel i = Some items ∧ (items = [] ↔ pi_segment i = []) ∧
    ((32 < length (pi_segment i))%nat ∨
     (pi_segment i ≠ [] ∧ (1 < length (pi_buffer i))%nat) → (2 ≤ length items)%nat).
Proof.
  revert i. induction fuel as [|fuel IH]; intros i Hf.
  { exists []. destruct i as [buffer seg sign]. simpl in *.
    destruct seg; simpl in *; [|lia]. split_and!; [done..|]. lia || naive_solver lia. }
  destruct (iter_next i) as [[item i']|] eqn:Hn.
  - pose proof (iter_next_decreases _ _ _ Hn). destruct (IH i') as (items & Hi & Hne & _); [lia|].
    exists (item :: items). cbn [iter_items]. rewrite Hn, Hi.
    split_and!; [done|unfold iter_next in Hn; by destruct (pi_segment i)|]. intros Hlong.
    assert (items ≠ []) as Hi2; [|destruct items; [done|simpl; lia]]. rewrite Hne.
    unfold iter_next in Hn. destruct i as [buffer seg sign]. simpl in *.
    destruct seg as [|x seg]; [simpl in *; naive_solver lia|]. injection Hn as _ <-.
    pose proof (length_drop seg 31).
    destruct (skipn 31 seg) as [|y seg'] eqn:Hd; [destruct buffer as [|b buffer]|];
      cbn [pi_segment pi_buffer length] in *; try done.
    + naive_solver lia.
    + destruct buffer; [naive_solver lia|done].
  - exists []. simpl. rewrite Hn. unfold iter_next in Hn. destruct i as [buffer [|] sign]; [|done].
    split_and!; [done..|]. simpl. naive_solver lia.
Qed.

Lemma proof_items_valid proof items :
  proof_items proof = Some items → is_valid_proof_len (zlength proof) = true.
Proof. unfold proof_items, iter_new. by destruct (is_valid_proof_len _). Qed.

(** The first segment of a proof of valid length. *)
Lemma first_segment n :
  0 < n → is_valid_proof_len n = true →
  (n mod 257 = 1 ∧ 257 < n) ∨ (n mod 257 = 0) ∨ (65 ≤ n mod 257) ∨ (n mod 257 = 33 ∧ 257 < n).
Proof.
  intros Hn Hv. unfold is_valid_proof_len in Hv. change (32 * 8 + 1) with 257 in Hv.
  pose proof (Z.mod_pos_bound n 257 ltac:(lia)) as Hb. pose proof (Z.div_mod n 257 ltac:(lia)).
  destruct (decide (n mod 257 = 0)); [by right; left|].
  rewrite bool_decide_false in Hv by done. simpl in Hv. apply andb_true_iff in Hv as [H64 H32]. tests.
  assert (n mod 257 ≤ 64 → 257 < n) by (intros; destruct (decide (n / 257 = 0)); nia).
  pose proof (Z.div_mod (n mod 257 - 1) 32 ltac:(lia)).
  assert (n mod 257 - 1 = 0 ∨ n mod 257 - 1 = 32 ∨ 64 ≤ n mod 257 - 1) as [?|[?|?]]; [|lia..].
  destruct (decide ((n mod 257 - 1) / 32 = 0)); [lia|]. destruct (decide ((n mod 257 - 1) / 32 = 1)); lia.
Qed.

(** A proof of valid length has no hash when its first segment is a lone sign
    byte, and at least two otherwise. *)
Lemma proof_items_count proof :
  proof ≠ [] → is_valid_proof_len (zlength proof) = true →
  ∃ items, proof_items proof = Some items ∧
    if bool_decide (zlength proof mod 257 = 1) then items = [] else (2 ≤ length items)%nat.
Proof.
  intros Hne Hv. pose proof (zlength_nonneg proof).
  assert (0 < zlength proof) as Hpos by (destruct proof; [done|unfold zlength; simpl; lia]).
  pose proof (first_segment _ Hpos Hv) as Hseg. pose proof (Z.mod_pos_bound (zlength proof) 257 ltac:(lia)).
  pose proof (Z.mod_le (zlength proof) 257 ltac:(lia) ltac:(lia)).
  unfold proof_items, iter_new. rewrite Hv. cbn [negb]. destruct proof as [|x proof]; [done|].
  set (buffer := x :: proof) in *. change SEGMENT_SIZE with 257. cbn [mbind option_bind].
  set (read := if bool_decide (zlength buffer mod 257 = 0) then 257 else zlength buffer mod 257).
  assert (1 ≤ read ≤ zlength buffer) as Hread.
  { unfold read. case_bool_decide; [|lia]. destruct (Z.mod_divide (zlength buffer) 257) as [[q Hq] _]; lia. }
  assert (length (drop 1 (take (Z.to_nat read) buffer)) = (Z.to_nat read - 1)%nat) as Hl1
    by (rewrite length_drop, length_take; unfold zlength in *; lia).
  assert (length (drop (Z.to_nat read) buffer) = (length buffer - Z.to_nat read)%nat) as Hl2
    by (by rewrite length_drop).
  destruct (iter_items_total (length buffer) (mkProofBufIter (drop (Z.to_nat read) buffer)
    (drop 1 (take (Z.to_nat read) buffer)) x)) as (items & -> & H2 & H3);
    [cbn [pi_segment pi_buffer]; unfold zlength in *; lia|].
  exists items. split; [done|]. cbn [pi_segment pi_buffer] in H2, H3. case_bool_decide as Hone.
  - apply H2. unfold read. rewrite Hone. done.
  - apply H3. assert (read = 257 ∨ zlength buffer mod 257 ≠ 0 ∧ read = zlength buffer mod 257) as Hr
      by (unfold read; case_bool_decide; tauto).
    clearbody read. unfold zlength in *. destruct Hr as [->|[? ->]]; [left; lia|].
    destruct Hseg as [?|[?|[?|?]]]; [lia|lia|left; lia|]. right. split; [|lia].
    intros Heq. rewrite Heq in Hl1. cbn [length] in Hl1. lia.
Qed.

(** ** The proofs of a tree *)

Section proofs.
Context (merge : Bytes → Bytes → bool → Bytes).
Implicit Types t : tree Bytes.

(** The hashes of the siblings on the way up from a block, the block first. *)
Fixpoint proof_of t (i : Z) : list Item :=
  match t with
  | Leaf h => [(false, h)]
  | Node l r =>
      if bool_decide (i < count l)
      then proof_of l i ++ [(false, root_of merge false r)]
      else proof_of r (i - count l) ++ [(true, root_of merge false l)]
  end.

(** The positions of a walk hold the hashes of the proof. *)
Lemma path_proof arr base b t i :
  embedded merge arr base b t → 0 ≤ base →
  Forall2 (λ x y, arr !! Z.to_nat x.2 = Some y.2 ∧ flip_of x.1 = y.1 ∧ 0 ≤ x.2)
    (path t base i) (reverse (proof_of t i)).
Proof.
  revert base b i. induction t as [h|l IHl r IHr]; intros base b i He Hb.
  - apply embedded_root in He. constructor; [|constructor]. simpl.
    replace base with (base + 2 * 1 - 2) at 1 by lia. done.
  - pose proof (count_pos l). pose proof (count_pos r). simpl.
    case_bool_decide; rewrite reverse_snoc; constructor; simpl.
    + apply embedded_right, embedded_root in He. split_and!; [done|done|lia].
    + eapply (IHl base false); [by eapply embedded_left|done].
    + apply embedded_left, embedded_root in He. split_and!; [done|done|lia].
    + eapply (IHr _ false); [by eapply embedded_right|lia].
Qed.

(** Inserting the items of a walk looks the hashes up. *)
Lemma insert_items_hashes arr items ys :
  Forall is_hash arr →
  Forall2 (λ x y, arr !! Z.to_nat x.2 = Some y.2 ∧ flip_of x.1 = y.1 ∧ 0 ≤ x.2) items ys →
  ∃ xs, (∀ e, insert_items (mkHashTree (flat_from arr)) items e = insert_hashes xs e) ∧
    written xs = ys ∧ Forall (λ x, is_hash x.2) xs.
Proof.
  intros Hok. induction 1 as [|[d idx] [f h] items ys (Hl & Hf & Hi) _ (xs & Hrun & Hw & Hh)];
    [by exists []|].
  simpl in *. exists ((d, h) :: xs). split_and!.
  - intros e. unfold insert_items, insert_hashes in *. simpl. unfold_M.
    rewrite flat_get_from, Hl by done. destruct (encoder_insert d h e) as [[[] e']|]; [|done].
    apply Hrun.
  - change (written ((d, h) :: xs)) with ((flip_of d, h) :: written xs). by rewrite Hw, Hf.
  - constructor; [|done]. simpl. rewrite Forall_forall in Hok. apply Hok.
    by eapply list_elem_of_lookup_2.
Qed.

Lemma path_at_least_two t base i : count t ≠ 1 → (2 ≤ length (path t base i))%nat.
Proof.
  destruct t as [h|l r]; [done|]. intros _. simpl.
  assert (∀ s b j, (1 ≤ length (path (A := Bytes) s b j))%nat) as H1.
  { intros [?|? ?] b j; simpl; [lia|]. case_bool_decide; simpl; lia. }
  case_bool_decide; simpl; [pose proof (H1 l base i)|pose proof (H1 r (base + 2 * count l - 1) (i - count l))];
    lia.
Qed.

(** The items a generated proof consists of. *)
Definition expected_proof (mode : Mode) t (i : Z) : list Item :=
  match mode with
  | Initial => if bool_decide (count t = 1) then [] else proof_of t i
  | Proceeding =>
      match next_tree t 0 i with
      | Some (s, _) => if bool_decide (count s = 1) then [] else proof_of s 0
      | None => []
      end
  end.

Lemma next_tree_embedded arr base b t i s bs :
  embedded merge arr base b t → next_tree t base i = Some (s, bs) → embedded merge arr bs false s.
Proof.
  revert base b i. induction t as [h|l IHl r IHr]; intros base b i He Hn; [done|].
  simpl in Hn. repeat case_bool_decide.
  - eapply (IHl base false); [by eapply embedded_left|done].
  - simplify_eq. by eapply embedded_right.
  - eapply (IHr _ false); [by eapply embedded_right|done].
Qed.

(** [generate_proof] never panics on a block of the tree: from the array
    alone it produces, as a buffer of valid length, the hashes of the siblings on
    the path from the block up to the root, or up to the largest subtree that
    starts with the block when the blocks before were sent already. *)
Lemma generate_proof_spec mode b t i :
  shaped t → count t < 2 ^ 40 → hashes_ok merge t → 0 ≤ i < count t →
  (mode = Proceeding → i ≠ 0) →
  ∃ p, generate_proof (mkHashTree (slice_of merge b t)) mode i = Some p ∧
    is_valid_proof_len (pb_len p) = true ∧
    proof_items (pb_as_slice p) = Some (expected_proof mode t i) ∧
    (expected_proof mode t i = [] → pb_as_slice p = []).
Proof.
  intros Hs Hc Hok Hi Hm.
  destruct (walker_visits_path mode t i Hs ltac:(lia) Hi Hm) as (w & items & Hw & Hwalk & Hlen & Hit).
  unfold generate_proof, pb_new, ht_inner_len. cbn [ht_inner]. rewrite slice_len by done.
  rewrite Hw. cbn [mbind option_bind]. unfold pb_new_internal. rewrite Hwalk. cbn [mbind option_bind].
  set (arr := post_order merge b t) in *.
  assert (length items ≠ 1%nat ∧ Forall2 (λ x y, arr !! Z.to_nat x.2 = Some y.2 ∧
    flip_of x.1 = y.1 ∧ 0 ≤ x.2) items (reverse (expected_proof mode t i))) as [H1 Hall].
  { pose proof (embedded_whole merge b t) as He. destruct mode; simpl in *.
    - subst items. case_bool_decide as Hone; [split; [done|constructor]|].
      split; [pose proof (path_at_least_two t 0 i Hone); lia|by eapply path_proof].
    - destruct Hit as (s & Hn & ->). rewrite Hn.
      case_bool_decide as Hone; [split; [done|constructor]|].
      pose proof (tree_index_bound i ltac:(lia)).
      split; [pose proof (path_at_least_two s (tree_index i) 0 Hone); lia|].
      eapply (path_proof _ _ false); [by eapply next_tree_embedded|lia]. }
  destruct (insert_items_hashes arr items _ (Hok b) Hall) as (xs & Hrun & Hxs & Hh).
  pose proof (Forall2_length _ _ _ Hall) as Hl2.
  assert (length xs = length items) as Hlx.
  { rewrite Hl2, <-Hxs. unfold written. by rewrite length_fmap. }
  destruct (proof_roundtrip (walker_size_hint w) xs) as (e & p & Hins & Hfin & Hv & Hread & Hnil);
    [pose proof (zlength_nonneg items); lia|unfold zlength in *; lia|lia|done|].
  exists p. unfold slice_of. fold arr. rewrite Hrun, Hins. cbn [mbind option_bind].
  rewrite Hfin, Hread, Hxs, reverse_involutive. split_and!; [done..|]. intros He. apply Hnil.
  apply length_zero_iff_nil. by rewrite Hlx, Hl2, He.
Qed.
End proofs.
