(* ===== verification/Blake3.v ===== *)
(** * Blake3: the BLAKE3 hash function of the block store

    [lib/b3fs/src/hasher/b3.rs] and [lib/b3fs/src/hasher/iv.rs]: chunks, parent
    nodes, the subtrees that are compressed as wide as the platform allows, and
    the hash of a whole input, on top of the compression function of the blake3
    crate.  The result is the tree hash of the specification whatever the width
    of the platform is. *)

From S2P Require Import Prelude Types Codec HashTree.
From stdpp Require Import base list.
From Stdlib Require Import ZArith Lia.
Open Scope Z_scope.

(** ** The platform *)

Abbreviation CVWords := (list Z) (only parsing).
Abbreviation CVBytes := (list Z) (only parsing).

(** [blake3::platform::Platform]: the compression function, the parallel
    compression of several inputs, and the number of inputs it takes at once. *)
Class Platform := {
  compress_in_place : CVWords → Bytes → Z → Z → Z → CVWords;
  hash_many : list Bytes → CVWords → Z → bool → Z → Z → Z → list CVBytes;
  simd_degree : Z
}.

Definition OUT_LEN : Z := 32.
Definition BLOCK_LEN : nat := 64.
Definition CHUNK_LEN : nat := 1024.

Definition CHUNK_START : Z := 1.
Definition CHUNK_END : Z := 2.
Definition PARENT : Z := 4.
Definition ROOT : Z := 8.
Definition KEYED_HASH : Z := 16.
Definition DERIVE_KEY_CONTEXT : Z := 32.
Definition DERIVE_KEY_MATERIAL : Z := 64.

Definition b3_IV : CVWords :=
  [0x6A09E667; 0xBB67AE85; 0x3C6EF372; 0xA54FF53A; 0x510E527F; 0x9B05688C; 0x1F83D9AB; 0x5BE0CD19].

Definition le_bytes_from_words_32 (words : CVWords) : CVBytes := concat (to_le_bytes 4 <$> words).

(** [utils::words_from_le_bytes_32]. *)
Definition words_from_le_bytes_32 (bytes : Bytes) : CVWords :=
  (λ i : nat, from_le_bytes (take 4 (drop (4 * i) bytes))) <$> seq 0 8.

Section b3.
Context {P : Platform}.

(** ** Outputs *)

Record Output := mkOutput {
  o_input_chaining_value : CVWords;
  o_block : Bytes;
  o_block_len : Z;
  o_counter : Z;
  o_flags : Z
}.

Definition chaining_value (o : Output) : CVBytes :=
  le_bytes_from_words_32
    (compress_in_place (o_input_chaining_value o) (o_block o) (o_block_len o) (o_counter o)
       (o_flags o)).

Definition root_hash (o : Output) : Bytes :=
  le_bytes_from_words_32
    (compress_in_place (o_input_chaining_value o) (o_block o) (o_block_len o) 0
       (Z.lor (o_flags o) ROOT)).

Definition parent_node_output (left_child right_child : CVBytes) (key : CVWords) (flags : Z)
    : Output :=
  mkOutput key (left_child ++ right_child) (Z.of_nat BLOCK_LEN) 0 (Z.lor flags PARENT).

(** ** Chunks *)

Record ChunkState := mkChunkState {
  cs_cv : CVWords;
  cs_chunk_counter : Z;
  cs_buf : Bytes;
  cs_buf_len : nat;
  cs_blocks_compressed : Z;
  cs_flags : Z
}.

Definition chunk_new (key : CVWords) (chunk_counter flags : Z) : ChunkState :=
  mkChunkState key chunk_counter (replicate BLOCK_LEN 0) 0 0 flags.

Definition chunk_len (s : ChunkState) : Z :=
  Z.of_nat BLOCK_LEN * cs_blocks_compressed s + Z.of_nat (cs_buf_len s).

Definition start_flag (s : ChunkState) : Z :=
  if bool_decide (cs_blocks_compressed s = 0) then CHUNK_START else 0.

(** The state and the rest of the input. *)
Definition fill_buf (s : ChunkState) (input : Bytes) : ChunkState * Bytes :=
  let want := (BLOCK_LEN - cs_buf_len s)%nat in
  let take_ := Nat.min want (length input) in
  (mkChunkState (cs_cv s) (cs_chunk_counter s)
     (take (cs_buf_len s) (cs_buf s) ++ take take_ input
      ++ drop (cs_buf_len s + take_) (cs_buf s))
     (cs_buf_len s + take_) (cs_blocks_compressed s) (cs_flags s),
   drop take_ input).

Definition compress_block (s : ChunkState) (block : Bytes) : ChunkState :=
  mkChunkState
    (compress_in_place (cs_cv s) block (Z.of_nat BLOCK_LEN) (cs_chunk_counter s)
       (Z.lor (cs_flags s) (start_flag s)))
    (cs_chunk_counter s) (cs_buf s) (cs_buf_len s) (cs_blocks_compressed s +[8] 1) (cs_flags s).

Definition reset_buf (s : ChunkState) : ChunkState :=
  mkChunkState (cs_cv s) (cs_chunk_counter s) (replicate BLOCK_LEN 0) 0
    (cs_blocks_compressed s) (cs_flags s).

(** The blocks before the last one; the fuel is the length of the input. *)
Fixpoint compress_blocks (fuel : nat) (s : ChunkState) (input : Bytes) : ChunkState * Bytes :=
  match fuel with
  | O => (s, input)
  | S fuel =>
      if bool_decide (BLOCK_LEN < length input)%nat
      then compress_blocks fuel (compress_block s (take BLOCK_LEN input)) (drop BLOCK_LEN input)
      else (s, input)
  end.

Definition chunk_update (s : ChunkState) (input : Bytes) : ChunkState :=
  let '(s, input) :=
    if bool_decide (0 < cs_buf_len s)%nat then
      let '(s, input) := fill_buf s input in
      match input with
      | [] => (s, input)
      | _ => (reset_buf (compress_block s (cs_buf s)), input)
      end
    else (s, input) in
  let '(s, input) := compress_blocks (length input) s input in
  (fill_buf s input).1.

Definition chunk_output (s : ChunkState) : Output :=
  mkOutput (cs_cv s) (cs_buf s) (Z.of_nat (cs_buf_len s)) (cs_chunk_counter s)
    (Z.lor (Z.lor (cs_flags s) (start_flag s)) CHUNK_END).

(** ** Subtrees *)

Definition left_len (content_len : Z) : Z :=
  let full_chunks := (content_len - 1) / Z.of_nat CHUNK_LEN in
  largest_power_of_two_leq full_chunks * Z.of_nat CHUNK_LEN.

(** [chunks_exact]: the full pieces of [n] bytes and the remainder. *)
Fixpoint chunks_exact (fuel : nat) (n : nat) (input : Bytes) : list Bytes * Bytes :=
  match fuel with
  | O => ([], input)
  | S fuel =>
      if bool_decide (n ≤ length input)%nat then
        let '(pieces, rest) := chunks_exact fuel n (drop n input) in
        (take n input :: pieces, rest)
      else ([], input)
  end.

(** The chaining values that the functions write out. *)
Definition compress_chunks_parallel (input : Bytes) (key : CVWords) (chunk_counter flags : Z)
    : list CVBytes :=
  let '(chunks, remainder) := chunks_exact (length input) CHUNK_LEN input in
  let out := hash_many chunks key chunk_counter true flags CHUNK_START CHUNK_END in
  match remainder with
  | [] => out
  | _ =>
      let counter := chunk_counter +[64] zlength chunks in
      out ++ [chaining_value (chunk_output (chunk_update (chunk_new key counter flags) remainder))]
  end.

Definition compress_parents_parallel (children : list CVBytes) (key : CVWords) (flags : Z)
    : list CVBytes :=
  let '(parents, remainder) :=
    chunks_exact (length (concat children)) BLOCK_LEN (concat children) in
  let out := hash_many parents key 0 false (Z.lor flags PARENT) 0 0 in
  match remainder with
  | [] => out
  | _ => out ++ [remainder]
  end.

(** The recursion halves the input; the fuel is its length.  The values of the
    two sides go to one array, those of the right side from position [degree] on;
    [None] is also the panic when the left side does not fit before it. *)
Fixpoint compress_subtree_wide (fuel : nat) (input : Bytes) (key : CVWords)
    (chunk_counter flags : Z) : option (list CVBytes) :=
  match fuel with
  | O => None
  | S fuel =>
      if bool_decide (zlength input ≤ simd_degree * Z.of_nat CHUNK_LEN)
      then Some (compress_chunks_parallel input key chunk_counter flags)
      else
        let split := Z.to_nat (left_len (zlength input)) in
        let left := take split input in
        let right := drop split input in
        let right_chunk_counter := chunk_counter +[64] (zlength left / Z.of_nat CHUNK_LEN) in
        let degree :=
          if bool_decide (length left = CHUNK_LEN) then 1%nat
          else Z.to_nat (Z.max simd_degree 2) in
        left_out ← compress_subtree_wide fuel left key chunk_counter flags;
        right_out ← compress_subtree_wide fuel right key right_chunk_counter flags;
        if bool_decide (degree < length left_out)%nat then None
        else
          let cv_array :=
            left_out ++ replicate (degree - length left_out) (replicate 32 0) ++ right_out in
          if bool_decide (length left_out = 1%nat) then Some (take 2 cv_array)
          else
            Some (compress_parents_parallel
                    (take (length left_out + length right_out) cv_array) key flags)
  end.

(** Form parents until two values are left. *)
Fixpoint condense (fuel : nat) (cvs : list CVBytes) (key : CVWords) (flags : Z)
    : option (list CVBytes) :=
  if bool_decide (2 < length cvs)%nat then
    match fuel with
    | O => None
    | S fuel => condense fuel (compress_parents_parallel cvs key flags) key flags
    end
  else Some cvs.

Definition compress_subtree_to_parent_node (input : Bytes) (key : CVWords)
    (chunk_counter flags : Z) : option Bytes :=
  cvs ← compress_subtree_wide (length input) input key chunk_counter flags;
  pair ← condense (length cvs) cvs key flags;
  Some (take (2 * 32) (concat pair)).

Definition hash_all_at_once (input : Bytes) (key : CVWords) (flags : Z) : option Output :=
  if bool_decide (length input ≤ CHUNK_LEN)%nat
  then Some (chunk_output (chunk_update (chunk_new key 0 flags) input))
  else
    block ← compress_subtree_to_parent_node input key 0 flags;
    Some (mkOutput key block (Z.of_nat BLOCK_LEN) 0 (Z.lor flags PARENT)).

(** ** [iv.rs] *)

Definition rotate_right (x n : Z) : Z :=
  Z.lor (Z.shiftr x n) (wrap 32 (Z.shiftl x (32 - n))).

(** The words of the state; an index out of range would panic, the indices are
    the literals of [round]. *)
Definition word (state : list Z) (i : nat) : Z := nth i state 0.

Definition g (state : list Z) (a b c d : nat) : list Z :=
  let state := <[a:=word state a +[32] word state b]> state in
  let state := <[d:=rotate_right (Z.lxor (word state d) (word state a)) 16]> state in
  let state := <[c:=word state c +[32] word state d]> state in
  let state := <[b:=rotate_right (Z.lxor (word state b) (word state c)) 12]> state in
  let state := <[a:=word state a +[32] word state b]> state in
  let state := <[d:=rotate_right (Z.lxor (word state d) (word state a)) 8]> state in
  let state := <[c:=word state c +[32] word state d]> state in
  <[b:=rotate_right (Z.lxor (word state b) (word state c)) 7]> state.

Definition round (state : list Z) : list Z :=
  let state := g state 0 4 8 12 in
  let state := g state 1 5 9 13 in
  let state := g state 2 6 10 14 in
  let state := g state 3 7 11 15 in
  let state := g state 0 5 10 15 in
  let state := g state 1 6 11 12 in
  let state := g state 2 7 8 13 in
  g state 3 4 9 14.

Definition empty_hash (key : CVWords) (flags : Z) : Bytes :=
  let flags := Z.lor (Z.lor (Z.lor flags CHUNK_START) CHUNK_END) ROOT in
  let state := take 8 key ++ take 4 b3_IV ++ [0; 0; 0; flags] in
  let state := Nat.iter 7 round state in
  le_bytes_from_words_32
    ((λ i : nat, Z.lxor (word state i) (word state (i + 8))) <$> seq 0 8).

Record IV := mkIV {
  iv_flags : Z;
  iv_key : CVWords;
  iv_empty : Bytes
}.

Definition iv_new_internal (key : CVWords) (flags : Z) : IV := mkIV flags key (empty_hash key flags).
Definition iv_new_keyed (key : Bytes) : IV := iv_new_internal (words_from_le_bytes_32 key) KEYED_HASH.

Definition IV_DEFAULT : IV := iv_new_internal b3_IV 0.

Definition DIR_KEY : Bytes :=
  [139; 88; 112; 131; 96; 138; 152; 197; 238; 63; 142; 210; 224; 88; 97; 183; 244; 210; 116; 213;
   84; 215; 9; 16; 21; 175; 61; 72; 251; 174; 76; 21].

Definition IV_DIR : IV := iv_new_keyed DIR_KEY.

Definition iv_merge (iv : IV) (left right : Bytes) (is_root : bool) : Bytes :=
  let output := parent_node_output left right (iv_key iv) (iv_flags iv) in
  if is_root then root_hash output else chaining_value output.

Definition iv_hash_all_at_once (iv : IV) (input : Bytes) : option Bytes :=
  output ← hash_all_at_once input (iv_key iv) (iv_flags iv);
  Some (root_hash output).

Definition iv_new_derive_key (context : Bytes) : option IV :=
  output ← hash_all_at_once context b3_IV DERIVE_KEY_CONTEXT;
  Some (iv_new_internal (words_from_le_bytes_32 (root_hash output)) DERIVE_KEY_MATERIAL).
End b3.

(** The empty hash under the default key is the published BLAKE3 hash of the
    empty input. *)
Lemma empty_hash_default :
  iv_empty IV_DEFAULT =
    [175; 19; 73; 185; 245; 249; 161; 166; 160; 64; 77; 234; 54; 220; 201; 73;
     155; 203; 37; 201; 173; 193; 18; 183; 204; 154; 147; 202; 228; 31; 50; 98].
Proof. by vm_compute. Qed.
