(* ===== verification/Blake3Tree.v ===== *)
(** * Blake3Tree: the hash of an input is the root of a tree

    [lib/b3fs/src/hasher/b3.rs] computes the hash as wide as the platform allows:
    it compresses several chunks at once, several parents at once, and keeps a
    row of chaining values on the way up.  Whatever the width is, the result is
    the root of the tree over the chunks whose left subtrees are the largest
    powers of two. *)

From S2P Require Import Prelude Types Codec HashTree ProofBuf Blake3.
From stdpp Require Import base list.
From Stdlib Require Import ZArith Lia.
Open Scope Z_scope.

(** ** What the blake3 crate promises *)

(** [hash1] of the crate: the blocks of one input, the first with the start
    flags and the last with the end flags. *)
Fixpoint hash1 `{Platform} (n : nat) (cv : list Z) (input : Bytes)
    (counter flags block_flags flags_end : Z) : list Z :=
  match n with
  | O => cv
  | S n =>
      hash1 n
        (compress_in_place cv (take BLOCK_LEN input) (Z.of_nat BLOCK_LEN) counter
           (match n with O => Z.lor block_flags flags_end | S _ => block_flags end))
        (drop BLOCK_LEN input) counter flags flags flags_end
  end.

(** The compression function of the specification: seven rounds over a state of
    sixteen words, with the message words permuted between the rounds. *)
Definition mix (state : list Z) (a b c d : nat) (mx my : Z) : list Z :=
  let state := <[a:=word state a +[32] word state b +[32] mx]> state in
  let state := <[d:=rotate_right (Z.lxor (word state d) (word state a)) 16]> state in
  let state := <[c:=word state c +[32] word state d]> state in
  let state := <[b:=rotate_right (Z.lxor (word state b) (word state c)) 12]> state in
  let state := <[a:=word state a +[32] word state b +[32] my]> state in
  let state := <[d:=rotate_right (Z.lxor (word state d) (word state a)) 8]> state in
  let state := <[c:=word state c +[32] word state d]> state in
  <[b:=rotate_right (Z.lxor (word state b) (word state c)) 7]> state.

Definition mix_round (msg : list Z) (state : list Z) : list Z :=
  let state := mix state 0 4 8 12 (word msg 0) (word msg 1) in
  let state := mix state 1 5 9 13 (word msg 2) (word msg 3) in
  let state := mix state 2 6 10 14 (word msg 4) (word msg 5) in
  let state := mix state 3 7 11 15 (word msg 6) (word msg 7) in
  let state := mix state 0 5 10 15 (word msg 8) (word msg 9) in
  let state := mix state 1 6 11 12 (word msg 10) (word msg 11) in
  let state := mix state 2 7 8 13 (word msg 12) (word msg 13) in
  mix state 3 4 9 14 (word msg 14) (word msg 15).

Definition permute (msg : list Z) : list Z :=
  word msg <$> [2; 6; 3; 10; 7; 0; 4; 13; 1; 11; 12; 5; 9; 14; 15; 8]%nat.

Definition rounds (n : nat) (msg state : list Z) : list Z :=
  (Nat.iter n (λ s, (permute s.1, mix_round s.1 s.2)) (msg, state)).2.

Definition compress_words (cv : list Z) (block : Bytes) (block_len counter flags : Z) : list Z :=
  let msg := (λ i : nat, from_le_bytes (take 4 (drop (4 * i) block))) <$> seq 0 16 in
  let state := take 8 cv ++ take 4 b3_IV
    ++ [wrap 32 counter; wrap 32 (Z.shiftr counter 32); block_len; flags] in
  let state := rounds 7 msg state in
  (λ i : nat, Z.lxor (word state i) (word state (i + 8))) <$> seq 0 8.

(** A platform computes the compression function, one input or several at once,
    on up to sixteen inputs. *)
Class PlatformLaws (P : Platform) : Prop := {
  compress_in_place_words cv block len counter flags :
    compress_in_place cv block len counter flags = compress_words cv block len counter flags;
  hash_many_each inputs key counter inc flags fs fe n :
    Forall (λ x, length x = (BLOCK_LEN * n)%nat) inputs →
    hash_many inputs key counter inc flags fs fe
    = imap (λ i x, le_bytes_from_words_32
        (hash1 n key x (if inc then counter +[64] Z.of_nat i else counter) flags
           (Z.lor flags fs) fe)) inputs;
  simd_degree_pow2 : ∃ e, 0 ≤ e ≤ 4 ∧ simd_degree = 2 ^ e
}.

(** ** Trees over a list *)

Definition tree_of (l : list Bytes) : tree Bytes := default (Leaf []) (build (length l) l).

Lemma tree_of_spec l :
  l ≠ [] → zlength l < 2 ^ 62 → shaped (tree_of l) ∧ leaves (tree_of l) = l.
Proof.
  intros Hne Hl. unfold tree_of.
  destruct (build_shaped l (length l) Hne Hl) as (t & -> & Hs & Ht); [lia|done].
Qed.

Lemma tree_of_unique t : shaped t → count t < 2 ^ 62 → tree_of (leaves t) = t.
Proof.
  intros Hs Hc. pose proof (count_pos t).
  destruct (tree_of_spec (leaves t)) as [Hs' Hl].
  - intros Heq. unfold count, zlength in *. rewrite Heq in *. simpl in *. lia.
  - done.
  - by apply shaped_unique.
Qed.

Lemma tree_of_one a : tree_of [a] = Leaf a.
Proof. done. Qed.

Lemma tree_of_app l r k :
  0 ≤ k < 60 → zlength l = 2 ^ k → 1 ≤ zlength r ≤ 2 ^ k →
  tree_of (l ++ r) = Node (tree_of l) (tree_of r).
Proof.
  intros Hk Hl Hr. assert (1 ≤ 2 ^ k < 2 ^ 60) as Hb.
  { split; [apply (Z.pow_le_mono_r 2 0); lia|apply Z.pow_lt_mono_r; lia]. }
  assert (l ≠ []) as Hln by (intros ->; unfold zlength in *; simpl in *; lia).
  assert (r ≠ []) as Hrn by (intros ->; unfold zlength in *; simpl in *; lia).
  destruct (tree_of_spec l Hln ltac:(lia)) as [Hsl Hll].
  destruct (tree_of_spec r Hrn ltac:(lia)) as [Hsr Hlr].
  rewrite <-(tree_of_unique (Node (tree_of l) (tree_of r))).
  - simpl. by rewrite Hll, Hlr.
  - simpl. split_and!; [done..|]. unfold count. rewrite Hll, Hlr, Hl.
    symmetry. apply previous_pow_of_two_unique; lia.
  - rewrite count_node. unfold count. rewrite Hll, Hlr. lia.
Qed.

(** The split of a list at the largest power of two below its length. *)
Lemma split_pow2 {A} (l : list A) :
  2 ≤ zlength l < 2 ^ 60 →
  ∃ k l1 l2, l = l1 ++ l2 ∧ 0 ≤ k < 60 ∧ zlength l1 = 2 ^ k ∧ 1 ≤ zlength l2 ≤ 2 ^ k.
Proof.
  intros Hl. destruct (previous_pow_of_two_spec (zlength l)) as (k & Hk & _ & Hs); [lia|].
  assert (1 ≤ 2 ^ k) by (apply (Z.pow_le_mono_r 2 0); lia).
  assert (k < 60) by (apply (Z.pow_lt_mono_r_iff 2); lia).
  exists k, (take (Z.to_nat (2 ^ k)) l), (drop (Z.to_nat (2 ^ k)) l).
  unfold zlength in *. rewrite take_drop, length_take, length_drop. split_and!; [done|lia..].
Qed.

Section tops.
Context (m : Bytes → Bytes → bool → Bytes).

(** One layer of parents; an odd child stays. *)
Fixpoint pair_up (l : list Bytes) : list Bytes :=
  match l with
  | a :: b :: l => m a b false :: pair_up l
  | _ => l
  end.

(** The two hashes under the root. *)
Definition top_pair (t : tree Bytes) : option (Bytes * Bytes) :=
  match t with
  | Leaf _ => None
  | Node l r => Some (root_of m false l, root_of m false r)
  end.

Lemma list_pairs_ind {A} (Q : list A → Prop) :
  Q [] → (∀ a, Q [a]) → (∀ a b l, Q l → Q (a :: b :: l)) → ∀ l, Q l.
Proof.
  intros H0 H1 H2. assert (∀ l, Q l ∧ ∀ a, Q (a :: l)) as H; [|intros l; apply H].
  induction l as [|b l [IH1 IH2]]; [by split|]. split; [done|]. intros a. by apply H2.
Qed.

Lemma pair_up_length l : zlength (pair_up l) = (zlength l + 1) / 2.
Proof.
  induction l as [| |a b l IH] using list_pairs_ind; [done..|]. simpl pair_up.
  rewrite !zlength_cons, IH. replace (1 + (1 + zlength l) + 1) with (zlength l + 1 + 1 * 2) by lia.
  rewrite Z.div_add by lia. lia.
Qed.

Lemma pair_up_app l r n : length l = (2 * n)%nat → pair_up (l ++ r) = pair_up l ++ pair_up r.
Proof.
  revert n. induction l as [| |a b l IH] using list_pairs_ind; intros n Hn; [done|simpl in Hn; lia|].
  destruct n as [|n]; [done|]. simpl. rewrite (IH n) by (simpl in Hn; lia). done.
Qed.

(** A layer of parents does not change the tree above it. *)
Lemma pair_up_tree l :
  1 ≤ zlength l < 2 ^ 60 →
  root_of m false (tree_of (pair_up l)) = root_of m false (tree_of l) ∧
  (3 ≤ zlength l → top_pair (tree_of (pair_up l)) = top_pair (tree_of l)).
Proof.
  remember (length l) as n eqn:Hn. revert l Hn.
  induction (Nat.lt_wf_0 n) as [n _ IH]. intros l -> Hl.
  destruct l as [|a [|b [|c l]]]; [unfold zlength in Hl; simpl in Hl; lia|..];
    [unfold zlength; simpl; split; [done|lia]..|].
  set (cs := a :: b :: c :: l) in *. assert (3 ≤ zlength cs) as H3 by (unfold zlength, cs; simpl; lia).
  clearbody cs. clear a b c l.
  destruct (split_pow2 cs ltac:(lia)) as (k & l1 & l2 & -> & Hk & Hl1 & Hl2).
  rewrite zlength_app in *. assert (k ≠ 0) by (intros ->; change (2 ^ 0) with 1 in *; lia).
  assert (2 ^ k = 2 * 2 ^ (k - 1)) as Hp by (rewrite <-Z.pow_succ_r by lia; f_equal; lia).
  assert (1 ≤ 2 ^ (k - 1)) by (apply (Z.pow_le_mono_r 2 0); lia).
  destruct (IH (length l1)) with (l := l1) as [Hr1 _];
    [unfold zlength in *; rewrite length_app; lia|done|lia|].
  destruct (IH (length l2)) with (l := l2) as [Hr2 _];
    [unfold zlength in *; rewrite length_app; lia|done|lia|].
  rewrite (pair_up_app l1 l2 (Z.to_nat (2 ^ (k - 1)))) by (unfold zlength in *; lia).
  rewrite (tree_of_app l1 l2 k) by lia.
  rewrite (tree_of_app (pair_up l1) (pair_up l2) (k - 1)).
  - simpl. rewrite Hr1, Hr2. done.
  - lia.
  - rewrite pair_up_length, Hl1, Hp. replace (2 * 2 ^ (k - 1) + 1) with (1 + 2 ^ (k - 1) * 2) by lia.
    by rewrite Z.div_add by lia.
  - rewrite pair_up_length. split; [apply Z.div_le_lower_bound; lia|].
    apply Z.lt_succ_r, Z.div_lt_upper_bound; lia.
Qed.
End tops.

(** ** Pieces of an input *)

Section pieces.
Context (size : nat).
Hypothesis Hsize : (0 < size)%nat.

(** The pieces of [size] bytes; the last one may be shorter. *)
Fixpoint pieces (fuel : nat) (input : Bytes) : list Bytes :=
  match fuel with
  | O => []
  | S fuel =>
      match input with
      | [] => []
      | _ => take size input :: pieces fuel (drop size input)
      end
  end.

Definition pieces_of (input : Bytes) : list Bytes := pieces (length input) input.

Lemma pieces_fuel fuel input : (length input ≤ fuel)%nat → pieces fuel input = pieces_of input.
Proof.
  unfold pieces_of. remember (length input) as n eqn:Hn. revert fuel input Hn.
  induction (Nat.lt_wf_0 n) as [n _ IH]. intros fuel input -> Hf.
  destruct input as [|b input]; [by destruct fuel|]. destruct fuel as [|fuel]; [simpl in Hf; lia|].
  cbn [pieces length]. f_equal. set (rest := drop size (b :: input)).
  assert (length rest < length (b :: input))%nat as Hr
    by (unfold rest; rewrite length_drop; simpl length; lia).
  rewrite (IH (length rest)); [|done|done|simpl in *; lia].
  rewrite (IH (length rest) Hr (length input)); [done|done|simpl in *; lia].
Qed.

Lemma pieces_cons input :
  input ≠ [] → pieces_of input = take size input :: pieces_of (drop size input).
Proof.
  intros Hne. destruct input as [|b input]; [done|]. unfold pieces_of at 1. cbn [pieces length].
  f_equal. apply pieces_fuel. rewrite length_drop. simpl length. lia.
Qed.

(** An input is cut after a number of whole pieces. *)
Lemma pieces_app n x y :
  length x = (size * n)%nat → pieces_of (x ++ y) = pieces_of x ++ pieces_of y ∧ length (pieces_of x) = n.
Proof.
  revert x. induction n as [|n IH]; intros x Hx.
  { rewrite Nat.mul_0_r in Hx. by destruct x. }
  assert (x ≠ []) as Hne by (intros ->; cbn [length] in Hx; nia).
  rewrite (pieces_cons x) by done. rewrite (pieces_cons (x ++ y)) by (by destruct x).
  rewrite take_app_le, drop_app_le by nia.
  destruct (IH (drop size x)) as [-> Hl]; [rewrite length_drop; nia|].
  split; [done|]. simpl length. by rewrite Hl.
Qed.

Lemma pieces_short x : x ≠ [] → (length x ≤ size)%nat → pieces_of x = [x].
Proof. intros Hne Hx. by rewrite pieces_cons, take_ge, drop_ge. Qed.

Lemma pieces_count x : zlength (pieces_of x) = (zlength x + (Z.of_nat size - 1)) / Z.of_nat size.
Proof.
  remember (length x) as n eqn:Hn. revert x Hn.
  induction (Nat.lt_wf_0 n) as [n _ IH]. intros x ->.
  destruct (decide (x = [])) as [->|Hne].
  { symmetry. apply Z.div_small. unfold zlength. simpl. lia. }
  rewrite pieces_cons, zlength_cons by done.
  assert (0 < length x)%nat by (destruct x; [done|simpl; lia]).
  assert (zlength (drop size x) = Z.max 0 (zlength x - Z.of_nat size)) as Hd
    by (unfold zlength; rewrite length_drop; lia).
  rewrite (IH (length (drop size x))), Hd; [|rewrite length_drop; lia|done].
  destruct (decide (zlength x ≤ Z.of_nat size)).
  - rewrite Z.max_l, Z.div_small by lia. apply Z.div_unique with (zlength x - 1); unfold zlength in *; lia.
  - rewrite Z.max_r by lia.
    replace (zlength x + (Z.of_nat size - 1))
      with (zlength x - Z.of_nat size + (Z.of_nat size - 1) + 1 * Z.of_nat size) by lia.
    rewrite Z.div_add by lia. lia.
Qed.

Lemma pieces_lookup d x i :
  pieces_of d !! i = Some x →
  x ≠ [] ∧ (length x ≤ size)%nat ∧ (size * i < length d)%nat ∧ ((length d ≤ size)%nat → i = 0%nat ∧ x = d).
Proof.
  revert d. induction i as [|i IH]; intros d Hx.
  all: assert (d ≠ []) as Hne by (by intros ->).
  all: assert (0 < length d)%nat by (destruct d; [done|simpl; lia]).
  all: rewrite pieces_cons in Hx by done; cbn [lookup list_lookup] in Hx.
  - injection Hx as <-. split_and!; [|rewrite length_take; lia|lia|].
    + intros Hn. apply (f_equal length) in Hn. rewrite length_take in Hn. simpl in Hn. lia.
    + intros Hd. split; [done|]. by apply take_ge.
  - destruct (IH (drop size d) Hx) as (Hxne & Hxl & Hi & _). rewrite length_drop in Hi.
    split_and!; [done|done|lia|lia].
Qed.
End pieces.

(** ** Chunks *)

Section chunks.
Context {P : Platform}.
#[local] Arguments BLOCK_LEN : simpl never.
#[local] Arguments CHUNK_LEN : simpl never.

(** Compress the first [n] blocks of the input. *)
Fixpoint absorb (n : nat) (s : ChunkState) (x : Bytes) : ChunkState :=
  match n with
  | O => s
  | S n => absorb n (compress_block s (take BLOCK_LEN x)) (drop BLOCK_LEN x)
  end.

(** The blocks of an input before its last one. *)
Definition full_blocks (x : Bytes) : nat := ((length x - 1) / 64)%nat.

Lemma full_blocks_spec x :
  (x ≠ [] → 64 * full_blocks x < length x)%nat ∧ (length x ≤ 64 * full_blocks x + 64)%nat.
Proof.
  unfold full_blocks. pose proof (Nat.div_mod (length x - 1) 64 ltac:(lia)).
  pose proof (Nat.mod_upper_bound (length x - 1) 64 ltac:(lia)).
  split; [|lia]. destruct x; [done|]. simpl length in *. lia.
Qed.

Lemma full_blocks_unique x q :
  (64 * q < length x ≤ 64 * q + 64)%nat → full_blocks x = q.
Proof.
  intros Hq. unfold full_blocks. symmetry. apply (Nat.div_unique _ _ _ (length x - 1 - 64 * q)); lia.
Qed.

Lemma absorb_add a b s x : absorb (a + b) s x = absorb b (absorb a s x) (drop (64 * a) x).
Proof.
  revert s x. induction a as [|a IH]; intros s x; [done|]. cbn [Nat.add absorb].
  rewrite IH, drop_drop. do 2 f_equal. unfold BLOCK_LEN. lia.
Qed.

Lemma absorb_app a s x y : (64 * a ≤ length x)%nat → absorb a s (x ++ y) = absorb a s x.
Proof.
  revert s x. induction a as [|a IH]; intros s x Ha; [done|]. cbn [absorb].
  unfold BLOCK_LEN in *. rewrite take_app_le, drop_app_le by lia. rewrite IH; [done|].
  rewrite length_drop. lia.
Qed.

Lemma absorb_fields n s x :
  cs_chunk_counter (absorb n s x) = cs_chunk_counter s ∧ cs_buf (absorb n s x) = cs_buf s ∧
  cs_buf_len (absorb n s x) = cs_buf_len s ∧ cs_flags (absorb n s x) = cs_flags s.
Proof.
  revert s x. induction n as [|n IH]; intros s x; [done|]. cbn [absorb].
  by destruct (IH (compress_block s (take BLOCK_LEN x)) (drop BLOCK_LEN x)) as (-> & -> & -> & ->).
Qed.

Lemma compress_blocks_absorb fuel s x :
  (full_blocks x ≤ fuel)%nat →
  compress_blocks fuel s x = (absorb (full_blocks x) s x, drop (64 * full_blocks x) x).
Proof.
  revert s x. induction fuel as [|fuel IH]; intros s x Hf.
  { assert (full_blocks x = 0%nat) as -> by lia. done. }
  cbn [compress_blocks]. unfold BLOCK_LEN at 1. case_bool_decide as Hx.
  - assert (full_blocks x = S (full_blocks (drop BLOCK_LEN x))) as Hq.
    { apply full_blocks_unique. pose proof (full_blocks_spec (drop BLOCK_LEN x)) as [H1 H2].
      rewrite length_drop in *. unfold BLOCK_LEN in *. specialize (H1 ltac:(intros He; apply (f_equal length) in He; rewrite length_drop in He; simpl in He; lia)). lia. }
    rewrite IH by lia. rewrite Hq. cbn [absorb]. rewrite drop_drop.
    do 2 f_equal. unfold BLOCK_LEN. lia.
  - assert (full_blocks x = 0%nat) as ->; [|done].
    unfold full_blocks. apply Nat.div_small. lia.
Qed.

(** The end of an update: the last block goes to the buffer. *)
Definition with_buf (s : ChunkState) (x : Bytes) : ChunkState :=
  mkChunkState (cs_cv s) (cs_chunk_counter s) (x ++ replicate (64 - length x) 0) (length x)
    (cs_blocks_compressed s) (cs_flags s).

Definition aligned (s : ChunkState) : Prop := cs_buf_len s = 0%nat ∧ cs_buf s = replicate 64 0.

Lemma fill_aligned s x :
  aligned s → (length x ≤ 64)%nat → fill_buf s x = (with_buf s x, []).
Proof.
  intros [Hl Hb] Hx. unfold fill_buf, with_buf. rewrite Hl, Hb. unfold BLOCK_LEN.
  rewrite Nat.sub_0_r, Nat.min_r by done. rewrite (take_ge x), (drop_ge x) by lia.
  simpl (0 + _)%nat. by rewrite drop_replicate.
Qed.

Lemma update_aligned s x :
  aligned s →
  chunk_update s x = with_buf (absorb (full_blocks x) s x) (drop (64 * full_blocks x) x).
Proof.
  intros Hs. unfold chunk_update. rewrite bool_decide_false by (destruct Hs; lia).
  rewrite compress_blocks_absorb.
  - rewrite fill_aligned; [done| |].
    + destruct (absorb_fields (full_blocks x) s x) as (_ & Hb & Hl & _).
      unfold aligned. by rewrite Hb, Hl.
    + pose proof (full_blocks_spec x) as [_ H2]. rewrite length_drop. lia.
  - unfold full_blocks. pose proof (Nat.div_le_upper_bound (length x - 1) 64 (length x)). lia.
Qed.

Lemma aligned_new key counter flags : aligned (chunk_new key counter flags).
Proof. done. Qed.

Lemma aligned_absorb n s x : aligned s → aligned (absorb n s x).
Proof.
  intros [Hl Hb]. destruct (absorb_fields n s x) as (_ & Hb' & Hl' & _). split; congruence.
Qed.

(** More bytes for the buffer: they all fit, or they fill it. *)
Lemma update_fits s x y :
  (0 < length x)%nat → (length x + length y ≤ 64)%nat →
  chunk_update (with_buf s x) y = with_buf s (x ++ y).
Proof.
  intros Hx Hy. unfold chunk_update, with_buf, fill_buf. cbn [cs_buf_len cs_buf cs_cv cs_chunk_counter
    cs_blocks_compressed cs_flags]. rewrite bool_decide_true by done. unfold BLOCK_LEN.
  rewrite Nat.min_r by lia. rewrite (drop_ge y), (take_ge y) by lia. cbn [compress_blocks length].
  rewrite Nat.min_r by lia. cbn [cs_buf_len cs_buf cs_cv cs_chunk_counter cs_blocks_compressed cs_flags].
  rewrite Nat.add_0_r, (take_nil 0), app_nil_l, take_drop. cbn [fst]. f_equal.
  - rewrite take_app_length. rewrite drop_app_ge by lia.
    rewrite drop_replicate, <-app_assoc, length_app. do 3 f_equal. lia.
  - by rewrite length_app.
Qed.

Lemma update_fills s x y z :
  aligned s → (0 < length x)%nat → length (x ++ y) = 64%nat → z ≠ [] →
  chunk_update (with_buf s x) (y ++ z) = chunk_update (compress_block s (x ++ y)) z.
Proof.
  intros [Hl Hb] Hx Hy Hz. rewrite length_app in Hy.
  assert (aligned (compress_block s (x ++ y))) as Hal by done.
  unfold chunk_update at 1, fill_buf. cbn [cs_buf_len cs_buf cs_cv cs_chunk_counter
    cs_blocks_compressed cs_flags with_buf]. rewrite bool_decide_true by done. unfold BLOCK_LEN.
  assert ((64 - length x) `min` length (y ++ z) = length y)%nat as -> by (rewrite length_app; lia).
  rewrite !take_app_length, !drop_app_length.
  rewrite drop_ge by (rewrite length_app, length_replicate; lia). rewrite app_nil_r.
  destruct z as [|b z]; [done|].
  unfold chunk_update. rewrite bool_decide_false by (destruct Hal; lia).
  assert (reset_buf (compress_block (mkChunkState (cs_cv s) (cs_chunk_counter s) (x ++ y)
    (length x + length y) (cs_blocks_compressed s) (cs_flags s)) (x ++ y))
    = compress_block s (x ++ y)) as Heq.
  { unfold reset_buf, compress_block, start_flag. simpl. rewrite Hl, Hb. done. }
  cbn [cs_buf]. rewrite Heq. done.
Qed.

(** The updates of a chunk can be cut anywhere. *)
Lemma chunk_update_app s x y :
  aligned s → chunk_update (chunk_update s x) y = chunk_update s (x ++ y).
Proof.
  intros Hs. destruct (decide (x = [])) as [->|Hx].
  { rewrite (update_aligned s []) by done. cbn [full_blocks absorb length]. f_equal.
    destruct Hs as [Hl Hb], s. simpl in *. subst. done. }
  rewrite (update_aligned s x) by done. pose proof (full_blocks_spec x) as [H1 H2]. specialize (H1 Hx).
  set (q := full_blocks x) in *. set (tl := drop (64 * q) x).
  assert (length tl = length x - 64 * q)%nat as Htl by (unfold tl; by rewrite length_drop).
  assert (x = take (64 * q) x ++ tl) as Hxs by (unfold tl; by rewrite take_drop).
  destruct (decide (length tl + length y ≤ 64)%nat) as [Hfit|Hfill].
  - rewrite update_fits by lia. rewrite update_aligned by done.
    rewrite (full_blocks_unique (x ++ y) q) by (rewrite length_app; lia).
    rewrite absorb_app by lia. rewrite drop_app_le by lia. done.
  - set (want := (64 - length tl)%nat). rewrite <-(take_drop want y) at 1.
    rewrite (update_fills _ tl (take want y) (drop want y)).
    + rewrite update_aligned by exact (aligned_absorb q s x Hs). rewrite (update_aligned s (x ++ y)) by done.
      set (z := drop want y).
      assert (length z = length y - want)%nat as Hz by (unfold z; by rewrite length_drop).
      assert (z ≠ []) as Hzne by (intros ->; simpl in Hz; unfold want in *; lia).
      pose proof (full_blocks_spec z) as [Hz1 Hz2]. specialize (Hz1 Hzne).
      rewrite (full_blocks_unique (x ++ y) (q + (1 + full_blocks z)))
        by (rewrite length_app; unfold want in *; lia).
      assert (drop (64 * q) (x ++ y) = (tl ++ take want y) ++ z) as Hd1.
      { rewrite drop_app_le by lia. fold tl. unfold z. by rewrite <-app_assoc, take_drop. }
      assert (length (tl ++ take want y) = 64%nat) as H64
        by (rewrite length_app, length_take; unfold want in *; lia).
      rewrite absorb_add, (absorb_app q s x y), Hd1 by lia. cbn [Nat.add absorb]. unfold BLOCK_LEN.
      rewrite take_app_length', drop_app_length' by done. f_equal.
      rewrite Nat.mul_add_distr_l, <-drop_drop, Hd1.
      rewrite drop_app_ge by lia. f_equal. lia.
    + by apply aligned_absorb.
    + lia.
    + rewrite length_app, length_take. unfold want. lia.
    + intros He%(f_equal length). rewrite length_drop in He. unfold want in *. simpl in He. lia.
Qed.
End chunks.

(** ** Chunks and parents in parallel *)

Section wide.
Context {P : Platform} {PL : PlatformLaws P} (iv : IV).
#[local] Abbreviation key := (iv_key iv).
#[local] Abbreviation flags := (iv_flags iv).
#[local] Arguments compress_in_place : simpl never.

Lemma le_bytes_length ws : length ws = 8%nat → length (le_bytes_from_words_32 ws) = 32%nat.
Proof.
  intros Hw. unfold le_bytes_from_words_32. destruct ws as [|? [|? [|? [|? [|? [|? [|? [|? [|]]]]]]]]]; try done.
Qed.

Lemma compress_length cv block len counter fl :
  length (compress_in_place cv block len counter fl) = 8%nat.
Proof. by rewrite compress_in_place_words. Qed.

Lemma chaining_value_length o : length (chaining_value o) = 32%nat.
Proof. apply le_bytes_length, compress_length. Qed.

Lemma root_hash_length o : length (root_hash o) = 32%nat.
Proof. apply le_bytes_length, compress_length. Qed.

Lemma iv_merge_length a b f : length (iv_merge iv a b f) = 32%nat.
Proof. unfold iv_merge. destruct f; [apply root_hash_length|apply chaining_value_length]. Qed.

(** [chunks_exact] on whole pieces and a shorter rest. *)
Lemma chunks_exact_concat n pieces rest fuel :
  (0 < n)%nat → Forall (λ x, length x = n) pieces → (length rest < n)%nat →
  (length (concat pieces) + length rest ≤ fuel)%nat →
  chunks_exact fuel n (concat pieces ++ rest) = (pieces, rest).
Proof.
  intros Hn Hp Hr. revert fuel. induction Hp as [|p pieces Hlen _ IH]; intros fuel Hf.
  - simpl in *. destruct fuel as [|fuel]; [done|]. simpl. by rewrite bool_decide_false by lia.
  - simpl in *. rewrite length_app in Hf. destruct fuel as [|fuel]; [lia|]. simpl.
    rewrite <-app_assoc, bool_decide_true by (rewrite length_app; lia).
    rewrite drop_app_length', IH by lia. by rewrite take_app_length'.
Qed.

Lemma concat_pairs l :
  Forall is_hash l →
  ∃ pieces rest, concat l = concat pieces ++ rest ∧ Forall (λ x, length x = BLOCK_LEN) pieces ∧
    (length rest < BLOCK_LEN)%nat ∧
    pair_up (iv_merge iv) l
    = ((λ x, chaining_value (mkOutput key x (Z.of_nat BLOCK_LEN) 0 (Z.lor flags PARENT))) <$> pieces)
      ++ (match rest with [] => [] | _ => [rest] end).
Proof.
  induction l as [|a|a b l IH] using list_pairs_ind; intros Hl.
  - exists [], []. split_and!; [done|constructor|unfold BLOCK_LEN; simpl; lia|done].
  - apply Forall_cons in Hl as [Ha _]. exists [], a. simpl. rewrite app_nil_r.
    split_and!; [done|constructor|rewrite Ha; unfold BLOCK_LEN; lia|]. by destruct a.
  - apply Forall_cons in Hl as [Ha [Hb Hl]%Forall_cons].
    destruct (IH Hl) as (pieces & rest & Hc & Hp & Hr & Hpair).
    exists ((a ++ b) :: pieces), rest. simpl. rewrite Hc, Hpair, <-!app_assoc.
    split_and!; [done| |done|done]. constructor; [|done]. rewrite length_app, Ha, Hb. done.
Qed.

Lemma compress_parents_pairs l :
  Forall is_hash l → compress_parents_parallel l key flags = pair_up (iv_merge iv) l.
Proof.
  intros Hl. destruct (concat_pairs l Hl) as (pieces & rest & Hc & Hp & Hr & ->).
  unfold compress_parents_parallel. rewrite Hc.
  rewrite chunks_exact_concat; [|unfold BLOCK_LEN; lia|done|done|rewrite length_app; lia].
  rewrite (hash_many_each pieces _ _ _ _ _ _ 1) by (by rewrite Nat.mul_1_r).
  assert (imap (λ (i : nat) x, le_bytes_from_words_32
      (hash1 1 key x 0 (Z.lor flags PARENT) (Z.lor (Z.lor flags PARENT) 0) 0)) pieces
    = (λ x, chaining_value (mkOutput key x (Z.of_nat BLOCK_LEN) 0 (Z.lor flags PARENT))) <$> pieces) as ->.
  { clear Hc. induction Hp as [|x pieces Hx _ IH]; [done|]. rewrite imap_cons. simpl. f_equal; [|exact IH].
    unfold chaining_value. simpl. rewrite !Z.lor_0_r, take_ge by lia. done. }
  destruct rest; [by rewrite app_nil_r|done].
Qed.

(** ** The chaining values of the chunks *)

Definition chunk_cv (counter : Z) (x : Bytes) : Bytes :=
  chaining_value (chunk_output (chunk_update (chunk_new key counter flags) x)).

Lemma chunk_cv_length counter x : is_hash (chunk_cv counter x).
Proof. apply chaining_value_length. Qed.

(** The loop over the blocks against the blocks of [hash1]. *)
Lemma absorb_hash1 n s x :
  length x = (64 * S n)%nat → 0 ≤ cs_blocks_compressed s → cs_blocks_compressed s + Z.of_nat n < 256 →
  hash1 (S n) (cs_cv s) x (cs_chunk_counter s) (cs_flags s) (Z.lor (cs_flags s) (start_flag s)) CHUNK_END
  = compress_in_place (cs_cv (absorb n s x)) (drop (64 * n) x) 64 (cs_chunk_counter s)
      (Z.lor (Z.lor (cs_flags s) (start_flag (absorb n s x))) CHUNK_END).
Proof.
  revert s x. induction n as [|n IH]; intros s x Hx H0 Hn.
  { cbn [hash1 absorb Nat.mul]. unfold BLOCK_LEN. by rewrite take_ge by lia. }
  set (s' := compress_block s (take BLOCK_LEN x)).
  assert (cs_blocks_compressed s' = cs_blocks_compressed s + 1) as Hb.
  { unfold s', compress_block. cbn [cs_blocks_compressed]. apply wrap_small. unfold in_width. lia. }
  assert (start_flag s' = 0) as Hsf by (unfold start_flag; rewrite Hb; by rewrite bool_decide_false by lia).
  specialize (IH s' (drop BLOCK_LEN x)). rewrite Hb, Hsf, Z.lor_0_r in IH.
  change (cs_chunk_counter s') with (cs_chunk_counter s) in IH.
  change (cs_flags s') with (cs_flags s) in IH.
  cbn [absorb]. fold s'. replace (drop (64 * S n) x) with (drop (64 * n) (drop BLOCK_LEN x))
    by (rewrite drop_drop; f_equal; unfold BLOCK_LEN; lia).
  rewrite <-IH; [done|rewrite length_drop; unfold BLOCK_LEN; lia|lia|lia].
Qed.

Lemma chunk_cv_blocks n counter x :
  length x = (64 * S n)%nat → Z.of_nat n < 256 →
  chunk_cv counter x
  = le_bytes_from_words_32 (hash1 (S n) key x counter flags (Z.lor flags CHUNK_START) CHUNK_END).
Proof.
  intros Hx Hn. unfold chunk_cv. rewrite update_aligned by done.
  rewrite (full_blocks_unique x n) by lia.
  pose proof (absorb_hash1 n (chunk_new key counter flags) x Hx ltac:(done) Hn) as Hh.
  cbn [chunk_new cs_cv cs_chunk_counter cs_flags] in Hh.
  change (start_flag (chunk_new key counter flags)) with CHUNK_START in Hh. rewrite Hh.
  destruct (absorb_fields n (chunk_new key counter flags) x) as (Hc & _ & _ & Hf).
  set (s := absorb n (chunk_new key counter flags) x) in *.
  set (last := drop (64 * n) x).
  assert (length last = 64%nat) as Hl by (unfold last; rewrite length_drop; lia).
  unfold chaining_value, chunk_output, with_buf. cbn [o_input_chaining_value o_block o_block_len
    o_counter o_flags cs_cv cs_buf cs_buf_len cs_chunk_counter cs_flags].
  clearbody s last. rewrite Hl, Hc, Hf. change (replicate (64 - 64) 0) with (@nil Z).
  rewrite app_nil_r. reflexivity.
Qed.

Lemma chunk_cv_hash1 counter x :
  length x = CHUNK_LEN →
  chunk_cv counter x
  = le_bytes_from_words_32 (hash1 16 key x counter flags (Z.lor flags CHUNK_START) CHUNK_END).
Proof. intros Hx. by apply (chunk_cv_blocks 15). Qed.

(** The chunks of an input. *)
Definition chunks_of (input : Bytes) : list Bytes := pieces_of CHUNK_LEN input.

Lemma chunk_len_pos : (0 < CHUNK_LEN)%nat.
Proof. unfold CHUNK_LEN. lia. Qed.

Lemma chunks_cons input :
  input ≠ [] → chunks_of input = take CHUNK_LEN input :: chunks_of (drop CHUNK_LEN input).
Proof. apply pieces_cons, chunk_len_pos. Qed.

Lemma chunks_app n x y :
  length x = (1024 * n)%nat → chunks_of (x ++ y) = chunks_of x ++ chunks_of y ∧ length (chunks_of x) = n.
Proof. apply (pieces_app CHUNK_LEN chunk_len_pos). Qed.

Lemma chunks_short x : x ≠ [] → (length x ≤ CHUNK_LEN)%nat → chunks_of x = [x].
Proof. apply pieces_short, chunk_len_pos. Qed.

Lemma chunks_count x : zlength (chunks_of x) = (zlength x + 1023) / 1024.
Proof. apply (pieces_count CHUNK_LEN chunk_len_pos). Qed.

Definition chunk_cvs (counter : Z) (input : Bytes) : list Bytes :=
  imap (λ i x, chunk_cv (counter + Z.of_nat i) x) (chunks_of input).

Lemma chunk_cvs_app n counter x y :
  length x = (1024 * n)%nat →
  chunk_cvs counter (x ++ y) = chunk_cvs counter x ++ chunk_cvs (counter + Z.of_nat n) y.
Proof.
  intros Hx. unfold chunk_cvs. destruct (chunks_app n x y Hx) as [-> Hn].
  rewrite imap_app, Hn. f_equal. apply imap_ext. intros i z _. simpl. f_equal. lia.
Qed.

Lemma chunk_cvs_count counter x : zlength (chunk_cvs counter x) = (zlength x + 1023) / 1024.
Proof. rewrite <-chunks_count. unfold chunk_cvs, zlength. by rewrite length_imap. Qed.

Lemma chunk_cvs_hashes counter x : Forall is_hash (chunk_cvs counter x).
Proof.
  apply Forall_lookup. intros i h Hi. unfold chunk_cvs in Hi. rewrite list_lookup_imap in Hi.
  destruct (chunks_of x !! i); simplify_eq/=. apply chunk_cv_length.
Qed.

(** Whole chunks and a shorter rest. *)
Lemma chunks_pieces x :
  ∃ pieces rest, x = concat pieces ++ rest ∧ Forall (λ y, length y = CHUNK_LEN) pieces ∧
    (length rest < CHUNK_LEN)%nat ∧ chunks_of x = pieces ++ match rest with [] => [] | _ => [rest] end.
Proof.
  remember (length x) as n eqn:Hn. revert x Hn.
  induction (Nat.lt_wf_0 n) as [n _ IH]. intros x ->.
  destruct (decide (length x < CHUNK_LEN)%nat) as [Hlt|Hge].
  - exists [], x. split_and!; [done|constructor|done|]. destruct x; [done|].
    apply chunks_short; [done|lia].
  - assert (0 < CHUNK_LEN)%nat as Hpos by (unfold CHUNK_LEN; lia).
    destruct (IH (length (drop CHUNK_LEN x))) with (x := drop CHUNK_LEN x) as (pieces & rest & Hx & Hp & Hr & Hc);
      [rewrite length_drop; lia|done|].
    exists (take CHUNK_LEN x :: pieces), rest. split_and!.
    + simpl. by rewrite <-app_assoc, <-Hx, take_drop.
    + constructor; [rewrite length_take; lia|done].
    + done.
    + rewrite chunks_cons by (intros ->; simpl in Hge; lia). by rewrite Hc.
Qed.

Lemma compress_chunks_cvs counter x :
  0 ≤ counter → counter + zlength x < 2 ^ 64 →
  compress_chunks_parallel x key counter flags = chunk_cvs counter x.
Proof.
  intros Hc0 Hc. unfold compress_chunks_parallel, chunk_cvs.
  destruct (chunks_pieces x) as (pieces & rest & Hx & Hp & Hr & ->).
  rewrite Hx at 1 2. rewrite chunks_exact_concat; [|unfold CHUNK_LEN; lia|done|done|rewrite length_app; lia].
  rewrite (hash_many_each pieces _ _ _ _ _ _ 16) by done.
  assert (length pieces ≤ length (concat pieces))%nat as Hlen.
  { clear Hx. induction Hp as [|p pieces Hpl _ IH]; [done|]. simpl. rewrite length_app, Hpl.
    unfold CHUNK_LEN. lia. }
  assert (∀ i : nat, (i ≤ length pieces)%nat → counter +[64] Z.of_nat i = counter + Z.of_nat i) as Hw.
  { intros i Hi. apply wrap_small. unfold in_width, zlength in *. rewrite Hx, length_app in Hc. lia. }
  assert (imap (λ (i : nat) y, le_bytes_from_words_32 (hash1 16 key y (counter +[64] Z.of_nat i) flags
      (Z.lor flags CHUNK_START) CHUNK_END)) pieces
    = imap (λ (i : nat) y, chunk_cv (counter + Z.of_nat i) y) pieces) as ->.
  { apply imap_ext. intros i y Hy. simpl. pose proof (lookup_lt_Some _ _ _ Hy).
    rewrite Hw, chunk_cv_hash1; [done| |lia]. rewrite Forall_lookup in Hp. by eapply Hp. }
  unfold zlength. rewrite Hw, imap_app by lia. destruct rest; [simpl; by rewrite app_nil_r|]. simpl. by rewrite Nat.add_0_r.
Qed.
(** ** Rows of chaining values *)

#[local] Abbreviation m := (iv_merge iv).

(** The number of values in a row that is as wide as possible. *)
Definition width : Z := Z.max simd_degree 2.

Lemma width_pow2 : ∃ k, 1 ≤ k ≤ 4 ∧ width = 2 ^ k.
Proof.
  destruct (simd_degree_pow2 (P := P)) as (e & He & Hd). unfold width. rewrite Hd.
  destruct (decide (e = 0)) as [->|]; [by exists 1|]. exists e. split; [lia|].
  apply Z.max_l. apply (Z.pow_le_mono_r 2 1); lia.
Qed.

(** The row [out] stands for the chaining values [cvs] below it. *)
Definition row (cvs out : list Bytes) : Prop :=
  Forall is_hash out ∧ root_of m false (tree_of out) = root_of m false (tree_of cvs) ∧
  (2 ≤ zlength cvs → 2 ≤ zlength out ∧ top_pair m (tree_of out) = top_pair m (tree_of cvs)) ∧
  1 ≤ zlength out ≤ width ∧ (zlength cvs = 1 → zlength out = 1) ∧
  (∀ k, 0 ≤ k → zlength cvs = 2 ^ k → width ≤ zlength cvs → zlength out = width).

Lemma row_self cvs :
  Forall is_hash cvs → 1 ≤ zlength cvs ≤ simd_degree → row cvs cvs.
Proof. intros Hh Hc. unfold row, width. split_and!; try done; try lia. Qed.

(** The row of a single chunk on either side. *)
Lemma row_ones lcvs rcvs a b :
  zlength lcvs = 1 → zlength rcvs = 1 → row lcvs [a] → row rcvs [b] → simd_degree = 1 →
  row (lcvs ++ rcvs) [a; b].
Proof.
  intros Hl Hr (Hha & Hra & _) (Hhb & Hrb & _) Hd. simpl in Hra, Hrb.
  assert (tree_of (lcvs ++ rcvs) = Node (tree_of lcvs) (tree_of rcvs)) as Ht
    by (apply (tree_of_app _ _ 0); simpl; lia).
  assert (tree_of [a; b] = Node (Leaf a) (Leaf b)) as Ht' by (apply (tree_of_app [a] [b] 0); done).
  unfold row, width. rewrite Ht, Ht', Hd, zlength_app, Hl, Hr. simpl. rewrite <-Hra, <-Hrb.
  change (zlength [a; b]) with 2. split_and!; try done; try lia.
  by apply (Forall_app_2 _ [a] [b]).
Qed.

Lemma pair_up_hashes l : Forall is_hash l → Forall is_hash (pair_up m l).
Proof.
  induction l as [| |a b l IH] using list_pairs_ind; intros Hl; [done..|].
  apply Forall_cons in Hl as [_ [_ Hl]%Forall_cons]. constructor; [apply iv_merge_length|by apply IH].
Qed.

(** One layer of parents over the rows of both sides. *)
Lemma row_parents lcvs rcvs lout rout k :
  0 ≤ k < 60 → zlength lcvs = 2 ^ k → width ≤ 2 ^ k → 1 ≤ zlength rcvs ≤ 2 ^ k →
  row lcvs lout → row rcvs rout → row (lcvs ++ rcvs) (pair_up m (lout ++ rout)).
Proof.
  intros Hk Hl Hw Hr (Hhl & Hrl & _ & _ & _ & Hfl) (Hhr & Hrr & _ & Hwr & _ & Hfr).
  specialize (Hfl k ltac:(lia) Hl ltac:(lia)). destruct width_pow2 as (w & Hw' & Hwp).
  assert (2 ≤ 2 ^ w ≤ 2 ^ 4) by (split; [apply (Z.pow_le_mono_r 2 1)|apply Z.pow_le_mono_r]; lia).
  assert (2 ^ 4 < 2 ^ 60) by done.
  assert (tree_of (lcvs ++ rcvs) = Node (tree_of lcvs) (tree_of rcvs)) as Ht by (apply (tree_of_app _ _ k); lia).
  assert (tree_of (lout ++ rout) = Node (tree_of lout) (tree_of rout)) as Ht'
    by (apply (tree_of_app _ _ w); lia).
  assert (zlength (lout ++ rout) = width + zlength rout) as Hlen by (rewrite zlength_app; lia).
  destruct (pair_up_tree m (lout ++ rout)) as [Hroot Htop]; [lia|].
  specialize (Htop ltac:(lia)). rewrite Ht' in Hroot, Htop. simpl in Hroot, Htop.
  assert (zlength (pair_up m (lout ++ rout)) = (width + zlength rout + 1) / 2) as Hpl
    by (rewrite pair_up_length, Hlen; done).
  assert (2 ^ w = 2 * 2 ^ (w - 1)) as H2w by (rewrite <-Z.pow_succ_r by lia; f_equal; lia).
  assert (2 ≤ zlength (pair_up m (lout ++ rout)) ≤ width) as Hb.
  { rewrite Hpl, Hwp, H2w. split; [apply Z.div_le_lower_bound; lia|].
    apply Z.lt_succ_r, Z.div_lt_upper_bound; lia. }
  unfold row. rewrite Ht, zlength_app. simpl. rewrite Hroot, Htop, Hrl, Hrr. split_and!; try done; try lia.
  - apply pair_up_hashes. by apply Forall_app.
  - intros _. split; [lia|done].
  - intros j Hj Hn _. assert (zlength rcvs = 2 ^ k) as Hrk.
    { assert (2 ^ k < 2 ^ j ≤ 2 ^ (k + 1)) as [H1 H2] by (rewrite Z.pow_add_r by lia; lia).
      apply Z.pow_lt_mono_r_iff in H1; [|lia..]. apply Z.pow_le_mono_r_iff in H2; [|lia..].
      assert (j = k + 1) as -> by lia. rewrite Z.pow_add_r in Hn by lia. lia. }
    rewrite Hpl, (Hfr k) by lia. rewrite Hwp, H2w. symmetry. apply Z.div_unique with 1; lia.
Qed.
Lemma left_len_spec n :
  1024 < n < 2 ^ 60 →
  ∃ k, 0 ≤ k < 60 ∧ left_len n = 1024 * 2 ^ k ∧ 1024 * 2 ^ k < n ≤ 1024 * (2 * 2 ^ k).
Proof.
  intros Hn. unfold left_len. change (Z.of_nat CHUNK_LEN) with 1024.
  pose proof (Z.div_mod (n - 1) 1024 ltac:(lia)). pose proof (Z.mod_pos_bound (n - 1) 1024 ltac:(lia)).
  destruct (largest_power_of_two_leq_spec ((n - 1) / 1024)) as (k & Hk & -> & Hb); [lia|].
  exists k. assert (k < 60) by (apply (Z.pow_lt_mono_r_iff 2); lia). lia.
Qed.

(** The left side of an input: whole chunks, a power of two of them. *)
Lemma split_cvs counter input k :
  0 ≤ k → 1024 * 2 ^ k < zlength input ≤ 1024 * (2 * 2 ^ k) →
  let split := Z.to_nat (1024 * 2 ^ k) in
  zlength (take split input) = 1024 * 2 ^ k ∧
  zlength (drop split input) = zlength input - 1024 * 2 ^ k ∧
  chunk_cvs counter input
    = chunk_cvs counter (take split input) ++ chunk_cvs (counter + 2 ^ k) (drop split input) ∧
  zlength (chunk_cvs counter (take split input)) = 2 ^ k ∧
  1 ≤ zlength (chunk_cvs (counter + 2 ^ k) (drop split input)) ≤ 2 ^ k.
Proof.
  intros Hk Hi split. assert (1 ≤ 2 ^ k) by (apply (Z.pow_le_mono_r 2 0); lia).
  assert (zlength (take split input) = 1024 * 2 ^ k) as Hl1
    by (unfold zlength, split in *; rewrite length_take; lia).
  assert (zlength (drop split input) = zlength input - 1024 * 2 ^ k) as Hl2
    by (unfold zlength, split in *; rewrite length_drop; lia).
  split_and!; [done|done| | | |].
  - rewrite <-(take_drop split input) at 1. rewrite (chunk_cvs_app (Z.to_nat (2 ^ k)));
      [by rewrite Z2Nat.id by lia|]. unfold zlength in Hl1. lia.
  - rewrite chunk_cvs_count, Hl1. symmetry. apply Z.div_unique with 1023; lia.
  - rewrite chunk_cvs_count, Hl2. apply Z.div_le_lower_bound; lia.
  - rewrite chunk_cvs_count, Hl2. apply Z.lt_succ_r, Z.div_lt_upper_bound; lia.
Qed.

(** The array that both sides are written to holds their values one after the
    other. *)
Lemma combine_rows lcvs rcvs lout rout k (left : Bytes) :
  0 ≤ k < 60 → zlength left = 1024 * 2 ^ k → zlength lcvs = 2 ^ k → 1 ≤ zlength rcvs ≤ 2 ^ k →
  simd_degree < 2 ^ k + zlength rcvs → row lcvs lout → row rcvs rout →
  let degree :=
    if bool_decide (length left = CHUNK_LEN) then 1%nat else Z.to_nat (Z.max simd_degree 2) in
  let cv_array := lout ++ replicate (degree - length lout) (replicate 32 0) ++ rout in
  ∃ out,
    (if bool_decide (degree < length lout)%nat then None
     else if bool_decide (length lout = 1%nat) then Some (take 2 cv_array)
     else Some (compress_parents_parallel (take (length lout + length rout) cv_array) key flags))
    = Some out ∧ row (lcvs ++ rcvs) out.
Proof.
  intros Hk Hleft Hl Hr Hd Hlrow Hrrow degree cv_array.
  destruct (simd_degree_pow2 (P := P)) as (e & He & Hde).
  assert (1 ≤ 2 ^ e) by (apply (Z.pow_le_mono_r 2 0); lia).
  pose proof Hlrow as (Hlh & _ & _ & _ & Hl1 & Hlw). pose proof Hrrow as (Hrh & _ & _ & _ & Hr1 & _).
  subst cv_array degree.
  assert (length left = CHUNK_LEN ↔ 2 ^ k = 1) as Hone by (unfold zlength, CHUNK_LEN in *; lia).
  destruct (decide (2 ^ k = 1)) as [H1|H1].
  - rewrite H1 in *. specialize (Hl1 Hl). specialize (Hr1 ltac:(lia)).
    rewrite (bool_decide_true (length left = _)) by tauto.
    destruct lout as [|a [|]]; [done| |unfold zlength in Hl1; simpl in Hl1; lia].
    destruct rout as [|b [|]]; [done| |unfold zlength in Hr1; simpl in Hr1; lia].
    exists [a; b]. split; [done|]. apply row_ones; [done|lia|done|done|lia].
  - rewrite (bool_decide_false (length left = _)) by tauto. fold width.
    assert (1 ≤ 2 ^ k) by (apply (Z.pow_le_mono_r 2 0); lia).
    assert (e ≤ k) as Hek.
    { apply Z.lt_succ_r, (Z.pow_lt_mono_r_iff 2); [lia..|]. rewrite Z.pow_succ_r by lia. lia. }
    assert (width ≤ 2 ^ k) as Hwk.
    { unfold width. rewrite Hde. apply Z.max_lub; [apply Z.pow_le_mono_r; lia|lia]. }
    specialize (Hlw k ltac:(lia) Hl ltac:(lia)).
    assert (2 ≤ width) by (unfold width; lia).
    replace (Z.to_nat width) with (length lout) by (unfold zlength in Hlw; lia).
    rewrite bool_decide_false, bool_decide_false by (unfold zlength in Hlw; lia).
    rewrite Nat.sub_diag. cbn [replicate app]. rewrite take_ge by (rewrite length_app; lia).
    eexists. split; [done|]. rewrite compress_parents_pairs by (by apply Forall_app).
    by apply (row_parents _ _ _ _ k).
Qed.

Lemma compress_subtree_wide_row fuel input counter :
  1 ≤ zlength input < 2 ^ 60 → (length input ≤ fuel)%nat → 0 ≤ counter →
  counter + zlength input < 2 ^ 64 →
  ∃ out, compress_subtree_wide fuel input key counter flags = Some out ∧
    row (chunk_cvs counter input) out.
Proof.
  revert input counter. induction fuel as [|fuel IH]; intros input counter Hi Hf Hc Hb.
  { unfold zlength in Hi. lia. }
  cbn [compress_subtree_wide]. change (Z.of_nat CHUNK_LEN) with 1024.
  destruct (simd_degree_pow2 (P := P)) as (e & He & Hd).
  assert (1 ≤ 2 ^ e) by (apply (Z.pow_le_mono_r 2 0); lia). case_bool_decide as Hshort.
  { eexists. split; [done|]. rewrite compress_chunks_cvs by done.
    apply row_self; [apply chunk_cvs_hashes|]. rewrite chunk_cvs_count.
    split; [apply Z.div_le_lower_bound; lia|]. apply Z.lt_succ_r, Z.div_lt_upper_bound; lia. }
  destruct (left_len_spec (zlength input)) as (k & Hk & Hleft & Hk1); [lia|]. rewrite Hleft.
  assert (1 ≤ 2 ^ k) by (apply (Z.pow_le_mono_r 2 0); lia).
  destruct (split_cvs counter input k) as (Hl1 & Hl2 & Hcvs & Hn1 & Hn2); [lia|done|].
  set (split := Z.to_nat (1024 * 2 ^ k)) in *.
  rewrite Hl1. replace (1024 * 2 ^ k / 1024) with (2 ^ k) by (rewrite Z.mul_comm, Z.div_mul; lia).
  rewrite wrap_small by (unfold in_width; lia).
  destruct (IH (take split input) counter) as (lout & -> & Hlrow);
    [lia|unfold zlength in *; lia|lia|lia|].
  destruct (IH (drop split input) (counter + 2 ^ k)) as (rout & -> & Hrrow);
    [lia|unfold zlength in *; lia|lia|lia|]. cbn [mbind option_bind].
  rewrite Hcvs. apply (combine_rows _ _ lout rout k (take split input)); [done..| |done|done].
  pose proof (chunk_cvs_count counter input) as Hn. rewrite Hcvs, zlength_app, Hn1 in Hn. rewrite Hn.
  apply Z.le_succ_l, Z.div_le_lower_bound; lia.
Qed.
Lemma condense_top fuel l :
  Forall is_hash l → 2 ≤ zlength l < 2 ^ 60 → (length l ≤ fuel)%nat →
  ∃ a b, condense fuel l key flags = Some [a; b] ∧ top_pair m (tree_of l) = Some (a, b) ∧
    is_hash a ∧ is_hash b.
Proof.
  revert l. induction fuel as [|fuel IH]; intros l Hh Hl Hf.
  { unfold zlength in Hl. lia. }
  cbn [condense]. case_bool_decide as H2.
  - rewrite compress_parents_pairs by done.
    destruct (pair_up_tree m l) as [_ Htop]; [lia|]. rewrite <-Htop by (unfold zlength; lia).
    pose proof (pair_up_length m l) as Hp. pose proof (Z.div_mod (zlength l + 1) 2 ltac:(lia)).
    pose proof (Z.mod_pos_bound (zlength l + 1) 2 ltac:(lia)).
    apply IH; [by apply pair_up_hashes|unfold zlength in *; lia|unfold zlength in *; lia].
  - destruct l as [|a [|b [|]]]; [unfold zlength in Hl; simpl in *; lia..| |simpl in H2; lia].
    apply Forall_cons in Hh as [Ha [Hb _]%Forall_cons]. by exists a, b.
Qed.

(** The message of the top parent of a subtree, which may be the root. *)
Lemma compress_subtree_top input counter :
  1024 < zlength input < 2 ^ 60 → 0 ≤ counter → counter + zlength input < 2 ^ 64 →
  ∃ a b, compress_subtree_to_parent_node input key counter flags = Some (a ++ b) ∧
    top_pair m (tree_of (chunk_cvs counter input)) = Some (a, b) ∧ is_hash a ∧ is_hash b.
Proof.
  intros Hi Hc Hb. unfold compress_subtree_to_parent_node.
  destruct (compress_subtree_wide_row (length input) input counter) as (out & -> & Hh & _ & Htop & Hw & _);
    [lia..|]. cbn [mbind option_bind].
  destruct Htop as [H2 Htop].
  { rewrite chunk_cvs_count. apply Z.div_le_lower_bound; lia. }
  destruct width_pow2 as (w & Hw4 & Hwp). assert (2 ^ w ≤ 2 ^ 4) by (apply Z.pow_le_mono_r; lia).
  assert (2 ^ 4 < 2 ^ 60) by done.
  destruct (condense_top (length out) out Hh) as (a & b & -> & Ht & Ha & Hb'); [lia|lia|].
  exists a, b. cbn [mbind option_bind concat]. rewrite app_nil_r, take_ge.
  - split_and!; [done|congruence|done|done].
  - unfold is_hash in *. rewrite length_app. lia.
Qed.

Lemma iv_hash_spec input :
  zlength input < 2 ^ 60 →
  iv_hash_all_at_once iv input
  = Some (if bool_decide (zlength input ≤ 1024)
          then root_hash (chunk_output (chunk_update (chunk_new key 0 flags) input))
          else root_of (iv_merge iv) true (tree_of (chunk_cvs 0 input))).
Proof.
  intros Hi. unfold iv_hash_all_at_once, hash_all_at_once.
  assert ((length input ≤ CHUNK_LEN)%nat ↔ zlength input ≤ 1024) as Hiff by (unfold zlength, CHUNK_LEN; lia).
  destruct (decide (zlength input ≤ 1024)) as [Hs|Hs].
  - by rewrite !bool_decide_true by tauto.
  - rewrite !bool_decide_false by tauto.
    destruct (compress_subtree_top input 0) as (a & b & -> & Htop & _); [lia..|].
    cbn [mbind option_bind]. f_equal. destruct (tree_of _) as [|l r]; [done|].
    simpl in Htop. injection Htop as <- <-. done.
Qed.
(** ** The empty input *)

Lemma mix_zero state a b c d : mix state a b c d 0 0 = g state a b c d.
Proof.
  assert (∀ x, x +[32] 0 = wrap 32 x) as Hz by (intros x; by rewrite Z.add_0_r).
  assert (∀ x, wrap 32 (wrap 32 x) = wrap 32 x) as Hw by (intros x; unfold wrap; by rewrite Z.mod_mod).
  unfold mix, g. by rewrite !Hz, !Hw.
Qed.

#[local] Opaque mix g.

Lemma mix_round_zero state : mix_round (replicate 16 0) state = round state.
Proof. unfold mix_round, round, word. cbn [replicate nth]. rewrite !mix_zero. reflexivity. Qed.

Lemma permute_zero : permute (replicate 16 0) = replicate 16 0.
Proof. reflexivity. Qed.

Lemma iter_fixed {A B} (p : A → A) (f : A → B → B) (r : B → B) (z : A) n s :
  p z = z → (∀ s, f z s = r s) →
  Nat.iter n (λ s, (p s.1, f s.1 s.2)) (z, s) = (z, Nat.iter n r s).
Proof. intros Hp Hf. induction n as [|n IH]; [done|]. simpl. rewrite IH. simpl. by rewrite Hp, Hf. Qed.

Lemma rounds_zero n state : rounds n (replicate 16 0) state = Nat.iter n round state.
Proof. unfold rounds. by rewrite (iter_fixed permute mix_round round _ n state permute_zero mix_round_zero). Qed.

(** The constant that is computed at compile time is the hash of no bytes. *)
Lemma iv_hash_empty : iv = iv_new_internal key flags → iv_hash_all_at_once iv [] = Some (iv_empty iv).
Proof.
  intros Hiv. rewrite Hiv at 2. unfold iv_hash_all_at_once, hash_all_at_once.
  rewrite bool_decide_true by (simpl; lia). cbn [mbind option_bind]. f_equal.
  unfold root_hash, iv_new_internal, empty_hash. cbn [iv_empty o_input_chaining_value o_block o_block_len
    o_flags chunk_output]. rewrite compress_in_place_words. f_equal. unfold compress_words.
  change ((λ i : nat, from_le_bytes (take 4 (drop (4 * i) _))) <$> seq 0 16) with (replicate 16 0).
  rewrite rounds_zero. done.
Qed.
(** C23: The hash of an input is the root of the tree over its chunks, whatever
    the width of the platform: for no bytes it is the constant that is computed at
    compile time, for one chunk the root hash of the chunk, and otherwise the root
    of the tree of the shape of the specification over the chaining values of the
    chunks. *)
Theorem hash_all_at_once_tree input :
  iv = iv_new_internal key flags → zlength input < 2 ^ 60 →
  iv_hash_all_at_once iv input
  = Some (if bool_decide (input = []) then iv_empty iv
          else if bool_decide (zlength input ≤ 1024)
          then root_hash (chunk_output (chunk_update (chunk_new key 0 flags) input))
          else root_of (iv_merge iv) true (tree_of (chunk_cvs 0 input))).
Proof.
  intros Hiv Hi. case_bool_decide as Hne; [subst input; by apply iv_hash_empty|by apply iv_hash_spec].
Qed.
End wide.
