(* ===== verification/Verifier.v ===== *)
(** * Verifier: incremental verification of a stream

    [lib/b3fs/src/stream/verifier.rs]: a client that knows the root hash of a
    tree receives, block by block, a proof and the hash of the block.  The
    verifier keeps the hashes it expects on a stack; a proof replaces the hash on
    top by the hashes it is made of, a block takes the top off.  In collecting
    mode the whole array of the tree is rebuilt on the way. *)

From S2P Require Import Prelude Types Codec HashTree ProofBuf Blake3.
From stdpp Require Import base list sets.
From Stdlib Require Import ZArith Lia.
Open Scope Z_scope.

(** ** The verifier *)

(** [VerifierCollector]: no collector, or the counter and the tree collected. *)
Inductive Storage :=
| NoStorage
| WithHashTreeCollector (counter : Z) (tree : list Bytes).

Definition COLLECT (s : Storage) : bool :=
  match s with NoStorage => false | WithHashTreeCollector _ _ => true end.

Definition storage_counter (s : Storage) : Z :=
  match s with NoStorage => 0 | WithHashTreeCollector counter _ => counter end.

Inductive VerificationError :=
| InvalidProofSize
| InvalidProofWalk
| HashMismatch (actual expected : Bytes)
| Terminated.

Section verifier.
Context {P : Platform}.

(** The top of the stack is the head of the list. *)
Record IncrementalVerifier := mkIncrementalVerifier {
  v_iv : IV;
  v_parent_count : Z;
  v_stack : list Bytes;
  v_storage : Storage
}.

Definition verifier_new (iv : IV) (storage : Storage) : IncrementalVerifier :=
  mkIncrementalVerifier iv 0 [] storage.

Definition set_stack (parent_count : Z) (stack : list Bytes) (v : IncrementalVerifier)
    : IncrementalVerifier :=
  mkIncrementalVerifier (v_iv v) parent_count stack (v_storage v).

(** The parents that end with the block of number [total_entries] follow it;
    a number has fewer than 64 trailing zeros. *)
Fixpoint advance_parents (fuel : nat) (total_entries pc : Z) (stack tree : list Bytes)
    : option (Z * list Bytes * list Bytes) :=
  if bool_decide (Z.land total_entries 1 = 0) then
    match fuel with
    | O => None
    | S fuel =>
        match stack with
        | [] => None
        | hash :: stack =>
            advance_parents fuel (Z.shiftr total_entries 1) (pc -[8] 1) stack (tree ++ [hash])
        end
    end
  else Some (pc, stack, tree).

(** [VerifierCollector::advance]; [None] is the panic on an empty stack. *)
Definition advance (s : Storage) (pc : Z) (stack : list Bytes)
    : option (Z * list Bytes * Storage) :=
  match s, stack with
  | _, [] => None
  | NoStorage, _ :: stack => Some (pc, stack, NoStorage)
  | WithHashTreeCollector counter tree, hash :: stack =>
      let counter := counter +[64] 1 in
      '(pc, stack, tree) ← advance_parents 64 counter pc stack (tree ++ [hash]);
      Some (pc, stack, WithHashTreeCollector counter tree)
  end.

Definition set_root_hash (hash : Bytes) : M IncrementalVerifier unit :=
  v ← get;
  if negb (bool_decide (v_parent_count v = 0)) then panic
  else if bool_decide (hash = iv_empty (v_iv v)) then
    if COLLECT (v_storage v) then modify (λ v, set_stack 1 (hash :: v_stack v) v)
    else mret tt
  else modify (λ v, set_stack (v_parent_count v) (hash :: v_stack v) v).

Definition is_root (v : IncrementalVerifier) : bool :=
  bool_decide (length (v_stack v) = 1%nat) &&
  if COLLECT (v_storage v) then bool_decide (storage_counter (v_storage v) = 0)
  else bool_decide (v_parent_count v = 0).

Definition is_finished (v : IncrementalVerifier) : bool :=
  if COLLECT (v_storage v) then bool_decide (zlength (v_stack v) = v_parent_count v)
  else bool_decide (v_stack v = []).

(** The loop of [feed_proof_internal] over the items of the proof: [local] is
    the stack of at most two hashes, its bottom first. *)
Fixpoint feed_items (i : nat) (items : list (bool * Bytes)) (local : list Bytes)
    (v : IncrementalVerifier) : Result (list Bytes) VerificationError * IncrementalVerifier :=
  match items with
  | [] => (Ok local, v)
  | (should_flip, hash) :: items =>
      let '(local, v) :=
        match local with
        | [l; r] =>
            let parent := iv_merge (v_iv v) l r false in
            ([parent],
             if COLLECT (v_storage v)
             then set_stack (v_parent_count v +[8] 1) (parent :: v_stack v) v else v)
        | _ => (local, v)
        end in
      if should_flip then
        if COLLECT (v_storage v) || bool_decide (i = 0%nat) then (Err InvalidProofWalk, v)
        else feed_items (S i) items (hash :: local) v
      else
        feed_items (S i) items (local ++ [hash])
          (set_stack (v_parent_count v) (hash :: v_stack v) v)
  end.

Definition feed_proof_internal (root : bool) (expected_hash : Bytes) (proof : Bytes)
    : M IncrementalVerifier (Result unit VerificationError) :=
  items ← unwrap (proof_items proof);
  v ← get;
  let '(r, v) := feed_items 0 items [] v in
  modify (λ _, v);;
  match r with
  | Err e => mret (Err e)
  | Ok [l; r] =>
      let hash := iv_merge (v_iv v) l r root in
      modify (λ v, set_stack (if COLLECT (v_storage v) then v_parent_count v +[8] 1 else 1)
                     (v_stack v) v);;
      if bool_decide (hash ≠ expected_hash) then mret (Err (HashMismatch hash expected_hash))
      else mret (Ok tt)
  | Ok _ => panic
  end.

Definition feed_proof (proof : Bytes) : M IncrementalVerifier (Result unit VerificationError) :=
  v ← get;
  if is_finished v then mret (Err Terminated)
  else if bool_decide (proof = []) then mret (Ok tt)
  else if negb (is_valid_proof_len (zlength proof)) then mret (Err InvalidProofSize)
  else
    expected_hash ← unwrap (head (v_stack v));
    let old_stack := if COLLECT (v_storage v) then v_stack v else tail (v_stack v) in
    modify (set_stack (v_parent_count v) old_stack);;
    r ← feed_proof_internal (is_root v) expected_hash proof;
    match r with
    | Err e =>
        modify (λ v', set_stack (v_parent_count v)
          (let stack := drop (length (v_stack v') - length old_stack) (v_stack v') in
           if COLLECT (v_storage v') then stack else expected_hash :: stack) v');;
        mret (Err e)
    | Ok _ =>
        modify (λ v', set_stack (v_parent_count v')
          (let n := (length (v_stack v') - length old_stack)%nat in
           reverse (take n (v_stack v')) ++ drop n (v_stack v')) v');;
        mret (Ok tt)
    end.

Definition verify_hash (hash : Bytes) : M IncrementalVerifier (Result unit VerificationError) :=
  v ← get;
  if is_finished v then mret (Err Terminated)
  else
    expected ← unwrap (head (v_stack v));
    if bool_decide (hash ≠ expected) then mret (Err (HashMismatch hash expected))
    else
      '(pc, stack, storage) ← unwrap (advance (v_storage v) (v_parent_count v) (v_stack v));
      modify (λ v, mkIncrementalVerifier (v_iv v) pc stack storage);;
      mret (Ok tt).

(** [finalize]: the hashes left on the stack complete the tree. *)
Definition finalize (v : IncrementalVerifier) : option (list Bytes) :=
  match v_storage v with
  | WithHashTreeCollector _ tree => if is_finished v then Some (tree ++ v_stack v) else None
  | NoStorage => None
  end.

(** ** The loop over a proof *)

(** What the loop does to the local stack. *)
Definition local_step (iv : IV) (local : list Bytes) (item : bool * Bytes) : list Bytes :=
  let local := match local with [l; r] => [iv_merge iv l r false] | _ => local end in
  if item.1 then item.2 :: local else local ++ [item.2].

(** What it pushes to the stack of the verifier, in order. *)
Fixpoint pushed (iv : IV) (collect : bool) (items : list (bool * Bytes)) (local : list Bytes)
    : list Bytes :=
  match items with
  | [] => []
  | item :: items =>
      match local with
      | [l; r] => if collect then [iv_merge iv l r false] else []
      | _ => []
      end ++ (if item.1 then [] else [item.2]) ++ pushed iv collect items (local_step iv local item)
  end.

(** The number of parents among them. *)
Fixpoint merged (iv : IV) (items : list (bool * Bytes)) (local : list Bytes) : Z :=
  match items with
  | [] => 0
  | item :: items =>
      (match local with [_; _] => 1 | _ => 0 end) + merged iv items (local_step iv local item)
  end.

(** An item may be on the left unless the tree is collected or it is the first. *)
Definition walk_ok (collect : bool) (i : nat) (items : list (bool * Bytes)) : Prop :=
  match items with
  | [] => True
  | item :: rest => (item.1 = true → collect = false ∧ i ≠ 0%nat) ∧
      Forall (λ x, x.1 = true → collect = false) rest
  end.

#[local] Arguments iv_merge : simpl never.

Lemma wrap_add_l w a b : wrap w (wrap w a + b) = wrap w (a + b).
Proof. unfold wrap. apply Zplus_mod_idemp_l. Qed.

Lemma feed_items_run i items local v :
  walk_ok (COLLECT (v_storage v)) i items → in_width 8 (v_parent_count v) →
  feed_items i items local v
  = (Ok (foldl (local_step (v_iv v)) local items),
     set_stack
       (if COLLECT (v_storage v) then v_parent_count v +[8] merged (v_iv v) items local
        else v_parent_count v)
       (reverse (pushed (v_iv v) (COLLECT (v_storage v)) items local) ++ v_stack v) v).
Proof.
  revert i local v. induction items as [|[f h] items IH]; intros i local v Hw Hpc.
  { destruct v as [iv pc stack storage]. simpl in *. unfold set_stack. simpl.
    rewrite Z.add_0_r, wrap_small by done. by destruct (COLLECT storage). }
  destruct Hw as [Hf Hrest]. simpl in Hf.
  assert (∀ w, v_storage w = v_storage v → v_iv w = v_iv v → in_width 8 (v_parent_count w) →
    ∀ local', feed_items (S i) items local' w
    = (Ok (foldl (local_step (v_iv v)) local' items),
       set_stack
         (if COLLECT (v_storage v) then v_parent_count w +[8] merged (v_iv v) items local'
          else v_parent_count w)
         (reverse (pushed (v_iv v) (COLLECT (v_storage v)) items local') ++ v_stack w) w)) as IH'.
  { intros w Hs Hiv Hp local'. rewrite <-Hiv, <-Hs. apply IH; [|done]. rewrite Hs.
    destruct items as [|x items]; [done|]. apply Forall_cons in Hrest as [Hx Hrest].
    split; [|done]. intros Hx1. split; [by apply Hx|lia]. }
  assert (in_width 8 (v_parent_count v +[8] 1)) as Hpc1 by (apply wrap_in_width; lia).
  assert (f = true → COLLECT (v_storage v) = false) as Hcf by naive_solver.
  destruct f.
  - rewrite (Hcf eq_refl) in *. assert (i ≠ 0%nat) as Hi by naive_solver.
    destruct local as [|a [|b [|c local]]]; simpl; rewrite ?(Hcf eq_refl); simpl;
      rewrite ?(Hcf eq_refl), bool_decide_false by done; by rewrite IH'.
  - destruct local as [|a [|b [|c local]]]; simpl; rewrite ?IH' by done; simpl;
      unfold local_step; simpl; rewrite ?reverse_cons, <-?app_assoc; try done.
    destruct (COLLECT (v_storage v)) eqn:Hc; rewrite IH' by done; simpl.
    + rewrite wrap_add_l, Z.add_assoc. unfold set_stack. simpl.
      by rewrite !reverse_cons, <-!app_assoc.
    + by rewrite reverse_cons, <-app_assoc.
Qed.

(** The loop only adds to the stack, and accepts only a valid walk. *)
Lemma feed_items_frame i items local v r w :
  feed_items i items local v = (r, w) →
  v_iv w = v_iv v ∧ v_storage w = v_storage v ∧ (∃ new, v_stack w = new ++ v_stack v) ∧
  (∀ l, r = Ok l → walk_ok (COLLECT (v_storage v)) i items).
Proof.
  revert i local v. induction items as [|[f h] items IH]; intros i local v Hr.
  { simpl in Hr. simplify_eq. split_and!; [done..|by exists []|done]. }
  assert (∀ w0 local', v_iv w0 = v_iv v → v_storage w0 = v_storage v →
    (∃ new, v_stack w0 = new ++ v_stack v) → (f = true → COLLECT (v_storage v) = false ∧ i ≠ 0%nat) →
    feed_items (S i) items local' w0 = (r, w) →
    v_iv w = v_iv v ∧ v_storage w = v_storage v ∧ (∃ new, v_stack w = new ++ v_stack v) ∧
    (∀ l, r = Ok l → walk_ok (COLLECT (v_storage v)) i ((f, h) :: items))) as Hgo.
  { intros w0 local' Hiv Hst [new0 Hnew0] Hf Hgo.
    destruct (IH _ _ _ Hgo) as (H1 & H2 & [new Hnew] & Hw).
    split_and!; [congruence..|exists (new ++ new0); by rewrite Hnew, Hnew0, app_assoc|].
    intros l Hl. split; [done|]. specialize (Hw l Hl). rewrite Hst in Hw.
    destruct items as [|x items]; [constructor|]. destruct Hw as [Hx Hrest].
    constructor; [naive_solver|done]. }
  simpl in Hr.
  set (merged0 := match local with [l; r] => _ | _ => _ end) in Hr.
  assert (v_iv merged0.2 = v_iv v ∧ v_storage merged0.2 = v_storage v ∧
    ∃ new, v_stack merged0.2 = new ++ v_stack v) as (Hiv & Hst & Hnew).
  { unfold merged0. repeat case_match; simpl; split_and!; try done;
      first [by exists []|by eexists [_]]. }
  destruct merged0 as [local0 v0]. simpl in *. rewrite Hst in Hr. destruct f.
  - destruct (COLLECT (v_storage v) || bool_decide (i = 0%nat)) eqn:Hb.
    + simplify_eq. split_and!; done.
    + apply orb_false_iff in Hb as [Hc Hi]. tests. by eapply Hgo.
  - eapply Hgo in Hr; [done|done|done| |done]. destruct Hnew as [new Hnew].
    exists (h :: new). simpl. by rewrite Hnew.
Qed.

(** The part of the stack that the loop added, reversed. *)
Lemma unreverse {A} (p o : list A) :
  reverse (take (length (reverse p ++ o) - length o) (reverse p ++ o))
  ++ drop (length (reverse p ++ o) - length o) (reverse p ++ o) = p ++ o.
Proof.
  rewrite length_app, Nat.add_sub, take_app_length, drop_app_length. by rewrite reverse_involutive.
Qed.

(** The verifier after a proof was accepted. *)
Definition after_proof (items : list (bool * Bytes)) (v : IncrementalVerifier)
    : IncrementalVerifier :=
  let collect := COLLECT (v_storage v) in
  set_stack
    (if collect then v_parent_count v +[8] (merged (v_iv v) items [] + 1) else 1)
    (pushed (v_iv v) collect items []
     ++ (if collect then v_stack v else tail (v_stack v))) v.

(** A proof is accepted exactly when its hashes merge to the hash on top of the
    stack; an error leaves the verifier as it was. *)
Lemma feed_proof_spec proof v r v' :
  in_width 8 (v_parent_count v) → feed_proof proof v = Some (r, v') → proof ≠ [] →
  match r with
  | Err _ => v' = v
  | Ok _ => ∃ items expected a b, proof_items proof = Some items ∧
      head (v_stack v) = Some expected ∧ walk_ok (COLLECT (v_storage v)) 0 items ∧
      foldl (local_step (v_iv v)) [] items = [a; b] ∧
      iv_merge (v_iv v) a b (is_root v) = expected ∧ v' = after_proof items v
  end.
Proof.
  intros Hpc Hr Hne. unfold feed_proof, feed_proof_internal in Hr. unfold_M.
  destruct (is_finished v); [by simplify_eq|].
  rewrite bool_decide_false in Hr by done.
  destruct (negb _); [by simplify_eq|].
  destruct (head (v_stack v)) as [expected|] eqn:Hhd; [|done].
  destruct (proof_items proof) as [items|] eqn:Hit; [|done].
  set (old := if COLLECT (v_storage v) then v_stack v else tail (v_stack v)) in *.
  set (v0 := set_stack (v_parent_count v) old v) in *.
  destruct (feed_items 0 items [] v0) as [res w] eqn:Hfeed.
  pose proof (feed_items_frame _ _ _ _ _ _ Hfeed) as (Hiv & Hst & [new Hnew] & Hw).
  simpl in Hiv, Hst, Hnew.
  assert (drop (length (v_stack w) - length old) (v_stack w) = old) as Hold.
  { rewrite Hnew, length_app, Nat.add_sub. by apply drop_app_length. }
  assert (set_stack (v_parent_count v)
    (if COLLECT (v_storage w) then old else expected :: old) w = v) as Hrev.
  { unfold set_stack. rewrite Hiv, Hst. destruct v as [iv pc stack st]. simpl in *. f_equal.
    unfold old. destruct (COLLECT st); [done|]. by destruct stack; simplify_eq/=. }
  destruct res as [local|e]; [|by simplify_eq/=; rewrite Hold].
  rewrite feed_items_run in Hfeed by (by eauto). simpl in Hfeed. injection Hfeed as Hlocal Hw'.
  destruct local as [|a [|b [|]]]; [done..| |done].
  case_bool_decide as Hh; simpl in Hr; [injection Hr as <- <-; by rewrite Hold|].
  injection Hr as <- <-. exists items, expected, a, b. rewrite Hiv in Hh.
  split_and!; [done..|by eauto|done|done|].
  subst w. unfold after_proof, set_stack. simpl. fold old. rewrite unreverse. f_equal.
  destruct (COLLECT (v_storage v)); [|done]. by rewrite wrap_add_l, Z.add_assoc.
Qed.

Lemma feed_proof_accepts proof v items expected a b :
  in_width 8 (v_parent_count v) → is_finished v = false → proof ≠ [] →
  is_valid_proof_len (zlength proof) = true → proof_items proof = Some items →
  head (v_stack v) = Some expected → walk_ok (COLLECT (v_storage v)) 0 items →
  foldl (local_step (v_iv v)) [] items = [a; b] → iv_merge (v_iv v) a b (is_root v) = expected →
  feed_proof proof v = Some (Ok tt, after_proof items v).
Proof.
  intros Hpc Hfin Hne Hval Hit Hhd Hw Hlocal Hh. unfold feed_proof, feed_proof_internal. unfold_M.
  rewrite Hfin, bool_decide_false, Hval, Hhd, Hit by done. simpl.
  set (old := if COLLECT (v_storage v) then v_stack v else tail (v_stack v)) in *.
  rewrite feed_items_run by done. simpl. rewrite Hlocal. simpl.
  rewrite bool_decide_false by naive_solver. simpl. do 2 f_equal.
  unfold after_proof, set_stack. simpl. fold old. rewrite unreverse. f_equal.
  destruct (COLLECT (v_storage v)); [|done]. by rewrite wrap_add_l, Z.add_assoc.
Qed.

Lemma local_length iv items local :
  (length local ≤ 2)%nat →
  length (foldl (local_step iv) local items) = (2 `min` (length local + length items))%nat.
Proof.
  revert local. induction items as [|[f h] items IH]; intros local Hl; [cbn [foldl length]; lia|].
  cbn [foldl]. unfold local_step at 2. destruct local as [|a [|b [|]]]; simpl in Hl; [| | |lia];
    destruct f; cbn [app fst snd]; rewrite IH by (simpl; lia); cbn [length]; lia.
Qed.

(** C37: Feeding a proof panics exactly when the length of the proof is one more
    than a multiple of the segment size: the length test accepts it, but the first
    segment is a lone sign byte, so that the loop ends at once with no hash to
    merge. Any other proof of any content is answered with a result. *)
Theorem feed_proof_panics proof v :
  in_width 8 (v_parent_count v) → v_stack v ≠ [] →
  feed_proof proof v = None ↔
  is_finished v = false ∧ 64 < zlength proof ∧ zlength proof mod SEGMENT_SIZE = 1.
Proof.
  intros Hpc Hs. unfold feed_proof, feed_proof_internal. unfold_M. change SEGMENT_SIZE with 257.
  destruct (is_finished v); [naive_solver|].
  case_bool_decide as Hne; [subst; split; [done|intros (_ & ? & _); done]|].
  destruct (is_valid_proof_len (zlength proof)) eqn:Hv; simpl.
  2: { split; [done|]. intros (_ & H64 & H1). unfold is_valid_proof_len in Hv.
       change (32 * 8 + 1) with 257 in Hv. rewrite H1 in Hv. simpl in Hv.
       by rewrite bool_decide_true in Hv by lia. }
  destruct (proof_items_count proof Hne Hv) as (items & -> & Hcount).
  destruct (v_stack v) as [|expected rest] eqn:Hst; [done|]. simpl.
  set (v0 := set_stack _ _ v). destruct (feed_items 0 items [] v0) as [res w] eqn:Hfeed.
  destruct (feed_items_frame _ _ _ _ _ _ Hfeed) as (_ & _ & _ & Hw).
  case_bool_decide as H1.
  - subst items. simpl in Hfeed. injection Hfeed as <- <-. simpl. split; [intros _|done].
    split_and!; [done| |done]. pose proof (zlength_nonneg proof).
    destruct (first_segment (zlength proof)) as [?|[?|[?|?]]]; [|done|lia..].
    destruct proof; [done|unfold zlength; simpl; lia].
  - split; [|naive_solver]. destruct res as [local|e]; [|done].
    rewrite feed_items_run in Hfeed by (by eauto). injection Hfeed as Hlocal _.
    pose proof (local_length (v_iv v) items [] ltac:(simpl; lia)) as Hlen.
    rewrite Hlocal in Hlen. destruct local as [|a [|b [|]]]; cbn [length] in Hlen; [lia..| |lia].
    simpl. by case_bool_decide.
Qed.

(** ** Soundness

    Whatever the proofs are, the accepted ones form a tree with the root hash:
    every proof is a tree of its own, which replaces the leaf with the hash it
    was accepted for. *)

Definition add_item (u : tree Bytes) (item : bool * Bytes) : tree Bytes :=
  if item.1 then Node (Leaf item.2) u else Node u (Leaf item.2).

Definition proof_tree (items : list (bool * Bytes)) : tree Bytes :=
  match items with
  | [] => Leaf []
  | item :: items => foldl add_item (Leaf item.2) items
  end.

(** Replace the leaf of number [k]. *)
Fixpoint graft (t : tree Bytes) (k : nat) (u : tree Bytes) : tree Bytes :=
  match t with
  | Leaf _ => u
  | Node l r =>
      if bool_decide (k < length (leaves l))%nat then Node (graft l k u) r
      else Node l (graft r (k - length (leaves l)) u)
  end.

Definition is_leaf (t : tree Bytes) : bool := match t with Leaf _ => true | Node _ _ => false end.

Lemma graft_spec m f t k u a h b :
  leaves t = a ++ h :: b → length a = k → root_of m (f && is_leaf t) u = h →
  leaves (graft t k u) = a ++ leaves u ++ b ∧ root_of m f (graft t k u) = root_of m f t.
Proof.
  revert f k a b. induction t as [x|l IHl r IHr]; intros f k a b Hl Hk Hu.
  { simpl in *. destruct a as [|? [|]]; simplify_eq/=. rewrite andb_true_r in *.
    by rewrite app_nil_r. }
  simpl in Hl, Hu. rewrite andb_false_r in Hu. simpl. case_bool_decide as Hlt.
  - apply app_eq_inv in Hl as [(k' & Hll & Hb)|(k' & -> & _)];
      [|rewrite length_app in Hk; lia].
    destruct k' as [|x k']; [rewrite Hll, app_nil_r in Hlt; lia|]. simplify_eq/=.
    destruct (IHl false (length a) a k') as [H1 H2]; [done..|].
    rewrite H1, H2, <-!app_assoc. done.
  - apply app_eq_inv in Hl as [(k' & Hll & Hb)|(k' & -> & Hlr)].
    + destruct k' as [|x k'].
      * rewrite app_nil_r in Hll. simpl in Hb.
        destruct (IHr false 0%nat [] b) as [H1 H2]; [by rewrite <-Hb|done..|].
        rewrite Hll, <-Hk, Nat.sub_diag. simpl. by rewrite H1, H2, Hll.
      * rewrite Hll, length_app in Hlt. simpl in Hlt. lia.
    + rewrite length_app in Hk.
      destruct (IHr false (k - length (leaves l))%nat k' b) as [H1 H2]; [done|lia|done|].
      simpl. by rewrite H1, H2, <-!app_assoc.
Qed.

(** The local stack holds the tree of the items so far. *)
Definition holds (iv : IV) (local : list Bytes) (u : tree Bytes) : Prop :=
  match local with
  | [h] => root_of (iv_merge iv) false u = h
  | [a; b] => ∀ f, root_of (iv_merge iv) f u = iv_merge iv a b f
  | _ => False
  end.

Lemma holds_step iv local u item :
  holds iv local u → holds iv (local_step iv local item) (add_item u item).
Proof.
  unfold add_item, local_step. destruct item as [f h].
  destruct local as [|a [|b [|]]]; simpl; try done; intros Hu; destruct f; simpl;
    intros g; by rewrite Hu.
Qed.

Lemma pushed_false iv f h items local :
  pushed iv false ((f, h) :: items) local
  = (if f then [] else [h]) ++ pushed iv false items (local_step iv local (f, h)).
Proof. by destruct local as [|? [|? [|]]]. Qed.

Lemma holds_items iv items local u :
  holds iv local u →
  holds iv (foldl (local_step iv) local items) (foldl add_item u items) ∧
  ∃ dropped, leaves (foldl add_item u items)
    = dropped ++ leaves u ++ pushed iv false items local.
Proof.
  revert local u. induction items as [|[f h] items IH]; intros local u Hu.
  { split; [done|]. exists []. simpl. by rewrite app_nil_r. }
  destruct (IH _ _ (holds_step iv local u (f, h) Hu)) as [H1 [dropped H2]].
  split; [done|]. rewrite pushed_false. simpl in *. rewrite H2. destruct f; simpl.
  - exists (dropped ++ [h]). by rewrite <-!app_assoc.
  - exists dropped. by rewrite <-!app_assoc.
Qed.

(** The tree of an accepted proof. *)
Lemma proof_tree_spec iv items a b :
  walk_ok false 0 items → foldl (local_step iv) [] items = [a; b] →
  (∀ f, root_of (iv_merge iv) f (proof_tree items) = iv_merge iv a b f) ∧
  (∃ dropped, leaves (proof_tree items) = dropped ++ pushed iv false items []) ∧
  is_leaf (proof_tree items) = false.
Proof.
  destruct items as [|[f h] items]; [done|]. intros [Hf _] Hl. simpl in Hf, Hl |- *.
  destruct f; [by destruct (Hf eq_refl)|]. unfold local_step in Hl at 2. simpl in Hl.
  destruct (holds_items iv items [h] (Leaf h)) as [H1 [dropped H2]]; [done|].
  rewrite Hl in H1. split_and!; [done|by exists dropped|].
  destruct items as [|x items _] using rev_ind; [done|]. rewrite foldl_snoc.
  unfold add_item at 1. by destruct x.1.
Qed.

(** What a client of the verifier has: the tree of the accepted proofs and the
    hashes of the blocks, after any sequence of calls. *)
Inductive received (iv : IV) (root : Bytes)
    : tree Bytes → list Bytes → IncrementalVerifier → Prop :=
| received_root v :
    set_root_hash root (verifier_new iv NoStorage) = Some (tt, v) → received iv root (Leaf root) [] v
| received_proof t vs v proof items v' :
    received iv root t vs v → proof ≠ [] → proof_items proof = Some items →
    feed_proof proof v = Some (Ok tt, v') →
    received iv root (graft t (length (leaves t) - length (v_stack v)) (proof_tree items)) vs v'
| received_no_proof t vs v v' r :
    received iv root t vs v → feed_proof [] v = Some (r, v') → received iv root t vs v'
| received_bad_proof t vs v proof e v' :
    received iv root t vs v → feed_proof proof v = Some (Err e, v') → received iv root t vs v'
| received_block t vs v h v' :
    received iv root t vs v → verify_hash h v = Some (Ok tt, v') → received iv root t (vs ++ [h]) v'
| received_bad_block t vs v h e v' :
    received iv root t vs v → verify_hash h v = Some (Err e, v') → received iv root t vs v'.

(** The stack is the end of the leaves, the blocks are among those before. *)
Definition consistent (iv : IV) (root : Bytes) (t : tree Bytes) (vs : list Bytes)
    (v : IncrementalVerifier) : Prop :=
  v_iv v = iv ∧ v_storage v = NoStorage ∧ root_of (iv_merge iv) true t = root ∧
  v_parent_count v = (if is_leaf t then 0 else 1) ∧
  ∃ front, leaves t = front ++ v_stack v ∧ sublist vs front.

Lemma feed_proof_nil v r v' : feed_proof [] v = Some (r, v') → v' = v.
Proof. unfold feed_proof. unfold_M. destruct (is_finished v); [by intros [= <- <-]|]. by intros [= <- <-]. Qed.

Lemma verify_hash_inv h v r v' :
  v_storage v = NoStorage → verify_hash h v = Some (r, v') →
  match r with
  | Err _ => v' = v
  | Ok _ => ∃ rest, v_stack v = h :: rest ∧ v' = set_stack (v_parent_count v) rest v
  end.
Proof.
  intros Hst Hr. unfold verify_hash in Hr. unfold_M.
  destruct (is_finished v); [by simplify_eq|].
  destruct (v_stack v) as [|x rest] eqn:Hs; [done|]. simpl in Hr.
  case_bool_decide as Hx; [by simplify_eq|]. subst x.
  rewrite Hst in Hr. simpl in Hr. injection Hr as <- <-. exists rest. split; [done|].
  unfold set_stack. by rewrite Hst.
Qed.

Lemma consistent_width iv root t vs v : consistent iv root t vs v → in_width 8 (v_parent_count v).
Proof. intros (_ & _ & _ & -> & _). unfold in_width. destruct (is_leaf t); lia. Qed.

Lemma consistent_proof iv root t vs v proof items v' :
  consistent iv root t vs v → proof ≠ [] → proof_items proof = Some items →
  feed_proof proof v = Some (Ok tt, v') →
  consistent iv root (graft t (length (leaves t) - length (v_stack v)) (proof_tree items)) vs v'.
Proof.
  intros Hc Hne Hit Hr. pose proof (consistent_width _ _ _ _ _ Hc) as Hw.
  destruct Hc as (Hiv & Hst & Hrt & Hpc & front & Hl & Hsub).
  destruct (feed_proof_spec proof v _ v' Hw Hr Hne)
    as (items' & expected & a & b & Hit' & Hhd & Hwalk & Hloc & Hh & ->).
  rewrite Hit in Hit'. injection Hit' as <-. rewrite Hst in Hwalk. simpl in Hwalk.
  destruct (v_stack v) as [|x rest] eqn:Hs; [done|]. simpl in Hhd. injection Hhd as ->.
  rewrite Hiv in Hloc, Hh. destruct (proof_tree_spec iv items a b Hwalk Hloc) as (Hu & [dropped Hdrop] & Hnl).
  assert (is_root v = is_leaf t) as Hir.
  { unfold is_root. rewrite Hst, Hs, Hpc. simpl. destruct t; simpl in *; [|by rewrite andb_false_r].
    destruct front as [|? [|]]; simplify_eq/=. done. }
  destruct (graft_spec (iv_merge iv) true t (length front) (proof_tree items) front expected rest)
    as [Hg1 Hg2]; [done|done|rewrite Hu, <-Hir; simpl; by rewrite Hh|].
  rewrite Hl, length_app, Nat.add_sub. unfold after_proof. rewrite Hst. simpl.
  split_and!; [done|done|congruence| |].
  - assert (is_leaf (graft t (length front) (proof_tree items)) = false) as ->; [|done].
    destruct t; simpl; [done|]. by case_bool_decide.
  - exists (front ++ dropped). rewrite Hg1, Hdrop, Hiv, Hs. simpl. rewrite <-!app_assoc.
    split; [done|]. by apply sublist_inserts_r.
Qed.

Lemma received_consistent iv root t vs v :
  root ≠ iv_empty iv → received iv root t vs v → consistent iv root t vs v.
Proof.
  intros Hroot. induction 1 as [v Hr|t vs v proof items v' _ IH Hne Hit Hr|t vs v v' r _ IH Hr
    |t vs v proof e v' _ IH Hr|t vs v h v' _ (Hiv & Hst & Hrt & Hpc & front & Hl & Hsub) Hr
    |t vs v h e v' _ IH Hr].
  - unfold set_root_hash in Hr. unfold_M. simpl in Hr. rewrite bool_decide_false in Hr by done.
    simplify_eq/=. split_and!; [done..|]. by exists [].
  - by eapply consistent_proof.
  - apply feed_proof_nil in Hr as ->. done.
  - destruct (decide (proof = [])) as [->|Hne]; [by apply feed_proof_nil in Hr as ->|].
    apply (feed_proof_spec proof v _ v') in Hr as ->; [done|by eapply consistent_width|done].
  - apply verify_hash_inv in Hr as (rest & Hs & ->); [|done]. unfold set_stack.
    split_and!; [done..|]. simpl. exists (front ++ [h]). rewrite Hl, Hs, <-app_assoc. split; [done|].
    by apply sublist_app.
  - apply verify_hash_inv in Hr as ->; [done|]. by destruct IH as (_ & Hst & _).
Qed.

(** The pairs of hashes that a tree merges, with their root flag. *)
Fixpoint merges (m : Bytes → Bytes → bool → Bytes) (f : bool) (t : tree Bytes)
    : list (Bytes * Bytes * bool) :=
  match t with
  | Leaf _ => []
  | Node l r => (root_of m false l, root_of m false r, f) :: merges m false l ++ merges m false r
  end.

(** Two different merges, one of each tree, with one hash; or a merge of the
    first tree whose hash is a leaf of the second. *)
Definition collides (m : Bytes → Bytes → bool → Bytes) (f : bool) (t t0 : tree Bytes) : Prop :=
  (∃ l r l0 r0 g, (l, r, g) ∈ merges m f t ∧ (l0, r0, g) ∈ merges m f t0 ∧
     (l, r) ≠ (l0, r0) ∧ m l r g = m l0 r0 g) ∨
  (∃ l r g, (l, r, g) ∈ merges m f t ∧ m l r g ∈ leaves t0).

Lemma merkle_binding m f t t0 :
  root_of m f t = root_of m f t0 →
  (∀ h, h ∈ leaves t → h ∈ post_order m f t0) ∨ collides m f t t0.
Proof.
  revert f t0. induction t as [x|l IHl r IHr]; intros f t0 Heq.
  { left. intros h ->%list_elem_of_singleton. simpl in Heq. rewrite Heq.
    destruct (post_order_last m f t0) as [init ->]. set_solver. }
  destruct t0 as [y|l0 r0]; simpl in Heq.
  { right. right. exists (root_of m false l), (root_of m false r), f. split; [left|].
    rewrite Heq. left. }
  destruct (decide ((root_of m false l, root_of m false r) = (root_of m false l0, root_of m false r0)))
    as [[= Hl Hr]|Hne].
  - destruct (IHl false l0 Hl) as [Hil|Hc]; [|right; unfold collides in *; set_solver].
    destruct (IHr false r0 Hr) as [Hir|Hc]; [|right; unfold collides in *; set_solver].
    left. intros h. simpl. rewrite !elem_of_app. naive_solver.
  - right. left. exists (root_of m false l), (root_of m false r), (root_of m false l0),
      (root_of m false r0), f. split_and!; [left|left|done|done].
Qed.

(** C9: The verifier accepts only what the root hash commits to. After any
    sequence of calls, with any proofs and hashes, the accepted proofs form a tree
    with the root hash, and the accepted blocks and the hashes still on the stack
    are leaves of it, in this order; so every accepted hash is a hash of the tree
    of the content, unless this tree and that of the content show two different
    pairs of hashes that merge to one hash, or a pair that merges to a leaf. *)
Theorem verifier_sound iv root t vs v t0 :
  root ≠ iv_empty iv → received iv root t vs v → root_of (iv_merge iv) true t0 = root →
  root_of (iv_merge iv) true t = root ∧ sublist (vs ++ v_stack v) (leaves t) ∧
  ((∀ h, h ∈ vs → h ∈ post_order (iv_merge iv) true t0) ∨ collides (iv_merge iv) true t t0).
Proof.
  intros Hroot Hrec Ht0. apply received_consistent in Hrec as (_ & _ & Ht & _ & front & Hl & Hsub); [|done].
  split_and!; [done|rewrite Hl; by apply sublist_app|].
  destruct (merkle_binding (iv_merge iv) true t t0) as [Hin|Hc]; [congruence| |by right].
  left. intros h Hh. apply Hin. rewrite Hl, elem_of_app. left.
  by eapply elem_of_submseteq, sublist_submseteq.
Qed.
End verifier.
