(* ===== verification/Streaming.v ===== *)
(** * Streaming: a whole stream of generated proofs is verified

    The verifier of [lib/b3fs/src/stream/verifier.rs] against the proofs of
    [lib/b3fs/src/stream/buffer.rs]: from any first block the proofs and hashes of
    the blocks are accepted one after the other until the verifier is finished,
    and a collecting verifier ends with the array of the tree. *)

From S2P Require Import Prelude Types Codec HashTree ProofBuf Blake3 Verifier.
From stdpp Require Import base list.
From Stdlib Require Import ZArith Lia.
Open Scope Z_scope.

Section streaming.
Context {P : Platform} (iv : IV).
Implicit Types t l r s : tree Bytes.

(** The entries of a collecting stack: whether it is a parent, and the hash. *)
Abbreviation Entry := (bool * Bytes)%type (only parsing).
#[local] Abbreviation m := (iv_merge iv).
#[local] Arguments iv_merge : simpl never.

(** The stack under which block [i] is on top. *)
Fixpoint opened (f : bool) t (i : Z) : list Entry :=
  match t with
  | Leaf h => [(false, h)]
  | Node l r =>
      (if bool_decide (i < count l) then opened false l i ++ [(false, root_of m false r)]
       else opened false r (i - count l)) ++ [(true, root_of m f t)]
  end.

Definition full t : bool := bool_decide (count t = 2 ^ Z.log2 (count t)).

(** The stack after [i] blocks: a full tree is taken off with its last block. *)
Fixpoint remaining (f : bool) t (i : Z) : list Entry :=
  if bool_decide (i ≤ 0) then [(false, root_of m f t)]
  else if full t && bool_decide (count t ≤ i) then []
  else
    match t with
    | Leaf _ => []
    | Node l r =>
        (if bool_decide (i < count l) then remaining false l i ++ [(false, root_of m false r)]
         else remaining false r (i - count l)) ++ [(true, root_of m f t)]
    end.

(** What a collecting verifier has of the array after [i] blocks. *)
Fixpoint seen (f : bool) t (i : Z) : list Bytes :=
  if bool_decide (i ≤ 0) then []
  else if full t && bool_decide (count t ≤ i) then post_order m f t
  else
    match t with
    | Leaf _ => []
    | Node l r =>
        if bool_decide (i < count l) then seen false l i
        else post_order m false l ++ seen false r (i - count l)
    end.

Lemma full_pow2 t k : 0 ≤ k → count t = 2 ^ k → full t = true.
Proof. intros Hk Ht. unfold full. rewrite Ht, Z.log2_pow2 by done. by apply bool_decide_true. Qed.

Lemma full_node l r k :
  0 ≤ k → count l = 2 ^ k → 1 ≤ count r ≤ 2 ^ k → full (Node l r) = bool_decide (count r = 2 ^ k).
Proof.
  intros Hk Hl Hr. destruct (decide (count r = 2 ^ k)) as [He|He].
  - rewrite bool_decide_true by done. apply (full_pow2 _ (k + 1)); [lia|].
    rewrite count_node, Z.pow_add_r by lia. lia.
  - rewrite (bool_decide_false (count r = _)) by done. unfold full. apply bool_decide_false.
    rewrite count_node, Hl. intros Hp.
    rewrite (Z.log2_unique (2 ^ k + count r) k) in Hp by (rewrite ?Z.pow_succ_r; lia). lia.
Qed.

Lemma remaining_full f t : full t = true → remaining f t (count t) = [] ∧ seen f t (count t) = post_order m f t.
Proof.
  intros Hf. pose proof (count_pos t).
  destruct t; cbn [remaining seen]; rewrite Hf, bool_decide_false, bool_decide_true by lia; done.
Qed.

(** The step equations inside a node. *)
Lemma remaining_node f l r i :
  0 < i → full (Node l r) = false ∨ i < count (Node l r) →
  remaining f (Node l r) i
  = (if bool_decide (i < count l) then remaining false l i ++ [(false, root_of m false r)]
     else remaining false r (i - count l)) ++ [(true, root_of m f (Node l r))] ∧
  seen f (Node l r) i
  = if bool_decide (i < count l) then seen false l i
    else post_order m false l ++ seen false r (i - count l).
Proof.
  intros Hi Hf. cbn [remaining seen]. rewrite bool_decide_false by lia.
  destruct Hf as [->|Hlt]; [done|].
  rewrite (bool_decide_false (count (Node l r) ≤ i)) by lia. by rewrite andb_false_r.
Qed.

Lemma remaining_0 f t : remaining f t 0 = [(false, root_of m f t)] ∧ seen f t 0 = [].
Proof. by destruct t. Qed.

Lemma seen_left f l r i : i < count l → seen f (Node l r) i = seen false l i.
Proof.
  intros Hi. pose proof (count_pos r). destruct (decide (i ≤ 0)).
  - destruct l; cbn [seen]; by rewrite !bool_decide_true by done.
  - destruct (remaining_node f l r i) as [_ ->]; [lia|right; rewrite count_node; lia|].
    by rewrite bool_decide_true.
Qed.

Lemma seen_right f l r i :
  count l ≤ i < count (Node l r) → seen f (Node l r) i = post_order m false l ++ seen false r (i - count l).
Proof.
  intros Hi. pose proof (count_pos l). destruct (remaining_node f l r i) as [_ ->]; [lia|right; lia|].
  by rewrite bool_decide_false by lia.
Qed.

(** Block [i] takes off, after itself, as many parents as the number of blocks
    then seen has trailing zeros. *)
Definition takes_off (f : bool) t (i : Z) : Prop :=
  ∃ h pops, leaves t !! Z.to_nat i = Some h ∧
    opened f t i = (false, h) :: pops ++ remaining f t (i + 1) ∧
    Forall (λ x, x.1 = true) pops ∧ zlength pops = trailing_zeros (i + 1) ∧
    seen f t (i + 1) = seen f t i ++ h :: (snd <$> pops).

Lemma takes_off_left f l r k i :
  0 ≤ k → count l = 2 ^ k → 0 ≤ i < count l → takes_off false l i → takes_off f (Node l r) i.
Proof.
  intros Hk Hl Hi (h & pops & Hh & Ho & Hall & Hlen & Hseen). pose proof (count_pos r).
  exists h, pops. cbn [opened leaves]. rewrite bool_decide_true, Ho by lia.
  rewrite lookup_app_l by (unfold count, zlength in *; lia).
  rewrite (seen_left f l r i) by lia.
  destruct (remaining_node f l r (i + 1)) as [-> ->]; [lia|right; rewrite count_node; lia|].
  case_bool_decide.
  - split_and!; try done. cbn [app]. by rewrite <-!app_assoc.
  - assert (i + 1 = count l) as Hend by lia. rewrite Hend in *. rewrite Z.sub_diag.
    destruct (remaining_full false l (full_pow2 l k ltac:(lia) Hl)) as [Hrem Hpost].
    destruct (remaining_0 false r) as [-> ->]. rewrite Hrem, !app_nil_r, <-Hpost.
    split_and!; try done. cbn [app]. by rewrite <-!app_assoc.
Qed.

(** The last block of a full tree takes the root off too. *)
Lemma takes_off_last f l r k :
  0 ≤ k → count l = 2 ^ k → count r = 2 ^ k → takes_off false r (count r - 1) →
  takes_off f (Node l r) (count (Node l r) - 1).
Proof.
  intros Hk Hl Hr (h & pops & Hh & Ho & Hall & Hlen & Hseen).
  pose proof (count_pos l). pose proof (count_pos r).
  assert (full (Node l r) = true) as Hfull
    by (rewrite (full_node l r k) by lia; by apply bool_decide_true).
  destruct (remaining_full f (Node l r) Hfull) as [Hrem Hpost].
  destruct (remaining_full false r (full_pow2 r k Hk Hr)) as [Hremr Hpostr].
  exists h, (pops ++ [(true, root_of m f (Node l r))]).
  rewrite Z.sub_add in *. rewrite Hrem, Hpost, app_nil_r.
  rewrite (seen_right f l r) by (rewrite count_node; lia). cbn [opened leaves].
  replace (count (Node l r) - 1 - count l) with (count r - 1) by (rewrite count_node; lia).
  rewrite bool_decide_false, Ho, Hremr, app_nil_r by (rewrite count_node; lia). split_and!.
  - rewrite lookup_app_r by (rewrite count_node; unfold count, zlength in *; lia).
    rewrite <-Hh, count_node. f_equal. unfold count, zlength in *. lia.
  - done.
  - apply Forall_app. split; [done|by constructor].
  - rewrite zlength_app, Hlen, count_node, Hl, Hr.
    replace (2 ^ k + 2 ^ k) with (2 ^ (k + 1)) by (rewrite Z.pow_add_r by lia; lia).
    by rewrite !trailing_zeros_pow2 by lia.
  - cbn [post_order]. rewrite <-Hpostr, Hseen, fmap_app, <-!app_assoc. done.
Qed.

Lemma takes_off_right f l r k i :
  0 ≤ k → count l = 2 ^ k → 1 ≤ count r ≤ 2 ^ k → count l ≤ i < count (Node l r) →
  i + 1 - count l ≠ 2 ^ k → takes_off false r (i - count l) → takes_off f (Node l r) i.
Proof.
  intros Hk Hl Hr Hi Hnot (h & pops & Hh & Ho & Hall & Hlen & Hseen).
  pose proof (count_pos l). exists h, pops. rewrite (seen_right f l r i) by done.
  rewrite count_node in Hi. cbn [opened leaves].
  replace (i - count l + 1) with (i + 1 - count l) in * by lia.
  rewrite bool_decide_false, Ho by lia.
  destruct (remaining_node f l r (i + 1)) as [-> ->]; [lia| |].
  { rewrite (full_node l r k), count_node by lia.
    destruct (decide (count r = 2 ^ k)); [right; lia|left; by apply bool_decide_false]. }
  rewrite bool_decide_false by lia. split_and!; [| |done| |].
  - rewrite lookup_app_r by (unfold count, zlength in *; lia).
    rewrite <-Hh. f_equal. unfold count, zlength in *. lia.
  - cbn [app]. by rewrite <-!app_assoc.
  - rewrite Hlen. destruct (trailing_zeros_below k (i + 1 - count l)) as (_ & _ & <-); [lia..|].
    f_equal. lia.
  - by rewrite Hseen, <-!app_assoc.
Qed.

Lemma opened_step f t i : shaped t → count t < 2 ^ 62 → 0 ≤ i < count t → takes_off f t i.
Proof.
  revert f i. induction t as [h|l IHl r IHr]; intros f i Hs Hc Hi.
  { assert (i = 0) as -> by (unfold count, zlength in Hi; simpl in Hi; lia). by exists h, []. }
  destruct (shaped_split l r Hs Hc) as (k & Hk & Hl & Hr). destruct Hs as (Hsl & Hsr & _).
  pose proof (count_node l r). destruct (decide (i < count l)).
  - apply (takes_off_left f l r k); [lia..|]. apply IHl; [done|lia..].
  - destruct (decide (i + 1 - count l = 2 ^ k)).
    + replace i with (count (Node l r) - 1) by lia.
      apply (takes_off_last f l r k); [lia..|]. apply IHr; [done|lia..].
    + apply (takes_off_right f l r k); [lia..|]. apply IHr; [done|lia..].
Qed.

(** After the last block the parents left complete the array. *)
Lemma remaining_end f t :
  shaped t → count t < 2 ^ 62 →
  seen f t (count t) ++ (snd <$> remaining f t (count t)) = post_order m f t ∧
  Forall (λ x, x.1 = true) (remaining f t (count t)).
Proof.
  revert f. induction t as [h|l IHl r IHr]; intros f Hs Hc; [split; [done|constructor]|].
  destruct (full (Node l r)) eqn:Hfull.
  { destruct (remaining_full f _ Hfull) as [-> ->]. rewrite app_nil_r. split; [done|constructor]. }
  pose proof (count_node l r). pose proof (count_pos l). pose proof (count_pos r).
  destruct (remaining_node f l r (count (Node l r))) as [-> ->]; [lia|by left|].
  rewrite bool_decide_false by lia. replace (count (Node l r) - count l) with (count r) by lia.
  destruct (IHr false) as [Hpost Hall]; [apply Hs|lia|]. split.
  - cbn [post_order]. rewrite <-Hpost, fmap_app, <-!app_assoc. done.
  - apply Forall_app. split; [done|by constructor].
Qed.

(** The next block is the first of the tree on top of the stack. *)
Lemma remaining_next f t base i :
  0 < i < count t →
  ∃ s b R, next_tree t base i = Some (s, b) ∧ remaining f t i = (false, root_of m false s) :: R ∧
    opened f t i = opened false s 0 ++ R.
Proof.
  revert f base i. induction t as [h|l IHl r IHr]; intros f base i Hi.
  { unfold count, zlength in Hi. simpl in Hi. lia. }
  pose proof (count_node l r). cbn [next_tree opened].
  destruct (remaining_node f l r i) as [-> _]; [lia|right; lia|].
  destruct (decide (i < count l)) as [Hlt|Hge].
  - rewrite !bool_decide_true by done. destruct (IHl false base i) as (s & b & R & -> & -> & ->); [lia|].
    exists s, b, ((R ++ [(false, root_of m false r)]) ++ [(true, root_of m f (Node l r))]).
    split_and!; [done|done|]. by rewrite <-!app_assoc.
  - rewrite !(bool_decide_false (i < count l)) by done. case_bool_decide as Heq.
    + subst i. rewrite Z.sub_diag. destruct (remaining_0 false r) as [-> _].
      eexists r, _, _. split_and!; done.
    + destruct (IHr false (base + 2 * count l - 1) (i - count l)) as (s & b & R & -> & -> & ->); [lia|].
      exists s, b, (R ++ [(true, root_of m f (Node l r))]).
      split_and!; [done|done|]. by rewrite <-!app_assoc.
Qed.

(** ** A proof opens the tree on top of the stack *)

(** The stack of the verifier: parents are kept by a collecting one only. *)
Definition stack_of (c : bool) (L : list Entry) : list Bytes :=
  snd <$> (if c then L else filter (λ x, x.1 = false) L).

Definition parents (L : list Entry) : Z := zlength (filter (λ x, x.1 = true) L).

Lemma stack_of_app c L K : stack_of c (L ++ K) = stack_of c L ++ stack_of c K.
Proof. unfold stack_of. destruct c; [by rewrite fmap_app|]. by rewrite filter_app, fmap_app. Qed.

Lemma stack_of_parent c h : stack_of c [(true, h)] = if c then [h] else [].
Proof. by destruct c. Qed.

Lemma stack_of_other c h : stack_of c [(false, h)] = [h].
Proof. by destruct c. Qed.

Lemma parents_app L K : parents (L ++ K) = parents L + parents K.
Proof. unfold parents. by rewrite filter_app, zlength_app. Qed.

Lemma pushed_app c xs ys local :
  pushed iv c (xs ++ ys) local = pushed iv c xs local ++ pushed iv c ys (foldl (local_step iv) local xs).
Proof.
  revert local. induction xs as [|x xs IH]; intros local; [done|].
  cbn [app pushed foldl]. by rewrite IH, <-!app_assoc.
Qed.

Lemma merged_app xs ys local :
  merged iv (xs ++ ys) local = merged iv xs local + merged iv ys (foldl (local_step iv) local xs).
Proof.
  revert local. induction xs as [|x xs IH]; intros local; [done|].
  cbn [app merged foldl]. rewrite IH. lia.
Qed.

(** The local stack after the proof of a block. *)
Definition ends_with t (local : list Bytes) : Prop :=
  match t with
  | Leaf h => local = [h]
  | Node _ _ => ∃ a b, local = [a; b] ∧ ∀ f, m a b f = root_of m f t
  end.

Lemma ends_with_step t local item :
  ends_with t local →
  local_step iv local item
  = (if item.1 then [item.2; root_of m false t] else [root_of m false t; item.2]) ∧
  (∀ c, pushed iv c [item] local
    = (if c && negb (is_leaf t) then [root_of m false t] else []) ++ (if item.1 then [] else [item.2])) ∧
  merged iv [item] local = (if is_leaf t then 0 else 1).
Proof.
  unfold local_step. destruct t as [h|l r].
  - cbn [ends_with]. intros ->. simpl. split_and!; [done| |done].
    intros [|]; by destruct item as [[|] ?].
  - intros (a & b & -> & Hm). simpl. rewrite Hm. split_and!; [done| |done].
    intros [|]; by destruct item as [[|] ?].
Qed.

Lemma proof_pushes f c t i :
  (c = true → i = 0) →
  ends_with t (foldl (local_step iv) [] (proof_of m t i)) ∧
  pushed iv c (proof_of m t i) [] ++ (if c && negb (is_leaf t) then [root_of m f t] else [])
    = stack_of c (opened f t i) ∧
  merged iv (proof_of m t i) [] + (if is_leaf t then 0 else 1) = parents (opened f t i).
Proof.
  revert f i. induction t as [h|l IHl r IHr]; intros f i Hc.
  { simpl. split_and!; [done| |done]. by rewrite andb_false_r, stack_of_other. }
  pose proof (count_pos l). cbn [proof_of opened is_leaf negb].
  rewrite andb_true_r, stack_of_app, stack_of_parent, parents_app.
  change (parents [(true, _)]) with 1.
  case_bool_decide as Hlt.
  - destruct (IHl false i Hc) as (He & Hp & Hm).
    destruct (ends_with_step l _ (false, root_of m false r) He) as (Hls & Hps & Hms).
    rewrite foldl_snoc, pushed_app, merged_app, Hls, Hps, Hms.
    rewrite stack_of_app, parents_app, <-Hp, stack_of_other, <-!app_assoc.
    split_and!; [by eexists _, _|done|]. change (parents [(false, _)]) with 0. lia.
  - destruct c; [specialize (Hc eq_refl); lia|].
    destruct (IHr false (i - count l)) as (He & Hp & Hm); [done|].
    destruct (ends_with_step r _ (true, root_of m false l) He) as (Hls & Hps & Hms).
    rewrite foldl_snoc, pushed_app, merged_app, Hls, Hps, Hms, <-Hp.
    simpl. rewrite !app_nil_r. split_and!; [by eexists _, _|done|]. lia.
Qed.

Lemma proof_of_walk c t i : (c = true → i = 0) → walk_ok c 0 (proof_of m t i) ∧ proof_of m t i ≠ [].
Proof.
  intros Hc.
  assert (∃ h rest, proof_of m t i = (false, h) :: rest ∧ Forall (λ x, x.1 = true → c = false) rest)
    as (h & rest & -> & Hall).
  { revert i Hc. induction t as [h|l IHl r IHr]; intros i Hc; cbn [proof_of].
    { exists h, []. split; [done|constructor]. }
    pose proof (count_pos l). case_bool_decide.
    - destruct (IHl i Hc) as (h & rest & -> & Hall). exists h. eexists. split; [done|].
      apply Forall_app. split; [done|]. by constructor.
    - destruct c; [specialize (Hc eq_refl); lia|].
      destruct (IHr (i - count l)) as (h & rest & -> & Hall); [done|]. exists h. eexists.
      split; [done|]. apply Forall_app. split; [done|]. by constructor. }
  done.
Qed.
(** ** The steps of the verifier *)

Definition collected (c : bool) t (i : Z) : Storage :=
  if c then WithHashTreeCollector i (seen true t i) else NoStorage.

(** The verifier with the entries [L], after [i] blocks of [t]. *)
Definition state (c : bool) (pc : Z) (L : list Entry) t (i : Z) : IncrementalVerifier :=
  mkIncrementalVerifier iv (if c then parents L else pc) (stack_of c L) (collected c t i).

Lemma state_collect c pc L t i : COLLECT (v_storage (state c pc L t i)) = c.
Proof. by destruct c. Qed.

Lemma parents_nonneg L : 0 ≤ parents L ≤ zlength L.
Proof. unfold parents, zlength. pose proof (length_filter (λ x : Entry, x.1 = true) L). lia. Qed.

Lemma state_unfinished c pc h R t i : is_finished (state c pc ((false, h) :: R) t i) = false.
Proof.
  unfold is_finished. rewrite state_collect. destruct c; simpl; [apply bool_decide_false|done].
  change ((false, h) :: R) with ([(false, h)] ++ R) at 2. rewrite parents_app.
  change (parents [(false, h)]) with 0. pose proof (parents_nonneg R).
  unfold stack_of, zlength in *. rewrite length_fmap. cbn [length]. lia.
Qed.

Lemma state_finished pc L t i c :
  Forall (λ x, x.1 = true) L → is_finished (state c pc L t i) = true.
Proof.
  intros HL. unfold is_finished. rewrite state_collect. destruct c; simpl; apply bool_decide_true.
  - unfold parents, stack_of, zlength. rewrite length_fmap. f_equal.
    induction HL as [|x L Hx _ IH]; [done|]. rewrite filter_cons_True by done. simpl. lia.
  - unfold stack_of. induction HL as [|x L Hx _ IH]; [done|]. rewrite filter_cons_False; [done|]. by rewrite Hx.
Qed.

Lemma feed_opens c f pc s R t i j proof :
  (c = true → j = 0) →
  proof_items proof = Some (if bool_decide (count s = 1) then [] else proof_of m s j) →
  (count s = 1 → proof = []) →
  (count s ≠ 1 → is_root (state c pc ((false, root_of m f s) :: R) t i) = f) →
  0 ≤ pc < 256 → parents (opened f s j ++ R) < 256 →
  feed_proof proof (state c pc ((false, root_of m f s) :: R) t i)
  = Some (Ok tt, state c (if is_leaf s then pc else 1) (opened f s j ++ R) t i).
Proof.
  intros Hc Hitems Hnil Hroot Hpc Hp. destruct s as [h|l r].
  { rewrite Hnil by done. unfold feed_proof. unfold_M. rewrite state_unfinished. done. }
  assert (count (Node l r) ≠ 1) as Hne.
  { pose proof (count_node l r). pose proof (count_pos l). pose proof (count_pos r). lia. }
  rewrite bool_decide_false in Hitems by done. specialize (Hroot Hne).
  set (s := Node l r) in *. set (v := state c pc _ t i) in *.
  destruct (proof_of_walk c s j Hc) as [Hw Hpne].
  destruct (proof_pushes f c s j Hc) as ((a & b & Hloc & Hm) & Hpush & Hmerged).
  cbn [is_leaf negb s] in Hpush, Hmerged. rewrite andb_true_r in Hpush. fold s in Hpush, Hmerged.
  assert (0 ≤ parents R) by apply parents_nonneg.
  assert (0 ≤ parents (opened f s j)) by apply parents_nonneg. rewrite parents_app in Hp.
  assert (parents ((false, root_of m f s) :: R) = parents R) as Hpr.
  { change ((false, root_of m f s) :: R) with ([(false, root_of m f s)] ++ R). by rewrite parents_app. }
  rewrite (feed_proof_accepts proof v (proof_of m s j) (root_of m f s) a b).
  - do 2 f_equal. unfold after_proof, v. rewrite state_collect. unfold state, set_stack.
    cbn [v_iv v_parent_count v_stack v_storage]. f_equal.
    + destruct c; [|done]. rewrite Hpr, parents_app, Hmerged, wrap_small by (unfold in_width; lia). lia.
    + rewrite stack_of_app, <-Hpush. destruct c; simpl; [by rewrite <-app_assoc|by rewrite app_nil_r].
  - unfold v, state, in_width. cbn [v_parent_count]. rewrite Hpr. destruct c; lia.
  - apply state_unfinished.
  - intros ->. by injection Hitems.
  - by apply proof_items_valid with (items := proof_of m s j).
  - done.
  - unfold v. simpl. by destruct c.
  - unfold v. by rewrite state_collect.
  - done.
  - rewrite Hroot. apply Hm.
Qed.
Lemma advance_parents_run fuel x pc pops rest tree :
  0 < x → zlength pops = trailing_zeros x → (length pops ≤ fuel)%nat → in_width 8 pc →
  zlength pops ≤ pc →
  advance_parents fuel x pc (pops ++ rest) tree = Some (pc - zlength pops, rest, tree ++ pops).
Proof.
  revert fuel x pc tree. induction pops as [|h pops IH]; intros fuel x pc tree Hx Hz Hf Hpc Hle;
    destruct (even_odd x) as (y & Hy & [-> | ->]); try lia.
  - rewrite trailing_zeros_double in Hz by lia. destruct (trailing_zeros_spec y) as (k & _ & Hk & _); [lia|].
    unfold zlength in Hz. simpl in Hz. lia.
  - assert (Z.land (2 * y + 1) 1 ≠ 0) as Hodd.
    { rewrite (Z.land_ones _ 1) by lia. change (2 ^ 1) with 2. rewrite Z.mul_comm, Z.add_comm, Z.mod_add; [done|lia]. }
    destruct fuel; cbn [advance_parents]; rewrite bool_decide_false by done;
      simpl; by rewrite app_nil_r, Z.sub_0_r.
  - rewrite trailing_zeros_double in Hz by lia. rewrite zlength_cons in *. pose proof (zlength_nonneg pops).
    destruct fuel as [|fuel]; [simpl in Hf; lia|]. cbn [advance_parents app].
    rewrite bool_decide_true.
    2: { rewrite (Z.land_ones _ 1) by lia. change (2 ^ 1) with 2. by rewrite Z.mul_comm, Z.mod_mul. }
    assert (Z.shiftr (2 * y) 1 = y) as ->.
    { rewrite Z.shiftr_div_pow2 by lia. change (2 ^ 1) with 2. by rewrite Z.mul_comm, Z.div_mul. }
    unfold in_width in *. rewrite wrap_small by (unfold in_width; lia).
    rewrite IH; [|lia|lia|simpl in Hf; lia|unfold in_width; lia|lia].
    rewrite <-app_assoc. do 3 f_equal. lia.
  - rewrite trailing_zeros_odd in Hz by done. rewrite zlength_cons in Hz. pose proof (zlength_nonneg pops). lia.
Qed.

Lemma parents_all L : Forall (λ x : Entry, x.1 = true) L → parents L = zlength L.
Proof.
  intros HL. unfold parents, zlength. f_equal.
  induction HL as [|x L Hx _ IH]; [done|]. rewrite filter_cons_True by done. simpl. lia.
Qed.

Lemma stack_of_all L : Forall (λ x : Entry, x.1 = true) L → stack_of false L = [].
Proof.
  intros HL. unfold stack_of. induction HL as [|x L Hx _ IH]; [done|].
  rewrite filter_cons_False; [done|]. by rewrite Hx.
Qed.

Lemma verify_block c pc h pops rest t i :
  Forall (λ x, x.1 = true) pops → zlength pops = trailing_zeros (i + 1) →
  0 ≤ i < 2 ^ 62 → parents (pops ++ rest) < 256 →
  seen true t (i + 1) = seen true t i ++ h :: (snd <$> pops) →
  verify_hash h (state c pc ((false, h) :: pops ++ rest) t i)
  = Some (Ok tt, state c pc rest t (i + 1)).
Proof.
  intros Hpops Hlen Hi Hp Hseen. unfold verify_hash. unfold_M. rewrite state_unfinished.
  change ((false, h) :: pops ++ rest) with ([(false, h)] ++ (pops ++ rest)). unfold state.
  cbn [v_stack v_storage v_parent_count v_iv].
  rewrite stack_of_app, parents_app, stack_of_other. change (parents [(false, h)]) with 0.
  cbn [app head unwrap]. rewrite bool_decide_false by (intros H; by apply H).
  pose proof (zlength_nonneg pops). rewrite stack_of_app. rewrite parents_app in *.
  rewrite (parents_all pops) in * by done. pose proof (parents_nonneg rest).
  destruct c.
  - unfold collected, advance. rewrite (wrap_small 64) by (unfold in_width; lia).
    assert (zlength (stack_of true pops) = zlength pops) as Hl
      by (unfold stack_of, zlength; by rewrite length_fmap).
    rewrite advance_parents_run; [|lia|lia| |unfold in_width; lia|lia].
    + simpl. unfold collected. rewrite Hseen, Hl. do 3 f_equal; [lia|].
      by rewrite <-app_assoc.
    + unfold stack_of. rewrite length_fmap.
      assert (trailing_zeros (i + 1) < 63); [|unfold zlength in *; lia].
      apply (trailing_zeros_below 63). lia. lia.
  - rewrite stack_of_all by done. done.
Qed.

Lemma opened_parents f t i d :
  shaped t → count t < 2 ^ 62 → 0 ≤ d → count t ≤ 2 ^ d → parents (opened f t i) ≤ d.
Proof.
  revert f i d. induction t as [h|l IHl r IHr]; intros f i d Hs Hc Hd Ht; [done|].
  destruct (shaped_split l r Hs Hc) as (k & Hk & Hl & Hr). destruct Hs as (Hsl & Hsr & _).
  pose proof (count_node l r). assert (k < d) as Hkd by (apply (Z.pow_lt_mono_r_iff 2); lia).
  assert (2 ^ k ≤ 2 ^ (d - 1)) by (apply Z.pow_le_mono_r; lia).
  cbn [opened]. rewrite parents_app. change (parents [(true, _)]) with 1. case_bool_decide.
  - rewrite parents_app. change (parents [(false, _)]) with 0.
    pose proof (IHl false i (d - 1) Hsl ltac:(lia) ltac:(lia) ltac:(lia)). lia.
  - pose proof (IHr false (i - count l) (d - 1) Hsr ltac:(lia) ltac:(lia) ltac:(lia)). lia.
Qed.
(** ** A stream *)

(** A client that asks for [n] blocks from [i] on: for every block the proof of
    the provider, then the hash of the block. *)
Fixpoint verify_stream (n : nat) (h : HashTree) (mode : Mode) (i : Z)
    : M IncrementalVerifier (Result unit VerificationError) :=
  match n with
  | O => mret (Ok tt)
  | S n =>
      proof ← unwrap (generate_proof h mode i);
      r ← feed_proof (pb_as_slice proof);
      match r with
      | Err e => mret (Err e)
      | Ok _ =>
          hash ← unwrap (ht_index h i);
          r ← verify_hash hash;
          match r with
          | Err e => mret (Err e)
          | Ok _ => verify_stream n h Proceeding (i + 1)
          end
      end
  end.

(** The verifier before a block: at the start, or after the blocks before. *)
Definition before (c : bool) (mode : Mode) t (i : Z) (v : IncrementalVerifier) : Prop :=
  match mode with
  | Initial => (c = true → i = 0) ∧ v = state c 0 [(false, root_of m true t)] t i
  | Proceeding => 0 < i ∧ v = state c 1 (remaining true t i) t i
  end.

Definition pc_of t : Z := if is_leaf t then 0 else 1.

Lemma is_leaf_count t : is_leaf t = bool_decide (count t = 1).
Proof.
  destruct t as [h|l r]; [done|]. symmetry. apply bool_decide_false.
  pose proof (count_node l r). pose proof (count_pos l). pose proof (count_pos r). lia.
Qed.

Context (t0 : tree Bytes).
Hypothesis Hshaped : shaped t0.
Hypothesis Hcount : count t0 < 2 ^ 40.
Hypothesis Hhashes : hashes_ok m t0.

Lemma proof_fed c mode i v :
  0 ≤ i < count t0 → before c mode t0 i v →
  ∃ p, generate_proof (mkHashTree (slice_of m true t0)) mode i = Some p ∧
    feed_proof (pb_as_slice p) v = Some (Ok tt, state c (pc_of t0) (opened true t0 i) t0 i).
Proof.
  intros Hi Hv.
  destruct (generate_proof_spec m mode true t0 i Hshaped Hcount Hhashes Hi) as (p & Hgen & _ & Hitems & Hnil);
    [intros ->; destruct Hv; lia|].
  exists p. split; [done|].
  pose proof (opened_parents true t0 i 40 Hshaped ltac:(lia) ltac:(lia) ltac:(lia)) as Hbound.
  destruct mode; destruct Hv as [Hc ->]; simpl in Hitems, Hnil.
  - rewrite (feed_opens c true 0 t0 [] t0 i i).
    + by rewrite app_nil_r.
    + done.
    + done.
    + intros H1. apply Hnil. by rewrite bool_decide_true.
    + intros _. unfold is_root. rewrite state_collect. unfold state. simpl.
      destruct c; simpl; [|done]. by rewrite Hc.
    + lia.
    + rewrite app_nil_r. lia.
  - destruct (remaining_next true t0 0 i) as (s & b & R & Hn & Hrem & Hop); [lia|].
    rewrite Hn in Hitems, Hnil. rewrite Hrem, Hop in *.
    rewrite (feed_opens c false 1 s R t0 i 0).
    + unfold pc_of. rewrite (is_leaf_count t0), bool_decide_false by lia. by destruct (is_leaf s).
    + done.
    + done.
    + intros H1. apply Hnil. by rewrite bool_decide_true.
    + intros _. unfold is_root. rewrite state_collect. unfold state. cbn [v_storage v_parent_count].
      apply andb_false_iff. right. destruct c; apply bool_decide_false; simpl; lia.
    + lia.
    + lia.
Qed.

Lemma block_accepted c mode i n v :
  0 ≤ i < count t0 → before c mode t0 i v →
  verify_stream (S n) (mkHashTree (slice_of m true t0)) mode i v
  = verify_stream n (mkHashTree (slice_of m true t0)) Proceeding (i + 1)
      (state c (pc_of t0) (remaining true t0 (i + 1)) t0 (i + 1)).
Proof.
  intros Hi Hv. destruct (proof_fed c mode i v Hi Hv) as (p & Hgen & Hfeed).
  destruct (hash_tree_spec m true t0 Hshaped ltac:(lia) Hhashes) as (ht & _ & Hin & _ & _ & Hix).
  assert (mkHashTree (slice_of m true t0) = ht) as Hht by (destruct ht; simpl in Hin; by subst).
  destruct (opened_step true t0 i Hshaped ltac:(lia) Hi) as (h & pops & Hh & Hop & Hpops & Hlen & Hseen).
  pose proof (opened_parents true t0 i 40 Hshaped ltac:(lia) ltac:(lia) ltac:(lia)) as Hbound.
  cbn [verify_stream]. unfold_M. rewrite Hgen. cbn [unwrap]. unfold_M. rewrite Hfeed.
  rewrite Hht, Hix, Hh by lia. cbn [unwrap]. unfold_M. rewrite Hop in *.
  rewrite verify_block; [done|done|done|lia| |done].
  change ((false, h) :: pops ++ remaining true t0 (i + 1))
    with ([(false, h)] ++ (pops ++ remaining true t0 (i + 1))) in Hbound.
  rewrite parents_app in Hbound. change (parents [(false, h)]) with 0 in Hbound. lia.
Qed.

Lemma stream_proceeds c n i :
  0 < i → i + Z.of_nat n = count t0 →
  verify_stream n (mkHashTree (slice_of m true t0)) Proceeding i
    (state c (pc_of t0) (remaining true t0 i) t0 i)
  = Some (Ok tt, state c (pc_of t0) (remaining true t0 (count t0)) t0 (count t0)).
Proof.
  revert i. induction n as [|n IH]; intros i Hi Hn.
  { replace (count t0) with i by lia. done. }
  rewrite (block_accepted c); [apply IH; lia|lia|]. split; [done|].
  unfold pc_of. by rewrite is_leaf_count, bool_decide_false by lia.
Qed.

Lemma stream_accepted c i :
  root_of m true t0 ≠ iv_empty iv → (c = true → i = 0) → 0 ≤ i < count t0 →
  (set_root_hash (root_of m true t0);;
   verify_stream (Z.to_nat (count t0 - i)) (mkHashTree (slice_of m true t0)) Initial i)
    (verifier_new iv (if c then WithHashTreeCollector 0 [] else NoStorage))
  = Some (Ok tt, state c (pc_of t0) (remaining true t0 (count t0)) t0 (count t0)).
Proof.
  intros Hroot Hc Hi. unfold set_root_hash. unfold_M. unfold verifier_new. cbn [v_parent_count v_iv].
  rewrite (bool_decide_false (_ = iv_empty iv)) by done. cbn [negb bool_decide decide].
  simpl (negb _). cbn [v_stack]. unfold_M.
  replace (Z.to_nat (count t0 - i)) with (S (Z.to_nat (count t0 - i - 1))) by lia.
  rewrite (block_accepted c Initial i); [apply stream_proceeds; lia|lia|].
  split; [done|]. unfold state, set_stack, collected. cbn [v_iv v_storage].
  destruct c; [|done]. rewrite Hc by done. by destruct (remaining_0 true t0) as [_ ->].
Qed.

(** C16: What a provider proves, a client accepts: from any first block of a tree
    on, the generated proofs and the hashes of the blocks are accepted one after
    the other, without a panic, and after the last block the verifier is
    finished. *)
Theorem verifier_complete i :
  root_of m true t0 ≠ iv_empty iv → 0 ≤ i < count t0 →
  ∃ v, (set_root_hash (root_of m true t0);;
        verify_stream (Z.to_nat (count t0 - i)) (mkHashTree (slice_of m true t0)) Initial i)
         (verifier_new iv NoStorage) = Some (Ok tt, v) ∧ is_finished v = true.
Proof.
  intros Hroot Hi. eexists. split; [by apply (stream_accepted false i)|].
  apply state_finished. by apply remaining_end; [|lia].
Qed.

(** A collecting verifier that is given all the blocks rebuilds the array of
    the tree: it is finished, and [finalize] yields the hashes of all nodes in the
    order in which the provider stores them. *)
Theorem verifier_collects :
  root_of m true t0 ≠ iv_empty iv →
  ∃ v, (set_root_hash (root_of m true t0);;
        verify_stream (Z.to_nat (count t0)) (mkHashTree (slice_of m true t0)) Initial 0)
         (verifier_new iv (WithHashTreeCollector 0 [])) = Some (Ok tt, v) ∧
    finalize v = Some (post_order m true t0).
Proof.
  intros Hroot. pose proof (count_pos t0).
  pose proof (stream_accepted true 0 Hroot ltac:(done) ltac:(lia)) as Hrun.
  rewrite Z.sub_0_r in Hrun. eexists. split; [exact Hrun|].
  destruct (remaining_end true t0 Hshaped ltac:(lia)) as [Hpost Hall].
  unfold finalize. rewrite state_finished by done. simpl. by rewrite <-Hpost.
Qed.
End streaming.
