(* ===== verification/Collecting.v ===== *)
(** * Collecting: a verifier that keeps the tree, against any peer

    [IncrementalVerifier] of [lib/b3fs/src/stream/verifier.rs] with its
    [WithHashTreeCollector]: against the tree of a content, whatever proofs and
    hashes are given to it, it opens this tree from the left, accepts its blocks in
    their order and collects its array, unless a proof or a hash shows a
    collision. *)

From S2P Require Import Prelude Types Codec HashTree ProofBuf Blake3 Verifier Streaming.
From stdpp Require Import base list sets.
From Stdlib Require Import ZArith Lia.
Open Scope Z_scope.

Section collecting.
Context {P : Platform} (iv : IV).
#[local] Abbreviation Entry := (bool * Bytes)%type.
#[local] Abbreviation m := (iv_merge iv).
#[local] Arguments iv_merge : simpl never.

(** ** Trees that are opened from the left *)

(** The stack of a tree opened [d] times. *)
Fixpoint spine (d : nat) (f : bool) (s : tree Bytes) : list Entry :=
  match d, s with
  | S d, Node l r => spine d false l ++ [(false, root_of m false r); (true, root_of m f s)]
  | _, _ => [(false, root_of m f s)]
  end.

(** The tree on top of it. *)
Fixpoint top (d : nat) (f : bool) (s : tree Bytes) : bool * tree Bytes :=
  match d, s with
  | S d, Node l _ => top d false l
  | _, _ => (f, s)
  end.

Lemma spine_add d f s :
  ∃ R, ∀ e, spine (d + e) f s = spine e (top d f s).1 (top d f s).2 ++ R.
Proof.
  revert f s. induction d as [|d IH]; intros f s; [exists []; intros e; by rewrite app_nil_r|].
  destruct s as [h|l r]; [exists []; intros [|e]; done|]. destruct (IH false l) as [R HR].
  exists (R ++ [(false, root_of m false r); (true, root_of m f (Node l r))]). intros e. simpl. rewrite HR.
  by rewrite <-app_assoc.
Qed.

Lemma spine_full d f s g h : top d f s = (g, Leaf h) → spine d f s = opened iv f s 0.
Proof.
  revert f s. induction d as [|d IH]; intros f [x|l r]; simpl; try done. intros Ht.
  pose proof (count_pos l). rewrite bool_decide_true by lia. rewrite (IH false l) by done.
  by rewrite <-app_assoc.
Qed.

Lemma spine_parents d f s : parents (spine d f s) ≤ parents (opened iv f s 0).
Proof.
  revert f s. induction d as [|d IH]; intros f s; simpl.
  { change (parents [(false, root_of m f s)]) with 0. apply parents_nonneg. }
  destruct s as [h|l r]; [done|]. simpl. pose proof (count_pos l). rewrite bool_decide_true by lia.
  rewrite !parents_app. change (parents [(false, _); (true, _)]) with 1. change (parents [(false, _)]) with 0.
  change (parents [(true, _)]) with 1. pose proof (IH false l). lia.
Qed.

Lemma top_false d s : (top d false s).1 = false.
Proof. revert s. by induction d as [|d IH]; intros [h|l r]; simpl. Qed.

Lemma top_flag d s : (top d true s).1 = bool_decide (length (spine d true s) = 1%nat).
Proof.
  destruct d as [|d]; [done|]. destruct s as [h|l r]; [done|]. simpl.
  rewrite bool_decide_false by (rewrite length_app; simpl; lia).
  apply top_false.
Qed.

(** ** Proofs without items on the left *)

(** The tree of such a proof, and what it leaves on the stack. *)
Lemma proof_stack x xs :
  let u := proof_tree (x :: xs) in
  Forall (λ y : bool * Bytes, y.1 = false) (x :: xs) →
  merged iv (x :: xs) [] = Z.of_nat (length xs - 1) ∧
  holds iv (foldl (local_step iv) [] (x :: xs)) u ∧
  (xs ≠ [] → length (foldl (local_step iv) [] (x :: xs)) = 2%nat) ∧
  ∀ f, post_order m f u = pushed iv true (x :: xs) [] ++ (match xs with [] => [] | _ => [root_of m f u] end).
Proof.
  intros u. unfold u. clear u. destruct x as [g h]. induction xs as [|[g' h'] xs IH] using rev_ind; intros Hno.
  { rewrite Forall_singleton in Hno. simpl in Hno. subst g. done. }
  rewrite app_comm_cons in *. apply Forall_app in Hno as [Hno Hy]. rewrite Forall_singleton in Hy. simpl in Hy. subst g'.
  destruct (IH Hno) as (Hm & Hh & Hlen & Hpost). clear IH.
  set (local := foldl (local_step iv) [] ((g, h) :: xs)) in *.
  assert (proof_tree (((g, h) :: xs) ++ [(false, h')]) = Node (proof_tree ((g, h) :: xs)) (Leaf h')) as Ht
    by (simpl; by rewrite foldl_snoc).
  rewrite Ht, pushed_app, merged_app, foldl_app. fold local. cbn [foldl]. rewrite length_app. cbn [length].
  split_and!.
  - rewrite Hm. destruct xs as [|z xs]; [by destruct g|]. specialize (Hlen ltac:(done)).
    destruct local as [|a [|b [|]]]; try done. simpl. lia.
  - rewrite <-Ht. simpl. rewrite foldl_snoc. by apply holds_step.
  - intros _. destruct local as [|a [|b [|]]]; try done.
  - intros f. cbn [post_order]. rewrite Hpost. destruct xs as [|z xs]; [by destruct g|].
    specialize (Hlen ltac:(done)). destruct local as [|a [|b [|]]]; try done.
    change (∀ f, root_of m f (proof_tree ((g, h) :: z :: xs)) = m a b f) in Hh.
    rewrite (Hh false). cbn [pushed fst snd]. by rewrite <-!app_assoc.
Qed.

(** An accepted proof opens the tree with the same hash, or shows a collision. *)
Lemma spine_binding x xs f s :
  let u := proof_tree (x :: xs) in
  Forall (λ y : bool * Bytes, y.1 = false) (x :: xs) → root_of m f u = root_of m f s →
  (stack_of true (spine (length xs) f s) = post_order m f u ∧
   parents (spine (length xs) f s) = Z.of_nat (length xs)) ∨ collides m f u s.
Proof.
  intros u. unfold u. clear u. revert f s.
  induction xs as [|[g h'] xs IH] using rev_ind; intros f s Hno Heq; [left; simpl in *; by rewrite Heq|].
  rewrite app_comm_cons in *. apply Forall_app in Hno as [Hno Hy]. rewrite Forall_singleton in Hy. simpl in Hy. subst g.
  assert (proof_tree ((x :: xs) ++ [(false, h')]) = Node (proof_tree (x :: xs)) (Leaf h')) as Ht
    by (simpl; by rewrite foldl_snoc).
  rewrite Ht in *. set (u := proof_tree (x :: xs)) in *. cbn [root_of] in Heq.
  destruct s as [y|l r].
  { right. right. exists (root_of m false u), h', f. split; [left|]. rewrite Heq. left. }
  destruct (decide ((root_of m false u, h') = (root_of m false l, root_of m false r))) as [[= Hl Hr]|Hne].
  - destruct (IH false l Hno Hl) as [[Hst Hpar]|Hc]; [|right; unfold collides in *; set_solver].
    left. rewrite length_app, Nat.add_1_r. cbn [spine]. rewrite stack_of_app, parents_app, Hst, Hpar. split.
    + cbn [post_order root_of]. unfold stack_of. cbn [fmap list_fmap snd root_of]. by rewrite Hl, Hr.
    + change (parents [(false, _); (true, _)]) with 1. lia.
  - right. left. exists (root_of m false u), h', (root_of m false l), (root_of m false r), f.
    split_and!; [left|left|done|done].
Qed.

(** ** The verifier of a content *)

Context (t0 : tree Bytes) (Hshaped : shaped t0) (Hcount : count t0 < 2 ^ 40).

(** The trees in the tree of the content, with their root flag. *)
Inductive within : bool → tree Bytes → Prop :=
| within_all : within true t0
| within_left f l r : within f (Node l r) → within false l
| within_right f l r : within f (Node l r) → within false r.

Lemma within_parts f s :
  within f s → (∀ x, x ∈ merges m f s → x ∈ merges m true t0) ∧ (∀ h, h ∈ leaves s → h ∈ leaves t0).
Proof.
  induction 1 as [|f l r _ [IH1 IH2]|f l r _ [IH1 IH2]]; [done|..]; split.
  - intros x Hx. apply IH1. simpl. set_solver.
  - intros h Hh. apply IH2. simpl. set_solver.
  - intros x Hx. apply IH1. simpl. set_solver.
  - intros h Hh. apply IH2. simpl. set_solver.
Qed.

Lemma within_top d f s : within f s → within (top d f s).1 (top d f s).2.
Proof.
  revert f s. induction d as [|d IH]; intros f s Hs; [done|]. destruct s as [h|l r]; [done|]. simpl.
  apply IH. by eapply within_left.
Qed.

Lemma within_next f s base i s' b : within f s → next_tree s base i = Some (s', b) → within false s'.
Proof.
  revert f base i. induction s as [h|l IHl r IHr]; intros f base i Hs Hn; [done|]. cbn [next_tree] in Hn.
  repeat case_bool_decide.
  - eapply IHl; [by eapply within_left|done].
  - simplify_eq. by eapply within_right.
  - eapply IHr; [by eapply within_right|done].
Qed.

(** A proof that merges other hashes than the content does to one hash, or to the
    hash of a block. *)
Definition forges (u : tree Bytes) : Prop :=
  ∃ f, (∃ l r l0 r0 g, (l, r, g) ∈ merges m f u ∧ (l0, r0, g) ∈ merges m true t0 ∧
     (l, r) ≠ (l0, r0) ∧ m l r g = m l0 r0 g) ∨
  (∃ l r g, (l, r, g) ∈ merges m f u ∧ m l r g ∈ leaves t0).

Lemma collides_forges f u s : within f s → collides m f u s → forges u.
Proof.
  intros [Hm Hl]%within_parts [(l & r & l0 & r0 & g & H1 & H2 & H3)|(l & r & g & H1 & H2)]; exists f.
  - left. exists l, r, l0, r0, g. split_and!; [done|by apply Hm|apply H3..].
  - right. exists l, r, g. split; [done|by apply Hl].
Qed.

(** The hash of an inner node. *)
Definition inner (h : Bytes) : Prop := ∃ l r g, (l, r, g) ∈ merges m true t0 ∧ h = m l r g.

(** The stack before block [i]: the tree on top of it is opened some times. *)
Definition opening (i : Z) (L : list Entry) : Prop :=
  ∃ f s d R, within f s ∧ L = spine d f s ++ R ∧ opened iv true t0 i = opened iv f s 0 ++ R ∧
    f = bool_decide (i = 0) ∧ (i = 0 → R = []).

Definition collecting (i : Z) (v : IncrementalVerifier) : Prop :=
  ∃ L, v = state iv true 0 L t0 i ∧
    ((0 ≤ i < count t0 ∧ opening i L) ∨ (i = count t0 ∧ L = remaining iv true t0 i)).

Lemma collecting_finished v :
  v = state iv true 0 (remaining iv true t0 (count t0)) t0 (count t0) → is_finished v = true.
Proof. intros ->. apply state_finished. apply remaining_end; [done|lia]. Qed.

Lemma opening_parents i L : opening i L → 0 ≤ parents L ≤ 40.
Proof.
  intros (f & s & d & R & _ & -> & Hop & _). pose proof (parents_nonneg (spine d f s ++ R)). split; [lia|].
  pose proof (opened_parents iv true t0 i 40 Hshaped ltac:(lia) ltac:(lia) ltac:(lia)) as Hb.
  rewrite Hop, parents_app in Hb. rewrite parents_app. pose proof (spine_parents d f s). lia.
Qed.

Lemma opening_root i f s d R :
  0 ≤ i → f = bool_decide (i = 0) → (i = 0 → R = []) →
  is_root (state iv true 0 (spine d f s ++ R) t0 i) = (top d f s).1.
Proof.
  intros Hi -> HR. unfold is_root. rewrite state_collect. unfold state, collected. cbn [v_storage v_stack storage_counter].
  destruct (decide (i = 0)) as [->|Hne].
  - rewrite HR, app_nil_r, (bool_decide_true (0 = 0)), andb_true_r by done. rewrite top_flag.
    unfold stack_of. by rewrite length_fmap.
  - rewrite (bool_decide_false (i = 0)), andb_false_r by done. by rewrite top_false.
Qed.

(** ** Its steps *)

Lemma collecting_start v :
  root_of m true t0 ≠ iv_empty iv →
  set_root_hash (root_of m true t0) (verifier_new iv (WithHashTreeCollector 0 [])) = Some (tt, v) →
  collecting 0 v.
Proof.
  intros Hne Hr. unfold set_root_hash in Hr. unfold_M. simpl in Hr. rewrite bool_decide_false in Hr by done.
  simplify_eq/=. exists [(false, root_of m true t0)]. split.
  - unfold state, set_stack, collected. simpl. by destruct (remaining_0 iv true t0) as [_ ->].
  - left. pose proof (count_pos t0). split; [lia|]. exists true, t0, 0%nat, [].
    split_and!; [constructor|done|by rewrite app_nil_r|done|done].
Qed.

Lemma walk_no_left items : walk_ok true 0 items → Forall (λ y : bool * Bytes, y.1 = false) items.
Proof.
  destruct items as [|x items]; [constructor|]. intros [Hx Hrest]. constructor.
  - destruct x as [[] x]; [by destruct (Hx eq_refl)|done].
  - eapply Forall_impl; [exact Hrest|]. intros [[] y] Hy; [by specialize (Hy eq_refl)|done].
Qed.

Lemma opening_proof i L proof v' :
  0 ≤ i < count t0 → opening i L → proof ≠ [] → feed_proof proof (state iv true 0 L t0 i) = Some (Ok tt, v') →
  (∃ L', v' = state iv true 0 L' t0 i ∧ opening i L') ∨
  ∃ items, proof_items proof = Some items ∧ forges (proof_tree items).
Proof.
  intros Hi Hop Hne Hr. pose proof (opening_parents i L Hop) as Hpar.
  pose proof Hop as (f & s & d & R & Hs & HL & Hopen & Hf & HR).
  destruct (spine_add d f s) as [R1 HR1]. pose proof (HR1 0%nat) as H0. rewrite Nat.add_0_r in H0. cbn [spine] in H0.
  set (g := (top d f s).1) in *. set (u := (top d f s).2) in *.
  apply feed_proof_spec in Hr as (items & expected & a & b & Hit & Hhd & Hwalk & Hloc & Hh & ->);
    [|unfold state, in_width; cbn [v_parent_count]; lia|done].
  rewrite HL, (opening_root i f s d R) in Hh by (done || lia). fold g in Hh. rewrite state_collect in Hwalk.
  assert (expected = root_of m g u) as -> by (rewrite HL, H0 in Hhd; by injection Hhd).
  apply walk_no_left in Hwalk. cbn [state v_iv] in Hloc, Hh.
  destruct items as [|x xs]; [done|]. assert (xs ≠ []) as Hxs.
  { intros ->. destruct x as [[] ?]; simpl in Hloc; done. }
  destruct (proof_stack x xs Hwalk) as (Hmerged & Hholds & _ & Hpost). rewrite Hloc in Hholds.
  destruct (spine_binding x xs g u Hwalk) as [[Hst Hpc]|Hc]; [by rewrite Hholds| |].
  2: { right. exists (x :: xs). split; [done|]. apply (collides_forges g _ u); [by apply within_top|done]. }
  left. exists (spine (d + length xs) f s ++ R). split; [|by exists f, s, (d + length xs)%nat, R].
  assert (L = [(false, root_of m g u)] ++ R1 ++ R) as HL' by (by rewrite HL, H0, <-app_assoc).
  assert (0 < length xs)%nat by (destruct xs; [done|simpl; lia]). pose proof (parents_nonneg (R1 ++ R)).
  assert (opening i (spine (d + length xs) f s ++ R)) as Hop' by (by exists f, s, (d + length xs)%nat, R).
  apply opening_parents in Hop'. rewrite HR1, <-app_assoc in Hop' |- *. fold g u in Hop' |- *.
  unfold after_proof. rewrite state_collect. unfold state, set_stack. cbn [v_iv v_parent_count v_stack v_storage]. f_equal.
  - rewrite HL', Hmerged. rewrite !(parents_app (_ : list Entry)), Hpc in *. change (parents [(false, _)]) with 0 in *.
    rewrite wrap_small by (unfold in_width; lia). lia.
  - rewrite HL', !(stack_of_app true), Hst, Hpost. destruct xs; [done|]. rewrite <-app_assoc. f_equal.
    rewrite stack_of_other. cbn [app]. f_equal. by rewrite Hholds, Hh.
Qed.

(** A proof is fed: the verifier goes on, or the proof is forged. *)
Lemma collecting_proof i v proof v' :
  collecting i v → feed_proof proof v = Some (Ok tt, v') →
  collecting i v' ∨ ∃ items, proof_items proof = Some items ∧ forges (proof_tree items).
Proof.
  intros (L & Hv & [[Hi Hop]|[-> HL]]) Hr.
  - destruct (decide (proof = [])) as [->|Hne].
    { apply feed_proof_nil in Hr as ->. left. exists L. split; [done|by left]. }
    rewrite Hv in Hr. destruct (opening_proof i L proof v' Hi Hop Hne Hr) as [(L' & -> & Hop')|?]; [|by right].
    left. exists L'. split; [done|by left].
  - exfalso. subst L. unfold feed_proof in Hr. unfold_M. by rewrite (collecting_finished v Hv) in Hr.
Qed.

Lemma opening_next i : 0 < i < count t0 → opening i (remaining iv true t0 i).
Proof.
  intros Hi. destruct (remaining_next iv true t0 0 i Hi) as (s & b & R & Hn & -> & Hop).
  exists false, s, 0%nat, R. split_and!; [by eapply within_next; [apply within_all|]|done|done| |lia].
  by rewrite bool_decide_false by lia.
Qed.

(** A block is accepted: it is the next one of the content, or its hash is that of
    an inner node. *)
Lemma collecting_block i v h v' :
  collecting i v → verify_hash h v = Some (Ok tt, v') →
  (leaves t0 !! Z.to_nat i = Some h ∧ collecting (i + 1) v') ∨ inner h.
Proof.
  intros (L & Hv & [[Hi Hop]|[-> HL]]) Hr.
  2: { exfalso. subst L. unfold verify_hash in Hr. unfold_M. by rewrite (collecting_finished v Hv) in Hr. }
  pose proof (opening_parents i L Hop) as Hpar. pose proof Hop as (f & s & d & R & Hs & HL & Hopen & _).
  destruct (spine_add d f s) as [R1 HR1]. specialize (HR1 0%nat). rewrite Nat.add_0_r in HR1. cbn [spine] in HR1.
  destruct (top d f s) as [g u] eqn:Htop. cbn [fst snd] in HR1.
  assert (h = root_of m g u) as Hh.
  { unfold verify_hash in Hr. unfold_M. rewrite Hv, HL, HR1 in Hr. cbn [app] in Hr. rewrite state_unfinished in Hr.
    cbn [state v_stack stack_of fmap list_fmap snd head unwrap] in Hr. unfold_M. case_bool_decide as Hne; [done|].
    by destruct (decide (h = root_of m g u)). }
  destruct u as [x|l r].
  - left. rewrite (spine_full d f s g x Htop), <-Hopen in HL. simpl in Hh. subst x.
    destruct (opened_step iv true t0 i Hshaped ltac:(lia) Hi) as (h' & pops & Hleaf & Hop' & Hpops & Hlen & Hseen).
    assert (h' = h) as ->.
    { rewrite Hopen, <-(spine_full d f s g h Htop), HR1 in Hop'. cbn [app root_of] in Hop'. by injection Hop'. }
    split; [done|]. rewrite Hv, HL, Hop', verify_block in Hr; [|done|done|lia| |done].
    + simplify_eq. exists (remaining iv true t0 (i + 1)). split; [done|].
      destruct (decide (i + 1 = count t0)); [right; by split|left]. split; [lia|]. apply opening_next. lia.
    + rewrite HL, Hop' in Hpar. change ((false, h) :: pops ++ ?X) with ([(false, h)] ++ pops ++ X) in Hpar.
      rewrite parents_app in Hpar. change (parents [(false, h)]) with 0 in Hpar. lia.
  - right. exists (root_of m false l), (root_of m false r), g. split; [|done].
    pose proof (within_top d f s Hs) as Hw. rewrite Htop in Hw. apply (within_parts g (Node l r)); [done|]. left.
Qed.

(** A finished verifier has seen all blocks, and has the array of the tree. *)
Lemma collecting_final i v tree :
  collecting i v → finalize v = Some tree → i = count t0 ∧ tree = post_order m true t0.
Proof.
  intros (L & Hv & [[Hi Hop]|[-> HL]]) Hf.
  - exfalso. destruct Hop as (f & s & d & R & _ & HL & _). destruct (spine_add d f s) as [R1 HR1].
    specialize (HR1 0%nat). rewrite Nat.add_0_r in HR1. cbn [spine] in HR1. rewrite Hv, HL, HR1 in Hf.
    unfold finalize in Hf. cbn [app] in Hf. rewrite state_unfinished in Hf. done.
  - split; [done|]. unfold finalize in Hf. rewrite HL in Hv. rewrite (collecting_finished v Hv), Hv in Hf.
    cbn [state v_storage collected v_stack] in Hf. simplify_eq. apply remaining_end; [done|lia].
Qed.
End collecting.
