(* ===== verification/Forest.v ===== *)
(** * Forest: the stack of subtrees of an incremental hasher

    The hashers of [lib/b3fs/src/hasher/] keep, instead of a tree, the roots of
    full subtrees of decreasing size: the ones in the number of leaves so far.  A
    new leaf is merged with the subtrees of its size, as a carry is added to a
    binary number, and joining the subtrees at the end gives the tree of the
    specification. *)

From S2P Require Import Prelude Types Codec HashTree ProofBuf.
From stdpp Require Import base list.
From Stdlib Require Import ZArith Lia.
Open Scope Z_scope.

(** A full tree of [2 ^ k] leaves. *)
Definition perfect {A} (k : Z) (t : tree A) : Prop := shaped t ∧ count t = 2 ^ k.

(** Full trees of increasing size from the top of the stack, all of at least
    [2 ^ k] leaves, with [c] leaves together. *)
Inductive forest {A} : Z → list (tree A) → Z → Prop :=
| forest_nil k : forest k [] 0
| forest_skip k F c : forest (k + 1) F c → forest k F c
| forest_cons k t F c : perfect k t → forest (k + 1) F c → forest k (t :: F) (2 ^ k + c).

Fixpoint forest_leaves {A} (F : list (tree A)) : list A :=
  match F with [] => [] | t :: F => forest_leaves F ++ leaves t end.

Section forests.
Context {A : Type}.
Implicit Types (t : tree A) (F : list (tree A)).

Lemma perfect_leaf (a : A) : perfect 0 (Leaf a).
Proof. done. Qed.

Lemma perfect_node k (t1 t2 : tree A) :
  0 ≤ k < 61 → perfect k t1 → perfect k t2 → perfect (k + 1) (Node t1 t2).
Proof.
  intros Hk [Hs1 Hc1] [Hs2 Hc2]. assert (1 ≤ 2 ^ k) by (apply (Z.pow_le_mono_r 2 0); lia). split.
  - simpl. split_and!; [done..|]. rewrite Hc1, Hc2. symmetry. apply previous_pow_of_two_unique; lia.
  - rewrite count_node, Z.pow_add_r by lia. lia.
Qed.

Lemma forest_multiple k F c : 0 ≤ k → forest k F c → ∃ q, 0 ≤ q ∧ c = 2 ^ k * q.
Proof.
  intros Hk HF. induction HF as [k|k F c _ IH|k t F c _ _ IH].
  - exists 0. lia.
  - destruct IH as (q & Hq & ->); [lia|]. exists (2 * q). rewrite Z.pow_add_r by lia. lia.
  - destruct IH as (q & Hq & ->); [lia|]. exists (1 + 2 * q). rewrite Z.pow_add_r by lia. lia.
Qed.

Lemma forest_nonneg k F c : 0 ≤ k → forest k F c → 0 ≤ c.
Proof.
  intros Hk HF. destruct (forest_multiple k F c Hk HF) as (q & Hq & ->).
  assert (0 ≤ 2 ^ k) by (apply Z.pow_nonneg; lia). nia.
Qed.

(** Whether there is a tree of the smallest size. *)
Lemma forest_inv k F q :
  0 ≤ k → forest k F (2 ^ k * q) →
  (Z.odd q = false ∧ forest (k + 1) F (2 ^ k * q)) ∨
  (Z.odd q = true ∧ ∃ t F', F = t :: F' ∧ perfect k t ∧ forest (k + 1) F' (2 ^ k * (q - 1))).
Proof.
  intros Hk HF. assert (0 < 2 ^ k) by (apply Z.pow_pos_nonneg; lia).
  remember (2 ^ k * q) as c eqn:Hc. destruct HF as [k|k F c HF|k t F c Ht HF].
  - assert (q = 0) as -> by nia. left. split; [done|constructor].
  - left. split; [|done]. destruct (forest_multiple (k + 1) F c ltac:(lia) HF) as (q' & _ & Hq').
    rewrite Z.pow_add_r in Hq' by lia. assert (q = 2 * q') as -> by nia.
    by rewrite Z.odd_mul.
  - right. destruct (forest_multiple (k + 1) F c ltac:(lia) HF) as (q' & _ & Hq').
    rewrite Z.pow_add_r in Hq' by lia. assert (q = 1 + 2 * q') as -> by nia.
    split; [by rewrite Z.odd_add_mul_2|]. exists t, F. split_and!; [done..|].
    replace (2 ^ k * (1 + 2 * q' - 1)) with c by lia. done.
Qed.

Lemma forest_length k F c d :
  forest k F c → 0 ≤ k ≤ d → c < 2 ^ d → zlength F ≤ d - k.
Proof.
  induction 1 as [k|k F c HF IH|k t F c Ht HF IH]; intros Hk Hc; [unfold zlength; simpl; lia|..].
  - destruct (decide (k = d)) as [->|]; [|pose proof (IH ltac:(lia) Hc); lia].
    destruct (forest_multiple (d + 1) F c ltac:(lia) HF) as (q & Hq & Heq).
    assert (0 < 2 ^ d) by (apply Z.pow_pos_nonneg; lia). rewrite Z.pow_add_r in Heq by lia.
    assert (q = 0) as -> by nia. rewrite Z.mul_0_r in Heq. subst c.
    destruct F as [|t F]; [unfold zlength; simpl; lia|]. exfalso. clear -HF Hk.
    remember (t :: F) as G eqn:HG. remember 0 as z eqn:Hz. assert (0 ≤ d + 1) as Hd by lia. clear Hk.
    induction HF as [k|k F' c HF IH|k t' F' c Ht HF IH]; [done|apply IH; [done|done|lia]|].
    pose proof (forest_nonneg (k + 1) F' c ltac:(lia) HF). assert (0 < 2 ^ k) by (apply Z.pow_pos_nonneg; lia). lia.
  - pose proof (forest_nonneg (k + 1) F c ltac:(lia) HF).
    assert (k < d) by (apply (Z.pow_lt_mono_r_iff 2); lia).
    pose proof (IH ltac:(lia) ltac:(assert (0 < 2 ^ k) by (apply Z.pow_pos_nonneg; lia); lia)).
    rewrite zlength_cons. lia.
Qed.

(** ** Adding a tree *)

(** Merge with the subtrees of the same size; [e] counts the trees of that size
    with the new one. *)
Fixpoint carry (fuel : nat) (e : Z) F t : option (list (tree A)) :=
  if bool_decide (Z.land e 1 = 0) then
    match fuel, F with
    | S fuel, t1 :: F => carry fuel (Z.shiftr e 1) F (Node t1 t)
    | _, _ => None
    end
  else Some (t :: F).

Lemma land_1_odd e : Z.land e 1 = (if Z.odd e then 1 else 0).
Proof. change (Z.land e 1) with (Z.land e (Z.ones 1)). rewrite Z.land_ones by lia. change (2 ^ 1) with 2. by rewrite Zmod_odd. Qed.

Lemma carry_forest fuel k F q t :
  0 ≤ k → 0 ≤ q → q + 1 < 2 ^ Z.of_nat fuel → 2 ^ k * (q + 1) < 2 ^ 60 →
  forest k F (2 ^ k * q) → perfect k t →
  ∃ F', carry fuel (q + 1) F t = Some F' ∧ forest k F' (2 ^ k * (q + 1)) ∧
    forest_leaves F' = forest_leaves F ++ leaves t.
Proof.
  revert k F q t. induction fuel as [|fuel IH]; intros k F q t Hk Hq Hfuel Hkf HF Ht.
  { simpl in Hfuel. lia. }
  cbn [carry]. rewrite land_1_odd, Z.odd_add, xorb_true_r.
  destruct (forest_inv k F q Hk HF) as [[-> HF']|[Hodd (t1 & F1 & -> & Ht1 & HF')]].
  - exists (t :: F). split_and!; [done| |done].
    replace (2 ^ k * (q + 1)) with (2 ^ k + 2 ^ k * q) by lia. by constructor.
  - rewrite Hodd. cbn [negb]. rewrite bool_decide_true by done.
    rewrite Nat2Z.inj_succ, Z.pow_succ_r in Hfuel by lia.
    apply Z.odd_spec in Hodd as [q' ->].
    assert (k < 60).
    { apply (Z.pow_lt_mono_r_iff 2); [lia..|]. assert (0 < 2 ^ k) by (apply Z.pow_pos_nonneg; lia). nia. }
    rewrite Z.shiftr_div_pow2 by lia. change (2 ^ 1) with 2.
    replace (2 * q' + 1 + 1) with ((q' + 1) * 2) by lia. rewrite Z.div_mul by lia.
    destruct (IH (k + 1) F1 q' (Node t1 t)) as (F' & HF1 & Hfor & Hleaves);
      [lia|lia|lia|rewrite Z.pow_add_r; lia| |apply perfect_node; [lia|done|done]|].
    { replace (2 ^ (k + 1) * q') with (2 ^ k * (2 * q' + 1 - 1)) by (rewrite Z.pow_add_r; lia). done. }
    exists F'. split_and!; [done| |].
    + apply forest_skip. replace (2 ^ k * ((q' + 1) * 2)) with (2 ^ (k + 1) * (q' + 1)); [done|].
      rewrite Z.pow_add_r; lia.
    + rewrite Hleaves. simpl. by rewrite app_assoc.
Qed.

(** ** Joining the subtrees *)

Fixpoint join_trees F t : tree A :=
  match F with
  | [] => t
  | t1 :: F => join_trees F (Node t1 t)
  end.

Lemma join_trees_shaped k F c t :
  forest k F c → 0 ≤ k → c < 2 ^ 60 → shaped t → count t ≤ 2 ^ k →
  shaped (join_trees F t) ∧ leaves (join_trees F t) = forest_leaves F ++ leaves t.
Proof.
  intros HF. revert t. induction HF as [k|k F c HF IH|k t1 F c Ht HF IH]; intros t Hk Hc Hs Ht'.
  - done.
  - apply IH; [lia|done|done|]. rewrite Z.pow_add_r by lia. lia.
  - assert (0 < 2 ^ k) by (apply Z.pow_pos_nonneg; lia). pose proof (count_pos t).
    pose proof (forest_nonneg (k + 1) F c ltac:(lia) HF). destruct Ht as [Hs1 Hc1].
    assert (k < 60) by (apply (Z.pow_lt_mono_r_iff 2); lia).
    destruct (IH (Node t1 t)) as [Hs' Hl]; [lia|lia| | |].
    + simpl. split_and!; [done..|]. rewrite Hc1. symmetry. apply previous_pow_of_two_unique; lia.
    + rewrite count_node, Z.pow_add_r by lia. lia.
    + split; [done|]. simpl. rewrite Hl. simpl. by rewrite app_assoc.
Qed.
(** ** Merging lazily *)

Lemma count_ones_mul_pow2 k q : 0 ≤ k → 0 ≤ q → count_ones (2 ^ k * q) = count_ones q.
Proof.
  intros Hk Hq. revert k Hk. apply natlike_ind; [by rewrite Z.mul_1_l|].
  intros k Hk IH. rewrite Z.pow_succ_r, <-Z.mul_assoc, count_ones_double; [done| |done].
  assert (0 < 2 ^ k) by (apply Z.pow_pos_nonneg; lia). nia.
Qed.

Lemma count_ones_succ x : 0 ≤ x → count_ones (x + 1) ≤ count_ones x + 1.
Proof.
  induction (Z.lt_wf 0 x) as [x _ IH]. intros Hx. destruct (even_odd x Hx) as (y & Hy & [->| ->]).
  - rewrite count_ones_succ_double, count_ones_double by done. lia.
  - replace (2 * y + 1 + 1) with (2 * (y + 1)) by lia.
    rewrite count_ones_double, count_ones_succ_double by lia. pose proof (IH y ltac:(lia) Hy). lia.
Qed.

(** There is a tree for every one in the number of leaves. *)
Lemma forest_ones k F c : 0 ≤ k → forest k F c → zlength F = count_ones c.
Proof.
  intros Hk HF. induction HF as [k|k F c HF IH|k t F c _ HF IH]; [done|apply IH; lia|].
  rewrite zlength_cons, IH by lia.
  destruct (forest_multiple (k + 1) F c ltac:(lia) HF) as (q & Hq & ->). rewrite Z.pow_add_r by lia.
  change (2 ^ 1) with 2. rewrite <-Z.mul_assoc, count_ones_mul_pow2, count_ones_double by lia.
  replace (2 ^ k + 2 ^ k * (2 * q)) with (2 ^ k * (2 * q + 1)) by lia.
  by rewrite count_ones_mul_pow2, count_ones_succ_double by lia.
Qed.

Lemma forest_lower k F c : 0 ≤ k → forest k F c → forest 0 F c.
Proof.
  intros Hk. revert k Hk. apply (natlike_ind (λ k, forest k F c → forest 0 F c)); [done|].
  intros k Hk IH HF. apply IH. by constructor.
Qed.

Lemma forest_raise k F q : 0 ≤ k → forest 0 F (2 ^ k * q) → forest k F (2 ^ k * q).
Proof.
  intros Hk. revert k Hk q.
  apply (natlike_ind (λ k, ∀ q, forest 0 F (2 ^ k * q) → forest k F (2 ^ k * q))); [done|].
  intros k Hk IH q HF. rewrite Z.pow_succ_r in * by lia.
  replace (2 * 2 ^ k * q) with (2 ^ k * (2 * q)) in * by lia.
  apply IH in HF. destruct (forest_inv k F (2 * q) Hk HF) as [[_ HF']|[Hodd _]]; [done|].
  by rewrite Z.odd_mul in Hodd.
Qed.

(** A stack on which the last tree is not merged yet. *)
Definition lazy_forest F (c : Z) : Prop :=
  (F = [] ∧ c = 0) ∨
  ∃ k t F', 0 ≤ k ∧ F = t :: F' ∧ perfect k t ∧ forest k F' (c - 2 ^ k).

Lemma forest_lazy F c : forest 0 F c → lazy_forest F c.
Proof.
  intros HF. assert (∀ k, 0 ≤ k → forest k F c → lazy_forest F c) as H; [|by apply (H 0)].
  clear HF. intros k Hk HF. induction HF as [k|k F c HF IH|k t F c Ht HF IH]; [by left|apply IH; lia|].
  right. exists k, t, F. split_and!; [done..|]. rewrite Z.add_simpl_l. by constructor.
Qed.

Fixpoint merge_to (fuel : nat) (n : Z) F : option (list (tree A)) :=
  if bool_decide (zlength F > n) then
    match fuel, F with
    | S fuel, t2 :: t1 :: F => merge_to fuel n (Node t1 t2 :: F)
    | _, _ => None
    end
  else Some F.

Lemma merge_to_forest fuel k t F q :
  0 ≤ k → 0 ≤ q → 2 ^ k * (q + 1) < 2 ^ 60 → perfect k t → forest k F (2 ^ k * q) →
  (length F ≤ fuel)%nat →
  ∃ F', merge_to fuel (count_ones (q + 1)) (t :: F) = Some F' ∧ forest 0 F' (2 ^ k * (q + 1)) ∧
    forest_leaves F' = forest_leaves (t :: F).
Proof.
  revert k t F q. induction fuel as [|fuel IH]; intros k t F q Hk Hq Hb Ht HF Hf.
  all: assert (zlength F = count_ones q) as Hones
    by (rewrite (forest_ones k F _ Hk HF); by apply count_ones_mul_pow2).
  all: destruct (forest_inv k F q Hk HF) as [[Heven HF']|[Hodd (t1 & F1 & -> & Ht1 & HF')]].
  1, 3: apply even_odd in Hq as (y & Hy & [->| ->]); [|by rewrite Z.add_comm, Z.odd_add_mul_2 in Heven].
  1, 2: exists (t :: F); split_and!; [|apply (forest_lower k); [done|]|done];
    [cbn [merge_to]; rewrite bool_decide_false; [done|];
     rewrite zlength_cons, Hones, count_ones_succ_double, count_ones_double by done; lia
    |replace (2 ^ k * (2 * y + 1)) with (2 ^ k + 2 ^ k * (2 * y)) by lia; by constructor].
  - simpl in Hf. lia.
  - apply Z.odd_spec in Hodd as [y ->]. cbn [merge_to].
    assert (zlength (t :: t1 :: F1) > count_ones (2 * y + 1 + 1)) as Hgt.
    { rewrite zlength_cons, Hones, count_ones_succ_double by lia.
      replace (2 * y + 1 + 1) with (2 * (y + 1)) by lia. rewrite count_ones_double by lia.
      pose proof (count_ones_succ y ltac:(lia)). lia. }
    rewrite bool_decide_true by done. replace (2 * y + 1 + 1) with (2 * (y + 1)) by lia.
    rewrite count_ones_double by lia.
    assert (k < 60).
    { apply (Z.pow_lt_mono_r_iff 2); [lia..|]. assert (0 < 2 ^ k) by (apply Z.pow_pos_nonneg; lia). nia. }
    destruct (IH (k + 1) (Node t1 t) F1 y) as (F' & Hm & Hfor & Hl);
      [lia|lia|rewrite Z.pow_add_r; lia|apply perfect_node; [lia|done|done]| |simpl in Hf; lia|].
    { replace (2 ^ (k + 1) * y) with (2 ^ k * (2 * y + 1 - 1)) by (rewrite Z.pow_add_r; lia). done. }
    exists F'. split_and!; [done| |].
    + replace (2 ^ k * (2 * (y + 1))) with (2 ^ (k + 1) * (y + 1)) by (rewrite Z.pow_add_r; lia). done.
    + rewrite Hl. simpl. by rewrite app_assoc.
Qed.

Lemma merge_to_lazy fuel F c :
  lazy_forest F c → c < 2 ^ 60 → (length F ≤ fuel)%nat →
  ∃ F', merge_to fuel (count_ones c) F = Some F' ∧ forest 0 F' c ∧ forest_leaves F' = forest_leaves F.
Proof.
  intros [[-> ->]|(k & t & F' & Hk & -> & Ht & HF)] Hc Hf.
  { exists []. destruct fuel; (split_and!; [done|constructor|done]). }
  destruct (forest_multiple k F' _ Hk HF) as (q & Hq & Heq). rewrite Heq in HF.
  replace c with (2 ^ k * (q + 1)) in * by lia.
  rewrite count_ones_mul_pow2 by lia. apply merge_to_forest; [done..|simpl in Hf; lia].
Qed.

End forests.

(** ** The hashes of a forest *)

Section forest_hashes.
Context {A : Type} (m : A → A → bool → A).

Definition roots (F : list (tree A)) : list A := root_of m false <$> F.

Fixpoint posts (F : list (tree A)) : list A :=
  match F with [] => [] | t :: F => posts F ++ post_order m false t end.
End forest_hashes.
