(* ===== verification/DirHasher.v ===== *)
(** * DirHasher: the hash of a directory

    [lib/b3fs/src/entry.rs] and [lib/b3fs/src/hasher/dir_hasher/]: the transcript
    of an entry, the hasher that takes the entries one after the other and keeps
    a stack of subtrees, and the reference that hashes all the entries at once by
    splitting them. *)

From S2P Require Import Prelude Types Codec HashTree ProofBuf Blake3 Blake3Tree Forest.
From stdpp Require Import base list.
From Stdlib Require Import ZArith Lia.
Open Scope Z_scope.

(** ** [entry.rs], [error.rs] *)

Inductive BorrowedLink :=
| LinkContent (hash : Bytes)
| LinkPath (link : Bytes).

Record BorrowedEntry := mkBorrowedEntry {
  entry_name : Bytes;
  entry_link : BorrowedLink
}.

Inductive DirError :=
| InvalidFileName
| InvalidSymlink
| InvalidOrdering
| FilenameNotUnique
| TooManyEntries.

Inductive FromTranscriptError := TranscriptTooSmall | InvalidTranscript.

(** ** [transcript.rs] *)

Definition B3_DIR_IS_ROOT : Z := 1.
Definition B3_DIR_IS_SYM_LINK : Z := 2.

Definition write_entry_transcript (entry : BorrowedEntry) (counter : Z) (is_root : bool) : Bytes :=
  let '(flag, content, is_sym) :=
    match entry_link entry with
    | LinkContent hash => (0, hash, false)
    | LinkPath link => (B3_DIR_IS_SYM_LINK, link, true)
    end in
  let flag := if is_root then Z.lor flag B3_DIR_IS_ROOT else flag in
  [flag] ++ entry_name entry ++ [0] ++ content ++ (if is_sym then [0] else [])
  ++ [Z.land counter 255; Z.land (Z.shiftr counter 8) 255].

(** [l[a..b]]; [None] is the panic on a range out of bounds. *)
Definition slice (l : Bytes) (a b : Z) : option Bytes :=
  if bool_decide (a ≤ b) && bool_decide (b ≤ zlength l)
  then Some (take (Z.to_nat (b - a)) (drop (Z.to_nat a) l)) else None.

(** [iter().position(|b| *b == 0)]. *)
Fixpoint position_zero (l : Bytes) : option Z :=
  match l with
  | [] => None
  | b :: l => if bool_decide (b = 0) then Some 0 else (Z.add 1) <$> position_zero l
  end.

Definition from_transcript (transcript : Bytes)
    : option (Result BorrowedEntry FromTranscriptError) :=
  let n := zlength transcript in
  if bool_decide (n < 3) then Some (Err TranscriptTooSmall)
  else
    let name_sz := default (2 ^ 64 - 1) (position_zero (drop 1 transcript)) in
    if is_valid_filename_len name_sz then Some (Err InvalidTranscript)
    else
      name ← slice transcript 1 (name_sz + 1);
      content ← slice transcript (name_sz +[64] 1) (n - 2);
      let is_sym :=
        negb (bool_decide (Z.land (default 0 (head transcript)) B3_DIR_IS_SYM_LINK = 0)) in
      if negb is_sym && negb (bool_decide (zlength content = 32)) then Some (Err InvalidTranscript)
      else if is_sym && negb (is_valid_symlink content) then Some (Err InvalidTranscript)
      else Some (Ok (mkBorrowedEntry name (if is_sym then LinkPath content else LinkContent content))).

(** Lexicographic order on slices of bytes. *)
Fixpoint slice_cmp (a b : Bytes) : comparison :=
  match a, b with
  | [], [] => Eq
  | [], _ => Lt
  | _, [] => Gt
  | x :: a, y :: b => match Z.compare x y with Eq => slice_cmp a b | c => c end
  end.

Section dir_hasher.
Context {P : Platform}.

Definition hash_transcript (buffer : Bytes) : option Bytes := iv_hash_all_at_once IV_DIR buffer.

Definition hash_entry (entry : BorrowedEntry) (counter : Z) (is_root : bool) : option Bytes :=
  hash_transcript (write_entry_transcript entry (wrap 16 counter) is_root).

(** ** [mod.rs] *)

(** The top of the stack is the head of the list; the tree is collected in a
    vector. *)
Record DirectoryHasher := mkDirectoryHasher {
  dh_stack : list Bytes;
  dh_counter : Z;
  dh_transcript_buffer : Bytes;
  dh_last_filename_size : Z;
  dh_tree : list Bytes
}.

Definition dir_new : DirectoryHasher := mkDirectoryHasher [] 0 [] 0 [].

(** The stack is an array of 17 hashes; pushing to a full one panics. *)
Definition STACK_SIZE : nat := 17.

Definition with_stack (stack tree : list Bytes) (d : DirectoryHasher) : DirectoryHasher :=
  mkDirectoryHasher stack (dh_counter d) (dh_transcript_buffer d) (dh_last_filename_size d) tree.

Definition dir_push_cv (cv : Bytes) : M DirectoryHasher unit :=
  d ← get;
  if bool_decide (length (dh_stack d) = STACK_SIZE) then panic
  else modify (with_stack (cv :: dh_stack d) (dh_tree d ++ [cv])).

(** A positive number has fewer than 64 trailing zeros; with none left the loop
    would empty the stack and panic. *)
Fixpoint dir_merge_loop (fuel : nat) (total_entries : Z) : M DirectoryHasher unit :=
  if bool_decide (Z.land total_entries 1 = 0) then
    match fuel with
    | O => panic
    | S fuel =>
        d ← get;
        match dh_stack d with
        | right_cv :: left_cv :: stack =>
            modify (with_stack stack (dh_tree d));;
            dir_push_cv (iv_merge IV_DIR left_cv right_cv false);;
            dir_merge_loop fuel (Z.shiftr total_entries 1)
        | _ => panic
        end
    end
  else mret tt.

Definition dir_merge_cv_stack : M DirectoryHasher unit :=
  d ← get;
  dir_merge_loop 64 (dh_counter d).

(** The checks of [insert]: [None] is the panic of the slice. *)
Definition insert_checks (entry : BorrowedEntry) (d : DirectoryHasher)
    : option (Result unit DirError) :=
  if bool_decide (dh_counter d = 65535) then Some (Err TooManyEntries)
  else
    r ←
      (if bool_decide (dh_counter d > 0) then
         let end_ := 3 + dh_last_filename_size d in
         prev_name ← slice (dh_transcript_buffer d) 1 end_;
         if bool_decide (prev_name = entry_name entry) then Some (Err FilenameNotUnique)
         else
           match slice_cmp prev_name (entry_name entry) with
           | Gt => Some (Err InvalidOrdering)
           | _ => Some (Ok tt)
           end
       else Some (Ok tt));
    match r with
    | Err e => Some (Err e)
    | Ok _ =>
        if negb (is_valid_filename (entry_name entry)) then Some (Err InvalidFileName)
        else
          match entry_link entry with
          | LinkPath link => if negb (is_valid_symlink link) then Some (Err InvalidSymlink) else Some (Ok tt)
          | LinkContent _ => Some (Ok tt)
          end
    end.

Definition insert_inner (UNCHECKED : bool) (entry : BorrowedEntry)
    : M DirectoryHasher (Result unit DirError) :=
  d ← get;
  r ← unwrap (if UNCHECKED then Some (Ok tt) else insert_checks entry d);
  match r with
  | Err e => mret (Err e)
  | Ok _ =>
      (if bool_decide (dh_counter d > 0) then
         cv ← unwrap (hash_transcript (dh_transcript_buffer d));
         dir_push_cv cv;;
         dir_merge_cv_stack
       else mret tt);;
      modify (λ d, mkDirectoryHasher (dh_stack d) (dh_counter d +[64] 1)
        (write_entry_transcript entry (wrap 16 (dh_counter d)) false)
        (zlength (entry_name entry)) (dh_tree d));;
      mret (Ok tt)
  end.

Definition dir_insert (entry : BorrowedEntry) : M DirectoryHasher (Result unit DirError) :=
  insert_inner false entry.

Definition dir_insert_unchecked (entry : BorrowedEntry) : M DirectoryHasher unit :=
  r ← insert_inner true entry;
  match r with Ok _ => mret tt | Err _ => panic end.

(** Merge until one hash is left; the fuel is the length of the stack. *)
Fixpoint finalize_loop (fuel : nat) : M DirectoryHasher unit :=
  d ← get;
  match dh_stack d with
  | right_cv :: left_cv :: stack =>
      match fuel with
      | O => panic
      | S fuel =>
          modify (with_stack stack (dh_tree d));;
          let is_root := bool_decide (stack = []) in
          dir_push_cv (iv_merge IV_DIR left_cv right_cv is_root);;
          finalize_loop fuel
      end
  | _ => mret tt
  end.

Definition or_first (flag : Z) (buffer : Bytes) : option Bytes :=
  match buffer with
  | [] => None
  | b :: rest => Some (Z.lor b flag :: rest)
  end.

Definition dir_finalize : M DirectoryHasher Bytes :=
  d ← get;
  if bool_decide (dh_counter d = 0) then
    let empty := iv_empty IV_DIR in
    modify (with_stack (dh_stack d) (dh_tree d ++ [empty]));;
    mret empty
  else
    buffer ←
      unwrap (match dh_stack d with
              | [] => or_first B3_DIR_IS_ROOT (dh_transcript_buffer d)
              | _ => Some (dh_transcript_buffer d)
              end);
    cv ← unwrap (hash_transcript buffer);
    dir_push_cv cv;;
    d ← get;
    finalize_loop (length (dh_stack d));;
    d ← get;
    match dh_stack d with
    | [] => panic
    | hash :: stack => modify (with_stack stack (dh_tree d));; mret hash
    end.

(** ** [reference.rs] *)

Fixpoint check_entries (prev : Bytes) (entries : list BorrowedEntry) : Result unit DirError :=
  match entries with
  | [] => Ok tt
  | e :: entries =>
      if negb (is_valid_filename (entry_name e)) then Err InvalidFileName
      else if match entry_link e with LinkPath link => negb (is_valid_symlink link) | _ => false end
      then Err InvalidSymlink
      else if bool_decide (entry_name e = prev) then Err FilenameNotUnique
      else
        match slice_cmp (entry_name e) prev with
        | Lt => Err InvalidOrdering
        | _ => check_entries (entry_name e) entries
        end
  end.

(** The recursion is on both halves; the fuel is the number of entries. *)
Fixpoint split_hash_merge (fuel : nat) (entries : list BorrowedEntry) (offset : Z) (is_root : bool)
    : option Bytes :=
  match fuel with
  | O => None
  | S fuel =>
      match entries with
      | [] => None
      | [e] => iv_hash_all_at_once IV_DIR (write_entry_transcript e (wrap 16 offset) is_root)
      | _ =>
          let split := previous_pow_of_two (zlength entries) in
          left_cv ← split_hash_merge fuel (take (Z.to_nat split) entries) offset false;
          right_cv ← split_hash_merge fuel (drop (Z.to_nat split) entries) (offset +[64] split) false;
          Some (iv_merge IV_DIR left_cv right_cv is_root)
      end
  end.

Definition hash_dir (entries : list BorrowedEntry) : option (Result Bytes DirError) :=
  if bool_decide (zlength entries > 65535) then Some (Err TooManyEntries)
  else
    match check_entries [] entries with
    | Err e => Some (Err e)
    | Ok _ =>
        match entries with
        | [] => Ok <$> iv_hash_all_at_once IV_DIR []
        | _ => Ok <$> split_hash_merge (length entries) entries 0 true
        end
    end.
End dir_hasher.

(** ** The transcript of an entry *)

(** What the types of the source guarantee: bytes, and content hashes of 32. *)
Definition entry_wf (e : BorrowedEntry) : Prop :=
  Forall (in_width 8) (entry_name e) ∧
  match entry_link e with LinkContent hash => is_hash hash | LinkPath _ => True end.

(** The checks that concern the entry alone. *)
Definition entry_valid (e : BorrowedEntry) : bool :=
  is_valid_filename (entry_name e) &&
  match entry_link e with LinkPath link => is_valid_symlink link | LinkContent _ => true end.

Lemma valid_filename name :
  is_valid_filename name = true → 0 < zlength name < 256 ∧ Forall (λ b, b ≠ 0) name.
Proof.
  unfold is_valid_filename, is_valid_filename_len. intros [[H0 H256]%andb_true_iff Hz%negb_true_iff]%andb_true_iff.
  apply bool_decide_eq_true in H0, H256.
  split; [lia|]. apply Forall_forall. intros b Hb ->.
  assert (existsb (Z.eqb 0) name = true) as Hex; [|congruence].
  apply existsb_exists. exists 0. split; [by apply list_elem_of_In|done].
Qed.

Lemma transcript_length e counter r :
  entry_wf e → entry_valid e = true → zlength (write_entry_transcript e counter r) < 2 ^ 12.
Proof.
  intros [_ Hc] [Hn Hl]%andb_true_iff. apply valid_filename in Hn as [Hn _].
  unfold write_entry_transcript. destruct (entry_link e) as [h|l].
  - unfold is_hash in Hc. unfold zlength in *. rewrite !length_app. simpl. lia.
  - unfold is_valid_symlink, is_valid_symlink_len in Hl.
    apply andb_true_iff in Hl as [[H0 H1]%andb_true_iff _]. tests.
    unfold zlength in *. rewrite !length_app. simpl. lia.
Qed.

(** The root flag is the first byte. *)
Lemma transcript_root e counter :
  or_first B3_DIR_IS_ROOT (write_entry_transcript e counter false)
  = Some (write_entry_transcript e counter true).
Proof. unfold write_entry_transcript. by destruct (entry_link e). Qed.

(** What [insert] takes for the previous name goes two bytes too far: it has
    the terminator and the first byte of the content. *)
Lemma prev_name_slice e counter r :
  ∃ b, slice (write_entry_transcript e counter r) 1 (3 + zlength (entry_name e))
    = Some (entry_name e ++ [0; b]).
Proof.
  set (tr := write_entry_transcript e counter r).
  assert (∃ f b rest, tr = f :: (entry_name e ++ [0; b]) ++ rest) as (f & b & rest & ->).
  { unfold tr, write_entry_transcript. destruct (entry_link e) as [h|l].
    - destruct h as [|x h]; eexists _, _, _; simpl; by rewrite <-app_assoc.
    - destruct l as [|x l]; eexists _, _, _; simpl; by rewrite <-app_assoc. }
  exists b. unfold slice, zlength. rewrite bool_decide_true, bool_decide_true by (simpl; rewrite ?length_app; simpl; lia).
  cbn [andb]. f_equal. change (drop (Z.to_nat 1) (f :: ?l)) with l.
  apply take_app_length'. rewrite length_app. simpl. lia.
Qed.

(** ** The order of names *)

Lemma slice_cmp_eq a b : slice_cmp a b = Eq ↔ a = b.
Proof.
  revert b. induction a as [|x a IH]; intros [|y b]; simpl; try done.
  destruct (Z.compare_spec x y) as [->|?|?]; [|split; [done|intros [= ? ?]; lia]..].
  rewrite IH. naive_solver.
Qed.

Lemma slice_cmp_antisym a b : slice_cmp b a = CompOpp (slice_cmp a b).
Proof.
  revert b. induction a as [|x a IH]; intros [|y b]; simpl; try done.
  rewrite Z.compare_antisym. destruct (x ?= y); simpl; [apply IH|done|done].
Qed.

(** The two bytes too many decide nothing but that equal names are out of
    order. *)
Lemma prev_name_cmp prev name b :
  Forall (in_width 8) name → Forall (λ b, b ≠ 0) name →
  prev ++ [0; b] ≠ name ∧
  (slice_cmp (prev ++ [0; b]) name = Gt ↔ slice_cmp prev name ≠ Lt) .
Proof.
  intros Hw Hz. split.
  { intros <-. rewrite Forall_app, !Forall_cons in Hz. naive_solver. }
  revert name Hw Hz. induction prev as [|x prev IH]; intros [|y name] Hw Hz; simpl; try done.
  - apply Forall_cons in Hw as [Hy _], Hz as [Hy0 _]. unfold in_width in Hy.
    destruct y as [|y|y]; [lia| |lia]. split; [discriminate|intros Hx; by destruct Hx].
  - apply Forall_cons in Hw as [_ Hw], Hz as [_ Hz]. destruct (x ?= y); [by apply IH|split; [discriminate|intros Hx; by destruct Hx]|done].
Qed.

(** Reading a transcript back: the length of the name is tested the wrong way
    round, so that every transcript of a valid entry is rejected. *)
Lemma position_zero_name name rest :
  Forall (λ b, b ≠ 0) name → position_zero (name ++ 0 :: rest) = Some (zlength name).
Proof.
  induction 1 as [|b name Hb _ IH]; [done|]. simpl. rewrite bool_decide_false, IH by done.
  simpl. by rewrite zlength_cons.
Qed.

Lemma from_transcript_rejects e counter r :
  entry_valid e = true →
  from_transcript (write_entry_transcript e counter r) = Some (Err InvalidTranscript).
Proof.
  intros [Hn _]%andb_true_iff. apply valid_filename in Hn as [Hlen Hz].
  assert (∃ f rest, write_entry_transcript e counter r = f :: entry_name e ++ 0 :: rest ∧
    (2 ≤ length rest)%nat) as (f & rest & -> & Hrest).
  { unfold write_entry_transcript. destruct (entry_link e); eexists _, _; (split; [done|]);
      rewrite !length_app; simpl; lia. }
  unfold from_transcript. rewrite bool_decide_false.
  - cbn [skipn]. rewrite drop_0. rewrite position_zero_name by done. simpl default.
    assert (is_valid_filename_len (zlength (entry_name e)) = true) as ->; [|done].
    unfold is_valid_filename_len. by rewrite !bool_decide_true by lia.
  - unfold zlength in *. cbn [length]. rewrite length_app. simpl. lia.
Qed.

Section dir_correct.
Context {P : Platform} {PL : PlatformLaws P}.
#[local] Abbreviation m := (iv_merge IV_DIR).
#[local] Arguments iv_merge : simpl never.

(** The hash of an entry at a position. *)
Definition leaf_hash (e : BorrowedEntry) (i : Z) (r : bool) : Bytes :=
  default [] (hash_entry e i r).

Lemma hash_entry_leaf e i r :
  entry_wf e → entry_valid e = true → hash_entry e i r = Some (leaf_hash e i r).
Proof.
  intros Hw Hv. unfold leaf_hash, hash_entry, hash_transcript.
  pose proof (transcript_length e (wrap 16 i) r Hw Hv). by rewrite iv_hash_spec by lia.
Qed.

Definition dir_leaves (es : list BorrowedEntry) (offset : Z) (r : bool) : list Bytes :=
  imap (λ i e, leaf_hash e (offset + Z.of_nat i) r) es.

(** The tree of a directory; a single entry is the root itself. *)
Definition dir_tree (es : list BorrowedEntry) : tree Bytes :=
  tree_of (dir_leaves es 0 (bool_decide (length es = 1%nat))).

Lemma dir_leaves_app es1 es2 offset r :
  dir_leaves (es1 ++ es2) offset r
  = dir_leaves es1 offset r ++ dir_leaves es2 (offset + zlength es1) r.
Proof.
  unfold dir_leaves. rewrite imap_app. f_equal. apply imap_ext. intros i e _. simpl. f_equal.
  unfold zlength. lia.
Qed.

Lemma dir_leaves_length es offset r : zlength (dir_leaves es offset r) = zlength es.
Proof. unfold dir_leaves, zlength. by rewrite length_imap. Qed.

(** ** The hasher *)

Definition accepted (es : list BorrowedEntry) : Prop :=
  Forall (λ e, entry_wf e ∧ entry_valid e = true) es.

(** The hasher after the entries [es]: the hash of the last one is delayed. *)
Definition dir_inv (es : list BorrowedEntry) (d : DirectoryHasher) : Prop :=
  accepted es ∧
  match last es with
  | None => d = dir_new
  | Some e => ∃ F,
      forest 0 F (zlength es - 1) ∧ forest_leaves F = dir_leaves (removelast es) 0 false ∧
      d = mkDirectoryHasher (roots m F) (zlength es)
            (write_entry_transcript e (wrap 16 (zlength es - 1)) false)
            (zlength (entry_name e)) (posts m F)
  end.

Lemma dir_push_run cv d :
  (length (dh_stack d) < 17)%nat →
  dir_push_cv cv d = Some (tt, with_stack (cv :: dh_stack d) (dh_tree d ++ [cv]) d).
Proof. intros Hl. unfold dir_push_cv. unfold_M. rewrite bool_decide_false by (unfold STACK_SIZE; lia). done. Qed.

Lemma dir_merge_carry fuel e F t F' d :
  carry fuel e F t = Some F' → (length F < 17)%nat →
  dh_stack d = root_of m false t :: roots m F → dh_tree d = posts m F ++ post_order m false t →
  dir_merge_loop fuel e d = Some (tt, with_stack (roots m F') (posts m F') d).
Proof.
  revert e F t d. induction fuel as [|fuel IH]; intros e F t d Hc Hl Hs Ht; cbn [carry dir_merge_loop] in *;
    case_bool_decide; try done.
  - injection Hc as <-. unfold_M. destruct d. simpl in *. subst. done.
  - destruct F as [|t1 F]; [done|]. simpl in Hs, Ht, Hl. unfold_M. rewrite Hs. simpl. unfold_M.
    rewrite dir_push_run by (simpl; unfold roots; rewrite length_fmap; lia). simpl.
    rewrite (IH _ F (Node t1 t)); [by destruct d|done|lia|done|].
    simpl. rewrite Ht, <-!app_assoc. done.
  - injection Hc as <-. unfold_M. destruct d. simpl in *. subst. done.
Qed.
Lemma dir_inv_snoc es e d :
  dir_inv (es ++ [e]) d ↔ accepted (es ++ [e]) ∧ ∃ F,
    forest 0 F (zlength es) ∧ forest_leaves F = dir_leaves es 0 false ∧
    d = mkDirectoryHasher (roots m F) (zlength es + 1)
          (write_entry_transcript e (wrap 16 (zlength es)) false)
          (zlength (entry_name e)) (posts m F).
Proof.
  unfold dir_inv. rewrite last_snoc, removelast_last, zlength_app. change (zlength [e]) with 1.
  by rewrite Z.add_simpl_r.
Qed.

(** The delayed hash of the last entry joins the stack. *)
Lemma flush_last es e F :
  accepted (es ++ [e]) → zlength es < 65535 → forest 0 F (zlength es) →
  forest_leaves F = dir_leaves es 0 false →
  let tr := write_entry_transcript e (wrap 16 (zlength es)) false in
  let h := leaf_hash e (zlength es) false in
  hash_transcript tr = Some h ∧ (length F ≤ 16)%nat ∧
  ∃ F', carry 64 (zlength es + 1) F (Leaf h) = Some F' ∧ forest 0 F' (zlength es + 1) ∧
    forest_leaves F' = dir_leaves (es ++ [e]) 0 false.
Proof.
  intros [_ [[Hw Hv] _]%Forall_cons]%Forall_app Hn HF Hleaves tr h. pose proof (zlength_nonneg es).
  split_and!.
  - apply (hash_entry_leaf e (zlength es) false Hw Hv).
  - pose proof (forest_length 0 F (zlength es) 16 HF ltac:(lia) ltac:(lia)). unfold zlength in *. lia.
  - destruct (carry_forest 64 0 F (zlength es) (Leaf h)) as (F' & Hc & HF' & Hl); [lia|lia|lia|lia| | |].
    + by rewrite Z.pow_0_r, Z.mul_1_l.
    + done.
    + exists F'. rewrite Z.pow_0_r, Z.mul_1_l in HF'. split_and!; [done..|].
      rewrite Hl, Hleaves, dir_leaves_app. unfold dir_leaves at 3. simpl. by rewrite Z.add_0_r.
Qed.

Lemma insert_effect u es d e :
  dir_inv es d → entry_wf e → entry_valid e = true → zlength es < 65535 →
  (u = false → insert_checks e d = Some (Ok tt)) →
  ∃ d', insert_inner u e d = Some (Ok tt, d') ∧ dir_inv (es ++ [e]) d'.
Proof.
  intros Hinv Hw Hv Hn Hchk. unfold insert_inner. unfold_M.
  assert ((if u then Some (Ok tt) else insert_checks e d) = Some (Ok tt)) as -> by (destruct u; auto).
  cbn [unwrap]. unfold_M.
  assert (accepted (es ++ [e])) as Hacc.
  { apply Forall_app. split; [apply Hinv|apply Forall_singleton; done]. }
  destruct es as [|e0 es _] using rev_ind.
  - destruct Hinv as [_ ->]. cbn [dh_counter dir_new]. rewrite bool_decide_false by lia. unfold_M.
    eexists. split; [done|]. apply dir_inv_snoc. split; [done|]. exists []. split_and!; [constructor|done|done].
  - apply dir_inv_snoc in Hinv as (Hacc0 & F & HF & Hleaves & ->). cbn [dh_counter dh_transcript_buffer].
    rewrite zlength_app in Hn. change (zlength [e0]) with 1 in Hn. pose proof (zlength_nonneg es).
    destruct (flush_last es e0 F) as (Hh & Hlen & F' & Hc & HF' & Hl); [done|lia|done|done|].
    rewrite bool_decide_true by lia. unfold_M. rewrite Hh. cbn [unwrap]. unfold_M.
    rewrite dir_push_run by (simpl; unfold roots; rewrite length_fmap; lia). unfold dir_merge_cv_stack. unfold_M.
    cbn [dh_counter with_stack]. rewrite (dir_merge_carry 64 _ F (Leaf (leaf_hash e0 (zlength es) false)) F');
      [|done|lia|done|done].
    eexists. split; [done|]. apply dir_inv_snoc. split; [done|]. exists F'.
    rewrite zlength_app. change (zlength [e0]) with 1. split_and!; [done..|].
    unfold with_stack. simpl. rewrite wrap_small by (unfold in_width; lia). done.
Qed.

(** ** The checks *)

(** A new entry comes after the last one. *)
Definition in_order (es : list BorrowedEntry) (e : BorrowedEntry) : Prop :=
  match last es with
  | None => True
  | Some e0 => slice_cmp (entry_name e0) (entry_name e) = Lt
  end.

Lemma insert_checks_spec es d e :
  dir_inv es d → entry_wf e → zlength es ≤ 65535 →
  ∃ r, insert_checks e d = Some r ∧
    (r = Ok tt ↔ entry_valid e = true ∧ zlength es < 65535 ∧ in_order es e).
Proof.
  intros Hinv [Hw _] Hn. unfold insert_checks, in_order.
  assert (∃ r, match entry_link e with
      | LinkPath link => if negb (is_valid_symlink link) then Some (Err InvalidSymlink) else Some (Ok tt)
      | LinkContent _ => Some (Ok tt) end = Some r ∧
    (r = Ok tt ↔ match entry_link e with LinkPath link => is_valid_symlink link | _ => true end = true))
    as (rl & Hrl & Hlink).
  { destruct (entry_link e) as [|link]; [by eexists|].
    destruct (is_valid_symlink link); by eexists. }
  rewrite Hrl. clear Hrl.
  assert (entry_valid e = true ↔ is_valid_filename (entry_name e) = true ∧ rl = Ok tt) as Hval
    by (unfold entry_valid; by rewrite andb_true_iff, <-Hlink).
  clear Hlink. destruct es as [|e0 es _] using rev_ind.
  - destruct Hinv as [_ ->]. simpl. destruct (is_valid_filename (entry_name e)); simpl; eexists; (split; [done|]);
      rewrite Hval; naive_solver.
  - apply dir_inv_snoc in Hinv as (_ & F & _ & _ & ->). rewrite last_snoc, zlength_app in *.
    change (zlength [e0]) with 1 in *. pose proof (zlength_nonneg es).
    cbn [dh_counter dh_last_filename_size dh_transcript_buffer].
    case_bool_decide as Hmax; [eexists; split; [done|]; split; [done|lia]|].
    rewrite bool_decide_true by lia.
    destruct (prev_name_slice e0 (wrap 16 (zlength es)) false) as [b ->]. cbn [mbind option_bind].
    destruct (is_valid_filename (entry_name e)) eqn:Hv.
    + apply valid_filename in Hv as [_ Hz].
      destruct (prev_name_cmp (entry_name e0) (entry_name e) b Hw Hz) as [Hne Hgt].
      rewrite bool_decide_false by done. cbn [negb].
      destruct (slice_cmp (entry_name e0 ++ [0; b]) (entry_name e)) eqn:Hcmp.
      * by apply slice_cmp_eq in Hcmp.
      * exists rl. split; [by destruct rl|]. rewrite Hval.
        destruct (slice_cmp (entry_name e0) (entry_name e)); naive_solver lia.
      * eexists. split; [done|]. split; [done|]. naive_solver.
    + cbn [negb]. case_bool_decide; [eexists; split; [done|rewrite Hval; naive_solver]|].
      destruct (slice_cmp _ _); eexists; (split; [done|rewrite Hval; naive_solver]).
Qed.
(** ** The end *)

Lemma finalize_loop_join F t fuel d :
  (length F ≤ fuel)%nat → (length F ≤ 16)%nat →
  dh_stack d = root_of m (bool_decide (F = [])) t :: roots m F →
  dh_tree d = posts m F ++ post_order m (bool_decide (F = [])) t →
  finalize_loop fuel d
  = Some (tt, with_stack [root_of m true (join_trees F t)] (post_order m true (join_trees F t)) d).
Proof.
  revert t fuel d. induction F as [|t1 F IH]; intros t fuel d Hf Hl Hs Ht.
  { destruct fuel; simpl; unfold_M; simpl in *; rewrite Hs; destruct d; simpl in *; by subst. }
  rewrite (bool_decide_false (t1 :: F = [])) in * by done. destruct fuel as [|fuel]; [simpl in Hf; lia|].
  simpl in Hf, Hl, Hs, Ht. cbn [finalize_loop]. unfold_M. rewrite Hs. unfold_M.
  rewrite dir_push_run by (simpl; unfold roots; rewrite length_fmap; lia).
  assert (bool_decide (roots m F = []) = bool_decide (F = [])) as Hb
    by (apply bool_decide_ext; destruct F; naive_solver).
  rewrite (IH (Node t1 t)); [by destruct d|lia|lia|..].
  - simpl. by rewrite Hb.
  - simpl. rewrite Ht, Hb, <-!app_assoc. done.
Qed.

(** The stack and the last entry make up the tree of the directory. *)
Lemma dir_tree_join es e F :
  forest 0 F (zlength es) → zlength es < 65535 → forest_leaves F = dir_leaves es 0 false →
  dir_tree (es ++ [e]) = join_trees F (Leaf (leaf_hash e (zlength es) (bool_decide (F = [])))).
Proof.
  intros HF Hn Hleaves. pose proof (zlength_nonneg es).
  assert (F = [] ↔ es = []) as HFe.
  { split; intros ->.
    - by destruct es.
    - pose proof (forest_length 0 F _ 0 HF ltac:(lia) ltac:(done)) as H0. destruct F; [done|].
      rewrite zlength_cons in H0. pose proof (zlength_nonneg F). lia. }
  set (r := bool_decide (F = [])). set (h := leaf_hash e (zlength es) r).
  assert (dir_leaves (es ++ [e]) 0 (bool_decide (length (es ++ [e]) = 1%nat))
    = forest_leaves F ++ [h]) as Hall.
  { assert (bool_decide (length (es ++ [e]) = 1%nat) = r) as ->.
    { unfold r. apply bool_decide_ext. rewrite HFe, length_app. destruct es; simpl; [done|].
      split; [lia|done]. }
    rewrite Hleaves, dir_leaves_app. unfold h, dir_leaves at 2. simpl. rewrite Z.add_0_r.
    f_equal. unfold r. destruct (decide (es = [])) as [->|Hes]; [done|].
    by rewrite bool_decide_false by tauto. }
  destruct (join_trees_shaped 0 F (zlength es) (Leaf h) HF) as [Hs Hl]; [lia|lia|done|done|].
  cbn [leaves] in Hl. unfold dir_tree. rewrite Hall, <-Hl. apply tree_of_unique; [done|].
  unfold count. rewrite Hl, <-Hall, dir_leaves_length, zlength_app. change (zlength [e]) with 1. lia.
Qed.

Lemma dir_finalize_run es d :
  dir_inv es d → zlength es ≤ 65535 → es ≠ [] →
  ∃ d', dir_finalize d = Some (root_of m true (dir_tree es), d') ∧
    dh_tree d' = post_order m true (dir_tree es).
Proof.
  intros Hinv Hn Hne. destruct es as [|e es _] using rev_ind; [done|].
  apply dir_inv_snoc in Hinv as (Hacc & F & HF & Hleaves & ->).
  rewrite zlength_app in Hn. change (zlength [e]) with 1 in Hn. pose proof (zlength_nonneg es).
  assert (entry_wf e ∧ entry_valid e = true) as [Hw Hv]
    by (by apply Forall_app in Hacc as [_ [? _]%Forall_cons]).
  assert (length F ≤ 16)%nat as Hlen.
  { pose proof (forest_length 0 F (zlength es) 16 HF ltac:(lia) ltac:(lia)). unfold zlength in *. lia. }
  rewrite (dir_tree_join es e F) by (done || lia). set (r := bool_decide (F = [])).
  unfold dir_finalize. unfold_M. cbn [dh_counter dh_stack dh_transcript_buffer].
  rewrite bool_decide_false by lia.
  assert (match roots m F with
     | [] => or_first B3_DIR_IS_ROOT (write_entry_transcript e (wrap 16 (zlength es)) false)
     | _ => Some (write_entry_transcript e (wrap 16 (zlength es)) false) end
    = Some (write_entry_transcript e (wrap 16 (zlength es)) r)) as Hbuf.
  { unfold r. destruct F; [apply transcript_root|done]. }
  rewrite Hbuf. cbn [unwrap]. unfold_M.
  change (hash_transcript (write_entry_transcript e (wrap 16 (zlength es)) r))
    with (hash_entry e (zlength es) r).
  rewrite hash_entry_leaf by done. cbn [unwrap]. unfold_M.
  rewrite dir_push_run by (simpl; unfold roots; rewrite length_fmap; lia). unfold_M.
  rewrite (finalize_loop_join F (Leaf (leaf_hash e (zlength es) r)));
    [by eexists|simpl; unfold roots; rewrite length_fmap; lia|done|done|done].
Qed.

(** The reference computes the root of the same tree. *)
Lemma split_hash_merge_tree fuel es offset r :
  accepted es → es ≠ [] → (length es ≤ fuel)%nat → 0 ≤ offset → offset + zlength es < 2 ^ 50 →
  split_hash_merge fuel es offset r
  = Some (root_of m r (tree_of (dir_leaves es offset (r && bool_decide (length es = 1%nat))))).
Proof.
  revert es offset r. induction fuel as [|fuel IH]; intros es offset r Hacc Hne Hf Ho Hb.
  { destruct es; [done|simpl in Hf; lia]. }
  destruct es as [|e [|e' es]]; [done|..]; cbn [split_hash_merge].
  - apply Forall_cons in Hacc as [[Hw Hv] _]. rewrite andb_true_r. unfold dir_leaves. simpl.
    rewrite Z.add_0_r. by apply hash_entry_leaf.
  - set (l := e :: e' :: es) in *. assert (2 ≤ zlength l) as H2 by (unfold zlength, l; simpl; lia).
    assert (bool_decide (length l = 1%nat) = false) as ->
      by (apply bool_decide_false; unfold zlength in H2; lia).
    rewrite andb_false_r. clearbody l. clear e e' es.
    destruct (previous_pow_of_two_spec (zlength l)) as (k & Hk & -> & Hs); [lia|].
    assert (1 ≤ 2 ^ k) by (apply (Z.pow_le_mono_r 2 0); lia).
    set (n := Z.to_nat (2 ^ k)).
    assert (zlength (take n l) = 2 ^ k) as Hl1 by (unfold zlength, n in *; rewrite length_take; lia).
    assert (zlength (drop n l) = zlength l - 2 ^ k) as Hl2 by (unfold zlength, n in *; rewrite length_drop; lia).
    assert (accepted (take n l) ∧ accepted (drop n l)) as [Ha1 Ha2]
      by (split; [by apply Forall_take|by apply Forall_drop]).
    assert (take n l ≠ [] ∧ drop n l ≠ []) as [Hn1 Hn2].
    { split; intros He; rewrite He in *; unfold zlength in *; simpl in *; lia. }
    rewrite wrap_small by (unfold in_width; lia).
    rewrite (IH (take n l) offset false), (IH (drop n l) (offset + 2 ^ k) false);
      [|done|done|unfold zlength in *; lia|lia|lia|done|done|unfold zlength in *; lia|lia|lia].
    cbn [mbind option_bind andb]. rewrite <-(take_drop n l) at 3.
    rewrite dir_leaves_app, Hl1, (tree_of_app _ _ k); [done| |by rewrite dir_leaves_length|rewrite dir_leaves_length; lia].
    split; [lia|]. apply (Z.pow_lt_mono_r_iff 2); lia.
Qed.
(** ** The hasher and the reference *)

(** Insert the entries until one is refused. *)
Fixpoint insert_all (es : list BorrowedEntry) : M DirectoryHasher (Result unit DirError) :=
  match es with
  | [] => mret (Ok tt)
  | e :: es =>
      r ← dir_insert e;
      match r with
      | Ok _ => insert_all es
      | Err err => mret (Err err)
      end
  end.

Definition prev_name (es : list BorrowedEntry) : Bytes :=
  match last es with None => [] | Some e => entry_name e end.

Lemma check_entries_cons prev e es :
  (entry_valid e = true ∧ slice_cmp prev (entry_name e) = Lt →
   check_entries prev (e :: es) = check_entries (entry_name e) es) ∧
  (¬ (entry_valid e = true ∧ slice_cmp prev (entry_name e) = Lt) →
   ∃ err, check_entries prev (e :: es) = Err err).
Proof.
  cbn [check_entries]. unfold entry_valid. rewrite (slice_cmp_antisym prev (entry_name e)).
  destruct (is_valid_filename (entry_name e)); simpl; [|split; [naive_solver|by eexists]].
  assert (match entry_link e with LinkPath link => negb (is_valid_symlink link) | _ => false end
    = negb match entry_link e with LinkContent _ => true | LinkPath link => is_valid_symlink link end) as ->
    by (by destruct (entry_link e)).
  destruct (match entry_link e with LinkContent _ => true | LinkPath link => is_valid_symlink link end);
    simpl; [|split; [naive_solver|by eexists]].
  destruct (slice_cmp prev (entry_name e)) eqn:Hc; simpl.
  - apply slice_cmp_eq in Hc as ->. rewrite bool_decide_true by done. split; [naive_solver|by eexists].
  - rewrite bool_decide_false; [naive_solver|]. intros <-.
    by assert (slice_cmp (entry_name e) (entry_name e) = Eq) as Heq by (by apply slice_cmp_eq); rewrite Heq in Hc.
  - case_bool_decide; (split; [naive_solver|by eexists]).
Qed.

Lemma in_order_prev es e :
  entry_valid e = true → (in_order es e ↔ slice_cmp (prev_name es) (entry_name e) = Lt).
Proof.
  intros [Hv _]%andb_true_iff. unfold in_order, prev_name. destruct (last es); [done|].
  apply valid_filename in Hv as [Hl _]. destruct (entry_name e); [unfold zlength in Hl; simpl in Hl; lia|done].
Qed.

(** An entry is inserted or refused; a refused one changes nothing. *)
Lemma insert_step es d e :
  dir_inv es d → entry_wf e → zlength es ≤ 65535 →
  (entry_valid e = true ∧ slice_cmp (prev_name es) (entry_name e) = Lt ∧ zlength es < 65535 ∧
   ∃ d', dir_insert e d = Some (Ok tt, d') ∧ dir_inv (es ++ [e]) d') ∨
  (¬ (entry_valid e = true ∧ slice_cmp (prev_name es) (entry_name e) = Lt ∧ zlength es < 65535) ∧
   ∃ err, dir_insert e d = Some (Err err, d)).
Proof.
  intros Hinv Hw Hn. destruct (insert_checks_spec es d e Hinv Hw Hn) as (r & Hr & Hok).
  destruct r as [[]|err].
  - left. destruct Hok as [Hok _]. destruct (Hok eq_refl) as (Hv & Hlt & Ho).
    split_and!; [done|by apply in_order_prev|done|]. by apply insert_effect.
  - right. split.
    + intros (Hv & Ho & Hlt). apply (in_order_prev es e Hv) in Ho. naive_solver.
    + exists err. unfold dir_insert, insert_inner. unfold_M. by rewrite Hr.
Qed.

Lemma insert_all_spec es1 es2 d :
  dir_inv es1 d → Forall entry_wf es2 → zlength es1 ≤ 65535 →
  (check_entries (prev_name es1) es2 = Ok tt ∧ zlength (es1 ++ es2) ≤ 65535 →
   ∃ d', insert_all es2 d = Some (Ok tt, d') ∧ dir_inv (es1 ++ es2) d') ∧
  (¬ (check_entries (prev_name es1) es2 = Ok tt ∧ zlength (es1 ++ es2) ≤ 65535) →
   ∃ err d', insert_all es2 d = Some (Err err, d')).
Proof.
  revert es1 d. induction es2 as [|e es2 IH]; intros es1 d Hinv Hw Hn.
  { rewrite app_nil_r. split; [by exists d|]. intros Hno. by destruct Hno. }
  apply Forall_cons in Hw as [Hwe Hw]. destruct (check_entries_cons (prev_name es1) e es2) as [Hc1 Hc2].
  assert (prev_name (es1 ++ [e]) = entry_name e) as Hp by (unfold prev_name; by rewrite last_snoc).
  cbn [insert_all]. unfold_M.
  destruct (insert_step es1 d e Hinv Hwe Hn) as [(Hv & Ho & Hlt & d' & -> & Hinv')|(Hno & err & ->)].
  - specialize (IH (es1 ++ [e]) d' Hinv' Hw). rewrite Hp, <-app_assoc in IH. rewrite Hc1 by done.
    apply IH. rewrite zlength_app. change (zlength [e]) with 1. lia.
  - split; [|by eexists _, _]. intros [Hok Hlen]. exfalso.
    rewrite zlength_app, zlength_cons in Hlen. pose proof (zlength_nonneg es2).
    destruct (decide (entry_valid e = true ∧ slice_cmp (prev_name es1) (entry_name e) = Lt)) as [Hd|Hd].
    + apply Hno. destruct Hd. split_and!; [done|done|lia].
    + destruct (Hc2 Hd) as [err' Herr]. congruence.
Qed.

Lemma check_entries_valid prev es : check_entries prev es = Ok tt → Forall (λ e, entry_valid e = true) es.
Proof.
  revert prev. induction es as [|e es IH]; intros prev Hc; [constructor|].
  destruct (check_entries_cons prev e es) as [H1 H2].
  destruct (decide (entry_valid e = true ∧ slice_cmp prev (entry_name e) = Lt)) as [Hd|Hd].
  - constructor; [apply Hd|]. eapply IH. by rewrite <-H1.
  - destruct (H2 Hd). congruence.
Qed.

(** C17: The incremental hasher of directories computes what the reference
    defines. It accepts a list of entries, one after the other, exactly when the
    reference does, which is when there are at most 65535 entries with valid and
    strictly increasing names and valid links; then its hash is that of the
    reference, and the collected tree is the array of the tree over the hashes of
    the entries. Neither of them panics, and the stack of 17 hashes suffices. *)
Theorem dir_hasher_refines es :
  Forall entry_wf es →
  match hash_dir es with
  | Some (Ok hash) => ∃ d d', insert_all es dir_new = Some (Ok tt, d) ∧
      dir_finalize d = Some (hash, d') ∧
      dh_tree d' = if bool_decide (es = []) then [hash] else post_order m true (dir_tree es)
  | Some (Err _) => ∃ err d, insert_all es dir_new = Some (Err err, d)
  | None => False
  end.
Proof.
  intros Hw. assert (dir_inv [] dir_new) as Hnew by (split; [constructor|done]).
  pose proof (insert_all_spec [] es dir_new Hnew Hw ltac:(done)) as [Hyes Hno].
  unfold hash_dir. change (prev_name []) with (@nil Z) in *. cbn [app] in *.
  destruct (decide (zlength es > 65535)) as [Hbig|Hsmall].
  { rewrite bool_decide_true by done. apply Hno. lia. }
  rewrite bool_decide_false by done. destruct (check_entries [] es) as [[]|err] eqn:Hchk.
  2: { apply Hno. naive_solver. }
  destruct Hyes as (d & Hrun & Hinv); [split; [done|lia]|]. clear Hno.
  destruct es as [|e es].
  { rewrite iv_hash_empty by done. exists dir_new. eexists.
    split; [done|]. split; [unfold dir_finalize; unfold_M; reflexivity|done]. }
  set (l := e :: es) in *. assert (l ≠ []) as Hne by done. clearbody l. clear e es.
  assert (accepted l) as Hacc.
  { apply Forall_and. split; [done|]. by eapply check_entries_valid. }
  destruct l as [|e es]; [done|]. set (l := e :: es) in *.
  rewrite split_hash_merge_tree; [|done|done|done|lia|lia]. cbn [fmap option_fmap option_map andb].
  destruct (dir_finalize_run l d Hinv ltac:(lia) Hne) as (d' & Hfin & Htree).
  exists d, d'. rewrite (bool_decide_false (l = [])) by done. done.
Qed.
End dir_correct.
