(* ===== verification/ByteHasher.v ===== *)
(** * ByteHasher: the incremental hash of content

    [lib/b3fs/src/hasher/byte_hasher/mod.rs]: [BlockHasher] hashes a block of at
    most 256 KiB that arrives in pieces, [Blake3Hasher] a content of any number
    of blocks, and collects the array of the tree over the blocks on the way.
    Both keep a stack of subtrees that is merged lazily. *)

From S2P Require Import Prelude Types Codec HashTree ProofBuf Blake3 Blake3Tree Forest.
From stdpp Require Import base list.
From Stdlib Require Import ZArith Lia.
Open Scope Z_scope.

Definition TREE_BLOCK_SIZE_IN_CHUNK_LOG_2 : Z := 8.
Definition TREE_BLOCK_SIZE_IN_CHUNK : Z := Z.shiftl 1 TREE_BLOCK_SIZE_IN_CHUNK_LOG_2.
Definition TREE_BLOCK_SIZE_BYTES : Z := TREE_BLOCK_SIZE_IN_CHUNK * 1024.
Definition TREE_BLOCK_SIZE_IN_CHUNK_MOD_MASK : Z := TREE_BLOCK_SIZE_IN_CHUNK - 1.

(** A collector of the hashes of the tree, in the order in which they are found. *)
Class HashTreeCollector (T : Type) := push : T → Bytes → T.

(** [Vec<[u8; 32]>]. *)
#[global] Instance vec_collector : HashTreeCollector (list Bytes) := λ tree hash, tree ++ [hash].

Section byte_hasher.
Context {P : Platform} {T : Type} {C : HashTreeCollector T}.

(** The top of a stack is the head of the list. *)
Record BlockHasher := mkBlockHasher {
  bh_iv : IV;
  bh_chunk_state : ChunkState;
  bh_cv_stack : list CVBytes
}.

(** The block stacks hold 9 values and the content stack 47; pushing to a full
    one panics. *)
Definition BLOCK_STACK_SIZE : nat := 9.
Definition TREE_STACK_SIZE : nat := 47.

(** ** [BlockHasher] *)

Definition bh_from (iv : IV) : BlockHasher :=
  mkBlockHasher iv (chunk_new (iv_key iv) 0 (iv_flags iv)) [].

Definition bh_with_stack (stack : list CVBytes) (b : BlockHasher) : BlockHasher :=
  mkBlockHasher (bh_iv b) (bh_chunk_state b) stack.

Definition bh_with_chunk (s : ChunkState) (b : BlockHasher) : BlockHasher :=
  mkBlockHasher (bh_iv b) s (bh_cv_stack b).

Definition with_counter (counter : Z) (s : ChunkState) : ChunkState :=
  mkChunkState (cs_cv s) counter (cs_buf s) (cs_buf_len s) (cs_blocks_compressed s) (cs_flags s).

(** A pop of an empty stack panics; the fuel is the height of the stack. *)
Fixpoint bh_merge_loop (fuel : nat) (post_merge_stack_len : Z) : M BlockHasher unit :=
  b ← get;
  if bool_decide (zlength (bh_cv_stack b) > post_merge_stack_len) then
    match fuel, bh_cv_stack b with
    | S fuel, right_child :: left_child :: stack =>
        let parent_output :=
          parent_node_output left_child right_child (iv_key (bh_iv b)) (cs_flags (bh_chunk_state b)) in
        modify (bh_with_stack (chaining_value parent_output :: stack));;
        bh_merge_loop fuel post_merge_stack_len
    | _, _ => panic
    end
  else mret tt.

Definition bh_merge_cv_stack (total_len : Z) : M BlockHasher unit :=
  let post_merge_stack_len := count_ones (Z.land total_len TREE_BLOCK_SIZE_IN_CHUNK_MOD_MASK) in
  b ← get;
  bh_merge_loop (length (bh_cv_stack b)) post_merge_stack_len.

Definition bh_push_cv (new_cv : CVBytes) (chunk_counter : Z) : M BlockHasher unit :=
  bh_merge_cv_stack chunk_counter;;
  b ← get;
  if bool_decide (length (bh_cv_stack b) = BLOCK_STACK_SIZE) then panic
  else modify (bh_with_stack (new_cv :: bh_cv_stack b)).

(** The two halves of a parent message. *)
Definition left_cv (cv_pair : Bytes) : CVBytes := take 32 cv_pair.
Definition right_cv (cv_pair : Bytes) : CVBytes := take 32 (drop 32 cv_pair).

(** Shrink until the length divides the count; a power of two below [2 ^ 64] is
    halved at most 64 times. *)
Fixpoint shrink (fuel : nat) (subtree_len count_so_far : Z) : option Z :=
  if bool_decide (Z.land (subtree_len -[64] 1) count_so_far ≠ 0) then
    match fuel with
    | O => None
    | S fuel => shrink fuel (subtree_len / 2) count_so_far
    end
  else Some subtree_len.

(** The loop over the whole subtrees of the input; the rest of the input is
    returned, and the fuel is the length of the input. *)
Fixpoint bh_subtrees (fuel : nat) (input : Bytes) : M BlockHasher Bytes :=
  if bool_decide (CHUNK_LEN < length input)%nat then
    match fuel with
    | O => panic
    | S fuel =>
        b ← get;
        let key := iv_key (bh_iv b) in
        let chunk_state := bh_chunk_state b in
        let chunk_counter := cs_chunk_counter chunk_state in
        subtree_len ← unwrap (shrink 64 (largest_power_of_two_leq (zlength input))
                                (wrap 64 (chunk_counter * 1024)));
        let subtree_chunks := subtree_len / 1024 in
        let piece := take (Z.to_nat subtree_len) input in
        (if bool_decide (subtree_len ≤ 1024) then
           bh_push_cv
             (chaining_value (chunk_output (chunk_update
                (chunk_new key chunk_counter (cs_flags chunk_state)) piece)))
             chunk_counter
         else
           cv_pair ← unwrap (compress_subtree_to_parent_node piece key chunk_counter
                               (cs_flags chunk_state));
           bh_push_cv (left_cv cv_pair) chunk_counter;;
           bh_push_cv (right_cv cv_pair) (chunk_counter +[64] subtree_chunks / 2));;
        modify (λ b, bh_with_chunk
          (with_counter (cs_chunk_counter (bh_chunk_state b) +[64] subtree_chunks)
             (bh_chunk_state b)) b);;
        bh_subtrees fuel (drop (Z.to_nat subtree_len) input)
    end
  else mret input.

(** The part of an update that starts at the border of a chunk. *)
Definition bh_consume (input : Bytes) : M BlockHasher unit :=
  input ← bh_subtrees (length input) input;
  match input with
  | [] => mret tt
  | _ =>
      modify (λ b, bh_with_chunk (chunk_update (bh_chunk_state b) input) b);;
      b ← get;
      bh_merge_cv_stack (cs_chunk_counter (bh_chunk_state b))
  end.

Definition bh_update (input : Bytes) : M BlockHasher unit :=
  b ← get;
  let chunk_state := bh_chunk_state b in
  if bool_decide (chunk_len chunk_state > 0) then
    let want := (CHUNK_LEN - Z.to_nat (chunk_len chunk_state))%nat in
    let take_ := Nat.min want (length input) in
    modify (bh_with_chunk (chunk_update chunk_state (take take_ input)));;
    let input := drop take_ input in
    match input with
    | [] => mret tt
    | _ =>
        b ← get;
        let chunk_state := bh_chunk_state b in
        bh_push_cv (chaining_value (chunk_output chunk_state)) (cs_chunk_counter chunk_state);;
        modify (bh_with_chunk (chunk_new (iv_key (bh_iv b))
          (cs_chunk_counter chunk_state +[64] 1) (cs_flags chunk_state)));;
        bh_consume input
    end
  else bh_consume input.

Definition bh_move_to_next_block (b : BlockHasher) : BlockHasher :=
  let chunk_state := bh_chunk_state b in
  let counter := cs_chunk_counter chunk_state +[64] 1 in
  mkBlockHasher (bh_iv b)
    (chunk_new (iv_key (bh_iv b))
       (counter -[64] Z.land counter TREE_BLOCK_SIZE_IN_CHUNK_MOD_MASK) (cs_flags chunk_state))
    [].

(** [None] is the panic when bytes were consumed already. *)
Definition bh_set_block (block : Z) (b : BlockHasher) : option BlockHasher :=
  if negb (bool_decide (chunk_len (bh_chunk_state b) = 0) && bool_decide (bh_cv_stack b = []))
  then None
  else Some (bh_with_chunk (with_counter (wrap 64 (Z.shiftl block TREE_BLOCK_SIZE_IN_CHUNK_LOG_2))
                              (bh_chunk_state b)) b).

Definition bh_len (b : BlockHasher) : Z :=
  let chunk_counter := Z.land (cs_chunk_counter (bh_chunk_state b)) TREE_BLOCK_SIZE_IN_CHUNK_MOD_MASK in
  let chunk_counter :=
    if bool_decide (chunk_counter = 0) && negb (bool_decide (bh_cv_stack b = []))
    then TREE_BLOCK_SIZE_IN_CHUNK else chunk_counter in
  chunk_counter * 1024 + chunk_len (bh_chunk_state b).

(** Merge an output with the values of a stack, from the top down. *)
Definition bh_fold (key : CVWords) (flags : Z) (stack : list CVBytes) (output : Output) : Output :=
  foldl (λ output cv, parent_node_output cv (chaining_value output) key flags) output stack.

(** [None] is the panic on a stack of one value with an empty chunk. *)
Definition bh_final_output (b : BlockHasher) : option Output :=
  let chunk_state := bh_chunk_state b in
  let key := iv_key (bh_iv b) in
  let flags := cs_flags chunk_state in
  match bh_cv_stack b with
  | [] => Some (chunk_output chunk_state)
  | stack =>
      if bool_decide (chunk_len chunk_state > 0) then
        Some (bh_fold key flags stack (chunk_output chunk_state))
      else
        match stack with
        | top :: second :: stack =>
            Some (bh_fold key flags stack (parent_node_output second top key flags))
        | _ => None
        end
  end.

Definition bh_finalize (is_root : bool) (b : BlockHasher) : option Bytes :=
  output ← bh_final_output b;
  Some (if is_root then root_hash output else chaining_value output).

(** ** [Blake3Hasher] *)

Record Blake3Hasher := mkBlake3Hasher {
  h_block_state : BlockHasher;
  h_cv_stack : list CVBytes;
  h_block_counter : Z;
  h_tree : T
}.

Definition h_new_with_iv (tree : T) (iv : IV) : Blake3Hasher := mkBlake3Hasher (bh_from iv) [] 0 tree.

Definition h_with_stack (stack : list CVBytes) (tree : T) (h : Blake3Hasher) : Blake3Hasher :=
  mkBlake3Hasher (h_block_state h) stack (h_block_counter h) tree.

Definition h_with_block (b : BlockHasher) (h : Blake3Hasher) : Blake3Hasher :=
  mkBlake3Hasher b (h_cv_stack h) (h_block_counter h) (h_tree h).

Definition h_key (h : Blake3Hasher) : CVWords := iv_key (bh_iv (h_block_state h)).
Definition h_flags (h : Blake3Hasher) : Z := cs_flags (bh_chunk_state (h_block_state h)).

Fixpoint h_merge_loop (fuel : nat) (post_merge_stack_len : Z) : M Blake3Hasher unit :=
  h ← get;
  if bool_decide (zlength (h_cv_stack h) > post_merge_stack_len) then
    match fuel, h_cv_stack h with
    | S fuel, right_child :: left_child :: stack =>
        let parent_cv :=
          chaining_value (parent_node_output left_child right_child (h_key h) (h_flags h)) in
        modify (h_with_stack (parent_cv :: stack) (push (h_tree h) parent_cv));;
        h_merge_loop fuel post_merge_stack_len
    | _, _ => panic
    end
  else mret tt.

Definition h_merge_cv_stack : M Blake3Hasher unit :=
  h ← get;
  h_merge_loop (length (h_cv_stack h)) (count_ones (h_block_counter h)).

Definition h_push_cv (new_cv : CVBytes) : M Blake3Hasher unit :=
  h_merge_cv_stack;;
  h ← get;
  if bool_decide (length (h_cv_stack h) = TREE_STACK_SIZE) then panic
  else modify (λ h, mkBlake3Hasher (h_block_state h) (new_cv :: h_cv_stack h)
                      (h_block_counter h +[64] 1) (push (h_tree h) new_cv)).

(** Run an operation of the block hasher. *)
Definition h_block {A} (op : M BlockHasher A) : M Blake3Hasher A := λ h,
  match op (h_block_state h) with
  | Some (a, b) => Some (a, h_with_block b h)
  | None => None
  end.

Definition h_advance (chunks : Z) : M Blake3Hasher unit :=
  modify (λ h, h_with_block (bh_with_chunk
    (with_counter (cs_chunk_counter (bh_chunk_state (h_block_state h)) +[64] chunks)
       (bh_chunk_state (h_block_state h))) (h_block_state h)) h).

(** The pair of chaining values under the root of a piece of the input. *)
Definition h_compress (piece : Bytes) : M Blake3Hasher Bytes :=
  h ← get;
  unwrap (compress_subtree_to_parent_node piece (h_key h)
            (cs_chunk_counter (bh_chunk_state (h_block_state h))) (h_flags h)).

(** The loop over pairs of blocks; the fuel is the length of the input. *)
Fixpoint h_pairs (fuel : nat) (input : Bytes) : M Blake3Hasher Bytes :=
  if bool_decide (2 * TREE_BLOCK_SIZE_BYTES ≤ zlength input) then
    match fuel with
    | O => panic
    | S fuel =>
        cv_pair ← h_compress (take (Z.to_nat (2 * TREE_BLOCK_SIZE_BYTES)) input);
        h_push_cv (left_cv cv_pair);;
        h_push_cv (right_cv cv_pair);;
        h_advance (2 * TREE_BLOCK_SIZE_IN_CHUNK);;
        h_pairs fuel (drop (Z.to_nat (2 * TREE_BLOCK_SIZE_BYTES)) input)
    end
  else mret input.

(** The part of an update that starts at the border of a block. *)
Definition h_consume (input : Bytes) : M Blake3Hasher unit :=
  input ← h_pairs (length input) input;
  h ← get;
  let is_non_first_block :=
    negb (bool_decide (h_cv_stack h = [])) && bool_decide (zlength input = TREE_BLOCK_SIZE_BYTES) in
  let input_larger_than_one_block := bool_decide (zlength input > TREE_BLOCK_SIZE_BYTES) in
  input ←
    (if input_larger_than_one_block || is_non_first_block then
       cv_pair ← h_compress (take (Z.to_nat TREE_BLOCK_SIZE_BYTES) input);
       h ← get;
       h_push_cv (chaining_value (parent_node_output (left_cv cv_pair) (right_cv cv_pair)
                                    (h_key h) (h_flags h)));;
       h_advance TREE_BLOCK_SIZE_IN_CHUNK;;
       mret (drop (Z.to_nat TREE_BLOCK_SIZE_BYTES) input)
     else mret input);
  match input with
  | [] => mret tt
  | _ => h_merge_cv_stack;; h_block (bh_update input)
  end.

Definition h_update (input : Bytes) : M Blake3Hasher unit :=
  h ← get;
  let block_state_len := bh_len (h_block_state h) in
  if bool_decide (block_state_len > 0) then
    let want := Z.to_nat (TREE_BLOCK_SIZE_BYTES - block_state_len) in
    let take_ := Nat.min want (length input) in
    h_block (bh_update (take take_ input));;
    let input := drop take_ input in
    match input with
    | [] => mret tt
    | _ =>
        h ← get;
        output ← unwrap (bh_final_output (h_block_state h));
        h_push_cv (chaining_value output);;
        h_block (modify bh_move_to_next_block);;
        h_consume input
    end
  else h_consume input.

(** The rest of the stack is merged, and the inner nodes go to the tree. *)
Fixpoint h_fold (key : CVWords) (flags : Z) (stack : list CVBytes) (output : Output)
    (tree : T) : Output * T :=
  match stack with
  | [] => (output, tree)
  | cv :: stack =>
      h_fold key flags stack (parent_node_output cv (chaining_value output) key flags)
        (push tree (chaining_value output))
  end.

Definition h_final_output (h : Blake3Hasher) : option (Output * T) :=
  match h_cv_stack h with
  | [] => output ← bh_final_output (h_block_state h); Some (output, h_tree h)
  | stack =>
      if bool_decide (bh_len (h_block_state h) > 0) then
        output ← bh_final_output (h_block_state h);
        Some (h_fold (h_key h) (h_flags h) stack output (h_tree h))
      else
        match stack with
        | top :: second :: stack =>
            Some (h_fold (h_key h) (h_flags h) stack
                    (parent_node_output second top (h_key h) (h_flags h)) (h_tree h))
        | _ => None
        end
  end.

(** [finalize] is the hash alone. *)
Definition h_finalize_tree (h : Blake3Hasher) : option (T * Bytes) :=
  '(output, tree) ← h_final_output h;
  Some (tree, root_hash output).

Definition h_finalize (h : Blake3Hasher) : option Bytes :=
  '(output, _) ← h_final_output h;
  Some (root_hash output).
End byte_hasher.

Arguments Blake3Hasher T : clear implicits.
