(* ===== verification/ByteTree.v ===== *)
(** * ByteTree: the incremental hashers compute the tree

    The hashers of [lib/b3fs/src/hasher/byte_hasher/mod.rs] against the hash of
    the whole input: however the bytes of a content are cut into pieces, the hash
    is the same, and the collected array is that of the tree over the blocks. *)

From S2P Require Import Prelude Types Codec HashTree ProofBuf Blake3 Blake3Tree Forest ByteHasher.
From stdpp Require Import base list.
From Stdlib Require Import ZArith Lia.
Open Scope Z_scope.

Section block.
Context {P : Platform} {PL : PlatformLaws P} (iv : IV) (b : Z).
#[local] Abbreviation key := (iv_key iv).
#[local] Abbreviation flags := (iv_flags iv).
#[local] Abbreviation m := (iv_merge iv).
#[local] Arguments iv_merge : simpl never.
#[local] Arguments compress_in_place : simpl never.

(** ** Chunks *)

Lemma absorb_blocks n s x :
  0 ≤ cs_blocks_compressed s → cs_blocks_compressed s + Z.of_nat n < 256 →
  cs_blocks_compressed (absorb n s x) = cs_blocks_compressed s + Z.of_nat n.
Proof.
  revert s x. induction n as [|n IH]; intros s x H0 Hn; [simpl; lia|]. cbn [absorb].
  assert (cs_blocks_compressed (compress_block s (take BLOCK_LEN x)) = cs_blocks_compressed s + 1) as Hb.
  { cbn [cs_blocks_compressed compress_block]. apply wrap_small. unfold in_width. lia. }
  rewrite IH; rewrite Hb; lia.
Qed.

(** The state of a chunk after the bytes [x]. *)
Definition chunk_after (counter : Z) (x : Bytes) : ChunkState :=
  chunk_update (chunk_new key counter flags) x.

Lemma chunk_after_nil counter : chunk_after counter [] = chunk_new key counter flags.
Proof. done. Qed.

Lemma chunk_after_fields counter x :
  (length x ≤ 1024)%nat →
  cs_chunk_counter (chunk_after counter x) = counter ∧ cs_flags (chunk_after counter x) = flags ∧
  chunk_len (chunk_after counter x) = zlength x.
Proof.
  intros Hx. unfold chunk_after. rewrite update_aligned by done.
  destruct (absorb_fields (full_blocks x) (chunk_new key counter flags) x) as (Hc & _ & _ & Hf).
  pose proof (full_blocks_spec x) as [H1 H2].
  assert (full_blocks x < 16)%nat.
  { unfold full_blocks. apply Nat.Div0.div_lt_upper_bound. lia. }
  unfold with_buf. cbn [cs_chunk_counter cs_flags]. split_and!; [done..|].
  unfold chunk_len. cbn [cs_blocks_compressed cs_buf_len].
  rewrite absorb_blocks by (simpl; lia). cbn [cs_blocks_compressed chunk_new].
  rewrite length_drop. unfold zlength, BLOCK_LEN.
  destruct (decide (x = [])) as [->|Hne]; [done|]. specialize (H1 Hne). lia.
Qed.

Lemma chunk_after_app counter x y : chunk_update (chunk_after counter x) y = chunk_after counter (x ++ y).
Proof. by apply chunk_update_app. Qed.

Lemma chunk_cv_after counter x : chaining_value (chunk_output (chunk_after counter x)) = chunk_cv iv counter x.
Proof. done. Qed.

(** ** Merging *)

Hypothesis Hb : 0 ≤ b < 2 ^ 52.
Hypothesis Hb256 : b mod 256 = 0.

Definition hasher (s : ChunkState) (F : list (tree Bytes)) : BlockHasher :=
  mkBlockHasher iv s (roots m F).

Lemma mask_counter n : 0 ≤ n < 256 → Z.land (b + n) TREE_BLOCK_SIZE_IN_CHUNK_MOD_MASK = n.
Proof.
  intros Hn. change TREE_BLOCK_SIZE_IN_CHUNK_MOD_MASK with (Z.ones 8). rewrite Z.land_ones by lia.
  change (2 ^ 8) with 256. rewrite Z.add_mod, Hb256, Z.add_0_l, Z.mod_mod by lia. by apply Z.mod_small.
Qed.

Lemma roots_length F : zlength (roots m F) = zlength F.
Proof. unfold roots, zlength. by rewrite length_fmap. Qed.

Lemma bh_merge_loop_run fuel n F F' s :
  cs_flags s = flags → merge_to fuel n F = Some F' →
  bh_merge_loop fuel n (hasher s F) = Some (tt, hasher s F').
Proof.
  intros Hfl. revert F. induction fuel as [|fuel IH]; intros F Hm; cbn [merge_to bh_merge_loop] in *;
    unfold_M; cbn [hasher bh_cv_stack bh_iv bh_chunk_state] in *; rewrite roots_length;
    case_bool_decide; simplify_eq; try done.
  destruct F as [|t2 [|t1 F]]; [done..|]. cbn [roots fmap list_fmap]. unfold_M. rewrite Hfl.
  apply (IH (Node t1 t2 :: F)). done.
Qed.

Lemma bh_merge_run F n s :
  cs_flags s = flags → lazy_forest F n → 0 ≤ n < 256 →
  ∃ F', bh_merge_cv_stack (b + n) (hasher s F) = Some (tt, hasher s F') ∧ forest 0 F' n ∧
    forest_leaves F' = forest_leaves F.
Proof.
  intros Hfl HF Hn. destruct (merge_to_lazy (length F) F n HF) as (F' & Hm & Hfor & Hl); [lia|done|].
  exists F'. split_and!; [|done|done]. unfold bh_merge_cv_stack. unfold_M. rewrite mask_counter by done.
  cbn [hasher bh_cv_stack]. unfold roots at 1. rewrite length_fmap. by apply bh_merge_loop_run.
Qed.

Lemma bh_push_run F n k q t s :
  cs_flags s = flags → lazy_forest F n → 0 ≤ k → 0 ≤ n < 256 → n = 2 ^ k * q → perfect k t →
  ∃ F', bh_push_cv (root_of m false t) (b + n) (hasher s F) = Some (tt, hasher s (t :: F')) ∧
    forest k F' n ∧ forest_leaves F' = forest_leaves F.
Proof.
  intros Hfl HF Hk Hn Hq Ht. destruct (bh_merge_run F n s Hfl HF Hn) as (F' & Hm & Hfor & Hl).
  exists F'. split_and!; [|rewrite Hq in *; by apply forest_raise|done].
  unfold bh_push_cv. unfold_M. rewrite Hm. cbn [hasher bh_cv_stack].
  pose proof (forest_length 0 F' n 8 Hfor ltac:(lia) ltac:(lia)) as Hlen.
  rewrite bool_decide_false; [done|]. unfold roots. rewrite length_fmap.
  unfold zlength, BLOCK_STACK_SIZE in *. lia.
Qed.

Lemma lazy_push k (t : tree Bytes) F n :
  0 ≤ k → perfect k t → forest k F n → lazy_forest (t :: F) (n + 2 ^ k).
Proof. intros Hk Ht HF. right. exists k, t, F. split_and!; [done..|]. by rewrite Z.add_simpl_r. Qed.

(** ** The size of the next subtree *)

Lemma shrink_spec fuel a c :
  10 ≤ a → a - 10 ≤ Z.of_nat fuel → a < 64 → 0 ≤ c → c mod 1024 = 0 →
  ∃ i, shrink fuel (2 ^ a) c = Some (2 ^ i) ∧ 10 ≤ i ≤ a ∧ c mod 2 ^ i = 0.
Proof.
  revert a. induction fuel as [|fuel IH]; intros a Ha Hf Ha64 Hc Hm.
  all: assert (1024 ≤ 2 ^ a < 2 ^ 64) as Hp
    by (split; [apply (Z.pow_le_mono_r 2 10); lia|apply Z.pow_lt_mono_r; lia]).
  all: assert (Z.land (2 ^ a -[64] 1) c = c mod 2 ^ a) as Hland
    by (rewrite wrap_small by (unfold in_width; lia); rewrite Z.land_comm, <-Z.land_ones, Z.ones_equiv by lia;
        f_equal; lia).
  all: cbn [shrink]; rewrite Hland; case_bool_decide as Hz.
  - assert (a = 10) as -> by lia. by change (2 ^ 10) with 1024 in Hz.
  - exists a. split_and!; [done|lia|lia|]. by destruct (decide (c mod 2 ^ a = 0)).
  - destruct (decide (a = 10)) as [->|]; [by change (2 ^ 10) with 1024 in Hz|].
    replace (2 ^ a / 2) with (2 ^ (a - 1)).
    + destruct (IH (a - 1)) as (i & Hi & Hr & Hd); [lia..|]. exists i. split_and!; [done|lia..|done].
    + replace a with (a - 1 + 1) at 2 by lia. rewrite Z.pow_add_r by lia. change (2 ^ 1) with 2.
      by rewrite Z.div_mul.
  - exists a. split_and!; [done|lia|lia|]. by destruct (decide (c mod 2 ^ a = 0)).
Qed.
(** ** Whole subtrees *)

(** After [n] chunks with the bytes [d]. *)
Definition between (n : Z) (d : Bytes) (F : list (tree Bytes)) : Prop :=
  zlength d = 1024 * n ∧ 0 ≤ n ≤ 256 ∧ lazy_forest F n ∧ forest_leaves F = chunk_cvs iv b d.

Lemma cvs_snoc n d x :
  zlength d = 1024 * n → chunk_cvs iv b (d ++ x) = chunk_cvs iv b d ++ chunk_cvs iv (b + n) x.
Proof.
  intros Hd. pose proof (zlength_nonneg d). rewrite (chunk_cvs_app iv (Z.to_nat n)).
  - by rewrite Z2Nat.id by lia.
  - unfold zlength in Hd. lia.
Qed.

Lemma whole_chunks_cvs counter x k :
  0 ≤ k → zlength x = 1024 * 2 ^ k → k < 60 → perfect k (tree_of (chunk_cvs iv counter x)) ∧
  leaves (tree_of (chunk_cvs iv counter x)) = chunk_cvs iv counter x.
Proof.
  intros Hk Hx Hk60. assert (1 ≤ 2 ^ k) by (apply (Z.pow_le_mono_r 2 0); lia).
  assert (2 ^ k < 2 ^ 60) by (apply Z.pow_lt_mono_r; lia).
  assert (zlength (chunk_cvs iv counter x) = 2 ^ k) as Hn.
  { rewrite chunk_cvs_count, Hx. symmetry. apply Z.div_unique with 1023; lia. }
  destruct (tree_of_spec (chunk_cvs iv counter x)) as [Hs Hl].
  - intros He. rewrite He in Hn. unfold zlength in Hn. simpl in Hn. lia.
  - lia.
  - split; [split; [done|]|done]. unfold count. by rewrite Hl.
Qed.

(** The two values under the root of whole chunks, a power of two of them. *)
Lemma pair_trees counter x k :
  0 ≤ counter < 2 ^ 60 → 0 ≤ k < 40 → zlength x = 1024 * (2 * 2 ^ k) →
  ∃ t1 t2, compress_subtree_to_parent_node x key counter flags
      = Some (root_of m false t1 ++ root_of m false t2) ∧
    is_hash (root_of m false t1) ∧ is_hash (root_of m false t2) ∧
    t1 = tree_of (chunk_cvs iv counter (take (Z.to_nat (1024 * 2 ^ k)) x)) ∧
    t2 = tree_of (chunk_cvs iv (counter + 2 ^ k) (drop (Z.to_nat (1024 * 2 ^ k)) x)) ∧
    perfect k t1 ∧ perfect k t2 ∧ leaves t1 ++ leaves t2 = chunk_cvs iv counter x.
Proof.
  intros Hc Hk Hx. assert (1 ≤ 2 ^ k) by (apply (Z.pow_le_mono_r 2 0); lia).
  assert (2 ^ k ≤ 2 ^ 39) by (apply Z.pow_le_mono_r; lia).
  destruct (split_cvs iv counter x k) as (Hl1 & Hl2 & Hcvs & Hn1 & Hn2); [lia..|].
  set (n := Z.to_nat (1024 * 2 ^ k)) in *.
  destruct (whole_chunks_cvs counter (take n x) k) as [Hp1 Hv1]; [lia..|].
  destruct (whole_chunks_cvs (counter + 2 ^ k) (drop n x) k) as [Hp2 Hv2]; [lia..|].
  assert (tree_of (chunk_cvs iv counter x) = Node (tree_of (chunk_cvs iv counter (take n x)))
    (tree_of (chunk_cvs iv (counter + 2 ^ k) (drop n x)))) as Ht
    by (rewrite Hcvs; apply (tree_of_app _ _ k); lia).
  destruct (compress_subtree_top iv x counter) as (a & a' & -> & Htop & Ha & Ha'); [lia..|].
  rewrite Ht in Htop. simpl in Htop. injection Htop as <- <-.
  eexists _, _. split_and!; [done|done|done|done|done|done|done|]. by rewrite Hv1, Hv2, <-Hcvs.
Qed.

Lemma cv_halves a a' : is_hash a → is_hash a' → left_cv (a ++ a') = a ∧ right_cv (a ++ a') = a'.
Proof.
  intros Ha Ha'. unfold left_cv, right_cv, is_hash in *.
  rewrite take_app_length', drop_app_length' by done. split; [done|]. by rewrite take_ge by lia.
Qed.

(** The piece of the input that a turn of the loop takes. *)
Definition push_piece (subtree_len counter : Z) (piece : Bytes) : M BlockHasher unit :=
  if bool_decide (subtree_len ≤ 1024) then
    bh_push_cv (chaining_value (chunk_output (chunk_update (chunk_new key counter flags) piece))) counter
  else
    cv_pair ← unwrap (compress_subtree_to_parent_node piece key counter flags);
    bh_push_cv (left_cv cv_pair) counter;;
    bh_push_cv (right_cv cv_pair) (counter +[64] subtree_len / 1024 / 2).

Lemma forest_nonempty k (F : list (tree Bytes)) c : 0 ≤ k → forest k F c → 0 < c → (1 ≤ length F)%nat.
Proof.
  intros Hk HF Hc. pose proof (forest_ones k F c Hk HF). pose proof (count_ones_bound c ltac:(lia)) as [_ H1].
  specialize (H1 Hc). unfold zlength in *. lia.
Qed.

Lemma push_piece_run n d F k q x :
  between n d F → 0 ≤ k ≤ 8 → n = 2 ^ k * q → n + 2 ^ k ≤ 256 → zlength x = 1024 * 2 ^ k →
  let s := chunk_new key (b + n) flags in
  ∃ F', push_piece (1024 * 2 ^ k) (b + n) x (hasher s F) = Some (tt, hasher s F') ∧
    between (n + 2 ^ k) (d ++ x) F' ∧ (1 ≤ k → (2 ≤ length F')%nat).
Proof.
  intros (Hd & Hn & HF & Hl) Hk Hq Hnk Hx s. assert (1 ≤ 2 ^ k) by (apply (Z.pow_le_mono_r 2 0); lia).
  assert (2 ^ k ≤ 2 ^ 8) by (apply Z.pow_le_mono_r; lia).
  pose proof (cvs_snoc n d x Hd) as Hcvs.
  assert (zlength (d ++ x) = 1024 * (n + 2 ^ k)) as Hdx by (rewrite zlength_app; lia).
  unfold push_piece. destruct (decide (k = 0)) as [->|Hk0].
  - change (2 ^ 0) with 1 in *. rewrite bool_decide_true by lia.
    assert (chunk_cvs iv (b + n) x = [chunk_cv iv (b + n) x]) as Hone.
    { unfold chunk_cvs. rewrite chunks_short; [simpl; by rewrite Z.add_0_r| |].
      - intros ->. unfold zlength in Hx. simpl in Hx. lia.
      - unfold zlength, CHUNK_LEN in *. lia. }
    destruct (bh_push_run F n 0 n (Leaf (chunk_cv iv (b + n) x)) s) as (F' & Hp & Hfor & Hl');
      [done|done|lia|lia|lia|done|].
    exists (Leaf (chunk_cv iv (b + n) x) :: F'). split_and!; [exact Hp| |lia].
    split_and!; [done|lia|lia|by apply (lazy_push 0)|]. simpl. by rewrite Hl', Hl, Hcvs, Hone.
  - assert (2 ^ k = 2 * 2 ^ (k - 1)) as H2k by (rewrite <-Z.pow_succ_r by lia; f_equal; lia).
    assert (1 ≤ 2 ^ (k - 1)) by (apply (Z.pow_le_mono_r 2 0); lia).
    rewrite bool_decide_false by lia.
    destruct (pair_trees (b + n) x (k - 1)) as (t1 & t2 & Hc & Ha1 & Ha2 & _ & _ & Ht1 & Ht2 & Hlv); [lia..|].
    unfold_M. rewrite Hc. cbn [unwrap]. unfold_M.
    destruct (cv_halves _ _ Ha1 Ha2) as [-> ->].
    destruct (bh_push_run F n (k - 1) (2 * q) t1 s) as (F1 & Hp1 & Hfor1 & Hl1); [done|done|lia|lia|lia|done|].
    rewrite Hp1. replace (1024 * 2 ^ k / 1024 / 2) with (2 ^ (k - 1)).
    2: { rewrite Z.mul_comm, Z.div_mul, H2k, Z.mul_comm, Z.div_mul by lia. done. }
    rewrite wrap_small, <-Z.add_assoc by (unfold in_width; lia).
    destruct (bh_push_run (t1 :: F1) (n + 2 ^ (k - 1)) (k - 1) (2 * q + 1) t2 s) as (F2 & Hp2 & Hfor2 & Hl2);
      [done|apply lazy_push; [lia|done|done]|lia|lia|lia|done|].
    rewrite Hp2. exists (t2 :: F2). split_and!; [done| |].
    + split_and!; [done|lia|lia| |].
      * replace (n + 2 ^ k) with (n + 2 ^ (k - 1) + 2 ^ (k - 1)) by lia. apply lazy_push; [lia|done|done].
      * simpl. rewrite Hl2. simpl. rewrite Hl1, Hl, Hcvs, <-Hlv, app_assoc. done.
    + intros _. pose proof (forest_nonempty (k - 1) F2 _ ltac:(lia) Hfor2 ltac:(lia)). simpl. lia.
Qed.
(** The subtree that the loop takes next starts at a multiple of its size. *)
Lemma next_subtree n (x : Bytes) :
  0 ≤ n → 1024 < zlength x → 1024 * n + zlength x ≤ 1024 * 256 →
  ∃ k q, shrink 64 (largest_power_of_two_leq (zlength x)) (wrap 64 ((b + n) * 1024))
      = Some (1024 * 2 ^ k) ∧
    0 ≤ k ≤ 8 ∧ n = 2 ^ k * q ∧ 1024 * 2 ^ k ≤ zlength x.
Proof.
  intros Hn Hx Htot. rewrite wrap_small by (unfold in_width; lia).
  destruct (largest_power_of_two_leq_spec (zlength x)) as (a & Ha & -> & Hax); [lia|].
  assert (10 ≤ a < 19) as Ha'.
  { split; [|apply (Z.pow_lt_mono_r_iff 2); [lia..|]; change (2 ^ 19) with 524288; lia].
    apply Z.lt_succ_r, (Z.pow_lt_mono_r_iff 2); [lia..|]. rewrite Z.pow_succ_r by lia.
    change (2 ^ 10) with 1024. lia. }
  destruct (shrink_spec 64 a ((b + n) * 1024)) as (i & -> & Hi & Hd); [lia|lia|lia|lia| |].
  { by apply Z.mod_mul. }
  exists (i - 10). assert (2 ^ i = 1024 * 2 ^ (i - 10)) as Hpi.
  { change 1024 with (2 ^ 10). rewrite <-Z.pow_add_r by lia. f_equal. lia. }
  assert (2 ^ i ≤ 2 ^ a) by (apply Z.pow_le_mono_r; lia).
  assert (i ≤ 18) by lia. assert (0 < 2 ^ (i - 10)) by (apply Z.pow_pos_nonneg; lia).
  apply Z.mod_divide in Hd as [c Hc]; [|lia]. apply Z.mod_divide in Hb256 as [b' Hb']; [|lia].
  assert (256 = 2 ^ (i - 10) * 2 ^ (18 - i)) as H256.
  { rewrite <-Z.pow_add_r by lia. replace (i - 10 + (18 - i)) with 8 by lia. done. }
  exists (c - 2 ^ (18 - i) * b'). split_and!; [by rewrite Hpi|lia|lia| |lia].
  assert (b + n = 2 ^ (i - 10) * c) by nia.
  assert (b = 2 ^ (i - 10) * (2 ^ (18 - i) * b')) by (rewrite Z.mul_assoc, <-H256; lia). lia.
Qed.

Lemma bh_subtrees_run fuel n d F x :
  between n d F → zlength d + zlength x ≤ 1024 * 256 → (length x ≤ fuel)%nat →
  ∃ n' y rest F', x = y ++ rest ∧ zlength rest ≤ 1024 ∧
    bh_subtrees fuel x (hasher (chunk_new key (b + n) flags) F)
    = Some (rest, hasher (chunk_new key (b + n') flags) F') ∧
    between n' (d ++ y) F' ∧ (rest = [] → (x = [] ∧ F' = F) ∨ (2 ≤ length F')%nat).
Proof.
  revert n d F x. induction fuel as [|fuel IH]; intros n d F x Hmid Htot Hf.
  { destruct x; [|simpl in Hf; lia]. exists n, [], [], F. rewrite (app_nil_r d).
    cbn [bh_subtrees]. rewrite bool_decide_false by (cbn [length]; lia).
    do 4 (split; [done|]). by left. }
  cbn [bh_subtrees]. pose proof Hmid as (Hd & Hn & _). case_bool_decide as Hx.
  2: { exists n, [], x, F. rewrite (app_nil_r d). unfold zlength, CHUNK_LEN in *.
       split; [done|]. split; [lia|]. do 2 (split; [done|]). by left. }
  assert (1024 < zlength x) by (unfold zlength, CHUNK_LEN in *; lia).
  destruct (next_subtree n x) as (k & q & Hshrink & Hk & Hq & Hkx); [lia..|].
  unfold_M. cbn [hasher bh_iv bh_chunk_state cs_chunk_counter chunk_new]. rewrite Hshrink.
  cbn [unwrap]. unfold_M. change (cs_flags (chunk_new key (b + n) flags)) with flags.
  assert (1 ≤ 2 ^ k) by (apply (Z.pow_le_mono_r 2 0); lia).
  set (len := Z.to_nat (1024 * 2 ^ k)).
  assert (zlength (take len x) = 1024 * 2 ^ k) as Hp by (unfold zlength, len in *; rewrite length_take; lia).
  assert (zlength (drop len x) = zlength x - 1024 * 2 ^ k) as Hr by (unfold zlength, len in *; rewrite length_drop; lia).
  destruct (push_piece_run n d F k q (take len x)) as (F1 & Hrun & Hmid1 & Hlen1); [done|done|done|lia|done|].
  unfold push_piece in Hrun. unfold_M. rewrite Hrun.
  cbn [hasher bh_chunk_state cs_chunk_counter chunk_new].
  rewrite Z.mul_comm, Z.div_mul, wrap_small by (unfold in_width; lia).
  destruct (IH (n + 2 ^ k) (d ++ take len x) F1 (drop len x)) as (n' & y & rest & F' & Hx' & Hrest & Hrun' & Hmid' & Hlen');
    [done|rewrite zlength_app; lia|unfold zlength in *; lia|].
  exists n', (take len x ++ y), rest, F'. rewrite <-app_assoc, <-Hx', take_drop, app_assoc.
  rewrite Z.add_assoc in Hrun'. do 4 (split; [done|]).
  intros Hnil. right. destruct (Hlen' Hnil) as [[He ->]|?]; [|done]. apply Hlen1.
  rewrite He in Hr. unfold zlength in *. simpl in Hr.
  destruct (decide (k = 0)) as [->|]; [|lia]. change (2 ^ 0) with 1 in *. lia.
Qed.
(** ** Updates *)

(** The hasher after the bytes [d]: [n] whole chunks [d0] on the stack and the
    bytes [p] of the last chunk; the stack is merged when there are any. *)
Definition block_inv (d : Bytes) (s : BlockHasher) : Prop :=
  ∃ n d0 p F, d = d0 ++ p ∧ zlength d0 = 1024 * n ∧ 0 ≤ n ∧ zlength d ≤ 1024 * 256 ∧
    zlength p ≤ 1024 ∧ s = hasher (chunk_after (b + n) p) F ∧
    forest_leaves F = chunk_cvs iv b d0 ∧ (p ≠ [] → forest 0 F n) ∧
    (p = [] → (d0 = [] ∧ F = []) ∨ (lazy_forest F n ∧ (2 ≤ length F)%nat)).

Lemma bh_consume_run n d F x :
  between n d F → zlength d + zlength x ≤ 1024 * 256 →
  (x = [] → (d = [] ∧ F = []) ∨ (2 ≤ length F)%nat) →
  ∃ s', bh_consume x (hasher (chunk_new key (b + n) flags) F) = Some (tt, s') ∧ block_inv (d ++ x) s'.
Proof.
  intros Hmid Htot Hnil. unfold bh_consume. unfold_M.
  destruct (bh_subtrees_run (length x) n d F x Hmid Htot ltac:(lia))
    as (n' & y & rest & F' & Hx & Hrest & -> & Hmid' & Hlen).
  destruct Hmid' as (Hd' & Hn' & HF' & Hl'). destruct rest as [|c rest].
  - rewrite app_nil_r in Hx. subst y. eexists. split; [done|].
    exists n', (d ++ x), [], F'. rewrite app_nil_r, zlength_app. split_and!; [done|by rewrite <-zlength_app|lia..|done|done|done|].
    intros _. destruct (Hlen eq_refl) as [[-> ->]|H2]; [|by right].
    destruct (Hnil eq_refl) as [[-> ->]|H2]; [by left|by right].
  - cbn iota. assert (c :: rest ≠ []) as Hp by done. set (p := c :: rest) in *. clearbody p.
    pose proof (f_equal zlength Hx) as Hxl. rewrite zlength_app in Hxl. rewrite zlength_app in Hd'.
    assert (0 < zlength p) by (destruct p; [done|unfold zlength; simpl; lia]).
    destruct (chunk_after_fields (b + n') p) as (Hcc & Hcf & _); [unfold zlength in *; lia|].
    destruct (bh_merge_run F' n' (chunk_after (b + n') p) Hcf HF') as (F2 & Hm & HF2 & Hl2); [lia|].
    unfold_M. cbn [hasher bh_with_chunk bh_chunk_state bh_iv bh_cv_stack].
    change (chunk_update (chunk_new key (b + n') flags) p) with (chunk_after (b + n') p).
    rewrite Hcc. change (bh_with_chunk ?s (hasher ?s0 F')) with (hasher s F'). rewrite Hm. eexists. split; [done|].
    exists n', (d ++ y), p, F2. rewrite <-app_assoc, <-Hx, !zlength_app.
    split_and!; [done|lia|lia|lia|done|done|by rewrite Hl2|done|done].
Qed.
Lemma chunk_cvs_one counter x : x ≠ [] → zlength x ≤ 1024 → chunk_cvs iv counter x = [chunk_cv iv counter x].
Proof.
  intros Hne Hx. unfold chunk_cvs. rewrite chunks_short; [simpl; by rewrite Z.add_0_r|done|].
  unfold zlength, CHUNK_LEN in *. lia.
Qed.

(** The last chunk is filled, and goes to the stack. *)
Lemma fill_chunk n d0 p F :
  zlength d0 = 1024 * n → zlength p = 1024 → 0 ≤ n < 256 → forest 0 F n →
  forest_leaves F = chunk_cvs iv b d0 →
  ∃ F', bh_push_cv (chunk_cv iv (b + n) p) (b + n) (hasher (chunk_after (b + n) p) F)
    = Some (tt, hasher (chunk_after (b + n) p) F') ∧ between (n + 1) (d0 ++ p) F'.
Proof.
  intros Hd Hp Hn HF Hl. destruct (chunk_after_fields (b + n) p) as (_ & Hcf & _); [unfold zlength in *; lia|].
  destruct (bh_push_run F n 0 n (Leaf (chunk_cv iv (b + n) p)) (chunk_after (b + n) p))
    as (F' & Hrun & HF' & Hl'); [done|by apply forest_lazy|lia|lia|lia|done|].
  exists (Leaf (chunk_cv iv (b + n) p) :: F'). split; [exact Hrun|].
  split_and!; [rewrite zlength_app; lia|lia|lia|by apply (lazy_push 0)|].
  simpl. rewrite Hl', Hl, (cvs_snoc n), (chunk_cvs_one (b + n) p); [done| |lia|done].
  intros ->. unfold zlength in Hp. simpl in Hp. lia.
Qed.

Lemma bh_update_run d s x :
  block_inv d s → zlength d + zlength x ≤ 1024 * 256 →
  ∃ s', bh_update x s = Some (tt, s') ∧ block_inv (d ++ x) s'.
Proof.
  intros (n & d0 & p & F & -> & Hd0 & Hn & Hd & Hp & -> & Hl & Hpne & Hpnil) Htot.
  rewrite zlength_app in *. pose proof (zlength_nonneg x).
  destruct (chunk_after_fields (b + n) p) as (Hcc & Hcf & Hcl); [unfold zlength in *; lia|].
  unfold bh_update. unfold_M. cbn [hasher bh_chunk_state]. rewrite Hcl. case_bool_decide as Hpos.
  - assert (p ≠ []) as Hne by (intros ->; by unfold zlength in Hpos). specialize (Hpne Hne).
    set (tk := Nat.min (CHUNK_LEN - Z.to_nat (zlength p)) (length x)).
    rewrite chunk_after_app. unfold_M.
    change (bh_with_chunk ?s (hasher ?s0 F)) with (hasher s F).
    destruct (drop tk x) as [|c rest] eqn:Hrest.
    + assert (take tk x = x) as -> by (rewrite <-(take_drop tk x) at 2; by rewrite Hrest, app_nil_r).
      assert (length x ≤ tk)%nat.
      { apply (f_equal length) in Hrest. rewrite length_drop in Hrest. simpl in Hrest. lia. }
      eexists. split; [done|]. exists n, d0, (p ++ x), F. rewrite app_assoc, !zlength_app.
      unfold tk, CHUNK_LEN in *; unfold zlength in *. split_and!; [done|lia..|done|done|done|]. by destruct p.
    + set (p' := p ++ take tk x) in *.
      assert (zlength p' = 1024) as Hp'.
      { apply (f_equal length) in Hrest. rewrite length_drop in Hrest. simpl in Hrest.
        unfold p', tk, CHUNK_LEN in *; unfold zlength in *. rewrite length_app, length_take. lia. }
      assert (zlength x = zlength (take tk x) + zlength (c :: rest)) as Hxl
        by (rewrite <-zlength_app, <-Hrest, take_drop; done).
      assert (zlength p' = zlength p + zlength (take tk x)) as Hpl by (unfold p'; by rewrite zlength_app).
      assert (0 < zlength (c :: rest)) by (unfold zlength; simpl; lia).
      destruct (chunk_after_fields (b + n) p') as (Hcc' & Hcf' & _); [unfold zlength in *; lia|].
      destruct (fill_chunk n d0 p' F) as (F' & Hrun & Hmid); [done|done|lia|done|done|].
      unfold_M. cbn [hasher bh_chunk_state bh_iv]. rewrite Hcc', Hcf'. rewrite chunk_cv_after.
      rewrite Hrun. rewrite wrap_small by (unfold in_width; lia).
      unfold_M. change (bh_with_chunk ?s (hasher ?s0 F')) with (hasher s F').
      destruct (bh_consume_run (n + 1) (d0 ++ p') F' (c :: rest)) as (s' & Hcons & Hinv);
        [done|rewrite zlength_app; lia|done|].
      rewrite Z.add_assoc in Hcons. rewrite Hcons. exists s'. split; [done|].
      rewrite <-!app_assoc in *. unfold p' in Hinv. rewrite <-app_assoc, <-Hrest, take_drop in Hinv. done.
  - assert (p = []) as -> by (destruct p; [done|unfold zlength in Hpos; simpl in Hpos; lia]).
    rewrite app_nil_r in *. rewrite chunk_after_nil.
    apply bh_consume_run; [|unfold zlength in *; simpl in *; lia|].
    + split_and!; [done|lia|unfold zlength in *; simpl in *; lia| |done].
      destruct (Hpnil eq_refl) as [[-> ->]|[? _]]; [|done]. left. split; [done|]. unfold zlength in Hd0. simpl in Hd0. lia.
    + intros _. destruct (Hpnil eq_refl) as [?|[_ ?]]; [by left|by right].
Qed.
(** ** The output of a block *)

(** The output of the root of a tree, before it is known to be a root. *)
Definition outputs (o : Output) (t : tree Bytes) : Prop :=
  chaining_value o = root_of m false t ∧
  match t with
  | Leaf _ => True
  | Node l r => o = parent_node_output (root_of m false l) (root_of m false r) key flags
  end.

Lemma outputs_parent o t1 t :
  outputs o t → outputs (parent_node_output (root_of m false t1) (chaining_value o) key flags) (Node t1 t).
Proof. intros [Ho _]. rewrite Ho. done. Qed.

Lemma outputs_root o t l r : outputs o t → t = Node l r → root_hash o = root_of m true t.
Proof. intros Ho ->. destruct Ho as [_ ->]. done. Qed.

Lemma bh_fold_join F t o : outputs o t → outputs (bh_fold key flags (roots m F) o) (join_trees F t).
Proof.
  revert t o. induction F as [|t1 F IH]; intros t o Ho; [done|].
  cbn [roots fmap list_fmap bh_fold foldl join_trees]. by apply IH, outputs_parent.
Qed.

Lemma tree_of_join k F c t :
  forest k F c → 0 ≤ k → c < 2 ^ 60 → shaped t → count t ≤ 2 ^ k → c + 2 ^ k < 2 ^ 61 →
  join_trees F t = tree_of (forest_leaves F ++ leaves t).
Proof.
  intros HF Hk Hc Hs Ht Hb'. destruct (join_trees_shaped k F c t HF Hk Hc Hs Ht) as [Hs' Hl].
  rewrite <-Hl. symmetry. apply tree_of_unique; [done|].
  assert (count (join_trees F t) = c + count t) as ->; [|lia].
  unfold count. rewrite Hl, zlength_app. f_equal. clear -HF.
  induction HF as [k|k F c _ IH|k t1 F c [_ Hc] _ IH]; [done|done|].
  simpl. rewrite zlength_app, IH. unfold count in Hc. lia.
Qed.

Lemma bh_final_run d s :
  block_inv d s →
  if bool_decide (zlength d ≤ 1024) then bh_final_output s = Some (chunk_output (chunk_after b d))
  else ∃ o, bh_final_output s = Some o ∧ outputs o (tree_of (chunk_cvs iv b d)).
Proof.
  intros (n & d0 & p & F & -> & Hd0 & Hn & Hd & Hp & -> & Hl & Hpne & Hpnil).
  rewrite zlength_app in *. pose proof (zlength_nonneg p).
  destruct (chunk_after_fields (b + n) p) as (_ & Hcf & Hcl); [unfold zlength in *; lia|].
  unfold bh_final_output. cbn [hasher bh_chunk_state bh_cv_stack bh_iv]. rewrite Hcf, Hcl.
  destruct (decide (p = [])) as [->|Hne].
  - rewrite app_nil_r. change (zlength []) with 0 in *.
    destruct (Hpnil eq_refl) as [[-> ->]|[HF H2]].
    { rewrite bool_decide_true by (change (zlength []) with 0; lia). cbn [roots fmap list_fmap].
      do 3 f_equal. unfold zlength in Hd0. simpl in Hd0. lia. }
    destruct HF as [[-> ?]|(k & t & F' & Hk & -> & [Hst Hct] & HF)]; [simpl in H2; lia|].
    destruct F' as [|t1 F']; [simpl in H2; lia|].
    assert (0 < 2 ^ k) by (apply Z.pow_pos_nonneg; lia).
    pose proof (forest_nonneg k _ _ Hk HF).
    assert (n - 2 ^ k ≠ 0).
    { intros Hz0. rewrite Hz0 in HF. pose proof (forest_ones k _ _ Hk HF) as Hz.
      rewrite zlength_cons in Hz. pose proof (zlength_nonneg F'). simpl in Hz. lia. }
    rewrite bool_decide_false by lia. cbn [roots fmap list_fmap].
    rewrite bool_decide_false by lia. eexists. split; [done|].
    assert (tree_of (chunk_cvs iv b d0) = join_trees F' (Node t1 t)) as ->; [|by apply bh_fold_join].
    rewrite <-Hl. simpl forest_leaves. change (forest_leaves F' ++ leaves t1) with (forest_leaves (t1 :: F')).
    rewrite <-(tree_of_join k (t1 :: F') (n - 2 ^ k) t); [done|done|done|lia|done|lia|lia].
  - specialize (Hpne Hne). assert (0 < zlength p) by (destruct p; [done|unfold zlength; simpl; lia]).
    rewrite (bool_decide_true (zlength p > 0)) by lia.
    destruct F as [|t F].
    + assert (n = 0) as ->. { pose proof (forest_ones 0 [] n ltac:(lia) Hpne) as Hz.
        pose proof (count_ones_bound n ltac:(lia)). change (zlength (@nil (tree Bytes))) with 0 in Hz. lia. }
      assert (d0 = []) as -> by (destruct d0; [done|unfold zlength in Hd0; simpl in Hd0; lia]).
      rewrite bool_decide_true by (change (zlength []) with 0; lia). by rewrite Z.add_0_r.
    + assert (n ≠ 0).
      { intros ->. pose proof (forest_ones 0 _ 0 ltac:(lia) Hpne) as Hz.
        rewrite zlength_cons in Hz. pose proof (zlength_nonneg F). simpl in Hz. lia. }
      rewrite bool_decide_false by lia. eexists. split; [done|].
      assert (tree_of (chunk_cvs iv b (d0 ++ p)) = join_trees (t :: F) (Leaf (chunk_cv iv (b + n) p))) as ->;
        [|by apply (bh_fold_join (t :: F))].
      rewrite (cvs_snoc n), (chunk_cvs_one (b + n) p), <-Hl by done.
      symmetry. apply (tree_of_join 0 _ n); [done|lia|lia|done|done|lia].
Qed.

Lemma bh_len_run d s : block_inv d s → bh_len s = zlength d.
Proof.
  intros (n & d0 & p & F & -> & Hd0 & Hn & Hd & Hp & -> & Hl & Hpne & Hpnil).
  rewrite zlength_app in *. pose proof (zlength_nonneg p).
  destruct (chunk_after_fields (b + n) p) as (Hcc & _ & Hcl); [unfold zlength in *; lia|].
  unfold bh_len. cbn [hasher bh_chunk_state bh_cv_stack]. rewrite Hcc, Hcl, Hd0.
  destruct (decide (n = 256)) as [->|Hn256].
  - assert (p = []) as -> by (destruct p; [done|unfold zlength in *; simpl in *; lia]).
    destruct (Hpnil eq_refl) as [[-> _]|[_ H2]]; [unfold zlength in *; simpl in *; lia|].
    assert (Z.land (b + 256) TREE_BLOCK_SIZE_IN_CHUNK_MOD_MASK = 0) as ->.
    { change TREE_BLOCK_SIZE_IN_CHUNK_MOD_MASK with (Z.ones 8). rewrite Z.land_ones by lia.
      change (2 ^ 8) with 256. rewrite Z.add_mod, Hb256 by lia. done. }
    destruct F; [simpl in H2; lia|]. done.
  - rewrite mask_counter by lia. destruct (decide (n = 0)) as [->|Hn0].
    + assert (F = []) as ->; [|simpl; lia].
      destruct (decide (p = [])) as [->|Hne].
      * destruct (Hpnil eq_refl) as [[_ ->]|[HF H2]]; [done|].
        destruct HF as [[-> _]|(k & t & F' & Hk & -> & _ & HF)]; [done|].
        pose proof (forest_nonneg k _ _ Hk HF). assert (0 < 2 ^ k) by (apply Z.pow_pos_nonneg; lia). lia.
      * pose proof (forest_ones 0 _ 0 ltac:(lia) (Hpne Hne)) as Hz. destruct F; [done|].
        rewrite zlength_cons in Hz. pose proof (zlength_nonneg F). simpl in Hz. lia.
    + rewrite bool_decide_false by done. simpl. lia.
Qed.

Lemma block_inv_start : block_inv [] (hasher (chunk_new key b flags) []).
Proof.
  exists 0, [], [], []. rewrite Z.add_0_r, chunk_after_nil. change (zlength []) with 0.
  split_and!; [done|lia..|done|done|done|by left].
Qed.

(** The next block starts with a new hasher. *)
Lemma bh_next_run d s :
  block_inv d s → zlength d = 1024 * 256 →
  bh_move_to_next_block s = hasher (chunk_new key (b + 256) flags) [].
Proof.
  intros (n & d0 & p & F & -> & Hd0 & Hn & Hd & Hp & -> & Hl & Hpne & Hpnil) Hfull.
  rewrite zlength_app in *. pose proof (zlength_nonneg p).
  destruct (chunk_after_fields (b + n) p) as (Hcc & Hcf & Hcl); [unfold zlength in *; lia|].
  unfold bh_move_to_next_block. cbn [hasher bh_chunk_state bh_iv]. rewrite Hcc, Hcf.
  rewrite (wrap_small 64 (b + n + 1)) by (unfold in_width; lia).
  assert (n = 255 ∨ n = 256) as Hn' by lia.
  assert (b + n + 1 -[64] Z.land (b + n + 1) TREE_BLOCK_SIZE_IN_CHUNK_MOD_MASK = b + 256) as ->; [|done].
  change TREE_BLOCK_SIZE_IN_CHUNK_MOD_MASK with (Z.ones 8). rewrite Z.land_ones by lia.
  change (2 ^ 8) with 256.
  assert ((b + n + 1) mod 256 = n - 255) as ->.
  { rewrite <-Z.add_assoc, Z.add_mod, Hb256, Z.add_0_l, Z.mod_mod by lia.
    destruct Hn' as [-> | ->]; done. }
  rewrite wrap_small by (unfold in_width; lia). lia.
Qed.
Lemma block_inv_nil s : block_inv [] s → s = hasher (chunk_new key b flags) [].
Proof.
  intros (n & d0 & p & F & Hd & Hd0 & Hn & _ & _ & -> & _ & _ & Hpnil).
  symmetry in Hd. apply app_eq_nil in Hd as [-> ->].
  destruct (Hpnil eq_refl) as [[_ ->]|[HF H2]].
  - assert (n = 0) as -> by (unfold zlength in Hd0; simpl in Hd0; lia). by rewrite Z.add_0_r.
  - unfold zlength in Hd0. simpl in Hd0. assert (n = 0) as -> by lia.
    destruct HF as [[-> _]|(k & t & F' & Hk & -> & _ & HF)]; [simpl in H2; lia|].
    pose proof (forest_nonneg k _ _ Hk HF). assert (0 < 2 ^ k) by (apply Z.pow_pos_nonneg; lia). lia.
Qed.

Lemma block_inv_fields d s :
  block_inv d s → bh_iv s = iv ∧ cs_flags (bh_chunk_state s) = flags.
Proof.
  intros (n & d0 & p & F & _ & _ & _ & _ & Hp & -> & _). split; [done|].
  apply (chunk_after_fields (b + n) p). unfold zlength in *. lia.
Qed.
End block.
