(* ===== verification/ContentHash.v ===== *)
(** * ContentHash: the hash of a content that arrives in pieces

    [Blake3Hasher] of [lib/b3fs/src/hasher/byte_hasher/mod.rs]: the hash and the
    array of the tree over the blocks of 256 KiB do not depend on how the content
    is cut into updates. *)

From S2P Require Import Prelude Types Codec HashTree ProofBuf Blake3 Blake3Tree Forest ByteHasher ByteTree.
From stdpp Require Import base list.
From Stdlib Require Import ZArith Lia.
Open Scope Z_scope.

Section content.
Context {P : Platform} {PL : PlatformLaws P} (iv : IV).
#[local] Abbreviation key := (iv_key iv).
#[local] Abbreviation flags := (iv_flags iv).
#[local] Abbreviation m := (iv_merge iv).
#[local] Abbreviation BB := TREE_BLOCK_SIZE_BYTES.
#[local] Arguments iv_merge : simpl never.
#[local] Arguments compress_in_place : simpl never.

(** The numbers are kept abstract: as natural numbers they are unary. *)
Lemma BB_val : BB = 262144.
Proof. reflexivity. Qed.

#[local] Opaque TREE_BLOCK_SIZE_BYTES.

(** ** The tree over the blocks *)

Definition block_size : nat := Z.to_nat BB.

Definition block_cv (i : Z) (x : Bytes) : Bytes :=
  root_of m false (tree_of (chunk_cvs iv (256 * i) x)).

Definition block_cvs (i0 : Z) (x : Bytes) : list Bytes :=
  imap (λ i x, block_cv (i0 + Z.of_nat i) x) (pieces_of block_size x).

Lemma block_size_pos : (0 < block_size)%nat.
Proof. unfold block_size. pose proof BB_val. lia. Qed.

Lemma block_size_Z : Z.of_nat block_size = BB.
Proof. unfold block_size. apply Z2Nat.id. by rewrite BB_val. Qed.

#[local] Opaque block_size.

Lemma block_cvs_app n i0 x y :
  0 ≤ n → zlength x = BB * n →
  block_cvs i0 (x ++ y) = block_cvs i0 x ++ block_cvs (i0 + n) y ∧ zlength (block_cvs i0 x) = n.
Proof.
  intros Hn Hx. unfold block_cvs.
  destruct (pieces_app block_size block_size_pos (Z.to_nat n) x y) as [-> Hl].
  { unfold zlength in Hx. rewrite <-block_size_Z in Hx. nia. }
  rewrite imap_app, Hl. split.
  - f_equal. apply imap_ext. intros i z _. simpl. f_equal. lia.
  - unfold zlength. rewrite length_imap, Hl. lia.
Qed.

Lemma block_cvs_count i x : zlength (block_cvs i x) = (zlength x + 262143) / 262144.
Proof.
  pose proof (pieces_count block_size block_size_pos x) as Hc. rewrite block_size_Z, BB_val in Hc.
  unfold block_cvs, zlength in *. by rewrite length_imap, Hc.
Qed.

Lemma block_cvs_one i x : x ≠ [] → zlength x ≤ BB → block_cvs i x = [block_cv i x].
Proof.
  intros Hne Hx. unfold block_cvs. rewrite pieces_short; [simpl; by rewrite Z.add_0_r|apply block_size_pos|done|].
  unfold zlength in Hx. rewrite <-block_size_Z in Hx. lia.
Qed.

(** The tree over the blocks and the tree over the chunks have one root. *)
Lemma block_chunk_top i x :
  0 ≤ i → x ≠ [] → zlength x < 2 ^ 60 →
  root_of m false (tree_of (block_cvs i x)) = root_of m false (tree_of (chunk_cvs iv (256 * i) x)) ∧
  (BB < zlength x → top_pair m (tree_of (block_cvs i x)) = top_pair m (tree_of (chunk_cvs iv (256 * i) x)) ∧
   top_pair m (tree_of (block_cvs i x)) ≠ None).
Proof.
  remember (length x) as n eqn:Hn. revert i x Hn.
  induction (Nat.lt_wf_0 n) as [n _ IH]. intros i x -> Hi Hne Hx. pose proof BB_val as HBB. rewrite HBB in *.
  destruct (decide (zlength x ≤ 262144)) as [Hs|Hs].
  { rewrite block_cvs_one by (done || lia). split; [done|lia]. }
  pose proof (Z.div_mod (zlength x - 1) 262144 ltac:(lia)).
  pose proof (Z.mod_pos_bound (zlength x - 1) 262144 ltac:(lia)).
  destruct (largest_power_of_two_leq_spec ((zlength x - 1) / 262144)) as (k & Hk & _ & Hkb); [lia|].
  assert (1 ≤ 2 ^ k) by (apply (Z.pow_le_mono_r 2 0); lia).
  assert (k < 42) by (apply (Z.pow_lt_mono_r_iff 2); lia).
  assert (2 ^ (k + 8) = 256 * 2 ^ k) as Hk8 by (rewrite Z.pow_add_r by lia; change (2 ^ 8) with 256; lia).
  destruct (split_cvs iv (256 * i) x (k + 8)) as (Hl1 & Hl2 & Hcvs & Hn1 & Hn2); [lia|lia|].
  set (x1 := take (Z.to_nat (1024 * 2 ^ (k + 8))) x) in *.
  set (x2 := drop (Z.to_nat (1024 * 2 ^ (k + 8))) x) in *.
  assert (x = x1 ++ x2) as Hx12 by (unfold x1, x2; by rewrite take_drop).
  assert (x1 ≠ [] ∧ x2 ≠ []) as [Hx1 Hx2].
  { split; intros He; rewrite He in *; unfold zlength in *; simpl in *; lia. }
  destruct (block_cvs_app (2 ^ k) i x1 x2) as [Hb Hbn]; [lia|lia|].
  assert (1 ≤ zlength (block_cvs (i + 2 ^ k) x2) ≤ 2 ^ k) as Hbn2.
  { rewrite block_cvs_count. split; [apply Z.div_le_lower_bound; lia|].
    apply Z.lt_succ_r, Z.div_lt_upper_bound; lia. }
  destruct (IH (length x1)) with (i := i) (x := x1) as [Hr1 _];
    [rewrite Hx12, length_app; destruct x2; [done|simpl; lia]|done|done|done|lia|].
  destruct (IH (length x2)) with (i := i + 2 ^ k) (x := x2) as [Hr2 _];
    [rewrite Hx12, length_app; destruct x1; [done|simpl; lia]|done|lia|done|lia|].
  rewrite Hcvs. rewrite Hx12 at 1 3 4. rewrite Hb.
  rewrite (tree_of_app (block_cvs i x1) _ k), (tree_of_app (chunk_cvs iv (256 * i) x1) _ (k + 8)) by lia.
  replace (256 * i + 2 ^ (k + 8)) with (256 * (i + 2 ^ k)) by lia.
  simpl. rewrite Hr1, Hr2. done.
Qed.
(** ** The stack of blocks *)

(** A block hasher before the first byte of block [k]. *)
Definition fresh (k : Z) : BlockHasher := hasher iv (chunk_new key (256 * k) flags) [].

(** The hasher with the blocks of a forest on its stack, [k] of them. *)
Definition content (bs : BlockHasher) (F : list (tree Bytes)) (k : Z) : Blake3Hasher (list Bytes) :=
  mkBlake3Hasher bs (roots m F) k (posts m F).

Definition keyed (bs : BlockHasher) : Prop := bh_iv bs = iv ∧ cs_flags (bh_chunk_state bs) = flags.

Lemma keyed_fresh k : keyed (fresh k).
Proof. done. Qed.

Lemma content_roots F : zlength (roots m F) = zlength F.
Proof. unfold roots, zlength. by rewrite length_fmap. Qed.

Lemma h_merge_loop_run fuel n F F' bs k :
  keyed bs → merge_to fuel n F = Some F' →
  h_merge_loop fuel n (content bs F k) = Some (tt, content bs F' k).
Proof.
  intros [Hiv Hfl]. revert F. induction fuel as [|fuel IH]; intros F Hm; cbn [merge_to h_merge_loop] in *;
    unfold_M; cbn [content h_cv_stack h_tree] in *; rewrite content_roots;
    case_bool_decide; simplify_eq; try done.
  destruct F as [|t2 [|t1 F]]; [done..|]. cbn [roots fmap list_fmap]. unfold_M.
  unfold h_key, h_flags. cbn [content h_block_state]. rewrite Hiv, Hfl.
  rewrite <-(IH (Node t1 t2 :: F)) by done. unfold h_with_stack, content, push, vec_collector. simpl.
  rewrite <-!app_assoc. done.
Qed.

Lemma h_merge_run F k bs :
  keyed bs → lazy_forest F k → 0 ≤ k < 2 ^ 42 →
  ∃ F', h_merge_cv_stack (content bs F k) = Some (tt, content bs F' k) ∧ forest 0 F' k ∧
    forest_leaves F' = forest_leaves F.
Proof.
  intros Hk HF Hn. destruct (merge_to_lazy (length F) F k HF) as (F' & Hm & Hfor & Hl); [lia|done|].
  exists F'. split_and!; [|done|done]. unfold h_merge_cv_stack. unfold_M.
  cbn [content h_cv_stack h_block_counter]. unfold roots at 1. rewrite length_fmap.
  by apply h_merge_loop_run.
Qed.

Lemma h_push_run F k cv bs :
  keyed bs → lazy_forest F k → 0 ≤ k < 2 ^ 42 →
  ∃ F', h_push_cv cv (content bs F k) = Some (tt, content bs (Leaf cv :: F') (k + 1)) ∧ forest 0 F' k ∧
    forest_leaves F' = forest_leaves F.
Proof.
  intros Hbs HF Hk. destruct (h_merge_run F k bs Hbs HF Hk) as (F' & Hm & Hfor & Hl).
  exists F'. split_and!; [|done|done]. unfold h_push_cv. unfold_M. rewrite Hm. cbn [content h_cv_stack].
  pose proof (forest_length 0 F' k 42 Hfor ltac:(lia) ltac:(lia)) as Hlen.
  rewrite bool_decide_false.
  - unfold content. simpl. rewrite wrap_small by (unfold in_width; lia). done.
  - unfold roots. rewrite length_fmap. unfold zlength, TREE_STACK_SIZE in *. lia.
Qed.

(** ** Whole blocks *)

(** After [k] blocks with the bytes [d]. *)
Definition at_block (k : Z) (d : Bytes) (F : list (tree Bytes)) : Prop :=
  zlength d = BB * k ∧ 0 ≤ k ∧ lazy_forest F k ∧ forest_leaves F = block_cvs 0 d.

Lemma at_block_push k d F x F' :
  at_block k d F → zlength x = BB → forest 0 F' k → forest_leaves F' = forest_leaves F →
  at_block (k + 1) (d ++ x) (Leaf (block_cv k x) :: F').
Proof.
  intros (Hd & Hk & HF & Hl) Hx HF' Hl'. split_and!.
  - rewrite zlength_app. lia.
  - lia.
  - by apply (lazy_push 0).
  - simpl. destruct (block_cvs_app k 0 d x Hk Hd) as [-> _].
    rewrite Hl', Hl, (block_cvs_one (0 + k) x); [done| |lia].
    intros ->. rewrite BB_val in Hx. by unfold zlength in Hx.
Qed.

Lemma forest_stack (F : list (tree Bytes)) k : forest 0 F k → 0 < k → (1 ≤ length F)%nat.
Proof. intros HF Hk. by apply (forest_nonempty 0 F k). Qed.

Lemma advance_fresh k n F c :
  0 ≤ k < 2 ^ 42 → 0 ≤ n < 2 ^ 42 →
  h_advance (256 * n) (content (fresh k) F c) = Some (tt, content (fresh (k + n)) F c).
Proof.
  intros Hk Hn. unfold h_advance. unfold_M. do 2 f_equal. unfold content, h_with_block. simpl. f_equal.
  unfold fresh, bh_with_chunk, hasher, with_counter, chunk_new. simpl.
  rewrite wrap_small by (unfold in_width; lia). by rewrite Z.mul_add_distr_l.
Qed.

Lemma h_pairs_run fuel k d F x :
  at_block k d F → zlength d + zlength x < 2 ^ 60 → (length x ≤ fuel)%nat →
  ∃ k' y rest F', x = y ++ rest ∧ zlength rest < 2 * BB ∧
    h_pairs fuel x (content (fresh k) F k) = Some (rest, content (fresh k') F' k') ∧
    at_block k' (d ++ y) F' ∧ (rest = [] → (x = [] ∧ F' = F) ∨ (2 ≤ length F')%nat).
Proof.
  pose proof BB_val as HBB. revert k d F x. induction fuel as [|fuel IH]; intros k d F x Hmid Htot Hf.
  { destruct x; [|simpl in Hf; lia]. exists k, [], [], F. rewrite (app_nil_r d). cbn [h_pairs].
    rewrite bool_decide_false by (unfold zlength; simpl; lia).
    do 4 (split; [done|]). by left. }
  cbn [h_pairs]. change TREE_BLOCK_SIZE_IN_CHUNK with 256.
  pose proof Hmid as (Hd & Hk & HF & _). pose proof (zlength_nonneg x).
  case_bool_decide as Hx.
  2: { exists k, [], x, F. rewrite (app_nil_r d). split; [done|]. split; [lia|].
       do 2 (split; [done|]). by left. }
  set (n := Z.to_nat (2 * BB)). set (piece := take n x).
  assert (zlength piece = 2 * BB) as Hp by (unfold zlength, piece, n in *; rewrite length_take; lia).
  assert (zlength (drop n x) = zlength x - 2 * BB) as Hr by (unfold zlength, n in *; rewrite length_drop; lia).
  destruct (pair_trees iv (256 * k) piece 8) as (t1 & t2 & Hc & Ha1 & Ha2 & Ht1 & Ht2 & _); [lia|lia|lia|].
  replace (1024 * 2 ^ 8) with BB in * by (rewrite HBB; done). change (2 ^ 8) with 256 in *.
  set (x1 := take (Z.to_nat BB) piece) in *. set (x2 := drop (Z.to_nat BB) piece) in *.
  assert (zlength x1 = BB) as Hx1 by (unfold zlength, x1 in *; rewrite length_take; lia).
  assert (zlength x2 = BB) as Hx2 by (unfold zlength, x2 in *; rewrite length_drop; lia).
  assert (piece = x1 ++ x2) as Hpiece by (unfold x1, x2; by rewrite take_drop).
  assert (piece ++ drop n x = x) as Htd by apply take_drop.
  clearbody x1 x2 piece n.
  assert (root_of m false t1 = block_cv k x1) as Hr1 by (by rewrite Ht1).
  assert (root_of m false t2 = block_cv (k + 1) x2) as Hr2
    by (rewrite Ht2; unfold block_cv; by replace (256 * (k + 1)) with (256 * k + 256) by lia).
  unfold_M. unfold h_compress. unfold_M. unfold h_key, h_flags.
  cbn [content h_block_state fresh hasher bh_iv bh_chunk_state cs_chunk_counter cs_flags chunk_new].
  rewrite Hc. cbn [unwrap]. unfold_M. destruct (cv_halves _ _ Ha1 Ha2) as [-> ->]. rewrite Hr1, Hr2.
  destruct (h_push_run F k (block_cv k x1) (fresh k)) as (F1 & Hp1 & HF1 & Hl1); [done|done|lia|].
  change (mkBlake3Hasher (mkBlockHasher iv (mkChunkState key (256 * k) (replicate BLOCK_LEN 0) 0 0 flags)
    (roots m [])) (roots m F) k (posts m F)) with (content (fresh k) F k).
  rewrite Hp1.
  pose proof (at_block_push k d F x1 F1 Hmid Hx1 HF1 Hl1) as Hmid1.
  destruct (h_push_run (Leaf (block_cv k x1) :: F1) (k + 1) (block_cv (k + 1) x2) (fresh k))
    as (F2 & Hp2 & HF2 & Hl2); [done|apply Hmid1|lia|]. rewrite Hp2.
  pose proof (at_block_push (k + 1) (d ++ x1) _ x2 F2 Hmid1 Hx2 HF2 Hl2) as Hmid2.
  change (2 * 256) with (256 * 2). rewrite advance_fresh by lia. replace (k + 1 + 1) with (k + 2) in * by lia.
  rewrite <-app_assoc, <-Hpiece in Hmid2.
  destruct (IH (k + 2) (d ++ piece) (Leaf (block_cv (k + 1) x2) :: F2) (drop n x))
    as (k' & y & rest & F' & Hx' & Hrest & Hrun & Hmid' & Hlen);
    [done|rewrite zlength_app; lia|unfold zlength in *; lia|].
  exists k', (piece ++ y), rest, F'. rewrite <-app_assoc, <-Hx', app_assoc, Htd.
  do 4 (split; [done|]). intros Hnil. right. destruct (Hlen Hnil) as [[_ ->]|?]; [|done].
  pose proof (forest_stack F2 (k + 1) HF2 ltac:(lia)). simpl. lia.
Qed.

(** A single block of the input. *)
Definition push_block (x : Bytes) : M (Blake3Hasher (list Bytes)) unit :=
  cv_pair ← h_compress x;
  h ← get;
  h_push_cv (chaining_value (parent_node_output (left_cv cv_pair) (right_cv cv_pair) (h_key h) (h_flags h)));;
  h_advance TREE_BLOCK_SIZE_IN_CHUNK.

Lemma push_block_run k d F x :
  at_block k d F → zlength x = BB → zlength d < 2 ^ 60 →
  ∃ F', push_block x (content (fresh k) F k) = Some (tt, content (fresh (k + 1)) F' (k + 1)) ∧
    at_block (k + 1) (d ++ x) F' ∧ (F ≠ [] → (2 ≤ length F')%nat).
Proof.
  pose proof BB_val as HBB. intros Hmid Hx Htot. pose proof Hmid as (Hd & Hk & HF & _).
  destruct (compress_subtree_top iv x (256 * k)) as (a1 & a2 & Hc & Htop & Ha1 & Ha2); [lia..|].
  destruct (tree_of (chunk_cvs iv (256 * k) x)) as [?|t1 t2] eqn:Ht; simplify_eq/=.
  assert (m (root_of m false t1) (root_of m false t2) false = block_cv k x) as Hr
    by (unfold block_cv; by rewrite Ht).
  unfold push_block. unfold_M. unfold h_compress. unfold_M. unfold h_key, h_flags.
  cbn [content h_block_state fresh hasher bh_iv bh_chunk_state cs_chunk_counter cs_flags chunk_new].
  rewrite Hc. cbn [unwrap]. unfold_M. destruct (cv_halves _ _ Ha1 Ha2) as [-> ->].
  destruct (h_push_run F k (block_cv k x) (fresh k)) as (F1 & Hp1 & HF1 & Hl1); [done|done|lia|].
  match goal with |- context [h_push_cv ?c ?s] =>
    change (h_push_cv c s) with (h_push_cv (m (root_of m false t1) (root_of m false t2) false)
      (content (fresh k) F k)) end.
  rewrite Hr, Hp1. cbn beta iota zeta.
  change TREE_BLOCK_SIZE_IN_CHUNK with (256 * 1). rewrite advance_fresh by lia.
  exists (Leaf (block_cv k x) :: F1). split_and!; [done|by apply at_block_push with F|].
  intros HFne. assert (k ≠ 0).
  { intros ->. destruct HF as [[-> _]|(i & t & F' & Hi & -> & _ & HF')]; [done|].
    pose proof (forest_nonneg i _ _ Hi HF'). assert (0 < 2 ^ i) by (apply Z.pow_pos_nonneg; lia). lia. }
  pose proof (forest_stack F1 k HF1 ltac:(lia)). simpl. lia.
Qed.

(** ** Updates *)

(** The hasher after the bytes [d]: [k] whole blocks [d0] on the stack and the
    bytes [e] of the last block; the stack is merged when there are any. *)
Definition content_inv (d : Bytes) (h : Blake3Hasher (list Bytes)) : Prop :=
  ∃ k d0 e F bs, d = d0 ++ e ∧ zlength d0 = BB * k ∧ 0 ≤ k ∧ zlength d < 2 ^ 60 ∧ zlength e ≤ BB ∧
    block_inv iv (256 * k) e bs ∧ h = content bs F k ∧ forest_leaves F = block_cvs 0 d0 ∧
    (e ≠ [] → forest 0 F k) ∧ (e = [] → (d0 = [] ∧ F = []) ∨ (lazy_forest F k ∧ (2 ≤ length F)%nat)).

Lemma block_base k : 0 ≤ k < 2 ^ 44 → 0 ≤ 256 * k < 2 ^ 52 ∧ (256 * k) mod 256 = 0.
Proof. intros Hk. split; [lia|]. rewrite Z.mul_comm. by apply Z.mod_mul. Qed.

(** The bytes after the last whole block. *)
Lemma h_rest_run k d F e :
  at_block k d F → zlength d + zlength e < 2 ^ 60 → zlength e ≤ BB →
  (e = [] → (d = [] ∧ F = []) ∨ (2 ≤ length F)%nat) →
  ∃ h', (match e with
         | [] => mret tt
         | _ => h_merge_cv_stack;; h_block (bh_update e)
         end) (content (fresh k) F k) = Some (tt, h') ∧ content_inv (d ++ e) h'.
Proof.
  pose proof BB_val as HBB. intros (Hd & Hk & HF & Hl) Htot He Hnil.
  destruct (block_base k) as [Hb Hb256]; [pose proof (zlength_nonneg e); lia|].
  destruct (decide (e = [])) as [->|Hne].
  - eexists. split; [done|]. exists k, d, [], F, (fresh k). rewrite app_nil_r.
    change (zlength (@nil Z)) with 0 in *. split_and!; [done|done|done|lia|lia|by apply block_inv_start|done|done|done|].
    intros _. destruct (Hnil eq_refl); [by left|by right].
  - destruct (h_merge_run F k (fresh k) (keyed_fresh k) HF) as (F' & Hm & HF' & Hl');
      [pose proof (zlength_nonneg e); lia|].
    destruct (bh_update_run iv (256 * k) Hb Hb256 [] (fresh k) e) as (bs & Hu & Hinv);
      [by apply block_inv_start|change (zlength (@nil Z)) with 0; lia|].
    exists (content bs F' k). split.
    + destruct e as [|c e]; [done|]. cbn iota. unfold_M. rewrite Hm. unfold h_block. cbn [content h_block_state].
      by rewrite Hu.
    + exists k, d, e, F', bs. rewrite zlength_app. by rewrite Hl'.
Qed.

Lemma h_consume_run k d F x :
  at_block k d F → zlength d + zlength x < 2 ^ 60 →
  (x = [] → (d = [] ∧ F = []) ∨ (2 ≤ length F)%nat) →
  ∃ h', h_consume x (content (fresh k) F k) = Some (tt, h') ∧ content_inv (d ++ x) h'.
Proof.
  pose proof BB_val as HBB. intros Hmid Htot Hnil. unfold h_consume. unfold_M.
  destruct (h_pairs_run (length x) k d F x Hmid Htot ltac:(lia))
    as (k1 & y & x1 & F1 & Hx & Hx1 & -> & Hmid1 & Hlen).
  pose proof (f_equal zlength Hx) as Hxl. rewrite zlength_app in Hxl.
  pose proof (zlength_nonneg y). pose proof (zlength_nonneg x1).
  rewrite Hx, app_assoc. cbn [content h_cv_stack].
  destruct (bool_decide (zlength x1 > BB) || negb (bool_decide (roots m F1 = [])) && bool_decide (zlength x1 = BB))
    eqn:Hif.
  - assert (BB ≤ zlength x1 ∧ (zlength x1 = BB → F1 ≠ [])) as [Hge HF1].
    { apply orb_true_iff in Hif as [Hgt|Hif]; [apply bool_decide_eq_true in Hgt; lia|].
      apply andb_true_iff in Hif as [Hne Heq]. apply bool_decide_eq_true in Heq.
      split; [lia|]. intros _ ->. done. }
    set (n := Z.to_nat BB).
    assert (zlength (take n x1) = BB) as Hp by (unfold zlength, n in *; rewrite length_take; lia).
    assert (zlength (drop n x1) = zlength x1 - BB) as Hr by (unfold zlength, n in *; rewrite length_drop; lia).
    pose proof (take_drop n x1) as Htd. clearbody n.
    destruct (push_block_run k1 (d ++ y) F1 (take n x1) Hmid1 Hp) as (F2 & Hrun & Hmid2 & Hlen2);
      [rewrite zlength_app; lia|].
    unfold push_block in Hrun. run_M Hrun. unfold_M. rewrite Hrun.
    destruct (h_rest_run (k1 + 1) _ F2 (drop n x1) Hmid2) as (h' & Hrest & Hinv);
      [rewrite !zlength_app; lia|lia| |].
    + intros He. right. apply Hlen2, HF1. rewrite He in Hr. change (zlength []) with 0 in Hr. lia.
    + exists h'. split; [exact Hrest|]. by rewrite <-app_assoc, Htd in Hinv.
  - apply orb_false_iff in Hif as [Hle _]. apply bool_decide_eq_false in Hle. unfold_M.
    apply (h_rest_run k1 _ F1 x1 Hmid1); [rewrite zlength_app; lia|lia|].
    intros He. destruct (Hlen He) as [[Hxn ->]|?]; [|by right].
    destruct (Hnil Hxn) as [[-> ->]|?]; [|by right]. left. split; [|done].
    rewrite Hx in Hxn. by apply app_eq_nil in Hxn as [-> _].
Qed.

Lemma block_full k e bs :
  0 ≤ k < 2 ^ 43 → block_inv iv (256 * k) e bs → zlength e = BB →
  ∃ o, bh_final_output bs = Some o ∧ chaining_value o = block_cv k e ∧
    bh_move_to_next_block bs = fresh (k + 1).
Proof.
  pose proof BB_val as HBB. intros Hk Hinv He. destruct (block_base k) as [Hb Hb256]; [lia|].
  pose proof (bh_final_run iv (256 * k) e bs Hinv) as Hf. rewrite bool_decide_false in Hf by lia.
  destruct Hf as (o & Hf & Ho & _). exists o. split_and!; [done|done|].
  rewrite (bh_next_run iv (256 * k) Hb Hb256 e bs Hinv) by lia. unfold fresh. do 2 f_equal. lia.
Qed.

(** The rest of the input goes to the blocks after a full one. *)
Definition next_blocks (x : Bytes) : M (Blake3Hasher (list Bytes)) unit :=
  h ← get;
  output ← unwrap (bh_final_output (h_block_state h));
  h_push_cv (chaining_value output);;
  h_block (modify bh_move_to_next_block);;
  h_consume x.

Lemma next_blocks_run k d0 e F bs x :
  zlength d0 = BB * k → 0 ≤ k → forest 0 F k → forest_leaves F = block_cvs 0 d0 →
  block_inv iv (256 * k) e bs → zlength e = BB → x ≠ [] → zlength d0 + zlength e + zlength x < 2 ^ 60 →
  ∃ h', next_blocks x (content bs F k) = Some (tt, h') ∧ content_inv ((d0 ++ e) ++ x) h'.
Proof.
  pose proof BB_val as HBB. intros Hd0 Hk HF Hl Hinv He Hx Htot. pose proof (zlength_nonneg x).
  destruct (block_full k e bs) as (o & Hf & Ho & Hnext); [lia|done|done|].
  destruct (block_inv_fields iv (256 * k) _ _ Hinv) as [Hiv Hfl].
  destruct (h_push_run F k (chaining_value o) bs) as (F1 & Hp & HF1 & Hl1); [by split|by apply forest_lazy|lia|].
  unfold next_blocks. unfold_M. cbn [content h_block_state]. rewrite Hf. cbn [unwrap]. unfold_M.
  change (mkBlake3Hasher bs (roots m F) k (posts m F)) with (content bs F k). rewrite Hp.
  unfold h_block. unfold_M. cbn [content h_block_state]. rewrite Hnext.
  change (h_with_block (fresh (k + 1)) _) with (content (fresh (k + 1)) (Leaf (chaining_value o) :: F1) (k + 1)).
  rewrite Ho. apply h_consume_run; [|rewrite zlength_app; lia|done].
  apply at_block_push with F; [|done..]. split_and!; [done|done|by apply forest_lazy|done].
Qed.

Lemma h_update_run d h x :
  content_inv d h → zlength d + zlength x < 2 ^ 60 →
  ∃ h', h_update x h = Some (tt, h') ∧ content_inv (d ++ x) h'.
Proof.
  pose proof BB_val as HBB.
  intros (k & d0 & e & F & bs & -> & Hd0 & Hk & Hd & He & Hinv & -> & Hl & Hene & Henil) Htot.
  rewrite zlength_app in *. pose proof (zlength_nonneg x). pose proof (zlength_nonneg e).
  destruct (block_base k) as [Hb Hb256]; [lia|]. unfold h_update. unfold_M. cbn [content h_block_state].
  rewrite (bh_len_run iv (256 * k) Hb256 e bs Hinv). case_bool_decide as Hpos.
  - assert (e ≠ []) as Hne by (intros ->; by unfold zlength in Hpos). specialize (Hene Hne).
    set (tk := Nat.min (Z.to_nat (BB - zlength e)) (length x)).
    assert (zlength (take tk x) ≤ BB - zlength e) as Htk by (unfold tk, zlength in *; rewrite length_take; lia).
    destruct (bh_update_run iv (256 * k) Hb Hb256 e bs (take tk x) Hinv) as (bs' & Hu & Hinv'); [lia|].
    unfold h_block at 1. cbn [content h_block_state]. rewrite Hu.
    change (h_with_block bs' _) with (content bs' F k).
    destruct (drop tk x) as [|c rest] eqn:Hrest.
    + assert (take tk x = x) as Hx by (rewrite <-(take_drop tk x) at 2; by rewrite Hrest, app_nil_r).
      rewrite Hx in *. eexists. split; [done|]. exists k, d0, (e ++ x), F, bs'. rewrite !zlength_app.
      split_and!; [by rewrite app_assoc|done|done|lia|lia|done|done|done|done|]. by destruct e.
    + assert (zlength (take tk x) = BB - zlength e) as Hfull.
      { apply (f_equal length) in Hrest. rewrite length_drop in Hrest. simpl in Hrest.
        unfold tk, zlength in *. rewrite length_take. lia. }
      rewrite <-(take_drop tk x), Hrest, zlength_app in Htot. rewrite <-(take_drop tk x), Hrest.
      rewrite app_assoc, <-(app_assoc d0).
      apply next_blocks_run; [done|done|done|done|done|rewrite zlength_app; lia|done|rewrite zlength_app; lia].
  - assert (e = []) as -> by (destruct e; [done|unfold zlength in Hpos; simpl in Hpos; lia]).
    rewrite (block_inv_nil iv (256 * k) bs Hinv), app_nil_r. change (zlength (@nil Z)) with 0 in *.
    apply (h_consume_run k d0 F x); [|lia|].
    + split_and!; [done|done| |done]. destruct (Henil eq_refl) as [[-> ->]|[? _]]; [|done].
      left. split; [done|]. change (zlength (@nil Z)) with 0 in *. lia.
    + intros _. destruct (Henil eq_refl) as [?|[_ ?]]; [by left|by right].
Qed.

(** ** The array of the tree *)

(** The array without its last entry, the root. *)
Definition init_post (t : tree Bytes) : list Bytes :=
  match t with
  | Leaf _ => []
  | Node l r => post_order m false l ++ post_order m false r
  end.

Lemma init_post_root b t : init_post t ++ [root_of m b t] = post_order m b t.
Proof. destruct t; [done|]. simpl. by rewrite <-app_assoc. Qed.

Lemma h_fold_join F t o :
  outputs iv o t →
  ∃ o', h_fold key flags (roots m F) o (posts m F ++ init_post t) = (o', init_post (join_trees F t)) ∧
    outputs iv o' (join_trees F t).
Proof.
  revert t o. induction F as [|t1 F IH]; intros t o Ho; [by exists o|].
  cbn [roots fmap list_fmap h_fold join_trees posts]. unfold push, vec_collector.
  rewrite (proj1 Ho), <-!app_assoc, init_post_root, <-(proj1 Ho).
  apply (IH (Node t1 t)). by apply outputs_parent.
Qed.

(** The last block goes under the blocks of the stack. *)
Lemma block_out k e bs :
  block_inv iv (256 * k) e bs → e ≠ [] →
  ∃ o, bh_final_output bs = Some o ∧ outputs iv o (Leaf (block_cv k e)).
Proof.
  intros Hinv Hne. pose proof (bh_final_run iv (256 * k) e bs Hinv) as Hf.
  case_bool_decide as Hs.
  - eexists. split; [done|]. split; [|done]. cbn [root_of].
    unfold block_cv. by rewrite (chunk_cvs_one iv (256 * k) e Hne Hs).
  - destruct Hf as (o & Hf & Ho & _). by exists o.
Qed.

(** The blocks of a content make the tree of its stack. *)
Lemma content_tree k d0 e F :
  zlength d0 = BB * k → 0 ≤ k < 2 ^ 43 → forest_leaves F = block_cvs 0 d0 →
  (e ≠ [] → zlength e ≤ BB → forest 0 F k →
   tree_of (block_cvs 0 (d0 ++ e)) = join_trees F (Leaf (block_cv k e))) ∧
  (∀ t1 t2 F', F = t2 :: t1 :: F' → lazy_forest F k →
   tree_of (block_cvs 0 d0) = join_trees F' (Node t1 t2) ∧ 1 < k).
Proof.
  intros Hd0 Hk Hl. split.
  - intros Hne He HF. destruct (block_cvs_app k 0 d0 e) as [-> _]; [lia|done|].
    rewrite (block_cvs_one (0 + k) e) by done. rewrite <-Hl. symmetry.
    apply (tree_of_join 0 F k (Leaf (block_cv k e))); [done|lia|lia|done|done|lia].
  - intros t1 t2 F' -> [[? _]|(i & t & F1 & Hi & Heq & [Hst Hct] & HF)]; [done|].
    injection Heq as <- <-.
    assert (0 < 2 ^ i) by (apply Z.pow_pos_nonneg; lia).
    pose proof (forest_nonneg i _ _ Hi HF).
    assert (k - 2 ^ i ≠ 0).
    { intros Hz0. rewrite Hz0 in HF. pose proof (forest_ones i _ _ Hi HF) as Hz.
      rewrite zlength_cons in Hz. pose proof (zlength_nonneg F'). simpl in Hz. lia. }
    split; [|lia]. rewrite <-Hl. simpl forest_leaves.
    change (forest_leaves F' ++ leaves t1) with (forest_leaves (t1 :: F')).
    rewrite <-(tree_of_join i (t1 :: F') (k - 2 ^ i) t2); [done|done|done|lia|done|lia|lia].
Qed.

Lemma top_pair_node t : top_pair m t ≠ None → ∃ l r, t = Node l r.
Proof. destruct t as [|l r]; [done|]. intros _. by exists l, r. Qed.

Lemma top_pair_root t t' :
  top_pair m t = top_pair m t' → top_pair m t ≠ None → root_of m true t = root_of m true t'.
Proof. destruct t, t'; simpl; [done..|]. intros [= -> ->] _. done. Qed.

(** A content of one block is hashed by the block hasher. *)
Lemma small_hash d bs :
  block_inv iv 0 d bs → zlength d < 2 ^ 60 →
  ∃ o, bh_final_output bs = Some o ∧ iv_hash_all_at_once iv d = Some (root_hash o).
Proof.
  intros Hinv Hd. pose proof (bh_final_run iv 0 d bs Hinv) as Hf. rewrite (iv_hash_spec iv d Hd).
  case_bool_decide as Hs; [by eexists|]. destruct Hf as (o & Hf & Ho). exists o. split; [done|]. f_equal.
  destruct (compress_subtree_top iv d 0) as (a1 & a2 & _ & Htop & _); [lia..|].
  destruct (top_pair_node (tree_of (chunk_cvs iv 0 d))) as (l & r & Ht); [by rewrite Htop|].
  symmetry. by apply (outputs_root iv o _ l r).
Qed.

Lemma large_hash d o :
  outputs iv o (tree_of (block_cvs 0 d)) → BB < zlength d < 2 ^ 60 →
  iv_hash_all_at_once iv d = Some (root_hash o) ∧ root_hash o = root_of m true (tree_of (block_cvs 0 d)).
Proof.
  pose proof BB_val as HBB. intros Ho Hd.
  destruct (block_chunk_top 0 d) as [_ [Htop Hne]]; [lia|intros ->; change (zlength (@nil Z)) with 0 in Hd; lia|lia|lia|].
  destruct (top_pair_node _ Hne) as (l & r & Ht). pose proof (outputs_root iv o _ l r Ho Ht) as Hr.
  split; [|done]. rewrite (iv_hash_spec iv d), bool_decide_false by lia. f_equal. rewrite Hr.
  symmetry. by apply (top_pair_root _ _ Htop).
Qed.

Lemma fold_final F t o d :
  outputs iv o t → tree_of (block_cvs 0 d) = join_trees F t → BB < zlength d < 2 ^ 60 →
  ∃ o', h_fold key flags (roots m F) o (posts m F ++ init_post t) = (o', init_post (tree_of (block_cvs 0 d))) ∧
    iv_hash_all_at_once iv d = Some (root_hash o') ∧ root_hash o' = root_of m true (tree_of (block_cvs 0 d)).
Proof.
  intros Ho Ht Hd. destruct (h_fold_join F t o Ho) as (o' & Hf & Ho'). rewrite <-Ht in *.
  exists o'. split; [done|]. by apply large_hash.
Qed.

Lemma empty_stack k (d0 e : Bytes) :
  zlength d0 = BB * k → 0 ≤ k → (e ≠ [] → forest 0 (@nil (tree Bytes)) k) →
  (e = [] → d0 = [] ∨ (2 ≤ length (@nil (tree Bytes)))%nat) → k = 0 ∧ d0 = [].
Proof.
  pose proof BB_val as HBB. intros Hd0 Hk Hene Henil.
  destruct (decide (e = [])) as [->|Hne].
  - destruct (Henil eq_refl) as [->|H2]; [|simpl in H2; lia]. change (zlength (@nil Z)) with 0 in *.
    split; [lia|done].
  - pose proof (forest_ones 0 [] k ltac:(lia) (Hene Hne)) as Hz. change (zlength (@nil (tree Bytes))) with 0 in Hz.
    pose proof (count_ones_bound k Hk). assert (k = 0) as -> by lia. split; [done|].
    destruct d0; [done|unfold zlength in Hd0; simpl in Hd0; lia].
Qed.

Lemma h_final_run d h :
  content_inv d h →
  ∃ o, h_final_output h = Some (o, if bool_decide (zlength d ≤ BB) then [] else init_post (tree_of (block_cvs 0 d))) ∧
    iv_hash_all_at_once iv d = Some (root_hash o) ∧
    (BB < zlength d → root_hash o = root_of m true (tree_of (block_cvs 0 d))).
Proof.
  pose proof BB_val as HBB.
  intros (k & d0 & e & F & bs & -> & Hd0 & Hk & Hd & He & Hinv & -> & Hl & Hene & Henil).
  rewrite zlength_app in *. pose proof (zlength_nonneg e).
  destruct (block_base k) as [_ Hb256]; [lia|].
  destruct (content_tree k d0 e F Hd0 ltac:(lia) Hl) as [Htree Htree0].
  destruct (block_inv_fields iv (256 * k) _ _ Hinv) as [Hiv Hfl].
  unfold h_final_output. cbn [content h_cv_stack h_block_state h_tree].
  rewrite (bh_len_run iv (256 * k) Hb256 e bs Hinv). unfold h_key, h_flags.
  cbn [content h_block_state]. rewrite Hiv, Hfl.
  destruct F as [|t F].
  { destruct (empty_stack k d0 e) as [-> ->]; [done|done|done|naive_solver|].
    change (zlength (@nil Z)) with 0 in *. rewrite (bool_decide_true (0 + zlength e ≤ BB)) by lia.
    destruct (small_hash e bs Hinv) as (o & Hf & Ho); [lia|].
    exists o. split_and!; [|done|lia]. cbn [roots fmap list_fmap posts]. by rewrite Hf. }
  cbn [roots fmap list_fmap]. case_bool_decide as Hpos.
  - assert (e ≠ []) as Hne by (intros ->; by unfold zlength in Hpos). specialize (Hene Hne).
    assert (0 < k).
    { pose proof (forest_ones 0 _ k ltac:(lia) Hene) as Hz. rewrite zlength_cons in Hz.
      pose proof (zlength_nonneg F). destruct (decide (k = 0)) as [->|]; [simpl in Hz; lia|lia]. }
    destruct (block_out k e bs Hinv Hne) as (o & -> & Ho).
    destruct (fold_final (t :: F) _ o (d0 ++ e) Ho (Htree Hne He Hene)) as (o' & Hf & Hh & Hr);
      [rewrite zlength_app; lia|].
    exists o'. rewrite bool_decide_false by lia. cbn [mbind option_bind]. rewrite <-Hf, app_nil_r. done.
  - assert (e = []) as -> by (destruct e; [done|unfold zlength in Hpos; simpl in Hpos; lia]).
    rewrite app_nil_r in *. change (zlength (@nil Z)) with 0 in *.
    destruct (Henil eq_refl) as [[_ ?]|[HF H2]]; [done|]. destruct F as [|t1 F]; [simpl in H2; lia|].
    destruct (Htree0 t1 t F eq_refl HF) as [Ht Hk1].
    destruct (fold_final F (Node t1 t) (parent_node_output (root_of m false t1) (root_of m false t) key flags) d0)
      as (o' & Hf & Hh & Hr); [done|done|lia|].
    exists o'. rewrite bool_decide_false by lia. cbn [fmap list_fmap posts].
    rewrite <-Hf. cbn [init_post]. rewrite <-app_assoc. done.
Qed.

(** ** Hashing a content *)

Fixpoint h_updates (xs : list Bytes) : M (Blake3Hasher (list Bytes)) unit :=
  match xs with
  | [] => mret tt
  | x :: xs => h_update x;; h_updates xs
  end.

Lemma h_updates_run xs d h :
  content_inv d h → zlength (d ++ concat xs) < 2 ^ 60 →
  ∃ h', h_updates xs h = Some (tt, h') ∧ content_inv (d ++ concat xs) h'.
Proof.
  revert d h. induction xs as [|x xs IH]; intros d h Hinv Hd; cbn [h_updates concat] in *.
  { rewrite app_nil_r. by exists h. }
  rewrite app_assoc in *. pose proof Hd as Hd'. rewrite zlength_app in Hd'. pose proof (zlength_nonneg (concat xs)).
  destruct (h_update_run d h x Hinv) as (h1 & Hu & Hinv1); [rewrite <-zlength_app; lia|].
  destruct (IH (d ++ x) h1 Hinv1 Hd) as (h' & Hus & Hinv'). exists h'. split; [|done].
  unfold_M. by rewrite Hu.
Qed.

Lemma content_inv_start : content_inv [] (h_new_with_iv [] iv).
Proof.
  pose proof BB_val as HBB. exists 0, [], [], [], (fresh 0). change (zlength (@nil Z)) with 0.
  split_and!; [done|lia|lia|lia|lia|apply block_inv_start|done|done|done|by left].
Qed.

(** C15: The hash of a content does not depend on how its bytes arrive: after any
    updates with the bytes of the content in order, and without a panic, the
    hasher yields the hash of the content as a whole, and the collected values
    with this hash are the array of the tree over the blocks of 256 KiB, whose
    leaves are the chaining values of the blocks. *)
Theorem content_hash_streams xs :
  zlength (concat xs) < 2 ^ 60 →
  ∃ h hash, h_updates xs (h_new_with_iv [] iv) = Some (tt, h) ∧
    iv_hash_all_at_once iv (concat xs) = Some hash ∧ h_finalize h = Some hash ∧
    ∃ tree, h_finalize_tree h = Some (tree, hash) ∧
      tree ++ [hash] = if bool_decide (zlength (concat xs) ≤ TREE_BLOCK_SIZE_BYTES) then [hash]
                       else post_order (iv_merge iv) true (tree_of (block_cvs 0 (concat xs))).
Proof.
  intros Hd. destruct (h_updates_run xs [] _ content_inv_start Hd) as (h & Hrun & Hinv).
  destruct (h_final_run _ h Hinv) as (o & Hf & Hh & Hr). simpl app in *.
  exists h, (root_hash o). unfold h_finalize, h_finalize_tree. rewrite Hf. cbn [mbind option_bind].
  split_and!; [done..|]. eexists. split; [done|]. case_bool_decide as Hs; [done|].
  rewrite Hr by lia. apply init_post_root.
Qed.

(** ** Hashing a block *)

Fixpoint bh_updates (xs : list Bytes) : M BlockHasher unit :=
  match xs with
  | [] => mret tt
  | x :: xs => bh_update x;; bh_updates xs
  end.

Lemma bh_updates_run b xs d s :
  0 ≤ b < 2 ^ 52 → b mod 256 = 0 → block_inv iv b d s → zlength (d ++ concat xs) ≤ BB →
  ∃ s', bh_updates xs s = Some (tt, s') ∧ block_inv iv b (d ++ concat xs) s'.
Proof.
  pose proof BB_val as HBB. intros Hb Hb256. revert d s.
  induction xs as [|x xs IH]; intros d s Hinv Hd; cbn [bh_updates concat] in *.
  { rewrite app_nil_r. by exists s. }
  rewrite app_assoc in *. pose proof Hd as Hd'. rewrite zlength_app in Hd'. pose proof (zlength_nonneg (concat xs)).
  destruct (bh_update_run iv b Hb Hb256 d s x Hinv) as (s1 & Hu & Hinv1); [rewrite <-zlength_app; lia|].
  destruct (IH (d ++ x) s1 Hinv1 Hd) as (s' & Hus & Hinv'). exists s'. split; [|done].
  unfold_M. by rewrite Hu.
Qed.

Lemma set_block_fresh i :
  0 ≤ i < 2 ^ 44 → bh_set_block i (bh_from iv) = Some (fresh i).
Proof.
  intros Hi. unfold bh_set_block. cbn [bh_from bh_chunk_state bh_cv_stack].
  rewrite Z.shiftl_mul_pow2 by (unfold TREE_BLOCK_SIZE_IN_CHUNK_LOG_2; lia).
  change (2 ^ TREE_BLOCK_SIZE_IN_CHUNK_LOG_2) with 256.
  rewrite wrap_small by (unfold in_width; lia). unfold fresh. by rewrite (Z.mul_comm 256 i).
Qed.

Lemma block_pieces d x i :
  pieces_of block_size d !! i = Some x →
  x ≠ [] ∧ zlength x ≤ BB ∧ BB * Z.of_nat i < zlength d ∧ (zlength d ≤ BB → i = 0%nat ∧ x = d).
Proof.
  intros Hx. rewrite <-block_size_Z.
  destruct (pieces_lookup block_size block_size_pos d x i Hx) as (Hne & Hl & Hi & Hone).
  unfold zlength. split_and!; [done|lia|lia|]. intros Hd. apply Hone. lia.
Qed.

(** C38: A client that hashes the bytes of block [i] as they arrive gets the leaf
    of the block in the tree over the content; and for a content of one block,
    the hash of the content. *)
Theorem block_hash_streams i xs d :
  zlength d < 2 ^ 60 → pieces_of block_size d !! i = Some (concat xs) →
  ∃ b b' hash, bh_set_block (Z.of_nat i) (bh_from iv) = Some b ∧ bh_updates xs b = Some (tt, b') ∧
    bh_finalize false b' = Some hash ∧ block_cvs 0 d !! i = Some hash ∧
    (zlength d ≤ TREE_BLOCK_SIZE_BYTES → bh_finalize true b' = iv_hash_all_at_once iv d).
Proof.
  pose proof BB_val as HBB. intros Hd Hx. destruct (block_pieces d _ i Hx) as (Hne & Hxl & Hi & Hone).
  destruct (block_base (Z.of_nat i)) as [Hb Hb256]; [lia|].
  exists (fresh (Z.of_nat i)). destruct (bh_updates_run (256 * Z.of_nat i) xs [] (fresh (Z.of_nat i)) Hb Hb256)
    as (b' & Hrun & Hinv); [apply block_inv_start|done|]. simpl app in Hinv.
  destruct (block_out (Z.of_nat i) _ b' Hinv Hne) as (o & Hf & Ho & _).
  exists b', (block_cv (Z.of_nat i) (concat xs)). unfold bh_finalize. rewrite Hf. cbn [mbind option_bind].
  split_and!; [apply set_block_fresh; lia|done|by rewrite Ho| |].
  - unfold block_cvs. rewrite list_lookup_imap, Hx. done.
  - intros Hs. destruct (Hone Hs) as [-> Hxd]. rewrite Hxd in *.
    destruct (small_hash d b' Hinv Hd) as (o' & Hf' & ->). rewrite Hf in Hf'. by simplify_eq.
Qed.
End content.
