(* ===== verification/Collectors.v ===== *)
(** * Collectors: hashers with different collectors

    [Blake3Hasher] of [lib/b3fs/src/hasher/byte_hasher/mod.rs] is generic in what
    collects the hashes of the tree.  Two hashers whose collectors stay related
    when a hash is pushed take the same steps: so what holds of the hasher that
    collects a vector holds of the one that a writer flushes to the disk. *)

From S2P Require Import Prelude Types Codec HashTree ProofBuf Blake3 Blake3Tree Forest ByteHasher.
From stdpp Require Import base list.
From Stdlib Require Import ZArith Lia.
Open Scope Z_scope.

Section simulation.
Context {P : Platform} {T1 T2 : Type} {C1 : HashTreeCollector T1} {C2 : HashTreeCollector T2}.
Context (R : T1 → T2 → Prop) (HR : ∀ l c x, R l c → R (push l x) (push c x)).

(** The same hasher up to the collector. *)
Definition h_sim (h1 : Blake3Hasher T1) (h2 : Blake3Hasher T2) : Prop :=
  h_block_state h1 = h_block_state h2 ∧ h_cv_stack h1 = h_cv_stack h2 ∧
  h_block_counter h1 = h_block_counter h2 ∧ R (h_tree h1) (h_tree h2).

Definition simulates {A} (m1 : M (Blake3Hasher T1) A) (m2 : M (Blake3Hasher T2) A) : Prop :=
  ∀ h1 h2, h_sim h1 h2 →
    match m1 h1, m2 h2 with
    | Some (a, h1'), Some (b, h2') => a = b ∧ h_sim h1' h2'
    | None, None => True
    | _, _ => False
    end.

Lemma sim_ret {A} (a : A) : simulates (mret a) (mret a).
Proof. by intros h1 h2 Hh. Qed.

Lemma sim_panic {A} : simulates (@panic _ A) panic.
Proof. by intros h1 h2 Hh. Qed.

Lemma sim_unwrap {A} (o : option A) : simulates (unwrap o) (unwrap o).
Proof. destruct o; [apply sim_ret|apply sim_panic]. Qed.

Lemma sim_bind {A B} (m1 : M (Blake3Hasher T1) A) m2 (k1 : A → M (Blake3Hasher T1) B) k2 :
  simulates m1 m2 → (∀ a, simulates (k1 a) (k2 a)) → simulates (m1 ≫= k1) (m2 ≫= k2).
Proof.
  intros Hm Hk h1 h2 Hh. unfold_M. specialize (Hm h1 h2 Hh).
  destruct (m1 h1) as [[a h1']|], (m2 h2) as [[b h2']|]; try done.
  destruct Hm as [<- Hh']. by apply Hk.
Qed.

(** The code reads everything of a hasher but the collector. *)
Lemma sim_get {B} (k1 : Blake3Hasher T1 → M (Blake3Hasher T1) B) k2 :
  (∀ b s n l c, R l c → simulates (k1 (mkBlake3Hasher b s n l)) (k2 (mkBlake3Hasher b s n c))) →
  simulates (get ≫= k1) (get ≫= k2).
Proof.
  intros Hk [b1 s1 n1 l] [b2 s2 n2 c] Hh. pose proof Hh as (Hb & Hs & Hn & Hr). simpl in *. subst.
  unfold_M. by apply Hk.
Qed.

Lemma sim_modify f1 f2 :
  (∀ h1 h2, h_sim h1 h2 → h_sim (f1 h1) (f2 h2)) → simulates (modify f1) (modify f2).
Proof. intros Hf h1 h2 Hh. split; [done|by apply Hf]. Qed.

Lemma sim_block {A} (op : M BlockHasher A) : simulates (h_block op) (h_block op).
Proof.
  intros h1 h2 (Hb & Hs & Hn & Hr). unfold h_block. rewrite Hb.
  by destruct (op (h_block_state h2)) as [[a b]|].
Qed.

(** Closes the steps that read the fields of related hashers. *)
Ltac sim_fields := intros ? ? (? & ? & ? & ?); unfold h_sim; simpl; split_and!; auto; congruence.

Lemma sim_merge_loop fuel n : simulates (h_merge_loop fuel n) (h_merge_loop fuel n).
Proof.
  induction fuel as [|fuel IH]; cbn [h_merge_loop]; apply sim_get; intros b s k l c Hr; cbn [h_cv_stack h_tree];
    case_bool_decide; try (apply sim_ret || (destruct s as [|? [|??]]; apply sim_panic)).
  destruct s as [|x [|y s]]; [apply sim_panic..|]. apply sim_bind; [|by intros _].
  apply sim_modify. sim_fields.
Qed.

Lemma sim_merge : simulates h_merge_cv_stack h_merge_cv_stack.
Proof. apply sim_get. intros b s k l c Hr. cbn [h_cv_stack h_block_counter]. apply sim_merge_loop. Qed.

Lemma sim_push cv : simulates (h_push_cv cv) (h_push_cv cv).
Proof.
  apply sim_bind; [apply sim_merge|intros _]. apply sim_get. intros b s k l c Hr. cbn [h_cv_stack].
  case_bool_decide; [apply sim_panic|]. apply sim_modify. intros h1 h2 (Hb & Hs & Hn & Ht).
  unfold h_sim. simpl. rewrite Hb, Hs, Hn. auto.
Qed.

Lemma sim_advance n : simulates (h_advance n) (h_advance n).
Proof.
  apply sim_modify. intros h1 h2 (Hb & Hs & Hn & Ht). unfold h_sim. simpl. by rewrite Hb.
Qed.

Lemma sim_compress piece : simulates (h_compress piece) (h_compress piece).
Proof. apply sim_get. intros b s k l c Hr. apply sim_unwrap. Qed.

Lemma sim_pairs fuel x : simulates (h_pairs fuel x) (h_pairs fuel x).
Proof.
  revert x. induction fuel as [|fuel IH]; intros x; cbn [h_pairs]; case_bool_decide;
    try (apply sim_ret || apply sim_panic).
  apply sim_bind; [apply sim_compress|intros cv]. do 2 (apply sim_bind; [apply sim_push|intros _]).
  apply sim_bind; [apply sim_advance|intros _]. apply IH.
Qed.

Lemma sim_consume x : simulates (h_consume x) (h_consume x).
Proof.
  apply sim_bind; [apply sim_pairs|intros y]. apply sim_get. intros b s k l c Hr. cbn [h_cv_stack].
  apply sim_bind.
  - case_match; [|apply sim_ret]. apply sim_bind; [apply sim_compress|intros cv].
    apply sim_get. intros b' s' k' l' c' Hr'. apply sim_bind; [apply sim_push|intros _].
    apply sim_bind; [apply sim_advance|intros _; apply sim_ret].
  - intros [|z zs]; [apply sim_ret|]. apply sim_bind; [apply sim_merge|intros _; apply sim_block].
Qed.

Lemma sim_update x : simulates (h_update x) (h_update x).
Proof.
  apply sim_get. intros b s k l c Hr. cbn [h_block_state]. case_bool_decide; [|apply sim_consume].
  apply sim_bind; [apply sim_block|intros _]. destruct (drop _ x) as [|z zs]; [apply sim_ret|].
  apply sim_get. intros b' s' k' l' c' Hr'. cbn [h_block_state].
  apply sim_bind; [apply sim_unwrap|intros o]. apply sim_bind; [apply sim_push|intros _].
  apply sim_bind; [apply sim_block|intros _]. apply sim_consume.
Qed.

Lemma sim_fold key flags stack o l c :
  R l c → (h_fold key flags stack o l).1 = (h_fold key flags stack o c).1 ∧
    R (h_fold key flags stack o l).2 (h_fold key flags stack o c).2.
Proof. revert o l c. induction stack as [|cv stack IH]; intros o l c Hr; [done|]. simpl. apply IH, HR, Hr. Qed.

Lemma sim_final h1 h2 :
  h_sim h1 h2 →
  match h_final_output h1, h_final_output h2 with
  | Some (o, l), Some (o', c) => o = o' ∧ R l c
  | None, None => True
  | _, _ => False
  end.
Proof.
  destruct h1 as [b1 s1 n1 l], h2 as [b2 s2 n2 c]. intros (Hb & Hs & Hn & Hr). simpl in *. subst.
  unfold h_final_output, h_key, h_flags. cbn [h_cv_stack h_block_state h_tree].
  assert (∀ key flags stack o, match Some (h_fold key flags stack o l), Some (h_fold key flags stack o c) with
    | Some (o, l), Some (o', c) => o = o' ∧ R l c | None, None => True | _, _ => False end) as Hfold.
  { intros key flags stack o. pose proof (sim_fold key flags stack o l c Hr) as Hf.
    by destruct (h_fold key flags stack o l), (h_fold key flags stack o c). }
  destruct s2 as [|x [|y s]].
  - by destruct (bh_final_output b2).
  - case_bool_decide; [|done]. destruct (bh_final_output b2); [|done]. exact (Hfold _ _ [x] _).
  - case_bool_decide; [|exact (Hfold _ _ s _)]. destruct (bh_final_output b2); [|done].
    exact (Hfold _ _ (x :: y :: s) _).
Qed.
End simulation.
