(* ===== verification/ContentSteps.v ===== *)
(** * ContentSteps: hashing a content in small pieces

    [Blake3Hasher] of [lib/b3fs/src/hasher/byte_hasher/mod.rs] on pieces shorter
    than a block, the way the writers of [bucket/file/state/] feed it: at which
    piece the hash of a block is collected, and where it is in the array of the
    tree. *)

From S2P Require Import Prelude Types Codec HashTree ProofBuf Blake3 Blake3Tree Forest ByteHasher ByteTree ContentHash.
From stdpp Require Import base list.
From Stdlib Require Import ZArith Lia.
Open Scope Z_scope.

(** ** The hashes of a forest *)

Section forest_posts.
Context {A : Type} (m : A → A → bool → A).

Lemma posts_length k F c : forest k F c → 0 ≤ k → zlength (posts m F) = 2 * c - zlength F.
Proof.
  induction 1 as [k|k F c HF IH|k t F c [_ Ht] HF IH]; intros Hk; [done|apply IH; lia|].
  cbn [posts]. rewrite zlength_app, zlength_cons, IH, post_order_length by lia. lia.
Qed.

(** The array of the tree over the first [c] blocks ends before block [c]. *)
Lemma posts_tree_index F c : forest 0 F c → c < 2 ^ 60 → zlength (posts m F) = tree_index c.
Proof.
  intros HF Hc. pose proof (forest_nonneg 0 F c ltac:(lia) HF).
  rewrite (posts_length 0 F c HF), (forest_ones 0 F c), tree_index_eq by (done || lia). done.
Qed.

Lemma merge_to_posts fuel n F F' : merge_to fuel n F = Some F' → ∃ ys, posts m F' = posts m F ++ ys.
Proof.
  revert F. induction fuel as [|fuel IH]; intros F; cbn [merge_to]; case_bool_decide; intros Hm; simplify_eq.
  1,3: exists []; by rewrite app_nil_r.
  destruct F as [|t2 [|t1 F]]; [done..|]. destruct (IH _ Hm) as [ys ->].
  cbn [posts post_order]. eexists. by rewrite <-!app_assoc.
Qed.

Lemma merge_to_done fuel (F : list (tree A)) c : forest 0 F c → merge_to fuel (count_ones c) F = Some F.
Proof.
  intros HF. pose proof (forest_ones 0 F c ltac:(lia) HF).
  destruct fuel; cbn [merge_to]; by rewrite bool_decide_false by lia.
Qed.
End forest_posts.

Section steps.
Context {P : Platform} {PL : PlatformLaws P} (iv : IV).
#[local] Abbreviation m := (iv_merge iv).
#[local] Abbreviation BB := TREE_BLOCK_SIZE_BYTES.
#[local] Arguments iv_merge : simpl never.
#[local] Opaque TREE_BLOCK_SIZE_BYTES.

(** Within block [k], after the bytes [e] of it. *)
Definition in_block (k : Z) (d0 e : Bytes) (F : list (tree Bytes)) (bs : BlockHasher) : Prop :=
  zlength d0 = BB * k ∧ 0 ≤ k ∧ e ≠ [] ∧ zlength e ≤ BB ∧ zlength d0 + zlength e < 2 ^ 60 ∧
  block_inv iv (256 * k) e bs ∧ forest 0 F k ∧ forest_leaves F = block_cvs iv 0 d0.

Lemma in_block_inv k d0 e F bs : in_block k d0 e F bs → content_inv iv (d0 ++ e) (content iv bs F k).
Proof.
  intros (Hd0 & Hk & Hne & He & Htot & Hinv & HF & Hl). exists k, d0, e, F, bs.
  rewrite zlength_app. split_and!; done || lia.
Qed.

(** The bytes of a block from its first on. *)
Lemma start_block k d F x :
  zlength d = BB * k → 0 ≤ k → lazy_forest F k → forest_leaves F = block_cvs iv 0 d →
  x ≠ [] → zlength x < BB → zlength d + zlength x < 2 ^ 60 →
  ∃ bs F' ys, h_consume x (content iv (ContentHash.fresh iv k) F k) = Some (tt, content iv bs F' k) ∧
    in_block k d x F' bs ∧ posts m F' = posts m F ++ ys ∧ (forest 0 F k → F' = F).
Proof.
  pose proof BB_val as HBB. intros Hd Hk HF Hl Hne Hx Htot. pose proof (zlength_nonneg x).
  destruct (block_base k) as [Hb Hb256]; [lia|].
  destruct (merge_to_lazy (length F) F k HF) as (F' & Hm & HF' & Hl'); [lia|done|].
  destruct (merge_to_posts m _ _ _ _ Hm) as [ys Hys].
  destruct (bh_update_run iv (256 * k) Hb Hb256 [] (ContentHash.fresh iv k) x) as (bs & Hu & Hinv);
    [by apply block_inv_start|change (zlength (@nil Z)) with 0; lia|].
  exists bs, F', ys. split_and!.
  - unfold h_consume. unfold_M. destruct x as [|c x]; [done|]. cbn [length h_pairs].
    rewrite bool_decide_false by lia. unfold_M. rewrite (bool_decide_false (zlength _ > BB)) by lia.
    rewrite (bool_decide_false (zlength _ = BB)), andb_false_r by lia. cbn [orb].
    unfold h_merge_cv_stack at 1. unfold_M. cbn [content h_cv_stack h_block_counter].
    unfold roots at 1. rewrite length_fmap.
    rewrite (h_merge_loop_run iv _ _ F F') by (done || apply keyed_fresh).
    unfold h_block. cbn [content h_block_state]. by rewrite Hu.
  - split_and!; done || lia || congruence.
  - done.
  - intros Hfor. rewrite (merge_to_done _ F k Hfor) in Hm. by simplify_eq.
Qed.

Lemma update_first x :
  x ≠ [] → zlength x < BB →
  ∃ bs, h_update x (h_new_with_iv [] iv) = Some (tt, content iv bs [] 0) ∧ in_block 0 [] x [] bs.
Proof.
  pose proof BB_val as HBB. intros Hne Hx.
  destruct (start_block 0 [] [] x) as (bs & F' & ys & Hrun & Hin & _ & HF'); try done; [by left|change (zlength (@nil Z)) with 0; lia|].
  rewrite HF' in * by constructor. exists bs. split; [|done]. exact Hrun.
Qed.

Lemma update_within k d0 e F bs x :
  in_block k d0 e F bs → zlength e + zlength x ≤ BB → zlength d0 + zlength e + zlength x < 2 ^ 60 →
  ∃ bs', h_update x (content iv bs F k) = Some (tt, content iv bs' F k) ∧ in_block k d0 (e ++ x) F bs'.
Proof.
  pose proof BB_val as HBB. intros (Hd0 & Hk & Hne & He & Htot & Hinv & HF & Hl) Hx Htot'.
  pose proof (zlength_nonneg x). pose proof (zlength_nonneg e).
  destruct (block_base k) as [Hb Hb256]; [lia|].
  destruct (bh_update_run iv (256 * k) Hb Hb256 e bs x Hinv) as (bs' & Hu & Hinv'); [lia|].
  exists bs'. split.
  - unfold h_update. unfold_M. cbn [content h_block_state].
    rewrite (bh_len_run iv (256 * k) Hb256 e bs Hinv).
    rewrite bool_decide_true by (destruct e; [done|unfold zlength; simpl; lia]).
    rewrite Nat.min_r by (unfold zlength in *; lia). rewrite firstn_all, skipn_all.
    unfold h_block. cbn [content h_block_state]. by rewrite Hu.
  - split_and!; rewrite ?zlength_app; try done || lia. by destruct e.
Qed.

Lemma push_run F k cv bs :
  keyed iv bs → forest 0 F k → 0 ≤ k < 2 ^ 42 →
  h_push_cv cv (content iv bs F k) = Some (tt, content iv bs (Leaf cv :: F) (k + 1)).
Proof.
  intros Hbs HF Hk. unfold h_push_cv, h_merge_cv_stack. unfold_M. cbn [content h_cv_stack h_block_counter].
  rewrite (h_merge_loop_run iv _ _ F F) by (done || by apply merge_to_done).
  pose proof (forest_length 0 F k 42 HF ltac:(lia) ltac:(lia)) as Hlen.
  rewrite bool_decide_false.
  - unfold content, push, vec_collector. simpl. rewrite wrap_small by (unfold in_width; lia). done.
  - cbn [content h_cv_stack]. unfold roots. rewrite length_fmap. unfold zlength, TREE_STACK_SIZE in *. lia.
Qed.

(** The piece that goes on into the next block: the hash of the block is the next
    hash of the array. *)
Lemma update_cross k d0 e F bs x :
  in_block k d0 e F bs → zlength x < BB → BB < zlength e + zlength x →
  zlength d0 + zlength e + zlength x < 2 ^ 60 →
  let n := Z.to_nat (BB - zlength e) in
  ∃ bs' F' ys, h_update x (content iv bs F k) = Some (tt, content iv bs' F' (k + 1)) ∧
    in_block (k + 1) (d0 ++ e ++ take n x) (drop n x) F' bs' ∧
    posts m F' = posts m F ++ block_cv iv k (e ++ take n x) :: ys.
Proof.
  pose proof BB_val as HBB. intros (Hd0 & Hk & Hne & He & Htot & Hinv & HF & Hl) Hx Hcross Htot' n.
  pose proof (zlength_nonneg x). pose proof (zlength_nonneg e).
  destruct (block_base k) as [Hb Hb256]; [lia|].
  assert (zlength (take n x) = BB - zlength e) as Hn by (unfold n, zlength in *; rewrite length_take; lia).
  assert (zlength (drop n x) = zlength x - (BB - zlength e)) as Hr
    by (clear Hn; unfold n, zlength in *; rewrite length_drop; lia).
  destruct (bh_update_run iv (256 * k) Hb Hb256 e bs (take n x) Hinv) as (bs1 & Hu & Hinv1); [lia|].
  assert (zlength (e ++ take n x) = BB) as Hfull by (rewrite zlength_app; lia).
  destruct (block_full iv k (e ++ take n x) bs1) as (o & Hf & Ho & Hnext); [lia|done|done|].
  destruct (block_inv_fields iv (256 * k) _ _ Hinv1) as [Hiv Hfl].
  destruct (at_block_push iv k d0 F (e ++ take n x) F) as (Hd1 & Hk1 & HF1 & Hl1); try done.
  { split_and!; [done|done|by apply forest_lazy|done]. }
  destruct (start_block (k + 1) (d0 ++ e ++ take n x) (Leaf (block_cv iv k (e ++ take n x)) :: F) (drop n x))
    as (bs' & F' & ys & Hrun & Hin & Hys & _); try done.
  { intros Hnil. rewrite Hnil in Hr. change (zlength (@nil Z)) with 0 in Hr. lia. }
  { lia. }
  { rewrite !zlength_app in *. lia. }
  exists bs', F', ys. split_and!; [|done|by rewrite Hys; cbn [posts post_order]; rewrite <-app_assoc].
  unfold h_update. unfold_M. cbn [content h_block_state].
  rewrite (bh_len_run iv (256 * k) Hb256 e bs Hinv).
  rewrite bool_decide_true by (destruct e; [done|unfold zlength; simpl; lia]).
  rewrite Nat.min_l by (unfold zlength in *; lia). fold n. unfold h_block at 1. cbn [content h_block_state].
  rewrite Hu. change (h_with_block bs1 _) with (content iv bs1 F k).
  destruct (drop n x) as [|c rest] eqn:Hdrop; [change (zlength (@nil Z)) with 0 in Hr; lia|].
  unfold_M. cbn [content h_block_state]. rewrite Hf. cbn [unwrap]. unfold_M.
  change (mkBlake3Hasher bs1 (roots m F) k (posts m F)) with (content iv bs1 F k).
  rewrite (push_run F k (chaining_value o) bs1 (conj Hiv Hfl) HF) by lia. unfold h_block at 1. unfold_M. cbn [content h_block_state].
  rewrite Hnext, Ho. exact Hrun.
Qed.

(** The hash of the last block of several is the next hash of the array, too. *)
Lemma init_post_join F t :
  F ≠ [] → ∃ ys, init_post iv (join_trees F t) = posts m F ++ post_order m false t ++ ys.
Proof.
  revert t. induction F as [|t1 F IH]; intros t Hne; [done|]. cbn [join_trees posts].
  destruct F as [|t2 F]; [exists []; by rewrite app_nil_r|].
  destruct (IH (Node t1 t)) as [ys ->]; [done|]. cbn [post_order]. eexists. by rewrite <-!app_assoc.
Qed.

Lemma final_steps k d0 e F bs :
  in_block k d0 e F bs →
  ∃ tree hash, h_finalize_tree (content iv bs F k) = Some (tree, hash) ∧
    iv_hash_all_at_once iv (d0 ++ e) = Some hash ∧
    (k = 0 → tree = []) ∧
    (0 < k → tree ++ [hash] = post_order m true (tree_of (block_cvs iv 0 (d0 ++ e))) ∧
             ∃ ys, tree = posts m F ++ block_cv iv k e :: ys).
Proof.
  pose proof BB_val as HBB. intros Hin. destruct (h_final_run iv _ _ (in_block_inv _ _ _ _ _ Hin)) as (o & Hf & Hh & Hr).
  destruct Hin as (Hd0 & Hk & Hne & He & Htot & Hinv & HF & Hl). rewrite zlength_app in *.
  unfold h_finalize_tree. rewrite Hf. cbn [mbind option_bind]. do 2 eexists. split; [done|]. split; [done|].
  assert (0 < zlength e) by (destruct e; [done|unfold zlength; simpl; lia]).
  split; [intros ->; by rewrite bool_decide_true by lia|]. intros Hk0.
  rewrite bool_decide_false by lia. split; [rewrite Hr by lia; apply init_post_root|].
  destruct (content_tree iv k d0 e F Hd0 ltac:(lia) Hl) as [-> _]; [|done..].
  destruct (init_post_join F (Leaf (block_cv iv k e))) as [ys ->]; [|by exists ys].
  intros ->. pose proof (forest_ones 0 [] k ltac:(lia) HF) as Hz.
  pose proof (posts_length m 0 [] k HF ltac:(lia)) as Hp. change (zlength (@nil (tree Bytes))) with 0 in *. simpl in Hp.
  change (zlength (@nil Bytes)) with 0 in Hp. lia.
Qed.

(** ** The lengths of the hashes *)

Lemma root_of_hash b t : Forall is_hash (leaves t) → is_hash (root_of m b t).
Proof. destruct t; intros Ht; [by inversion Ht|apply iv_merge_length]. Qed.

Lemma post_order_hashes b t : Forall is_hash (leaves t) → Forall is_hash (post_order m b t).
Proof.
  revert b. induction t as [a|l IHl r IHr]; intros b; [done|]. cbn [leaves post_order].
  intros [Hl Hr]%Forall_app. rewrite !Forall_app. split_and!; [auto..|].
  apply Forall_singleton, iv_merge_length.
Qed.

Lemma block_cv_hash i x : x ≠ [] → zlength x < 2 ^ 60 → is_hash (block_cv iv i x).
Proof.
  intros Hne Hx. apply root_of_hash. pose proof (chunk_cvs_count iv (256 * i) x) as Hc.
  assert (0 < zlength x) by (destruct x; [done|unfold zlength; simpl; lia]).
  pose proof (Z.div_mod (zlength x + 1023) 1024 ltac:(lia)).
  pose proof (Z.mod_pos_bound (zlength x + 1023) 1024 ltac:(lia)).
  destruct (tree_of_spec (chunk_cvs iv (256 * i) x)) as [_ ->]; [|lia|apply chunk_cvs_hashes].
  intros Hn. rewrite Hn in Hc. change (zlength (@nil Bytes)) with 0 in Hc. lia.
Qed.

Lemma block_cvs_hashes i d : zlength d < 2 ^ 60 → Forall is_hash (block_cvs iv i d).
Proof.
  pose proof BB_val. intros Hd. apply Forall_lookup. intros j h Hj. unfold block_cvs in Hj.
  rewrite list_lookup_imap in Hj. apply fmap_Some in Hj as (x & Hx & ->).
  destruct (block_pieces d x j Hx) as (Hne & Hx' & _). apply block_cv_hash; [done|lia].
Qed.

Lemma posts_hashes F : Forall is_hash (forest_leaves F) → Forall is_hash (posts m F).
Proof.
  induction F as [|t F IH]; [done|]. cbn [forest_leaves posts]. intros [HF Ht]%Forall_app.
  apply Forall_app. split; [auto|by apply post_order_hashes].
Qed.

(** The array of the tree over the blocks of a content. *)
Lemma tree_array_facts d :
  d ≠ [] → zlength d < 2 ^ 60 →
  let t := tree_of (block_cvs iv 0 d) in
  shaped t ∧ leaves t = block_cvs iv 0 d ∧ Forall is_hash (post_order m true t) ∧
  zlength (post_order m true t) = 2 * zlength (block_cvs iv 0 d) - 1 ∧ 1 ≤ zlength (block_cvs iv 0 d) < 2 ^ 43.
Proof.
  intros Hne Hd t. assert (0 < zlength d) by (destruct d; [done|unfold zlength; simpl; lia]).
  pose proof (block_cvs_count iv 0 d) as Hc.
  pose proof (Z.div_mod (zlength d + 262143) 262144 ltac:(lia)).
  pose proof (Z.mod_pos_bound (zlength d + 262143) 262144 ltac:(lia)).
  destruct (tree_of_spec (block_cvs iv 0 d)) as [Hs Hl]; [|lia|].
  { intros Hn. rewrite Hn in Hc. change (zlength (@nil Bytes)) with 0 in Hc. lia. }
  split_and!; [done|done| | |lia|lia].
  - apply post_order_hashes. unfold t. rewrite Hl. by apply block_cvs_hashes.
  - rewrite post_order_length. unfold count, t. by rewrite Hl.
Qed.
End steps.
