(* ===== verification/Bucket.v ===== *)
(** * Bucket: contents on the disk

    The bucket of [lib/b3fs/src/bucket/]: contents are written, by a trusted writer
    that hashes the bytes or by an untrusted one that verifies them against
    proofs, into files of a temporary directory that a commit moves to the
    headers and the blocks, and are read back through the array of hashes in the
    header.  The disk is a map from paths to bytes; every operation on it may
    fail. *)

From S2P Require Import Prelude Types Codec HashTree ProofBuf Blake3 Verifier ByteHasher.
From stdpp Require Import base list gmap strings.
From Stdlib Require Import ZArith Lia Ascii.
Open Scope Z_scope.

(** [r?]: an error is returned as it is. *)
Definition try_bind {S A B E} (m : M S (Result A E)) (k : A → M S (Result B E)) : M S (Result B E) :=
  r ← m;
  match r with Ok a => k a | Err e => mret (Err e) end.

Notation "x ←? m ; k" := (try_bind m (λ x, k))
  (at level 20, m at level 100, k at level 200, format "x  ←?  m ;  '/' k") : lightning_scope.
Notation "m ;;? k" := (try_bind m (λ _, k))
  (at level 100, k at level 200, right associativity, format "m ;;? '/' k") : lightning_scope.

(** [map_err], and the conversions of [?]. *)
Definition map_err {S A E F} (f : E → F) (m : M S (Result A E)) : M S (Result A F) :=
  r ← m;
  mret (match r with Ok a => Ok a | Err e => Err (f e) end).

(** ** Names *)

Definition hex_digit (n : Z) : ascii :=
  ascii_of_nat (Z.to_nat (if bool_decide (n < 10) then 48 + n else 87 + n)).

Fixpoint to_hex (slice : Bytes) : string :=
  match slice with
  | [] => ""
  | b :: slice => String (hex_digit (Z.shiftr b 4)) (String (hex_digit (Z.land b 15)) (to_hex slice))
  end.

(** [u8::from_str_radix] on one digit; it also takes upper case. *)
Definition digit_value (c : ascii) : option Z :=
  let n := Z.of_nat (nat_of_ascii c) in
  if bool_decide (48 ≤ n ≤ 57) then Some (n - 48)
  else if bool_decide (97 ≤ n ≤ 102) then Some (n - 87)
  else if bool_decide (65 ≤ n ≤ 70) then Some (n - 55)
  else None.

(** [None] is the panic on a character that is no digit. *)
Fixpoint from_hex (hex : string) : option Bytes :=
  match hex with
  | String a (String b hex) =>
      x ← digit_value a; y ← digit_value b; rest ← from_hex hex; Some (16 * x + y :: rest)
  | _ => Some []
  end.

Abbreviation Path := (list string) (only parsing).

Definition BLOCKS_PATH : string := "blocks".
Definition HEADERS_PATH : string := "headers".
Definition TEMP_PATH : string := "wal".

(** The root directory of a bucket. *)
Record Bucket := mkBucket { bucket_root : Path }.

Definition get_block_path (b : Bucket) (hash : Bytes) : Path := bucket_root b ++ [BLOCKS_PATH; to_hex hash].
Definition get_header_path (b : Bucket) (hash : Bytes) : Path := bucket_root b ++ [HEADERS_PATH; to_hex hash].
Definition wal_path (b : Bucket) : Path := bucket_root b ++ [TEMP_PATH].

(** ** The disk *)

Inductive IoError := IoFailed | NotFound | UnexpectedEof | OtherError | InvalidData.

(** The files, the random names to come, and which of the next operations fail. *)
Record Disk := mkDisk {
  files : gmap (list string) Bytes;
  names : list Bytes;
  faults : list bool
}.

Definition set_files (f : gmap (list string) Bytes) (d : Disk) : Disk := mkDisk f (names d) (faults d).

(** An operation of the operating system. *)
Definition io {A} (op : M Disk (Result A IoError)) : M Disk (Result A IoError) := λ d,
  match faults d with
  | [] => op d
  | true :: fs => Some (Err IoFailed, mkDisk (files d) (names d) fs)
  | false :: fs => op (mkDisk (files d) (names d) fs)
  end.

(** [random]; the list of names is as long as needed. *)
Definition random : M Disk Bytes := λ d,
  match names d with
  | [] => None
  | name :: ns => Some (name, mkDisk (files d) ns (faults d))
  end.

Definition fs_rename (src dst : Path) : M Disk (Result unit IoError) :=
  io (d ← get;
      match files d !! src with
      | None => mret (Err NotFound)
      | Some data => modify (set_files (<[dst:=data]> (delete src (files d))));; mret (Ok tt)
      end).

(** Open for appending, or truncated. *)
Definition fs_open_append (path : Path) : M Disk (Result unit IoError) :=
  io (modify (λ d, set_files (<[path:=default [] (files d !! path)]> (files d)) d);; mret (Ok tt)).
Definition fs_open_truncate (path : Path) : M Disk (Result unit IoError) :=
  io (modify (λ d, set_files (<[path:=[]]> (files d)) d);; mret (Ok tt)).

(** Bytes go to the end of the open file.  The writers are buffered, and flushed
    before anything is read or moved. *)
Definition fs_write_all (path : Path) (bytes : Bytes) : M Disk (Result unit IoError) :=
  io (modify (λ d, set_files (<[path:=default [] (files d !! path) ++ bytes]> (files d)) d);; mret (Ok tt)).
Definition fs_write_at (path : Path) (bytes : Bytes) (offset : nat) : M Disk (Result unit IoError) :=
  io (modify (λ d,
        let data := default [] (files d !! path) in
        set_files (<[path:=take offset data ++ bytes ++ drop (offset + length bytes) data]> (files d)) d);;
      mret (Ok tt)).

Definition fs_read (path : Path) : M Disk (Result Bytes IoError) :=
  io (d ← get;
      mret (match files d !! path with Some data => Ok data | None => Err NotFound end)).
Definition fs_try_exists (path : Path) : M Disk (Result bool IoError) :=
  io (d ← get; mret (Ok (is_some (files d !! path)))).

Definition fs_flush : M Disk (Result unit IoError) := io (mret (Ok tt)).

(** [create_dir_all] has no effect on files. *)
Definition fs_create_dir_all (path : Path) : M Disk (Result unit IoError) := io (mret (Ok tt)).
Definition fs_remove_dir_all (path : Path) : M Disk (Result unit IoError) :=
  io (modify (λ d, set_files (filter (λ kv, ¬ path `prefix_of` kv.1) (files d)) d);; mret (Ok tt)).

(** [random_file_from] and [get_new_wal_path]. *)
Definition random_file_from (path : Path) : M Disk Path :=
  name ← random; mret (path ++ [to_hex name]).
Definition get_new_wal_path (b : Bucket) : M Disk Path := random_file_from (wal_path b).

(** ** Errors *)

Inductive WriteError :=
| InvalidContent | DecompressionFailure | WriteIOError (e : IoError) | BlockHashNotFound
| InvalidBlockHash (e : VerificationError) | BlockFileNotFound | WriteLockError.

Inductive CommitError :=
| PartialContent | InvalidCID | WriteFailed | CommitIOError (e : IoError)
| CommitWriteError (e : WriteError).

Inductive ReadError :=
| ReadingFile (e : IoError) | RefFile | InvalidBloomFilter | HashNotFound (index : Z).

(** ** [collector.rs] *)

Record BufCollector := mkBufCollector {
  num_collected : Z;
  buffer : Bytes
}.

Definition bc_default : BufCollector := mkBufCollector 0 [].
Definition bc_push (c : BufCollector) (hash : Bytes) : BufCollector :=
  mkBufCollector (num_collected c +[64] 1) (buffer c ++ hash).
#[global] Instance buf_collector : HashTreeCollector BufCollector := bc_push.

(** An operation on one of two parts of a state. *)
Definition on_fst {S D A} (m : M S A) : M (S * D) A := λ sd,
  match m sd.1 with Some (a, s) => Some (a, (s, sd.2)) | None => None end.
Definition on_snd {S D A} (m : M D A) : M (S * D) A := λ sd,
  match m sd.2 with Some (a, d) => Some (a, (sd.1, d)) | None => None end.

(** [write_hash] to the open file at [path]. *)
Definition write_hash (path : Path) : M (BufCollector * Disk) (Result unit IoError) :=
  c ← on_fst get;
  on_snd (fs_write_all path (buffer c));;?
  on_snd fs_flush;;?
  on_fst (modify (λ c, mkBufCollector (num_collected c) []));;
  mret (Ok tt).

(** [write_hash] of a collector that is not needed any more. *)
Definition write_final (c : BufCollector) (path : Path) : M Disk (Result unit IoError) := λ d,
  match write_hash path (c, d) with
  | Some (r, (_, d)) => Some (r, d)
  | None => None
  end.

(** [None] is the panic on a hash that is not collected yet. *)
Definition get_block_hash (block_counter : Z) (c : BufCollector) : option (option Bytes) :=
  let index := tree_index block_counter in
  let flushed := num_collected c -[64] zlength (buffer c) / 32 in
  if bool_decide (index < flushed) then Some None
  else
    let offset := index - flushed in
    if bool_decide (zlength (buffer c) < 32) then Some None
    else if bool_decide (offset * 32 + 32 ≤ zlength (buffer c))
    then Some (Some (take 32 (drop (Z.to_nat (offset * 32)) (buffer c)))) else None.

(** ** [file/state/mod.rs] *)

Definition HEADER_FILE_VERSION : Z := 0.
Definition POSITION_START_HASHES : nat := 8.
Definition POSITION_START_NUM_ENTRIES : nat := POSITION_START_HASHES - 4.
Definition MAX_BLOCK_SIZE_IN_BYTES : Z := 256 * 1024.
Definition BLOCK_SIZE_IN_CHUNKS : nat := 256.

Record BlockFile := mkBlockFile {
  bf_size : Z;
  bf_path : Path
}.

Definition block_from_wal_path (path : Path) : M Disk (Result BlockFile IoError) :=
  path ← random_file_from path;
  fs_open_append path;;?
  mret (Ok (mkBlockFile 0 path)).

(** The block file with the bytes. *)
Definition block_write_all (b : BlockFile) (bytes : Bytes) : M Disk (Result BlockFile IoError) :=
  fs_write_all (bf_path b) bytes;;?
  mret (Ok (mkBlockFile (bf_size b +[64] zlength bytes) (bf_path b))).

Definition block_commit (b : BlockFile) (temp_path : Path) (block_hash : Bytes)
    : M Disk (Result Path IoError) :=
  fs_flush;;?
  let new_block_file_path := temp_path ++ [to_hex block_hash] in
  fs_rename (bf_path b) new_block_file_path;;?
  mret (Ok new_block_file_path).

(** A header file is its path. *)
Definition header_from_wal_path (path : Path) : M Disk (Result Path IoError) :=
  path ← random_file_from path;
  fs_open_truncate path;;?
  fs_write_all path (to_le_bytes 4 HEADER_FILE_VERSION);;?
  fs_write_all path (to_le_bytes 4 0);;?
  fs_flush;;?
  mret (Ok path).

Definition update_num_entries (path : Path) (num_entries : Z) : M Disk (Result unit IoError) :=
  fs_write_at path (to_le_bytes 4 num_entries) POSITION_START_NUM_ENTRIES.

Fixpoint move_blocks (bucket : Bucket) (block_files : list (Bytes * Path)) : M Disk (Result unit IoError) :=
  match block_files with
  | [] => mret (Ok tt)
  | (hash, path) :: block_files =>
      fs_rename path (get_block_path bucket hash);;?
      move_blocks bucket block_files
  end.

Definition header_flush (path : Path) (bucket : Bucket) (block_files : list (Bytes * Path))
    (root_hash : Bytes) : M Disk (Result unit IoError) :=
  update_num_entries path (wrap 32 (zlength block_files));;?
  fs_rename path (get_header_path bucket root_hash);;?
  move_blocks bucket block_files.

(** What a writer needs of its collector. *)
Class WithCollector (T : Type) := {
  collect : Bytes → M T (Result unit WriteError);
  has_reach_block : T → Z → bool;
  on_reach_full_block : Z → bool → M T (Result (option Bytes) WriteError);
  on_new_block : Z → Path → M (T * Disk) (Result unit IoError);
  final_block : Z → M T (Result (option Bytes) WriteError);
  finalize_tree : M T (Result (BufCollector * Bytes) WriteError)
}.

Record InnerWriterState (T : Type) := mkInnerWriterState {
  w_bucket : Bucket;
  w_temp_file_path : Path;
  w_block_files : list (Bytes * Path);
  w_current_block_file : option BlockFile;
  w_header_file : Path;
  w_count_block : Z;
  w_collector : T
}.
Arguments mkInnerWriterState {T}.
Arguments w_bucket {T}.
Arguments w_temp_file_path {T}.
Arguments w_block_files {T}.
Arguments w_current_block_file {T}.
Arguments w_header_file {T}.
Arguments w_count_block {T}.
Arguments w_collector {T}.

Section writer.
Context {T : Type} {W : WithCollector T}.

(** A writer and the disk. *)
Abbreviation Writer A E := (M (InnerWriterState T * Disk) (Result A E)).

Definition with_current (b : option BlockFile) (w : InnerWriterState T) : InnerWriterState T :=
  mkInnerWriterState (w_bucket w) (w_temp_file_path w) (w_block_files w) b (w_header_file w)
    (w_count_block w) (w_collector w).

Definition with_collector (c : T) (w : InnerWriterState T) : InnerWriterState T :=
  mkInnerWriterState (w_bucket w) (w_temp_file_path w) (w_block_files w) (w_current_block_file w)
    (w_header_file w) (w_count_block w) c.

Definition on_collector {A} (m : M T A) : M (InnerWriterState T * Disk) A := λ wd,
  match m (w_collector wd.1) with
  | Some (a, c) => Some (a, (with_collector c wd.1, wd.2))
  | None => None
  end.

(** An operation of the collector that writes to the disk. *)
Definition on_both {A} (m : M (T * Disk) A) : M (InnerWriterState T * Disk) A := λ wd,
  match m (w_collector wd.1, wd.2) with
  | Some (a, (c, d)) => Some (a, (with_collector c wd.1, d))
  | None => None
  end.

Definition writer_new (bucket : Bucket) (collector : T) : M Disk (Result (InnerWriterState T) IoError) :=
  wal_path ← get_new_wal_path bucket;
  fs_create_dir_all wal_path;;?
  header_file ←? header_from_wal_path wal_path;
  mret (Ok (mkInnerWriterState bucket wal_path [] None header_file 0 collector)).

Definition new_block (block_hash : Bytes) : Writer unit IoError :=
  w ← on_fst get;
  match w_current_block_file w with
  | Some block =>
      new_block_file_path ←? on_snd (block_commit block (w_temp_file_path w) block_hash);
      on_fst (modify (λ w, mkInnerWriterState (w_bucket w) (w_temp_file_path w)
        (w_block_files w ++ [(block_hash, new_block_file_path)]) (w_current_block_file w)
        (w_header_file w) (w_count_block w +[64] 1) (w_collector w)));;
      mret (Ok tt)
  | None => mret (Err OtherError)
  end.

Definition create_new_block_file : Writer unit IoError :=
  w ← on_fst get;
  block_file ←? on_snd (block_from_wal_path (w_temp_file_path w));
  on_fst (modify (with_current (Some block_file)));;
  mret (Ok tt).

Definition write_block_file (bytes : Bytes) : Writer unit IoError :=
  w ← on_fst get;
  match w_current_block_file w with
  | Some block =>
      block ←? on_snd (block_write_all block bytes);
      on_fst (modify (with_current (Some block)));;
      mret (Ok tt)
  | None => mret (Err OtherError)
  end.

(** The bytes that are left for the block file. *)
Definition process_block (bytes : Bytes) (last_bytes : bool) : Writer Bytes WriteError :=
  w ← on_fst get;
  match w_current_block_file w with
  | Some block =>
      if has_reach_block (w_collector w) (bf_size block +[64] zlength bytes) then
        let remaining := MAX_BLOCK_SIZE_IN_BYTES -[64] bf_size block in
        if bool_decide (zlength bytes < remaining) then panic
        else
          let block_before_remaining := take (Z.to_nat remaining) bytes in
          let bytes := drop (Z.to_nat remaining) bytes in
          map_err WriteIOError (write_block_file block_before_remaining);;?
          block_hash ←? on_collector (on_reach_full_block (w_count_block w) last_bytes);
          match block_hash with
          | Some block_hash =>
              map_err WriteIOError (new_block block_hash);;?
              w ← on_fst get;
              map_err WriteIOError (on_both (on_new_block (w_count_block w) (w_header_file w)));;?
              map_err WriteIOError create_new_block_file;;?
              mret (Ok bytes)
          | None => mret (Ok bytes)
          end
      else mret (Ok bytes)
  | None => map_err WriteIOError create_new_block_file;;? mret (Ok bytes)
  end.

(** The loop over the pieces of the bytes; the fuel is their number. *)
Fixpoint write_loop (fuel : nat) (bytes_mut : Bytes) (last_bytes : bool) : Writer unit WriteError :=
  match bytes_mut, fuel with
  | [], _ => mret (Ok tt)
  | _, O => panic
  | _, S fuel =>
      let want := Nat.min BLOCK_SIZE_IN_CHUNKS (length bytes_mut) in
      let bytes := take want bytes_mut in
      on_collector (collect bytes);;?
      bytes ←? process_block bytes last_bytes;
      map_err WriteIOError (write_block_file bytes);;?
      write_loop fuel (drop want bytes_mut) last_bytes
  end.

Definition writer_write (bytes : Bytes) (last_bytes : bool) : Writer unit WriteError :=
  write_loop (length bytes) bytes last_bytes.

Definition writer_flush (root_hash : Bytes) : Writer unit IoError :=
  w ← on_fst get;
  on_snd (header_flush (w_header_file w) (w_bucket w) (w_block_files w) root_hash);;?
  on_snd (fs_remove_dir_all (w_temp_file_path w)).

Definition writer_commit : Writer Bytes CommitError :=
  w ← on_fst get;
  (match w_current_block_file w with
   | Some _ =>
       block_hash ←? map_err CommitWriteError (on_collector (final_block (w_count_block w)));
       match block_hash with
       | Some block_hash => map_err CommitIOError (new_block block_hash)
       | None => mret (Ok tt)
       end
   | None => mret (Ok tt)
   end);;?
  final ←? map_err CommitWriteError (on_collector finalize_tree);
  let '(final_collector, root_hash) := final in
  w ← on_fst get;
  (if is_some (w_current_block_file w) && bool_decide (w_count_block w = 0)
   then map_err CommitIOError (new_block root_hash) else mret (Ok tt));;?
  map_err CommitIOError (on_snd (write_final final_collector (w_header_file w)));;?
  map_err CommitIOError (writer_flush root_hash);;?
  mret (Ok root_hash).

Definition writer_rollback : Writer unit IoError :=
  w ← on_fst get;
  on_snd (fs_remove_dir_all (w_temp_file_path w)).
End writer.

(** ** [file/state/writer.rs]: the trusted writer *)

Section collectors.
Context {P : Platform}.

Record FileWriterCollector := mkFileWriterCollector {
  fc_hasher : Blake3Hasher BufCollector;
  fc_finalized_tree : option (BufCollector * Bytes)
}.

Definition fc_new : FileWriterCollector :=
  mkFileWriterCollector (h_new_with_iv bc_default IV_DEFAULT) None.

Definition fc_with_hasher (h : Blake3Hasher BufCollector) (c : FileWriterCollector) : FileWriterCollector :=
  mkFileWriterCollector h (fc_finalized_tree c).

Definition fc_collect (bytes : Bytes) : M FileWriterCollector (Result unit WriteError) := λ c,
  match h_update bytes (fc_hasher c) with
  | Some (_, h) => Some (Ok tt, fc_with_hasher h c)
  | None => None
  end.

Definition fc_has_reach_block (c : FileWriterCollector) (bytes_size : Z) : bool :=
  bool_decide (MAX_BLOCK_SIZE_IN_BYTES < bytes_size).

Definition fc_on_reach_full_block (count_block : Z) (_last_bytes : bool)
    : M FileWriterCollector (Result (option Bytes) WriteError) :=
  c ← get;
  hash ← unwrap (get_block_hash count_block (h_tree (fc_hasher c)));
  mret (Ok hash).

Definition h_with_tree (tree : BufCollector) (h : Blake3Hasher BufCollector) : Blake3Hasher BufCollector :=
  mkBlake3Hasher (h_block_state h) (h_cv_stack h) (h_block_counter h) tree.

Definition fc_on_new_block (count_block : Z) (writer : Path)
    : M (FileWriterCollector * Disk) (Result unit IoError) := λ cd,
  let h := fc_hasher cd.1 in
  match write_hash writer (h_tree h, cd.2) with
  | Some (r, (tree, d)) => Some (r, (fc_with_hasher (h_with_tree tree h) cd.1, d))
  | None => None
  end.

Definition fc_final_block (count_block : Z)
    : M FileWriterCollector (Result (option Bytes) WriteError) :=
  c ← get;
  '(collector, root_hash) ← unwrap (h_finalize_tree (fc_hasher c));
  block_hash ← unwrap (get_block_hash count_block collector);
  let collector := push collector root_hash in
  modify (λ c, mkFileWriterCollector (fc_hasher c) (Some (collector, root_hash)));;
  mret (Ok block_hash).

Definition fc_finalize_tree : M FileWriterCollector (Result (BufCollector * Bytes) WriteError) :=
  c ← get;
  match fc_finalized_tree c with
  | Some finalized_tree =>
      modify (λ c, mkFileWriterCollector (fc_hasher c) None);;
      mret (Ok finalized_tree)
  | None =>
      final ← unwrap (h_finalize_tree (fc_hasher c));
      mret (Ok final)
  end.

#[global] Instance file_writer_collector : WithCollector FileWriterCollector := {
  collect := fc_collect;
  has_reach_block := fc_has_reach_block;
  on_reach_full_block := fc_on_reach_full_block;
  on_new_block := fc_on_new_block;
  final_block := fc_final_block;
  finalize_tree := fc_finalize_tree
}.

(** [FileWriter]. *)
Definition file_writer_new (bucket : Bucket)
    : M Disk (Result (InnerWriterState FileWriterCollector) WriteError) :=
  map_err WriteIOError (writer_new bucket fc_new).

(** ** [file/state/uwriter.rs]: the untrusted writer *)

Record UntrustedFileWriterCollector := mkUntrusted {
  uc_current_hasher : BlockHasher;
  uc_increment_verifier : IncrementalVerifier;
  uc_root_hash : Bytes;
  uc_buffer_bytes : Bytes
}.

Definition uc_new (root_hash : Bytes) : option UntrustedFileWriterCollector :=
  '(_, verifier) ← set_root_hash root_hash (verifier_new IV_DEFAULT (WithHashTreeCollector 0 []));
  Some (mkUntrusted (bh_from IV_DEFAULT) verifier root_hash []).

Definition uc_with_buffer (buffer : Bytes) (c : UntrustedFileWriterCollector)
    : UntrustedFileWriterCollector :=
  mkUntrusted (uc_current_hasher c) (uc_increment_verifier c) (uc_root_hash c) buffer.

Definition uc_with_hasher (h : BlockHasher) (c : UntrustedFileWriterCollector)
    : UntrustedFileWriterCollector :=
  mkUntrusted h (uc_increment_verifier c) (uc_root_hash c) (uc_buffer_bytes c).

Definition uc_verifier {A} (m : M IncrementalVerifier A) : M UntrustedFileWriterCollector A := λ c,
  match m (uc_increment_verifier c) with
  | Some (a, v) => Some (a, mkUntrusted (uc_current_hasher c) v (uc_root_hash c) (uc_buffer_bytes c))
  | None => None
  end.

Definition uc_hasher {A} (m : M BlockHasher A) : M UntrustedFileWriterCollector A := λ c,
  match m (uc_current_hasher c) with
  | Some (a, h) => Some (a, uc_with_hasher h c)
  | None => None
  end.

Definition uc_feed_proof (proof : Bytes) : M UntrustedFileWriterCollector (Result unit VerificationError) :=
  uc_verifier (feed_proof proof).

Definition uc_collect (bytes : Bytes) : M UntrustedFileWriterCollector (Result unit WriteError) :=
  modify (λ c, uc_with_buffer (uc_buffer_bytes c ++ bytes) c);;
  mret (Ok tt).

Definition uc_on_new_block (count_block : Z) (_writer : Path)
    : M (UntrustedFileWriterCollector * Disk) (Result unit IoError) :=
  hasher ← unwrap (bh_set_block count_block (bh_from IV_DEFAULT));
  on_fst (modify (uc_with_hasher hasher));;
  mret (Ok tt).

Definition uc_has_reach_block (c : UntrustedFileWriterCollector) (bytes_size : Z) : bool :=
  bool_decide (MAX_BLOCK_SIZE_IN_BYTES ≤ bytes_size).

(** Hash the bytes of a block and verify the hash. *)
Definition uc_verify_block (bytes_block : Bytes) (is_root : bool)
    : M UntrustedFileWriterCollector (Result (option Bytes) WriteError) :=
  uc_hasher (bh_update bytes_block);;
  c ← get;
  block_hash ← unwrap (bh_finalize is_root (uc_current_hasher c));
  map_err InvalidBlockHash (uc_verifier (verify_hash block_hash));;?
  mret (Ok (Some block_hash)).

Definition uc_on_reach_full_block (_count_block : Z) (last_bytes : bool)
    : M UntrustedFileWriterCollector (Result (option Bytes) WriteError) :=
  c ← get;
  if bool_decide (zlength (uc_buffer_bytes c) = MAX_BLOCK_SIZE_IN_BYTES) && last_bytes
  then mret (Ok None)
  else if bool_decide (MAX_BLOCK_SIZE_IN_BYTES ≤ zlength (uc_buffer_bytes c)) then
    modify (uc_with_buffer (drop (Z.to_nat MAX_BLOCK_SIZE_IN_BYTES) (uc_buffer_bytes c)));;
    uc_verify_block (take (Z.to_nat MAX_BLOCK_SIZE_IN_BYTES) (uc_buffer_bytes c)) false
  else mret (Ok None).

Definition uc_final_block (count_block : Z)
    : M UntrustedFileWriterCollector (Result (option Bytes) WriteError) :=
  c ← get;
  match uc_buffer_bytes c with
  | [] => mret (Ok None)
  | bytes => uc_verify_block bytes (bool_decide (count_block = 0))
  end.

(** The collector of the verifier is only pushed to. *)
Definition buf_of (tree : list Bytes) : BufCollector := foldl push bc_default tree.

Definition uc_finalize_tree : M UntrustedFileWriterCollector (Result (BufCollector * Bytes) WriteError) :=
  c ← get;
  tree ← unwrap (finalize (uc_increment_verifier c));
  modify (λ c, mkUntrusted (uc_current_hasher c) (verifier_new IV_DEFAULT (WithHashTreeCollector 0 []))
    (uc_root_hash c) (uc_buffer_bytes c));;
  mret (Ok (buf_of tree, uc_root_hash c)).

#[global] Instance untrusted_file_writer_collector : WithCollector UntrustedFileWriterCollector := {
  collect := uc_collect;
  has_reach_block := uc_has_reach_block;
  on_reach_full_block := uc_on_reach_full_block;
  on_new_block := uc_on_new_block;
  final_block := uc_final_block;
  finalize_tree := uc_finalize_tree
}.

(** [UntrustedFileWriter]. *)
Definition untrusted_writer_new (bucket : Bucket) (hash : Bytes)
    : M Disk (Result (InnerWriterState UntrustedFileWriterCollector) WriteError) :=
  state ← unwrap (uc_new hash);
  map_err WriteIOError (writer_new bucket state).

Definition untrusted_feed_proof (proof : Bytes)
    : M (InnerWriterState UntrustedFileWriterCollector * Disk) (Result unit VerificationError) :=
  on_collector (uc_feed_proof proof).
End collectors.

(** ** [bucket/mod.rs]: reading *)

Record ContentHeader := mkContentHeader {
  is_file : bool;
  num_entries : Z;
  header_file : Path
}.

Definition bucket_exists (b : Bucket) (hash : Bytes) : M Disk (Result bool IoError) :=
  fs_try_exists (get_header_path b hash).

Definition bucket_get (b : Bucket) (hash : Bytes) : M Disk (Result ContentHeader IoError) :=
  let path := get_header_path b hash in
  data ←? fs_read path;
  if bool_decide (length data < 8)%nat then mret (Err UnexpectedEof)
  else
    let version := from_le_bytes (take 4 data) in
    if bool_decide (1 < version) then mret (Err InvalidData)
    else
      let is_file := bool_decide (version = 0) in
      let num_entries := from_le_bytes (take 4 (drop 4 data)) in
      if negb is_file && bool_decide (65535 < num_entries) then mret (Err InvalidData)
      else mret (Ok (mkContentHeader is_file num_entries path)).

Definition get_block_content (b : Bucket) (hash : Bytes) : M Disk (Result (option Bytes) IoError) :=
  let path := get_block_path b hash in
  found ←? fs_try_exists path;
  if found : bool then
    read ←? fs_read path;
    mret (Ok (Some read))
  else mret (Ok None).
