(* ===== verification/BucketWrite.v ===== *)
(** * BucketWrite: what a trusted writer stores

    [FileWriter] of [lib/b3fs/src/bucket/file/writer.rs] over the state of
    [file/state/mod.rs] and the collector of [file/state/writer.rs]: however a
    content is cut into writes, the commit leaves its blocks, each under its hash,
    and a header with the array of the tree over the blocks, and nothing else; a
    failure of the disk at any operation is reported. *)

From S2P Require Import Prelude Types Codec HashTree ProofBuf Blake3 Blake3Tree Forest Verifier ByteHasher ByteTree ContentHash Collectors ContentSteps Bucket.
From stdpp Require Import base list gmap strings.
From Stdlib Require Import ZArith Lia.
Open Scope Z_scope.

(** ** The collector of the trusted writer *)

Section collector.
Context {P : Platform} {PL : PlatformLaws P}.
#[local] Abbreviation iv := IV_DEFAULT.
#[local] Abbreviation m := (iv_merge iv).
#[local] Arguments iv_merge : simpl never.

(** The hashes of [L] from the first [fl] on are in the buffer. *)
Definition buffer_from (fl : nat) (L : list Bytes) : BufCollector :=
  mkBufCollector (wrap 64 (zlength L)) (concat (drop fl L)).

Definition flushed_from (fl : nat) (L : list Bytes) (c : BufCollector) : Prop :=
  (fl ≤ length L)%nat ∧ c = buffer_from fl L.

Lemma flushed_push fl L c x : flushed_from fl L c → flushed_from fl (push L x) (push c x).
Proof.
  intros [Hfl ->]. unfold push, vec_collector, buf_collector, bc_push, flushed_from, buffer_from.
  rewrite length_app. split; [lia|]. cbn [num_collected buffer]. f_equal.
  - rewrite zlength_app. change (zlength [x]) with 1. unfold wrap. by rewrite Zplus_mod_idemp_l.
  - rewrite drop_app_le, concat_app by done. simpl. by rewrite app_nil_r.
Qed.

(** The hasher with the blocks of a forest, [fl] of its hashes flushed. *)
Definition buffered (bs : BlockHasher) (F : list (tree Bytes)) (k : Z) (fl : nat) : Blake3Hasher BufCollector :=
  mkBlake3Hasher bs (roots m F) k (buffer_from fl (posts m F)).

Lemma buffered_sim bs F k fl :
  (fl ≤ length (posts m F))%nat → h_sim (flushed_from fl) (content iv bs F k) (buffered bs F k fl).
Proof. by intros Hfl. Qed.

Lemma buffered_update x bs F k fl bs' F' k' :
  (fl ≤ length (posts m F))%nat → h_update x (content iv bs F k) = Some (tt, content iv bs' F' k') →
  h_update x (buffered bs F k fl) = Some (tt, buffered bs' F' k' fl) ∧ (fl ≤ length (posts m F'))%nat.
Proof.
  intros Hfl Hu. pose proof (sim_update _ (flushed_push fl) x _ _ (buffered_sim bs F k fl Hfl)) as Hs.
  rewrite Hu in Hs. destruct (h_update x (buffered bs F k fl)) as [[[] h]|]; [|done].
  destruct Hs as (_ & Hb & Hst & Hn & Hfl' & Ht). destruct h as [b s n t]. simpl in *. by subst.
Qed.

Lemma buffered_final bs F k fl tree hash :
  (fl ≤ length (posts m F))%nat → h_finalize_tree (content iv bs F k) = Some (tree, hash) →
  h_finalize_tree (buffered bs F k fl) = Some (buffer_from fl tree, hash) ∧ (fl ≤ length tree)%nat.
Proof.
  intros Hfl. unfold h_finalize_tree.
  pose proof (sim_final _ (flushed_push fl) _ _ (buffered_sim bs F k fl Hfl)) as Hs.
  destruct (h_final_output (content iv bs F k)) as [[o l]|]; [|done].
  destruct (h_final_output (buffered bs F k fl)) as [[o' c]|]; [|done].
  destruct Hs as [<- [Hl ->]]. cbn [mbind option_bind]. intros Hf. by simplify_eq.
Qed.

(** The first hash that is not flushed. *)
Lemma get_block_hash_next k L h ys :
  Forall is_hash (L ++ h :: ys) → zlength (L ++ h :: ys) < 2 ^ 63 → zlength L = tree_index k →
  get_block_hash k (buffer_from (length L) (L ++ h :: ys)) = Some (Some h).
Proof.
  intros HL Hlen Hk. pose proof HL as [_ Hys]%Forall_app. inversion Hys as [|? ? Hh Hys']; subst.
  unfold get_block_hash, buffer_from. cbn [num_collected buffer]. rewrite drop_app_length.
  assert (zlength (concat (h :: ys)) = 32 * zlength (h :: ys)) as Hc
    by (unfold zlength; rewrite concat_hashes_length by done; lia).
  rewrite Hc, (Z.mul_comm 32), Z.div_mul by lia. rewrite zlength_app in *.
  pose proof (zlength_nonneg L). rewrite zlength_cons in *. pose proof (zlength_nonneg ys).
  rewrite (wrap_small 64 (zlength L + _)) by (unfold in_width; lia).
  rewrite wrap_small by (unfold in_width; lia). replace (_ + _ - _) with (zlength L) by lia.
  rewrite <-Hk, bool_decide_false by lia. rewrite bool_decide_false by lia.
  rewrite bool_decide_true by lia. replace (zlength L - zlength L) with 0 by lia.
  change (Z.to_nat (0 * 32)) with 0%nat. rewrite drop_0. cbn [concat]. do 2 f_equal.
  unfold is_hash in Hh. rewrite <-Hh. apply take_app_length.
Qed.
End collector.

(** ** The operations on a disk without failures *)

Lemma try_bind_ok {S A C E} (m : M S (Result A E)) (k : A → M S (Result C E)) s a s' :
  m s = Some (Ok a, s') → try_bind m k s = k a s'.
Proof. intros Hm. unfold try_bind. unfold_M. by rewrite Hm. Qed.

Lemma try_bind_inv {S A C E} (m : M S (Result A E)) (k : A → M S (Result C E)) s c s' :
  try_bind m k s = Some (Ok c, s') → ∃ a s1, m s = Some (Ok a, s1) ∧ k a s1 = Some (Ok c, s').
Proof. unfold try_bind. unfold_M. destruct (m s) as [[[a|e] s1]|]; intros Hk; [by eauto|done..]. Qed.

Lemma map_err_ok {S A E F} (g : E → F) (m : M S (Result A E)) s a s' :
  m s = Some (Ok a, s') → map_err g m s = Some (Ok a, s').
Proof. intros Hm. unfold map_err. unfold_M. by rewrite Hm. Qed.

Lemma bind_run {S A C} (m : M S A) (k : A → M S C) s a s' : m s = Some (a, s') → (m ≫= k) s = k a s'.
Proof. intros Hm. unfold_M. by rewrite Hm. Qed.

Lemma on_snd_run {S D A} (m : M D A) (s : S) d a d' :
  m d = Some (a, d') → on_snd m (s, d) = Some (a, (s, d')).
Proof. intros Hm. unfold on_snd. simpl. by rewrite Hm. Qed.

Lemma fst_get {S D A} (k : S → M (S * D) A) s d : (on_fst get ≫= k) (s, d) = k s (s, d).
Proof. done. Qed.

(** The files outside a removed directory. *)
Lemma lookup_removed (dir p : Path) (f : gmap Path Bytes) :
  filter (λ kv : Path * Bytes, ¬ dir `prefix_of` kv.1) f !! p =
    if bool_decide (dir `prefix_of` p) then None else f !! p.
Proof.
  case_bool_decide as Hp.
  - apply map_lookup_filter_None. right. intros x _ Hn. by apply Hn.
  - destruct (f !! p) eqn:Hf; [by apply map_lookup_filter_Some_2|].
    apply map_lookup_filter_None. by left.
Qed.

Section runs.
Context {T : Type} {W : WithCollector T}.
Implicit Types (w : InnerWriterState T) (f : gmap Path Bytes) (ns : list Bytes).

Lemma rename_run src dst x f ns :
  f !! src = Some x →
  fs_rename src dst (mkDisk f ns []) = Some (Ok tt, mkDisk (<[dst:=x]> (delete src f)) ns []).
Proof. intros Hx. unfold fs_rename, io. simpl. unfold_M. simpl. by rewrite Hx. Qed.

Lemma write_block_file_run bytes size path w f ns :
  w_current_block_file w = Some (mkBlockFile size path) →
  write_block_file bytes (w, mkDisk f ns []) =
    Some (Ok tt, (with_current (Some (mkBlockFile (size +[64] zlength bytes) path)) w,
                  mkDisk (<[path:=default [] (f !! path) ++ bytes]> f) ns [])).
Proof. intros Hw. unfold write_block_file. unfold_M. simpl. by rewrite Hw. Qed.

Lemma create_new_block_file_run c w f ns :
  create_new_block_file (w, mkDisk f (c :: ns) []) =
    let path := w_temp_file_path w ++ [to_hex c] in
    Some (Ok tt, (with_current (Some (mkBlockFile 0 path)) w,
                  mkDisk (<[path:=default [] (f !! path)]> f) ns [])).
Proof. done. Qed.

(** The writer after a block. *)
Definition with_block (hash : Bytes) w : InnerWriterState T :=
  mkInnerWriterState (w_bucket w) (w_temp_file_path w)
    (w_block_files w ++ [(hash, w_temp_file_path w ++ [to_hex hash])]) (w_current_block_file w)
    (w_header_file w) (w_count_block w +[64] 1) (w_collector w).

Lemma new_block_run hash size path x w f ns :
  w_current_block_file w = Some (mkBlockFile size path) → f !! path = Some x →
  new_block hash (w, mkDisk f ns []) =
    Some (Ok tt, (with_block hash w,
                  mkDisk (<[w_temp_file_path w ++ [to_hex hash]:=x]> (delete path f)) ns [])).
Proof.
  intros Hw Hx. unfold new_block, block_commit. unfold_M. simpl. rewrite Hw.
  unfold try_bind, on_snd, fs_flush, io. unfold_M. simpl. rewrite (rename_run _ _ x) by done. done.
Qed.

(** What the loop of a write does with a piece. *)
Definition write_piece (bytes : Bytes) (last_bytes : bool) : M (InnerWriterState T * Disk) (Result unit WriteError) :=
  on_collector (collect bytes);;?
  bytes ←? process_block bytes last_bytes;
  map_err WriteIOError (write_block_file bytes).

Lemma write_loop_cons fuel y last s :
  let want := Nat.min BLOCK_SIZE_IN_CHUNKS (length y) in
  y ≠ [] →
  write_loop (S fuel) y last s = (write_piece (take want y) last;;? write_loop fuel (drop want y) last) s.
Proof.
  intros want Hy. destruct y as [|z x]; [done|]. cbn [write_loop]. fold want. unfold write_piece, try_bind. unfold_M.
  destruct (on_collector _ s) as [[[] s1]|]; try done. destruct (process_block _ _ s1) as [[[] s2]|]; done.
Qed.
End runs.

(** ** A content on its way to the disk *)

(** The writes of a client, and a whole session. *)
Fixpoint write_chunks {P : Platform} (writes : list Bytes)
    : M (InnerWriterState FileWriterCollector * Disk) (Result unit WriteError) :=
  match writes with
  | [] => mret (Ok tt)
  | x :: writes => writer_write x false;;? write_chunks writes
  end.

Definition store_file {P : Platform} (bucket : Bucket) (writes : list Bytes) : M Disk (Result Bytes CommitError) :=
  w ←? map_err CommitWriteError (file_writer_new bucket);
  λ d, match (map_err CommitWriteError (write_chunks writes);;? writer_commit) (w, d) with
       | Some (r, (_, d)) => Some (r, d)
       | None => None
       end.

(** The hashes under which the blocks of a content are stored. *)
Definition content_hashes {P : Platform} (d root : Bytes) : list Bytes :=
  if bool_decide (zlength d ≤ TREE_BLOCK_SIZE_BYTES)
  then match d with [] => [] | _ => [root] end else block_cvs IV_DEFAULT 0 d.

Lemma content_hashes_count {P : Platform} D root : zlength (content_hashes D root) = (zlength D + 262143) / 262144.
Proof.
  pose proof BB_val as HBB. unfold content_hashes. case_bool_decide as Hs; [|apply block_cvs_count].
  destruct D as [|z d]; [done|]. change (zlength [root]) with 1.
  assert (0 < zlength (z :: d)) by (unfold zlength; simpl; lia).
  pose proof (Z.div_mod (zlength (z :: d) + 262143) 262144 ltac:(lia)).
  pose proof (Z.mod_pos_bound (zlength (z :: d) + 262143) 262144 ltac:(lia)). lia.
Qed.

(** The array of hashes in the header of a content. *)
Definition content_array {P : Platform} (d root : Bytes) : list Bytes :=
  if bool_decide (zlength d ≤ TREE_BLOCK_SIZE_BYTES)
  then match d with [] => [] | _ => [root] end
  else post_order (iv_merge IV_DEFAULT) true (tree_of (block_cvs IV_DEFAULT 0 d)).

(** The random names [hn] of the header and [ns] of the blocks differ from each
    other and from the hashes, and the hashes of the blocks differ. *)
Record names_fresh (hn : Bytes) (ns hashes : list Bytes) : Prop := {
  nf_header : to_hex hn ∉ to_hex <$> ns;
  nf_header_hash : to_hex hn ∉ to_hex <$> hashes;
  nf_names : NoDup (to_hex <$> ns);
  nf_apart : ∀ c h, c ∈ ns → h ∈ hashes → to_hex c ≠ to_hex h;
  nf_hashes : NoDup (to_hex <$> hashes)
}.

Section writing.
Context {P : Platform} {PL : PlatformLaws P}.
#[local] Abbreviation iv := IV_DEFAULT.
#[local] Abbreviation m := (iv_merge iv).
#[local] Abbreviation BB := TREE_BLOCK_SIZE_BYTES.
#[local] Arguments iv_merge : simpl never.
#[local] Opaque TREE_BLOCK_SIZE_BYTES.

Context (b : Bucket) (t hn : Bytes) (ns0 : list Bytes) (f0 : gmap Path Bytes) (D root : Bytes).
#[local] Abbreviation hashes := (content_hashes D root).
Context (HD : zlength D ≤ 262144 * (2 ^ 32 - 1)) (Hfresh : names_fresh hn ns0 hashes).
Context (Hnames : (length (pieces_of block_size D) ≤ length ns0)%nat).

Definition wal : Path := wal_path b ++ [to_hex t].
Definition tmp (name : Bytes) : Path := wal ++ [to_hex name].
Definition start_header : Bytes := to_le_bytes 4 HEADER_FILE_VERSION ++ to_le_bytes 4 0.

Lemma tmp_inj x y : tmp x = tmp y → to_hex x = to_hex y.
Proof. unfold tmp. intros Heq. by simplify_list_eq. Qed.

Lemma tmp_wal x : wal `prefix_of` tmp x.
Proof. by exists [to_hex x]. Qed.

Lemma tmp_name_header c : c ∈ ns0 → tmp c ≠ tmp hn.
Proof. intros Hc Heq%tmp_inj. apply (nf_header _ _ _ Hfresh). rewrite <-Heq. by apply list_elem_of_fmap_2. Qed.

Lemma tmp_hash_header h : h ∈ hashes → tmp h ≠ tmp hn.
Proof. intros Hc Heq%tmp_inj. apply (nf_header_hash _ _ _ Hfresh). rewrite <-Heq. by apply list_elem_of_fmap_2. Qed.

Lemma tmp_name_hash c h : c ∈ ns0 → h ∈ hashes → tmp c ≠ tmp h.
Proof. intros Hc Hh Heq%tmp_inj. by apply (nf_apart _ _ _ Hfresh c h). Qed.

(** The files: the header [hb], the blocks [xs] with the hashes [hs], the bytes of
    the current block, no file for the names [ns], and what was there before. *)
Record disk_ok (f : gmap Path Bytes) (hb : Bytes) (hs xs : list Bytes) (cur : option (Bytes * Bytes))
    (ns : list Bytes) : Prop := {
  do_header : f !! tmp hn = Some hb;
  do_count : length hs = length xs;
  do_blocks : ∀ i h x, hs !! i = Some h → xs !! i = Some x → f !! tmp h = Some x;
  do_current : ∀ c e, cur = Some (c, e) → f !! tmp c = Some e;
  do_names : ∀ c, c ∈ ns → f !! tmp c = None;
  do_others : ∀ p, ¬ wal `prefix_of` p → f !! p = f0 !! p
}.

(** The names that are left after the name of the current block. *)
Definition names_left (c : Bytes) (ns : list Bytes) : Prop := ∃ pre, ns0 = pre ++ c :: ns.

Lemma names_left_in c ns x : names_left c ns → x ∈ c :: ns → x ∈ ns0.
Proof. intros [pre ->] Hx. apply elem_of_app. by right. Qed.

Lemma names_left_apart c ns x : names_left c ns → x ∈ ns → tmp c ≠ tmp x.
Proof.
  intros [pre Hpre] Hx Heq%tmp_inj. pose proof (nf_names _ _ _ Hfresh) as Hnd. rewrite Hpre in Hnd.
  rewrite fmap_app in Hnd. apply NoDup_app in Hnd as (_ & _ & Hnd). cbn [fmap list_fmap] in Hnd.
  apply NoDup_cons in Hnd as [Hc _]. apply Hc. rewrite Heq. by apply list_elem_of_fmap_2.
Qed.

Lemma names_left_next c c' ns : names_left c (c' :: ns) → names_left c' ns.
Proof. intros [pre ->]. exists (pre ++ [c]). by rewrite <-app_assoc. Qed.

Lemma disk_current f hb hs xs cur ns' c v ns :
  disk_ok f hb hs xs cur ns' → (∀ x, x ∈ ns → x ∈ ns') → names_left c ns → hs `prefix_of` hashes →
  disk_ok (<[tmp c:=v]> f) hb hs xs (Some (c, v)) ns.
Proof.
  intros [H1 H2 H3 H4 H5 H6] Hsub Hns [tl Htl]. pose proof (names_left_in c ns c Hns ltac:(by left)) as Hc.
  split.
  - rewrite lookup_insert_ne; [done|by apply tmp_name_header].
  - done.
  - intros i h x Hh Hx. rewrite lookup_insert_ne; [eauto|]. apply tmp_name_hash; [done|].
    rewrite Htl. apply elem_of_app. left. by eapply list_elem_of_lookup_2.
  - intros c' e Heq. simplify_eq. apply lookup_insert_eq.
  - intros c' Hc'. rewrite lookup_insert_ne; [by apply H5, Hsub|by apply (names_left_apart c ns)].
  - intros p Hp. rewrite lookup_insert_ne; [auto|]. intros <-. apply Hp, tmp_wal.
Qed.

Lemma disk_create f hb hs xs cur c ns :
  disk_ok f hb hs xs cur (c :: ns) → names_left c ns → hs `prefix_of` hashes →
  disk_ok (<[tmp c:=default [] (f !! tmp c)]> f) hb hs xs (Some (c, [])) ns.
Proof.
  intros Hok Hns Hpre. rewrite (do_names _ _ _ _ _ _ Hok c) by (by left).
  eapply disk_current; [exact Hok|by right|done|done].
Qed.

Lemma disk_append f hb hs xs c e x ns :
  disk_ok f hb hs xs (Some (c, e)) ns → names_left c ns → hs `prefix_of` hashes →
  disk_ok (<[tmp c:=default [] (f !! tmp c) ++ x]> f) hb hs xs (Some (c, e ++ x)) ns.
Proof.
  intros Hok Hns Hpre. rewrite (do_current _ _ _ _ _ _ Hok c e) by done.
  by eapply disk_current; [exact Hok|..].
Qed.

Lemma disk_header f hb hb' hs xs cur ns :
  disk_ok f hb hs xs cur ns → (∀ c e, cur = Some (c, e) → c ∈ ns0) → (∀ c, c ∈ ns → c ∈ ns0) →
  hs `prefix_of` hashes →
  disk_ok (<[tmp hn:=hb']> f) hb' hs xs cur ns.
Proof.
  intros [H1 H2 H3 H4 H5 H6] Hcur Hns [tl Htl]. split.
  - apply lookup_insert_eq.
  - done.
  - intros i h y Hh Hy. rewrite lookup_insert_ne; [eauto|]. apply not_eq_sym, tmp_hash_header.
    rewrite Htl. apply elem_of_app. left. by eapply list_elem_of_lookup_2.
  - intros c e Heq. rewrite lookup_insert_ne; [by apply H4|]. apply not_eq_sym, tmp_name_header. eauto.
  - intros c Hc. rewrite lookup_insert_ne; [by apply H5|]. apply not_eq_sym, tmp_name_header. eauto.
  - intros p Hp. rewrite lookup_insert_ne; [auto|]. intros <-. apply Hp, tmp_wal.
Qed.

Lemma hash_new hs h h' : hs ++ [h] `prefix_of` hashes → h' ∈ hs → tmp h ≠ tmp h'.
Proof.
  intros [tl Htl] Hh' Heq%tmp_inj. pose proof (nf_hashes _ _ _ Hfresh) as Hnd.
  rewrite Htl, <-app_assoc, fmap_app in Hnd. apply NoDup_app in Hnd as (_ & Hnd & _).
  apply (Hnd (to_hex h')); [by apply list_elem_of_fmap_2|]. rewrite <-Heq. by left.
Qed.

Lemma disk_commit f hb hs xs c e h ns :
  disk_ok f hb hs xs (Some (c, e)) ns → names_left c ns → hs ++ [h] `prefix_of` hashes →
  disk_ok (<[tmp h:=e]> (delete (tmp c) f)) hb (hs ++ [h]) (xs ++ [e]) None ns.
Proof.
  intros [H1 H2 H3 H4 H5 H6] Hns Hpre. pose proof (names_left_in c ns c Hns ltac:(by left)) as Hc.
  assert (∀ h', h' ∈ hs ++ [h] → h' ∈ hashes) as Hin
    by (destruct Hpre as [tl ->]; intros h' Hh'; apply elem_of_app; by left).
  pose proof (Hin h ltac:(set_solver)) as Hh. split.
  - rewrite lookup_insert_ne by (by apply tmp_hash_header).
    rewrite lookup_delete_ne; [done|by apply tmp_name_header].
  - rewrite !length_app. by rewrite H2.
  - intros i h' y Hh' Hy.
    apply lookup_snoc_Some in Hh' as [[Hi Hh']|[-> <-]]; apply lookup_snoc_Some in Hy as [[Hi' Hy]|[Hi' <-]];
      try lia; [|apply lookup_insert_eq].
    assert (h' ∈ hs) as Hhs by (by eapply list_elem_of_lookup_2).
    rewrite lookup_insert_ne by (by apply (hash_new hs)).
    rewrite lookup_delete_ne; [eauto|]. apply tmp_name_hash; [done|]. apply Hin. set_solver.
  - done.
  - intros c' Hc'. rewrite lookup_insert_ne, lookup_delete_ne; [by apply H5|by apply (names_left_apart c ns)|].
    apply not_eq_sym, tmp_name_hash; [|done]. apply (names_left_in c ns); [done|by right].
  - intros p Hp. rewrite lookup_insert_ne, lookup_delete_ne; [auto|..]; intros <-; apply Hp, tmp_wal.
Qed.

(** The block files of a writer. *)
Definition block_files_of (hs : list Bytes) : list (Bytes * Path) := (λ h, (h, tmp h)) <$> hs.

(** A writer with any collector, and the trusted one. *)
Definition writer_with {T} (hs : list Bytes) (cur : option BlockFile) (k : Z) (c : T) : InnerWriterState T :=
  mkInnerWriterState b wal (block_files_of hs) cur (tmp hn) k c.

Definition writer_at (hs : list Bytes) (cur : option BlockFile) (k : Z) (h : Blake3Hasher BufCollector)
    : InnerWriterState FileWriterCollector :=
  writer_with hs cur k (mkFileWriterCollector h None).

(** The writer and the disk after the bytes [d]. *)
Inductive writing : Bytes → InnerWriterState FileWriterCollector * Disk → Prop :=
| writing_start f :
    disk_ok f start_header [] [] None ns0 →
    writing [] (writer_at [] None 0 (h_new_with_iv bc_default iv), mkDisk f ns0 [])
| writing_block k d0 e F bs c ns f :
    in_block iv k d0 e F bs → names_left c ns → Z.of_nat (length ns0) = k + 1 + zlength ns →
    disk_ok f (start_header ++ concat (posts m F)) (block_cvs iv 0 d0) (pieces_of block_size d0)
      (Some (c, e)) ns →
    writing (d0 ++ e) (writer_at (block_cvs iv 0 d0) (Some (mkBlockFile (zlength e) (tmp c))) k
                         (buffered bs F k (length (posts m F))), mkDisk f ns []).

Lemma max_block : MAX_BLOCK_SIZE_IN_BYTES = BB.
Proof. rewrite BB_val. done. Qed.

(** The blocks of a prefix of the content are blocks of the content. *)
Lemma prefix_hashes k d0 y :
  zlength d0 = BB * k → 0 ≤ k → d0 ++ y `prefix_of` D → y ≠ [] →
  (0 < k → block_cvs iv 0 d0 `prefix_of` hashes) ∧
  (zlength y = BB → BB < zlength D → block_cvs iv 0 d0 ++ [block_cv iv k y] `prefix_of` hashes).
Proof.
  pose proof BB_val as HBB. intros Hd0 Hk [tl HD'] Hy.
  assert (0 < zlength y) as Hpos by (destruct y; [done|unfold zlength; simpl; lia]).
  pose proof (f_equal zlength HD') as Hlen. rewrite !zlength_app in Hlen. pose proof (zlength_nonneg tl).
  unfold content_hashes. split.
  - intros Hk0. rewrite bool_decide_false by lia. rewrite HD', <-app_assoc.
    destruct (block_cvs_app iv k 0 d0 (y ++ tl) Hk Hd0) as [-> _]. by eexists.
  - intros Hy' HBD. rewrite bool_decide_false by lia. rewrite HD', <-app_assoc.
    destruct (block_cvs_app iv k 0 d0 (y ++ tl) Hk Hd0) as [-> _].
    destruct (block_cvs_app iv 1 (0 + k) y tl) as [-> _]; [lia|lia|].
    rewrite (block_cvs_one iv _ y) by (done || lia). exists (block_cvs iv (0 + k + 1) tl). by rewrite <-app_assoc.
Qed.

Lemma prefix_nil_hashes : [] `prefix_of` hashes.
Proof. apply prefix_nil. Qed.

Lemma fc_collect_run x hs cur k h h' d :
  h_update x h = Some (tt, h') →
  on_collector (collect x) (writer_at hs cur k h, d) = Some (Ok tt, (writer_at hs cur k h', d)).
Proof. intros Hu. unfold on_collector. cbn. unfold fc_collect. cbn. by rewrite Hu. Qed.

Lemma piece_first x last f :
  disk_ok f start_header [] [] None ns0 → x ≠ [] → zlength x < BB → x `prefix_of` D →
  ∃ s', write_piece x last (writer_at [] None 0 (h_new_with_iv bc_default iv), mkDisk f ns0 []) = Some (Ok tt, s') ∧
    writing x s'.
Proof.
  intros Hok Hne Hx [tl HD'].
  destruct (update_first iv x Hne Hx) as (bs & Hu & Hin).
  destruct (buffered_update x (bh_from iv) [] 0 0 bs [] 0) as [Hb _]; [simpl; lia|done|].
  assert (∃ c ns, ns0 = c :: ns) as (c & ns & Hns).
  { destruct ns0 as [|c ns]; [|by eauto]. exfalso. assert (pieces_of block_size D ≠ []) as Hp.
    { rewrite pieces_cons; [done|apply block_size_pos|]. rewrite HD'. by destruct x. }
    destruct (pieces_of block_size D); [done|simpl in Hnames; lia]. }
  assert (names_left c ns) as Hleft by (by exists []).
  rewrite Hns in Hok |- *.
  pose proof (disk_create _ _ _ _ _ _ _ Hok Hleft prefix_nil_hashes) as Hok1.
  pose proof (disk_append _ _ _ _ _ _ x _ Hok1 Hleft prefix_nil_hashes) as Hok2.
  eexists. split.
  - unfold write_piece. rewrite (try_bind_ok _ _ _ _ _ (fc_collect_run x [] None 0 _ _ _ Hb)).
    erewrite try_bind_ok.
    2: { unfold process_block. rewrite fst_get. cbn [writer_at writer_with w_current_block_file].
         erewrite try_bind_ok by (apply map_err_ok, create_new_block_file_run). reflexivity. }
    apply map_err_ok. by erewrite write_block_file_run.
  - rewrite (Z.add_0_l (zlength x)), wrap_small by (pose proof BB_val; unfold in_width, zlength in *; lia).
    rewrite <-(app_nil_r start_header) in Hok2.
    refine (writing_block 0 [] x [] bs c ns _ Hin Hleft _ Hok2). rewrite Hns. unfold zlength. simpl length. lia.
Qed.

Lemma in_block_prefix k d0 e F bs y :
  in_block iv k d0 e F bs → (d0 ++ e) ++ y `prefix_of` D → block_cvs iv 0 d0 `prefix_of` hashes.
Proof.
  pose proof BB_val. intros (Hd0 & Hk & Hne & _) Hpre.
  destruct (decide (k = 0)) as [->|].
  { destruct d0; [apply prefix_nil|]. unfold zlength in Hd0. simpl in Hd0. lia. }
  rewrite <-app_assoc in Hpre. apply (prefix_hashes k d0 (e ++ y)); [done..| |lia]. by destruct e.
Qed.

Lemma piece_within x last k d0 e F bs c ns f :
  in_block iv k d0 e F bs → names_left c ns → Z.of_nat (length ns0) = k + 1 + zlength ns →
  disk_ok f (start_header ++ concat (posts m F)) (block_cvs iv 0 d0) (pieces_of block_size d0) (Some (c, e)) ns →
  zlength e + zlength x ≤ BB → (d0 ++ e) ++ x `prefix_of` D →
  ∃ s', write_piece x last (writer_at (block_cvs iv 0 d0) (Some (mkBlockFile (zlength e) (tmp c))) k
          (buffered bs F k (length (posts m F))), mkDisk f ns []) = Some (Ok tt, s') ∧
    writing ((d0 ++ e) ++ x) s'.
Proof.
  pose proof BB_val as HBB. intros Hin Hleft Hlen Hok Hx Hpre.
  pose proof (in_block_prefix _ _ _ _ _ _ Hin Hpre) as Hhs.
  pose proof (zlength_nonneg x). pose proof (zlength_nonneg e).
  assert (zlength d0 + zlength e + zlength x < 2 ^ 60).
  { destruct Hpre as [tl Htl]. rewrite Htl, !zlength_app in HD. pose proof (zlength_nonneg tl). lia. }
  destruct (update_within iv k d0 e F bs x Hin) as (bs' & Hu & Hin'); [done|done|].
  destruct (buffered_update x bs F k (length (posts m F)) bs' F k) as [Hb _]; [done|done|].
  pose proof (disk_append _ _ _ _ _ _ x _ Hok Hleft Hhs) as Hok'.
  eexists. split.
  - unfold write_piece. rewrite (try_bind_ok _ _ _ _ _ (fc_collect_run x _ _ k _ _ _ Hb)).
    erewrite try_bind_ok.
    2: { unfold process_block. rewrite fst_get. cbn [writer_at writer_with w_current_block_file w_collector bf_size].
         unfold has_reach_block, file_writer_collector, fc_has_reach_block. rewrite max_block.
         rewrite wrap_small by (unfold in_width; lia). by rewrite bool_decide_false by lia. }
    apply map_err_ok. by erewrite write_block_file_run.
  - rewrite wrap_small by (unfold in_width; lia). rewrite <-zlength_app, <-app_assoc.
    by refine (writing_block k d0 (e ++ x) F bs' c ns _ Hin' Hleft Hlen Hok').
Qed.

Lemma with_block_with {T} h hs cur k (c : T) :
  with_block h (writer_with hs cur k c) = writer_with (hs ++ [h]) cur (k +[64] 1) c.
Proof. unfold with_block, writer_with, block_files_of. simpl. by rewrite fmap_app. Qed.

Lemma with_block_at h hs cur k c :
  with_block h (writer_at hs cur k c) = writer_at (hs ++ [h]) cur (k +[64] 1) c.
Proof. apply with_block_with. Qed.

(** The collected hashes go to the header. *)
Lemma flush_hashes_run hs cur k h num buf count f ns :
  h_tree h = mkBufCollector num buf →
  on_both (on_new_block count (tmp hn)) (writer_at hs cur k h, mkDisk f ns []) =
    Some (Ok tt, (writer_at hs cur k (h_with_tree (mkBufCollector num []) h),
                  mkDisk (<[tmp hn:=default [] (f !! tmp hn) ++ buf]> f) ns [])).
Proof. intros Hh. unfold on_both. cbn. unfold fc_on_new_block, write_hash. cbn. by rewrite Hh. Qed.

Lemma buffer_from_all (L : list Bytes) : buffer_from (length L) L = mkBufCollector (wrap 64 (zlength L)) [].
Proof. unfold buffer_from. by rewrite drop_all. Qed.

(** One more block. *)
Lemma blocks_snoc k d0 y :
  zlength d0 = BB * k → 0 ≤ k → y ≠ [] → zlength y ≤ BB →
  block_cvs iv 0 (d0 ++ y) = block_cvs iv 0 d0 ++ [block_cv iv k y] ∧
  pieces_of block_size (d0 ++ y) = pieces_of block_size d0 ++ [y].
Proof.
  pose proof BB_val as HBB. intros Hd0 Hk Hne Hy. split.
  - destruct (block_cvs_app iv k 0 d0 y Hk Hd0) as [-> _]. by rewrite (block_cvs_one iv (0 + k) y) by done.
  - destruct (pieces_app block_size block_size_pos (Z.to_nat k) d0 y) as [-> _].
    { pose proof block_size_Z. unfold zlength in Hd0. nia. }
    f_equal. rewrite pieces_cons by (done || apply block_size_pos). pose proof block_size_Z. unfold zlength in Hy.
    rewrite take_ge, drop_ge by lia. done.
Qed.

(** There are names for all blocks. *)
Lemma enough_names k c ns d x :
  zlength d = BB * k → d ++ x `prefix_of` D → x ≠ [] → names_left c ns →
  Z.of_nat (length ns0) = k + zlength ns → ∃ c' ns', ns = c' :: ns' ∧ names_left c' ns'.
Proof.
  pose proof BB_val as HBB. intros Hd [tl Htl] Hx Hleft Hlen.
  destruct ns as [|c' ns']; [|exists c', ns'; split; [done|by apply (names_left_next c)]]. exfalso.
  assert (0 < zlength x) by (destruct x; [done|unfold zlength; simpl; lia]).
  pose proof (block_cvs_count iv 0 D) as Hc. unfold block_cvs, zlength in Hc. rewrite length_imap in Hc.
  fold (zlength D) in Hc. apply (f_equal zlength) in Htl. rewrite !zlength_app in Htl.
  pose proof (zlength_nonneg tl). change (zlength (@nil Bytes)) with 0 in Hlen.
  pose proof (Z.div_mod (zlength D + 262143) 262144 ltac:(lia)).
  pose proof (Z.mod_pos_bound (zlength D + 262143) 262144 ltac:(lia)). lia.
Qed.

Lemma fc_reach_run k last hs cur k' h d r :
  get_block_hash k (h_tree h) = Some r →
  on_collector (on_reach_full_block k last) (writer_at hs cur k' h, d) = Some (Ok r, (writer_at hs cur k' h, d)).
Proof. intros Hg. unfold on_collector. cbn. unfold fc_on_reach_full_block. unfold_M. cbn. by rewrite Hg. Qed.

(** The hash of a block is found when the next one begins. *)
Lemma block_hash_found k d e F F' bs' h ys :
  in_block iv (k + 1) d e F' bs' → forest 0 F k → posts m F' = posts m F ++ h :: ys →
  get_block_hash k (buffer_from (length (posts m F)) (posts m F')) = Some (Some h).
Proof.
  pose proof BB_val. intros (Hd & Hk & Hne & He & Htot & _ & HF' & Hl) HF Hposts.
  pose proof (zlength_nonneg e). pose proof (forest_nonneg 0 F k ltac:(lia) HF).
  rewrite Hposts. apply get_block_hash_next; rewrite <-?Hposts.
  - apply (posts_hashes iv). rewrite Hl. apply block_cvs_hashes. lia.
  - rewrite (posts_tree_index m F' (k + 1) HF') by lia. destruct (tree_index_bound (k + 1)); lia.
  - apply posts_tree_index; [done|lia].
Qed.

(** The part of a piece that fills the block. *)
Lemma process_full x last k d0 e F bs F' bs' ys c ns f :
  let n := Z.to_nat (BB - zlength e) in
  let h := block_cv iv k (e ++ take n x) in
  let fl := length (posts m F) in
  in_block iv k d0 e F bs → names_left c ns → zlength x < BB → BB < zlength e + zlength x →
  disk_ok f (start_header ++ concat (posts m F)) (block_cvs iv 0 d0) (pieces_of block_size d0) (Some (c, e)) ns →
  in_block iv (k + 1) (d0 ++ e ++ take n x) (drop n x) F' bs' → posts m F' = posts m F ++ h :: ys →
  (d0 ++ e) ++ x `prefix_of` D →
  ∃ f', (process_block x last : M _ _) (writer_at (block_cvs iv 0 d0) (Some (mkBlockFile (zlength e) (tmp c))) k
          (buffered bs' F' (k + 1) fl), mkDisk f ns []) =
        (map_err WriteIOError create_new_block_file;;? mret (Ok (drop n x)))
          (writer_at (block_cvs iv 0 d0 ++ [h]) (Some (mkBlockFile BB (tmp c))) (k + 1)
            (buffered bs' F' (k + 1) (length (posts m F'))), mkDisk f' ns []) ∧
    disk_ok f' (start_header ++ concat (posts m F')) (block_cvs iv 0 d0 ++ [h])
      (pieces_of block_size d0 ++ [e ++ take n x]) None ns.
Proof.
  pose proof BB_val as HBB. intros n h fl Hin Hleft Hx Hcross Hok Hin' Hposts Hpre.
  pose proof (in_block_prefix _ _ _ _ _ _ Hin Hpre) as Hhs.
  destruct Hin as (Hd0 & Hk & Hne & He & Htot & _ & HF & _). pose proof (zlength_nonneg x). pose proof (zlength_nonneg e).
  assert (zlength (take n x) = BB - zlength e) as Hn by (unfold n, zlength in *; rewrite length_take; lia).
  assert (block_cvs iv 0 d0 ++ [h] `prefix_of` hashes) as Hhs'.
  { destruct Hpre as [tl Htl]. apply (prefix_hashes k d0 (e ++ take n x)); [done|done| |by destruct e|rewrite zlength_app; lia|].
    - exists (drop n x ++ tl). rewrite Htl. rewrite <-(take_drop n x) at 1. by rewrite <-!app_assoc.
    - rewrite Htl, !zlength_app. pose proof (zlength_nonneg tl). pose proof (zlength_nonneg d0). lia. }
  pose proof (disk_append _ _ _ _ _ _ (take n x) _ Hok Hleft Hhs) as Hok1.
  pose proof (disk_commit _ _ _ _ _ _ h _ Hok1 Hleft Hhs') as Hok2.
  pose proof (disk_header _ _ (start_header ++ concat (posts m F')) _ _ _ _ Hok2 ltac:(done)
    ltac:(intros c' Hc'; apply (names_left_in c ns); [done|by right]) Hhs') as Hok3.
  eexists. split; [|exact Hok3].
  unfold process_block. rewrite fst_get. cbn [writer_at writer_with w_current_block_file w_collector bf_size w_count_block].
  unfold has_reach_block, file_writer_collector at 1, fc_has_reach_block. rewrite !max_block.
  rewrite !wrap_small by (unfold in_width; lia). rewrite bool_decide_true, bool_decide_false by lia. fold n.
  erewrite try_bind_ok by (apply map_err_ok; by apply write_block_file_run).
  rewrite Hn, wrap_small by (unfold in_width; lia). replace (zlength e + (BB - zlength e)) with BB by lia.
  change (with_current (Some (mkBlockFile BB (tmp c))) _) with
    (writer_at (block_cvs iv 0 d0) (Some (mkBlockFile BB (tmp c))) k (buffered bs' F' (k + 1) fl)).
  etrans; [apply try_bind_ok, fc_reach_run; by apply (block_hash_found k _ _ F F' bs' h ys Hin')|]. cbn iota.
  etrans; [apply try_bind_ok, map_err_ok; eapply new_block_run; [done|apply (do_current _ _ _ _ _ _ Hok1); done]|].
  rewrite with_block_at, wrap_small, fst_get by (unfold in_width; lia). cbn [w_count_block w_header_file writer_at writer_with].
  etrans; [apply try_bind_ok, map_err_ok; by apply (flush_hashes_run (block_cvs iv 0 d0 ++ [h]))|].
  f_equal. change (w_temp_file_path _ ++ [to_hex h]) with (tmp h).
  rewrite (do_header _ _ _ _ _ _ Hok2). cbn [default from_option id]. unfold buffered at 2. rewrite buffer_from_all.
  assert ((start_header ++ concat (posts m F)) ++ concat (drop fl (posts m F')) = start_header ++ concat (posts m F')) as ->.
  { unfold fl. by rewrite Hposts, drop_app_length, <-app_assoc, concat_app. }
  done.
Qed.

Lemma piece_cross x last k d0 e F bs c ns f :
  in_block iv k d0 e F bs → names_left c ns → Z.of_nat (length ns0) = k + 1 + zlength ns →
  disk_ok f (start_header ++ concat (posts m F)) (block_cvs iv 0 d0) (pieces_of block_size d0) (Some (c, e)) ns →
  zlength x < BB → BB < zlength e + zlength x → (d0 ++ e) ++ x `prefix_of` D →
  ∃ s', write_piece x last (writer_at (block_cvs iv 0 d0) (Some (mkBlockFile (zlength e) (tmp c))) k
          (buffered bs F k (length (posts m F))), mkDisk f ns []) = Some (Ok tt, s') ∧
    writing ((d0 ++ e) ++ x) s'.
Proof.
  pose proof BB_val as HBB. intros Hin Hleft Hlen Hok Hx Hcross Hpre.
  assert (zlength d0 + zlength e + zlength x < 2 ^ 60) as Htot.
  { destruct Hpre as [tl Htl]. rewrite Htl, !zlength_app in HD. pose proof (zlength_nonneg tl). lia. }
  destruct (update_cross iv k d0 e F bs x Hin Hx Hcross Htot) as (bs' & F' & ys & Hu & Hin' & Hposts).
  destruct (buffered_update x bs F k (length (posts m F)) bs' F' (k + 1)) as [Hb _]; [done|done|].
  destruct (process_full x last k d0 e F bs F' bs' ys c ns f) as (f' & Hp & Hok'); [done..|].
  set (n := Z.to_nat (BB - zlength e)) in *.
  assert ((d0 ++ e) ++ x = (d0 ++ e ++ take n x) ++ drop n x) as Hcut
    by (rewrite <-(take_drop n x) at 1; by rewrite <-!app_assoc).
  rewrite Hcut in Hpre |- *. pose proof (in_block_prefix _ _ _ _ _ [] Hin') as Hhs. rewrite app_nil_r in Hhs.
  specialize (Hhs Hpre). pose proof Hin' as (Hd1 & Hk1 & Hne1 & He1 & _). pose proof Hin as (Hd0 & Hk & _ & He & _).
  destruct (enough_names (k + 1) c ns _ _ Hd1 Hpre Hne1 Hleft Hlen) as (c' & ns' & -> & Hleft').
  assert (zlength (e ++ take n x) = BB) as Hy by (rewrite !zlength_app in *; lia).
  pose proof Hin as (_ & _ & Hene & _).
  destruct (blocks_snoc k d0 (e ++ take n x) Hd0 Hk) as [Hcvs Hpieces]; [by destruct e|lia|]. rewrite <-Hcvs, <-Hpieces in *.
  pose proof (disk_create _ _ _ _ _ _ _ Hok' Hleft' Hhs) as Hok1.
  pose proof (disk_append _ _ _ _ _ _ (drop n x) _ Hok1 Hleft' Hhs) as Hok2.
  eexists. split.
  - unfold write_piece. rewrite (try_bind_ok _ _ _ _ _ (fc_collect_run x _ _ k _ _ _ Hb)).
    etrans; [apply try_bind_ok; etrans; [exact Hp|];
      etrans; [apply try_bind_ok, map_err_ok, create_new_block_file_run|reflexivity]|].
    apply map_err_ok. by apply write_block_file_run.
  - rewrite (Z.add_0_l (zlength _)), wrap_small by (unfold in_width; pose proof (zlength_nonneg (drop n x)); lia).
    refine (writing_block (k + 1) _ (drop n x) F' bs' c' ns' _ Hin' Hleft' _ Hok2).
    rewrite zlength_cons in Hlen. lia.
Qed.

(** Every piece is written, and the invariant goes on. *)
Lemma write_piece_run x last d s :
  writing d s → x ≠ [] → zlength x < BB → d ++ x `prefix_of` D →
  ∃ s', write_piece x last s = Some (Ok tt, s') ∧ writing (d ++ x) s'.
Proof.
  intros [f Hok|k d0 e F bs c ns f Hin Hleft Hlen Hok] Hne Hx Hpre; [by apply piece_first|].
  destruct (decide (zlength e + zlength x ≤ BB)); [by apply piece_within|apply piece_cross; try done; lia].
Qed.

Lemma write_loop_run fuel x last d s :
  writing d s → (length x ≤ fuel)%nat → d ++ x `prefix_of` D →
  ∃ s', write_loop fuel x last s = Some (Ok tt, s') ∧ writing (d ++ x) s'.
Proof.
  revert d s x. induction fuel as [|fuel IH]; intros d s [|z x] Hs Hf Hpre; try (simpl in Hf; lia);
    try (exists s; rewrite app_nil_r; by split).
  set (y := z :: x) in *. set (want := Nat.min BLOCK_SIZE_IN_CHUNKS (length y)).
  assert (0 < want)%nat as Hw by (unfold want, y, BLOCK_SIZE_IN_CHUNKS; simpl; lia).
  pose proof (take_drop want y) as Htd.
  destruct (write_piece_run (take want y) last d s Hs) as (s1 & Hp & Hs1).
  { intros Hnil. apply (f_equal length) in Hnil. rewrite length_take in Hnil. unfold y in Hnil. simpl in Hnil. lia. }
  { pose proof BB_val. unfold zlength. rewrite length_take. unfold want, BLOCK_SIZE_IN_CHUNKS. lia. }
  { etrans; [|exact Hpre]. rewrite <-Htd at 2. apply prefix_app, prefix_app_r. done. }
  destruct (IH (d ++ take want y) s1 (drop want y) Hs1) as (s2 & Hrun & Hs2).
  { rewrite length_drop. unfold y in *. simpl length in *. lia. }
  { by rewrite <-app_assoc, Htd. }
  exists s2. rewrite <-app_assoc, Htd in Hs2. split; [|done]. unfold y in *. rewrite write_loop_cons by done.
  etrans; [apply try_bind_ok, Hp|]. exact Hrun.
Qed.

(** ** The end of a write *)

(** The files of a content after its commit. *)
Record stored (f : gmap Path Bytes) : Prop := {
  st_header : f !! get_header_path b root =
    Some (to_le_bytes 4 HEADER_FILE_VERSION ++ to_le_bytes 4 (zlength (content_hashes D root)) ++
          concat (content_array D root));
  st_blocks : ∀ i h x, content_hashes D root !! i = Some h → pieces_of block_size D !! i = Some x →
    f !! get_block_path b h = Some x;
  st_wal : ∀ p, wal `prefix_of` p → f !! p = None;
  st_others : ∀ p, ¬ wal `prefix_of` p → p ≠ get_header_path b root →
    (∀ h, h ∈ content_hashes D root → p ≠ get_block_path b h) → f !! p = f0 !! p
}.

Lemma block_path_wal h : ¬ wal `prefix_of` get_block_path b h.
Proof.
  intros [tl Htl]. unfold wal, wal_path, get_block_path in Htl. rewrite <-!app_assoc in Htl.
  by apply app_inv_head in Htl.
Qed.

Lemma header_path_wal h : ¬ wal `prefix_of` get_header_path b h.
Proof.
  intros [tl Htl]. unfold wal, wal_path, get_header_path in Htl. rewrite <-!app_assoc in Htl.
  by apply app_inv_head in Htl.
Qed.

Lemma header_block_path h h' : get_header_path b h ≠ get_block_path b h'.
Proof. unfold get_header_path, get_block_path. intros Heq. by apply app_inv_head in Heq. Qed.

(** The blocks move to their places. *)
Lemma move_blocks_run hs xs f ns :
  NoDup (to_hex <$> hs) → length hs = length xs →
  (∀ i h x, hs !! i = Some h → xs !! i = Some x → f !! tmp h = Some x) →
  ∃ f', move_blocks b (block_files_of hs) (mkDisk f ns []) = Some (Ok tt, mkDisk f' ns []) ∧
    (∀ i h x, hs !! i = Some h → xs !! i = Some x → f' !! get_block_path b h = Some x) ∧
    (∀ p, ¬ wal `prefix_of` p → (∀ h, h ∈ hs → p ≠ get_block_path b h) → f' !! p = f !! p).
Proof.
  revert xs f. induction hs as [|h hs IH]; intros [|x xs] f Hnd Hlen Hf; try done.
  { by exists f. }
  cbn [fmap list_fmap] in Hnd. apply NoDup_cons in Hnd as [Hh Hnd].
  assert (f !! tmp h = Some x) as Hx by (by apply (Hf 0%nat)).
  destruct (IH xs (<[get_block_path b h:=x]> (delete (tmp h) f)) Hnd) as (f' & Hrun & Hblocks & Hothers).
  { simpl in Hlen. lia. }
  { intros i h' y Hh' Hy. rewrite lookup_insert_ne.
    - rewrite lookup_delete_ne; [by apply (Hf (S i))|]. intros Heq%tmp_inj. apply Hh. rewrite Heq.
      apply list_elem_of_fmap_2. by eapply list_elem_of_lookup_2.
    - intros Heq. apply (block_path_wal h). rewrite Heq. apply tmp_wal. }
  exists f'. split_and!.
  - cbn [block_files_of fmap list_fmap move_blocks]. etrans; [apply try_bind_ok; by apply rename_run|]. exact Hrun.
  - intros [|i] h' y Hh' Hy; [|by eapply Hblocks]. simplify_eq/=.
    rewrite Hothers; [apply lookup_insert_eq|apply block_path_wal|].
    intros h2 Hh2 Heq. apply Hh. unfold get_block_path in Heq. apply app_inv_head in Heq. simplify_eq.
    apply list_elem_of_fmap. by exists h2.
  - intros p Hp Hne. rewrite Hothers; [|done|set_solver].
    rewrite lookup_insert_ne by (intros <-; by apply (Hne h); [left|]).
    rewrite lookup_delete_ne; [done|]. intros <-. apply Hp, tmp_wal.
Qed.

Lemma write_hashes_run num buf path f ns :
  write_final (mkBufCollector num buf) path (mkDisk f ns []) =
    Some (Ok tt, mkDisk (<[path:=default [] (f !! path) ++ buf]> f) ns []).
Proof. done. Qed.

Lemma count_in_header (arr : Bytes) n :
  let data := start_header ++ arr in
  take POSITION_START_NUM_ENTRIES data ++ to_le_bytes 4 n ++
    drop (POSITION_START_NUM_ENTRIES + length (to_le_bytes 4 n)) data =
  to_le_bytes 4 HEADER_FILE_VERSION ++ to_le_bytes 4 n ++ arr.
Proof. done. Qed.

Lemma update_num_entries_run arr n f ns :
  f !! tmp hn = Some (start_header ++ arr) →
  update_num_entries (tmp hn) n (mkDisk f ns []) =
    Some (Ok tt, mkDisk (<[tmp hn:=to_le_bytes 4 HEADER_FILE_VERSION ++ to_le_bytes 4 n ++ arr]> f) ns []).
Proof.
  intros Hf. unfold update_num_entries, fs_write_at, io. simpl. unfold_M. unfold set_files. simpl. by rewrite Hf.
Qed.

(** The hashes that are left, the number of blocks, and the moves. *)
Lemma finish_run {T} f hb buf num cur k (c : T) ns :
  disk_ok f hb hashes (pieces_of block_size D) None ns → (∀ c, c ∈ ns → c ∈ ns0) →
  hb ++ buf = start_header ++ concat (content_array D root) →
  ∃ f', (map_err CommitIOError (on_snd (write_final (mkBufCollector num buf) (tmp hn)));;?
         map_err CommitIOError (writer_flush root);;?
         mret (Ok root)) (writer_with hashes cur k c, mkDisk f ns []) =
        Some (Ok root, (writer_with hashes cur k c, mkDisk f' ns [])) ∧ stored f'.
Proof.
  intros Hok Hns Hhb. set (arr := concat (content_array D root)) in *.
  pose proof (disk_header _ _ (hb ++ buf) _ _ _ _ Hok ltac:(done) Hns ltac:(reflexivity)) as Hok1.
  set (hb' := to_le_bytes 4 HEADER_FILE_VERSION ++ to_le_bytes 4 (zlength hashes) ++ arr).
  pose proof (disk_header _ _ hb' _ _ _ _ Hok1 ltac:(done) Hns ltac:(reflexivity)) as Hok2.
  set (f2 := <[tmp hn:=hb']> (<[tmp hn:=hb ++ buf]> f)) in *.
  set (f3 := <[get_header_path b root:=hb']> (delete (tmp hn) f2)).
  destruct (move_blocks_run hashes (pieces_of block_size D) f3 ns) as (f4 & Hmove & Hblocks & Hothers).
  { apply (nf_hashes _ _ _ Hfresh). }
  { apply (do_count _ _ _ _ _ _ Hok). }
  { intros i h' x Hh Hx. unfold f3. rewrite lookup_insert_ne.
    - rewrite lookup_delete_ne; [by apply (do_blocks _ _ _ _ _ _ Hok2 i)|].
      apply not_eq_sym, tmp_hash_header. by eapply list_elem_of_lookup_2.
    - intros Heq. apply (header_path_wal root). rewrite Heq. apply tmp_wal. }
  assert (header_flush (tmp hn) b (block_files_of hashes) root (mkDisk (<[tmp hn:=hb ++ buf]> f) ns []) =
    Some (Ok tt, mkDisk f4 ns [])) as Hflush.
  { unfold header_flush. assert (zlength (block_files_of hashes) = zlength hashes) as ->
      by (unfold block_files_of, zlength; by rewrite length_fmap).
    rewrite wrap_small.
    2: { rewrite content_hashes_count. split; [apply Z.div_pos; pose proof (zlength_nonneg D); lia|].
         apply Z.div_lt_upper_bound; lia. }
    etrans; [apply try_bind_ok, (update_num_entries_run arr); rewrite <-Hhb; apply lookup_insert_eq|].
    etrans; [apply try_bind_ok, rename_run, lookup_insert_eq|]. exact Hmove. }
  eexists. split.
  - etrans; [apply try_bind_ok, map_err_ok, on_snd_run, write_hashes_run|].
    rewrite (do_header _ _ _ _ _ _ Hok). cbn [default from_option id].
    etrans; [apply try_bind_ok, map_err_ok; unfold writer_flush; rewrite fst_get;
      etrans; [apply try_bind_ok, on_snd_run; exact Hflush|reflexivity]|]. reflexivity.
  - cbn [files set_files writer_with w_temp_file_path fst snd]. split; intros; rewrite ?lookup_removed.
    + rewrite bool_decide_false by (apply header_path_wal).
      rewrite Hothers; [apply lookup_insert_eq|apply header_path_wal|intros; apply header_block_path].
    + rewrite bool_decide_false by (apply block_path_wal). by eapply Hblocks.
    + by rewrite bool_decide_true.
    + rewrite bool_decide_false, Hothers by done. unfold f3. rewrite lookup_insert_ne by done.
      rewrite lookup_delete_ne; [by apply (do_others _ _ _ _ _ _ Hok2)|].
      intros <-. match goal with Hp : ¬ wal `prefix_of` _ |- _ => apply Hp, tmp_wal end.
Qed.

Definition writer_final (hs : list Bytes) (cur : option BlockFile) (k : Z) (h : Blake3Hasher BufCollector)
    (final : BufCollector * Bytes) : InnerWriterState FileWriterCollector :=
  writer_with hs cur k (mkFileWriterCollector h (Some final)).

Lemma with_block_final h hs cur k c final :
  with_block h (writer_final hs cur k c final) = writer_final (hs ++ [h]) cur (k +[64] 1) c final.
Proof. apply with_block_with. Qed.

Lemma fc_final_run k hs cur k' h d c r o :
  h_finalize_tree h = Some (c, r) → get_block_hash k c = Some o →
  on_collector (final_block k) (writer_at hs cur k' h, d) =
    Some (Ok o, (writer_final hs cur k' h (push c r, r), d)).
Proof.
  intros Hf Hg. unfold on_collector. cbn. unfold fc_final_block. unfold_M. cbn.
  rewrite Hf. cbn. by rewrite Hg.
Qed.

Lemma fc_taken_run hs cur k h d final :
  on_collector finalize_tree (writer_final hs cur k h final, d) = Some (Ok final, (writer_at hs cur k h, d)).
Proof. done. Qed.

Lemma fc_finalize_run hs cur k h d final :
  h_finalize_tree h = Some final →
  on_collector finalize_tree (writer_at hs cur k h, d) = Some (Ok final, (writer_at hs cur k h, d)).
Proof. intros Hf. unfold on_collector. cbn. unfold fc_finalize_tree. unfold_M. cbn. by rewrite Hf. Qed.

Context (Hroot : iv_hash_all_at_once iv D = Some root).

Lemma commit_empty f :
  D = [] → disk_ok f start_header [] [] None ns0 →
  ∃ s' f' ns', writer_commit (writer_at [] None 0 (h_new_with_iv bc_default iv), mkDisk f ns0 []) =
    Some (Ok root, (s', mkDisk f' ns' [])) ∧ stored f'.
Proof.
  intros HDnil Hok.
  destruct (h_final_run iv _ _ (content_inv_start iv)) as (o & Hf & Hh & _).
  rewrite <-HDnil, Hroot in Hh. simplify_eq.
  destruct (buffered_final (bh_from iv) [] 0 0 [] (root_hash o)) as [Hfin _]; [simpl; lia| |].
  { unfold h_finalize_tree. change (content iv (bh_from iv) [] 0) with (h_new_with_iv (@nil Bytes) iv).
    by rewrite Hf. }
  rewrite <-Hh in Hfin. assert (hashes = [] ∧ content_array D root = [] ∧ pieces_of block_size D = []) as (Hhs & Harr & Hps).
  { unfold content_hashes, content_array. by rewrite HDnil. }
  destruct (finish_run f start_header [] (wrap 64 0) None 0 (mkFileWriterCollector (h_new_with_iv bc_default iv) None) ns0) as (f' & Hrun & Hst);
    [by rewrite Hhs, Hps|done|by rewrite Harr|]. rewrite Hhs in Hrun.
  do 3 eexists. split; [|exact Hst]. unfold writer_commit. rewrite fst_get. cbn [writer_at writer_with w_current_block_file].
  etrans; [apply try_bind_ok; reflexivity|].
  etrans; [apply try_bind_ok, map_err_ok, fc_finalize_run; exact Hfin|]. cbn iota. rewrite fst_get.
  etrans; [apply try_bind_ok; reflexivity|]. exact Hrun.
Qed.

(** The last block of a content. *)
Section last_block.
Context (k : Z) (d0 e : Bytes) (F : list (tree Bytes)) (bs : BlockHasher) (c : Bytes) (ns : list Bytes)
  (f : gmap Path Bytes).
Context (HDe : D = d0 ++ e) (Hin : in_block iv k d0 e F bs) (Hleft : names_left c ns).
Context (Hok : disk_ok f (start_header ++ concat (posts m F)) (block_cvs iv 0 d0) (pieces_of block_size d0)
  (Some (c, e)) ns).

#[local] Abbreviation cur := (Some (mkBlockFile (zlength e) (tmp c))).
#[local] Abbreviation h := (buffered bs F k (length (posts m F))).

Lemma last_names x : x ∈ ns → x ∈ ns0.
Proof. intros Hx. apply (names_left_in c ns); [done|by right]. Qed.

Lemma commit_one :
  k = 0 →
  ∃ s' f' ns', writer_commit (writer_at (block_cvs iv 0 d0) cur k h, mkDisk f ns []) =
    Some (Ok root, (s', mkDisk f' ns' [])) ∧ stored f'.
Proof.
  pose proof BB_val as HBB. intros Hk0. destruct (final_steps iv k d0 e F bs Hin) as (tree & hash & Hf & Hh & Ht & _).
  rewrite <-HDe, Hroot in Hh. simplify_eq Hh. intros <-. rewrite (Ht Hk0) in Hf.
  destruct (buffered_final bs F k _ _ _ ltac:(reflexivity) Hf) as [Hfin Hfl]. simpl in Hfl.
  assert (posts m F = []) as HF by (apply nil_length_inv; lia).
  pose proof Hin as (Hd0 & _ & Hne & He & _). rewrite Hk0, Z.mul_0_r in Hd0.
  assert (d0 = []) as Hd0n by (destruct d0; [done|unfold zlength in Hd0; simpl in Hd0; lia]).
  assert (D = e) as HDe' by (by rewrite HDe, Hd0n).
  assert (hashes = [root] ∧ content_array D root = [root] ∧ pieces_of block_size D = [e]) as (Hhs & Harr & Hps).
  { unfold content_hashes, content_array. rewrite HDe', bool_decide_true by done.
    split_and!; [by destruct e..|]. destruct (blocks_snoc 0 [] e) as [_ Hp]; [by rewrite Z.mul_0_r|lia|done|done|]. exact Hp. }
  pose proof Hok as Hok0. rewrite Hd0n in Hok0.
  pose proof (disk_commit _ _ _ _ _ _ root _ Hok0 Hleft ltac:(rewrite Hhs; reflexivity)) as Hok1.
  change (block_cvs iv 0 [] ++ [root]) with [root] in Hok1. rewrite <-Hhs in Hok1 at 1.
  change (pieces_of block_size [] ++ [e]) with [e] in Hok1. rewrite <-Hps in Hok1.
  destruct (finish_run _ _ root (wrap 64 0 +[64] 1) cur (0 +[64] 1) (mkFileWriterCollector h None) ns Hok1 last_names) as (f' & Hrun & Hst).
  { rewrite Harr, HF. simpl. by rewrite !app_nil_r. }
  rewrite Hhs in Hrun. rewrite Hd0n, Hk0, HF in *. do 3 eexists. split; [|exact Hst].
  unfold writer_commit. rewrite fst_get. cbn [writer_at writer_with w_current_block_file w_count_block].
  etrans; [apply try_bind_ok; etrans; [apply try_bind_ok, map_err_ok; by apply fc_final_run|reflexivity]|].
  etrans; [apply try_bind_ok, map_err_ok, fc_taken_run|]. cbn iota. rewrite fst_get.
  etrans; [apply try_bind_ok, map_err_ok; by apply (new_block_run _ (zlength e) (tmp c) e), (do_current _ _ _ _ _ _ Hok0)|].
  rewrite with_block_at. exact Hrun.
Qed.

Lemma commit_many :
  0 < k →
  ∃ s' f' ns', writer_commit (writer_at (block_cvs iv 0 d0) cur k h, mkDisk f ns []) =
    Some (Ok root, (s', mkDisk f' ns' [])) ∧ stored f'.
Proof.
  pose proof BB_val as HBB. intros Hk0. destruct (final_steps iv k d0 e F bs Hin) as (tree & hash & Hf & Hh & _ & Ht).
  rewrite <-HDe, Hroot in Hh. simplify_eq Hh. intros <-. destruct (Ht Hk0) as (Harr & ys & Htree).
  destruct (buffered_final bs F k _ _ _ ltac:(reflexivity) Hf) as [Hfin Hfl].
  pose proof Hin as (Hd0 & Hk & Hne & He & Htot & _ & HF & Hl). pose proof (zlength_nonneg e).
  assert (0 < zlength e) as Hpos by (destruct e; [done|unfold zlength; simpl; lia]).
  destruct (blocks_snoc k d0 e Hd0 Hk Hne He) as [Hcvs Hps].
  assert (hashes = block_cvs iv 0 d0 ++ [block_cv iv k e] ∧ content_array D root = tree ++ [root]) as [Hhs Hca].
  { unfold content_hashes, content_array. rewrite HDe, zlength_app, bool_decide_false by lia. by rewrite Harr, Hcvs. }
  destruct (tree_array_facts iv (d0 ++ e)) as (_ & _ & Hhash & Hlen & Hcount);
    [by destruct d0, e|rewrite zlength_app; lia|]. rewrite <-Harr in Hhash.
  assert (get_block_hash k (buffer_from (length (posts m F)) tree) = Some (Some (block_cv iv k e))) as Hg.
  { rewrite Htree. apply get_block_hash_next; rewrite <-?Htree.
    - by apply Forall_app in Hhash as [? _].
    - rewrite <-Harr, zlength_app in Hlen. change (zlength [root]) with 1 in Hlen. lia.
    - apply posts_tree_index; [done|lia]. }
  pose proof (disk_commit _ _ _ _ _ _ (block_cv iv k e) _ Hok Hleft ltac:(rewrite Hhs; reflexivity)) as Hok1.
  rewrite <-Hhs, <-Hps, <-HDe in Hok1.
  destruct (flushed_push (length (posts m F)) tree _ root (conj Hfl eq_refl)) as [_ Hpush].
  destruct (finish_run _ _ (concat (drop (length (posts m F)) (tree ++ [root]))) (wrap 64 (zlength (tree ++ [root])))
    cur (k +[64] 1) (mkFileWriterCollector h None) ns Hok1 last_names) as (f' & Hrun & Hst).
  { rewrite Hca, Htree, <-!(app_assoc (posts m F)), drop_app_length, (concat_app (posts m F)).
    by rewrite <-app_assoc. }
  rewrite Hhs in Hrun. do 3 eexists. split; [|exact Hst].
  unfold writer_commit. rewrite fst_get. cbn [writer_at writer_with w_current_block_file w_count_block].
  etrans; [apply try_bind_ok; etrans; [apply try_bind_ok, map_err_ok; by apply fc_final_run|]; cbn iota;
    apply map_err_ok; by apply (new_block_run _ (zlength e) (tmp c) e), (do_current _ _ _ _ _ _ Hok)|].
  rewrite with_block_final.
  etrans; [apply try_bind_ok, map_err_ok, fc_taken_run|]. rewrite Hpush. cbn iota. rewrite fst_get.
  cbn [writer_at writer_with w_current_block_file w_count_block is_some andb].
  rewrite bool_decide_false by (rewrite wrap_small by (unfold in_width; lia); lia).
  etrans; [apply try_bind_ok; reflexivity|]. exact Hrun.
Qed.
End last_block.

Lemma commit_run d s :
  writing d s → d = D → ∃ s' f' ns', writer_commit s = Some (Ok root, (s', mkDisk f' ns' [])) ∧ stored f'.
Proof.
  intros [f Hok|k d0 e F bs c ns f Hin Hleft Hlen Hok] Hd.
  - by apply commit_empty.
  - pose proof Hin as (_ & Hk & _). destruct (decide (k = 0)).
    + by apply (commit_one k d0 e F bs c ns f).
    + apply (commit_many k d0 e F bs c ns f); try done. lia.
Qed.

Lemma writes_run writes d s :
  writing d s → d ++ concat writes `prefix_of` D →
  ∃ s', write_chunks writes s = Some (Ok tt, s') ∧ writing (d ++ concat writes) s'.
Proof.
  revert d s. induction writes as [|x writes IH]; intros d s Hs Hpre; cbn [concat write_chunks] in *.
  { exists s. by rewrite app_nil_r. }
  rewrite app_assoc in *. destruct (write_loop_run (length x) x false d s Hs ltac:(lia)) as (s1 & Hx & Hs1).
  { etrans; [|exact Hpre]. by apply prefix_app_r. }
  destruct (IH (d ++ x) s1 Hs1 Hpre) as (s2 & Hrun & Hs2). exists s2. split; [|done].
  etrans; [apply try_bind_ok, Hx|]. exact Hrun.
Qed.

(** A new writer. *)
Lemma writer_new_run {T} (coll : T) :
  (∀ p, wal `prefix_of` p → f0 !! p = None) →
  ∃ f, writer_new b coll (mkDisk f0 (t :: hn :: ns0) []) = Some (Ok (writer_with [] None 0 coll), mkDisk f ns0 []) ∧
    disk_ok f start_header [] [] None ns0.
Proof.
  intros Hwal. set (p := tmp hn). set (f1 := <[p:=[]]> f0).
  set (f2 := <[p:=default [] (f1 !! p) ++ to_le_bytes 4 HEADER_FILE_VERSION]> f1).
  exists (<[p:=default [] (f2 !! p) ++ to_le_bytes 4 0]> f2). split; [reflexivity|]. unfold f2, f1, p.
  rewrite !lookup_insert_eq. cbn [default from_option id]. rewrite !insert_insert_eq. split; try done.
  - apply lookup_insert_eq.
  - intros c Hc. rewrite lookup_insert_ne by (by apply not_eq_sym, tmp_name_header). apply Hwal, tmp_wal.
  - intros q Hq. rewrite lookup_insert_ne; [done|]. intros <-. apply Hq, tmp_wal.
Qed.

Lemma new_run :
  (∀ p, wal `prefix_of` p → f0 !! p = None) →
  ∃ f, file_writer_new b (mkDisk f0 (t :: hn :: ns0) []) =
      Some (Ok (writer_at [] None 0 (h_new_with_iv bc_default iv)), mkDisk f ns0 []) ∧
    disk_ok f start_header [] [] None ns0.
Proof.
  intros Hwal. destruct (writer_new_run fc_new Hwal) as (f & Hrun & Hok). exists f. split; [|done].
  unfold file_writer_new. by apply map_err_ok.
Qed.
End writing.
