(* ===== verification/BucketFaults.v ===== *)
(** * BucketFaults: writes on a disk that fails

    Every operation of the disk may fail.  The code of
    [lib/b3fs/src/bucket/file/] hands every failure on: a session that ends with a
    hash did what it does on a disk that does not fail.  With [BucketWrite] this
    gives what a session of a trusted writer promises, and what a reader of
    [lib/b3fs/src/bucket/mod.rs] finds afterwards. *)

From S2P Require Import Prelude Types Codec HashTree ProofBuf Blake3 Blake3Tree Forest Verifier ByteHasher ByteTree ContentHash Collectors ContentSteps Bucket BucketWrite.
From stdpp Require Import base list gmap strings.
From Stdlib Require Import ZArith Lia.
Open Scope Z_scope.

(** ** States with faults to come *)

Class Faulty (S : Type) := with_faults : list bool → S → S.

#[global] Instance faulty_disk : Faulty Disk := λ fs d, mkDisk (files d) (names d) fs.
#[global] Instance faulty_pair {S D} `{Faulty D} : Faulty (S * D) := λ fs sd, (sd.1, with_faults fs sd.2).

Section tolerance.
Context {S : Type} `{Faulty S} (Htwice : ∀ fs fs' (s : S), with_faults fs (with_faults fs' s) = with_faults fs s).

(** The faults have no influence. *)
Definition steady {A} (m : M S A) : Prop :=
  ∀ fs s, m (with_faults fs s) = match m s with Some (a, s') => Some (a, with_faults fs s') | None => None end.

(** What succeeds without faults does the same or reports an error with faults. *)
Definition tolerant {A E} (m : M S (Result A E)) : Prop :=
  ∀ s a s', m (with_faults [] s) = Some (Ok a, s') →
    s' = with_faults [] s' ∧
    ∀ fs, (∃ fs', m (with_faults fs s) = Some (Ok a, with_faults fs' s')) ∨
          (∃ e t, m (with_faults fs s) = Some (Err e, t)).

Lemma steady_bind {A B} (m : M S A) (k : A → M S B) :
  steady m → (∀ a, steady (k a)) → steady (m ≫= k).
Proof. intros Hm Hk fs s. unfold_M. rewrite Hm. destruct (m s) as [[a s']|]; [|done]. apply Hk. Qed.

Lemma steady_ret {A} (a : A) : steady (mret a).
Proof. by intros fs s. Qed.

Lemma tolerant_ret {A E} (r : Result A E) : tolerant (mret r).
Proof.
  intros s a s' Heq. unfold_M. simplify_eq. rewrite Htwice. split; [done|]. intros fs. left. exists fs.
  by rewrite Htwice.
Qed.

Lemma tolerant_bind {A B E} (m : M S A) (k : A → M S (Result B E)) :
  steady m → (∀ a, tolerant (k a)) → tolerant (m ≫= k).
Proof.
  intros Hm Hk s b s' Heq. unfold_M. rewrite Hm in Heq. destruct (m s) as [[a s1]|] eqn:Es; [|done].
  destruct (Hk a s1 b s' Heq) as [Hq Hfs]. split; [done|]. intros fs. rewrite Hm, Es. apply Hfs.
Qed.

Lemma tolerant_try {A B E} (m : M S (Result A E)) (k : A → M S (Result B E)) :
  tolerant m → (∀ a, tolerant (k a)) → tolerant (try_bind m k).
Proof.
  intros Hm Hk s b s' (a & s1 & H1 & H2)%try_bind_inv. destruct (Hm s a s1 H1) as [Hq1 Hfs1].
  rewrite Hq1 in H2. destruct (Hk a s1 b s' H2) as [Hq2 Hfs2]. split; [done|]. intros fs.
  unfold try_bind. unfold_M. destruct (Hfs1 fs) as [[fs' ->]|(e & t & ->)]; [apply Hfs2|by eauto].
Qed.

Lemma tolerant_map_err {A E F} (g : E → F) (m : M S (Result A E)) : tolerant m → tolerant (map_err g m).
Proof.
  intros Hm s a s' Heq. unfold map_err in *. unfold_M.
  destruct (m (with_faults [] s)) as [[[a'|e] s1]|] eqn:Es; simplify_eq.
  destruct (Hm s a s' Es) as [Hq Hfs]. split; [done|]. intros fs.
  destruct (Hfs fs) as [[fs' ->]|(e & t & ->)]; [left; by eauto|right; by eauto].
Qed.

Lemma tolerant_panic {A E} : @tolerant A E panic.
Proof. by intros s a s' Heq. Qed.
End tolerance.

Lemma disk_twice fs fs' (d : Disk) : with_faults fs (with_faults fs' d) = with_faults fs d.
Proof. done. Qed.

Lemma pair_twice {S} fs fs' (sd : S * Disk) : with_faults fs (with_faults fs' sd) = with_faults fs sd.
Proof. done. Qed.

(** ** The operations of the disk *)

Lemma tolerant_io {A} (op : M Disk (Result A IoError)) : steady op → tolerant (io op).
Proof.
  intros Hop d a d' Heq. unfold io in *. cbn [with_faults faulty_disk faults files names] in *.
  change (mkDisk (files d) (names d) []) with (with_faults [] d) in Heq. rewrite Hop in Heq.
  destruct (op d) as [[r d1]|] eqn:Ed; simplify_eq. split; [done|].
  intros [|[] fs]; [|right; by eauto|]; left; eexists;
    [change (mkDisk (files d) (names d) []) with (with_faults [] d)|
     change (mkDisk (files d) (names d) fs) with (with_faults fs d)]; by rewrite Hop, Ed.
Qed.

Create HintDb tolerance.

(** Looks at the operation itself. *)
Ltac solve_io := apply tolerant_io; intros fs d; unfold_M; simpl; repeat case_match; done.

Lemma tolerant_rename src dst : tolerant (fs_rename src dst).
Proof. solve_io. Qed.
Lemma tolerant_open_append p : tolerant (fs_open_append p).
Proof. solve_io. Qed.
Lemma tolerant_open_truncate p : tolerant (fs_open_truncate p).
Proof. solve_io. Qed.
Lemma tolerant_write_all p x : tolerant (fs_write_all p x).
Proof. solve_io. Qed.
Lemma tolerant_write_at p x n : tolerant (fs_write_at p x n).
Proof. solve_io. Qed.
Lemma tolerant_flush : tolerant fs_flush.
Proof. solve_io. Qed.
Lemma tolerant_create_dir p : tolerant (fs_create_dir_all p).
Proof. solve_io. Qed.
Lemma tolerant_remove_dir p : tolerant (fs_remove_dir_all p).
Proof. solve_io. Qed.
#[export] Hint Resolve tolerant_rename tolerant_open_append tolerant_open_truncate tolerant_write_all
  tolerant_write_at tolerant_flush tolerant_create_dir tolerant_remove_dir : tolerance.

Lemma steady_random_file p : steady (random_file_from p).
Proof. apply steady_bind; [|intros; apply steady_ret]. intros fs d. unfold random. simpl. by destruct (names d). Qed.
#[export] Hint Resolve steady_random_file : tolerance.

(** ** Parts of a state *)

Lemma steady_fst {S A} (m : M S A) : steady (on_fst (D:=Disk) m).
Proof. intros fs [s d]. unfold on_fst. simpl. by destruct (m s) as [[a s']|]. Qed.

Lemma steady_snd {S A} (m : M Disk A) : steady m → steady (on_snd (S:=S) m).
Proof. intros Hm fs [s d]. unfold on_snd. simpl. rewrite Hm. by destruct (m d) as [[a d']|]. Qed.

Lemma tolerant_snd {S A E} (m : M Disk (Result A E)) : tolerant m → tolerant (on_snd (S:=S) m).
Proof.
  intros Hm [s d] a sd Heq. unfold on_snd in *. simpl in *.
  destruct (m (with_faults [] d)) as [[r d']|] eqn:Ed; simplify_eq.
  destruct (Hm d a d' Ed) as [Hq Hfs]. split; [unfold with_faults, faulty_pair; simpl; by rewrite <-Hq|].
  intros fs. destruct (Hfs fs) as [[fs' ->]|(e & t & ->)]; [left; by exists fs'|right; by eauto].
Qed.

(** An operation on a part of the first component. *)
Lemma tolerant_zoom {S S' A E} (m : M (S' * Disk) (Result A E)) (g : S → S') (put : S' → S → S) :
  tolerant m →
  tolerant (λ sd : S * Disk,
    match m (g sd.1, sd.2) with Some (r, (c, d)) => Some (r, (put c sd.1, d)) | None => None end).
Proof.
  intros Hm [s d] a sd Heq. simpl in *.
  destruct (m (g s, with_faults [] d)) as [[r [c d']]|] eqn:Ed; simplify_eq.
  destruct (Hm (g s, d) a (c, d') Ed) as [Hq Hfs].
  unfold with_faults at 1, faulty_pair in Hq. simpl in Hq. simplify_eq.
  split; [unfold with_faults, faulty_pair; simpl; by f_equal|].
  intros fs. specialize (Hfs fs). unfold with_faults at 1 3, faulty_pair in Hfs. simpl in Hfs.
  destruct Hfs as [[fs' ->]|(e & [c' t] & ->)]; [left; by exists fs'|right; by eauto].
Qed.

(** An operation whose first component is given and dropped. *)
Lemma tolerant_drop {S A E} (m : M (S * Disk) (Result A E)) (s : S) :
  tolerant m →
  tolerant (λ d, match m (s, d) with Some (r, (_, d)) => Some (r, d) | None => None end).
Proof.
  intros Hm d a d' Heq. simpl in *.
  destruct (m (s, with_faults [] d)) as [[r [c d1]]|] eqn:Ed; simplify_eq.
  destruct (Hm (s, d) a (c, d') Ed) as [Hq Hfs].
  unfold with_faults at 1, faulty_pair in Hq. simpl in Hq. simplify_eq. split; [done|].
  intros fs. specialize (Hfs fs). unfold with_faults at 1 3, faulty_pair in Hfs. simpl in Hfs.
  destruct Hfs as [[fs' ->]|(e & [c' t] & ->)]; [left; by exists fs'|right; by eauto].
Qed.

(** Follows the structure of an operation. *)
Ltac tolerance_step :=
  lazymatch goal with
  | |- tolerant (mret _) => apply tolerant_ret; done
  | |- tolerant panic => apply tolerant_panic
  | |- tolerant (try_bind _ _) => apply tolerant_try
  | |- tolerant (map_err _ _) => apply tolerant_map_err
  | |- tolerant (on_snd _) => apply tolerant_snd
  | |- tolerant (_ ≫= _) => apply tolerant_bind
  | |- steady (on_fst _) => apply steady_fst
  | |- _ => first [solve [eauto with tolerance] | case_match]
  end.
Ltac tolerance := repeat (intros; tolerance_step).

Lemma tolerant_hash p : tolerant (write_hash p).
Proof. unfold write_hash. tolerance. Qed.

Section writers.
Context {T : Type} {W : WithCollector T}.

Lemma steady_collector {A} (m : M T A) : steady (on_collector m).
Proof. intros fs [w d]. unfold on_collector. simpl. by destruct (m (w_collector w)) as [[a c]|]. Qed.

Lemma tolerant_both {A E} (m : M (T * Disk) (Result A E)) : tolerant m → tolerant (on_both m).
Proof. intros Hm. exact (tolerant_zoom m w_collector with_collector Hm). Qed.

#[local] Hint Resolve steady_collector tolerant_both : tolerance.

Context (Hnew : ∀ n p, tolerant (on_new_block (T:=T) n p)).
#[local] Hint Resolve Hnew : tolerance.

Lemma tolerant_move_blocks b l : tolerant (move_blocks b l).
Proof. induction l as [|[h p] l IH]; simpl; tolerance. Qed.
#[local] Hint Resolve tolerant_move_blocks : tolerance.

Lemma tolerant_new_block h : tolerant (new_block (T:=T) h).
Proof. unfold new_block, block_commit. tolerance. Qed.

Lemma tolerant_create : tolerant (create_new_block_file (T:=T)).
Proof. unfold create_new_block_file, block_from_wal_path. tolerance. Qed.

Lemma tolerant_write_block x : tolerant (write_block_file (T:=T) x).
Proof. unfold write_block_file, block_write_all. tolerance. Qed.
#[local] Hint Resolve tolerant_new_block tolerant_create tolerant_write_block : tolerance.

(** An operation of the collector has no part in the disk. *)
Lemma tolerant_collector {A E} (m : M T (Result A E)) : tolerant (on_collector m).
Proof.
  intros [w d] a sd Heq. rewrite steady_collector in Heq.
  destruct (on_collector m (w, d)) as [[r s']|] eqn:Es; simplify_eq. split; [done|].
  intros fs. left. exists fs. by rewrite steady_collector, Es.
Qed.
#[local] Hint Resolve tolerant_collector : tolerance.

Lemma tolerant_process x last : tolerant (process_block (T:=T) x last).
Proof. unfold process_block. tolerance. Qed.
#[local] Hint Resolve tolerant_process : tolerance.

Lemma tolerant_write fuel x last : tolerant (write_loop (T:=T) fuel x last).
Proof.
  revert x. induction fuel as [|fuel IH]; intros [|z x]; cbn [write_loop]; tolerance.
Qed.

Lemma tolerant_final c p : tolerant (write_final c p).
Proof. apply (tolerant_drop (write_hash p)). apply tolerant_hash. Qed.
#[local] Hint Resolve tolerant_final : tolerance.

Lemma tolerant_commit : tolerant (writer_commit (T:=T)).
Proof. unfold writer_commit, writer_flush, header_flush, update_num_entries. tolerance. Qed.
End writers.

(** ** A session of a trusted writer *)

Section session.
Context {P : Platform} {PL : PlatformLaws P}.
#[local] Opaque TREE_BLOCK_SIZE_BYTES.

Lemma tolerant_fc_new_block n p : tolerant (on_new_block (T:=FileWriterCollector) n p).
Proof.
  exact (tolerant_zoom (write_hash p) (λ c, h_tree (fc_hasher c))
    (λ tree c, fc_with_hasher (h_with_tree tree (fc_hasher c)) c) (tolerant_hash p)).
Qed.

Lemma tolerant_chunks writes : tolerant (write_chunks writes).
Proof.
  induction writes as [|x writes IH]; cbn [write_chunks]; tolerance.
  apply tolerant_write, tolerant_fc_new_block.
Qed.

Lemma tolerant_session b writes : tolerant (store_file b writes).
Proof.
  apply tolerant_try.
  - unfold file_writer_new, writer_new, get_new_wal_path, header_from_wal_path. tolerance.
  - intros w. apply (tolerant_drop (map_err CommitWriteError (write_chunks writes);;? writer_commit)).
    apply tolerant_try; [apply tolerant_map_err, tolerant_chunks|intros _].
    apply tolerant_commit.
Qed.

Lemma session_run b t hn ns f writes root :
  zlength (concat writes) ≤ 262144 * (2 ^ 32 - 1) →
  (length (pieces_of block_size (concat writes)) ≤ length ns)%nat →
  iv_hash_all_at_once IV_DEFAULT (concat writes) = Some root →
  names_fresh hn ns (content_hashes (concat writes) root) →
  (∀ p, wal b t `prefix_of` p → f !! p = None) →
  ∃ f' ns', store_file b writes (mkDisk f (t :: hn :: ns) []) = Some (Ok root, mkDisk f' ns' []) ∧
    stored b t f (concat writes) root f'.
Proof.
  intros HD Hns Hroot Hfresh Hwal.
  destruct (new_run b t hn ns f _ root Hfresh Hwal) as (f1 & Hnew & Hok).
  destruct (writes_run b t hn ns f (concat writes) root HD Hfresh Hns writes []
    (writer_at b t hn [] None 0 (h_new_with_iv bc_default IV_DEFAULT), mkDisk f1 ns [])) as (s1 & Hw & Hs1);
    [by constructor|done|].
  destruct (commit_run b t hn ns f (concat writes) root HD Hfresh Hns Hroot _ s1 Hs1 eq_refl) as (s2 & f2 & ns2 & Hc & Hst).
  exists f2, ns2. split; [|done]. unfold store_file. etrans; [apply try_bind_ok, map_err_ok, Hnew|]. simpl.
  erewrite try_bind_ok by (apply map_err_ok, Hw). by rewrite Hc.
Qed.

(** ** Reading *)

Lemma read_header b t f D root f' ns :
  zlength D ≤ 262144 * (2 ^ 32 - 1) → stored b t f D root f' →
  bucket_get b root (mkDisk f' ns []) =
    Some (Ok (mkContentHeader true (zlength (content_hashes D root)) (get_header_path b root)), mkDisk f' ns []).
Proof.
  intros HD Hst. unfold bucket_get. erewrite try_bind_ok.
  2: { unfold fs_read, io. simpl. unfold_M. simpl. by rewrite (st_header _ _ _ _ _ _ Hst). }
  set (arr := concat _). set (n := zlength _).
  assert (0 ≤ n < 2 ^ 32) as Hn.
  { unfold n. rewrite content_hashes_count. split; [apply Z.div_pos; pose proof (zlength_nonneg D); lia|].
    apply Z.div_lt_upper_bound; lia. }
  pose proof (to_le_bytes_length 4 n) as Hl. pose proof (le_bytes_roundtrip 4 n ltac:(simpl; lia)) as Hr.
  destruct (to_le_bytes 4 n) as [|x0 [|x1 [|x2 [|x3 [|]]]]]; try done. clearbody n arr.
  change (to_le_bytes 4 HEADER_FILE_VERSION) with [0; 0; 0; 0]. cbn [app length take drop].
  rewrite bool_decide_false by lia. change (from_le_bytes [0; 0; 0; 0]) with 0.
  rewrite take_0, Hr, bool_decide_false, (bool_decide_true (0 = 0)) by lia. done.
Qed.

Lemma read_block b h x f ns :
  f !! get_block_path b h = Some x →
  get_block_content b h (mkDisk f ns []) = Some (Ok (Some x), mkDisk f ns []).
Proof.
  intros Hx. unfold get_block_content.
  erewrite try_bind_ok by (unfold fs_try_exists, io; simpl; unfold_M; simpl; by rewrite Hx). cbn [is_some].
  by erewrite try_bind_ok by (unfold fs_read, io; simpl; unfold_M; simpl; by rewrite Hx).
Qed.

Lemma content_hashes_length D root : length (content_hashes D root) = length (pieces_of block_size D).
Proof.
  pose proof (content_hashes_count D root) as Hc. pose proof (block_cvs_count IV_DEFAULT 0 D) as Hb.
  unfold block_cvs, zlength in Hb. rewrite length_imap in Hb. unfold zlength in Hc. lia.
Qed.

(** The header is moved before the blocks: when the first move of a block fails,
    the content exists and the block does not. *)
Lemma header_flush_not_atomic path b h p blocks root f ns data :
  f !! path = Some data → f !! get_block_path b h = None → get_block_path b h ≠ path →
  ∃ d', header_flush path b ((h, p) :: blocks) root (mkDisk f ns [false; false; true]) = Some (Err IoFailed, d') ∧
    bucket_exists b root d' = Some (Ok true, d') ∧ get_block_content b h d' = Some (Ok None, d').
Proof.
  intros Hpath Hblock Hne. unfold header_flush. eexists. split.
  { etrans; [apply try_bind_ok; reflexivity|]. cbn [fst snd].
    etrans; [apply try_bind_ok; unfold fs_rename, io; unfold_M; simpl; rewrite lookup_insert_eq; reflexivity|].
    cbn [move_blocks]. reflexivity. }
  split.
  - unfold bucket_exists, fs_try_exists, io. unfold_M. simpl. by rewrite lookup_insert_eq.
  - unfold get_block_content. erewrite try_bind_ok.
    2: { unfold fs_try_exists, io. unfold_M. simpl.
      rewrite lookup_insert_ne, lookup_delete_ne, lookup_insert_ne, Hblock by (done || apply header_block_path).
      reflexivity. }
    reflexivity.
Qed.

(** A stored content can be read. *)
Lemma stored_reads b t f D root f' ns :
  zlength D ≤ 262144 * (2 ^ 32 - 1) → stored b t f D root f' →
  let quiet := mkDisk f' ns [] in
  bucket_get b root quiet = Some (Ok (mkContentHeader true (zlength (content_hashes D root))
    (get_header_path b root)), quiet) ∧
  ∀ i x, pieces_of block_size D !! i = Some x →
    ∃ h, content_hashes D root !! i = Some h ∧ get_block_content b h quiet = Some (Ok (Some x), quiet).
Proof.
  intros HD Hst quiet. split; [by eapply read_header|]. intros i x Hx.
  destruct (content_hashes D root !! i) as [h|] eqn:Hh.
  - exists h. split; [done|]. apply read_block. by eapply (st_blocks _ _ _ _ _ _ Hst).
  - apply lookup_ge_None in Hh. rewrite content_hashes_length in Hh. apply lookup_lt_Some in Hx. lia.
Qed.

(** C11: However a content is cut into writes, and whichever operations of the disk
    fail, a session of a trusted writer does not panic.  It returns the hash of the
    content if nothing fails, and whenever it returns a hash then it is the hash of
    the content, its header can be read, with the number of blocks and the array of
    the tree, every block is read back under its hash, the temporary files are gone
    and no other file has changed. *)
Theorem trusted_write_roundtrip b writes d t hn ns root :
  zlength (concat writes) ≤ 262144 * (2 ^ 32 - 1) →
  names d = t :: hn :: ns → (length (pieces_of block_size (concat writes)) ≤ length ns)%nat →
  iv_hash_all_at_once IV_DEFAULT (concat writes) = Some root →
  names_fresh hn ns (content_hashes (concat writes) root) →
  (∀ p, wal b t `prefix_of` p → files d !! p = None) →
  ∃ r d', store_file b writes d = Some (r, d') ∧ (faults d = [] → r = Ok root) ∧
    ∀ hash, r = Ok hash →
      let quiet := with_faults [] d' in
      hash = root ∧ stored b t (files d) (concat writes) root (files d') ∧
      bucket_get b root quiet = Some (Ok (mkContentHeader true
        (zlength (content_hashes (concat writes) root)) (get_header_path b root)), quiet) ∧
      ∀ i x, pieces_of block_size (concat writes) !! i = Some x →
        ∃ h, content_hashes (concat writes) root !! i = Some h ∧
          get_block_content b h quiet = Some (Ok (Some x), quiet).
Proof.
  intros HD Hnames Hns Hroot Hfresh Hwal. destruct d as [f0 ns0 fs]. simpl in *. subst ns0.
  destruct (session_run b t hn ns f0 writes root HD Hns Hroot Hfresh Hwal) as (f' & ns' & Hrun & Hst).
  destruct (tolerant_session b writes (mkDisk f0 (t :: hn :: ns) []) root _ Hrun) as [_ Hfs].
  pose proof (stored_reads b t f0 (concat writes) root f' ns' HD Hst) as Hread.
  destruct fs as [|fault fs].
  { exists (Ok root), (mkDisk f' ns' []). split_and!; [done|done|]. by intros hash [= <-]. }
  destruct (Hfs (fault :: fs)) as [[fs' Hok]|(e & d' & Herr)].
  - exists (Ok root), (mkDisk f' ns' fs'). split_and!; [done|done|]. by intros hash [= <-].
  - by exists (Err e), d'.
Qed.
End session.
