(* ===== verification/BucketUntrusted.v ===== *)
(** * BucketUntrusted: what an untrusted writer stores

    [UntrustedFileWriter] of [lib/b3fs/src/bucket/file/uwriter.rs] with the
    collector of [file/state/uwriter.rs]: a peer sends proofs and bytes for a hash
    that is known.  Whatever it sends, a commit that succeeds has stored the content
    with this hash, or the peer has found a collision. *)

From S2P Require Import Prelude Types Codec HashTree ProofBuf Blake3 Blake3Tree Forest Verifier Streaming Collecting ByteHasher ByteTree ContentHash Collectors ContentSteps Bucket BucketWrite.
From stdpp Require Import base list gmap strings.
From Stdlib Require Import ZArith Lia.
Open Scope Z_scope.

(** ** A session *)

(** What a peer sends. *)
Inductive Received := FeedProof (proof : Bytes) | WriteBytes (bytes : Bytes) (last_bytes : bool).

Fixpoint written (ops : list Received) : Bytes :=
  match ops with
  | [] => []
  | FeedProof _ :: ops => written ops
  | WriteBytes bytes _ :: ops => bytes ++ written ops
  end.

Section session.
Context {P : Platform}.

(** A session goes on while nothing fails. *)
Fixpoint receive (ops : list Received) : M (InnerWriterState UntrustedFileWriterCollector * Disk) (Result unit unit) :=
  match ops with
  | [] => mret (Ok tt)
  | FeedProof proof :: ops => map_err (λ _, tt) (untrusted_feed_proof proof);;? receive ops
  | WriteBytes bytes last :: ops => map_err (λ _, tt) (writer_write bytes last);;? receive ops
  end.

Definition receive_file (bucket : Bucket) (hash : Bytes) (ops : list Received) : M Disk (Result Bytes unit) :=
  w ←? map_err (λ _, tt) (untrusted_writer_new bucket hash);
  λ d, match (receive ops;;? map_err (λ _, tt) writer_commit) (w, d) with
       | Some (r, (_, d)) => Some (r, d)
       | None => None
       end.

(** ** Collisions *)

(** The tree over the blocks of a content. *)
Definition tree_over (D root : Bytes) : tree Bytes := tree_of (content_hashes D root).

(** A content of one block is hashed as the root. *)
Definition single (D : Bytes) : bool := bool_decide (zlength D ≤ TREE_BLOCK_SIZE_BYTES).

Definition digest (is_root : bool) (k : Z) (x : Bytes) : Bytes :=
  if is_root then default [] (iv_hash_all_at_once IV_DEFAULT x) else block_cv IV_DEFAULT k x.

(** The hash of a block is that of an inner node of the content, or that of another
    block in its place. *)
Definition forged_block (D root : Bytes) (k : Z) (x : Bytes) : Prop :=
  ∃ is_root, inner IV_DEFAULT (tree_over D root) (digest is_root k x) ∨
    ∃ y, pieces_of block_size D !! Z.to_nat k = Some y ∧ (is_root, x) ≠ (single D, y) ∧
      digest is_root k x = digest (single D) k y.
End session.

Lemma map_err_inv {S A E F} (g : E → F) (m1 : M S (Result A E)) s a s' :
  map_err g m1 s = Some (Ok a, s') → m1 s = Some (Ok a, s').
Proof. unfold map_err. unfold_M. destruct (m1 s) as [[[]]|]; intros; by simplify_eq. Qed.

Lemma try_bind_from {S A B E} (m1 m2 : M S (Result A E)) (k1 : A → M S (Result B E)) s1 s2 :
  m1 s1 = m2 s2 → try_bind m1 k1 s1 = try_bind m2 k1 s2.
Proof. intros Heq. unfold try_bind. unfold_M. by rewrite Heq. Qed.

Section receiving.
Context {P : Platform} {PL : PlatformLaws P}.
#[local] Abbreviation iv := IV_DEFAULT.
#[local] Abbreviation m := (iv_merge iv).
#[local] Abbreviation BB := TREE_BLOCK_SIZE_BYTES.
#[local] Abbreviation fresh := (ContentHash.fresh iv).
#[local] Arguments iv_merge : simpl never.
#[local] Opaque TREE_BLOCK_SIZE_BYTES block_size.

Context (b : Bucket) (t hn : Bytes) (ns0 : list Bytes) (f0 : gmap Path Bytes) (D root : Bytes).
#[local] Abbreviation hashes := (content_hashes D root).
#[local] Abbreviation t0 := (tree_over D root).
Context (Hnil : D ≠ []) (HD : zlength D ≤ 262144 * (2 ^ 32 - 1)) (Hfresh : names_fresh hn ns0 hashes).
Context (Hnames : (length (pieces_of block_size D) ≤ length ns0)%nat).
Context (Hroot : iv_hash_all_at_once iv D = Some root).

Lemma tree_over_facts :
  shaped t0 ∧ leaves t0 = hashes ∧ root_of m true t0 = root ∧ post_order m true t0 = content_array D root ∧
  count t0 < 2 ^ 40.
Proof.
  pose proof BB_val as HBB. pose proof (content_hashes_count D root) as Hc. unfold tree_over, count.
  assert (zlength hashes < 2 ^ 40) as Hlt.
  { rewrite Hc. apply Z.div_lt_upper_bound; lia. }
  unfold content_hashes, content_array in *. case_bool_decide as Hs.
  - destruct D; [done|]. rewrite tree_of_one. done.
  - destruct (tree_array_facts iv D Hnil ltac:(lia)) as (Hsh & Hl & _). rewrite Hl.
    split_and!; [done|done| |done|done].
    destruct (h_updates_run iv [D] [] _ (content_inv_start iv)) as (h & _ & Hinv); [simpl; rewrite app_nil_r; lia|].
    destruct (h_final_run iv _ h Hinv) as (o & _ & Hh & Hlarge). simpl in *. rewrite app_nil_r in *.
    rewrite <-Hlarge by lia. rewrite Hroot in Hh. by simplify_eq.
Qed.

(** The leaves of the tree are the hashes of the blocks. *)
Lemma leaf_digest i h :
  hashes !! i = Some h → ∃ y, pieces_of block_size D !! i = Some y ∧ h = digest (single D) (Z.of_nat i) y.
Proof.
  pose proof BB_val as HBB. unfold content_hashes, single, digest. case_bool_decide as Hs.
  - intros Hh. assert (i = 0%nat ∧ h = root) as [-> ->].
    { clear -Hh. destruct D; [done|]. destruct i; [|done]. by injection Hh. }
    exists D. rewrite Hroot. split; [|done]. rewrite pieces_short; [done|apply block_size_pos|done|].
    pose proof block_size_Z. unfold zlength in Hs. lia.
  - unfold block_cvs. rewrite list_lookup_imap. intros Hh.
    destruct (pieces_of block_size D !! i) as [y|]; [|done]. simplify_eq/=. by exists y.
Qed.

(** The block after [k] blocks. *)
Lemma next_piece k d0 x :
  d0 `prefix_of` D → zlength d0 = BB * k → 0 ≤ k → pieces_of block_size D !! Z.to_nat k = Some x →
  ∃ tl, D = d0 ++ x ++ tl ∧ (zlength x = BB ∨ tl = []).
Proof.
  pose proof block_size_Z as Hbs. pose proof BB_val. intros [y HDy] Hd0 Hk Hx.
  destruct (pieces_app block_size block_size_pos (Z.to_nat k) d0 y) as [Hp Hl]; [unfold zlength in Hd0; nia|].
  rewrite HDy, Hp, lookup_app_r, Hl, Nat.sub_diag in Hx by lia.
  destruct y as [|z y']; [done|]. set (y := z :: y') in *.
  rewrite (pieces_cons block_size block_size_pos y ltac:(done)) in Hx. injection Hx as <-.
  exists (drop block_size y). rewrite HDy, take_drop. split; [done|]. unfold zlength. rewrite length_take, <-Hbs.
  destruct (decide (block_size ≤ length y)%nat); [left; lia|right; apply drop_ge; lia].
Qed.

Lemma verified_prefix k d0 :
  d0 `prefix_of` D → zlength d0 = BB * k → 0 ≤ k → (0 < k → BB < zlength D) → block_cvs iv 0 d0 `prefix_of` hashes.
Proof.
  pose proof BB_val. intros [y HDy] Hd0 Hk Hlt. destruct (decide (k = 0)) as [->|].
  { destruct d0; [apply prefix_nil|unfold zlength in Hd0; simpl in Hd0; lia]. }
  unfold content_hashes. rewrite bool_decide_false by lia. rewrite HDy.
  destruct (block_cvs_app iv k 0 d0 y Hk Hd0) as [-> _]. by eexists.
Qed.

(** ** The verification of a block *)

Lemma block_digest_run k x :
  0 ≤ k < 2 ^ 44 → x ≠ [] → zlength x ≤ BB →
  ∃ h, bh_update x (fresh k) = Some (tt, h) ∧
    ∀ is_root : bool, (is_root = true → k = 0) → bh_finalize is_root h = Some (digest is_root k x).
Proof.
  pose proof BB_val as HBB. intros Hk Hx Hl. destruct (block_base k Hk) as [Hb Hb256].
  destruct (bh_update_run iv (256 * k) Hb Hb256 [] (fresh k) x) as (h & Hrun & Hinv);
    [apply block_inv_start|change (zlength (@nil Z)) with 0; lia|]. exists h. split; [done|]. simpl in Hinv.
  destruct (block_out iv k x h Hinv Hx) as (o & Hf & Ho & _). intros [] Hr; unfold bh_finalize, digest; rewrite Hf.
  - rewrite Hr in Hinv by done. destruct (small_hash iv x h Hinv) as (o' & Hf' & ->); [lia|]. simpl. congruence.
  - simpl. by rewrite Ho.
Qed.

(** The collector at block [k], with the bytes [e]. *)
Definition collector_at (k : Z) (v : IncrementalVerifier) (e : Bytes) : UntrustedFileWriterCollector :=
  mkUntrusted (fresh k) v root e.

Lemma verify_block_inv k v e x (is_root : bool) o c' :
  0 ≤ k < 2 ^ 44 → x ≠ [] → zlength x ≤ BB → (is_root = true → k = 0) → collecting iv t0 k v →
  uc_verify_block x is_root (collector_at k v e) = Some (Ok o, c') →
  o = Some (digest is_root k x) ∧ uc_root_hash c' = root ∧ uc_buffer_bytes c' = e ∧
  ((pieces_of block_size D !! Z.to_nat k = Some x ∧ is_root = single D ∧
    collecting iv t0 (k + 1) (uc_increment_verifier c')) ∨ forged_block D root k x).
Proof.
  intros Hk Hx Hl Hr Hv Hrun. destruct (block_digest_run k x Hk Hx Hl) as (h & Hup & Hfin).
  destruct tree_over_facts as (Hsh & Hleaves & _ & _ & Hc).
  unfold uc_verify_block, uc_hasher, uc_verifier, map_err, try_bind in Hrun. unfold_M. cbn in Hrun.
  rewrite Hup in Hrun. cbn in Hrun. rewrite (Hfin is_root Hr) in Hrun. cbn in Hrun.
  destruct (verify_hash (digest is_root k x) v) as [[[[]|er] v']|] eqn:Hver; [|done..]. simplify_eq/=.
  split_and!; [done..|].
  destruct (collecting_block iv t0 Hsh Hc k v _ v' Hv Hver) as [[Hleaf Hv']|Hin]; [|right; exists is_root; by left].
  rewrite Hleaves in Hleaf. destruct (leaf_digest _ _ Hleaf) as (y & Hy & Hd). rewrite Z2Nat.id in Hd by lia.
  destruct (decide ((is_root, x) = (single D, y))) as [[= -> ->]|Hne]; [by left|].
  right. exists is_root. right. by exists y.
Qed.

(** ** The writes *)

#[local] Abbreviation at_writer := (writer_with b t hn).
#[local] Abbreviation disk_at := (disk_ok b t hn f0).

(** The writer and the disk after the bytes [d], all blocks being those of the
    content. *)
Inductive receiving : Bytes → InnerWriterState UntrustedFileWriterCollector * Disk → Prop :=
| receiving_start v f :
    collecting iv t0 0 v → disk_at f start_header [] [] None ns0 →
    receiving [] (at_writer [] None 0 (collector_at 0 v []), mkDisk f ns0 [])
| receiving_block k d0 e v c ns f :
    0 ≤ k → zlength d0 = BB * k → zlength e ≤ BB → d0 `prefix_of` D → (k = 0 → e ≠ []) → (0 < k → BB < zlength D) →
    collecting iv t0 k v → names_left ns0 c ns →
    disk_at f start_header (block_cvs iv 0 d0) (pieces_of block_size d0) (Some (c, e)) ns →
    receiving (d0 ++ e) (at_writer (block_cvs iv 0 d0) (Some (mkBlockFile (zlength e) (tmp b t c))) k
                           (collector_at k v e), mkDisk f ns []).

(** A full block that the peer has forged. *)
Definition full_forged (d : Bytes) : Prop :=
  ∃ i x, pieces_of block_size d !! i = Some x ∧ zlength x = BB ∧ forged_block D root (Z.of_nat i) x.

Lemma forged_in_place k d0 x y :
  zlength d0 = BB * k → 0 ≤ k → zlength x = BB → forged_block D root k x → full_forged ((d0 ++ x) ++ y).
Proof.
  pose proof block_size_Z as Hbs. pose proof BB_val. intros Hd0 Hk Hx Hf. exists (Z.to_nat k), x.
  rewrite Z2Nat.id by lia. split; [|exact (conj Hx Hf)]. rewrite <-app_assoc.
  destruct (pieces_app block_size block_size_pos (Z.to_nat k) d0 (x ++ y)) as [-> Hl]; [unfold zlength in Hd0; nia|].
  rewrite lookup_app_r, Hl, Nat.sub_diag by lia. unfold zlength in Hx.
  rewrite (pieces_cons block_size block_size_pos) by (destruct x; [simpl in Hx; lia|done]).
  simpl. by rewrite take_app_length' by lia.
Qed.

Lemma collect_run x hs cur k v e d :
  on_collector (collect x) (at_writer hs cur k (collector_at k v e), d) =
    Some (Ok tt, (at_writer hs cur k (collector_at k v (e ++ x)), d)).
Proof. done. Qed.

Lemma piece_first_run x last v f :
  collecting iv t0 0 v → disk_at f start_header [] [] None ns0 → x ≠ [] → zlength x < BB →
  ∃ s', write_piece x last (at_writer [] None 0 (collector_at 0 v []), mkDisk f ns0 []) = Some (Ok tt, s') ∧
    receiving x s'.
Proof.
  pose proof BB_val as HBB. intros Hv Hok Hne Hx. pose proof (zlength_nonneg x).
  assert (∃ c ns, ns0 = c :: ns) as (c & ns & Hns).
  { destruct ns0 as [|c ns]; [|by eauto]. exfalso. rewrite (pieces_cons block_size block_size_pos D Hnil) in Hnames.
    simpl in Hnames. lia. }
  assert (names_left ns0 c ns) as Hleft by (by exists []). rewrite Hns in Hok |- *.
  pose proof (disk_create b t hn ns0 f0 D root Hfresh Hnames _ _ _ _ _ _ _ Hok Hleft (prefix_nil _)) as Hok1.
  pose proof (disk_append b t hn ns0 f0 D root Hfresh Hnames _ _ _ _ _ _ x _ Hok1 Hleft (prefix_nil _)) as Hok2.
  eexists. split.
  - unfold write_piece. rewrite (try_bind_ok _ _ _ _ _ (collect_run x _ _ _ _ _ _)).
    erewrite try_bind_ok.
    2: { unfold process_block. rewrite fst_get. cbn [writer_with w_current_block_file].
         erewrite try_bind_ok by (apply map_err_ok, create_new_block_file_run). reflexivity. }
    apply map_err_ok. by erewrite write_block_file_run.
  - rewrite (Z.add_0_l (zlength x)), wrap_small by (unfold in_width; lia).
    refine (receiving_block 0 [] x v c ns _ _ _ _ _ _ _ Hv Hleft Hok2); try lia; [by rewrite Z.mul_0_r|apply prefix_nil|done].
Qed.

(** A piece of a block that has begun. *)
Section piece.
Context (x : Bytes) (last : bool) (k : Z) (d0 e : Bytes) (v : IncrementalVerifier) (c : Bytes) (ns : list Bytes)
  (f : gmap Path Bytes).
Context (Hk : 0 ≤ k) (Hd0 : zlength d0 = BB * k) (He : zlength e ≤ BB) (Hpre : d0 `prefix_of` D).
Context (Hk0 : k = 0 → e ≠ []) (Hk1 : 0 < k → BB < zlength D) (Hv : collecting iv t0 k v) (Hleft : names_left ns0 c ns).
Context (Hok : disk_at f start_header (block_cvs iv 0 d0) (pieces_of block_size d0) (Some (c, e)) ns).
Context (Hne : x ≠ []) (Hx : zlength x < BB).

#[local] Abbreviation hs := (block_cvs iv 0 d0).
#[local] Abbreviation n := (Z.to_nat (BB - zlength e)).
#[local] Abbreviation s0 :=
  (at_writer hs (Some (mkBlockFile (zlength e) (tmp b t c))) k (collector_at k v e), mkDisk f ns []).

Lemma piece_bounds : 0 ≤ k < 2 ^ 40 ∧ 0 ≤ zlength e ∧ 0 ≤ zlength x.
Proof.
  pose proof BB_val. pose proof (zlength_nonneg e). pose proof (zlength_nonneg x). destruct Hpre as [y Hy].
  apply (f_equal zlength) in Hy. rewrite zlength_app in Hy. pose proof (zlength_nonneg y). lia.
Qed.

Lemma piece_short_run :
  zlength e + zlength x < BB →
  ∃ s', write_piece x last s0 = Some (Ok tt, s') ∧ receiving ((d0 ++ e) ++ x) s'.
Proof.
  pose proof BB_val as HBB. intros Hshort. destruct piece_bounds as (Hkb & Heb & Hxb).
  pose proof (verified_prefix k d0 Hpre Hd0 Hk Hk1) as Hhs.
  pose proof (disk_append b t hn ns0 f0 D root Hfresh Hnames _ _ _ _ _ _ x _ Hok Hleft Hhs) as Hok'.
  eexists. split.
  - unfold write_piece. rewrite (try_bind_ok _ _ _ _ _ (collect_run x _ _ _ _ _ _)).
    erewrite try_bind_ok.
    2: { unfold process_block. rewrite fst_get. cbn [writer_with w_current_block_file w_collector bf_size].
         unfold has_reach_block, untrusted_file_writer_collector, uc_has_reach_block. rewrite max_block.
         rewrite wrap_small by (unfold in_width; lia). by rewrite bool_decide_false by lia. }
    apply map_err_ok. by erewrite write_block_file_run.
  - rewrite wrap_small by (unfold in_width; lia). rewrite <-zlength_app, <-app_assoc.
    refine (receiving_block k d0 (e ++ x) v c ns _ Hk Hd0 _ Hpre _ Hk1 Hv Hleft Hok'); [rewrite zlength_app; lia|].
    intros _. by destruct e.
Qed.

(** The rest of a piece that fills the block, after its hash. *)
Definition after_block (bytes : Bytes) (block_hash : option Bytes)
    : M (InnerWriterState UntrustedFileWriterCollector * Disk) (Result Bytes WriteError) :=
  match block_hash with
  | Some block_hash =>
      map_err WriteIOError (new_block block_hash);;?
      w ← on_fst get;
      map_err WriteIOError (on_both (on_new_block (w_count_block w) (w_header_file w)));;?
      map_err WriteIOError create_new_block_file;;?
      mret (Ok bytes)
  | None => mret (Ok bytes)
  end.

Lemma piece_full_run :
  BB ≤ zlength e + zlength x →
  write_piece x last s0 =
    (bytes ←? (block_hash ←? on_collector (on_reach_full_block k last); after_block (drop n x) block_hash);
     map_err WriteIOError (write_block_file bytes))
      (at_writer hs (Some (mkBlockFile BB (tmp b t c))) k (collector_at k v (e ++ x)),
       mkDisk (<[tmp b t c:=default [] (f !! tmp b t c) ++ take n x]> f) ns []).
Proof.
  pose proof BB_val as HBB. intros Hfull. destruct piece_bounds as (Hkb & Heb & Hxb).
  unfold write_piece. rewrite (try_bind_ok _ _ _ _ _ (collect_run x _ _ _ _ _ _)). apply try_bind_from.
  unfold process_block. rewrite fst_get. cbn [writer_with w_current_block_file w_collector bf_size w_count_block].
  unfold has_reach_block, untrusted_file_writer_collector at 1, uc_has_reach_block. rewrite !max_block.
  rewrite !wrap_small by (unfold in_width; lia). rewrite bool_decide_true, bool_decide_false by lia.
  erewrite try_bind_ok by (apply map_err_ok; by apply write_block_file_run).
  assert (zlength (take n x) = BB - zlength e) as Hn by (unfold zlength in *; rewrite length_take; lia).
  rewrite Hn, wrap_small by (unfold in_width; lia). replace (zlength e + (BB - zlength e)) with BB by lia. done.
Qed.

(** The last bytes, up to the end of the block. *)
Lemma reach_last_run cur d :
  zlength e + zlength x = BB → last = true →
  on_collector (on_reach_full_block k last) (at_writer hs cur k (collector_at k v (e ++ x)), d) =
    Some (Ok None, (at_writer hs cur k (collector_at k v (e ++ x)), d)).
Proof.
  intros Hfull ->. unfold on_collector. cbn [writer_with w_collector fst].
  unfold on_reach_full_block, untrusted_file_writer_collector, uc_on_reach_full_block. unfold_M.
  cbn [collector_at uc_buffer_bytes]. by rewrite zlength_app, max_block, Hfull, bool_decide_true by done.
Qed.

Lemma piece_last_run :
  zlength e + zlength x = BB → last = true →
  ∃ s', write_piece x last s0 = Some (Ok tt, s') ∧ receiving ((d0 ++ e) ++ x) s'.
Proof.
  pose proof BB_val as HBB. intros Hfull Hlast. destruct piece_bounds as (Hkb & Heb & Hxb).
  pose proof (verified_prefix k d0 Hpre Hd0 Hk Hk1) as Hhs.
  rewrite piece_full_run by lia. assert (n = length x) as -> by (unfold zlength in *; lia). rewrite firstn_all, skipn_all.
  pose proof (disk_append b t hn ns0 f0 D root Hfresh Hnames _ _ _ _ _ _ x _ Hok Hleft Hhs) as Hok1.
  pose proof (disk_append b t hn ns0 f0 D root Hfresh Hnames _ _ _ _ _ _ [] _ Hok1 Hleft Hhs) as Hok2.
  rewrite (app_nil_r (e ++ x)) in Hok2. eexists. split.
  - etrans; [apply try_bind_ok; etrans; [apply try_bind_ok; by apply reach_last_run|reflexivity]|].
    apply map_err_ok. by erewrite write_block_file_run.
  - change (zlength (@nil Z)) with 0. rewrite Z.add_0_r, wrap_small by (unfold in_width; lia).
    rewrite <-Hfull, <-zlength_app, <-app_assoc.
    refine (receiving_block k d0 (e ++ x) v c ns _ Hk Hd0 _ Hpre _ Hk1 Hv Hleft Hok2); [rewrite zlength_app; lia|].
    intros _. by destruct e.
Qed.

(** A block is done, and the next one begins. *)
Lemma after_block_run h hh v' y f1 B :
  f1 !! tmp b t c = Some B → 0 ≤ k < 2 ^ 40 →
  after_block y (Some h) (at_writer hs (Some (mkBlockFile BB (tmp b t c))) k (mkUntrusted hh v' root y), mkDisk f1 ns []) =
    match ns with
    | [] => None
    | c2 :: ns2 =>
        let f2 := <[tmp b t h:=B]> (delete (tmp b t c) f1) in
        Some (Ok y, (at_writer (hs ++ [h]) (Some (mkBlockFile 0 (tmp b t c2))) (k + 1) (collector_at (k + 1) v' y),
                     mkDisk (<[tmp b t c2:=default [] (f2 !! tmp b t c2)]> f2) ns2 []))
    end.
Proof.
  intros HB Hkb. unfold after_block.
  etrans; [apply try_bind_ok, map_err_ok; by eapply new_block_run|].
  rewrite with_block_with, wrap_small, fst_get by (unfold in_width; lia). cbn [writer_with w_count_block w_header_file].
  etrans; [apply try_bind_ok, map_err_ok; unfold on_both; cbn [writer_with w_collector fst snd];
    unfold on_new_block, untrusted_file_writer_collector, uc_on_new_block; rewrite set_block_fresh by lia; reflexivity|].
  destruct ns as [|c2 ns2]; [reflexivity|].
  etrans; [apply try_bind_ok, map_err_ok, create_new_block_file_run|]. reflexivity.
Qed.

Lemma reach_verify_run cur d :
  BB ≤ zlength e + zlength x → ¬ (zlength e + zlength x = BB ∧ last = true) →
  on_collector (on_reach_full_block k last) (at_writer hs cur k (collector_at k v (e ++ x)), d) =
    on_collector (uc_verify_block (e ++ take n x) false) (at_writer hs cur k (collector_at k v (drop n x)), d).
Proof.
  intros Hfull Hnot. pose proof BB_val. unfold on_collector. cbn [writer_with w_collector fst].
  unfold on_reach_full_block, untrusted_file_writer_collector, uc_on_reach_full_block. unfold_M.
  cbn [collector_at uc_buffer_bytes]. rewrite zlength_app, max_block.
  assert (bool_decide (zlength e + zlength x = BB) && last = false) as ->.
  { case_bool_decide; [|done]. destruct last; [|done]. by destruct Hnot. }
  rewrite bool_decide_true by done. unfold uc_with_buffer. cbn [uc_current_hasher uc_increment_verifier uc_root_hash].
  unfold zlength in *. rewrite take_app, drop_app.
  rewrite (take_ge e), (drop_ge e) by lia.
  replace (Z.to_nat BB - length e)%nat with (Z.to_nat (BB - Z.of_nat (length e))) by lia. done.
Qed.

(** The block is that of the content. *)
Lemma next_block_inv hh v' bytes s2 s' :
  let B := e ++ take n x in
  let y := drop n x in
  zlength B = BB → B ≠ [] → pieces_of block_size D !! Z.to_nat k = Some B → BB < zlength D → collecting iv t0 (k + 1) v' →
  after_block y (Some (block_cv iv k B)) (at_writer hs (Some (mkBlockFile BB (tmp b t c))) k (mkUntrusted hh v' root y),
    mkDisk (<[tmp b t c:=default [] (f !! tmp b t c) ++ take n x]> f) ns []) = Some (Ok bytes, s2) →
  map_err WriteIOError (write_block_file bytes) s2 = Some (Ok tt, s') →
  receiving ((d0 ++ B) ++ y) s'.
Proof.
  pose proof BB_val as HBB. intros B y HB HBne Hpiece HBD Hv' Hafter Hw. destruct piece_bounds as (Hkb & Heb & Hxb).
  pose proof (verified_prefix k d0 Hpre Hd0 Hk Hk1) as Hhs.
  destruct (next_piece k d0 B Hpre Hd0 Hk Hpiece) as (tl & HDtl & _).
  destruct (blocks_snoc ns0 D Hnames k d0 B Hd0 Hk HBne ltac:(lia)) as [Hcvs Hps].
  assert (d0 ++ B `prefix_of` D) as Hpre' by (exists tl; by rewrite HDtl, <-app_assoc).
  assert (zlength (d0 ++ B) = BB * (k + 1)) as Hd1 by (rewrite zlength_app; lia).
  pose proof (verified_prefix (k + 1) (d0 ++ B) Hpre' Hd1 ltac:(lia) ltac:(done)) as Hhs'.
  pose proof (disk_append b t hn ns0 f0 D root Hfresh Hnames _ _ _ _ _ _ (take n x) _ Hok Hleft Hhs) as Hok1. fold B in Hok1.
  rewrite (after_block_run _ _ _ _ _ B) in Hafter by (done || by apply (do_current _ _ _ _ _ _ _ _ _ _ Hok1)).
  destruct ns as [|c2 ns2] eqn:Hns; [done|]. injection Hafter as <- <-.
  rewrite Hcvs in Hhs'. pose proof (names_left_next hn ns0 D root Hfresh Hnames _ _ _ Hleft) as Hleft2.
  pose proof (disk_commit b t hn ns0 f0 D root HD Hfresh Hnames _ _ _ _ _ _ (block_cv iv k B) _ Hok1 Hleft Hhs') as Hok2.
  pose proof (disk_create b t hn ns0 f0 D root Hfresh Hnames _ _ _ _ _ _ _ Hok2 Hleft2 Hhs') as Hok3.
  pose proof (disk_append b t hn ns0 f0 D root Hfresh Hnames _ _ _ _ _ _ y _ Hok3 Hleft2 Hhs') as Hok4.
  erewrite map_err_ok in Hw by (by apply write_block_file_run). injection Hw as <-.
  pose proof (zlength_nonneg y). assert (zlength y < BB) as Hy by (unfold y, zlength in *; rewrite length_drop; lia).
  rewrite Z.add_0_l, wrap_small by (unfold in_width; lia). rewrite <-Hcvs, <-Hps in *.
  refine (receiving_block (k + 1) (d0 ++ B) y v' c2 ns2 _ _ Hd1 _ Hpre' _ _ Hv' Hleft2 Hok4); (lia || done).
Qed.

(** A piece that goes on to the next block. *)
Lemma piece_cross_inv s' :
  BB ≤ zlength e + zlength x → ¬ (zlength e + zlength x = BB ∧ last = true) →
  write_piece x last s0 = Some (Ok tt, s') →
  receiving ((d0 ++ e) ++ x) s' ∨ ∀ y, full_forged (((d0 ++ e) ++ x) ++ y).
Proof.
  pose proof BB_val as HBB. intros Hfull Hnot Hrun. destruct piece_bounds as (Hkb & Heb & Hxb).
  assert (zlength (e ++ take n x) = BB) as HB by (rewrite zlength_app; unfold zlength in *; rewrite length_take; lia).
  assert (e ++ take n x ≠ []) as HBne by (intros HB0; rewrite HB0 in HB; change (zlength (@nil Z)) with 0 in HB; lia).
  assert ((d0 ++ e) ++ x = (d0 ++ (e ++ take n x)) ++ drop n x) as Hcut
    by (rewrite <-(take_drop n x) at 1; by rewrite <-!app_assoc).
  rewrite piece_full_run in Hrun by done. apply try_bind_inv in Hrun as (bytes & s2 & Hrun & Hw).
  apply try_bind_inv in Hrun as (o & s1 & Hver & Hafter). rewrite reach_verify_run in Hver by done.
  set (B := e ++ take n x) in *. set (y := drop n x) in *.
  unfold on_collector in Hver. cbn [writer_with w_collector fst snd] in Hver.
  destruct (uc_verify_block B false (collector_at k v y)) as [[r c1]|] eqn:Hvb; [|done]. injection Hver as -> <-.
  destruct (verify_block_inv k v y B false o c1 ltac:(lia) HBne ltac:(lia) ltac:(done) Hv Hvb)
    as (-> & Hr & Hbuf & [(Hpiece & Hsingle & Hv')|Hforged]).
  - left. destruct c1 as [hh v1 r1 buf1]. cbn [uc_root_hash uc_buffer_bytes uc_increment_verifier] in Hr, Hbuf, Hv'.
    subst r1 buf1. rewrite Hcut. eapply next_block_inv; try done.
    unfold single in Hsingle. case_bool_decide; [done|lia].
  - right. intros z. rewrite Hcut, <-app_assoc. by apply (forged_in_place k).
Qed.
End piece.

Lemma write_piece_inv x last d s s' :
  receiving d s → x ≠ [] → zlength x < BB → write_piece x last s = Some (Ok tt, s') →
  receiving (d ++ x) s' ∨ ∀ y, full_forged ((d ++ x) ++ y).
Proof.
  intros [v f Hv Hok|k d0 e v c ns f Hk Hd0 He Hpre Hk0 Hk1 Hv Hleft Hok] Hne Hx Hrun.
  - left. destruct (piece_first_run x last v f Hv Hok Hne Hx) as (s1 & Hrun1 & Hs1). rewrite Hrun in Hrun1.
    by injection Hrun1 as ->.
  - destruct (decide (zlength e + zlength x < BB)) as [Hlt|Hge].
    { left. destruct (piece_short_run x last k d0 e v c ns f) as (s1 & Hrun1 & Hs1); [done..|].
      rewrite Hrun in Hrun1. by injection Hrun1 as ->. }
    destruct (decide (zlength e + zlength x = BB ∧ last = true)) as [[Heq Hlast]|Hnot].
    + left. destruct (piece_last_run x last k d0 e v c ns f) as (s1 & Hrun1 & Hs1); [done..|].
      rewrite Hrun in Hrun1. by injection Hrun1 as ->.
    + apply (piece_cross_inv x last k d0 e v c ns f); try done. lia.
Qed.

Lemma write_loop_inv fuel x last d s s' :
  receiving d s → (length x ≤ fuel)%nat → write_loop fuel x last s = Some (Ok tt, s') →
  receiving (d ++ x) s' ∨ ∀ y, full_forged ((d ++ x) ++ y).
Proof.
  pose proof BB_val. revert d s x. induction fuel as [|fuel IH]; intros d s x Hs Hf Hrun.
  { destruct x; [|simpl in Hf; lia]. rewrite app_nil_r. injection Hrun as <-. by left. }
  destruct (decide (x = [])) as [->|Hne]; [rewrite app_nil_r; injection Hrun as <-; by left|].
  rewrite write_loop_cons in Hrun by done. set (want := Nat.min BLOCK_SIZE_IN_CHUNKS (length x)) in *.
  assert (0 < length x)%nat by (destruct x; [done|simpl; lia]).
  assert (0 < want ≤ 256)%nat as Hw by (unfold want, BLOCK_SIZE_IN_CHUNKS; lia).
  apply try_bind_inv in Hrun as ([] & s1 & Hp & Hrest). pose proof (take_drop want x) as Htd.
  destruct (write_piece_inv (take want x) last d s s1 Hs) as [Hs1|Hforged]; [| |done| |].
  - intros Hn. apply (f_equal length) in Hn. rewrite length_take in Hn. simpl in Hn. lia.
  - unfold zlength. rewrite length_take. lia.
  - destruct (IH _ _ (drop want x) Hs1 ltac:(rewrite length_drop; lia) Hrest) as [?|?];
      rewrite <-app_assoc, Htd in *; auto.
  - right. intros y. specialize (Hforged (drop want x ++ y)).
    by rewrite app_assoc, <-(app_assoc d), Htd in Hforged.
Qed.

(** ** The session *)

Definition proof_forged (ops : list Received) : Prop :=
  ∃ proof items, FeedProof proof ∈ ops ∧ proof_items proof = Some items ∧ forges iv t0 (proof_tree items).

Lemma feed_inv proof d s s' :
  receiving d s → untrusted_feed_proof proof s = Some (Ok tt, s') →
  receiving d s' ∨ ∃ items, proof_items proof = Some items ∧ forges iv t0 (proof_tree items).
Proof.
  destruct tree_over_facts as (Hsh & _ & _ & _ & Hc).
  intros [v f Hv Hok|k d0 e v c ns f Hk Hd0 He Hpre Hk0 Hk1 Hv Hleft Hok] Hrun;
    unfold untrusted_feed_proof, on_collector, uc_feed_proof, uc_verifier in Hrun;
    cbn [writer_with w_collector fst collector_at uc_increment_verifier] in Hrun;
    destruct (feed_proof proof v) as [[[[]|er] v']|] eqn:Hfeed; try done; injection Hrun as <-;
    destruct (collecting_proof iv t0 Hsh Hc _ v proof v' Hv Hfeed) as [Hv'|?]; try (by right); left.
  - by apply receiving_start.
  - by apply receiving_block.
Qed.

Lemma receive_inv ops d s s' :
  receiving d s → receive ops s = Some (Ok tt, s') →
  receiving (d ++ written ops) s' ∨ full_forged (d ++ written ops) ∨ proof_forged ops.
Proof.
  revert d s. induction ops as [|[proof|x last] ops IH]; intros d s Hs Hrun; cbn [receive written] in *.
  - injection Hrun as <-. rewrite app_nil_r. by left.
  - apply try_bind_inv in Hrun as ([] & s1 & Hfeed & Hrun). apply map_err_inv in Hfeed.
    destruct (feed_inv proof d s s1 Hs Hfeed) as [Hs1|(items & Hit & Hf)].
    + destruct (IH d s1 Hs1 Hrun) as [?|[?|(p & items & Hp & Hit)]]; [auto..|]. right. right. exists p, items.
      split; [by right|done].
    + right. right. exists proof, items. split; [left|done].
  - apply try_bind_inv in Hrun as ([] & s1 & Hw & Hrun). apply map_err_inv in Hw.
    destruct (write_loop_inv _ x last d s s1 Hs ltac:(done) Hw) as [Hs1|Hf].
    + rewrite app_assoc. destruct (IH _ s1 Hs1 Hrun) as [?|[?|(p & items & Hp & Hit)]]; [auto..|].
      right. right. exists p, items. split; [by right|done].
    + right. left. rewrite app_assoc. apply Hf.
Qed.

(** ** The commit *)

Lemma buf_of_concat (L : list Bytes) : ∃ num, buf_of L = mkBufCollector num (concat L).
Proof.
  induction L as [|h L [num IH]] using rev_ind; [by exists 0|]. unfold buf_of in *. rewrite foldl_snoc, IH.
  unfold push, buf_collector, bc_push. rewrite concat_app. simpl. rewrite app_nil_r. by eexists.
Qed.

(** After the last block. *)
Definition commit_rest : M (InnerWriterState UntrustedFileWriterCollector * Disk) (Result Bytes CommitError) :=
  final ←? map_err CommitWriteError (on_collector finalize_tree);
  let '(final_collector, root_hash) := final in
  w ← on_fst get;
  (if is_some (w_current_block_file w) && bool_decide (w_count_block w = 0)
   then map_err CommitIOError (new_block root_hash) else mret (Ok tt));;?
  map_err CommitIOError (on_snd (write_final final_collector (w_header_file w)));;?
  map_err CommitIOError (writer_flush root_hash);;?
  mret (Ok root_hash).

Lemma finalize_inv hs cur k hh v buf d final s' :
  on_collector finalize_tree (at_writer hs cur k (mkUntrusted hh v root buf), d) = Some (Ok final, s') →
  ∃ tree c', finalize v = Some tree ∧ final = (buf_of tree, root) ∧ s' = (at_writer hs cur k c', d).
Proof.
  unfold on_collector. cbn [writer_with w_collector fst].
  unfold finalize_tree, untrusted_file_writer_collector, uc_finalize_tree. unfold_M. cbn [uc_increment_verifier].
  destruct (finalize v) as [tree|] eqn:Hf; [|done]. cbn. intros [= <- <-]. by do 2 eexists.
Qed.

Lemma commit_rest_inv hs cur k hh v buf i f ns h s' :
  collecting iv t0 i v → k ≠ 0 → (∀ x, x ∈ ns → x ∈ ns0) →
  (i = count t0 → hs = hashes ∧ disk_at f start_header hashes (pieces_of block_size D) None ns) →
  commit_rest (at_writer hs (Some cur) k (mkUntrusted hh v root buf), mkDisk f ns []) = Some (Ok h, s') →
  h = root ∧ i = count t0 ∧ stored b t f0 D root (files s'.2).
Proof.
  intros Hv Hk Hns Hend Hrun. destruct tree_over_facts as (Hsh & _ & _ & Harr & Hc).
  unfold commit_rest in Hrun. apply try_bind_inv in Hrun as (final & s1 & Hfin & Hrun). apply map_err_inv in Hfin.
  apply finalize_inv in Hfin as (tree & c' & Hf & -> & ->).
  destruct (collecting_final iv t0 Hsh Hc i v tree Hv Hf) as [Hi Htree]. destruct (Hend Hi) as [-> Hok].
  rewrite Harr in Htree. subst tree. destruct (buf_of_concat (content_array D root)) as [num Hbuf].
  rewrite Hbuf in Hrun. cbn iota in Hrun. rewrite fst_get in Hrun.
  cbn [with_collector writer_with w_current_block_file w_count_block w_header_file is_some andb] in Hrun.
  rewrite bool_decide_false in Hrun by done. rewrite (try_bind_ok _ _ _ tt _ eq_refl) in Hrun.
  destruct (finish_run b t hn ns0 f0 D root HD Hfresh Hnames f start_header (concat (content_array D root)) num (Some cur) k
    c' ns Hok Hns eq_refl) as (f' & Hfinish & Hst).
  rewrite Hfinish in Hrun. injection Hrun as <- <-. done.
Qed.

Definition block_forged (d : Bytes) : Prop :=
  ∃ i x, pieces_of block_size d !! i = Some x ∧ forged_block D root (Z.of_nat i) x.

(** All blocks are there. *)
Lemma blocks_all k d0 :
  d0 `prefix_of` D → zlength d0 = BB * k → k = count t0 → d0 = D.
Proof.
  pose proof BB_val. intros [y HDy] Hd0 Hk. destruct tree_over_facts as (_ & Hl & _).
  unfold count in Hk. rewrite Hl, content_hashes_count in Hk.
  pose proof (Z.div_mod (zlength D + 262143) 262144 ltac:(lia)).
  pose proof (Z.mod_pos_bound (zlength D + 262143) 262144 ltac:(lia)).
  pose proof (f_equal zlength HDy) as Hlen. rewrite zlength_app in Hlen. pose proof (zlength_nonneg y).
  destruct y; [by rewrite app_nil_r in HDy|]. unfold zlength in *. simpl in Hlen. lia.
Qed.

Lemma commit_full_inv k d0 v c ns f h s' :
  0 < k → zlength d0 = BB * k → d0 `prefix_of` D → BB < zlength D → collecting iv t0 k v → names_left ns0 c ns →
  disk_at f start_header (block_cvs iv 0 d0) (pieces_of block_size d0) (Some (c, [])) ns →
  writer_commit (at_writer (block_cvs iv 0 d0) (Some (mkBlockFile 0 (tmp b t c))) k (collector_at k v []), mkDisk f ns []) =
    Some (Ok h, s') →
  h = root ∧ d0 = D ∧ stored b t f0 D root (files s'.2).
Proof.
  intros Hk Hd0 Hpre HBD Hv Hleft Hok Hrun. unfold writer_commit in Hrun. rewrite fst_get in Hrun.
  cbn [writer_with w_current_block_file w_count_block] in Hrun.
  apply try_bind_inv in Hrun as ([] & s1 & Hlast & Hrun). cbn in Hlast. injection Hlast as <-. fold commit_rest in Hrun.
  destruct (commit_rest_inv (block_cvs iv 0 d0) (mkBlockFile 0 (tmp b t c)) k (fresh k) v [] k f ns h s')
    as (-> & Hi & Hst); [done|lia| | |exact Hrun|].
  - intros x Hx. apply (names_left_in hn ns0 D root Hfresh Hnames c ns); [done|by right].
  - intros Hi. rewrite (blocks_all k d0 Hpre Hd0 Hi) in *.
    assert (block_cvs iv 0 D = hashes) as <- by (unfold content_hashes; by rewrite bool_decide_false by lia).
    split; [done|]. by destruct Hok.
  - split_and!; [done|by apply (blocks_all k)|done].
Qed.

(** The last block completes the content. *)
Lemma last_hashes k d0 e :
  0 ≤ k → zlength d0 = BB * k → d0 `prefix_of` D → e ≠ [] → zlength e ≤ BB →
  pieces_of block_size D !! Z.to_nat k = Some e → bool_decide (k = 0) = single D → k + 1 = count t0 →
  d0 ++ e = D ∧ block_cvs iv 0 d0 ++ [digest (bool_decide (k = 0)) k e] = hashes.
Proof.
  pose proof BB_val. intros Hk Hd0 Hpre Hne He Hpiece Hsingle Hcount.
  destruct (next_piece k d0 e Hpre Hd0 Hk Hpiece) as (tl & HDe & Htl). rewrite app_assoc in HDe.
  assert (d0 ++ e = D) as HD'.
  { destruct Htl as [Hfull| ->]; [|by rewrite app_nil_r in HDe].
    apply (blocks_all (k + 1)); [by exists tl|rewrite zlength_app; lia|done]. }
  split; [done|]. unfold single in Hsingle. unfold content_hashes. rewrite Hsingle. unfold digest.
  destruct (bool_decide_reflect (zlength D ≤ BB)) as [Hs|Hs].
  - assert (k = 0) as -> by (by case_bool_decide). assert (d0 = []) as ->.
    { destruct d0; [done|]. unfold zlength in Hd0. simpl in Hd0. lia. }
    simpl in HD'. rewrite HD', Hroot. clear -Hnil. by destruct D.
  - destruct (blocks_snoc ns0 D Hnames k d0 e Hd0 Hk Hne He) as [Hcvs _]. by rewrite <-HD', Hcvs.
Qed.

Lemma final_block_run hs cur k v e d :
  e ≠ [] →
  on_collector (final_block k) (at_writer hs cur k (collector_at k v e), d) =
  on_collector (uc_verify_block e (bool_decide (k = 0))) (at_writer hs cur k (collector_at k v e), d).
Proof.
  intros Hne. unfold on_collector. cbn [writer_with w_collector fst].
  unfold final_block, untrusted_file_writer_collector, uc_final_block. cbn [collector_at uc_buffer_bytes].
  generalize uc_verify_block. intros verify. by destruct e.
Qed.

Lemma commit_last_inv k d0 e v c ns f h s' :
  0 ≤ k → zlength d0 = BB * k → zlength e ≤ BB → d0 `prefix_of` D → e ≠ [] → collecting iv t0 k v → names_left ns0 c ns →
  disk_at f start_header (block_cvs iv 0 d0) (pieces_of block_size d0) (Some (c, e)) ns →
  writer_commit (at_writer (block_cvs iv 0 d0) (Some (mkBlockFile (zlength e) (tmp b t c))) k (collector_at k v e),
    mkDisk f ns []) = Some (Ok h, s') →
  (h = root ∧ d0 ++ e = D ∧ stored b t f0 D root (files s'.2)) ∨ block_forged (d0 ++ e).
Proof.
  pose proof BB_val. intros Hk Hd0 He Hpre Hne Hv Hleft Hok Hrun. set (hs := block_cvs iv 0 d0) in *.
  destruct (piece_bounds [] k d0 e Hk Hd0 Hpre) as [Hkb _].
  destruct (blocks_snoc ns0 D Hnames k d0 e Hd0 Hk Hne He) as [_ Hps].
  unfold writer_commit in Hrun. rewrite fst_get in Hrun. cbn [writer_with w_current_block_file w_count_block] in Hrun.
  apply try_bind_inv in Hrun as ([] & s1 & Hlast & Hrun). fold commit_rest in Hrun.
  apply try_bind_inv in Hlast as (o & s2 & Hver & Hnew). apply map_err_inv in Hver.
  rewrite final_block_run in Hver by done. unfold on_collector in Hver. cbn [writer_with w_collector fst snd] in Hver.
  destruct (uc_verify_block e _ (collector_at k v e)) as [[r c1]|] eqn:Hvb; [|done]. injection Hver as -> <-.
  set (is_root := bool_decide (k = 0)) in *.
  destruct (verify_block_inv k v e e is_root o c1 ltac:(lia) Hne He ltac:(unfold is_root; by case_bool_decide) Hv Hvb)
    as (-> & Hr & _ & [(Hpiece & Hsingle & Hv')|Hforged]).
  2: { right. exists (Z.to_nat k), e. rewrite Z2Nat.id, Hps by lia. split; [|done].
    destruct (pieces_app block_size block_size_pos (Z.to_nat k) d0 []) as [_ Hl];
      [pose proof block_size_Z; unfold zlength in Hd0; nia|]. rewrite lookup_app_r, Hl, Nat.sub_diag by lia. done. }
  left. destruct c1 as [hh v1 r1 buf1]. cbn [uc_root_hash uc_increment_verifier] in Hr, Hv'. subst r1.
  cbn iota in Hnew. set (dg := digest is_root k e) in *.
  pose proof (do_current _ _ _ _ _ _ _ _ _ _ Hok c e eq_refl) as Hcur.
  apply map_err_inv in Hnew. erewrite new_block_run in Hnew by done. injection Hnew as <-.
  change (with_collector (mkUntrusted hh v1 root buf1) _) with
    (at_writer hs (Some (mkBlockFile (zlength e) (tmp b t c))) k (mkUntrusted hh v1 root buf1)) in Hrun.
  rewrite with_block_with, wrap_small in Hrun by (unfold in_width; lia).
  destruct (commit_rest_inv (hs ++ [dg]) (mkBlockFile (zlength e) (tmp b t c)) (k + 1) hh v1 buf1 (k + 1)
    (<[tmp b t dg:=e]> (delete (tmp b t c) f)) ns h s') as (-> & Hi & Hst); [done|lia| | |exact Hrun|].
  - intros x Hx. apply (names_left_in hn ns0 D root Hfresh Hnames c ns); [done|by right].
  - intros Hi. destruct (last_hashes k d0 e Hk Hd0 Hpre Hne He Hpiece Hsingle Hi) as [HD' Hhs].
    split; [done|]. rewrite <-Hhs, <-HD', Hps.
    apply (disk_commit b t hn ns0 f0 D root HD Hfresh Hnames); [done|done|]. by rewrite <-Hhs.
  - split_and!; [done|by apply (last_hashes k)|done].
Qed.

Lemma commit_inv d s h s' :
  receiving d s → writer_commit s = Some (Ok h, s') →
  (h = root ∧ d = D ∧ stored b t f0 D root (files s'.2)) ∨ block_forged d.
Proof.
  intros [v f Hv Hok|k d0 e v c ns f Hk Hd0 He Hpre Hk0 Hk1 Hv Hleft Hok] Hrun.
  - exfalso. unfold writer_commit in Hrun. rewrite fst_get in Hrun. cbn [writer_with w_current_block_file] in Hrun.
    apply try_bind_inv in Hrun as ([] & s1 & Hlast & Hrun). injection Hlast as <-.
    apply try_bind_inv in Hrun as (final & s2 & Hfin & _). apply map_err_inv in Hfin.
    apply finalize_inv in Hfin as (tree & c' & Hf & _). destruct tree_over_facts as (Hsh & _ & _ & _ & Hc).
    destruct (collecting_final iv t0 Hsh Hc 0 v tree Hv Hf) as [H0 _]. pose proof (count_pos t0). lia.
  - destruct (decide (e = [])) as [->|Hne]; [|by eapply commit_last_inv].
    assert (0 < k) by (destruct (decide (k = 0)) as [H0|]; [by destruct (Hk0 H0)|lia]).
    left. rewrite app_nil_r. apply (commit_full_inv k d0 v c ns f); try done. by apply Hk1.
Qed.
End receiving.

Section untrusted.
Context {P : Platform} {PL : PlatformLaws P}.

(** C10: An untrusted writer stores only the content of its hash.  Whatever proofs and
    bytes a peer sends, in any order and cut in any way: if the session of a writer
    for the hash of a content ends with a commit that succeeds, then the bytes are
    the content, and the blocks, each under its hash, and the header with the array
    of the tree are stored, the temporary files are gone and no other file has
    changed.  The only exceptions are collisions that the peer has sent: a proof
    that merges other hashes than the content does to the same hash, or to the hash
    of a block; or a block with the hash of an inner node, or of another block in
    its place. *)
Theorem untrusted_commit_sound b ops d t hn ns D root hash d' :
  zlength D ≤ 262144 * (2 ^ 32 - 1) → iv_hash_all_at_once IV_DEFAULT D = Some root → root ≠ iv_empty IV_DEFAULT →
  faults d = [] → names d = t :: hn :: ns → (length (pieces_of block_size D) ≤ length ns)%nat →
  names_fresh hn ns (content_hashes D root) → (∀ p, wal b t `prefix_of` p → files d !! p = None) →
  receive_file b root ops d = Some (Ok hash, d') →
  (hash = root ∧ written ops = D ∧ stored b t (files d) D root (files d')) ∨
  (∃ proof items, FeedProof proof ∈ ops ∧ proof_items proof = Some items ∧
     forges IV_DEFAULT (tree_over D root) (proof_tree items)) ∨
  (∃ i x, pieces_of block_size (written ops) !! i = Some x ∧ forged_block D root (Z.of_nat i) x).
Proof.
  intros HD Hroot Hempty Hfaults Hnames Hns Hfresh Hwal Hrun. destruct d as [f0 ns0 fs].
  cbn [files names faults] in *. subst ns0 fs. assert (D ≠ []) as Hnil.
  { intros ->. apply Hempty. rewrite iv_hash_empty in Hroot by done. by simplify_eq. }
  destruct (tree_over_facts hn ns D root) as (_ & _ & Hr & _); [done..|].
  unfold receive_file in Hrun. apply try_bind_inv in Hrun as (w & d1 & Hnew & Hrun). apply map_err_inv in Hnew.
  unfold untrusted_writer_new in Hnew. destruct (uc_new root) as [c0|] eqn:Huc; [|done].
  unfold uc_new in Huc. destruct (set_root_hash root _) as [[[] v]|] eqn:Hset; [|done].
  cbn [mbind option_bind] in Huc. injection Huc as <-. cbn [unwrap] in Hnew. rewrite (bind_run _ _ _ _ _ eq_refl) in Hnew.
  apply map_err_inv in Hnew.
  destruct (writer_new_run b t hn ns f0 D root Hfresh (mkUntrusted (bh_from IV_DEFAULT) v root []) Hwal) as (f & Hw & Hok).
  rewrite Hw in Hnew. injection Hnew as <- <-.
  assert (receiving b t hn ns f0 D root [] (writer_with b t hn [] None 0 (mkUntrusted (bh_from IV_DEFAULT) v root []), mkDisk f ns []))
    as Hs by (apply receiving_start; [apply collecting_start; rewrite Hr; done|done]).
  cbn beta in Hrun.
  match type of Hrun with context [match ?m with _ => _ end] => destruct m as [[r [w' d2]]|] eqn:Hsession; [|discriminate Hrun] end.
  injection Hrun as -> ->.
  apply try_bind_inv in Hsession as ([] & s1 & Hrec & Hcommit). apply map_err_inv in Hcommit.
  destruct (receive_inv b t hn ns f0 D root Hnil HD Hfresh Hns Hroot ops _ _ _ Hs Hrec)
    as [Hs1|[(i & x & Hx & _ & Hf)|Hf]]; [|right; right; exact (ex_intro _ i (ex_intro _ x (conj Hx Hf)))|right; left; exact Hf].
  destruct (commit_inv b t hn ns f0 D root Hnil HD Hfresh Hns Hroot _ _ _ _ Hs1 Hcommit) as [Hst|Hf];
    [left; exact Hst|right; right; exact Hf].
Qed.
End untrusted.
