(* ===== verification/AsyncTree.v ===== *)
(** * AsyncTree: reading the hashes of a stored file

    [lib/b3fs/src/collections/async_hashtree.rs] and
    [lib/b3fs/src/bucket/file/reader.rs]: the array of hashes in a header, read
    from the disk in pages when a hash is asked for.  For files of up to 64 blocks
    it is the tree in memory; the hashes from the 128th on, which only larger files
    have, are not found in their page. *)

From S2P Require Import Prelude Types Codec HashTree ProofBuf Blake3 Blake3Tree Forest Verifier ByteHasher ByteTree ContentHash Collectors ContentSteps Bucket BucketWrite.
From stdpp Require Import base list gmap strings.
From Stdlib Require Import ZArith Lia.
Open Scope Z_scope.

(** ** The reader *)

Record AsyncHashTree := mkAsyncHashTree {
  at_file : Path;
  at_number_of_blocks : Z;
  at_current_block : Z;
  at_pages : list (option (list Bytes))
}.

Definition at_new (file_reader : Path) (number_of_blocks : Z) : AsyncHashTree :=
  mkAsyncHashTree file_reader number_of_blocks 0
    (replicate (Z.to_nat ((number_of_blocks +[64] 1023) / 1024)) None).

(** [chunks_exact]; the fuel is the length of the data. *)
Fixpoint chunks_exact (fuel size : nat) (data : Bytes) : list Bytes :=
  match fuel with
  | O => []
  | S fuel =>
      if bool_decide (length data < size)%nat then []
      else take size data :: chunks_exact fuel size (drop size data)
  end.

Definition fs_len (path : Path) : M Disk (Result Z IoError) :=
  io (d ← get; mret (match files d !! path with Some data => Ok (zlength data) | None => Err NotFound end)).
Definition fs_seek : M Disk (Result unit IoError) := io (mret (Ok tt)).
Definition fs_read_exact (path : Path) (start len : Z) : M Disk (Result Bytes IoError) :=
  io (d ← get;
      mret (match files d !! path with
            | Some data =>
                if bool_decide (start + len ≤ zlength data)
                then Ok (take (Z.to_nat len) (drop (Z.to_nat start) data)) else Err UnexpectedEof
            | None => Err NotFound
            end)).

(** The page at [page_index] of the file. *)
Definition load_page (path : Path) (page_index : Z) : M Disk (Result (list Bytes) IoError) :=
  let start_index := Z.of_nat POSITION_START_HASHES +[64] wrap 64 (page_index * 4096) in
  file_size ←? fs_len path;
  fs_seek;;?
  let bytes_to_read := file_size -[64] start_index in
  page_data ←? fs_read_exact path start_index (Z.min bytes_to_read 4096);
  mret (Ok (chunks_exact (length page_data) 32 page_data)).

Definition at_set_page (page_index : nat) (hashes : list Bytes) (t : AsyncHashTree) : AsyncHashTree :=
  mkAsyncHashTree (at_file t) (at_number_of_blocks t) (at_current_block t) (<[page_index:=Some hashes]> (at_pages t)).

(** A page or a hash out of bounds panics. *)
Definition get_hash_by_index (index : Z) : M (AsyncHashTree * Disk) (Result (option Bytes) ReadError) :=
  t ← on_fst get;
  if bool_decide (wrap 64 (at_number_of_blocks t * 2) -[64] 1 ≤ index) then mret (Ok None)
  else
    counter ← unwrap (block_counter_from_tree_index index);
    let block_number := default 0 counter in
    let page_index := block_number / 1024 in
    let offset := index mod 1024 in
    page ← unwrap (at_pages t !! Z.to_nat page_index);
    (match page with
     | Some _ => mret (Ok tt)
     | None =>
         hashes ←? map_err ReadingFile (on_snd (load_page (at_file t) page_index));
         on_fst (modify (at_set_page (Z.to_nat page_index) hashes));;
         mret (Ok tt)
     end);;?
    t ← on_fst get;
    hashes ← unwrap (at_pages t !! Z.to_nat page_index);
    match hashes with
    | Some hashes => hash ← unwrap (hashes !! Z.to_nat offset); mret (Ok (Some hash))
    | None => mret (Ok None)
    end.

Definition at_get_hash (block_number : Z) : M (AsyncHashTree * Disk) (Result (option Bytes) ReadError) :=
  get_hash_by_index (tree_index block_number).

(** The hashes of a walk go to the encoder. *)
Fixpoint encode_walk (items : list (Direction * Z)) (encoder : ProofEncoder)
    : M (AsyncHashTree * Disk) (Result ProofEncoder ReadError) :=
  match items with
  | [] => mret (Ok encoder)
  | (direction, index) :: items =>
      hash ←? get_hash_by_index index;
      match hash with
      | None => mret (Err (HashNotFound (wrap 32 index)))
      | Some hash =>
          '(_, encoder) ← unwrap (encoder_insert direction hash encoder);
          encode_walk items encoder
      end
  end.

Definition at_generate_proof (block_number : Z) : M (AsyncHashTree * Disk) (Result ProofBuf ReadError) :=
  t ← on_fst get;
  let tree_len := wrap 64 (at_number_of_blocks t * 2) -[64] 1 in
  walker ← unwrap (if bool_decide (block_number = 0) then Some (walker_initial block_number tree_len)
                   else walker_proceeding block_number tree_len);
  let size := walker_size_hint walker in
  items ← unwrap (walk (S (Z.to_nat size)) walker);
  encoder ←? encode_walk items (encoder_new size);
  proof ← unwrap (encoder_finalize encoder);
  mret (Ok proof).

(** [ContentHeader::into_file] and [B3File::hashtree]. *)
Definition into_hashtree (h : ContentHeader) : option AsyncHashTree :=
  if is_file h then Some (at_new (header_file h) (num_entries h)) else None.

(** ** [B3FSFile]

    A header read at once. *)

Record B3FSFile := mkB3FSFile {
  b3_version : Z;
  b3_num_entries : Z;
  b3_hashes : list Bytes
}.

Definition b3fs_new (hashes : list Bytes) : B3FSFile := mkB3FSFile 1 (wrap 32 (zlength hashes)) hashes.

(** [None] is the panic on data of another length. *)
Definition b3fs_deserialize (data : Bytes) : option B3FSFile :=
  if bool_decide (length data < 8)%nat then None
  else
    let version := from_le_bytes (take 4 data) in
    let num_entries := from_le_bytes (take 4 (drop 4 data)) in
    let num_hashes := wrap 32 (2 * num_entries) -[32] 1 in
    if bool_decide (zlength data = Z.of_nat POSITION_START_HASHES + num_hashes * 32)
    then Some (mkB3FSFile version num_entries
      ((λ i, take 32 (drop (POSITION_START_HASHES + i * 32) data)) <$> seq 0 (Z.to_nat num_hashes)))
    else None.

Definition b3fs_get_hash_tree (f : B3FSFile) : Result HashTree unit :=
  match ht_try_from (flat_from (b3_hashes f)) with Ok t => Ok t | Err _ => Err tt end.

(** ** Pages *)

Lemma chunks_exact_hashes (arr : list Bytes) (rest : Bytes) fuel :
  Forall is_hash arr → (length rest < 32)%nat → (length (concat arr ++ rest) ≤ fuel)%nat →
  chunks_exact fuel 32 (concat arr ++ rest) = arr.
Proof.
  intros Harr Hrest. revert fuel. induction Harr as [|h arr Hh Harr IH]; intros fuel Hf.
  - destruct fuel; [done|]. cbn [chunks_exact concat app] in *. by rewrite bool_decide_true by lia.
  - cbn [concat] in *. rewrite <-app_assoc in *. unfold is_hash in Hh. rewrite length_app in Hf.
    destruct fuel as [|fuel]; [lia|]. cbn [chunks_exact].
    rewrite bool_decide_false by (rewrite length_app; lia).
    rewrite <-Hh, take_app_length, drop_app_length, Hh, IH by lia. done.
Qed.

Lemma take_concat_hashes (arr : list Bytes) n :
  Forall is_hash arr → take (32 * n) (concat arr) = concat (take n arr).
Proof.
  intros Harr. destruct (decide (n ≤ length arr)%nat) as [Hn|Hn].
  - rewrite <-(take_drop n arr) at 1. rewrite concat_app.
    rewrite take_app_length'; [done|]. rewrite concat_hashes_length by (by apply Forall_take).
    rewrite length_take. lia.
  - rewrite (take_ge arr) by lia. apply take_ge. rewrite concat_hashes_length by done. lia.
Qed.

(** Positions below 1024 are those of the first blocks. *)
Lemma lor_bound a b k : 0 ≤ k → 0 ≤ a < 2 ^ k → 0 ≤ b < 2 ^ k → 0 ≤ Z.lor a b < 2 ^ k.
Proof.
  intros Hk Ha Hb. assert (Z.lor a b mod 2 ^ k = Z.lor a b) as <-.
  { rewrite <-Z.land_ones, Z.land_lor_distr_l, !Z.land_ones by done. by rewrite !Z.mod_small. }
  apply Z.mod_pos_bound. by apply Z.pow_pos_nonneg.
Qed.

Lemma block_counter_small fuel x r r' :
  0 ≤ x < 1023 → 0 ≤ r < 2 ^ 10 → block_counter_loop fuel x r = Some r' → 0 ≤ r' < 2 ^ 10.
Proof.
  revert x r. induction fuel as [|fuel IH]; intros x r Hx Hr; cbn [block_counter_loop];
    case_bool_decide as H0; intros Hrun; simplify_eq; try done.
  assert (1 ≤ Z.log2 (x + 1) ≤ 9) as Hlog.
  { split; [apply (Z.log2_le_mono 2); lia|]. apply Z.lt_succ_r, Z.log2_lt_pow2; lia. }
  unfold leading_zeros in Hrun. rewrite (wrap_small 64 (x + 1)) in Hrun by (unfold in_width; lia).
  rewrite bool_decide_false in Hrun by lia. replace (64 - (63 - Z.log2 (x + 1))) with (Z.log2 (x + 1) + 1) in Hrun by lia.
  rewrite (wrap_small 32 (_ + 1 - 1)) in Hrun by (unfold in_width; lia). rewrite Z.add_simpl_r in Hrun.
  rewrite (wrap_small 32), Z.mod_small, Z.shiftl_1_l in Hrun by (unfold in_width; lia).
  assert (1 ≤ 2 ^ (Z.log2 (x + 1) - 1) < 2 ^ 10) as Hm.
  { split; [apply (Z.pow_le_mono_r 2 0)|apply Z.pow_lt_mono_r]; lia. }
  assert (2 * 2 ^ (Z.log2 (x + 1) - 1) ≤ x + 1).
  { rewrite <-Z.pow_succ_r by lia. replace (Z.succ (Z.log2 (x + 1) - 1)) with (Z.log2 (x + 1)) by lia.
    apply Z.log2_spec. lia. }
  rewrite (wrap_small 64 (2 ^ _)), wrap_small in Hrun by (unfold in_width; lia).
  apply (IH _ _) in Hrun; [done|lia|]. apply lor_bound; lia.
Qed.

Lemma first_page index :
  0 ≤ index < 1023 → ∃ r, block_counter_from_tree_index index = Some r ∧ default 0 r / 1024 = 0.
Proof.
  intros Hi. destruct (tree_index_inverse index) as (r & Hr & _); [lia|]. exists r. split; [done|].
  unfold block_counter_from_tree_index in Hr. destruct (block_counter_loop _ _ _) as [x|] eqn:Hx; [|done].
  apply block_counter_small in Hx; [|lia|lia]. simplify_eq/=. case_bool_decide; [|done]. simpl.
  apply Z.div_small. lia.
Qed.

(** The reader of an empty file has no page. *)
Lemma empty_file_panics path d : at_get_hash 0 (at_new path 0, d) = None.
Proof. reflexivity. Qed.

Lemma hashes_at (arr : list Bytes) :
  Forall is_hash arr → (λ i, take 32 (drop (i * 32) (concat arr))) <$> seq 0 (length arr) = arr.
Proof.
  induction 1 as [|h arr Hh Harr IH]; [done|]. cbn [length seq fmap list_fmap concat]. unfold is_hash in Hh. f_equal.
  - rewrite Nat.mul_0_l, drop_0. by apply take_app_length'.
  - rewrite <-IH at 2. rewrite <-fmap_S_seq, <-list_fmap_compose. apply list_fmap_ext. intros i x _. cbn [compose].
    f_equal. rewrite drop_app_ge by lia. f_equal. lia.
Qed.

(** The header of a file, as the bytes that follow the version and the number of
    blocks. *)
Lemma b3fs_deserialize_run version n (arr : list Bytes) :
  0 ≤ version < 2 ^ 32 → 1 ≤ n < 2 ^ 31 → Forall is_hash arr → zlength arr = 2 * n - 1 →
  b3fs_deserialize (to_le_bytes 4 version ++ to_le_bytes 4 n ++ concat arr) = Some (mkB3FSFile version n arr).
Proof.
  intros Hv Hn Harr Hlen. unfold b3fs_deserialize.
  pose proof (to_le_bytes_length 4 version) as Hl1. pose proof (to_le_bytes_length 4 n) as Hl2.
  rewrite bool_decide_false by (rewrite !length_app; lia).
  rewrite take_app_length' by lia. rewrite drop_app_length', take_app_length' by lia.
  rewrite !le_bytes_roundtrip by (simpl; lia).
  rewrite (wrap_small 32 (2 * n)), wrap_small by (unfold in_width; lia).
  assert (zlength (to_le_bytes 4 version ++ to_le_bytes 4 n ++ concat arr) = 8 + (2 * n - 1) * 32) as ->.
  { rewrite <-Hlen. unfold zlength. rewrite !length_app, Hl1, Hl2, concat_hashes_length by done. lia. }
  rewrite bool_decide_true by (unfold POSITION_START_HASHES; lia). f_equal. f_equal.
  unfold zlength in Hlen. replace (Z.to_nat (2 * n - 1)) with (length arr) by lia.
  etrans; [|by apply hashes_at]. apply list_fmap_ext. intros i x _. f_equal.
Qed.

(** The [bincode] format of a vector starts with its length, in 8 bytes: what
    [serialize] gives is not the format of [deserialize], which panics. *)
Lemma serialize_not_deserialized (serialize : B3FSFile → Bytes) hashes :
  (∀ f, serialize f = to_le_bytes 4 (b3_version f) ++ to_le_bytes 4 (b3_num_entries f) ++
     to_le_bytes 8 (zlength (b3_hashes f)) ++ concat (b3_hashes f)) →
  Forall is_hash hashes → zlength hashes < 2 ^ 31 → b3fs_deserialize (serialize (b3fs_new hashes)) = None.
Proof.
  intros Hser Hh Hlen. rewrite Hser. unfold b3fs_new, b3fs_deserialize. cbn [b3_version b3_num_entries b3_hashes].
  pose proof (zlength_nonneg hashes). rewrite wrap_small by (unfold in_width; lia).
  pose proof (to_le_bytes_length 4 1) as Hl1. pose proof (to_le_bytes_length 4 (zlength hashes)) as Hl2.
  pose proof (to_le_bytes_length 8 (zlength hashes)) as Hl3.
  case_bool_decide; [done|]. rewrite take_app_length' by lia. rewrite drop_app_length', take_app_length' by lia.
  rewrite !le_bytes_roundtrip by (simpl; lia). rewrite (wrap_small 32 (2 * _)) by (unfold in_width; lia).
  rewrite bool_decide_false; [done|]. unfold POSITION_START_HASHES, zlength at 1.
  rewrite !length_app, Hl1, Hl2, Hl3, concat_hashes_length by done. unfold zlength in *.
  pose proof (Z.mod_pos_bound (2 * Z.of_nat (length hashes) - 1) (2 ^ 32) ltac:(lia)).
  destruct (decide (hashes = [])) as [->|Hne]; [done|].
  assert (0 < length hashes)%nat by (destruct hashes; [done|simpl; lia]).
  rewrite wrap_small by (unfold in_width; lia). lia.
Qed.

Section reader.
Context (arr : list Bytes) (n : Z) (hdr : Bytes) (path : Path).
Context (Harr : Forall is_hash arr) (Hlen : zlength arr = 2 * n - 1) (Hn : 1 ≤ n ≤ 512).

(** The reader of a file, before or after its page is loaded. *)
Definition reading (t : AsyncHashTree) : Prop :=
  at_file t = path ∧ at_number_of_blocks t = n ∧
  (at_pages t = [None] ∨ at_pages t = [Some (take 128 arr)]).

Lemma reading_new : reading (at_new path n).
Proof.
  split_and!; [done|done|]. left. unfold at_new. cbn [at_pages].
  rewrite wrap_small by (unfold in_width; lia).
  assert ((n + 1023) / 1024 = 1) as ->; [|done].
  symmetry. apply (Z.div_unique _ _ 1 (n - 1)); lia.
Qed.

Context (Hhdr : length hdr = POSITION_START_HASHES).

Lemma load_page_run f ns :
  f !! path = Some (hdr ++ concat arr) →
  load_page path 0 (mkDisk f ns []) = Some (Ok (take 128 arr), mkDisk f ns []).
Proof.
  intros Hf. unfold load_page. change (Z.of_nat POSITION_START_HASHES +[64] wrap 64 (0 * 4096)) with 8.
  erewrite try_bind_ok by (unfold fs_len, io; simpl; unfold_M; simpl; by rewrite Hf).
  erewrite try_bind_ok by done.
  assert (zlength (hdr ++ concat arr) = 8 + 32 * zlength arr) as Hz.
  { unfold zlength. rewrite length_app, Hhdr, concat_hashes_length by done. unfold POSITION_START_HASHES. lia. }
  rewrite Hz, wrap_small by (unfold in_width; lia). replace (8 + 32 * zlength arr - 8) with (32 * zlength arr) by lia.
  erewrite try_bind_ok.
  2: { unfold fs_read_exact, io. simpl. unfold_M. simpl. rewrite Hf, Hz, bool_decide_true by lia. done. }
  assert (take (Z.to_nat (Z.min (32 * zlength arr) 4096)) (drop (Z.to_nat 8) (hdr ++ concat arr)) =
    concat (take 128 arr) ++ []) as ->.
  { change (Z.to_nat 8) with POSITION_START_HASHES. rewrite <-Hhdr, drop_app_length, app_nil_r.
    rewrite <-take_concat_hashes by done.
    destruct (decide (zlength arr ≤ 128)).
    - rewrite Z.min_l, !take_ge; [done|..|lia]; rewrite concat_hashes_length by done; unfold zlength in *; lia.
    - rewrite Z.min_r by lia. done. }
  rewrite chunks_exact_hashes; [done|by apply Forall_take|simpl; lia|done].
Qed.

Context (f : gmap Path Bytes) (ns : list Bytes) (Hf : f !! path = Some (hdr ++ concat arr)).
#[local] Abbreviation disk := (mkDisk f ns []).

Lemma reading_loaded t : reading t → reading (at_set_page 0 (take 128 arr) t).
Proof. intros (Hp & Hb & [Hpg|Hpg]); (split_and!; [done|done|right; simpl; by rewrite Hpg]). Qed.

(** The hashes of the first page. *)
Lemma page_run index t :
  reading t → 0 ≤ index < 2 * n - 1 →
  ∃ t', reading t' ∧
    get_hash_by_index index (t, disk) =
      match take 128 arr !! Z.to_nat index with Some h => Some (Ok (Some h), (t', disk)) | None => None end.
Proof.
  intros Ht Hi. pose proof Ht as (Hp & Hb & Hpg). unfold get_hash_by_index. rewrite fst_get, Hb.
  rewrite (wrap_small 64 (n * 2)), wrap_small, bool_decide_false by (unfold in_width; lia).
  destruct (first_page index) as (r & -> & Hr); [lia|]. cbn [unwrap]. erewrite bind_run by done.
  rewrite Hr, (Z.mod_small index 1024) by lia. change (Z.to_nat 0) with 0%nat. destruct Hpg as [Hpg|Hpg]; rewrite Hpg.
  - exists (at_set_page 0 (take 128 arr) t). split; [by apply reading_loaded|].
    cbn [lookup list_lookup unwrap]. erewrite bind_run by done.
    erewrite try_bind_ok.
    2: { etrans; [apply try_bind_ok, map_err_ok, on_snd_run; rewrite Hp; by apply load_page_run|]. reflexivity. }
    rewrite fst_get. unfold at_set_page at 1. cbn [at_pages fst snd]. rewrite Hpg. cbn [unwrap insert list_insert lookup list_lookup].
    erewrite bind_run by done. cbn iota. by destruct (take 128 arr !! Z.to_nat index).
  - exists t. split; [done|]. cbn [lookup list_lookup unwrap]. erewrite bind_run by done. erewrite try_bind_ok by done.
    rewrite fst_get, Hpg. cbn [unwrap lookup list_lookup]. erewrite bind_run by done. cbn iota.
    by destruct (take 128 arr !! Z.to_nat index).
Qed.

Lemma get_hash_run index t :
  reading t → 0 ≤ index →
  (2 * n - 1 ≤ index → get_hash_by_index index (t, disk) = Some (Ok None, (t, disk))) ∧
  (index < 2 * n - 1 → index < 128 →
   ∃ t' h, reading t' ∧ arr !! Z.to_nat index = Some h ∧
     get_hash_by_index index (t, disk) = Some (Ok (Some h), (t', disk))) ∧
  (128 ≤ index < 2 * n - 1 → get_hash_by_index index (t, disk) = None).
Proof.
  intros Ht Hi. split_and!.
  - intros Hge. pose proof Ht as (Hp & Hb & Hpg). unfold get_hash_by_index. rewrite fst_get, Hb.
    rewrite (wrap_small 64 (n * 2)), wrap_small by (unfold in_width; lia). by rewrite bool_decide_true by lia.
  - intros Hlt Hlt'. destruct (page_run index t Ht) as (t' & Ht' & Hrun); [lia|].
    rewrite lookup_take_lt in Hrun by lia.
    destruct (lookup_lt_is_Some_2 arr (Z.to_nat index)) as [h Hh]; [unfold zlength in Hlen; lia|].
    rewrite Hh in Hrun. by exists t', h.
  - intros Hge. destruct (page_run index t Ht) as (t' & _ & ->); [lia|].
    rewrite lookup_take_ge by lia. done.
Qed.

(** In a file of more than 65 blocks the hash of block 65 is the 128th, past the
    end of its page. *)
Lemma large_file_panics t : reading t → 65 < n → at_get_hash 65 (t, disk) = None.
Proof.
  intros Ht H65. destruct (get_hash_run 128 t Ht ltac:(lia)) as (_ & _ & Hp). unfold at_get_hash.
  change (tree_index 65) with 128. apply Hp. lia.
Qed.

(** In a file of three blocks the block after the last one has the hash of the
    root. *)
Lemma past_the_end_hash t :
  reading t → n = 3 →
  ∃ t' h, arr !! 4%nat = Some h ∧ at_get_hash 3 (t, disk) = Some (Ok (Some h), (t', disk)).
Proof.
  intros Ht H3. destruct (get_hash_run 4 t Ht ltac:(lia)) as (_ & Hget & _).
  destruct Hget as (t' & h & _ & Hh & Hrun); [lia|lia|]. by exists t', h.
Qed.

(** ** Proofs *)

Lemma walk_nonneg fuel w items :
  0 ≤ w_current w → walk fuel w = Some items → Forall (λ item, 0 ≤ item.2) items.
Proof.
  revert w items. induction fuel as [|fuel IH]; intros w items Hw Hrun; cbn [walk] in Hrun; [done|].
  destruct (walker_next w) as [[item w']|] eqn:Hnext; [|by simplify_eq].
  destruct (walk fuel w') as [items'|] eqn:Hrest; simplify_eq/=.
  assert (0 ≤ item.2 ∧ 0 ≤ w_current w') as [Hi Hw'].
  { unfold walker_next in Hnext. repeat case_match; simplify_eq/=; split; try done;
      unfold wrap; apply Z.mod_pos_bound; lia. }
  constructor; [done|by apply (IH w')].
Qed.

Context (Hsmall : n ≤ 64).

Lemma encode_walk_run items e e' t :
  Forall (λ item, 0 ≤ item.2) items → reading t →
  insert_items (mkHashTree (flat_from arr)) items e = Some (tt, e') →
  ∃ t', reading t' ∧ encode_walk items e (t, disk) = Some (Ok e', (t', disk)).
Proof.
  intros Hitems. revert e t. induction Hitems as [|[dir i] items Hi Hitems IH]; intros e t Ht Hins.
  { unfold insert_items in Hins. simpl in Hins. unfold_M. simplify_eq. by exists t. }
  unfold insert_items in Hins. cbn [for_each] in Hins. unfold_M. cbn [ht_inner] in Hins. simpl in Hi.
  rewrite flat_get_from in Hins by done. destruct (arr !! Z.to_nat i) as [h|] eqn:Hh; [|done]. cbn [unwrap] in Hins.
  destruct (encoder_insert dir h e) as [[[] e1]|] eqn:He; [|done].
  apply lookup_lt_Some in Hh as Hlt. unfold zlength in Hlen.
  destruct (get_hash_run i t Ht Hi) as (_ & Hget & _).
  destruct Hget as (t1 & h' & Ht1 & Hh' & Hrun); [lia|lia|]. rewrite Hh in Hh'. simplify_eq.
  destruct (IH e1 t1 Ht1) as (t2 & Ht2 & Hrest); [exact Hins|]. exists t2. split; [done|].
  cbn [encode_walk]. etrans; [apply try_bind_ok, Hrun|]. cbn iota. rewrite He. cbn [unwrap].
  erewrite bind_run by done. exact Hrest.
Qed.

Lemma generate_proof_run block p t :
  0 ≤ block → reading t →
  generate_proof (mkHashTree (flat_from arr)) (if bool_decide (block = 0) then Initial else Proceeding) block = Some p →
  ∃ t', reading t' ∧ at_generate_proof block (t, disk) = Some (Ok p, (t', disk)).
Proof.
  intros Hblock Ht Hgen. pose proof Ht as (_ & Hb & _).
  unfold generate_proof, pb_new, ht_inner_len in Hgen. cbn [ht_inner] in Hgen. rewrite flat_len_from, Hlen in Hgen by done.
  unfold at_generate_proof. rewrite fst_get, Hb. rewrite (wrap_small 64 (n * 2)), wrap_small by (unfold in_width; lia).
  replace (n * 2 - 1) with (2 * n - 1) by lia.
  destruct (walker_new _ block (2 * n - 1)) as [w|] eqn:Hw; [|done]. cbn [mbind option_bind] in Hgen.
  assert ((if bool_decide (block = 0) then Some (walker_initial block (2 * n - 1))
           else walker_proceeding block (2 * n - 1)) = Some w) as Hw' by (by case_bool_decide).
  rewrite Hw'. cbn [unwrap]. erewrite bind_run by done. unfold pb_new_internal in Hgen.
  destruct (walk _ w) as [items|] eqn:Hwalk; [|done]. cbn [mbind option_bind unwrap] in Hgen |- *. erewrite bind_run by done.
  destruct (insert_items _ items _) as [[[] e]|] eqn:Hins; [|done].
  assert (0 ≤ w_current w) as Hcur.
  { revert Hw'. unfold walker_initial, walker_proceeding. repeat case_match; intros; simplify_eq/=; try lia;
      unfold wrap; apply Z.mod_pos_bound; lia. }
  destruct (encode_walk_run items _ e t (walk_nonneg _ _ _ Hcur Hwalk) Ht Hins) as (t' & Ht' & Hrun).
  exists t'. split; [done|]. etrans; [apply try_bind_ok, Hrun|]. cbn [mbind option_bind] in Hgen.
  by rewrite Hgen.
Qed.
End reader.

(** ** Stored files *)

Section stored_files.
Context {P : Platform} {PL : PlatformLaws P}.
#[local] Abbreviation m := (iv_merge IV_DEFAULT).
#[local] Arguments iv_merge : simpl never.
#[local] Opaque TREE_BLOCK_SIZE_BYTES.

Lemma hash_length iv D root :
  zlength D < 2 ^ 60 → iv_hash_all_at_once iv D = Some root → is_hash root.
Proof.
  intros HD Hroot. destruct (h_updates_run iv [D] [] _ (content_inv_start iv)) as (h & _ & Hinv);
    [simpl; by rewrite app_nil_r|].
  destruct (h_final_run iv _ h Hinv) as (o & _ & Hh & _). simpl in Hh. rewrite app_nil_r in Hh.
  rewrite Hroot in Hh. simplify_eq. apply root_hash_length.
Qed.

(** The array in a header is the array of a tree over the hashes of the blocks. *)
Lemma content_array_tree D root :
  D ≠ [] → zlength D < 2 ^ 60 → iv_hash_all_at_once IV_DEFAULT D = Some root →
  ∃ t, shaped t ∧ leaves t = content_hashes D root ∧ hashes_ok m t ∧ content_array D root = post_order m true t.
Proof.
  intros Hne HD Hroot. pose proof (hash_length IV_DEFAULT D root HD Hroot) as Hh. unfold content_hashes, content_array.
  case_bool_decide.
  - exists (Leaf root). destruct D; [done|]. split_and!; try done. intros b. by apply Forall_singleton.
  - destruct (tree_array_facts IV_DEFAULT D Hne HD) as (Hs & Hl & _). eexists. split_and!; [exact Hs|done| |done].
    intros b. apply post_order_hashes. rewrite Hl. by apply block_cvs_hashes.
Qed.

(** C14: The reader of a stored file of at most 64 blocks is the tree in memory,
    whatever was asked of it before: the header, read at once, holds the tree over
    the blocks, and for every block the reader gives the hash under which the block
    is stored, and the proof that this tree generates, which exists. *)
Theorem stored_file_served b t f D root f' ns reader i :
  let again := reading (content_array D root) (zlength (content_hashes D root)) (get_header_path b root) in
  let disk := mkDisk f' ns [] in
  D ≠ [] → zlength D ≤ 64 * 262144 → iv_hash_all_at_once IV_DEFAULT D = Some root →
  stored b t f D root f' → again reader → 0 ≤ i < zlength (content_hashes D root) →
  let tree := mkHashTree (flat_from (content_array D root)) in
  (∃ data file, f' !! get_header_path b root = Some data ∧ b3fs_deserialize data = Some file ∧
     b3_num_entries file = zlength (content_hashes D root) ∧ b3fs_get_hash_tree file = Ok tree) ∧
  (∃ reader' h, again reader' ∧ content_hashes D root !! Z.to_nat i = Some h ∧
     at_get_hash i (reader, disk) = Some (Ok (Some h), (reader', disk))) ∧
  (∃ reader' p, again reader' ∧
     generate_proof tree (if bool_decide (i = 0) then Initial else Proceeding) i = Some p ∧
     at_generate_proof i (reader, disk) = Some (Ok p, (reader', disk))).
Proof.
  intros again disk Hne HD Hroot Hst Hreader Hi tree.
  destruct (content_array_tree D root Hne ltac:(lia) Hroot) as (tr & Hs & Hl & Hok & Harr).
  assert (count tr = zlength (content_hashes D root)) as Hc by (unfold count; by rewrite Hl).
  assert (1 ≤ zlength (content_hashes D root) ≤ 64) as Hn.
  { rewrite content_hashes_count. assert (0 < zlength D) by (destruct D; [done|unfold zlength; simpl; lia]).
    pose proof (Z.div_mod (zlength D + 262143) 262144 ltac:(lia)).
    pose proof (Z.mod_pos_bound (zlength D + 262143) 262144 ltac:(lia)). lia. }
  set (n := zlength (content_hashes D root)) in *. set (arr := content_array D root) in *.
  assert (Forall is_hash arr) as Hhash by (rewrite Harr; apply Hok).
  assert (zlength arr = 2 * n - 1) as Hlen by (rewrite Harr, post_order_length; lia).
  pose proof (st_header _ _ _ _ _ _ Hst) as Hf. fold n arr in Hf. split.
  { exists (to_le_bytes 4 HEADER_FILE_VERSION ++ to_le_bytes 4 n ++ concat arr), (mkB3FSFile HEADER_FILE_VERSION n arr).
    split_and!; [done|apply b3fs_deserialize_run; [done|lia|done|done]|done|].
    destruct (hash_tree_spec m true tr) as ([inner] & Ht & Hin & _); [done|lia|done|]. simpl in Hin. subst inner.
    unfold slice_of in Ht. rewrite <-Harr in Ht. unfold b3fs_get_hash_tree. cbn [b3_hashes]. by rewrite Ht. }
  rewrite app_assoc in Hf.
  assert (length (to_le_bytes 4 HEADER_FILE_VERSION ++ to_le_bytes 4 n) = POSITION_START_HASHES) as Hhdr
    by (rewrite length_app, !to_le_bytes_length; done).
  pose proof (tree_index_bound i ltac:(lia)). split.
  - destruct (get_hash_run arr n _ _ Hhash Hlen ltac:(lia) Hhdr f' ns Hf (tree_index i) reader Hreader) as (_ & Hget & _);
      [lia|].
    destruct Hget as (reader' & h & Hreader' & Hh & Hrun); [lia|lia|]. exists reader', h. split_and!; [done| |done].
    rewrite <-Hh, <-Hl, Harr. symmetry.
    pose proof (embedded_leaf m _ 0 true tr i (embedded_whole m true tr)) as He. rewrite Z.add_0_l in He.
    apply He; done || lia.
  - destruct (generate_proof_spec m (if bool_decide (i = 0) then Initial else Proceeding) true tr i) as (p & Hgen & _);
      [done|lia|done|lia|by case_bool_decide|].
    unfold slice_of in Hgen. rewrite <-Harr in Hgen.
    destruct (generate_proof_run arr n _ _ Hhash Hlen ltac:(lia) Hhdr f' ns Hf ltac:(lia) i p reader) as (reader' & Hr' & Hrun);
      [lia|done|done|]. by exists reader', p.
Qed.
End stored_files.
