(* ===== verification/Phf.v ===== *)
(** * Phf: the hash table of a directory

    [lib/b3fs/src/bucket/dir/phf.rs]: the names of a directory are hashed into
    buckets, and for each bucket two displacements are searched that send its names
    to free slots of a table of offsets.  A slot that holds 0 counts as free, though
    0 is the offset of the first entry. *)

From S2P Require Import Prelude Types Codec HashTree.
From stdpp Require Import base list sets.
From Stdlib Require Import ZArith Lia.
Open Scope Z_scope.

(** [SipHasher13::new_with_keys(0, key).hash(entry)], the two halves of 64 bits, and
    the numbers drawn from [SmallRng::seed_from_u64(1234567890)]. *)
Class PhfPlatform := {
  sip128 : Z → Bytes → Z * Z;
  small_rng : nat → Z
}.

Class PhfLaws (PP : PhfPlatform) := {
  small_rng_width i : in_width 64 (small_rng i)
}.

(** ** The generator *)

Record HasherState := mkHasherState {
  hs_key : Z;
  hs_disps : list (Z * Z);
  hs_map : list Z
}.

Record Hashes := mkHashes {
  hash_g : Z;
  hash_f1 : Z;
  hash_f2 : Z
}.

(** The names and their offsets. *)
Abbreviation PhfGenerator := (list (Bytes * Z)) (only parsing).

Definition phf_push (items : PhfGenerator) (entry : Bytes) (position : Z) : PhfGenerator :=
  items ++ [(entry, position)].

Definition displace (f1 f2 d1 d2 : Z) : Z := (d2 +[32] wrap 32 (f1 * d1)) +[32] f2.

Definition PHF_DEFAULT_LAMBDA : Z := 5.

Definition calculate_buckets_len (entries_len : Z) : Z :=
  Z.max entries_len ((entries_len + PHF_DEFAULT_LAMBDA - 1) / PHF_DEFAULT_LAMBDA).

(** A bucket: its index and its keys. *)
Record PhfBucket := mkPhfBucket {
  pb_idx : nat;
  pb_keys : list (Hashes * Z)
}.

(** [sort_by] is stable; the order is descending. *)
Fixpoint insert_bucket (b : PhfBucket) (l : list PhfBucket) : list PhfBucket :=
  match l with
  | [] => [b]
  | c :: l =>
      if bool_decide (length (pb_keys c) ≤ length (pb_keys b))%nat then b :: c :: l
      else c :: insert_bucket b l
  end.
Definition sort_buckets (l : list PhfBucket) : list PhfBucket := foldr insert_bucket [] l.

(** The slot of a key. *)
Definition slot (table_len : Z) (h : Hashes) (d : Z * Z) : nat :=
  Z.to_nat (displace (hash_f1 h) (hash_f2 h) d.1 d.2 mod table_len).

(** Fill the slots of a bucket, or empty those that were filled. *)
Fixpoint place (table_len : Z) (d : Z * Z) (keys : list (Hashes * Z)) (map : list Z)
    (values_to_clean : list nat) : bool * list Z :=
  match keys with
  | [] => (true, map)
  | (hashes, offset) :: keys =>
      let idx := slot table_len hashes d in
      if negb (bool_decide (default 0 (map !! idx) = 0))
      then (false, foldl (λ map idx, <[idx:=0]> map) map values_to_clean)
      else place table_len d keys (<[idx:=offset]> map) (values_to_clean ++ [idx])
  end.

(** The loops over [d1] and [d2]. *)
Fixpoint try_disps (table_len : Z) (ds : list (Z * Z)) (keys : list (Hashes * Z)) (map : list Z)
    : option (Z * Z * list Z) :=
  match ds with
  | [] => None
  | d :: ds =>
      match place table_len d keys map [] with
      | (true, map) => Some (d, map)
      | (false, map) => try_disps table_len ds keys map
      end
  end.
Definition all_disps (table_len : Z) : list (Z * Z) :=
  d1 ← seqZ 0 table_len; d2 ← seqZ 0 table_len; [(d1, d2)].

Fixpoint place_buckets (table_len : Z) (buckets : list PhfBucket) (map : list Z) (disps : list (Z * Z))
    : option (list (Z * Z) * list Z) :=
  match buckets with
  | [] => Some (disps, map)
  | b :: buckets =>
      match try_disps table_len (all_disps table_len) (pb_keys b) map with
      | Some (d, map) => place_buckets table_len buckets map (<[pb_idx b:=d]> disps)
      | None => None
      end
  end.

Section phf.
Context {PP : PhfPlatform}.

Definition phf_hash (entry : Bytes) (key : Z) : Hashes :=
  let '(lower, upper) := sip128 key entry in
  mkHashes (wrap 32 (Z.shiftr lower 32)) (wrap 32 lower) (wrap 32 upper).

Definition bucket_of (buckets_len : Z) (h : Hashes) : nat := Z.to_nat (hash_g h mod buckets_len).

Definition push_key (buckets_len key : Z) (buckets : list PhfBucket) (item : Bytes * Z) : list PhfBucket :=
  let hashes := phf_hash item.1 key in
  alter (λ b, mkPhfBucket (pb_idx b) (pb_keys b ++ [(hashes, item.2)])) (bucket_of buckets_len hashes) buckets.

(** [None] is a panic, on too many entries or on none. *)
Definition try_generate_hash (entries : list (Bytes * Z)) (key : Z) : option (option HasherState) :=
  let table_len := zlength entries in
  let buckets_len := calculate_buckets_len table_len in
  if bool_decide (65535 < table_len) then None
  else
    let buckets := (λ idx, mkPhfBucket idx []) <$> seq 0 (Z.to_nat buckets_len) in
    let buckets := foldl (push_key buckets_len key) buckets entries in
    let buckets := sort_buckets buckets in
    let map := replicate (Z.to_nat table_len) 0 in
    let disps := replicate (Z.to_nat buckets_len) (0, 0) in
    if bool_decide (table_len = 1) then Some (Some (mkHasherState key disps map))
    else
      match buckets with
      | [] => None
      | _ =>
          Some (match place_buckets table_len buckets map disps with
                | Some (disps, map) => Some (mkHasherState key disps map)
                | None => None
                end)
      end.

(** Keys are drawn until one works. *)
Fixpoint find_key (fuel i : nat) (items : PhfGenerator) : option HasherState :=
  match fuel with
  | O => None
  | S fuel =>
      match try_generate_hash items (small_rng i) with
      | None => None
      | Some (Some state) => Some state
      | Some None => find_key fuel (S i) items
      end
  end.
Definition phf_finalize (fuel : nat) (items : PhfGenerator) : option HasherState := find_key fuel 0 items.

(** What a reader computes from the table. *)
Definition phf_lookup (state : HasherState) (num_entries : Z) (name : Bytes) : option Z :=
  let h := phf_hash name (hs_key state) in
  d ← hs_disps state !! bucket_of (calculate_buckets_len num_entries) h;
  hs_map state !! slot num_entries h d.
End phf.

(** ** One bucket *)

Section placing.
Context (n : Z) (Hn : 0 < n).

Lemma slot_lt h d : (slot n h d < Z.to_nat n)%nat.
Proof. unfold slot. pose proof (Z.mod_pos_bound (displace (hash_f1 h) (hash_f2 h) d.1 d.2) n Hn). lia. Qed.

(** The entries of [map] that are not 0 are those of [map']. *)
Definition keeps (map map' : list Z) : Prop :=
  length map' = length map ∧ ∀ i x, map !! i = Some x → x ≠ 0 → map' !! i = Some x.

Lemma keeps_trans map1 map2 map3 : keeps map1 map2 → keeps map2 map3 → keeps map1 map3.
Proof. intros [Hl1 H1] [Hl2 H2]. split; [congruence|]. intros i x Hx Hx0. by apply H2, Hx0; apply H1. Qed.

Lemma keeps_insert map i x : default 0 (map !! i) = 0 → keeps map (<[i:=x]> map).
Proof.
  intros Hi. split; [apply length_insert|]. intros j y Hy Hy0. rewrite list_lookup_insert_ne; [done|].
  intros ->. by rewrite Hy in Hi.
Qed.

(** The keys that are not at offset 0 are in their slots. *)
Definition in_slots (d : Z * Z) (keys : list (Hashes * Z)) (map : list Z) : Prop :=
  ∀ h off, (h, off) ∈ keys → off ≠ 0 → map !! slot n h d = Some off.

Lemma keeps_slots d keys map map' : in_slots d keys map → keeps map map' → in_slots d keys map'.
Proof. intros Hs [_ Hk] h off Hin H0. by apply Hk; [apply Hs|]. Qed.

Lemma place_ok d keys map to_clean map' :
  length map = Z.to_nat n → place n d keys map to_clean = (true, map') → keeps map map' ∧ in_slots d keys map'.
Proof.
  revert map to_clean. induction keys as [|[h off] keys IH]; intros map to_clean Hl Hp; cbn [place] in Hp.
  { simplify_eq. split; [by split|]. intros h off Hin. by apply not_elem_of_nil in Hin. }
  case_bool_decide as H0; [|done]. simpl in Hp.
  destruct (IH _ _ ltac:(by rewrite length_insert) Hp) as [Hk Hs].
  split; [eapply keeps_trans; [by apply keeps_insert|done]|].
  intros h' off' [[= -> ->]|Hin]%elem_of_cons Hoff; [|by apply Hs].
  apply Hk; [|done]. apply list_lookup_insert_eq. rewrite Hl. apply slot_lt.
Qed.

(** A failure leaves the table as it was. *)
Lemma clean_slots map0 map to_clean :
  length map = length map0 → (∀ i, i ∉ to_clean → map !! i = map0 !! i) →
  Forall (λ i, default 0 (map0 !! i) = 0) to_clean →
  foldl (λ map idx, <[idx:=0]> map) map to_clean = map0.
Proof.
  revert map. induction to_clean as [|j to_clean IH]; intros map Hl Hout Hz.
  { simpl. apply list_eq. intros i. apply Hout, not_elem_of_nil. }
  apply Forall_cons in Hz as [Hj Hz]. simpl. apply IH; [by rewrite length_insert| |done].
  intros i Hi. destruct (decide (i = j)) as [->|Hne].
  - destruct (decide (j < length map)%nat) as [Hlt|Hge].
    + rewrite list_lookup_insert_eq by done. destruct (map0 !! j) as [x|] eqn:Hx; [simpl in Hj; by subst|].
      apply lookup_ge_None in Hx. lia.
    + by rewrite !lookup_ge_None_2 by (rewrite ?length_insert; lia).
  - rewrite list_lookup_insert_ne by done. apply Hout. set_solver.
Qed.

Lemma place_fails d keys map0 map to_clean map' :
  length map = length map0 → (∀ i, i ∉ to_clean → map !! i = map0 !! i) →
  Forall (λ i, default 0 (map0 !! i) = 0) to_clean →
  place n d keys map to_clean = (false, map') → map' = map0.
Proof.
  revert map to_clean. induction keys as [|[h off] keys IH]; intros map to_clean Hl Hout Hz Hp; [done|].
  cbn [place] in Hp. case_bool_decide as H0; simpl in Hp; [|simplify_eq; by apply clean_slots].
  destruct (decide (slot n h d ∈ to_clean)) as [Hin|Hin].
  - apply (IH _ _) in Hp; [done|by rewrite length_insert|..].
    + intros i Hi. rewrite list_lookup_insert_ne by set_solver. apply Hout. set_solver.
    + apply Forall_app. split; [done|]. rewrite Forall_singleton. by eapply (proj1 (Forall_forall _ _)) in Hz.
  - apply (IH _ _) in Hp; [done|by rewrite length_insert|..].
    + intros i Hi. rewrite list_lookup_insert_ne by set_solver. apply Hout. set_solver.
    + apply Forall_app. split; [done|]. rewrite Forall_singleton. by rewrite <-Hout.
Qed.

Lemma try_disps_ok ds keys map d map' :
  length map = Z.to_nat n → try_disps n ds keys map = Some (d, map') → keeps map map' ∧ in_slots d keys map'.
Proof.
  intros Hl. induction ds as [|d0 ds IH]; [done|]. cbn [try_disps].
  destruct (place n d0 keys map []) as [[] map1] eqn:Hp; intros Ht.
  - simplify_eq. by eapply place_ok.
  - apply place_fails with (map0 := map) in Hp as ->; [by apply IH|done|done|constructor].
Qed.

(** ** All the buckets *)

Lemma place_buckets_ok bs map disps disps' map' :
  length map = Z.to_nat n → NoDup (pb_idx <$> bs) → (∀ b, b ∈ bs → (pb_idx b < length disps)%nat) →
  place_buckets n bs map disps = Some (disps', map') →
  keeps map map' ∧ length disps' = length disps ∧ (∀ i, i ∉ pb_idx <$> bs → disps' !! i = disps !! i) ∧
  ∀ b, b ∈ bs → ∃ d, disps' !! pb_idx b = Some d ∧ in_slots d (pb_keys b) map'.
Proof.
  revert map disps. induction bs as [|b bs IH]; intros map disps Hl Hnd Hlt Hp; cbn [place_buckets] in Hp.
  { simplify_eq. split_and!; [by split|done|done|]. intros b Hb. by apply not_elem_of_nil in Hb. }
  destruct (try_disps n _ (pb_keys b) map) as [[d map1]|] eqn:Ht; [|done].
  destruct (try_disps_ok _ _ _ _ _ Hl Ht) as [Hk Hs]. apply NoDup_cons in Hnd as [Hb Hnd].
  destruct (IH map1 (<[pb_idx b:=d]> disps)) as (Hk' & Hlen & Hout & Hbs); [|done| |done|].
  { destruct Hk as [-> _]. done. }
  { intros c Hc. rewrite length_insert. apply Hlt. by right. }
  rewrite length_insert in Hlen. split_and!; [by eapply keeps_trans|done| |].
  - intros i Hi. rewrite fmap_cons in Hi. rewrite Hout by set_solver. apply list_lookup_insert_ne. set_solver.
  - intros c [->|Hc]%elem_of_cons; [|by apply Hbs]. exists d. split; [|by eapply keeps_slots].
    rewrite Hout by done. apply list_lookup_insert_eq. apply Hlt. left.
Qed.
End placing.

(** ** What is in the table *)

Lemma place_values n d keys map to_clean (Q : Z → Prop) :
  Q 0 → Forall (λ k : Hashes * Z, Q k.2) keys → Forall Q map → Forall Q (place n d keys map to_clean).2.
Proof.
  intros H0. revert map to_clean. induction keys as [|[h off] keys IH]; intros map to_clean Hk Hm; [done|].
  apply Forall_cons in Hk as [Hoff Hk]. cbn [place]. case_bool_decide; simpl.
  - apply IH; [done|]. by apply Forall_insert.
  - clear -H0 Hm. revert map Hm. induction to_clean as [|i to_clean IH]; intros map Hm; [done|].
    simpl. apply IH. by apply Forall_insert.
Qed.

Lemma try_disps_values n ds keys map d map' (Q : Z → Prop) :
  Q 0 → Forall (λ k : Hashes * Z, Q k.2) keys → Forall Q map → try_disps n ds keys map = Some (d, map') →
  d ∈ ds ∧ Forall Q map'.
Proof.
  intros H0 Hk. revert map. induction ds as [|d0 ds IH]; intros map Hm Ht; [done|]. cbn [try_disps] in Ht.
  pose proof (place_values n d0 keys map [] Q H0 Hk Hm) as Hp. destruct (place n d0 keys map []) as [[] map1].
  - simplify_eq. split; [left|done].
  - destruct (IH map1 Hp Ht) as [Hd Hm']. split; [by right|done].
Qed.

Lemma place_buckets_values n bs map disps disps' map' (Q : Z → Prop) :
  Q 0 → Forall (λ b, Forall (λ k : Hashes * Z, Q k.2) (pb_keys b)) bs → Forall Q map →
  Forall (λ d, d ∈ all_disps n) disps → place_buckets n bs map disps = Some (disps', map') →
  Forall (λ d, d ∈ all_disps n) disps' ∧ Forall Q map'.
Proof.
  intros H0 Hb. revert map disps. induction Hb as [|b bs Hk _ IH]; intros map disps Hm Hd Hp; cbn [place_buckets] in Hp.
  { by simplify_eq. }
  destruct (try_disps n _ (pb_keys b) map) as [[d map1]|] eqn:Ht; [|done].
  destruct (try_disps_values _ _ _ _ _ _ Q H0 Hk Hm Ht) as [Hin Hm1]. eapply IH; [done| |done]. by apply Forall_insert.
Qed.

Lemma all_disps_in n d : d ∈ all_disps n ↔ 0 ≤ d.1 < n ∧ 0 ≤ d.2 < n.
Proof.
  unfold all_disps. destruct d as [d1 d2]. simpl. rewrite list_elem_of_bind. setoid_rewrite list_elem_of_bind.
  setoid_rewrite elem_of_seqZ. setoid_rewrite list_elem_of_singleton. split.
  - intros (y & (z & [= -> ->] & Hz) & Hy). lia.
  - intros [H1 H2]. exists d1. split; [|lia]. exists d2. split; [done|lia].
Qed.

Lemma insert_bucket_perm b l : insert_bucket b l ≡ₚ b :: l.
Proof.
  induction l as [|c l IH]; [done|]. cbn [insert_bucket]. case_bool_decide; [done|]. rewrite IH. by apply perm_swap.
Qed.

Lemma sort_buckets_perm l : sort_buckets l ≡ₚ l.
Proof. induction l as [|b l IH]; [done|]. simpl. by rewrite insert_bucket_perm, IH. Qed.

(** ** The table *)

Section table.
Context {PP : PhfPlatform}.

Lemma push_keys_idx key nb items bs : pb_idx <$> foldl (push_key nb key) bs items = pb_idx <$> bs.
Proof.
  revert bs. induction items as [|it items IH]; intros bs; [done|]. simpl. rewrite IH. unfold push_key.
  apply list_eq. intros i. rewrite !list_lookup_fmap.
  destruct (decide (i = bucket_of nb (phf_hash it.1 key))) as [->|Hne].
  - rewrite list_lookup_alter_eq. by destruct (bs !! _).
  - by rewrite list_lookup_alter_ne.
Qed.

(** The keys in the buckets are those of the entries. *)
Lemma push_keys_in key nb items bs name off :
  0 < nb → length bs = Z.to_nat nb → (name, off) ∈ items →
  ∃ b, b ∈ foldl (push_key nb key) bs items ∧
    (pb_idx <$> bs) !! bucket_of nb (phf_hash name key) = Some (pb_idx b) ∧
    (phf_hash name key, off) ∈ pb_keys b.
Proof.
  intros Hnb. revert bs. induction items as [|[name0 off0] items IH] using rev_ind; intros bs Hl Hin.
  { by apply not_elem_of_nil in Hin. }
  rewrite foldl_snoc. set (bs' := foldl _ bs items) in *. unfold push_key. simpl.
  pose proof (push_keys_idx key nb items bs) as Hidx. fold bs' in Hidx.
  set (k0 := bucket_of nb (phf_hash name0 key)).
  apply elem_of_app in Hin as [Hin|Hin].
  - destruct (IH bs Hl Hin) as (b & Hb & Hi & Hk). apply list_elem_of_lookup_1 in Hb as [j Hj].
    destruct (decide (j = k0)) as [->|Hne].
    + exists (mkPhfBucket (pb_idx b) (pb_keys b ++ [(phf_hash name0 key, off0)])). split_and!.
      * apply (list_elem_of_lookup_2 _ k0). fold bs' in Hj. rewrite list_lookup_alter_eq, Hj. done.
      * done.
      * simpl. set_solver.
    + exists b. split_and!; [|done|done]. apply (list_elem_of_lookup_2 _ j). by rewrite list_lookup_alter_ne.
  - apply list_elem_of_singleton in Hin as [= -> ->].
    assert (k0 < length bs')%nat as Hlt.
    { assert (length bs' = length bs) as -> by (by rewrite <-(length_fmap pb_idx bs'), Hidx, length_fmap).
      rewrite Hl. unfold k0, bucket_of. pose proof (Z.mod_pos_bound (hash_g (phf_hash name0 key)) nb Hnb). lia. }
    apply lookup_lt_is_Some_2 in Hlt as [b Hb].
    exists (mkPhfBucket (pb_idx b) (pb_keys b ++ [(phf_hash name0 key, off0)])). split_and!.
    + apply (list_elem_of_lookup_2 _ k0). by rewrite list_lookup_alter_eq, Hb.
    + rewrite <-Hidx, list_lookup_fmap. fold k0. by rewrite Hb.
    + simpl. set_solver.
Qed.

Lemma buckets_len_pos n : 1 ≤ n → calculate_buckets_len n = n.
Proof.
  intros Hn. unfold calculate_buckets_len, PHF_DEFAULT_LAMBDA. apply Z.max_l.
  apply Z.lt_succ_r, Z.div_lt_upper_bound; lia.
Qed.

(** A generated table, and where its buckets went. *)
Lemma generated items key st :
  try_generate_hash items key = Some (Some st) → zlength items ≠ 1 →
  let n := zlength items in
  let bs := foldl (push_key n key) ((λ idx, mkPhfBucket idx []) <$> seq 0 (Z.to_nat n)) items in
  1 ≤ n ≤ 65535 ∧ hs_key st = key ∧
  place_buckets n (sort_buckets bs) (replicate (Z.to_nat n) 0) (replicate (Z.to_nat n) (0, 0))
    = Some (hs_disps st, hs_map st).
Proof.
  intros Hg H1. unfold try_generate_hash in Hg. case_bool_decide; [done|]. rewrite bool_decide_false in Hg by done.
  assert (1 ≤ zlength items) as Hn.
  { destruct items; [done|]. unfold zlength. simpl. lia. }
  rewrite buckets_len_pos in Hg by done. intros n bs. split; [subst n; lia|].
  change (sort_buckets (foldl _ _ items)) with (sort_buckets bs) in Hg.
  destruct (sort_buckets bs) as [|c cs] eqn:Hs; [done|]. fold n in Hg.
  destruct (place_buckets n (c :: cs) _ _) as [[disps map]|] eqn:Hp; [|done]. by simplify_eq/=.
Qed.

Lemma generated_idx n key items :
  pb_idx <$> sort_buckets (foldl (push_key n key) ((λ idx, mkPhfBucket idx []) <$> seq 0 (Z.to_nat n)) items)
  ≡ₚ seq 0 (Z.to_nat n).
Proof. rewrite sort_buckets_perm, push_keys_idx, <-list_fmap_compose. by rewrite list_fmap_id. Qed.

Lemma generated_single items key st :
  try_generate_hash items key = Some (Some st) → zlength items = 1 → st = mkHasherState key [(0, 0)] [0].
Proof.
  intros Hg H1. unfold try_generate_hash in Hg. rewrite H1, buckets_len_pos in Hg by lia. simpl in Hg. by simplify_eq.
Qed.

(** An entry is found in its slot, unless it is the first of several. *)
Lemma phf_slot items key st name off :
  try_generate_hash items key = Some (Some st) → (name, off) ∈ items →
  (off ≠ 0 ∧ zlength items ≠ 1) ∨ (off = 0 ∧ zlength items = 1) →
  phf_lookup st (zlength items) name = Some off.
Proof.
  intros Hg Hin [[Hoff H1]|[-> H1]].
  2: { rewrite (generated_single _ _ _ Hg H1), H1. unfold phf_lookup, bucket_of, slot.
       rewrite buckets_len_pos, Z.mod_1_r by lia. simpl. by rewrite Z.mod_1_r. }
  destruct (generated items key st Hg H1) as (Hn & Hkey & Hp). set (n := zlength items) in *.
  pose proof (generated_idx n key items) as Hidx.
  apply place_buckets_ok in Hp as (_ & _ & _ & Hb); [|lia|by rewrite length_replicate|by rewrite Hidx; apply NoDup_seq|].
  2: { intros b Hb. apply (list_elem_of_fmap_2 pb_idx) in Hb. rewrite Hidx in Hb. apply elem_of_seq in Hb.
       rewrite length_replicate. lia. }
  destruct (push_keys_in key n items ((λ idx, mkPhfBucket idx []) <$> seq 0 (Z.to_nat n)) name off)
    as (b & Hbin & Hi & Hk); [lia|by rewrite length_fmap, length_seq|done|].
  destruct (Hb b) as (d & Hd & Hs); [by rewrite sort_buckets_perm|].
  unfold phf_lookup. rewrite Hkey, buckets_len_pos by lia.
  rewrite <-list_fmap_compose, list_lookup_fmap in Hi.
  destruct (seq 0 (Z.to_nat n) !! _) as [j|] eqn:Hj; [|done]. apply lookup_seq in Hj as [-> _]. injection Hi as Hi.
  simpl in Hi. rewrite Hi, Hd. simpl. by apply Hs.
Qed.

Lemma push_keys_values key n items bs (Q : Z → Prop) :
  Forall (λ it : Bytes * Z, Q it.2) items → Forall (λ b, Forall (λ k : Hashes * Z, Q k.2) (pb_keys b)) bs →
  Forall (λ b, Forall (λ k : Hashes * Z, Q k.2) (pb_keys b)) (foldl (push_key n key) bs items).
Proof.
  intros Hit. revert bs. induction Hit as [|it items Hq _ IH]; intros bs Hbs; [done|]. simpl. apply IH.
  unfold push_key. apply Forall_alter; [done|]. intros b _ Hb. simpl. apply Forall_app. split; [done|].
  by rewrite Forall_singleton.
Qed.

Lemma phf_shape items key st :
  try_generate_hash items key = Some (Some st) →
  1 ≤ zlength items ≤ 65535 ∧ hs_key st = key ∧ zlength (hs_disps st) = zlength items ∧
  zlength (hs_map st) = zlength items ∧
  Forall (λ d : Z * Z, 0 ≤ d.1 < zlength items ∧ 0 ≤ d.2 < zlength items) (hs_disps st) ∧
  Forall (λ off, off = 0 ∨ off ∈ items.*2) (hs_map st).
Proof.
  intros Hg. destruct (decide (zlength items = 1)) as [H1|H1].
  { rewrite (generated_single _ _ _ Hg H1), H1. cbn [hs_disps hs_map hs_key].
    split_and!; try done. all: rewrite Forall_singleton; naive_solver lia. }
  destruct (generated items key st Hg H1) as (Hn & Hkey & Hp). set (n := zlength items) in *.
  pose proof (generated_idx n key items) as Hidx. pose proof Hp as Hp'.
  apply place_buckets_ok in Hp' as ([Hl _] & Hl' & _); [|lia|by rewrite length_replicate|by rewrite Hidx; apply NoDup_seq|].
  2: { intros b Hb. apply (list_elem_of_fmap_2 pb_idx) in Hb. rewrite Hidx in Hb. apply elem_of_seq in Hb.
       rewrite length_replicate. lia. }
  rewrite length_replicate in Hl. rewrite length_replicate in Hl'.
  eapply (place_buckets_values _ _ _ _ _ _ (λ off, off = 0 ∨ off ∈ items.*2)) in Hp as [Hd Hm].
  - split; [done|]. split_and!; [done|unfold zlength; lia|unfold zlength; lia| |done].
    eapply Forall_impl; [exact Hd|]. intros d. by rewrite all_disps_in.
  - by left.
  - rewrite sort_buckets_perm. apply (push_keys_values _ _ _ _ (λ off, off = 0 ∨ off ∈ items.*2)).
    + apply Forall_forall. intros it Hit. right. by apply list_elem_of_fmap_2.
    + apply Forall_fmap, Forall_forall. intros i _. constructor.
  - apply Forall_replicate. by left.
  - apply Forall_replicate, all_disps_in. simpl. lia.
Qed.

(** The search ends at a key that works. *)
Lemma find_key_run items i i0 st0 :
  1 ≤ zlength items ≤ 65535 → (i0 ≤ i)%nat → try_generate_hash items (small_rng i) = Some (Some st0) →
  ∃ j st, (i0 ≤ j ≤ i)%nat ∧ try_generate_hash items (small_rng j) = Some (Some st) ∧
    ∀ fuel, (i < i0 + fuel)%nat → find_key fuel i0 items = Some st.
Proof.
  intros Hn Hle Hi. remember (i - i0)%nat as k eqn:Hk. revert i0 Hle Hk.
  induction k as [|k IH]; intros i0 Hle Hk.
  { assert (i0 = i) as -> by lia. exists i, st0. split_and!; [lia|lia|done|]. intros [|fuel] Hf; [lia|].
    simpl. by rewrite Hi. }
  destruct (try_generate_hash items (small_rng i0)) as [[st|]|] eqn:Hg.
  - exists i0, st. split_and!; [lia|lia|done|]. intros [|fuel] Hf; [lia|]. simpl. by rewrite Hg.
  - destruct (IH (S i0)) as (j & st & Hj & Hgj & Hrun); [lia|lia|]. exists j, st. split_and!; [lia|lia|done|].
    intros [|fuel] Hf; [lia|]. simpl. rewrite Hg. apply Hrun. lia.
  - exfalso. unfold try_generate_hash in Hg. rewrite bool_decide_false, buckets_len_pos in Hg by lia.
    case_bool_decide; [done|]. pose proof (generated_idx (zlength items) (small_rng i0) items) as Hidx.
    destruct (sort_buckets _); [|done]. apply Permutation_length in Hidx. rewrite length_seq in Hidx. simpl in Hidx. lia.
Qed.

(** C18: The table of a directory, when some key of the random sequence gives one:
    the search of the generator ends, and the table has as many displacements and
    slots as the reader expects. Every name leads to the offset 0 or to that of an
    entry, and the name of an entry leads to its own offset, except for the entry at
    offset 0 when there are others: its slot counts as free. *)
Theorem phf_finds items i st0 :
  1 ≤ zlength items ≤ 65535 → try_generate_hash items (small_rng i) = Some (Some st0) →
  let n := zlength items in
  ∃ st, (∀ fuel, (i < fuel)%nat → phf_finalize fuel items = Some st) ∧
    zlength (hs_disps st) = calculate_buckets_len n ∧ zlength (hs_map st) = n ∧
    (∀ name, ∃ off, phf_lookup st n name = Some off ∧ (off = 0 ∨ off ∈ items.*2)) ∧
    ∀ name off, (name, off) ∈ items → (off ≠ 0 ∧ n ≠ 1) ∨ (off = 0 ∧ n = 1) → phf_lookup st n name = Some off.
Proof.
  intros Hn Hi n. destruct (find_key_run items i 0 st0 Hn ltac:(lia) Hi) as (j & st & _ & Hg & Hrun). exists st.
  destruct (phf_shape _ _ _ Hg) as (_ & _ & Hd & Hm & _ & Hv). fold n in Hd, Hm, Hn.
  split_and!; [exact Hrun|by rewrite buckets_len_pos by lia|done| |].
  - intros name. unfold phf_lookup. rewrite buckets_len_pos by lia. set (h := phf_hash name (hs_key st)).
    destruct (lookup_lt_is_Some_2 (hs_disps st) (bucket_of n h)) as [d Hdl].
    { unfold bucket_of. pose proof (Z.mod_pos_bound (hash_g h) n ltac:(lia)). unfold zlength in Hd. lia. }
    rewrite Hdl. simpl. destruct (lookup_lt_is_Some_2 (hs_map st) (slot n h d)) as [off Hoff].
    { pose proof (slot_lt n ltac:(lia) h d). unfold zlength in Hm. lia. }
    exists off. split; [done|]. by eapply (Forall_lookup_1 _ _ _ _ Hv).
  - intros name off Hin Hoff. by eapply phf_slot.
Qed.
End table.

(** ** The first entry *)

(** Names of which the first byte decides the slot. *)
#[local] Instance first_byte_phf : PhfPlatform := {
  sip128 := λ _ name, (default 0 (head name) * 2 ^ 32, 2 * default 0 (head name));
  small_rng := λ _, 0
}.

(** Two names in two buckets; the second takes the slot of the first, which is then
    looked for at the offset of the second. *)
Lemma first_entry_lost :
  let items := [([98], 0); ([99], 36)] in
  ∃ st, phf_finalize 1 items = Some st ∧ phf_lookup st 2 [98] = Some 36 ∧ phf_lookup st 2 [99] = Some 36.
Proof. eexists. split_and!; reflexivity. Qed.
