(* ===== verification/DirBucket.v ===== *)
(** * DirBucket: directories on the disk

    [lib/b3fs/src/bucket/dir/]: a directory is one header file, with the array of
    its hash tree, a Bloom filter over the names, the table of [Phf] and the entries
    one after the other.  A trusted or an untrusted writer appends the entries and
    fills in the rest at the commit; a reader looks a name up through the filter and
    the table, or goes through all the entries. *)

From S2P Require Import Prelude Types Codec HashTree ProofBuf Blake3 Verifier DirHasher ByteHasher Bucket AsyncTree Phf.
From stdpp Require Import base list gmap strings.
From Stdlib Require Import ZArith Lia.
Open Scope Z_scope.

(** [fastbloom_rs]: [FilterBuilder::new(n, 0.01).build_bloom_filter()], [add],
    [contains], [hashes], [get_u8_array] and [from_u8_array]. *)
Class BloomPlatform := {
  BloomFilter : Type;
  bloom_new : Z → BloomFilter;
  bloom_add : Bytes → BloomFilter → BloomFilter;
  bloom_contains : BloomFilter → Bytes → bool;
  bloom_hashes : BloomFilter → Z;
  bloom_bytes : BloomFilter → Bytes;
  bloom_from : Bytes → Z → BloomFilter
}.

(** A filter has no false negatives, adding a name does not change its size, and its
    bytes and its number of hashes make it up. *)
Class BloomLaws (BP : BloomPlatform) := {
  bloom_add_self x f : bloom_contains (bloom_add x f) x = true;
  bloom_add_other x y f : bloom_contains f y = true → bloom_contains (bloom_add x f) y = true;
  bloom_add_length x f : length (bloom_bytes (bloom_add x f)) = length (bloom_bytes f);
  bloom_from_bytes f x : bloom_contains (bloom_from (bloom_bytes f) (bloom_hashes f)) x = bloom_contains f x;
  bloom_hashes_width f : in_width 32 (bloom_hashes f);
  bloom_size n : n ≤ 65535 → zlength (bloom_bytes (bloom_new n)) < 2 ^ 31
}.

(** ** [dir/mod.rs] *)

Definition HEADER_DIR_VERSION : Z := 1.
Definition PHF_TABLE_RANDOMIZED_KEY_SIZE : Z := 8.

Record HeaderPositions := mkHeaderPositions {
  length_hashes : Z;
  position_start_bloom_filter : Z;
  bloom_filter_hashes_len : Z;
  bloom_filter_len : Z;
  position_start_phf_table : Z;
  position_start_entries : Z;
  phf_disps_len : Z;
  phf_entries_len : Z
}.

(** The starts of the parts of the filter and of the table. *)
Definition bloom_filter_start_entries (p : HeaderPositions) : Z :=
  position_start_bloom_filter p +[64] bloom_filter_hashes_len p.
Definition phf_table_start_disps (p : HeaderPositions) : Z :=
  position_start_phf_table p +[64] PHF_TABLE_RANDOMIZED_KEY_SIZE.
Definition phf_table_start_entries (p : HeaderPositions) : Z :=
  (position_start_phf_table p +[64] PHF_TABLE_RANDOMIZED_KEY_SIZE) +[64] phf_disps_len p.

(** ** [dir/state/mod.rs]: the header file *)

(** The errors of [InsertError] that occur, and those of [CommitError] at the commit
    of a directory. *)
Inductive InsertError :=
| InsertIO (e : IoError) | IncrementalVerification (e : VerificationError) | InvalidEntry (e : DirError)
| TooManyInserted.
Inductive DirCommitError := DirCommitIO (e : IoError) | CommitInsertError (e : InsertError).

(** [vec![0; len]]; [None] is the panic on a capacity that overflows. *)
Definition zeros (len : Z) : option Bytes :=
  if bool_decide (2 ^ 63 ≤ len) then None else Some (replicate (Z.to_nat len) 0).

Record DirHeaderFile := mkDirHeaderFile {
  hf_path : Path;
  hf_positions : HeaderPositions
}.

(** The bytes of an entry. *)
Definition entry_bytes (e : BorrowedEntry) : Bytes :=
  let '(flag, content, is_sym) :=
    match entry_link e with
    | LinkContent hash => (0, hash, false)
    | LinkPath link => (B3_DIR_IS_SYM_LINK, link, true)
    end in
  [flag] ++ entry_name e ++ [0] ++ content ++ (if is_sym : bool then [0] else []).

Definition header_insert_entry (h : DirHeaderFile) (e : BorrowedEntry) : M Disk (Result Z IoError) :=
  let buffer := entry_bytes e in
  fs_write_all (hf_path h) buffer;;?
  fs_flush;;?
  mret (Ok (zlength buffer)).

Section dir_bucket.
Context {BP : BloomPlatform} {PP : PhfPlatform}.

Definition positions_new (num_entries : Z) : HeaderPositions :=
  let length_hashes := wrap 64 (num_entries * 64) -[64] 32 in
  let bloom_filter_hashes_len := 4 in
  let bloom_filter_len := zlength (bloom_bytes (bloom_new num_entries)) in
  let position_start_bloom_filter := Z.of_nat POSITION_START_HASHES +[64] length_hashes in
  let position_start_phf_table := (position_start_bloom_filter +[64] bloom_filter_len) +[64] bloom_filter_hashes_len in
  let phf_disps_len := wrap 64 (calculate_buckets_len num_entries * 4) in
  let phf_entries_len := wrap 64 (num_entries * 4) in
  let length_phf_table := (PHF_TABLE_RANDOMIZED_KEY_SIZE +[64] phf_disps_len) +[64] phf_entries_len in
  let position_start_entries := position_start_phf_table +[64] length_phf_table in
  mkHeaderPositions length_hashes position_start_bloom_filter bloom_filter_hashes_len bloom_filter_len
    position_start_phf_table position_start_entries phf_disps_len phf_entries_len.

(** Space for everything but the entries. *)
Definition dir_header_from_wal_path (path : Path) (num_entries hashes : Z) : M Disk (Result DirHeaderFile IoError) :=
  path ← random_file_from path;
  fs_open_truncate path;;?
  let positions := positions_new num_entries in
  fs_write_all path (to_le_bytes 4 HEADER_DIR_VERSION);;?
  fs_write_all path (to_le_bytes 4 (wrap 32 num_entries));;?
  space ← unwrap (zeros (length_hashes positions));
  fs_write_all path space;;?
  fs_write_all path (to_le_bytes 4 hashes);;?
  space ← unwrap (zeros (bloom_filter_len positions));
  fs_write_all path space;;?
  fs_write_all path (to_le_bytes 8 0);;?
  space ← unwrap (zeros (phf_disps_len positions));
  fs_write_all path space;;?
  space ← unwrap (zeros (phf_entries_len positions));
  fs_write_all path space;;?
  fs_flush;;?
  mret (Ok (mkDirHeaderFile path positions)).

Definition disp_bytes (disps : list (Z * Z)) : Bytes :=
  concat ((λ d, to_le_bytes 2 d.1 ++ to_le_bytes 2 d.2) <$> disps).
Definition map_bytes (map : list Z) : Bytes := concat (to_le_bytes 4 <$> map).

(** A filter of another size panics. *)
Definition dir_header_commit (h : DirHeaderFile) (bucket : Bucket) (root_hash : Bytes) (hashes : list Bytes)
    (bloom_filter : BloomFilter) (hash_table : HasherState) : M Disk (Result unit IoError) :=
  let at_position bytes position := fs_write_at (hf_path h) bytes (Z.to_nat position) in
  let positions := hf_positions h in
  map_err (λ _, OtherError) (fs_write_at (hf_path h) (concat hashes) POSITION_START_HASHES);;?
  map_err (λ _, OtherError)
    (at_position (to_le_bytes 4 (bloom_hashes bloom_filter)) (position_start_bloom_filter positions));;?
  (if bool_decide (zlength (bloom_bytes bloom_filter) = bloom_filter_len positions) then mret tt else panic);;
  map_err (λ _, OtherError) (at_position (bloom_bytes bloom_filter) (bloom_filter_start_entries positions));;?
  at_position (to_le_bytes 8 (hs_key hash_table)) (position_start_phf_table positions);;?
  at_position (disp_bytes (hs_disps hash_table)) (phf_table_start_disps positions);;?
  at_position (map_bytes (hs_map hash_table)) (phf_table_start_entries positions);;?
  fs_flush;;?
  fs_rename (hf_path h) (get_header_path bucket root_hash).

(** ** [dir/state/mod.rs]: the state of a writer *)

Record InnerDirState (T : Type) := mkInnerDirState {
  ds_bucket : Bucket;
  ds_num_entries : Z;
  ds_insertions : Z;
  ds_phf_generator : list (Bytes * Z);
  ds_next_position : Z;
  ds_temp_file_path : Path;
  ds_header_file : DirHeaderFile;
  ds_bloom_filter : BloomFilter;
  ds_collector : T
}.
End dir_bucket.
Arguments mkInnerDirState {BP T}.
Arguments ds_bucket {BP T}.
Arguments ds_num_entries {BP T}.
Arguments ds_insertions {BP T}.
Arguments ds_phf_generator {BP T}.
Arguments ds_next_position {BP T}.
Arguments ds_temp_file_path {BP T}.
Arguments ds_header_file {BP T}.
Arguments ds_bloom_filter {BP T}.
Arguments ds_collector {BP T}.

(** What a writer of directories needs of its collector. *)
Class WithDirCollector (T : Type) := {
  on_insert : BorrowedEntry → bool → M T (Result unit InsertError);
  on_commit : M T (Result (Bytes * list Bytes) DirCommitError)
}.

Section dir_state.
Context {BP : BloomPlatform} {PP : PhfPlatform} {T : Type} {W : WithDirCollector T}.

(** A writer and the disk. *)
Abbreviation DirState A E := (M (InnerDirState T * Disk) (Result A E)).

Definition ds_count (s : InnerDirState T) : InnerDirState T :=
  mkInnerDirState (ds_bucket s) (ds_num_entries s) (ds_insertions s +[64] 1) (ds_phf_generator s)
    (ds_next_position s) (ds_temp_file_path s) (ds_header_file s) (ds_bloom_filter s) (ds_collector s).

Definition ds_push (name : Bytes) (i : Z) (s : InnerDirState T) : InnerDirState T :=
  mkInnerDirState (ds_bucket s) (ds_num_entries s) (ds_insertions s) (phf_push (ds_phf_generator s) name i)
    (ds_next_position s) (ds_temp_file_path s) (ds_header_file s) (ds_bloom_filter s) (ds_collector s).

(** The next position, and the filter. *)
Definition ds_advance (name : Bytes) (len_inserted : Z) (s : InnerDirState T) : InnerDirState T :=
  mkInnerDirState (ds_bucket s) (ds_num_entries s) (ds_insertions s) (ds_phf_generator s)
    (ds_next_position s +[32] wrap 32 len_inserted) (ds_temp_file_path s) (ds_header_file s)
    (bloom_add name (ds_bloom_filter s)) (ds_collector s).

Definition ds_with (c : T) (s : InnerDirState T) : InnerDirState T :=
  mkInnerDirState (ds_bucket s) (ds_num_entries s) (ds_insertions s) (ds_phf_generator s)
    (ds_next_position s) (ds_temp_file_path s) (ds_header_file s) (ds_bloom_filter s) c.

Definition on_dir_collector {A} (m : M T A) : M (InnerDirState T * Disk) A := λ sd,
  match m (ds_collector sd.1) with
  | Some (a, c) => Some (a, (ds_with c sd.1, sd.2))
  | None => None
  end.

Definition new_with_collector (bucket : Bucket) (num_entries : Z) (collector : T)
    : M Disk (Result (InnerDirState T) IoError) :=
  temp_file_path ← get_new_wal_path bucket;
  fs_create_dir_all temp_file_path;;?
  let bloom_filter := bloom_new num_entries in
  header_file ←? dir_header_from_wal_path temp_file_path num_entries (bloom_hashes bloom_filter);
  mret (Ok (mkInnerDirState bucket num_entries 0 [] 0 temp_file_path header_file bloom_filter collector)).

Definition insert_entry (borrowed_entry : BorrowedEntry) (last_entry : bool) : DirState unit InsertError :=
  on_fst (modify ds_count);;
  s ← on_fst get;
  if bool_decide (ds_num_entries s < ds_insertions s) then mret (Err TooManyInserted)
  else
    on_fst (modify (ds_push (entry_name borrowed_entry) (ds_next_position s)));;
    len_inserted ←? map_err InsertIO (on_snd (header_insert_entry (ds_header_file s) borrowed_entry));
    on_fst (modify (ds_advance (entry_name borrowed_entry) len_inserted));;
    on_dir_collector (on_insert borrowed_entry last_entry).

Definition ready_to_commit (s : InnerDirState T) : bool := bool_decide (ds_num_entries s = ds_insertions s).

(** The fuel is the number of keys that are tried for the table. *)
Definition dir_commit (fuel : nat) : DirState Bytes DirCommitError :=
  final ←? on_dir_collector on_commit;
  let '(root_hash, tree) := final in
  s ← on_fst get;
  hash_table ← unwrap (phf_finalize fuel (ds_phf_generator s));
  map_err DirCommitIO
    (on_snd (dir_header_commit (ds_header_file s) (ds_bucket s) root_hash tree (ds_bloom_filter s) hash_table));;?
  mret (Ok root_hash).

Definition dir_rollback : DirState unit IoError :=
  s ← on_fst get;
  on_snd (fs_remove_dir_all (ds_temp_file_path s)).
End dir_state.

(** ** [dir/state/writer.rs], [dir/state/uwriter.rs]: the collectors *)

Section dir_collectors.
Context {P : Platform} {BP : BloomPlatform} {PP : PhfPlatform}.

(** The trusted collector is the hasher of directories. *)
Definition dw_on_insert (e : BorrowedEntry) (_last_entry : bool) : M DirectoryHasher (Result unit InsertError) :=
  map_err InvalidEntry (dir_insert e).

Definition dw_on_commit : M DirectoryHasher (Result (Bytes * list Bytes) DirCommitError) :=
  root_hash ← dir_finalize;
  d ← get;
  mret (Ok (root_hash, dh_tree d)).

#[global] Instance dir_writer_collector : WithDirCollector DirectoryHasher := {
  on_insert := dw_on_insert;
  on_commit := dw_on_commit
}.

(** [DirWriter]. *)
Definition dir_writer_new (bucket : Bucket) (num_entries : Z)
    : M Disk (Result (InnerDirState DirectoryHasher) WriteError) :=
  map_err WriteIOError (new_with_collector bucket num_entries dir_new).

Definition dir_writer_insert (e : BorrowedEntry)
    : M (InnerDirState DirectoryHasher * Disk) (Result unit InsertError) := insert_entry e false.

Record DirUWriterCollector := mkDirUWriterCollector {
  du_hasher : IncrementalVerifier;
  du_root_hash : Bytes;
  du_counter : Z;
  du_last_entry : option BorrowedEntry
}.

Definition du_new (hash : Bytes) : option DirUWriterCollector :=
  '(_, hasher) ← set_root_hash hash (verifier_new IV_DIR (WithHashTreeCollector 0 []));
  Some (mkDirUWriterCollector hasher hash 0 None).

Definition du_verifier {A} (m : M IncrementalVerifier A) : M DirUWriterCollector A := λ c,
  match m (du_hasher c) with
  | Some (a, v) => Some (a, mkDirUWriterCollector v (du_root_hash c) (du_counter c) (du_last_entry c))
  | None => None
  end.

Definition du_feed_proof (proof : Bytes) : M DirUWriterCollector (Result unit VerificationError) :=
  du_verifier (feed_proof proof).

Definition create_hash (e : BorrowedEntry) (last_entry : bool) : M DirUWriterCollector Bytes :=
  c ← get;
  let buffer := write_entry_transcript e (du_counter c) (last_entry && bool_decide (du_counter c = 0)) in
  hash ← unwrap (iv_hash_all_at_once IV_DIR buffer);
  modify (λ c, mkDirUWriterCollector (du_hasher c) (du_root_hash c) (du_counter c +[16] 1) (du_last_entry c));;
  mret hash.

Definition du_on_insert (e : BorrowedEntry) (last_entry : bool) : M DirUWriterCollector (Result unit InsertError) :=
  if last_entry then
    modify (λ c, mkDirUWriterCollector (du_hasher c) (du_root_hash c) (du_counter c) (Some e));;
    mret (Ok tt)
  else
    hash ← create_hash e last_entry;
    map_err IncrementalVerification (du_verifier (verify_hash hash)).

(** [None] is the panic on a verifier that is not finished. *)
Definition du_on_commit : M DirUWriterCollector (Result (Bytes * list Bytes) DirCommitError) :=
  c ← get;
  (match du_last_entry c with
   | Some e =>
       hash ← create_hash e true;
       map_err (λ e, CommitInsertError (IncrementalVerification e)) (du_verifier (verify_hash hash))
   | None => mret (Ok tt)
   end);;?
  c ← get;
  tree ← unwrap (finalize (du_hasher c));
  mret (Ok (du_root_hash c, tree)).

#[global] Instance dir_untrusted_collector : WithDirCollector DirUWriterCollector := {
  on_insert := du_on_insert;
  on_commit := du_on_commit
}.

(** [UntrustedDirWriter]. *)
Definition untrusted_dir_new (bucket : Bucket) (num_entries : Z) (hash : Bytes)
    : M Disk (Result (InnerDirState DirUWriterCollector) WriteError) :=
  collector ← unwrap (du_new hash);
  map_err WriteIOError (new_with_collector bucket num_entries collector).

Definition untrusted_dir_feed_proof (proof : Bytes)
    : M (InnerDirState DirUWriterCollector * Disk) (Result unit VerificationError) :=
  on_dir_collector (du_feed_proof proof).
End dir_collectors.
