(* ===== verification/DirReader.v ===== *)
(** * DirReader: reading a stored directory

    [lib/b3fs/src/bucket/dir/reader.rs] and [dir/iter.rs]: the lookup of a name, and
    the stream of all entries, a state machine that is polled; and the iterator of
    [lib/b3fs/src/sync/bucket/dir/iter.rs], which does the same without futures.  A
    lookup returns slices that it forces to a longer lifetime; [FoundEntry] says
    whether the memory behind them is still there. *)

From S2P Require Import Prelude Types Codec HashTree ProofBuf Blake3 Verifier DirHasher ByteHasher Bucket AsyncTree Phf DirBucket.
From stdpp Require Import base list gmap strings.
From Stdlib Require Import ZArith Lia.
Open Scope Z_scope.

(** ** UTF-8 *)

(** [String::from_utf8] accepts a well-formed sequence. *)
Definition byte_in (a b x : Z) : bool := bool_decide (a ≤ x ≤ b).

Fixpoint is_utf8 (l : Bytes) : bool :=
  match l with
  | [] => true
  | a :: l =>
      if byte_in 0 127 a then is_utf8 l
      else
        match l with
        | [] => false
        | b :: l =>
            if byte_in 194 223 a then byte_in 128 191 b && is_utf8 l
            else
              match l with
              | [] => false
              | c :: l =>
                  if byte_in 224 239 a then
                    (if bool_decide (a = 224) then byte_in 160 191 b
                     else if bool_decide (a = 237) then byte_in 128 159 b else byte_in 128 191 b)
                    && byte_in 128 191 c && is_utf8 l
                  else
                    match l with
                    | [] => false
                    | d :: l =>
                        byte_in 240 244 a
                        && (if bool_decide (a = 240) then byte_in 144 191 b
                            else if bool_decide (a = 244) then byte_in 128 143 b else byte_in 128 191 b)
                        && byte_in 128 191 c && byte_in 128 191 d && is_utf8 l
                    end
              end
        end
  end.

(** ** The file *)

Definition fs_try_clone : M Disk (Result unit IoError) := io (mret (Ok tt)).

(** The bytes up to the first 0 and with it, or to the end. *)
Fixpoint until_zero (l : Bytes) : Bytes :=
  match l with
  | [] => []
  | b :: l => if bool_decide (b = 0) then [b] else b :: until_zero l
  end.
Definition fs_read_until (path : Path) (start : Z) : M Disk (Result Bytes IoError) :=
  io (d ← get;
      mret (match files d !! path with
            | Some data => Ok (until_zero (drop (Z.to_nat start) data))
            | None => Err NotFound
            end)).

(** ** [B3Dir] *)

Section reader.
Context {BP : BloomPlatform} {PP : PhfPlatform}.

Record B3Dir := mkB3Dir {
  bd_num_entries : Z;
  bd_file : Path;
  bd_bloom_filter : option BloomFilter;
  bd_positions : HeaderPositions;
  bd_phf_table : option HasherState
}.

Definition b3dir_new (num_entries : Z) (file : Path) : B3Dir :=
  mkB3Dir (wrap 16 num_entries) file None (positions_new num_entries) None.

(** [ContentHeader::into_dir], [B3Dir::hashtree]. *)
Definition into_dir (h : ContentHeader) : option B3Dir :=
  if is_file h then None else Some (b3dir_new (num_entries h) (header_file h)).
Definition dir_hashtree : M (B3Dir * Disk) (Result AsyncHashTree ReadError) :=
  b ← on_fst get;
  map_err ReadingFile (on_snd fs_try_clone);;?
  mret (Ok (at_new (bd_file b) (bd_num_entries b))).

(** A clone of the file at a position; the position is an argument of the reads. *)
Definition position_file : M Disk (Result unit ReadError) :=
  map_err (λ _, RefFile) fs_try_clone;;?
  map_err (λ _, RefFile) fs_seek.

Definition read_le (path : Path) (position : Z) (len : nat) : M Disk (Result Z ReadError) :=
  bytes ←? map_err ReadingFile (fs_read_exact path position (Z.of_nat len));
  mret (Ok (from_le_bytes bytes)).

Definition get_bloom_filter : M (B3Dir * Disk) (Result BloomFilter ReadError) :=
  b ← on_fst get;
  match bd_bloom_filter b with
  | Some filter => mret (Ok filter)
  | None =>
      let position := position_start_bloom_filter (bd_positions b) in
      let bloom_filter_len := bloom_filter_len (bd_positions b) in
      on_snd position_file;;?
      hashes ←? on_snd (read_le (bd_file b) position 4);
      bloom_filter ←? map_err ReadingFile (on_snd (fs_read_exact (bd_file b) (position + 4) bloom_filter_len));
      if negb (bool_decide (zlength bloom_filter = bloom_filter_len)) then mret (Err InvalidBloomFilter)
      else
        let filter := bloom_from bloom_filter hashes in
        on_fst (modify (λ b, mkB3Dir (bd_num_entries b) (bd_file b) (Some filter) (bd_positions b) (bd_phf_table b)));;
        mret (Ok filter)
  end.

(** The loops over the displacements and over the slots. *)
Fixpoint read_disps (path : Path) (position : Z) (n : nat) : M Disk (Result (list (Z * Z)) ReadError) :=
  match n with
  | O => mret (Ok [])
  | S n =>
      d1 ←? read_le path position 2;
      d2 ←? read_le path (position + 2) 2;
      rest ←? read_disps path (position + 4) n;
      mret (Ok ((d1, d2) :: rest))
  end.
Fixpoint read_map (path : Path) (position : Z) (n : nat) : M Disk (Result (list Z) ReadError) :=
  match n with
  | O => mret (Ok [])
  | S n =>
      offset ←? read_le path position 4;
      rest ←? read_map path (position + 4) n;
      mret (Ok (offset :: rest))
  end.

Definition get_phf_table : M (B3Dir * Disk) (Result HasherState ReadError) :=
  b ← on_fst get;
  match bd_phf_table b with
  | Some table => mret (Ok table)
  | None =>
      let position := position_start_phf_table (bd_positions b) in
      let n := Z.to_nat (bd_num_entries b) in
      on_snd position_file;;?
      key ←? on_snd (read_le (bd_file b) position 8);
      disps ←? on_snd (read_disps (bd_file b) (position + 8) n);
      map ←? on_snd (read_map (bd_file b) (position + 8 + 4 * Z.of_nat n) n);
      let table := mkHasherState key disps map in
      on_fst (modify (λ b, mkB3Dir (bd_num_entries b) (bd_file b) (bd_bloom_filter b) (bd_positions b) (Some table)));;
      mret (Ok table)
  end.

(** [None] is the panic of the remainder by 0. *)
Definition get_entry_offset (name : Bytes) (phf_table : HasherState) : M (B3Dir * Disk) (Result Z ReadError) :=
  b ← on_fst get;
  let hashes := phf_hash name (hs_key phf_table) in
  let buckets_len := calculate_buckets_len (bd_num_entries b) in
  if bool_decide (buckets_len = 0) then panic
  else
    let bucket := hash_g hashes mod buckets_len in
    let bucket_offset := phf_table_start_disps (bd_positions b) +[64] wrap 64 (bucket * 4) in
    on_snd position_file;;?
    bucket_keys ←? map_err ReadingFile (on_snd (fs_read_exact (bd_file b) bucket_offset 4));
    let d1 := from_le_bytes (take 2 bucket_keys) in
    let d2 := from_le_bytes (drop 2 bucket_keys) in
    let idx := displace (hash_f1 hashes) (hash_f2 hashes) d1 d2 mod bd_num_entries b in
    let map_offset := (phf_table_start_disps (bd_positions b) +[64] wrap 64 (buckets_len * 4)) +[64] wrap 64 (idx * 4) in
    on_snd position_file;;?
    entry_rel_offset ←? on_snd (read_le (bd_file b) map_offset 4);
    mret (Ok (wrap 32 (position_start_entries (bd_positions b)) +[32] entry_rel_offset)).

(** Where the link of an entry that is found points: to a box that is leaked, or to a
    local buffer of the lookup, which is freed when the lookup returns.  [found] is what
    was there when it returned; a caller can rely on it only for a leaked box. *)
Inductive Memory := Leaked | Freed.

Record FoundEntry := mkFoundEntry {
  found : BorrowedEntry;
  found_in : Memory
}.

(** [check_eof!]: the end of the file is no entry. *)
Definition check_eof {A} (r : Result A IoError) (k : A → M (B3Dir * Disk) (Result (option FoundEntry) ReadError))
    : M (B3Dir * Disk) (Result (option FoundEntry) ReadError) :=
  match r with
  | Ok a => k a
  | Err UnexpectedEof => mret (Ok None)
  | Err e => mret (Err (ReadingFile e))
  end.

(** The names are printed as UTF-8, and the prefix of the stored name is compared;
    both may panic.  The link of a symlink is leaked; the hash of a content stays in the
    local buffer, a reference to which is transmuted to a longer lifetime. *)
Definition read_entry_at_offset (name : Bytes) (offset : Z)
    : M (B3Dir * Disk) (Result (option FoundEntry) ReadError) :=
  b ← on_fst get;
  on_snd position_file;;?
  flag ← on_snd (fs_read_exact (bd_file b) offset 1);
  check_eof flag (λ flag,
    let flag := default 0 (head flag) in
    entry_name ← on_snd (fs_read_until (bd_file b) (offset + 1));
    check_eof entry_name (λ entry_name,
      if negb (is_utf8 entry_name && is_utf8 name) then panic
      else if bool_decide (length entry_name < length name)%nat then panic
      else if negb (bool_decide (take (length name) entry_name = name)) then mret (Ok None)
      else
        on_snd fs_seek;;
        let position := offset + 1 + zlength entry_name in
        if bool_decide (flag = B3_DIR_IS_SYM_LINK) then
          content ←? map_err ReadingFile (on_snd (fs_read_until (bd_file b) position));
          match content with
          | [] => panic
          | _ => mret (Ok (Some (mkFoundEntry (mkBorrowedEntry name (LinkPath (removelast content))) Leaked)))
          end
        else
          buffer ←? map_err ReadingFile (on_snd (fs_read_exact (bd_file b) position 32));
          mret (Ok (Some (mkFoundEntry (mkBorrowedEntry name (LinkContent buffer)) Freed))))).

Definition get_entry (name : Bytes) : M (B3Dir * Disk) (Result (option FoundEntry) ReadError) :=
  bloom_filter ←? get_bloom_filter;
  if bloom_contains bloom_filter name then
    phf_table ←? get_phf_table;
    entry_offset ←? get_entry_offset name phf_table;
    read_entry_at_offset name entry_offset
  else mret (Ok None).
End reader.

(** ** [DirEntriesIter] *)

Inductive Poll (A : Type) := Ready (a : A) | Pending.
Arguments Ready {A}.
Arguments Pending {A}.

Inductive IterState :=
| ReadPosition | ReadFlag | ReadEntryName | ReadContent | ReadPath | Eof
| WaitingReadPosition | WaitingReadFlag | WaitingReadEntryName | WaitingReadContent | WaitingReadPath.

(** The cursor is that of the reader; a future that has returned must not be polled
    again. *)
Record DirEntriesIter := mkDirEntriesIter {
  it_file : Path;
  it_cursor : Z;
  it_position : Z;
  it_state : IterState;
  it_entry_name : Bytes;
  it_flag : Z;
  it_returned : bool
}.

Definition entries_iter_new (file : Path) (position_start_entries : Z) : DirEntriesIter :=
  mkDirEntriesIter file 0 position_start_entries ReadPosition [] 0 false.

(** [B3Dir::entries]. *)
Definition dir_entries {BP : BloomPlatform} : M (B3Dir * Disk) (Result DirEntriesIter ReadError) :=
  b ← on_fst get;
  map_err ReadingFile (on_snd fs_try_clone);;?
  mret (Ok (entries_iter_new (bd_file b) (position_start_entries (bd_positions b)))).

Definition it_move (cursor : Z) (state : IterState) (it : DirEntriesIter) : DirEntriesIter :=
  mkDirEntriesIter (it_file it) cursor (it_position it) state (it_entry_name it) (it_flag it) false.

Definition it_goto (state : IterState) (it : DirEntriesIter) : DirEntriesIter := it_move (it_cursor it) state it.

(** The stream and the disk. *)
Abbreviation Item := (Result BorrowedEntry ReadError) (only parsing).
Abbreviation Stream := (M (DirEntriesIter * Disk) (Poll (option Item))) (only parsing).

(** [on_future!]: [ready] tells whether the operation is done. *)
Definition on_future {A} (ready : bool) (future : M Disk (Result A IoError)) (on_ok : A → Stream) : Stream :=
  it ← on_fst get;
  if it_returned it then panic
  else if negb ready then mret Pending
  else
    r ← on_snd future;
    match r with
    | Ok a => on_ok a
    | Err UnexpectedEof => on_fst (modify (it_goto Eof));; mret (Ready None)
    | Err e =>
        on_fst (modify (λ it, mkDirEntriesIter (it_file it) (it_cursor it) (it_position it) (it_state it)
          (it_entry_name it) (it_flag it) true));;
        mret (Ready (Some (Err (ReadingFile e))))
    end.

(** An entry is given out, and the next one is at the new position. *)
Definition it_yield (len : Z) (link : BorrowedLink) : Stream :=
  it ← on_fst get;
  on_fst (modify (λ it, mkDirEntriesIter (it_file it) (it_cursor it)
    (it_position it +[64] ((zlength (it_entry_name it) +[64] len) +[64] 2)) ReadPosition
    (it_entry_name it) (it_flag it) false));;
  mret (Ready (Some (Ok (mkBorrowedEntry (it_entry_name it) link)))).

Definition poll_next (ready : bool) : Stream :=
  it ← on_fst get;
  let start state := on_fst (modify (it_goto state));; mret Pending in
  match it_state it with
  | Eof => mret (Ready None)
  | ReadPosition =>
      on_fst (modify (λ it, mkDirEntriesIter (it_file it) (it_cursor it) (it_position it)
        WaitingReadPosition [] 0 false));;
      mret Pending
  | WaitingReadPosition =>
      on_future ready fs_seek (λ _,
        on_fst (modify (it_move (it_position it) ReadFlag));; mret Pending)
  | ReadFlag => start WaitingReadFlag
  | WaitingReadFlag =>
      on_future ready (fs_read_exact (it_file it) (it_cursor it) 1) (λ r,
        on_fst (modify (λ it, mkDirEntriesIter (it_file it) (it_cursor it + 1) (it_position it) ReadEntryName
          (it_entry_name it) (default 0 (head r)) false));;
        mret Pending)
  | ReadEntryName => start WaitingReadEntryName
  | WaitingReadEntryName =>
      let state := if negb (bool_decide (Z.land (it_flag it) B3_DIR_IS_SYM_LINK = 0)) then ReadPath else ReadContent in
      on_future ready (fs_read_until (it_file it) (it_cursor it)) (λ r,
        on_fst (modify (λ it, mkDirEntriesIter (it_file it) (it_cursor it + zlength r) (it_position it) state
          (removelast r) (it_flag it) false));;
        mret Pending)
  | ReadContent => start WaitingReadContent
  | WaitingReadContent =>
      on_future ready (fs_read_exact (it_file it) (it_cursor it) 32) (λ buffer_content,
        it_yield 32 (LinkContent buffer_content))
  | ReadPath => start WaitingReadPath
  | WaitingReadPath =>
      on_future ready (fs_read_until (it_file it) (it_cursor it)) (λ buffer_link,
        match buffer_link with
        | [] => panic
        | _ => it_yield (zlength buffer_link) (LinkPath (removelast buffer_link))
        end)
  end.

(** [next]: poll until something is ready; with it the rest of the schedule. *)
Fixpoint stream_next (schedule : list bool) : M (DirEntriesIter * Disk) (option (option Item * list bool)) :=
  match schedule with
  | [] => mret None
  | ready :: schedule =>
      r ← poll_next ready;
      match r with
      | Ready item => mret (Some (item, schedule))
      | Pending => stream_next schedule
      end
  end.

(** ** The iterator of [sync] *)

Record SyncEntriesIter := mkSyncEntriesIter {
  sy_file : Path;
  sy_position : Z
}.

(** An error of the file system ends the iteration, or is given out. *)
Definition sync_read {A} (m : M Disk (Result A IoError))
    (k : A → M (SyncEntriesIter * Disk) (option Item)) : M (SyncEntriesIter * Disk) (option Item) :=
  r ← on_snd m;
  match r with
  | Ok a => k a
  | Err UnexpectedEof => mret None
  | Err e => mret (Some (Err (ReadingFile e)))
  end.

(** The first byte is read twice: what the second read gets is taken for the flag. *)
Definition sync_next : M (SyncEntriesIter * Disk) (option Item) :=
  it ← on_fst get;
  let pos := sy_position it in
  sync_read fs_seek (λ _,
  result ← on_snd (fs_read_exact (sy_file it) pos 1);
  let pos := match result with Ok _ => pos + 1 | Err _ => pos end in
  sync_read (fs_read_exact (sy_file it) pos 1) (λ buf,
  let flag := default 0 (head buf) in
  sync_read (fs_read_until (sy_file it) (pos + 1)) (λ name_buffer,
  let pos := pos + 1 + zlength name_buffer in
  let entry_name := removelast name_buffer in
  let yield len link :=
    on_fst (modify (λ it, mkSyncEntriesIter (sy_file it) (sy_position it +[64] ((zlength entry_name +[64] len) +[64] 2))));;
    mret (Some (Ok (mkBorrowedEntry entry_name link))) in
  if negb (bool_decide (Z.land flag B3_DIR_IS_SYM_LINK = 0)) then
    sync_read (fs_read_until (sy_file it) pos) (λ path_buffer,
      yield (zlength path_buffer) (LinkPath (removelast path_buffer)))
  else
    sync_read (fs_read_exact (sy_file it) pos 32) (λ content_buffer,
      yield 32 (LinkContent content_buffer))))).
