(* ===== verification/DirWrite.v ===== *)
(** * DirWrite: the writes of a directory

    What [new_with_collector], [insert_entry] and [commit] of
    [lib/b3fs/src/bucket/dir/state/mod.rs] do to the state of a writer and to its
    file on a disk that does not fail, for any collector; and that failures of the
    disk are handed on. *)

From S2P Require Import Prelude Types Codec HashTree ProofBuf Blake3 Verifier DirHasher ByteHasher Bucket BucketWrite BucketFaults AsyncTree Phf DirBucket.
From stdpp Require Import base list gmap strings.
From Stdlib Require Import ZArith Lia.
Open Scope Z_scope.

(** Removes wrapping where nothing wraps around, from the inside. *)
Ltac unwrap_small :=
  repeat match goal with
  | |- context [wrap ?w ?x] =>
      lazymatch x with
      | context [wrap _ _] => fail
      | _ => rewrite (wrap_small w x) by (unfold in_width; lia)
      end
  end.

(** ** The file of a directory *)

Definition entries_bytes (es : list BorrowedEntry) : Bytes := concat (entry_bytes <$> es).

(** The names with the positions of their entries. *)
Fixpoint items_from (position : Z) (es : list BorrowedEntry) : list (Bytes * Z) :=
  match es with
  | [] => []
  | e :: es => (entry_name e, position) :: items_from (position +[32] wrap 32 (zlength (entry_bytes e))) es
  end.
Definition dir_items (es : list BorrowedEntry) : list (Bytes * Z) := items_from 0 es.

Definition end_position (position : Z) (es : list BorrowedEntry) : Z :=
  foldl (λ position e, position +[32] wrap 32 (zlength (entry_bytes e))) position es.

Lemma items_from_snoc position es e :
  items_from position (es ++ [e]) = items_from position es ++ [(entry_name e, end_position position es)].
Proof. revert position. induction es as [|x es IH]; intros position; simpl; [done|]. by rewrite IH. Qed.

Lemma items_from_length position es : length (items_from position es) = length es.
Proof. revert position. induction es as [|x es IH]; intros position; simpl; [done|]. by rewrite IH. Qed.

Lemma entries_bytes_snoc es e : entries_bytes (es ++ [e]) = entries_bytes es ++ entry_bytes e.
Proof. unfold entries_bytes. rewrite fmap_app, concat_app. simpl. by rewrite app_nil_r. Qed.

(** The head of the file. *)
Definition dir_head (n : Z) (hashes : Bytes) (bloom_hashes : Z) (bloom : Bytes) (key : Z) (disps map : Bytes) : Bytes :=
  to_le_bytes 4 HEADER_DIR_VERSION ++ to_le_bytes 4 n ++ hashes ++ to_le_bytes 4 bloom_hashes ++ bloom
  ++ to_le_bytes 8 key ++ disps ++ map.

Section files.
Context {BP : BloomPlatform} {BL : BloomLaws BP} {PP : PhfPlatform}.

Definition bloom_all (n : Z) (es : list BorrowedEntry) : BloomFilter :=
  foldl (λ f e, bloom_add (entry_name e) f) (bloom_new n) es.

Definition bloom_len (n : Z) : nat := length (bloom_bytes (bloom_new n)).

Lemma bloom_all_length n es : length (bloom_bytes (bloom_all n es)) = bloom_len n.
Proof.
  unfold bloom_all. induction es as [|e es IH] using rev_ind; [done|]. by rewrite foldl_snoc, bloom_add_length.
Qed.

Lemma bloom_all_contains n es e : e ∈ es → bloom_contains (bloom_all n es) (entry_name e) = true.
Proof.
  unfold bloom_all. induction es as [|x es IH] using rev_ind; intros He; [by apply not_elem_of_nil in He|].
  rewrite foldl_snoc. apply elem_of_app in He as [He|He%list_elem_of_singleton].
  - by apply bloom_add_other, IH.
  - subst. apply bloom_add_self.
Qed.

(** The space for the head, and the head at the end. *)
Definition blank_head (n : Z) : Bytes :=
  dir_head n (replicate (Z.to_nat (64 * n - 32)) 0) (bloom_hashes (bloom_new n)) (replicate (bloom_len n) 0) 0
    (replicate (Z.to_nat (4 * n)) 0) (replicate (Z.to_nat (4 * n)) 0).
Definition final_head (n : Z) (hashes : Bytes) (es : list BorrowedEntry) (st : HasherState) : Bytes :=
  dir_head n hashes (bloom_hashes (bloom_all n es)) (bloom_bytes (bloom_all n es)) (hs_key st)
    (disp_bytes (hs_disps st)) (map_bytes (hs_map st)).

Lemma disp_bytes_length disps : length (disp_bytes disps) = (4 * length disps)%nat.
Proof.
  unfold disp_bytes. induction disps as [|d disps IH]; [done|]. cbn [fmap list_fmap concat length].
  rewrite !length_app, IH, !to_le_bytes_length. lia.
Qed.

Lemma map_bytes_length map : length (map_bytes map) = (4 * length map)%nat.
Proof.
  unfold map_bytes. induction map as [|x map IH]; [done|]. cbn [fmap list_fmap concat length].
  rewrite !length_app, IH, !to_le_bytes_length. lia.
Qed.

(** The hashes in their space. *)
Definition hash_space (n : Z) (tree : list Bytes) : Bytes :=
  concat tree ++ replicate (Z.to_nat (64 * n - 32) - length (concat tree)) 0.

Lemma hash_space_full n tree : length (concat tree) = Z.to_nat (64 * n - 32) → hash_space n tree = concat tree.
Proof. intros Hl. unfold hash_space. by rewrite Hl, Nat.sub_diag, app_nil_r. Qed.

Lemma hash_space_length n tree :
  (length (concat tree) ≤ Z.to_nat (64 * n - 32))%nat → length (hash_space n tree) = Z.to_nat (64 * n - 32).
Proof. intros Hl. unfold hash_space. rewrite length_app, length_replicate. lia. Qed.

(** The positions without wrapping around. *)
Lemma positions_run n :
  1 ≤ n ≤ 65535 →
  let l := Z.of_nat (bloom_len n) in
  positions_new n = mkHeaderPositions (64 * n - 32) (64 * n - 24) 4 l (64 * n - 20 + l) (72 * n - 12 + l) (4 * n) (4 * n) ∧
  0 ≤ l < 2 ^ 31.
Proof.
  intros Hn l. pose proof (bloom_size n ltac:(lia)) as Hl. unfold zlength in Hl. fold (bloom_len n) in Hl. fold l in Hl.
  split; [|lia]. unfold positions_new, PHF_TABLE_RANDOMIZED_KEY_SIZE, POSITION_START_HASHES.
  rewrite buckets_len_pos by lia. unfold zlength. fold (bloom_len n). fold l.
  unwrap_small. f_equal; lia.
Qed.

Lemma starts_run n :
  1 ≤ n ≤ 65535 →
  let l := Z.of_nat (bloom_len n) in
  bloom_filter_start_entries (positions_new n) = 64 * n - 20 ∧
  phf_table_start_disps (positions_new n) = 64 * n - 12 + l ∧
  phf_table_start_entries (positions_new n) = 68 * n - 12 + l.
Proof.
  intros Hn l. destruct (positions_run n Hn) as [-> Hl]. fold l in Hl |- *.
  unfold bloom_filter_start_entries, phf_table_start_disps, phf_table_start_entries, PHF_TABLE_RANDOMIZED_KEY_SIZE.
  cbn [position_start_bloom_filter bloom_filter_hashes_len position_start_phf_table phf_disps_len].
  unwrap_small. lia.
Qed.

(** A part of the file is overwritten. *)
Lemma write_at_run path x x' a y f ns offset :
  length x' = length x → length a = offset →
  fs_write_at path x' offset (mkDisk (<[path:=a ++ x ++ y]> f) ns [])
  = Some (Ok tt, mkDisk (<[path:=a ++ x' ++ y]> f) ns []).
Proof.
  intros Hx <-. unfold fs_write_at, io. unfold_M. cbn [faults files set_files names mret]. unfold set_files. cbn.
  rewrite lookup_insert_eq. cbn. rewrite insert_insert_eq, take_app_length.
  rewrite <-drop_drop, drop_app_length, Hx, drop_app_length. done.
Qed.

Lemma write_all_run path x y f ns :
  fs_write_all path y (mkDisk (<[path:=x]> f) ns []) = Some (Ok tt, mkDisk (<[path:=x ++ y]> f) ns []).
Proof.
  unfold fs_write_all, io. unfold_M. cbn. unfold set_files. cbn. by rewrite lookup_insert_eq, insert_insert_eq.
Qed.

Lemma zeros_run n : n < 2 ^ 63 → zeros n = Some (replicate (Z.to_nat n) 0).
Proof. intros Hn. unfold zeros. by rewrite bool_decide_false by lia. Qed.

Context (b : Bucket) (t hn : Bytes) (f0 : gmap Path Bytes) (ns : list Bytes) (n : Z) (Hn : 1 ≤ n ≤ 65535).
#[local] Abbreviation path := (tmp b t hn).

(** The disk with the file of the directory. *)
Definition dir_disk (data : Bytes) : Disk := mkDisk (<[path:=data]> f0) ns [].

Lemma header_new_run bh :
  dir_header_from_wal_path (wal b t) n bh (mkDisk f0 (hn :: ns) []) =
    Some (Ok (mkDirHeaderFile path (positions_new n)),
      dir_disk (dir_head n (replicate (Z.to_nat (64 * n - 32)) 0) bh (replicate (bloom_len n) 0) 0
        (replicate (Z.to_nat (4 * n)) 0) (replicate (Z.to_nat (4 * n)) 0))).
Proof.
  destruct (positions_run n Hn) as [Hp Hl]. unfold dir_header_from_wal_path.
  erewrite bind_run by reflexivity. fold path. unfold dir_disk.
  etrans; [apply try_bind_ok; reflexivity|]. cbn beta. unfold set_files. cbn [files names faults].
  rewrite Hp. cbn [length_hashes bloom_filter_len phf_disps_len phf_entries_len].
  rewrite !zeros_run by lia. cbn [unwrap].
  rewrite (wrap_small 32 n) by (unfold in_width; lia).
  rewrite (try_bind_ok _ _ _ _ _ (write_all_run _ _ _ _ _)), (try_bind_ok _ _ _ _ _ (write_all_run _ _ _ _ _)).
  erewrite bind_run by reflexivity. rewrite (try_bind_ok _ _ _ _ _ (write_all_run _ _ _ _ _)).
  rewrite (try_bind_ok _ _ _ _ _ (write_all_run _ _ _ _ _)). erewrite bind_run by reflexivity.
  rewrite (try_bind_ok _ _ _ _ _ (write_all_run _ _ _ _ _)), (try_bind_ok _ _ _ _ _ (write_all_run _ _ _ _ _)).
  erewrite bind_run by reflexivity. rewrite (try_bind_ok _ _ _ _ _ (write_all_run _ _ _ _ _)).
  erewrite bind_run by reflexivity. rewrite (try_bind_ok _ _ _ _ _ (write_all_run _ _ _ _ _)).
  unfold try_bind. unfold_M. cbn. unfold dir_head. rewrite Nat2Z.id, <-!app_assoc. done.
Qed.
(** ** The state of a writer *)

Context {T : Type} {W : WithDirCollector T}.

Definition dir_state (es : list BorrowedEntry) (c : T) : InnerDirState T :=
  mkInnerDirState b n (zlength es) (dir_items es) (end_position 0 es) (wal b t)
    (mkDirHeaderFile path (positions_new n)) (bloom_all n es) c.

Definition writing_dir (es : list BorrowedEntry) (c : T) : InnerDirState T * Disk :=
  (dir_state es c, dir_disk (blank_head n ++ entries_bytes es)).

Lemma dir_new_run c :
  new_with_collector b n c (mkDisk f0 (t :: hn :: ns) []) = Some (Ok (dir_state [] c), dir_disk (blank_head n ++ [])).
Proof.
  unfold new_with_collector, get_new_wal_path. erewrite bind_run by reflexivity. fold (wal b t).
  etrans; [apply try_bind_ok; reflexivity|]. cbn beta.
  etrans; [apply try_bind_ok, header_new_run|]. unfold blank_head. rewrite app_nil_r. reflexivity.
Qed.

(** An insertion goes to the file before the collector decides on it. *)
Lemma insert_entry_run es c e last :
  zlength es < n →
  insert_entry e last (writing_dir es c) =
    match on_insert e last c with
    | Some (r, c') => Some (r, writing_dir (es ++ [e]) c')
    | None => None
    end.
Proof.
  intros Hlt. pose proof (zlength_nonneg es). unfold insert_entry, writing_dir.
  erewrite bind_run by reflexivity. rewrite fst_get. cbn [fst snd].
  rewrite bool_decide_false by (cbn [ds_count dir_state ds_num_entries ds_insertions]; unwrap_small; lia).
  erewrite bind_run by reflexivity.
  erewrite try_bind_ok.
  2: { apply map_err_ok, on_snd_run. unfold header_insert_entry. cbn [ds_count ds_header_file dir_state hf_path].
       etrans; [apply try_bind_ok; unfold dir_disk; apply write_all_run|]. reflexivity. }
  erewrite bind_run by reflexivity. unfold on_dir_collector. cbn [fst snd ds_collector ds_push ds_advance ds_count dir_state].
  destruct (on_insert e last c) as [[r c']|]; [|done]. do 2 f_equal. f_equal.
  - unfold ds_with, dir_state. cbn. unfold dir_items, phf_push, bloom_all. rewrite items_from_snoc.
    unfold end_position. rewrite !foldl_snoc, zlength_app. change (zlength [e]) with 1.
    rewrite wrap_small by (unfold in_width; lia). done.
  - unfold dir_disk. by rewrite entries_bytes_snoc, app_assoc.
Qed.

Lemma insert_entry_full es c e last :
  n ≤ zlength es < 2 ^ 64 - 1 → ∃ s', insert_entry e last (writing_dir es c) = Some (Err TooManyInserted, s').
Proof.
  intros Hge. eexists. unfold insert_entry, writing_dir. erewrite bind_run by reflexivity. rewrite fst_get. cbn [fst snd].
  rewrite bool_decide_true by (cbn [ds_count dir_state ds_num_entries ds_insertions]; unwrap_small; lia). reflexivity.
Qed.

(** The head is filled in, and the file moved. *)
Lemma header_commit_run es tree root st :
  (length (concat tree) ≤ Z.to_nat (64 * n - 32))%nat → zlength (hs_disps st) = n → zlength (hs_map st) = n →
  dir_header_commit (mkDirHeaderFile path (positions_new n)) b root tree (bloom_all n es) st
    (dir_disk (blank_head n ++ entries_bytes es)) =
  Some (Ok tt, mkDisk (<[get_header_path b root:=final_head n (hash_space n tree) es st ++ entries_bytes es]> (delete path f0)) ns []).
Proof.
  intros Htree Hd Hm. unfold zlength in Hd, Hm. destruct (positions_run n Hn) as [Hp Hl]. destruct (starts_run n Hn) as (H1 & H2 & H3).
  unfold dir_header_commit. cbn [hf_path hf_positions]. rewrite H1, H2, H3, Hp.
  cbn [position_start_bloom_filter bloom_filter_len position_start_phf_table]. clear H1 H2 H3 Hp.
  pose proof (bloom_all_length n es) as Hb. unfold dir_disk, blank_head, final_head, dir_head. rewrite <-!app_assoc.
  set (v := to_le_bytes 4 HEADER_DIR_VERSION). set (cnt := to_le_bytes 4 n). set (ent := entries_bytes es).
  assert (length v = 4%nat ∧ length cnt = 4%nat) as [Hv Hc] by (split; apply to_le_bytes_length). clearbody v cnt ent.
  rewrite (app_assoc v cnt). set (space := length (concat tree)) in *.
  replace (Z.to_nat (64 * n - 32)) with (space + (Z.to_nat (64 * n - 32) - space))%nat at 1 by lia.
  rewrite replicate_add, <-(app_assoc (replicate space 0)).
  etrans; [apply try_bind_ok, map_err_ok, write_at_run; [by rewrite length_replicate|by rewrite length_app, Hv, Hc]|].
  rewrite (app_assoc (concat tree)). fold space. change (concat tree ++ replicate _ 0) with (hash_space n tree).
  pose proof (hash_space_length n tree Htree) as Hs. rewrite (app_assoc _ (hash_space n tree)).
  etrans; [apply try_bind_ok, map_err_ok, write_at_run; [by rewrite !to_le_bytes_length|rewrite !length_app; lia]|].
  unfold zlength. rewrite Hb, bool_decide_true by done. erewrite bind_run by reflexivity.
  rewrite (app_assoc _ (to_le_bytes 4 _)).
  etrans; [apply try_bind_ok, map_err_ok, write_at_run; [by rewrite Hb, length_replicate|rewrite !length_app, to_le_bytes_length; lia]|].
  rewrite (app_assoc _ (bloom_bytes _)).
  etrans; [apply try_bind_ok, write_at_run; [by rewrite !to_le_bytes_length|rewrite !length_app, to_le_bytes_length; lia]|].
  rewrite (app_assoc _ (to_le_bytes 8 _)).
  etrans; [apply try_bind_ok, write_at_run; [rewrite disp_bytes_length, length_replicate; lia|rewrite !length_app, !to_le_bytes_length; lia]|].
  rewrite (app_assoc _ (disp_bytes _)).
  etrans; [apply try_bind_ok, write_at_run;
    [rewrite map_bytes_length, length_replicate; lia|rewrite !length_app, !to_le_bytes_length, disp_bytes_length; lia]|].
  etrans; [apply try_bind_ok; reflexivity|]. cbn beta.
  erewrite rename_run by apply lookup_insert_eq. rewrite delete_insert_eq. by rewrite <-!app_assoc.
Qed.

Lemma dir_commit_run fuel es c root tree c' st :
  on_commit c = Some (Ok (root, tree), c') → (length (concat tree) ≤ Z.to_nat (64 * n - 32))%nat →
  phf_finalize fuel (dir_items es) = Some st → zlength (hs_disps st) = n → zlength (hs_map st) = n →
  dir_commit fuel (writing_dir es c) =
    Some (Ok root, (dir_state es c',
      mkDisk (<[get_header_path b root:=final_head n (hash_space n tree) es st ++ entries_bytes es]> (delete path f0)) ns [])).
Proof.
  intros Hc Htree Hst Hd Hm. unfold dir_commit, writing_dir.
  erewrite try_bind_ok by (unfold on_dir_collector; cbn [fst snd dir_state ds_collector]; by rewrite Hc).
  cbn beta iota. rewrite fst_get. cbn [ds_with dir_state ds_phf_generator ds_header_file ds_bucket ds_bloom_filter]. rewrite Hst. cbn [unwrap].
  erewrite bind_run by reflexivity. etrans; [apply try_bind_ok, map_err_ok, on_snd_run; by apply header_commit_run|].
  reflexivity.
Qed.
End files.
