(* ===== verification/DirStored.v ===== *)
(** * DirStored: directories that are written and read

    A session of a [DirWriter], and what the readers of
    [lib/b3fs/src/bucket/dir/reader.rs] and [dir/iter.rs] find in the file
    afterwards. *)

From S2P Require Import Prelude Types Codec HashTree ProofBuf Blake3 Blake3Tree Forest Verifier DirHasher ByteHasher ByteTree ContentHash Collectors ContentSteps Bucket BucketWrite BucketFaults AsyncTree Phf DirBucket DirReader DirWrite.
From stdpp Require Import base list gmap strings.
From Stdlib Require Import ZArith Lia.
Open Scope Z_scope.

(** ** The tree of a directory *)

Section hashes.
Context {P : Platform} {PL : PlatformLaws P}.
#[local] Abbreviation m := (iv_merge IV_DIR).
#[local] Arguments iv_merge : simpl never.

Lemma leaf_hash_length e i r : entry_wf e → entry_valid e = true → is_hash (leaf_hash e i r).
Proof.
  intros Hw Hv. pose proof (transcript_length e (wrap 16 i) r Hw Hv).
  eapply (hash_length IV_DIR); [|by apply hash_entry_leaf]. lia.
Qed.

Lemma dir_leaves_hashes es offset r : accepted es → Forall is_hash (dir_leaves es offset r).
Proof.
  intros Hacc. apply Forall_lookup. intros i h Hh. unfold dir_leaves in Hh. rewrite list_lookup_imap in Hh.
  destruct (es !! i) as [e|] eqn:He; [|done]. simplify_eq/=. apply (Forall_lookup_1 _ _ _ _ Hacc) in He as [Hw Hv].
  by apply leaf_hash_length.
Qed.

Lemma dir_tree_facts es :
  accepted es → es ≠ [] → zlength es ≤ 65535 →
  shaped (dir_tree es) ∧ leaves (dir_tree es) = dir_leaves es 0 (bool_decide (length es = 1%nat)) ∧
  count (dir_tree es) = zlength es ∧ Forall is_hash (post_order m true (dir_tree es)).
Proof.
  intros Hacc Hne Hn. set (l := dir_leaves es 0 (bool_decide (length es = 1%nat))).
  assert (zlength l = zlength es) as Hl by apply dir_leaves_length.
  destruct (tree_of_spec l) as [Hs Hlv]; [|lia|].
  { intros H0. rewrite H0 in Hl. destruct es; [done|]. unfold zlength in Hl. simpl in Hl. lia. }
  unfold dir_tree. fold l. split_and!; [done|done|unfold count; by rewrite Hlv|].
  apply post_order_hashes. rewrite Hlv. by apply dir_leaves_hashes.
Qed.

Lemma dir_array_length es :
  accepted es → es ≠ [] → zlength es ≤ 65535 →
  length (concat (post_order m true (dir_tree es))) = Z.to_nat (64 * zlength es - 32).
Proof.
  intros Hacc Hne Hn. destruct (dir_tree_facts es Hacc Hne Hn) as (_ & _ & Hc & Hh).
  rewrite concat_hashes_length by done. pose proof (post_order_length m true (dir_tree es)) as Hl. unfold zlength in *. lia.
Qed.

(** A directory with a hash, and the run of its hasher. *)
Lemma hash_dir_run es root :
  Forall entry_wf es → es ≠ [] → hash_dir es = Some (Ok root) →
  accepted es ∧ zlength es ≤ 65535 ∧ root = root_of m true (dir_tree es) ∧
  ∃ d d', insert_all es dir_new = Some (Ok tt, d) ∧ dir_finalize d = Some (root, d') ∧
    dh_tree d' = post_order m true (dir_tree es).
Proof.
  intros Hw Hne Hh. assert (dir_inv [] dir_new) as Hnew by (split; [constructor|done]).
  unfold hash_dir in Hh. case_bool_decide as Hn; [done|]. destruct (check_entries [] es) as [[]|] eqn:Hchk; [|done].
  destruct (insert_all_spec [] es dir_new Hnew Hw ltac:(done)) as [Hyes _].
  destruct Hyes as (d & Hrun & Hinv); [split; [done|cbn [app]; lia]|]. cbn [app] in Hinv.
  assert (accepted es) as Hacc by (apply Forall_and; split; [done|by eapply check_entries_valid]).
  assert (split_hash_merge (length es) es 0 true = Some root) as Hs.
  { destruct es; [done|]. destruct (split_hash_merge _ _ 0 true); [|done]. by simplify_eq/=. }
  rewrite split_hash_merge_tree in Hs; [|done|done|done|lia|lia]. cbn [andb] in Hs. injection Hs as Hs.
  fold (dir_tree es) in Hs. destruct (dir_finalize_run es d Hinv ltac:(lia) Hne) as (d' & Hfin & Htree).
  split_and!; [done|lia|done|]. exists d, d'. rewrite <-Hs. done.
Qed.
End hashes.

(** ** The offsets *)

Lemma entry_bytes_transcript e : entry_bytes e ++ [0; 0] = write_entry_transcript e 0 false.
Proof.
  unfold entry_bytes, write_entry_transcript. destruct (entry_link e); cbn [app Z.land Z.shiftr Z.shiftl];
    rewrite <-?app_assoc; cbn [app]; by rewrite <-?app_assoc.
Qed.

Lemma entry_bytes_length e : entry_wf e → entry_valid e = true → 0 < zlength (entry_bytes e) < 2 ^ 12.
Proof.
  intros Hw Hv. pose proof (transcript_length e 0 false Hw Hv) as Hl. rewrite <-entry_bytes_transcript, zlength_app in Hl.
  change (zlength [0; 0]) with 2 in Hl. split; [|lia]. unfold entry_bytes, zlength. destruct (entry_link e); simpl; lia.
Qed.

Lemma entries_bytes_length es : accepted es → zlength es ≤ zlength (entries_bytes es) ≤ 2 ^ 12 * zlength es.
Proof.
  induction 1 as [|e es [Hw Hv] _ IH]; [done|]. unfold entries_bytes. cbn [fmap list_fmap concat].
  rewrite zlength_app. fold (entries_bytes es). rewrite zlength_cons. pose proof (entry_bytes_length e Hw Hv). lia.
Qed.

Lemma items_from_lookup position es j e :
  accepted es → 0 ≤ position → position + zlength (entries_bytes es) < 2 ^ 32 → es !! j = Some e →
  items_from position es !! j = Some (entry_name e, position + zlength (entries_bytes (take j es))).
Proof.
  intros Hacc. revert position j. induction Hacc as [|x es [Hw Hv] Hacc IH]; intros position j Hp Hb Hj; [done|].
  unfold entries_bytes in Hb. cbn [fmap list_fmap concat] in Hb. rewrite zlength_app in Hb. fold (entries_bytes es) in Hb.
  pose proof (zlength_nonneg (entries_bytes es)). pose proof (entry_bytes_length x Hw Hv).
  destruct j as [|j]; simpl in Hj.
  { simplify_eq. cbn [items_from take lookup list_lookup]. change (zlength (entries_bytes [])) with 0. by rewrite Z.add_0_r. }
  cbn [items_from lookup list_lookup]. unwrap_small. rewrite (IH _ j) by (done || lia). do 2 f_equal.
  cbn [take]. unfold entries_bytes. cbn [fmap list_fmap concat]. rewrite zlength_app. lia.
Qed.

Lemma dir_items_lookup es j e :
  accepted es → zlength es ≤ 65535 → es !! j = Some e →
  dir_items es !! j = Some (entry_name e, zlength (entries_bytes (take j es))).
Proof.
  intros Hacc Hn Hj. unfold dir_items. pose proof (entries_bytes_length es Hacc).
  by rewrite (items_from_lookup 0 es j e) by (done || lia).
Qed.

(** The bytes of an entry at its offset. *)
Lemma entries_bytes_at es j e :
  es !! j = Some e →
  drop (length (entries_bytes (take j es))) (entries_bytes es) = entry_bytes e ++ entries_bytes (drop (S j) es).
Proof.
  intros Hj. assert (entries_bytes es = entries_bytes (take j es) ++ entry_bytes e ++ entries_bytes (drop (S j) es)) as ->.
  { unfold entries_bytes. rewrite <-(take_drop_middle es j e Hj) at 1.
    rewrite fmap_app, concat_app. done. }
  apply drop_app_length.
Qed.

(** ** A session *)

Section sessions.
Context {P : Platform} {PL : PlatformLaws P} {BP : BloomPlatform} {BL : BloomLaws BP} {PP : PhfPlatform}.
#[local] Abbreviation m := (iv_merge IV_DIR).
#[local] Arguments iv_merge : simpl never.

Fixpoint insert_entries (es : list BorrowedEntry) : M (InnerDirState DirectoryHasher * Disk) (Result unit InsertError) :=
  match es with
  | [] => mret (Ok tt)
  | e :: es => dir_writer_insert e;;? insert_entries es
  end.

Definition store_dir (fuel : nat) (bucket : Bucket) (es : list BorrowedEntry) : M Disk (Result Bytes unit) :=
  w ←? map_err (λ _, tt) (dir_writer_new bucket (zlength es));
  λ d, match (map_err (λ _, tt) (insert_entries es);;? map_err (λ _, tt) (dir_commit fuel)) (w, d) with
       | Some (r, (_, d)) => Some (r, d)
       | None => None
       end.

Section runs.
Context (b : Bucket) (t hn : Bytes) (f0 : gmap Path Bytes) (ns : list Bytes) (n : Z) (Hn : 1 ≤ n ≤ 65535).
#[local] Abbreviation writing := (writing_dir b t hn f0 ns n).

Lemma insert_entries_run es es0 c c' :
  zlength (es0 ++ es) ≤ n → insert_all es c = Some (Ok tt, c') →
  insert_entries es (writing es0 c) = Some (Ok tt, writing (es0 ++ es) c').
Proof.
  revert es0 c. induction es as [|e es IH]; intros es0 c Hl Hrun; cbn [insert_all insert_entries] in *.
  { unfold_M. simplify_eq. by rewrite app_nil_r. }
  unfold_M. destruct (dir_insert e c) as [[[[]|err] c1]|] eqn:He; [|done..].
  rewrite zlength_app, zlength_cons in Hl. pose proof (zlength_nonneg es).
  erewrite try_bind_ok.
  2: { unfold dir_writer_insert. rewrite insert_entry_run by lia. cbn [on_insert dir_writer_collector]. unfold dw_on_insert.
       by rewrite (map_err_ok _ _ _ _ _ He). }
  rewrite (IH (es0 ++ [e]) c1); [by rewrite <-app_assoc| |done].
  rewrite <-app_assoc, zlength_app. cbn [app]. rewrite zlength_cons. lia.
Qed.
End runs.

(** The file of a stored directory. *)
Definition dir_file (es : list BorrowedEntry) (st : HasherState) : Bytes :=
  final_head (zlength es) (concat (post_order m true (dir_tree es))) es st ++ entries_bytes es.

Lemma store_dir_run fuel b t hn ns f es root st :
  Forall entry_wf es → es ≠ [] → hash_dir es = Some (Ok root) →
  phf_finalize fuel (dir_items es) = Some st → zlength (hs_disps st) = zlength es → zlength (hs_map st) = zlength es →
  store_dir fuel b es (mkDisk f (t :: hn :: ns) []) =
    Some (Ok root, mkDisk (<[get_header_path b root:=dir_file es st]> (delete (tmp b t hn) f)) ns []).
Proof.
  intros Hw Hne Hh Hst Hd Hm. destruct (hash_dir_run es root Hw Hne Hh) as (Hacc & Hn & Hroot & c & c' & Hins & Hfin & Htree).
  assert (1 ≤ zlength es ≤ 65535) as Hn1 by (destruct es; [done|unfold zlength in *; simpl in *; lia]).
  unfold store_dir, dir_writer_new.
  etrans; [apply try_bind_ok, map_err_ok, map_err_ok, (dir_new_run b t hn f ns _ Hn1)|]. cbn beta.
  pose proof (insert_entries_run b t hn f ns _ Hn1 es [] dir_new c ltac:(cbn [app]; lia) Hins) as Hrun. cbn [app] in Hrun.
  unfold writing_dir at 1 in Hrun. change (entries_bytes []) with (@nil Z) in Hrun.
  erewrite try_bind_ok by (apply map_err_ok, Hrun).
  assert (on_commit c = Some (Ok (root, post_order m true (dir_tree es)), c')) as Hc.
  { cbn [on_commit dir_writer_collector]. unfold dw_on_commit. rewrite (bind_run _ _ _ _ _ Hfin). unfold_M. by rewrite Htree. }
  pose proof (dir_array_length es Hacc Hne Hn) as Harr.
  rewrite (map_err_ok _ _ _ _ _ (dir_commit_run b t hn f ns _ Hn1 fuel es c root _ c' st Hc
    (Nat.eq_le_incl _ _ Harr) Hst Hd Hm)). unfold dir_file. by rewrite hash_space_full.
Qed.

(** ** Failures *)

Lemma steady_dir_collector {T A} (m : M T A) : steady (on_dir_collector (BP:=BP) m).
Proof. intros fs [s d]. unfold on_dir_collector. simpl. by destruct (m (ds_collector s)) as [[a c]|]. Qed.

Lemma tolerant_dir_collector {T A E} (m : M T (Result A E)) : tolerant (on_dir_collector (BP:=BP) m).
Proof.
  intros [s d] a sd Heq. rewrite steady_dir_collector in Heq.
  destruct (on_dir_collector m (s, d)) as [[r s']|] eqn:Es; simplify_eq. split; [done|].
  intros fs. left. exists fs. by rewrite steady_dir_collector, Es.
Qed.

Lemma steady_guard {S} `{Faulty S} (c : bool) : steady (S:=S) (if c then mret tt else panic).
Proof. by destruct c. Qed.
#[local] Hint Resolve steady_dir_collector tolerant_dir_collector steady_guard : tolerance.

Lemma tolerant_unwrap {S A C E} `{Faulty S} (o : option A) (k : A → M S (Result C E)) :
  (∀ a, tolerant (k a)) → tolerant (unwrap o ≫= k).
Proof. intros Hk. destruct o as [a|]; [exact (Hk a)|]. by intros s c s' Heq. Qed.

Lemma tolerant_new_dir b n c : tolerant (new_with_collector (T:=DirectoryHasher) b n c).
Proof.
  unfold new_with_collector, get_new_wal_path, dir_header_from_wal_path.
  repeat (intros; first [apply tolerant_unwrap | tolerance_step]).
Qed.

Lemma tolerant_insert_entries es : tolerant (insert_entries es).
Proof. induction es as [|e es IH]; cbn [insert_entries]; [tolerance|].
  unfold dir_writer_insert, insert_entry, header_insert_entry. tolerance.
Qed.

Lemma tolerant_dir_commit fuel : tolerant (dir_commit (T:=DirectoryHasher) fuel).
Proof.
  unfold dir_commit, dir_header_commit. repeat (intros; first [apply tolerant_unwrap | tolerance_step]).
Qed.

Lemma tolerant_store_dir fuel b es : tolerant (store_dir fuel b es).
Proof.
  apply tolerant_try.
  - unfold dir_writer_new. apply tolerant_map_err, tolerant_map_err, tolerant_new_dir.
  - intros w. apply (tolerant_drop (map_err (λ _, tt) (insert_entries es);;? map_err (λ _, tt) (dir_commit fuel))).
    apply tolerant_try; [apply tolerant_map_err, tolerant_insert_entries|intros _].
    apply tolerant_map_err, tolerant_dir_commit.
Qed.
End sessions.

(** ** Reading the file *)

Lemma until_zero_name x y : Forall (λ c, c ≠ 0) x → until_zero (x ++ 0 :: y) = x ++ [0].
Proof. induction 1 as [|c x Hc _ IH]; [done|]. simpl. rewrite bool_decide_false by done. by rewrite IH. Qed.

Section reading.
Context {BP : BloomPlatform} {BL : BloomLaws BP} {PP : PhfPlatform}.
Context (path : Path) (f : gmap Path Bytes) (ns : list Bytes).
#[local] Abbreviation disk := (mkDisk f ns []).

Lemma read_exact_run a x y start len :
  f !! path = Some (a ++ x ++ y) → zlength a = start → zlength x = len →
  fs_read_exact path start len disk = Some (Ok x, disk).
Proof.
  intros Hf <- <-. unfold fs_read_exact, io. simpl. unfold_M. simpl. rewrite Hf.
  rewrite bool_decide_true by (rewrite !zlength_app; pose proof (zlength_nonneg y); lia).
  unfold zlength. rewrite !Nat2Z.id, drop_app_length, take_app_length. done.
Qed.

Lemma read_le_run a k v y start :
  f !! path = Some (a ++ to_le_bytes k v ++ y) → zlength a = start → 0 ≤ v < 2 ^ (8 * Z.of_nat k) →
  read_le path start k disk = Some (Ok v, disk).
Proof.
  intros Hf Ha Hv. unfold read_le. etrans; [apply try_bind_ok, map_err_ok; eapply read_exact_run; [exact Hf|done|]|].
  - unfold zlength. by rewrite to_le_bytes_length.
  - cbn beta. by rewrite le_bytes_roundtrip.
Qed.

Lemma read_until_run a x y start :
  f !! path = Some (a ++ x ++ [0] ++ y) → zlength a = start → Forall (λ c, c ≠ 0) x →
  fs_read_until path start disk = Some (Ok (x ++ [0]), disk).
Proof.
  intros Hf <- Hx. unfold fs_read_until, io. simpl. unfold_M. simpl. rewrite Hf. unfold zlength.
  rewrite Nat2Z.id, drop_app_length. cbn [app]. by rewrite until_zero_name.
Qed.

Lemma read_disps_run disps a y start :
  Forall (λ d : Z * Z, 0 ≤ d.1 < 2 ^ 16 ∧ 0 ≤ d.2 < 2 ^ 16) disps →
  f !! path = Some (a ++ disp_bytes disps ++ y) → zlength a = start →
  read_disps path start (length disps) disk = Some (Ok disps, disk).
Proof.
  intros Hd. revert a start. induction Hd as [|[d1 d2] disps [H1 H2] _ IH]; intros a start Hf Ha; [done|]. simpl in H1, H2.
  unfold disp_bytes in Hf. cbn [fmap list_fmap concat fst snd] in Hf. fold (disp_bytes disps) in Hf.
  rewrite <-!app_assoc in Hf. cbn [length read_disps].
  assert (∀ v, zlength (to_le_bytes 2 v) = 2) as Hl by (intros v; unfold zlength; by rewrite to_le_bytes_length).
  etrans; [apply try_bind_ok; by eapply read_le_run|]. cbn beta.
  etrans; [apply try_bind_ok; eapply (read_le_run (a ++ to_le_bytes 2 d1));
    [rewrite <-app_assoc; exact Hf|rewrite zlength_app, Hl; lia|done]|]. cbn beta.
  etrans; [apply try_bind_ok; apply (IH ((a ++ to_le_bytes 2 d1) ++ to_le_bytes 2 d2));
    [by rewrite <-!app_assoc|rewrite !zlength_app, !Hl; lia]|]. done.
Qed.

Lemma read_map_run map a y start :
  Forall (λ x, 0 ≤ x < 2 ^ 32) map → f !! path = Some (a ++ map_bytes map ++ y) → zlength a = start →
  read_map path start (length map) disk = Some (Ok map, disk).
Proof.
  intros Hm. revert a start. induction Hm as [|x map Hx _ IH]; intros a start Hf Ha; [done|].
  unfold map_bytes in Hf. cbn [fmap list_fmap concat] in Hf. fold (map_bytes map) in Hf. rewrite <-!app_assoc in Hf.
  cbn [length read_map]. assert (zlength (to_le_bytes 4 x) = 4) as Hl by (unfold zlength; by rewrite to_le_bytes_length).
  etrans; [apply try_bind_ok; by eapply read_le_run|]. cbn beta.
  etrans; [apply try_bind_ok; apply (IH (a ++ to_le_bytes 4 x)); [by rewrite <-app_assoc|rewrite zlength_app, Hl; lia]|]. done.
Qed.

(** The parts of the table at an index. *)
Lemma disp_bytes_at disps i d :
  disps !! i = Some d →
  ∃ y, disp_bytes disps = disp_bytes (take i disps) ++ (to_le_bytes 2 d.1 ++ to_le_bytes 2 d.2) ++ y.
Proof.
  intros Hd. exists (disp_bytes (drop (S i) disps)). rewrite <-(take_drop_middle disps i d Hd) at 1.
  unfold disp_bytes. by rewrite fmap_app, concat_app.
Qed.

Lemma map_bytes_at map i x :
  map !! i = Some x → ∃ y, map_bytes map = map_bytes (take i map) ++ to_le_bytes 4 x ++ y.
Proof.
  intros Hx. exists (map_bytes (drop (S i) map)). rewrite <-(take_drop_middle map i x Hx) at 1.
  unfold map_bytes. by rewrite fmap_app, concat_app.
Qed.
End reading.
