(* ===== verification/DirLookup.v ===== *)
(** * DirLookup: the lookup of a name, and the stream of entries

    [B3Dir::get_entry] of [lib/b3fs/src/bucket/dir/reader.rs] and [DirEntriesIter] of
    [dir/iter.rs] on the file of a stored directory: what was written is found, in
    any order of lookups and for any schedule of the polls. *)

From S2P Require Import Prelude Types Codec HashTree ProofBuf Blake3 Blake3Tree Forest Verifier DirHasher ByteHasher ByteTree ContentHash Collectors ContentSteps Bucket BucketWrite BucketFaults AsyncTree Phf DirBucket DirReader DirWrite DirStored.
From stdpp Require Import base list gmap strings.
From Stdlib Require Import ZArith Lia.
Open Scope Z_scope.

Lemma valid_link link : is_valid_symlink link = true → Forall (λ c, c ≠ 0) link.
Proof.
  unfold is_valid_symlink. intros [_ Hz%negb_true_iff]%andb_true_iff. apply Forall_forall. intros c Hc ->.
  assert (existsb (Z.eqb 0) link = true) as Hex; [|congruence].
  apply existsb_exists. exists 0. split; [by apply list_elem_of_In|done].
Qed.

(** The terminator does not make a name ill-formed. *)
Lemma is_utf8_terminated x : is_utf8 x = true → is_utf8 (x ++ [0]) = true.
Proof.
  remember (length x) as k eqn:Hk. revert x Hk. induction (lt_wf k) as [k _ IH]. intros x Hk Hu.
  assert (∀ y, (length y < k)%nat → is_utf8 y = true → is_utf8 (y ++ [0]) = true) as IH' by (intros y Hy; by apply (IH (length y))).
  clear IH. destruct x as [|a x]; [done|]. cbn [app is_utf8] in *. simpl in Hk.
  destruct (byte_in 0 127 a); [apply IH'; [lia|done]|].
  destruct x as [|b x]; [done|]. cbn [app] in *. simpl in Hk. destruct (byte_in 194 223 a).
  { apply andb_true_iff in Hu as [-> Hu]. apply IH'; [lia|done]. }
  destruct x as [|c x]; [done|]. cbn [app] in *. simpl in Hk. destruct (byte_in 224 239 a).
  { apply andb_true_iff in Hu as [-> Hu]. apply IH'; [lia|done]. }
  destruct x as [|d x]; [done|]. cbn [app]. simpl in Hk. apply andb_true_iff in Hu as [-> Hu]. apply IH'; [lia|done].
Qed.

(** ** Polling *)

Section polling.
Context (f : gmap Path Bytes) (ns : list Bytes).
#[local] Abbreviation disk := (mkDisk f ns []).

(** A poll that changes the state, at once or when the operation is done. *)
Definition pending (it it' : DirEntriesIter) : Prop :=
  poll_next true (it, disk) = Some (Pending, (it', disk)) ∧
  (poll_next false (it, disk) = Some (Pending, (it', disk)) ∨ poll_next false (it, disk) = Some (Pending, (it, disk))).

(** An item after so many polls that are ready. *)
Inductive delivers : nat → DirEntriesIter → option (Result BorrowedEntry ReadError) → DirEntriesIter → Prop :=
| delivers_now it item it' :
    poll_next true (it, disk) = Some (Ready item, (it', disk)) →
    poll_next false (it, disk) = Some (Pending, (it, disk)) → delivers 1 it item it'
| delivers_later k it it1 item it' : pending it it1 → delivers k it1 item it' → delivers (S k) it item it'.

Fixpoint ready_polls (schedule : list bool) : nat :=
  match schedule with [] => 0 | ready :: schedule => (if ready then 1 else 0) + ready_polls schedule end.

Lemma stream_next_run k it item it' schedule :
  delivers k it item it' → (k ≤ ready_polls schedule)%nat →
  ∃ rest, stream_next schedule (it, disk) = Some (Some (item, rest), (it', disk)) ∧
    (ready_polls schedule ≤ k + ready_polls rest)%nat.
Proof.
  intros Hdel. revert schedule.
  induction Hdel as [it item it' H1 H0|k it it1 item it' [H1 H0] _ IH]; intros schedule;
    (induction schedule as [|ready schedule IHs]; intros Hk; [simpl in Hk; lia|]); cbn [stream_next ready_polls] in *; destruct ready.
  - exists schedule. rewrite (bind_run _ _ _ _ _ H1). split; [done|lia].
  - rewrite (bind_run _ _ _ _ _ H0). cbn iota. destruct IHs as (rest & Hr & Hl); [lia|]. exists rest. split; [done|lia].
  - rewrite (bind_run _ _ _ _ _ H1). cbn iota. destruct (IH schedule) as (rest & Hr & Hl); [lia|]. exists rest. split; [done|lia].
  - destruct H0 as [H0|H0]; rewrite (bind_run _ _ _ _ _ H0); cbn iota.
    + destruct (IH schedule) as (rest & Hr & Hl); [lia|]. exists rest. split; [done|lia].
    + destruct IHs as (rest & Hr & Hl); [lia|]. exists rest. split; [done|lia].
Qed.

Lemma on_future_run {A} it (future : M Disk (Result A IoError)) on_ok a :
  it_returned it = false → future disk = Some (Ok a, disk) →
  on_future true future on_ok (it, disk) = on_ok a (it, disk) ∧
  on_future false future on_ok (it, disk) = Some (Pending, (it, disk)).
Proof.
  intros Hr Hf'. unfold on_future. rewrite !fst_get, Hr. split; [|done]. cbn [negb].
  by rewrite (bind_run _ _ _ _ _ (on_snd_run _ _ _ _ _ Hf')).
Qed.
End polling.

Lemma surjective_entry e : e = mkBorrowedEntry (entry_name e) (entry_link e).
Proof. by destruct e. Qed.

Section lookup.
Context {BP : BloomPlatform} {BL : BloomLaws BP} {PP : PhfPlatform}.
Context (path : Path) (f : gmap Path Bytes) (ns : list Bytes).
Context (es : list BorrowedEntry) (hashes : Bytes) (st : HasherState).
#[local] Abbreviation disk := (mkDisk f ns []).
#[local] Abbreviation n := (zlength es).
#[local] Abbreviation l := (Z.of_nat (bloom_len n)).
#[local] Abbreviation filter_all := (bloom_all n es).

Context (Hacc : accepted es) (Hn : 1 ≤ n ≤ 65535).
Context (Htree : length hashes = Z.to_nat (64 * n - 32)) (Hkey : in_width 64 (hs_key st)).
Context (Hdisps : zlength (hs_disps st) = n) (Hmap : zlength (hs_map st) = n).
Context (Hd16 : Forall (λ d : Z * Z, 0 ≤ d.1 < 2 ^ 16 ∧ 0 ≤ d.2 < 2 ^ 16) (hs_disps st)).
Context (Hm32 : Forall (λ x, 0 ≤ x < 2 ^ 28) (hs_map st)).
Context (Hf : f !! path = Some (final_head n hashes es st ++ entries_bytes es)).

(** What comes before the filter. *)
Definition before_filter : Bytes := to_le_bytes 4 HEADER_DIR_VERSION ++ to_le_bytes 4 n ++ hashes.

Lemma before_filter_length : zlength before_filter = 64 * n - 24.
Proof. unfold before_filter, zlength in *. rewrite !length_app, !to_le_bytes_length, Htree. lia. Qed.

Lemma file_parts :
  f !! path = Some (before_filter ++ to_le_bytes 4 (bloom_hashes filter_all) ++ bloom_bytes filter_all
    ++ to_le_bytes 8 (hs_key st) ++ disp_bytes (hs_disps st) ++ map_bytes (hs_map st) ++ entries_bytes es).
Proof. rewrite Hf. unfold final_head, dir_head, before_filter. by rewrite <-!app_assoc. Qed.

Lemma le_length k v : zlength (to_le_bytes k v) = Z.of_nat k.
Proof. unfold zlength. by rewrite to_le_bytes_length. Qed.

Lemma filter_length : zlength (bloom_bytes filter_all) = l.
Proof. unfold zlength. by rewrite bloom_all_length. Qed.

Lemma disps_length : zlength (disp_bytes (hs_disps st)) = 4 * n.
Proof. unfold zlength in *. rewrite disp_bytes_length. lia. Qed.

Lemma map_length : zlength (map_bytes (hs_map st)) = 4 * n.
Proof. unfold zlength in *. rewrite map_bytes_length. lia. Qed.

(** ** The caches *)

Definition stored_filter : BloomFilter := bloom_from (bloom_bytes filter_all) (bloom_hashes filter_all).

Definition dir_open (d : B3Dir) : Prop :=
  bd_num_entries d = n ∧ bd_file d = path ∧ bd_positions d = positions_new n ∧
  (bd_bloom_filter d = None ∨ bd_bloom_filter d = Some stored_filter) ∧
  (bd_phf_table d = None ∨ bd_phf_table d = Some st).

Lemma dir_open_new : dir_open (b3dir_new n path).
Proof. split_and!; [apply wrap_small; unfold in_width; clear -Hn; lia|done|done|by left|by left]. Qed.

Lemma get_bloom_filter_run d :
  dir_open d → ∃ d', dir_open d' ∧ get_bloom_filter (d, disk) = Some (Ok stored_filter, (d', disk)).
Proof.
  intros (Hnum & Hfile & Hpos & Hbloom & Hphf). unfold get_bloom_filter. rewrite fst_get.
  destruct Hbloom as [Hb|Hb]; rewrite Hb; [|exists d; split; [by split_and!; auto|reflexivity]].
  destruct (positions_run n Hn) as [Hp Hl]. rewrite Hpos, Hp, Hfile. cbn [position_start_bloom_filter bloom_filter_len].
  pose proof file_parts as Hparts. pose proof before_filter_length as Hlen. pose proof filter_length as Hfl.
  eexists. split.
  2: { etrans; [apply try_bind_ok; reflexivity|]. cbn beta.
       etrans; [apply try_bind_ok, on_snd_run; eapply read_le_run; [exact Hparts|done|apply (bloom_hashes_width filter_all)]|]. cbn beta.
       etrans; [apply try_bind_ok, map_err_ok, on_snd_run; eapply (read_exact_run _ _ _ (before_filter ++ to_le_bytes 4 (bloom_hashes filter_all)));
         [rewrite <-app_assoc; exact Hparts|rewrite zlength_app, le_length; lia|exact Hfl]|]. cbn beta.
       rewrite Hfl, bool_decide_true by done. reflexivity. }
  split_and!; auto.
Qed.

Lemma get_phf_table_run d :
  dir_open d → ∃ d', dir_open d' ∧ get_phf_table (d, disk) = Some (Ok st, (d', disk)).
Proof.
  intros (Hnum & Hfile & Hpos & Hbloom & Hphf). unfold get_phf_table. rewrite fst_get.
  destruct Hphf as [Hb|Hb]; rewrite Hb; [|exists d; split; [by split_and!; auto|reflexivity]].
  destruct (positions_run n Hn) as [Hp Hl]. rewrite Hpos, Hp, Hfile, Hnum, Z2Nat.id by lia. cbn [position_start_phf_table].
  pose proof file_parts as Hparts. pose proof before_filter_length as Hlen. pose proof filter_length as Hfl.
  rewrite !app_assoc in Hparts. rewrite <-!(app_assoc _ (to_le_bytes 8 _)) in Hparts.
  set (a := (before_filter ++ _) ++ _) in Hparts. rewrite <-!app_assoc in Hparts.
  assert (zlength a = 64 * n - 20 + l) as Ha by (unfold a; rewrite !zlength_app, le_length; lia).
  assert (Z.to_nat n = length (hs_disps st) ∧ Z.to_nat n = length (hs_map st)) as [Hnd Hnm] by (unfold zlength in *; lia).
  eexists. split.
  2: { etrans; [apply try_bind_ok; reflexivity|]. cbn beta.
       etrans; [apply try_bind_ok, on_snd_run; eapply read_le_run; [exact Hparts|done|exact Hkey]|]. cbn beta.
       etrans; [apply try_bind_ok, on_snd_run; rewrite Hnd at 1; eapply (read_disps_run _ _ _ _ (a ++ to_le_bytes 8 _));
         [exact Hd16|rewrite <-app_assoc; exact Hparts|rewrite zlength_app, le_length; lia]|]. cbn beta.
       etrans; [apply try_bind_ok, on_snd_run; rewrite Hnm at 1;
         eapply (read_map_run _ _ _ _ ((a ++ to_le_bytes 8 _) ++ disp_bytes _));
         [eapply Forall_impl; [exact Hm32|intros x Hx; cbn beta in *; lia]|rewrite <-!app_assoc; exact Hparts
         |rewrite !zlength_app, le_length, disps_length; lia]|]. cbn beta.
       assert (mkHasherState (hs_key st) (hs_disps st) (hs_map st) = st) as -> by (by destruct st). reflexivity. }
  split_and!; auto.
Qed.

(** ** The table *)

Lemma get_entry_offset_run d name off :
  dir_open d → phf_lookup st n name = Some off →
  get_entry_offset name st (d, disk) = Some (Ok (72 * n - 12 + l + off), (d, disk)).
Proof.
  intros (Hnum & Hfile & Hpos & _) Hlook. unfold phf_lookup in Hlook. rewrite buckets_len_pos in Hlook by lia.
  unfold get_entry_offset. rewrite fst_get. set (h := phf_hash name (hs_key st)) in *.
  rewrite Hpos, Hfile, Hnum, buckets_len_pos by lia. rewrite bool_decide_false by lia.
  destruct (starts_run n Hn) as (_ & -> & _). destruct (positions_run n Hn) as [-> Hl]. cbn [position_start_entries].
  destruct (hs_disps st !! bucket_of n h) as [[d1 d2]|] eqn:Hd; [|done]. simpl in Hlook.
  destruct (disp_bytes_at _ _ _ Hd) as [y1 Hy1]. destruct (map_bytes_at _ _ _ Hlook) as [y2 Hy2]. cbn [fst snd] in Hy1.
  apply (Forall_lookup_1 _ _ _ _ Hd16) in Hd as Hd12. cbn [fst snd] in Hd12.
  apply (Forall_lookup_1 _ _ _ _ Hm32) in Hlook as Hoff.
  pose proof (Z.mod_pos_bound (hash_g h) n ltac:(lia)) as Hg.
  pose proof (Z.mod_pos_bound (displace (hash_f1 h) (hash_f2 h) d1 d2) n ltac:(lia)) as Hs.
  apply lookup_lt_Some in Hd, Hlook. pose proof file_parts as Hparts. pose proof before_filter_length as Hlen.
  pose proof filter_length as Hfl. pose proof disps_length as Hdl.
  set (a := before_filter ++ to_le_bytes 4 (bloom_hashes filter_all) ++ bloom_bytes filter_all ++ to_le_bytes 8 (hs_key st)).
  assert (zlength a = 64 * n - 12 + l) as Ha by (unfold a; rewrite !zlength_app, !le_length; lia).
  assert (f !! path = Some (a ++ disp_bytes (hs_disps st) ++ map_bytes (hs_map st) ++ entries_bytes es)) as Hfile'
    by (rewrite Hparts; unfold a; by rewrite <-!app_assoc).
  clearbody a. clear Hparts Hlen Hfl. unwrap_small.
  etrans; [apply try_bind_ok; reflexivity|]. cbn beta.
  etrans; [apply try_bind_ok, map_err_ok, on_snd_run, (read_exact_run _ _ _
      (a ++ disp_bytes (take (bucket_of n h) (hs_disps st))) (to_le_bytes 2 d1 ++ to_le_bytes 2 d2)
      (y1 ++ map_bytes (hs_map st) ++ entries_bytes es));
    [rewrite Hfile', Hy1, <-!app_assoc; reflexivity| |by rewrite zlength_app, !le_length]|].
  { rewrite zlength_app, Ha. assert (zlength (disp_bytes (take (bucket_of n h) (hs_disps st))) = 4 * (hash_g h mod n)); [|lia].
    unfold zlength at 1. rewrite disp_bytes_length, length_take. unfold bucket_of in *. lia. }
  cbn beta. rewrite take_app_length', drop_app_length' by (by rewrite to_le_bytes_length).
  rewrite !le_bytes_roundtrip by (simpl; lia).
  etrans; [apply try_bind_ok; reflexivity|]. cbn beta. unwrap_small.
  etrans; [apply try_bind_ok, on_snd_run, (read_le_run _ _ _
      (a ++ disp_bytes (hs_disps st) ++ map_bytes (take (slot n h (d1, d2)) (hs_map st))) 4 off (y2 ++ entries_bytes es));
    [rewrite Hfile'; rewrite Hy2 at 1; rewrite <-!app_assoc; reflexivity| |simpl; lia]|].
  { rewrite !zlength_app, Ha, Hdl. set (k := slot n h (d1, d2)) in *.
    assert (zlength (map_bytes (take k (hs_map st))) = 4 * Z.of_nat k) as ->.
    { unfold zlength at 1. rewrite map_bytes_length, length_take. lia. }
    unfold k, slot. cbn [fst snd]. lia. }
  cbn beta. unwrap_small. reflexivity.
Qed.

(** ** The entry *)

Lemma head_length : zlength (final_head n hashes es st) = 72 * n - 12 + l.
Proof.
  unfold final_head, dir_head. rewrite !zlength_app, !le_length, filter_length, disps_length, map_length.
  unfold zlength at 1. rewrite Htree. lia.
Qed.

Lemma entry_at j e :
  es !! j = Some e →
  ∃ pre y, f !! path = Some (pre ++ entry_bytes e ++ y) ∧
    zlength pre = 72 * n - 12 + l + zlength (entries_bytes (take j es)).
Proof.
  intros Hj. pose proof (entries_bytes_at es j e Hj) as He.
  exists (final_head n hashes es st ++ entries_bytes (take j es)), (entries_bytes (drop (S j) es)). split.
  - rewrite Hf. f_equal. rewrite <-app_assoc, <-He. f_equal.
    assert (entries_bytes (take j es) = take (length (entries_bytes (take j es))) (entries_bytes es)) as Ht.
    { rewrite <-(take_drop j es) at 3. unfold entries_bytes. rewrite fmap_app, concat_app. by rewrite take_app_length. }
    rewrite Ht at 1. by rewrite take_drop.
  - by rewrite zlength_app, head_length.
Qed.

Lemma flag_run pre y e :
  f !! path = Some (pre ++ entry_bytes e ++ y) →
  let flag := match entry_link e with LinkContent _ => 0 | LinkPath _ => B3_DIR_IS_SYM_LINK end in
  let rest := match entry_link e with LinkContent h => h | LinkPath k => k ++ [0] end in
  f !! path = Some (pre ++ [flag] ++ entry_name e ++ [0] ++ rest ++ y).
Proof.
  intros Hfile flag rest. rewrite Hfile. unfold entry_bytes, flag, rest. f_equal. f_equal.
  destruct (entry_link e); rewrite <-!app_assoc; cbn [app]; by rewrite <-?app_assoc.
Qed.

(** Where a lookup leaves the link of an entry: a content hash only in its own buffer. *)
Definition link_memory (link : BorrowedLink) : Memory :=
  match link with LinkContent _ => Freed | LinkPath _ => Leaked end.

(** The entry at an offset is taken for the name that is looked for if this is a
    prefix of its own. *)
Lemma read_entry_run d j e name :
  dir_open d → es !! j = Some e → name `prefix_of` entry_name e ++ [0] →
  is_utf8 name = true → is_utf8 (entry_name e ++ [0]) = true →
  read_entry_at_offset name (72 * n - 12 + l + zlength (entries_bytes (take j es))) (d, disk) =
    Some (Ok (Some (mkFoundEntry (mkBorrowedEntry name (entry_link e)) (link_memory (entry_link e)))), (d, disk)).
Proof.
  intros (_ & Hfile & _) Hj Hpre Hu Hu'. destruct (entry_at j e Hj) as (pre & y & Hf' & Hlen).
  apply (Forall_lookup_1 _ _ _ _ Hacc) in Hj as [[_ Hwl] [Hv Hvl]%andb_true_iff]. apply valid_filename in Hv as [_ Hz].
  apply flag_run in Hf'. set (flag := match entry_link e with LinkContent _ => _ | _ => _ end) in Hf'.
  set (rest := match entry_link e with LinkContent _ => _ | _ => _ end) in Hf'.
  rewrite <-Hlen. clear Hlen. unfold read_entry_at_offset. rewrite fst_get, Hfile.
  etrans; [apply try_bind_ok; reflexivity|]. cbn beta.
  erewrite bind_run by (apply on_snd_run; eapply read_exact_run; [exact Hf'|done|done]).
  cbn [check_eof default from_option head].
  erewrite bind_run by (apply on_snd_run, (read_until_run _ _ _ (pre ++ [flag]) (entry_name e) (rest ++ y));
    [by rewrite <-app_assoc|by rewrite zlength_app|done]).
  cbn [check_eof]. rewrite Hu, Hu'. cbn [andb negb].
  pose proof (prefix_length _ _ Hpre) as Hl. rewrite bool_decide_false by lia.
  rewrite bool_decide_true by (destruct Hpre as [z ->]; apply take_app_length). cbn [negb].
  erewrite bind_run by reflexivity.
  assert (f !! path = Some ((pre ++ [flag] ++ entry_name e ++ [0]) ++ rest ++ y)) as Hf2 by (rewrite Hf', <-!app_assoc; done).
  assert (zlength (pre ++ [flag] ++ entry_name e ++ [0]) = zlength pre + 1 + zlength (entry_name e ++ [0])) as Hlen2
    by (rewrite !zlength_app; change (zlength [flag]) with 1; change (zlength [0]) with 1; lia).
  unfold flag, rest in *. clear flag rest. destruct (entry_link e) as [hash|link].
  - rewrite bool_decide_false by done.
    etrans; [apply try_bind_ok, map_err_ok, on_snd_run; eapply read_exact_run; [exact Hf2|exact Hlen2|]|reflexivity].
    unfold is_hash in Hwl. unfold zlength. by rewrite Hwl.
  - rewrite bool_decide_true by done. rewrite <-(app_assoc link) in Hf2. apply valid_link in Hvl.
    etrans; [apply try_bind_ok, map_err_ok, on_snd_run; eapply read_until_run; [exact Hf2|exact Hlen2|exact Hvl]|].
    cbn beta. rewrite removelast_last. by destruct link.
Qed.

(** ** Lookups *)

Lemma get_entry_run d j e :
  dir_open d → es !! j = Some e → is_utf8 (entry_name e) = true →
  phf_lookup st n (entry_name e) = Some (zlength (entries_bytes (take j es))) →
  ∃ d', dir_open d' ∧ get_entry (entry_name e) (d, disk) = Some (Ok (Some (mkFoundEntry e (link_memory (entry_link e)))), (d', disk)).
Proof.
  intros Hd Hj Hu Hlook. destruct (get_bloom_filter_run d Hd) as (d1 & Hd1 & Hb).
  destruct (get_phf_table_run d1 Hd1) as (d2 & Hd2 & Ht). exists d2. split; [done|]. unfold get_entry.
  rewrite (try_bind_ok _ _ _ _ _ Hb). unfold stored_filter. rewrite bloom_from_bytes, bloom_all_contains
    by (by eapply list_elem_of_lookup_2).
  rewrite (try_bind_ok _ _ _ _ _ Ht), (try_bind_ok _ _ _ _ _ (get_entry_offset_run d2 _ _ Hd2 Hlook)).
  rewrite (read_entry_run d2 j e) by (done || by apply prefix_app_r || by apply is_utf8_terminated). by destruct e.
Qed.

(** A name that the filter excludes has no entry. *)
Lemma get_entry_absent d name :
  dir_open d → bloom_contains filter_all name = false →
  ∃ d', dir_open d' ∧ get_entry name (d, disk) = Some (Ok None, (d', disk)).
Proof.
  intros Hd Hno. destruct (get_bloom_filter_run d Hd) as (d1 & Hd1 & Hb). exists d1. split; [done|]. unfold get_entry.
  rewrite (try_bind_ok _ _ _ _ _ Hb). unfold stored_filter. by rewrite bloom_from_bytes, Hno.
Qed.

(** A name that is longer than the stored one, or that is not UTF-8, panics. *)
Lemma read_entry_panics d j e name :
  dir_open d → es !! j = Some e →
  is_utf8 name = false ∨ is_utf8 (entry_name e ++ [0]) = false ∨ (length (entry_name e ++ [0%Z]) < length name)%nat →
  read_entry_at_offset name (72 * n - 12 + l + zlength (entries_bytes (take j es))) (d, disk) = None.
Proof.
  intros (_ & Hfile & _) Hj Hbad. destruct (entry_at j e Hj) as (pre & y & Hf' & Hlen).
  apply (Forall_lookup_1 _ _ _ _ Hacc) in Hj as [_ [Hv _]%andb_true_iff]. apply valid_filename in Hv as [_ Hz].
  apply flag_run in Hf'. rewrite <-Hlen. unfold read_entry_at_offset. rewrite fst_get, Hfile.
  etrans; [apply try_bind_ok; reflexivity|]. cbn beta.
  erewrite bind_run by (apply on_snd_run; eapply read_exact_run; [exact Hf'|done|done]).
  cbn [check_eof default from_option head].
  erewrite bind_run.
  2: { apply on_snd_run. eapply (read_until_run _ _ _ (pre ++ [_])); [rewrite <-app_assoc; exact Hf'|by rewrite zlength_app|done]. }
  cbn [check_eof]. destruct (is_utf8 (entry_name e ++ [0])), (is_utf8 name); try done. cbn [andb negb].
  by rewrite bool_decide_true by naive_solver.
Qed.

(** ** The entries in the stream *)

(** The stream before the entry at a position. *)
Definition at_entry (position : Z) (it : DirEntriesIter) : Prop :=
  it_file it = path ∧ it_state it = ReadPosition ∧ it_position it = position.


Lemma waiting_run {A} cur pos state name flag (future : M Disk (Result A IoError)) (on_ok : A → M (DirEntriesIter * Disk) _) a it' :
  let it := mkDirEntriesIter path cur pos state name flag false in
  (∀ ready, poll_next ready (it, disk) = on_future ready future on_ok (it, disk)) →
  future disk = Some (Ok a, disk) → on_ok a (it, disk) = Some (Pending, (it', disk)) → pending f ns it it'.
Proof.
  intros it Hpoll Hf' Hok. destruct (on_future_run f ns it future on_ok a eq_refl Hf') as [H1 H0].
  split; rewrite Hpoll; [by rewrite H1|by right].
Qed.

(** From the position of an entry to its link. *)
Lemma stream_to_link it pre flag name rest pos :
  at_entry pos it → f !! path = Some (pre ++ [flag] ++ name ++ [0] ++ rest) → zlength pre = pos → Forall (λ c, c ≠ 0) name →
  let state := if negb (bool_decide (Z.land flag B3_DIR_IS_SYM_LINK = 0)) then ReadPath else ReadContent in
  ∀ k item it', delivers f ns k (mkDirEntriesIter path (pos + 2 + zlength name) pos state name flag false) item it' →
    delivers f ns (6 + k) it item it'.
Proof.
  intros (Hfile & Hst & Hpos) Hf' Hlen Hz state k item it' Hdel. destruct it as [pa cur po s nm fl rt]. simpl in Hfile, Hst, Hpos.
  subst pa s po. replace (pos + 2 + zlength name) with (pos + 1 + (zlength name + 1)) in Hdel by lia.
  apply (delivers_later f ns _ _ (mkDirEntriesIter path cur pos WaitingReadPosition [] 0 false)); [split; [done|by left]|].
  apply (delivers_later f ns _ _ (mkDirEntriesIter path pos pos ReadFlag [] 0 false)).
  { by eapply (waiting_run _ _ _ _ _ fs_seek); [intros ready; reflexivity|..]. }
  apply (delivers_later f ns _ _ (mkDirEntriesIter path pos pos WaitingReadFlag [] 0 false)); [split; [done|by left]|].
  apply (delivers_later f ns _ _ (mkDirEntriesIter path (pos + 1) pos ReadEntryName [] flag false)).
  { eapply (waiting_run _ _ _ _ _ (fs_read_exact path pos 1)); [intros ready; reflexivity|by eapply read_exact_run|]. done. }
  apply (delivers_later f ns _ _ (mkDirEntriesIter path (pos + 1) pos WaitingReadEntryName [] flag false)); [split; [done|by left]|].
  eapply delivers_later; [|exact Hdel].
  eapply (waiting_run _ _ _ _ _ (fs_read_until path (pos + 1)));
    [intros ready; reflexivity|apply (read_until_run _ _ _ (pre ++ [flag]) name rest); [by rewrite <-app_assoc|by rewrite zlength_app, Hlen|done]|].
  cbn. rewrite removelast_last, zlength_app. change (zlength [0]) with 1. reflexivity.
Qed.

Lemma yield_run cur pos state name flag len link :
  it_yield len link (mkDirEntriesIter path cur pos state name flag false, disk) =
    Some (Ready (Some (Ok (mkBorrowedEntry name link))),
      (mkDirEntriesIter path cur (pos +[64] ((zlength name +[64] len) +[64] 2)) ReadPosition name flag false, disk)).
Proof. done. Qed.

Lemma entry_delivered j e it :
  es !! j = Some e → at_entry (72 * n - 12 + l + zlength (entries_bytes (take j es))) it →
  ∃ it', delivers f ns 8 it (Some (Ok e)) it' ∧ at_entry (72 * n - 12 + l + zlength (entries_bytes (take (S j) es))) it'.
Proof.
  intros Hj Hit. destruct (entry_at j e Hj) as (pre & y & Hf' & Hlen). destruct (positions_run n Hn) as [_ Hl].
  pose proof (Forall_take _ (S j) _ Hacc) as Hpre. apply entries_bytes_length in Hpre as Htotal.
  assert (zlength (take (S j) es) ≤ n) as Htake by (unfold zlength; rewrite length_take; lia).
  assert (zlength (entries_bytes (take (S j) es)) ≤ 2 ^ 28) as Hb by lia. clear Htotal Htake Hpre.
  rewrite (take_S_r es j e Hj), entries_bytes_snoc, zlength_app in Hb |- *.
  apply (Forall_lookup_1 _ _ _ _ Hacc) in Hj as [[_ Hwl] [Hv Hvl]%andb_true_iff]. apply valid_filename in Hv as [_ Hz].
  rewrite Z.add_assoc, <-Hlen. rewrite <-Hlen in Hit. pose proof (flag_run _ _ _ Hf') as Hflag. cbn zeta in Hflag.
  assert (f !! path = Some ((pre ++ [match entry_link e with LinkContent _ => 0 | LinkPath _ => B3_DIR_IS_SYM_LINK end]
    ++ entry_name e ++ [0]) ++ match entry_link e with LinkContent h => h | LinkPath k => k ++ [0] end ++ y)) as Hrest
    by (rewrite Hflag, <-!app_assoc; done).
  assert (∀ flag : Z, zlength (pre ++ [flag] ++ entry_name e ++ [0]) = zlength pre + 2 + zlength (entry_name e)) as Hcur
    by (intros flag; rewrite !zlength_app; change (zlength [flag]) with 1; change (zlength [0]) with 1; lia).
  pose proof (zlength_nonneg (entry_name e)) as Hname0. pose proof (zlength_nonneg (entries_bytes (take j es))) as Hbytes0.
  assert (zlength (entry_bytes e) = zlength (entry_name e) + 2 +
    match entry_link e with LinkContent _ => 32 | LinkPath k => zlength k + 1 end) as Hbytes.
  { unfold entry_bytes. destruct (entry_link e) as [h|k]; rewrite !zlength_app; change (zlength [0]) with 1;
      change (zlength [B3_DIR_IS_SYM_LINK]) with 1; [|lia]. unfold is_hash in Hwl. change (zlength []) with 0.
    unfold zlength at 2. rewrite Hwl. lia. }
  set (cur := zlength pre + 2 + zlength (entry_name e)) in *.
  pose proof (stream_to_link it _ _ _ _ _ Hit Hflag eq_refl Hz) as Hto. cbn zeta in Hto. fold cur in Hto.
  destruct (entry_link e) as [h|k] eqn:Hlink.
  - eexists. split.
    + apply (Hto 2%nat). apply (delivers_later f ns _ _ (mkDirEntriesIter path cur (zlength pre) WaitingReadContent (entry_name e) 0 false));
        [split; [done|by left]|].
      destruct (on_future_run f ns (mkDirEntriesIter path cur (zlength pre) WaitingReadContent (entry_name e) 0 false)
        (fs_read_exact path cur 32) (λ buffer, it_yield 32 (LinkContent buffer)) h) as [H1 H0]; [done| |].
      { eapply read_exact_run; [exact Hrest|apply Hcur|]. unfold is_hash in Hwl. unfold zlength. by rewrite Hwl. }
      apply delivers_now; [|exact H0]. etrans; [exact H1|]. rewrite yield_run. by rewrite <-Hlink, <-surjective_entry.
    + split_and!; [done|done|]. cbn [it_position]. unwrap_small. lia.
  - apply valid_link in Hvl. rewrite <-(app_assoc k) in Hrest. eexists. split.
    + apply (Hto 2%nat). apply (delivers_later f ns _ _ (mkDirEntriesIter path cur (zlength pre) WaitingReadPath (entry_name e) 2 false));
        [split; [done|by left]|].
      destruct (on_future_run f ns (mkDirEntriesIter path cur (zlength pre) WaitingReadPath (entry_name e) 2 false)
        (fs_read_until path cur) (λ buffer_link, match buffer_link with [] => panic
          | _ => it_yield (zlength buffer_link) (LinkPath (removelast buffer_link)) end) (k ++ [0])) as [H1 H0]; [done| |].
      { eapply read_until_run; [exact Hrest|apply Hcur|done]. }
      apply delivers_now; [|exact H0]. etrans; [exact H1|].
      assert (∀ A (x y : A), match k ++ [0] with [] => x | _ => y end = y) as Hne by (by destruct k).
      rewrite Hne, yield_run, removelast_last. by rewrite <-Hlink, <-surjective_entry.
    + split_and!; [done|done|]. cbn [it_position]. rewrite zlength_app. change (zlength [0]) with 1.
      pose proof (zlength_nonneg k). unwrap_small. lia.
Qed.

Lemma end_delivered it :
  at_entry (72 * n - 12 + l + zlength (entries_bytes es)) it → ∃ it', delivers f ns 4 it None it'.
Proof.
  intros (Hfile & Hst & Hpos). destruct it as [pa cur po s nm fl rt]. simpl in Hfile, Hst, Hpos. subst pa s.
  assert (fs_read_exact path po 1 disk = Some (Err UnexpectedEof, disk)) as Heof.
  { unfold fs_read_exact, io. simpl. unfold_M. simpl. rewrite Hf, bool_decide_false; [done|].
    rewrite zlength_app, head_length. lia. }
  eexists.
  apply (delivers_later f ns _ _ (mkDirEntriesIter path cur po WaitingReadPosition [] 0 false)); [split; [done|by left]|].
  apply (delivers_later f ns _ _ (mkDirEntriesIter path po po ReadFlag [] 0 false)).
  { by eapply (waiting_run _ _ _ _ _ fs_seek); [intros ready; reflexivity|..]. }
  apply (delivers_later f ns _ _ (mkDirEntriesIter path po po WaitingReadFlag [] 0 false)); [split; [done|by left]|].
  apply delivers_now; [|done]. unfold poll_next. rewrite fst_get. cbn [it_state]. unfold on_future. rewrite fst_get.
  cbn [it_returned it_file it_cursor negb]. by rewrite (bind_run _ _ _ _ _ (on_snd_run _ _ _ _ _ Heof)).
Qed.
End lookup.

(** So many items of the stream, one after the other. *)
Fixpoint stream_collect (k : nat) (schedule : list bool)
    : M (DirEntriesIter * Disk) (option (list (option (Result BorrowedEntry ReadError)))) :=
  match k with
  | O => mret (Some [])
  | S k =>
      r ← stream_next schedule;
      match r with
      | None => mret None
      | Some (item, rest) =>
          items ← stream_collect k rest;
          mret (match items with Some items => Some (item :: items) | None => None end)
      end
  end.

Section stream.
Context {BP : BloomPlatform} {BL : BloomLaws BP} {PP : PhfPlatform}.
Context (path : Path) (f : gmap Path Bytes) (ns : list Bytes).
Context (es : list BorrowedEntry) (hashes : Bytes) (st : HasherState).
#[local] Abbreviation disk := (mkDisk f ns []).
#[local] Abbreviation n := (zlength es).
Context (Hacc : accepted es) (Hn : 1 ≤ n ≤ 65535).
Context (Htree : length hashes = Z.to_nat (64 * n - 32)).
Context (Hdisps : zlength (hs_disps st) = n) (Hmap : zlength (hs_map st) = n).
Context (Hf : f !! path = Some (final_head n hashes es st ++ entries_bytes es)).

Lemma stream_run k it schedule :
  (k ≤ length es)%nat →
  at_entry path (72 * n - 12 + Z.of_nat (bloom_len n) + zlength (entries_bytes (take (length es - k) es))) it →
  (8 * k + 4 ≤ ready_polls schedule)%nat →
  ∃ it', stream_collect (S k) schedule (it, disk) =
    Some (Some ((Some ∘ Ok <$> drop (length es - k) es) ++ [None]), (it', disk)).
Proof.
  revert it schedule. induction k as [|k IH]; intros it schedule Hk Hit Hs.
  - rewrite Nat.sub_0_r in *. rewrite take_ge in Hit by done. rewrite drop_ge by done.
    destruct (end_delivered path f ns es hashes st Hn Htree Hdisps Hmap Hf it Hit) as [it' Hdel].
    destruct (stream_next_run f ns 4 it None it' schedule Hdel ltac:(lia)) as (rest & Hr & _).
    exists it'. cbn [stream_collect]. by rewrite (bind_run _ _ _ _ _ Hr).
  - destruct (lookup_lt_is_Some_2 es (length es - S k)) as [e He]; [lia|].
    destruct (entry_delivered path f ns es hashes st Hacc Hn Htree Hdisps Hmap Hf _ e it He Hit) as (it1 & Hdel & Hit1).
    destruct (stream_next_run f ns 8 it _ it1 schedule Hdel ltac:(lia)) as (rest & Hr & Hl).
    replace (S (length es - S k)) with (length es - k)%nat in Hit1 by lia.
    destruct (IH it1 rest ltac:(lia) Hit1 ltac:(lia)) as [it' Hrun]. exists it'. cbn [stream_collect] in Hrun |- *.
    rewrite (bind_run _ _ _ _ _ Hr). cbn iota beta. rewrite (bind_run _ _ _ _ _ Hrun).
    rewrite (drop_S es e (length es - S k) He). replace (S (length es - S k)) with (length es - k)%nat by lia. done.
Qed.
End stream.

(** ** A stored directory *)

Lemma read_dir_header b root f ns n rest :
  0 ≤ n ≤ 65535 →
  f !! get_header_path b root = Some (to_le_bytes 4 HEADER_DIR_VERSION ++ to_le_bytes 4 n ++ rest) →
  bucket_get b root (mkDisk f ns []) = Some (Ok (mkContentHeader false n (get_header_path b root)), mkDisk f ns []).
Proof.
  intros Hn Hf. unfold bucket_get. erewrite try_bind_ok.
  2: { unfold fs_read, io. simpl. unfold_M. simpl. by rewrite Hf. }
  pose proof (to_le_bytes_length 4 n) as Hl. pose proof (le_bytes_roundtrip 4 n ltac:(simpl; lia)) as Hr.
  destruct (to_le_bytes 4 n) as [|x0 [|x1 [|x2 [|x3 [|]]]]]; try done.
  change (to_le_bytes 4 HEADER_DIR_VERSION) with [1; 0; 0; 0]. cbn [app length take drop].
  rewrite bool_decide_false by lia. change (from_le_bytes [1; 0; 0; 0]) with 1.
  rewrite take_0, Hr, bool_decide_false, (bool_decide_false (1 = 0)) by lia. cbn [negb andb].
  by rewrite bool_decide_false by lia.
Qed.

Section roundtrip.
Context {P : Platform} {PL : PlatformLaws P} {BP : BloomPlatform} {BL : BloomLaws BP} {PP : PhfPlatform} {LP : PhfLaws PP}.
#[local] Abbreviation m := (iv_merge IV_DIR).
#[local] Arguments iv_merge : simpl never.

(** The table of a directory fits its file. *)
Lemma dir_table_facts es j st :
  accepted es → zlength es ≤ 65535 → try_generate_hash (dir_items es) (small_rng j) = Some (Some st) →
  in_width 64 (hs_key st) ∧ zlength (hs_disps st) = zlength es ∧ zlength (hs_map st) = zlength es ∧
  Forall (λ d : Z * Z, 0 ≤ d.1 < 2 ^ 16 ∧ 0 ≤ d.2 < 2 ^ 16) (hs_disps st) ∧
  Forall (λ x, 0 ≤ x < 2 ^ 28) (hs_map st).
Proof.
  intros Hacc Hn Hg. destruct (phf_shape _ _ _ Hg) as (_ & -> & Hd & Hm & Hd16 & Hm32).
  assert (zlength (dir_items es) = zlength es) as Hlen by (unfold zlength, dir_items; by rewrite items_from_length).
  rewrite Hlen in *. split_and!; [apply small_rng_width|done|done|..].
  - eapply Forall_impl; [exact Hd16|]. intros d. cbn beta. lia.
  - eapply Forall_impl; [exact Hm32|]. intros off [->|Hin]; [lia|].
    apply list_elem_of_fmap_1 in Hin as ([name off'] & -> & Hin). apply list_elem_of_lookup_1 in Hin as [i Hi].
    destruct (es !! i) as [e|] eqn:He.
    2: { apply lookup_ge_None in He. apply lookup_lt_Some in Hi. unfold zlength in Hlen. lia. }
    rewrite (dir_items_lookup es i e Hacc Hn He) in Hi. simplify_eq. cbn [snd].
    pose proof (entries_bytes_length _ (Forall_take _ i _ Hacc)) as Hb.
    assert (zlength (take i es) ≤ zlength es) by (unfold zlength; rewrite length_take; lia).
    pose proof (zlength_nonneg (entries_bytes (take i es))). lia.
Qed.

(** Every entry but the first of several is found in the table. *)
Lemma dir_slot es key st j e :
  accepted es → zlength es ≤ 65535 → try_generate_hash (dir_items es) key = Some (Some st) →
  es !! j = Some e → j ≠ 0%nat ∨ length es = 1%nat →
  phf_lookup st (zlength es) (entry_name e) = Some (zlength (entries_bytes (take j es))).
Proof.
  intros Hacc Hn Hg Hj Hc. pose proof (dir_items_lookup es j e Hacc Hn Hj) as Hi.
  assert (zlength (dir_items es) = zlength es) as Hlen by (unfold zlength, dir_items; by rewrite items_from_length).
  rewrite <-Hlen. eapply phf_slot; [done|by eapply list_elem_of_lookup_2|]. rewrite Hlen.
  pose proof (entries_bytes_length _ (Forall_take _ j _ Hacc)) as Hb. apply lookup_lt_Some in Hj.
  assert (zlength (take j es) = Z.of_nat j) as Ht by (unfold zlength; rewrite length_take; lia).
  destruct Hc as [Hc|Hc]; [left; unfold zlength in *; lia|right]. assert (j = 0%nat) as -> by lia.
  split; [done|]. unfold zlength. lia.
Qed.

(** What a reader finds in the file of a directory: by name the entries with names in
    UTF-8, except for the first of several, and nothing for a name that the filter
    excludes; in the stream all entries in their order, however its polls are answered. *)
Definition reads_back (es : list BorrowedEntry) (dir : B3Dir) (quiet : Disk) : Prop :=
  (∀ j e, es !! j = Some e → j ≠ 0%nat ∨ length es = 1%nat → is_utf8 (entry_name e) = true →
     ∃ dir', get_entry (entry_name e) (dir, quiet) =
       Some (Ok (Some (mkFoundEntry e (link_memory (entry_link e)))), (dir', quiet))) ∧
  (∀ name, bloom_contains (bloom_all (zlength es) es) name = false →
     ∃ dir', get_entry name (dir, quiet) = Some (Ok None, (dir', quiet))) ∧
  ∃ it, dir_entries (dir, quiet) = Some (Ok it, (dir, quiet)) ∧
    ∀ schedule, (8 * length es + 4 ≤ ready_polls schedule)%nat →
      ∃ it', stream_collect (S (length es)) schedule (it, quiet) =
        Some (Some ((Some ∘ Ok <$> es) ++ [None]), (it', quiet)).

Lemma dir_reads_back b es root hashes i st f ns :
  accepted es → es ≠ [] → zlength es ≤ 65535 → try_generate_hash (dir_items es) (small_rng i) = Some (Some st) →
  length hashes = Z.to_nat (64 * zlength es - 32) →
  f !! get_header_path b root = Some (final_head (zlength es) hashes es st ++ entries_bytes es) →
  let quiet := mkDisk f ns [] in
  bucket_get b root quiet = Some (Ok (mkContentHeader false (zlength es) (get_header_path b root)), quiet) ∧
  ∀ dir, dir_open (get_header_path b root) es st dir → reads_back es dir quiet.
Proof.
  intros Hacc Hne Hn Hg Htree Hf quiet. destruct (dir_table_facts es i st Hacc Hn Hg) as (Hkey & Hd & Hm & Hd16 & Hm32).
  assert (1 ≤ zlength es ≤ 65535) as Hn1 by (destruct es; [done|unfold zlength in *; simpl in *; lia]).
  split.
  { eapply read_dir_header; [lia|]. rewrite Hf. unfold final_head, dir_head. by rewrite <-!app_assoc. }
  intros dir Hdir. split_and!.
  - intros j e Hj Hc Hu. pose proof (dir_slot es _ st j e Hacc Hn Hg Hj Hc) as Hs.
    destruct (get_entry_run _ f ns es _ st Hacc Hn1 Htree Hkey Hd Hm Hd16 Hm32 Hf dir j e Hdir Hj Hu Hs) as (d' & _ & Hget).
    by exists d'.
  - intros name Hno.
    destruct (get_entry_absent _ f ns es _ st Hn1 Htree Hf dir name Hdir Hno) as (d' & _ & Hget). by exists d'.
  - eexists. split; [reflexivity|]. intros schedule Hs.
    pose proof (stream_run _ f ns es _ st Hacc Hn1 Htree Hd Hm Hf (length es)
      (entries_iter_new (bd_file dir) (position_start_entries (bd_positions dir))) schedule) as Hrun.
    rewrite Nat.sub_diag in Hrun. apply Hrun; [done| |done].
    destruct Hdir as (_ & Hfile & Hpos & _). destruct (positions_run (zlength es) Hn1) as [Hp _].
    split_and!; [exact Hfile|done|]. cbn [entries_iter_new it_position]. rewrite Hpos, Hp. cbn [position_start_entries take].
    rewrite take_0. change (zlength (entries_bytes [])) with 0. lia.
Qed.

(** C13: A directory is read back as it was written.  For a list of entries, not empty,
    that has a hash, and when some key of the random sequence gives a table, whichever
    operations of the disk fail, the session of a trusted writer does not panic; it
    returns the hash of the directory if nothing fails, and whenever it returns a hash
    then it is this one, and no other file has changed.  The header is that of a
    directory with the number of entries.  The lookup of the name of an entry, if it is
    UTF-8, finds the entry, for every entry but the first of several: the link of a
    symlink is returned, and the hash of a content is read into the buffer that the
    lookup frees on return.  A name that the filter excludes is not found; and the
    stream gives all entries with their links in their order and then ends, for every
    schedule of its polls. *)
Theorem dir_write_roundtrip fuel b es d t hn ns root i st0 :
  Forall entry_wf es → es ≠ [] → hash_dir es = Some (Ok root) → names d = t :: hn :: ns →
  try_generate_hash (dir_items es) (small_rng i) = Some (Some st0) → (i < fuel)%nat →
  ∃ r d', store_dir fuel b es d = Some (r, d') ∧ (faults d = [] → r = Ok root) ∧
    ∀ hash, r = Ok hash →
      let quiet := with_faults [] d' in
      hash = root ∧
      (∀ p, p ≠ get_header_path b root → p ≠ tmp b t hn → files d' !! p = files d !! p) ∧
      ∃ h dir, bucket_get b root quiet = Some (Ok h, quiet) ∧ into_dir h = Some dir ∧
        bd_num_entries dir = zlength es ∧ reads_back es dir quiet.
Proof.
  intros Hw Hne Hh Hnames Hg0 Hfuel. destruct (hash_dir_run es root Hw Hne Hh) as (Hacc & Hn & _).
  assert (zlength (dir_items es) = zlength es) as Hlen by (unfold zlength, dir_items; by rewrite items_from_length).
  assert (1 ≤ zlength es ≤ 65535) as Hn1 by (destruct es; [done|unfold zlength in *; simpl in *; lia]).
  destruct (find_key_run (dir_items es) i 0 st0) as (j & st & _ & Hg & Hrun); [by rewrite Hlen|lia|done|].
  destruct (dir_table_facts es j st Hacc Hn Hg) as (_ & Hd & Hm & _).
  destruct d as [f0 ns0 fs]. simpl in *. subst ns0.
  pose proof (store_dir_run fuel b t hn ns f0 es root st Hw Hne Hh (Hrun fuel ltac:(lia)) Hd Hm) as Hstore.
  set (f' := <[get_header_path b root:=dir_file es st]> (delete (tmp b t hn) f0)) in *.
  assert (∀ p, p ≠ get_header_path b root → p ≠ tmp b t hn → f' !! p = f0 !! p) as Hothers
    by (intros p Hp Hp'; unfold f'; by rewrite lookup_insert_ne, lookup_delete_ne).
  destruct (dir_reads_back b es root _ j st f' ns Hacc Hne Hn Hg (dir_array_length es Hacc Hne Hn)) as [Hget Hback];
    [apply lookup_insert_eq|].
  assert (∃ h dir, bucket_get b root (mkDisk f' ns []) = Some (Ok h, mkDisk f' ns []) ∧ into_dir h = Some dir ∧
    bd_num_entries dir = zlength es ∧ reads_back es dir (mkDisk f' ns [])) as Hread.
  { eexists _, _. split; [exact Hget|]. split; [reflexivity|]. pose proof (dir_open_new (get_header_path b root) es st Hn1) as Hopen.
    split; [apply Hopen|by apply Hback]. }
  destruct (tolerant_store_dir fuel b es (mkDisk f0 (t :: hn :: ns) []) root _ Hstore) as [_ Hfs].
  destruct fs as [|fault fs].
  { exists (Ok root), (mkDisk f' ns []). split_and!; [done|done|]. by intros hash [= <-]. }
  destruct (Hfs (fault :: fs)) as [[fs' Hok]|(e & d' & Herr)].
  - exists (Ok root), (mkDisk f' ns fs'). split_and!; [done|done|]. by intros hash [= <-].
  - by exists (Err e), d'.
Qed.
End roundtrip.

(** ** The iterator of [sync] *)

(** The flag is read twice: an entry of a content comes without the first byte of its
    name, if this byte looks like the flag of a content, and the next entry is looked
    for one byte too early. *)
Lemma sync_next_drops_byte path f ns pre y c name h :
  Forall (λ x, x ≠ 0) name → is_hash h → Z.land c B3_DIR_IS_SYM_LINK = 0 → zlength (pre ++ name) < 2 ^ 60 →
  f !! path = Some (pre ++ entry_bytes (mkBorrowedEntry (c :: name) (LinkContent h)) ++ y) →
  sync_next (mkSyncEntriesIter path (zlength pre), mkDisk f ns []) =
    Some (Some (Ok (mkBorrowedEntry name (LinkContent h))),
      (mkSyncEntriesIter path (zlength pre + zlength (entry_bytes (mkBorrowedEntry (c :: name) (LinkContent h))) - 1),
       mkDisk f ns [])).
Proof.
  intros Hz Hh Hc Hb Hf. unfold is_hash in Hh. unfold entry_bytes in *. cbn [entry_name entry_link app] in *.
  rewrite app_nil_r in *. pose proof (zlength_nonneg pre). pose proof (zlength_nonneg name). rewrite zlength_app in Hb.
  assert (∀ a x z, f !! path = Some (a ++ x ++ z) → ∀ len, zlength x = len →
    fs_read_exact path (zlength a) len (mkDisk f ns []) = Some (Ok x, mkDisk f ns [])) as Hread
    by (intros a x z Ha len Hl; by eapply read_exact_run).
  assert (f !! path = Some ((pre ++ [0]) ++ [c] ++ name ++ [0] ++ h ++ y)) as Hf1
    by (rewrite Hf; cbn [app]; by rewrite <-!app_assoc).
  assert (f !! path = Some ((pre ++ [0; c]) ++ name ++ [0] ++ h ++ y)) as Hf2 by (rewrite Hf1, <-!app_assoc; done).
  assert (f !! path = Some ((pre ++ [0; c] ++ name ++ [0]) ++ h ++ y)) as Hf3 by (rewrite Hf2, <-!app_assoc; done).
  unfold sync_next. rewrite fst_get. unfold sync_read. cbn [sy_position sy_file].
  rewrite (bind_run _ _ _ _ _ (on_snd_run fs_seek _ (mkDisk f ns []) (Ok tt) _ eq_refl)). cbn iota.
  rewrite (bind_run _ _ _ _ _ (on_snd_run _ _ _ _ _ (Hread pre [0] _ Hf 1 eq_refl))). cbn iota.
  replace (zlength pre + 1) with (zlength (pre ++ [0])) by (rewrite zlength_app; done).
  rewrite (bind_run _ _ _ _ _ (on_snd_run _ _ _ _ _ (Hread (pre ++ [0]) [c] _ Hf1 1 eq_refl))). cbn iota.
  replace (zlength (pre ++ [0]) + 1) with (zlength (pre ++ [0; c]))
    by (rewrite !zlength_app; change (zlength [0]) with 1; change (zlength [0; c]) with 2; lia).
  rewrite (bind_run _ _ _ _ _ (on_snd_run _ _ _ _ _ (read_until_run path f ns _ _ _ _ Hf2 eq_refl Hz))). cbn iota.
  replace (zlength (pre ++ [0; c]) + zlength (name ++ [0])) with (zlength (pre ++ [0; c] ++ name ++ [0]))
    by (rewrite !zlength_app; lia).
  rewrite bool_decide_true by exact Hc. cbn [negb].
  rewrite (bind_run _ _ _ _ _ (on_snd_run _ _ _ _ _ (Hread _ h _ Hf3 32 ltac:(unfold zlength; by rewrite Hh)))). cbn iota.
  rewrite removelast_last. erewrite bind_run by reflexivity. unfold mret, M_ret. cbn [fst snd sy_position sy_file].
  unwrap_small. rewrite !zlength_cons, zlength_app, zlength_cons. assert (zlength h = 32) as -> by (unfold zlength; by rewrite Hh). do 4 f_equal. lia.
Qed.

(** ** A directory without entries *)

(** The space for the hashes of no entry overflows, which panics. *)
Lemma empty_dir_panics {BP : BloomPlatform} {T} b f t hn ns (c : T) :
  new_with_collector b 0 c (mkDisk f (t :: hn :: ns) []) = None.
Proof. reflexivity. Qed.
