(* ===== verification/DirUntrusted.v ===== *)
(** * DirUntrusted: what an untrusted writer of directories stores

    [UntrustedDirWriter] of [lib/b3fs/src/bucket/dir/uwriter.rs] with the collector of
    [dir/state/uwriter.rs]: a peer sends proofs and entries for a known hash, and
    marks the last entry.  If only the last entry is marked, a commit that succeeds
    has stored the directory with this hash, or the peer has found a collision.  An
    entry that is marked and is not the last one is stored without verification. *)

From S2P Require Import Prelude Types Codec HashTree ProofBuf Blake3 Blake3Tree Forest Verifier Streaming Collecting DirHasher ByteHasher ByteTree ContentHash Collectors ContentSteps Bucket BucketWrite BucketFaults BucketUntrusted AsyncTree Phf DirBucket DirReader DirWrite DirStored DirLookup.
From stdpp Require Import base list gmap strings.
From Stdlib Require Import ZArith Lia.
Open Scope Z_scope.

(** ** A session *)

(** What a peer sends. *)
Inductive DirFrame := DirProof (proof : Bytes) | DirChunk (e : BorrowedEntry) | DirLastChunk (e : BorrowedEntry).

(** The entries, with their marks. *)
Fixpoint inserts (frames : list DirFrame) : list (BorrowedEntry * bool) :=
  match frames with
  | [] => []
  | DirProof _ :: frames => inserts frames
  | DirChunk e :: frames => (e, false) :: inserts frames
  | DirLastChunk e :: frames => (e, true) :: inserts frames
  end.

Section session.
Context {P : Platform} {BP : BloomPlatform} {PP : PhfPlatform}.

(** A session goes on while nothing fails. *)
Fixpoint receive_frames (frames : list DirFrame) : M (InnerDirState DirUWriterCollector * Disk) (Result unit unit) :=
  match frames with
  | [] => mret (Ok tt)
  | DirProof proof :: frames => map_err (λ _, tt) (untrusted_dir_feed_proof proof);;? receive_frames frames
  | DirChunk e :: frames => map_err (λ _, tt) (insert_entry e false);;? receive_frames frames
  | DirLastChunk e :: frames => map_err (λ _, tt) (insert_entry e true);;? receive_frames frames
  end.

Definition receive_dir (fuel : nat) (bucket : Bucket) (num_entries : Z) (hash : Bytes) (frames : list DirFrame)
    : M Disk (Result Bytes unit) :=
  w ←? map_err (λ _, tt) (untrusted_dir_new bucket num_entries hash);
  λ d, match (receive_frames frames;;? map_err (λ _, tt) (dir_commit fuel)) (w, d) with
       | Some (r, (_, d)) => Some (r, d)
       | None => None
       end.

(** The hash of an entry is that of an inner node of the directory, or that of another
    transcript in its place. *)
Definition forged_entry (es : list BorrowedEntry) (i : Z) (e : BorrowedEntry) : Prop :=
  ∃ is_root h, hash_entry e i is_root = Some h ∧
    (inner IV_DIR (dir_tree es) h ∨
     ∃ e0, es !! Z.to_nat i = Some e0 ∧
       write_entry_transcript e (wrap 16 i) is_root ≠ write_entry_transcript e0 (wrap 16 i) (bool_decide (length es = 1%nat)) ∧
       h = leaf_hash e0 i (bool_decide (length es = 1%nat))).
End session.

(** ** Transcripts *)

Lemma split_at_zero (a b a0 b0 : Bytes) :
  Forall (λ c, c ≠ 0) a0 → Forall (λ c, c ≠ 0) b0 → a ++ 0 :: b = a0 ++ 0 :: b0 → a = a0 ∧ b = b0.
Proof.
  intros Ha Hb. revert a. induction Ha as [|x a0 Hx _ IH]; intros [|y a]; simpl; intros Heq; simplify_eq; try done.
  - exfalso. apply Forall_app in Hb as [_ Hb]. apply Forall_cons in Hb as [Hb _]. done.
  - destruct (IH a) as [-> ->]; done.
Qed.

(** A transcript determines a valid entry and the root flag. *)
Lemma transcript_inj e e0 i r r0 :
  entry_wf e → entry_wf e0 → entry_valid e0 = true →
  write_entry_transcript e i r = write_entry_transcript e0 i r0 → (r, e) = (r0, e0).
Proof.
  intros [_ Hw] [_ Hw0] [Hn0 Hl0]%andb_true_iff Heq. apply valid_filename in Hn0 as [_ Hz].
  unfold write_entry_transcript in Heq. destruct e as [name link], e0 as [name0 link0]. cbn [entry_name entry_link] in *.
  destruct link as [h|k], link0 as [h0|k0]; cbn [app] in Heq; injection Heq as Hflag Heq; try (by destruct r, r0).
  - assert (r = r0) as -> by (by destruct r, r0). rewrite !app_comm_cons, !app_assoc in Heq.
    apply app_inj_2 in Heq as [Heq _]; [|done]. unfold is_hash in *.
    apply app_inj_2 in Heq as [-> [= ->]]; [done|]. simpl. by rewrite Hw, Hw0.
  - assert (r = r0) as -> by (by destruct r, r0). apply valid_link in Hl0.
    rewrite !app_comm_cons, !app_assoc in Heq. apply app_inj_2 in Heq as [Heq _]; [|done].
    by destruct (split_at_zero _ _ _ _ Hz Hl0 Heq) as [-> ->].
Qed.

(** ** The verification of an entry *)

Section receiving.
Context {P : Platform} {PL : PlatformLaws P} {BP : BloomPlatform} {BL : BloomLaws BP} {PP : PhfPlatform}.
#[local] Abbreviation iv := IV_DIR.
#[local] Abbreviation m := (iv_merge iv).
#[local] Arguments iv_merge : simpl never.

Context (b : Bucket) (t hn : Bytes) (f0 : gmap Path Bytes) (ns : list Bytes) (n : Z) (Hn : 1 ≤ n ≤ 65535).
Context (es0 : list BorrowedEntry) (root : Bytes) (Hacc : accepted es0) (Hne : es0 ≠ []) (Hn0 : zlength es0 ≤ 65535).
#[local] Abbreviation t0 := (dir_tree es0).
#[local] Abbreviation single := (bool_decide (length es0 = 1%nat)).
#[local] Abbreviation writing := (writing_dir b t hn f0 ns n).

(** The collector after [k] verified entries. *)
Definition entries_verified (k : Z) (c : DirUWriterCollector) : Prop :=
  collecting iv t0 k (du_hasher c) ∧ du_root_hash c = root ∧ du_counter c = k.

(** An accepted entry is that of the directory, or forged. *)
Lemma entry_verified (F : Type) (g : VerificationError → F) c e (last : bool) k c' :
  0 ≤ k < 65535 → entry_wf e → entries_verified k c →
  (hash ← create_hash e last; map_err g (du_verifier (verify_hash hash))) c = Some (Ok tt, c') →
  du_last_entry c' = du_last_entry c ∧
  ((es0 !! Z.to_nat k = Some e ∧ entries_verified (k + 1) c') ∨ forged_entry es0 k e).
Proof.
  intros Hk He (Hv & Hr & Hc) Hrun. destruct (dir_tree_facts es0 Hacc Hne Hn0) as (Hs & Hl & Hcount & _).
  assert (count t0 < 2 ^ 40) as Hct by lia.
  set (r := last && bool_decide (k = 0)).
  assert (∃ h c1, create_hash e last c = Some (h, c1) ∧ hash_entry e k r = Some h ∧
    c1 = mkDirUWriterCollector (du_hasher c) root (k + 1) (du_last_entry c)) as (h & c1 & Hh & Hentry & ->).
  { unfold create_hash in Hrun |- *. unfold_M. rewrite Hc in Hrun |- *. fold r in Hrun |- *.
    assert (wrap 16 k = k) as Hwk by (apply wrap_small; unfold in_width; lia).
    unfold hash_entry, hash_transcript. rewrite Hwk.
    destruct (iv_hash_all_at_once IV_DIR (write_entry_transcript e k r)) as [h|]; [|done].
    eexists h, _. split_and!; [reflexivity|done|]. cbn. rewrite Hr, Hc. f_equal. apply wrap_small. unfold in_width. lia. }
  rewrite (bind_run _ _ _ _ _ Hh) in Hrun. apply map_err_inv in Hrun. unfold du_verifier in Hrun. cbn [du_hasher] in Hrun.
  destruct (verify_hash h (du_hasher c)) as [[[[]|] v']|] eqn:Hver; [|done..]. simplify_eq/=. split; [done|].
  destruct (collecting_block iv t0 Hs Hct _ _ _ _ Hv Hver) as [[Hleaf Hv']|Hin]; [|right; exists r, h; split; [done|by left]].
  rewrite Hl in Hleaf. unfold dir_leaves in Hleaf. rewrite list_lookup_imap in Hleaf.
  destruct (es0 !! Z.to_nat (du_counter c)) as [e0|] eqn:He0; [|done]. simpl in Hleaf. rewrite Z2Nat.id in Hleaf by lia.
  injection Hleaf as Hleaf. apply (Forall_lookup_1 _ _ _ _ Hacc) in He0 as Hwf0. destruct Hwf0 as [Hw0 Hv0].
  destruct (decide (write_entry_transcript e (wrap 16 (du_counter c)) r =
    write_entry_transcript e0 (wrap 16 (du_counter c)) single)) as [Htr|Htr].
  - apply transcript_inj in Htr as [= _ ->]; [|done..]. by left.
  - right. exists r, h. split; [done|]. right. by exists e0.
Qed.

(** ** The frames *)

(** The peer has forged a proof, or an entry when [k] of them have come before. *)
Definition forged_by (k : nat) (frames : list DirFrame) : Prop :=
  (∃ proof items, DirProof proof ∈ frames ∧ proof_items proof = Some items ∧ forges iv t0 (proof_tree items)) ∨
  (∃ i e, (inserts frames).*1 !! i = Some e ∧ forged_entry es0 (Z.of_nat (k + i)) e).

Lemma forged_proof k proof frames : forged_by k frames → forged_by k (DirProof proof :: frames).
Proof.
  intros [(p & items & Hp & Hf)|Hf]; [left|by right]. exists p, items. split; [by right|done].
Qed.

Lemma forged_later k e last frames frames' :
  inserts frames' = (e, last) :: inserts frames → (∀ x, x ∈ frames → x ∈ frames') →
  forged_by (S k) frames → forged_by k frames'.
Proof.
  intros Hi Hsub [(p & items & Hp & Hf)|(i & x & Hx & Hf)]; [left|right].
  - exists p, items. split; [by apply Hsub|done].
  - exists (S i), x. rewrite Hi. split; [done|]. by replace (k + S i)%nat with (S k + i)%nat by lia.
Qed.

(** A proof is fed. *)
Lemma dir_feed_inv es c k proof s' :
  entries_verified k c → untrusted_dir_feed_proof proof (writing es c) = Some (Ok tt, s') →
  (∃ c', s' = writing es c' ∧ entries_verified k c' ∧ du_last_entry c' = du_last_entry c) ∨
  ∃ items, proof_items proof = Some items ∧ forges iv t0 (proof_tree items).
Proof.
  intros (Hv & Hr & Hc) Hrun. destruct (dir_tree_facts es0 Hacc Hne Hn0) as (Hs & _ & Hcount & _).
  unfold untrusted_dir_feed_proof, on_dir_collector, du_feed_proof, du_verifier in Hrun.
  cbn [writing_dir fst snd dir_state ds_collector] in Hrun.
  destruct (feed_proof proof (du_hasher c)) as [[[[]|] v']|] eqn:Hf; [|done..]. simplify_eq/=.
  destruct (collecting_proof iv t0 Hs ltac:(lia) _ _ _ _ Hv Hf) as [Hv'|Hf']; [left|by right].
  eexists. split; [reflexivity|]. done.
Qed.

(** After the last entry only proofs come. *)
Lemma rest_inv frames es c k s' :
  inserts frames = [] → entries_verified k c → receive_frames frames (writing es c) = Some (Ok tt, s') →
  (∃ c', s' = writing es c' ∧ entries_verified k c' ∧ du_last_entry c' = du_last_entry c) ∨ forged_by (length es) frames.
Proof.
  revert c. induction frames as [|[proof|e|e] frames IH]; intros c Hi Hc Hrun; [|simpl in Hi|done..].
  { cbn [receive_frames] in Hrun. unfold_M. simplify_eq. left. by exists c. }
  cbn [receive_frames] in Hrun. apply try_bind_inv in Hrun as ([] & s1 & Hp & Hrun). apply map_err_inv in Hp.
  destruct (dir_feed_inv es c k proof s1 Hc Hp) as [(c1 & -> & Hc1 & Hl1)|(items & Hit & Hf)].
  - destruct (IH c1 Hi Hc1 Hrun) as [(c' & -> & Hc' & Hl')|Hf]; [|right; by apply forged_proof].
    left. exists c'. split_and!; [done|done|congruence].
  - right. left. exists proof, items. split; [left|done].
Qed.

Lemma frames_inv frames es c xs x s' :
  inserts frames = ((λ e, (e, false)) <$> xs) ++ [(x, true)] → zlength (es ++ xs) < n → Forall entry_wf (xs ++ [x]) →
  es `prefix_of` es0 → entries_verified (zlength es) c → receive_frames frames (writing es c) = Some (Ok tt, s') →
  (∃ c', s' = writing (es ++ xs ++ [x]) c' ∧ es ++ xs `prefix_of` es0 ∧ entries_verified (zlength (es ++ xs)) c' ∧
     du_last_entry c' = Some x) ∨ forged_by (length es) frames.
Proof.
  revert es c xs. induction frames as [|[proof|e|e] frames IH]; intros es c xs Hi Hl Hw Hpre Hc Hrun.
  { simpl in Hi. by destruct xs. }
  - cbn [receive_frames] in Hrun. apply try_bind_inv in Hrun as ([] & s1 & Hp & Hrun). apply map_err_inv in Hp.
    destruct (dir_feed_inv es c _ proof s1 Hc Hp) as [(c1 & -> & Hc1 & _)|(items & Hit & Hf)].
    + destruct (IH es c1 xs Hi Hl Hw Hpre Hc1 Hrun) as [Hok|Hf]; [by left|right; by apply forged_proof].
    + right. left. exists proof, items. split; [left|done].
  - destruct xs as [|y xs]; [done|]. simpl in Hi. injection Hi as -> Hi. cbn [receive_frames] in Hrun.
    apply try_bind_inv in Hrun as ([] & s1 & Hins & Hrun). apply map_err_inv in Hins.
    apply Forall_cons in Hw as [Hy Hw]. rewrite zlength_app, zlength_cons in Hl. pose proof (zlength_nonneg xs). pose proof (zlength_nonneg es).
    rewrite insert_entry_run in Hins by lia. cbn [on_insert dir_untrusted_collector] in Hins.
    destruct (du_on_insert y false c) as [[r c1]|] eqn:Hon; [|done]. injection Hins as -> <-.
    destruct (entry_verified _ _ c y false (zlength es) c1 ltac:(lia) Hy Hc Hon) as (_ & [[He Hc1]|Hf]).
    + assert (es ++ [y] `prefix_of` es0) as Hpre'.
      { destruct Hpre as [tl ->]. unfold zlength in He. rewrite Nat2Z.id, lookup_app_r, Nat.sub_diag in He by lia.
        destruct tl as [|y' tl]; [done|]. injection He as ->. exists tl. by rewrite <-app_assoc. }
      destruct (IH (es ++ [y]) c1 xs Hi) as [Hok|Hf]; [|done|done| |done|left|right].
      * rewrite <-app_assoc, zlength_app. cbn [app]. rewrite zlength_cons. lia.
      * rewrite zlength_app. exact Hc1.
      * rewrite <-!app_assoc in Hok. exact Hok.
      * rewrite length_app, Nat.add_1_r in Hf. eapply forged_later; [reflexivity|by right|exact Hf].
    + right. right. exists 0%nat, y. rewrite Nat.add_0_r. done.
  - destruct xs as [|y xs]; [|done]. simpl in Hi. injection Hi as -> Hi. cbn [receive_frames] in Hrun. rewrite app_nil_r in *.
    apply try_bind_inv in Hrun as ([] & s1 & Hins & Hrun). apply map_err_inv in Hins.
    rewrite insert_entry_run in Hins by done. injection Hins as <-.
    set (c1 := mkDirUWriterCollector _ _ _ _) in Hrun. assert (entries_verified (zlength es) c1) as Hc1 by exact Hc.
    destruct (rest_inv frames (es ++ [x]) c1 _ s' Hi Hc1 Hrun) as [(c' & -> & Hc' & Hl')|Hf]; [left; by exists c'|right].
    rewrite length_app, Nat.add_1_r in Hf. eapply forged_later; [reflexivity|by right|exact Hf].
Qed.

(** ** The commit *)

Lemma last_inv c k x r c' :
  0 ≤ k < 65535 → entry_wf x → entries_verified k c → du_last_entry c = Some x → du_on_commit c = Some (Ok r, c') →
  (es0 !! Z.to_nat k = Some x ∧ k + 1 = zlength es0 ∧ r = (root, post_order m true t0)) ∨ forged_entry es0 k x.
Proof.
  intros Hk Hx Hc Hlast Hrun. unfold du_on_commit in Hrun. rewrite (bind_run get _ c c c eq_refl), Hlast in Hrun.
  apply try_bind_inv in Hrun as ([] & c1 & Hver & Hrun).
  destruct (entry_verified _ _ c x true k c1 Hk Hx Hc Hver) as (_ & [[He (Hv & Hr & _)]|Hf]); [left|by right].
  rewrite (bind_run get _ c1 c1 c1 eq_refl) in Hrun. destruct (finalize (du_hasher c1)) as [tree|] eqn:Hf; [|done].
  cbn [unwrap] in Hrun. injection Hrun as <- <-.
  destruct (dir_tree_facts es0 Hacc Hne Hn0) as (Hs & _ & Hcount & _).
  destruct (collecting_final iv t0 Hs ltac:(lia) _ _ _ Hv Hf) as [Hk1 ->].
  split_and!; [done|lia|by rewrite Hr].
Qed.

Lemma find_key_inv fuel i items st :
  find_key fuel i items = Some st → ∃ j, try_generate_hash items (small_rng j) = Some (Some st).
Proof.
  revert i. induction fuel as [|fuel IH]; intros i Hrun; [done|]. cbn [find_key] in Hrun.
  destruct (try_generate_hash items (small_rng i)) as [[st'|]|] eqn:Hg; [|by eapply IH|done]. simplify_eq. by exists i.
Qed.

Lemma untrusted_commit_inv fuel xs x c hash s' :
  n = zlength (xs ++ [x]) → entry_wf x → xs `prefix_of` es0 → entries_verified (zlength xs) c → du_last_entry c = Some x →
  dir_commit fuel (writing (xs ++ [x]) c) = Some (Ok hash, s') →
  (hash = root ∧ xs ++ [x] = es0 ∧ ∃ st, phf_finalize fuel (dir_items es0) = Some st ∧
     s'.2 = mkDisk (<[get_header_path b root:=dir_file es0 st]> (delete (tmp b t hn) f0)) ns []) ∨
  forged_entry es0 (zlength xs) x.
Proof.
  intros Hnx Hx Hpre Hc Hlast Hrun. pose proof (zlength_nonneg xs). rewrite zlength_app in Hnx. change (zlength [x]) with 1 in Hnx.
  unfold dir_commit in Hrun. apply try_bind_inv in Hrun as (r & s1 & Hcoll & Hrun).
  unfold on_dir_collector in Hcoll. cbn [writing_dir fst snd dir_state ds_collector] in Hcoll.
  destruct (on_commit c) as [[r' c']|] eqn:Hon; [|done]. apply (inj Some), pair_equal_spec in Hcoll as [-> Hs1].
  destruct (last_inv c (zlength xs) x r c' ltac:(lia) Hx Hc Hlast Hon) as [(He & Hcount & ->)|Hf]; [left|by right].
  assert (xs ++ [x] = es0) as Hes.
  { destruct Hpre as [tl ->]. unfold zlength in He. rewrite Nat2Z.id, lookup_app_r, Nat.sub_diag in He by lia.
    rewrite zlength_app in Hcount. destruct tl as [|y tl]; [done|]. injection He as ->. rewrite zlength_cons in Hcount.
    destruct tl; [done|unfold zlength in Hcount; simpl in Hcount; lia]. }
  assert (n = zlength es0) as Hneq by lia.
  cbn beta iota in Hrun. rewrite <-Hs1, fst_get in Hrun. cbn [ds_with dir_state ds_phf_generator ds_header_file ds_bucket ds_bloom_filter] in Hrun. rewrite Hes in *.
  destruct (phf_finalize fuel (dir_items es0)) as [st|] eqn:Hst; [|done]. destruct (find_key_inv _ _ _ _ Hst) as [j Hg].
  destruct (phf_shape _ _ _ Hg) as (_ & _ & Hd & Hm & _).
  assert (zlength (dir_items es0) = zlength es0) as Hlen by (unfold zlength, dir_items; by rewrite items_from_length).
  rewrite Hlen, <-Hneq in Hd, Hm. pose proof (dir_array_length es0 Hacc Hne Hn0) as Harr. rewrite <-Hneq in Harr.
  cbn [unwrap] in Hrun. rewrite (bind_run _ _ _ _ _ eq_refl) in Hrun.
  rewrite (try_bind_ok _ _ _ _ _ (map_err_ok _ _ _ _ _ (on_snd_run _ _ _ _ _
    (header_commit_run b t hn f0 ns n Hn es0 _ root st (Nat.eq_le_incl _ _ Harr) Hd Hm)))) in Hrun.
  injection Hrun as <- <-. split_and!; [done|done|]. exists st. split; [done|]. cbn [snd].
  unfold dir_file. by rewrite hash_space_full, Hneq.
Qed.
End receiving.

Section untrusted.
Context {P : Platform} {PL : PlatformLaws P} {BP : BloomPlatform} {BL : BloomLaws BP} {PP : PhfPlatform} {LP : PhfLaws PP}.
#[local] Abbreviation m := (iv_merge IV_DIR).
#[local] Arguments iv_merge : simpl never.

(** A new writer. *)
Lemma untrusted_new_run b t hn f ns n root :
  1 ≤ n ≤ 65535 → root ≠ iv_empty IV_DIR →
  let c := mkDirUWriterCollector (mkIncrementalVerifier IV_DIR 0 [root] (WithHashTreeCollector 0 [])) root 0 None in
  untrusted_dir_new b n root (mkDisk f (t :: hn :: ns) []) = Some (Ok (writing_dir b t hn f ns n [] c).1, (writing_dir b t hn f ns n [] c).2).
Proof.
  intros Hn Hne c. unfold untrusted_dir_new. assert (du_new root = Some c) as ->.
  { unfold du_new, set_root_hash. unfold_M. cbn [verifier_new v_parent_count v_iv]. by rewrite (bool_decide_false (root = _)) by done. }
  cbn [unwrap]. rewrite (bind_run _ _ _ _ _ eq_refl). apply map_err_ok. exact (dir_new_run b t hn f ns n Hn c).
Qed.

(** ** Entries that are marked *)

(** A single entry is verified at the commit. *)
Lemma single_commit_run e root :
  entry_wf e → entry_valid e = true → root = leaf_hash e 0 true →
  ∃ c', du_on_commit (mkDirUWriterCollector (mkIncrementalVerifier IV_DIR 0 [root] (WithHashTreeCollector 0 [])) root 0 (Some e))
    = Some (Ok (root, [root]), c').
Proof.
  intros Hw Hv Hroot. set (v := mkIncrementalVerifier _ _ _ _). set (c := mkDirUWriterCollector v _ _ _).
  assert (create_hash e true c = Some (root, mkDirUWriterCollector v root 1 (Some e))) as Hcreate.
  { pose proof (hash_entry_leaf e 0 true Hw Hv) as Hh. rewrite <-Hroot in Hh. unfold hash_entry, hash_transcript in Hh.
    change (wrap 16 0) with 0 in Hh. unfold create_hash. rewrite (bind_run get _ _ _ _ eq_refl). cbn [du_counter c].
    rewrite (bool_decide_true (0 = 0)) by done. cbn [andb]. by rewrite Hh. }
  assert (verify_hash root v = Some (Ok tt, mkIncrementalVerifier IV_DIR 0 [] (WithHashTreeCollector 1 [root]))) as Hver.
  { unfold verify_hash. rewrite (bind_run get _ _ _ _ eq_refl). change (is_finished v) with false. cbn [v v_stack head unwrap].
    rewrite (bind_run _ _ _ _ _ eq_refl), bool_decide_false by (by intros Hn). reflexivity. }
  eexists. unfold du_on_commit. rewrite (bind_run get _ _ _ _ eq_refl). cbn [du_last_entry c].
  etrans; [apply try_bind_ok; rewrite (bind_run _ _ _ _ _ Hcreate); apply map_err_ok; unfold du_verifier; cbn [du_hasher];
    rewrite Hver; reflexivity|]. reflexivity.
Qed.

(** An entry that is marked as the last one is stored unverified when another one
    follows: a directory of one entry is completed to one of two entries, the first of
    which is any entry at all, and is read back like this under the hash of the
    directory. *)
Lemma marked_entry_unverified fuel b f t hn ns e e0 root i st0 :
  accepted [e; e0] → root = leaf_hash e0 0 true → root ≠ iv_empty IV_DIR →
  try_generate_hash (dir_items [e; e0]) (small_rng i) = Some (Some st0) → (i < fuel)%nat →
  hash_dir [e0] = Some (Ok root) ∧
  ∃ d' h dir, receive_dir fuel b 2 root [DirLastChunk e; DirLastChunk e0] (mkDisk f (t :: hn :: ns) []) = Some (Ok root, d') ∧
    bucket_get b root d' = Some (Ok h, d') ∧ into_dir h = Some dir ∧ reads_back [e; e0] dir d'.
Proof.
  intros Hacc Hroot Hempty Hg0 Hfuel. pose proof Hacc as [[He1 He2] [[Hw Hv] _]%Forall_cons]%Forall_cons. split.
  { unfold hash_dir. rewrite bool_decide_false by done. destruct (check_entries_cons [] e0 []) as [Hchk _].
    rewrite Hchk by (split; [done|]; apply (proj1 (in_order_prev [] e0 Hv)); done). cbn [length split_hash_merge check_entries].
    pose proof (hash_entry_leaf e0 0 true Hw Hv) as Hh. unfold hash_entry, hash_transcript in Hh. rewrite Hh, Hroot. done. }
  destruct (find_key_run (dir_items [e; e0]) i 0 st0) as (j & st & _ & Hg & Hrun); [done|lia|done|].
  destruct (dir_table_facts [e; e0] j st Hacc ltac:(done) Hg) as (_ & Hd & Hm & _).
  destruct (single_commit_run e0 root Hw Hv Hroot) as [c' Hc].
  assert (is_hash root) as Hh by (rewrite Hroot; by apply leaf_hash_length). unfold is_hash in Hh.
  assert (length (concat [root]) ≤ Z.to_nat (64 * 2 - 32))%nat as Hlen by (simpl; rewrite app_nil_r, Hh; lia).
  pose proof (dir_commit_run b t hn f ns 2 ltac:(lia) fuel [e; e0] _ root [root] c' st Hc Hlen (Hrun fuel ltac:(lia)) Hd Hm) as Hcommit.
  eexists _, _, _. split_and!.
  - unfold receive_dir. etrans; [apply try_bind_ok, map_err_ok, (untrusted_new_run b t hn f ns 2 root ltac:(lia) Hempty)|].
    cbn beta. rewrite <-surjective_pairing. cbn [receive_frames].
    erewrite try_bind_ok; [|etrans; [apply try_bind_ok, map_err_ok; by rewrite insert_entry_run by (done || lia)|];
      etrans; [apply try_bind_ok, map_err_ok; by rewrite insert_entry_run by (done || lia)|]; reflexivity].
    by rewrite (map_err_ok _ _ _ _ _ Hcommit).
  - apply (dir_reads_back b [e; e0] root _ j st _ ns Hacc ltac:(done) ltac:(done) Hg (hash_space_length 2 _ Hlen)
      (lookup_insert_eq _ _ _)).
  - reflexivity.
  - apply (dir_reads_back b [e; e0] root _ j st _ ns Hacc ltac:(done) ltac:(done) Hg (hash_space_length 2 _ Hlen)
      (lookup_insert_eq _ _ _)). apply (dir_open_new (get_header_path b root) [e; e0] st). done.
Qed.

(** C12: An untrusted writer stores only the directory of its hash, if the peer marks no
    entry but the last one and sends as many entries as it has announced.  Whatever
    proofs and entries it sends: if the session of a writer for the hash of a
    directory ends with a commit that succeeds, then the entries are those of the
    directory, in their order, and they are read back from the bucket under this
    hash.  The only exceptions are collisions that the peer has sent: a proof that
    merges other hashes than the directory does to the same hash, or to the hash of
    an entry; or an entry with the hash of an inner node, or with that of another
    transcript in its place. *)
Theorem untrusted_dir_sound fuel b frames xs x d t hn ns es root hash d' :
  Forall entry_wf es → es ≠ [] → hash_dir es = Some (Ok root) → root ≠ iv_empty IV_DIR →
  faults d = [] → names d = t :: hn :: ns → zlength (xs ++ [x]) ≤ 65535 → Forall entry_wf (xs ++ [x]) →
  inserts frames = ((λ e, (e, false)) <$> xs) ++ [(x, true)] →
  receive_dir fuel b (zlength (xs ++ [x])) root frames d = Some (Ok hash, d') →
  (hash = root ∧ xs ++ [x] = es ∧
   (∀ p, p ≠ get_header_path b root → p ≠ tmp b t hn → files d' !! p = files d !! p) ∧
   ∃ h dir, bucket_get b root d' = Some (Ok h, d') ∧ into_dir h = Some dir ∧
     bd_num_entries dir = zlength es ∧ reads_back es dir d') ∨
  forged_by es 0 frames.
Proof.
  intros Hw Hne Hh Hempty Hfaults Hnames Hn Hwx Hi Hrun. destruct d as [f0 ns0 fs]. cbn [files names faults] in *. subst ns0 fs.
  destruct (hash_dir_run es root Hw Hne Hh) as (Hacc & Hn0 & Hroot & _).
  set (n := zlength (xs ++ [x])) in *. assert (1 ≤ n ≤ 65535) as Hn1.
  { split; [|done]. unfold n. rewrite zlength_app. change (zlength [x]) with 1. pose proof (zlength_nonneg xs). lia. }
  destruct (dir_tree_facts es Hacc Hne Hn0) as (Hs & Hl & Hcount & _).
  unfold receive_dir in Hrun. rewrite (try_bind_ok _ _ _ _ _ (map_err_ok _ _ _ _ _ (untrusted_new_run b t hn f0 ns n root Hn1 Hempty))) in Hrun.
  set (c := mkDirUWriterCollector _ root 0 None) in Hrun. rewrite <-surjective_pairing in Hrun.
  assert (entries_verified es root 0 c) as Hc.
  { split_and!; [|done|done]. apply collecting_start; rewrite <-Hroot; [done|]. unfold set_root_hash. unfold_M.
    cbn [verifier_new v_parent_count v_iv]. by rewrite (bool_decide_false (root = _)) by done. }
  destruct ((receive_frames frames;;? map_err _ (dir_commit fuel)) _) as [[r [w' d2]]|] eqn:Hsession; [|discriminate Hrun].
  injection Hrun as -> ->. apply try_bind_inv in Hsession as ([] & s1 & Hrec & Hcommit). apply map_err_inv in Hcommit.
  destruct (frames_inv b t hn f0 ns n Hn1 es root Hacc Hne Hn0 frames [] c xs x s1) as [(c' & -> & Hpre & Hc' & Hlast)|Hf];
    [done|cbn [app]; unfold n; rewrite zlength_app; change (zlength [x]) with 1; lia|done|apply prefix_nil|exact Hc|exact Hrec| |by right].
  cbn [app] in *. apply Forall_app in Hwx as [_ Hx]. rewrite Forall_singleton in Hx.
  destruct (untrusted_commit_inv b t hn f0 ns n Hn1 es root Hacc Hne Hn0 fuel xs x c' hash _ eq_refl Hx Hpre Hc' Hlast Hcommit)
    as [(-> & Hes & st & Hst & Hd2)|Hf].
  - left. cbn [snd] in Hd2. subst d'. split_and!; [done|done| |].
    { intros p Hp Hp'. cbn [files]. by rewrite lookup_insert_ne, lookup_delete_ne. }
    destruct (find_key_inv _ _ _ _ Hst) as [j Hg].
    destruct (dir_reads_back b es root _ j st _ ns Hacc Hne Hn0 Hg (dir_array_length es Hacc Hne Hn0)
      (lookup_insert_eq (delete (tmp b t hn) f0) _ _)) as [Hget Hback].
    assert (1 ≤ zlength es ≤ 65535) as Hn2 by (rewrite <-Hes; done).
    pose proof (dir_open_new (get_header_path b root) es st Hn2) as Hopen.
    eexists _, _. split; [exact Hget|]. split; [reflexivity|]. split; [apply Hopen|by apply Hback].
  - right. right. exists (length xs), x. split; [|exact Hf].
    rewrite Hi, fmap_app, lookup_app_r by (rewrite !length_fmap; lia). by rewrite !length_fmap, Nat.sub_diag.
Qed.
End untrusted.
