(* ===== verification/B3Example.v ===== *)
(** * B3Example: concrete runs of the content hashes

    Two platforms: [portable] computes the compression function of BLAKE3, one
    input at a time, and satisfies the laws of [Blake3Tree]; [toy] is a cheap
    mixing function for the parts that hold for any compression function.  The
    theorems on hashes, proofs and hashers are applied to small contents. *)

From S2P Require Import Prelude Types Codec HashTree ProofBuf Blake3 Blake3Tree Verifier Streaming Collecting Forest DirHasher ByteHasher ByteTree ContentHash Collectors ContentSteps Bucket BucketWrite BucketFaults BucketUntrusted AsyncTree.
From stdpp Require Import base list gmap strings.
From Stdlib Require Import ZArith Lia.
Open Scope Z_scope.

(** ** The portable platform *)

#[local] Instance words_only : Platform := {|
  compress_in_place := compress_words;
  hash_many := λ _ _ _ _ _ _ _, [];
  simd_degree := 1
|}.

Definition portable (degree : Z) : Platform := {|
  compress_in_place := compress_words;
  hash_many := λ inputs key counter inc flags fs fe,
    imap (λ i x, le_bytes_from_words_32
      (hash1 (length x / 64) key x (if inc then counter +[64] Z.of_nat i else counter) flags
         (Z.lor flags fs) fe)) inputs;
  simd_degree := degree
|}.

Lemma hash1_portable degree n cv x counter flags bf fe :
  @hash1 words_only n cv x counter flags bf fe = @hash1 (portable degree) n cv x counter flags bf fe.
Proof. revert cv x bf. induction n as [|n IH]; intros cv x bf; [done|]. cbn [hash1]. apply IH. Qed.

Lemma portable_laws e : 0 ≤ e ≤ 4 → PlatformLaws (portable (2 ^ e)).
Proof.
  intros He. split.
  - done.
  - intros inputs key counter inc flags fs fe n Hin. cbn [hash_many portable].
    apply imap_ext. intros i x Hx. rewrite Forall_lookup in Hin. specialize (Hin i x Hx).
    replace (length x / 64)%nat with n; [by rewrite (hash1_portable (2 ^ e))|]. rewrite Hin. unfold BLOCK_LEN.
    rewrite Nat.mul_comm. by rewrite Nat.div_mul.
  - by exists e.
Qed.

(** A content of three bytes, in two updates. *)
Lemma content_hash_streams_witness :
  zlength (concat [[97]; [98; 99]]) < 2 ^ 60 ∧
  ∃ h hash, h_updates (P:=portable 4) [[97]; [98; 99]] (h_new_with_iv [] IV_DEFAULT) = Some (tt, h) ∧
    @iv_hash_all_at_once (portable 4) IV_DEFAULT [97; 98; 99] = Some hash ∧
    h_finalize (P:=portable 4) h = Some hash ∧ h_finalize_tree (P:=portable 4) h = Some ([], hash).
Proof.
  split; [done|].
  destruct (@content_hash_streams (portable (2 ^ 2)) (portable_laws 2 ltac:(lia)) IV_DEFAULT [[97]; [98; 99]])
    as (h & hash & Hrun & Hh & Hf & tree & Ht & Htree); [done|].
  exists h, hash. split_and!; [done..|].
  assert (tree = []) as ->; [|done]. rewrite bool_decide_true in Htree by done.
  apply (app_inv_tail [hash]). done.
Defined.

(** The first block of this content. *)
Lemma block_hash_streams_witness :
  zlength [97; 98; 99] < 2 ^ 60 ∧
  ∃ b b' hash, @bh_set_block 0 (bh_from IV_DEFAULT) = Some b ∧
    @bh_updates (portable 4) [[97]; [98; 99]] b = Some (tt, b') ∧
    @bh_finalize (portable 4) false b' = Some hash ∧
    @bh_finalize (portable 4) true b' = @iv_hash_all_at_once (portable 4) IV_DEFAULT [97; 98; 99].
Proof.
  split; [done|].
  destruct (@block_hash_streams (portable (2 ^ 2)) (portable_laws 2 ltac:(lia)) IV_DEFAULT 0
    [[97]; [98; 99]] [97; 98; 99]) as (b & b' & hash & Hb & Hrun & Hf & _ & Hone); [done| |].
  - rewrite pieces_short; [done|apply block_size_pos|done|].
    pose proof block_size_Z. rewrite BB_val in H. simpl length. lia.
  - exists b, b', hash. split_and!; [done..|]. apply Hone. by rewrite BB_val.
Defined.

Lemma hash_all_at_once_tree_witness :
  zlength [97] < 2 ^ 60 ∧
  @iv_hash_all_at_once (portable 4) IV_DEFAULT [97]
  = Some (@root_hash (portable 4) (chunk_output
      (@chunk_update (portable 4) (chunk_new (iv_key IV_DEFAULT) 0 (iv_flags IV_DEFAULT)) [97]))).
Proof.
  split; [done|].
  refine (eq_trans (@hash_all_at_once_tree (portable (2 ^ 2)) (portable_laws 2 _) IV_DEFAULT [97] eq_refl eq_refl) _);
    [lia|]. rewrite !bool_decide_false, bool_decide_true by done. done.
Defined.

(** A directory with a file and a link. *)
Definition sample_entries : list BorrowedEntry :=
  [mkBorrowedEntry [97] (LinkContent (replicate 32 7)); mkBorrowedEntry [98] (LinkPath [97])].

Lemma dir_hasher_refines_witness :
  Forall entry_wf sample_entries ∧
  ∃ hash d d', @hash_dir (portable 4) sample_entries = Some (Ok hash) ∧
    @insert_all (portable 4) sample_entries dir_new = Some (Ok tt, d) ∧
    @dir_finalize (portable 4) d = Some (hash, d').
Proof.
  assert (Forall entry_wf sample_entries) as Hwf
    by (unfold sample_entries; rewrite Forall_cons, Forall_singleton; split; (split; [by repeat constructor|done])).
  split; [done|].
  pose proof (@dir_hasher_refines (portable (2 ^ 2)) (portable_laws 2 ltac:(lia)) sample_entries Hwf) as Href.
  change (portable (2 ^ 2)) with (portable 4) in Href.
  destruct (@hash_dir (portable 4) sample_entries) as [[hash|e]|] eqn:Hd; [| |done].
  - destruct Href as (d & d' & Hins & Hfin & _). by exists hash, d, d'.
  - exfalso. revert Hd. unfold hash_dir. rewrite bool_decide_false by done.
    change (check_entries [] sample_entries) with (@Ok unit DirError tt). unfold sample_entries. cbn iota.
    by destruct (@split_hash_merge (portable 4) _ _ _ _).
Defined.

(** ** A stored file *)

(** The BLAKE3 hash of the three bytes, as published. *)
Definition abc : Bytes := [97; 98; 99].
Definition abc_hash : Bytes :=
  [100; 55; 179; 172; 56; 70; 81; 51; 255; 182; 59; 117; 39; 58; 141; 181;
   72; 197; 88; 70; 93; 121; 219; 3; 253; 53; 156; 108; 213; 189; 157; 133].

Lemma abc_hash_ok : @iv_hash_all_at_once (portable 4) IV_DEFAULT abc = Some abc_hash.
Proof. vm_compute. reflexivity. Qed.

(** An empty disk, with the names of the temporary directory, the header and one
    block. *)
Definition data_dir : Bucket := mkBucket ["data"].
Definition dir_name : Bytes := replicate 32 1.
Definition header_name : Bytes := replicate 32 2.
Definition block_name : Bytes := replicate 32 3.
Definition empty_disk (faults : list bool) : Disk := mkDisk ∅ [dir_name; header_name; block_name] faults.

Lemma abc_hashes : @content_hashes (portable 4) abc abc_hash = [abc_hash].
Proof. unfold content_hashes. by rewrite BB_val. Qed.

Lemma abc_pieces : pieces_of block_size abc = [abc].
Proof.
  rewrite pieces_short; [done|apply block_size_pos|done|].
  pose proof block_size_Z as Hb. rewrite BB_val in Hb. simpl length. lia.
Qed.

Lemma abc_names : names_fresh header_name [block_name] (@content_hashes (portable 4) abc abc_hash).
Proof.
  rewrite abc_hashes. split; cbn [fmap list_fmap].
  - by rewrite list_elem_of_singleton.
  - by rewrite list_elem_of_singleton.
  - apply NoDup_singleton.
  - intros c h Hc Hh. apply list_elem_of_singleton in Hc, Hh. by subst.
  - apply NoDup_singleton.
Qed.

(** The writes of "a" and "bc", with a disk that does not fail. *)
Lemma trusted_write_roundtrip_witness :
  ∃ d', @store_file (portable 4) data_dir [[97]; [98; 99]] (empty_disk []) = Some (Ok abc_hash, d') ∧
    get_block_content data_dir abc_hash (with_faults [] d') = Some (Ok (Some abc), with_faults [] d').
Proof.
  destruct (@trusted_write_roundtrip (portable (2 ^ 2)) (portable_laws 2 ltac:(lia)) data_dir [[97]; [98; 99]]
    (empty_disk []) dir_name header_name [block_name] abc_hash) as (r & d' & Hrun & Hok & Hread).
  - done.
  - done.
  - change (concat _) with abc. by rewrite abc_pieces.
  - exact abc_hash_ok.
  - exact abc_names.
  - intros p _. apply lookup_empty.
  - specialize (Hok eq_refl) as ->. exists d'. split; [exact Hrun|].
    destruct (Hread abc_hash eq_refl) as (_ & _ & _ & Hblocks). change (concat _) with abc in Hblocks.
    destruct (Hblocks 0%nat abc) as (h & Hh & Hget); [by rewrite abc_pieces|].
    change (portable (2 ^ 2)) with (portable 4) in Hh. rewrite abc_hashes in Hh. injection Hh as <-. exact Hget.
Defined.

(** The reader of this file, just opened. *)
Lemma stored_file_served_witness :
  ∃ f' ns reader', @store_file (portable 4) data_dir [[97]; [98; 99]] (empty_disk []) = Some (Ok abc_hash, mkDisk f' ns []) ∧
    at_get_hash 0 (at_new (get_header_path data_dir abc_hash) 1, mkDisk f' ns []) =
      Some (Ok (Some abc_hash), (reader', mkDisk f' ns [])).
Proof.
  destruct (@session_run (portable (2 ^ 2)) (portable_laws 2 ltac:(lia)) data_dir dir_name header_name [block_name] ∅
    [[97]; [98; 99]] abc_hash) as (f' & ns' & Hrun & Hst);
    [done|change (concat _) with abc; by rewrite abc_pieces|exact abc_hash_ok|exact abc_names
    |intros p _; apply lookup_empty|].
  change (concat _) with abc in Hst. change (portable (2 ^ 2)) with (portable 4) in Hrun, Hst.
  destruct (@stored_file_served (portable (2 ^ 2)) (portable_laws 2 ltac:(lia)) data_dir dir_name ∅ abc abc_hash f' ns'
    (at_new (get_header_path data_dir abc_hash) 1) 0) as (_ & (reader' & h & _ & Hh & Hget) & _).
  - done.
  - done.
  - exact abc_hash_ok.
  - exact Hst.
  - change (portable (2 ^ 2)) with (portable 4). rewrite abc_hashes. apply reading_new. lia.
  - change (portable (2 ^ 2)) with (portable 4). rewrite abc_hashes. change (zlength [abc_hash]) with 1. lia.
  - change (portable (2 ^ 2)) with (portable 4) in Hh. rewrite abc_hashes in Hh. injection Hh as <-.
    exists f', ns', reader'. split; [exact Hrun|exact Hget].
Defined.

(** The same bytes from a peer. *)
Definition abc_sent : list Received := [WriteBytes [97] false; WriteBytes [98; 99] true].

Lemma abc_received :
  match @receive_file (portable 4) data_dir abc_hash abc_sent (empty_disk []) with
  | Some (Ok hash, _) => bool_decide (hash = abc_hash)
  | _ => false
  end = true.
Proof. vm_compute. reflexivity. Qed.

Lemma abc_not_empty : abc_hash ≠ iv_empty IV_DEFAULT.
Proof. apply (bool_decide_unpack _). vm_compute. reflexivity. Qed.

(** The hash of these bytes as a block among others is another one. *)
Lemma abc_not_forged x :
  pieces_of block_size abc !! 0%nat = Some x → ¬ @forged_block (portable 4) abc abc_hash 0 x.
Proof.
  rewrite abc_pieces. intros [= <-] (is_root & [(l & r & g & Hin & _)|(y & Hy & Hne & Heq)]).
  - unfold tree_over in Hin. rewrite abc_hashes in Hin. by apply not_elem_of_nil in Hin.
  - change (Z.to_nat 0) with 0%nat in Hy. rewrite abc_pieces in Hy. injection Hy as <-.
    assert (single abc = true) as Hs by (unfold single; by rewrite BB_val). rewrite Hs in Hne, Heq.
    destruct is_root; [by destruct Hne|]. revert Heq. unfold digest. rewrite abc_hash_ok.
    apply (bool_decide_unpack (_ ≠ _)). vm_compute. reflexivity.
Qed.

Lemma untrusted_commit_sound_witness :
  ∃ d', @receive_file (portable 4) data_dir abc_hash abc_sent (empty_disk []) = Some (Ok abc_hash, d') ∧
    @stored (portable 4) data_dir dir_name ∅ abc abc_hash (files d').
Proof.
  pose proof abc_received as Hrec.
  destruct (@receive_file (portable 4) data_dir abc_hash abc_sent (empty_disk [])) as [[[hash|e] d']|] eqn:Hrun; [|done..].
  apply bool_decide_eq_true in Hrec. subst hash. exists d'. split; [reflexivity|].
  destruct (@untrusted_commit_sound (portable (2 ^ 2)) (portable_laws 2 ltac:(lia)) data_dir abc_sent (empty_disk [])
    dir_name header_name [block_name] abc abc_hash abc_hash d') as [(_ & _ & Hst)|[(proof & items & Hin & _)|(i & x & Hx & Hf)]].
  - done.
  - exact abc_hash_ok.
  - exact abc_not_empty.
  - done.
  - done.
  - by rewrite abc_pieces.
  - exact abc_names.
  - intros p _. apply lookup_empty.
  - exact Hrun.
  - exact Hst.
  - exfalso. unfold abc_sent in Hin. rewrite !elem_of_cons, elem_of_nil in Hin. destruct Hin as [Hin|[Hin|Hin]]; [discriminate Hin|discriminate Hin|exact Hin].
  - exfalso. change (written abc_sent) with abc in Hx. assert (i = 0%nat) as ->.
    { rewrite abc_pieces in Hx. apply lookup_lt_Some in Hx. simpl in Hx. lia. }
    by apply (abc_not_forged x).
Defined.

(** ** The toy platform *)

(** The words of the two children, with the flags. *)
#[local] Instance toy : Platform := {|
  compress_in_place := λ cv block len counter flags,
    (λ i : nat, nth i block 0 + 3 * nth (i + 32) block 0 + flags) <$> seq 0 8;
  hash_many := λ _ _ _ _ _ _ _, [];
  simd_degree := 1
|}.

Definition toy_iv : IV := mkIV 0 (replicate 8 0) [].

Definition hash_a : Bytes := replicate 32 1.
Definition hash_b : Bytes := replicate 32 2.
Definition toy_tree : tree Bytes := Node (Leaf hash_a) (Leaf hash_b).
Definition toy_root : Bytes := root_of (@iv_merge toy toy_iv) true toy_tree.

(** The first verifier, the one after the proof of block 0, and after the block. *)
Definition toy_v0 : IncrementalVerifier := mkIncrementalVerifier toy_iv 0 [toy_root] NoStorage.
Definition toy_v1 : IncrementalVerifier := mkIncrementalVerifier toy_iv 1 [hash_a; hash_b] NoStorage.
Definition toy_v2 : IncrementalVerifier := mkIncrementalVerifier toy_iv 1 [hash_b] NoStorage.

(** A client has the proof of the first block, and the block. *)
Lemma verifier_sound_witness :
  received toy_iv toy_root toy_tree [hash_a] toy_v2 ∧ sublist [hash_a; hash_b] (leaves toy_tree) ∧
  hash_a ∈ post_order (@iv_merge toy toy_iv) true toy_tree ∨ collides (@iv_merge toy toy_iv) true toy_tree toy_tree.
Proof.
  assert (received toy_iv toy_root toy_tree [hash_a] toy_v2) as Hv.
  - apply (received_block _ _ toy_tree [] toy_v1 hash_a); [|reflexivity].
    apply (received_proof _ _ (Leaf toy_root) [] toy_v0 ([0] ++ hash_a ++ hash_b)
      [(false, hash_a); (false, hash_b)]); [by apply received_root|done|reflexivity|reflexivity].
  - destruct (verifier_sound toy_iv toy_root toy_tree [hash_a] toy_v2 toy_tree) as (_ & Hsub & [Hin|Hc]);
      [done|exact Hv|reflexivity| |by right].
    left. split_and!; [exact Hv|exact Hsub|]. apply Hin. constructor.
Defined.

Lemma toy_hashes_ok : hashes_ok (@iv_merge toy toy_iv) toy_tree.
Proof. intros []; repeat constructor. Qed.

Lemma verifier_complete_witness :
  ∃ v, (set_root_hash toy_root;;
        verify_stream 1 (mkHashTree (slice_of (@iv_merge toy toy_iv) true toy_tree)) Initial 1)
         (verifier_new toy_iv NoStorage) = Some (Ok tt, v) ∧ is_finished v = true.
Proof. apply (verifier_complete toy_iv toy_tree ltac:(done) ltac:(done) toy_hashes_ok 1); done. Defined.

Lemma verifier_collects_witness :
  ∃ v, (set_root_hash toy_root;;
        verify_stream 2 (mkHashTree (slice_of (@iv_merge toy toy_iv) true toy_tree)) Initial 0)
         (verifier_new toy_iv (WithHashTreeCollector 0 [])) = Some (Ok tt, v) ∧
    finalize v = Some [hash_a; hash_b; toy_root].
Proof. apply (verifier_collects toy_iv toy_tree ltac:(done) ltac:(done) toy_hashes_ok); done. Defined.

(** A proof of 258 bytes has the length of a segment and a lone sign byte. *)
Lemma feed_proof_panics_witness : feed_proof (replicate 258 0) toy_v0 = None.
Proof. apply (feed_proof_panics (replicate 258 0) toy_v0); [done|done|]. split_and!; reflexivity. Defined.

Lemma tree_index_inverse_witness :
  ∃ r, block_counter_from_tree_index 11 = Some r ∧ (r = Some 7 ↔ tree_index 7 = 11).
Proof.
  destruct (tree_index_inverse 11) as (r & Hr & Hiff); [lia|]. exists r. split; [exact Hr|]. apply Hiff. lia.
Defined.
