(* ===== verification/DirExample.v ===== *)
(** * DirExample: a stored directory

    Concrete instances of the classes of [Phf] and [DirBucket], a hash of names by
    their first byte and a filter of eight bits, with which the theorems on the table
    of a directory, on its writer and on the writer for a peer are applied to
    directories of one and two entries. *)

From S2P Require Import Prelude Types Codec HashTree ProofBuf Blake3 Blake3Tree Forest Verifier Streaming Collecting DirHasher ByteHasher ByteTree ContentHash Collectors ContentSteps Bucket BucketWrite BucketFaults BucketUntrusted AsyncTree Phf DirBucket DirReader DirWrite DirStored DirLookup DirUntrusted B3Example.
From stdpp Require Import base list gmap strings.
From Stdlib Require Import ZArith Lia.
Open Scope Z_scope.

(** ** The instances *)

Definition first_byte (name : Bytes) : Z := default 0 (head name).

#[local] Instance byte_phf : PhfPlatform := {
  sip128 := λ _ name, (first_byte name * 2 ^ 32, first_byte name);
  small_rng := λ i, Z.of_nat i mod 2 ^ 64
}.

#[local] Instance byte_phf_laws : PhfLaws byte_phf.
Proof. split. intros i. apply Z.mod_pos_bound. lia. Qed.

(** One hash, to a bit of a byte. *)
#[local] Instance byte_bloom : BloomPlatform := {
  BloomFilter := Z;
  bloom_new := λ _, 0;
  bloom_add := λ name f, Z.setbit f (first_byte name mod 8);
  bloom_contains := λ f name, Z.testbit f (first_byte name mod 8);
  bloom_hashes := λ _, 1;
  bloom_bytes := λ f, [f];
  bloom_from := λ bytes _, default 0 (head bytes)
}.

#[local] Instance byte_bloom_laws : BloomLaws byte_bloom.
Proof.
  split; cbn; try done.
  - intros x f. apply Z.setbit_eq. apply Z.mod_pos_bound. lia.
  - intros x y f Hy. rewrite Z.setbit_eqb, Hy by (apply Z.mod_pos_bound; lia). apply orb_true_r.
Qed.

(** ** The table *)

(** Two names, of which the second is found. *)
Lemma phf_finds_witness :
  ∃ st, phf_finalize 1 [([97], 0); ([98], 35)] = Some st ∧ zlength (hs_map st) = 2 ∧ phf_lookup st 2 [98] = Some 35.
Proof.
  destruct (phf_finds [([97], 0); ([98], 35)] 0 (mkHasherState 0 [(0, 0); (0, 0)] [35; 0])) as (st & Hrun & _ & Hm & _ & Hfind).
  - done.
  - vm_compute. reflexivity.
  - exists st. split_and!; [apply Hrun; lia|exact Hm|]. apply Hfind; [set_solver|by left].
Defined.

(** ** Two entries *)

Lemma sample_entries_wf : Forall entry_wf sample_entries.
Proof. unfold sample_entries. rewrite Forall_cons, Forall_singleton. split; (split; [by repeat constructor|done]). Qed.

Lemma sample_entries_hash :
  match @hash_dir (portable 4) sample_entries with Some (Ok _) => true | _ => false end = true.
Proof. vm_compute. reflexivity. Qed.

(** The second entry is found, and the stream gives both. *)
Lemma dir_write_roundtrip_witness :
  ∃ root d' h dir dir', @store_dir (portable 4) _ _ 1 data_dir sample_entries (empty_disk []) = Some (Ok root, d') ∧
    bucket_get data_dir root (with_faults [] d') = Some (Ok h, with_faults [] d') ∧ into_dir h = Some dir ∧ bd_num_entries dir = 2 ∧
    get_entry [98] (dir, with_faults [] d') = Some (Ok (Some (mkFoundEntry (mkBorrowedEntry [98] (LinkPath [97])) Leaked)), (dir', with_faults [] d')) ∧
    ∃ it it', dir_entries (dir, with_faults [] d') = Some (Ok it, (dir, with_faults [] d')) ∧
      stream_collect 3 (replicate 20 true) (it, with_faults [] d') =
        Some (Some ((Some ∘ Ok <$> sample_entries) ++ [None]), (it', with_faults [] d')).
Proof.
  pose proof sample_entries_hash as Hhash.
  destruct (@hash_dir (portable 4) sample_entries) as [[root|]|] eqn:Hroot; [|discriminate Hhash..].
  destruct (@dir_write_roundtrip (portable (2 ^ 2)) (portable_laws 2 ltac:(lia)) _ _ _ _ 1 data_dir sample_entries
    (empty_disk []) dir_name header_name [block_name] root 0 (mkHasherState 0 [(0, 0); (0, 0)] [35; 0]))
    as (r & d' & Hrun & Hok & Hback).
  - exact sample_entries_wf.
  - done.
  - exact Hroot.
  - done.
  - vm_compute. reflexivity.
  - lia.
  - specialize (Hok eq_refl). subst r. destruct (Hback root eq_refl) as (_ & _ & h & dir & Hopen & Hinto & Hn & Hget & _ & it & Hit & Hstream).
    destruct (Hget 1%nat (mkBorrowedEntry [98] (LinkPath [97]))) as [dir' Hdir']; [done|by left|done|].
    destruct (Hstream (replicate 20 true)) as [it' Hit']; [vm_compute; lia|].
    exists root, d', h, dir, dir'. split_and!; [exact Hrun|exact Hopen|exact Hinto|exact Hn|exact Hdir'|]. exists it, it'. split; [exact Hit|exact Hit'].
Defined.

(** ** One entry of a peer *)

Definition sent_entry : BorrowedEntry := mkBorrowedEntry [97] (LinkContent (replicate 32 7)).

Definition sent_hash : Bytes := @leaf_hash (portable 4) sent_entry 0 true.

Lemma sent_hash_ok : @hash_dir (portable 4) [sent_entry] = Some (Ok sent_hash).
Proof. vm_compute. reflexivity. Qed.

Lemma sent_not_empty : sent_hash ≠ iv_empty IV_DIR.
Proof. apply (bool_decide_unpack _). vm_compute. reflexivity. Qed.

Lemma sent_received :
  match @receive_dir (portable 4) _ _ 1 data_dir 1 sent_hash [DirLastChunk sent_entry] (empty_disk []) with
  | Some (Ok hash, _) => bool_decide (hash = sent_hash)
  | _ => false
  end = true.
Proof. vm_compute. reflexivity. Qed.

(** The entry has another hash where it is not the only one. *)
Lemma sent_not_forged : ¬ @forged_by (portable 4) [sent_entry] 0 [DirLastChunk sent_entry].
Proof.
  intros [(proof & items & Hin & _)|(i & e & He & is_root & h & Hh & Hforged)].
  { by apply list_elem_of_singleton in Hin. }
  destruct i as [|i]; [|by destruct i]. injection He as <-.
  destruct Hforged as [(l & r & g & Hin & _)|(e0 & He0 & Hne & Heq)].
  { by apply not_elem_of_nil in Hin. }
  injection He0 as <-. destruct is_root; [by destruct Hne|]. change (bool_decide (length [sent_entry] = 1%nat)) with true in Heq.
  subst h. revert Hh. apply (bool_decide_unpack (_ ≠ _)). vm_compute. reflexivity.
Qed.

Lemma untrusted_dir_sound_witness :
  ∃ d' h dir dir', @receive_dir (portable 4) _ _ 1 data_dir 1 sent_hash [DirLastChunk sent_entry] (empty_disk []) = Some (Ok sent_hash, d') ∧
    bucket_get data_dir sent_hash d' = Some (Ok h, d') ∧ into_dir h = Some dir ∧
    get_entry [97] (dir, d') = Some (Ok (Some (mkFoundEntry sent_entry Freed)), (dir', d')).
Proof.
  pose proof sent_received as Hrec.
  destruct (@receive_dir (portable 4) _ _ 1 data_dir 1 sent_hash [DirLastChunk sent_entry] (empty_disk [])) as [[[hash|e] d']|] eqn:Hrun; [|done..].
  apply bool_decide_eq_true in Hrec. subst hash. exists d'.
  destruct (@untrusted_dir_sound (portable (2 ^ 2)) (portable_laws 2 ltac:(lia)) _ _ _ _ 1 data_dir [DirLastChunk sent_entry]
    [] sent_entry (empty_disk []) dir_name header_name [block_name] [sent_entry] sent_hash sent_hash d')
    as [(_ & _ & _ & h & dir & Hopen & Hinto & _ & Hget & _)|Hf].
  - rewrite Forall_singleton. split; [by repeat constructor|done].
  - done.
  - exact sent_hash_ok.
  - exact sent_not_empty.
  - done.
  - done.
  - done.
  - cbn [app]. rewrite Forall_singleton. split; [by repeat constructor|done].
  - done.
  - exact Hrun.
  - destruct (Hget 0%nat sent_entry) as [dir' Hdir']; [done|by right|done|]. exists h, dir, dir'.
    split_and!; [reflexivity|exact Hopen|exact Hinto|exact Hdir'].
  - by destruct (sent_not_forged Hf).
Defined.
