(* ===== verification/Example.v ===== *)
(** * Example: a small network the theorems are evaluated on

    Four staked nodes with their owners, one service, all protocol parameters
    and a content and a job table.  The third-party code is the concrete one
    of [ruint_wrapping], [bigint_exact] and [host_plain].  The invariants of
    the components have an executable test here, sound for the invariant, so
    that they are established by evaluation. *)

From S2P Require Import Prelude HpFixed HpSigned Types State Ledger Accounts Nodes.
From S2P Require Import Content Auction Jobs Reputation Measurements Epoch Rewards EpochChange.
From S2P Require Import Beacon Executor.
From stdpp Require Import base gmap list sorting.
From Stdlib Require Import ZArith Lia.
Open Scope Z_scope.

(** ** Executable tests of the invariants *)

Definition ledger_test (s : StateExecutor) : bool :=
  bool_decide (map_Forall (λ _ a, 0 ≤ flk_balance a) s.(account_info)) &&
  bool_decide (map_Forall
    (λ _ n, 0 ≤ staked (node_stake n) ∧ 0 ≤ locked (node_stake n)) s.(node_info)) &&
  bool_decide (flk_total s < 2 ^ 256).

Lemma ledger_test_sound s : ledger_test s = true → ledger_ok s.
Proof. unfold ledger_test. intros [[Ha Hn]%andb_true_iff Hf]%andb_true_iff. tests. by split. Qed.

Definition registry_test (s : StateExecutor) : bool :=
  bool_decide (map_Forall (λ i n,
    s.(pub_key_to_index) !! public_key n = Some i ∧
    s.(consensus_key_to_index) !! consensus_key n = Some i ∧
    i < get_next_node_index s) s.(node_info)) &&
  bool_decide (map_Forall (λ k i, public_key <$> s.(node_info) !! i = Some k)
    s.(pub_key_to_index)) &&
  bool_decide (map_Forall (λ k i, consensus_key <$> s.(node_info) !! i = Some k)
    s.(consensus_key_to_index)).

Lemma registry_test_sound s : registry_test s = true → registry_ok s.
Proof.
  unfold registry_test. intros [[Hn Hp]%andb_true_iff Hc]%andb_true_iff. tests.
  split.
  - intros k i; split.
    + intros (n & ? & ?)%Hp%fmap_Some. eauto.
    + intros (n & Hi & <-). by apply (Hn i n).
  - intros k i; split.
    + intros (n & ? & ?)%Hc%fmap_Some. eauto.
    + intros (n & Hi & <-). by apply (Hn i n).
  - intros i n Hi. by apply (Hn i n).
Qed.

Definition content_test (s : StateExecutor) : bool :=
  bool_decide (map_Forall (λ n us, set_Forall (λ u, n ∈ providers_of s u) us) s.(node_to_uri)) &&
  bool_decide (map_Forall (λ u ns, set_Forall (λ n, u ∈ uris_of s n) ns) s.(uri_to_node)).

Lemma content_test_sound s : content_test s = true → content_ok s.
Proof.
  unfold content_test. intros [Hu Hn]%andb_true_iff. tests. intros n u. unfold uris_of at 1, providers_of at 1.
  split.
  - destruct (s.(node_to_uri) !! n) as [us|] eqn:E; simpl; [|set_solver].
    intros Hi. by apply (Hu n us E).
  - destruct (s.(uri_to_node) !! u) as [ns|] eqn:E; simpl; [|set_solver].
    intros Hi. by apply (Hn u ns E).
Qed.

Definition jobs_test (s : StateExecutor) : bool :=
  bool_decide (map_Forall (λ h job, job_hash job = h ∧
    match assignee job with Some x => bool_decide (h ∈ jobs_of s x) | None => true end = true)
    s.(jobs)) &&
  bool_decide (map_Forall (λ x hs, NoDup hs ∧
    Forall (λ h, assignee <$> s.(jobs) !! h = Some (Some x)) hs) s.(assigned_jobs)).

Lemma jobs_test_sound s : jobs_test s = true → jobs_ok s.
Proof.
  unfold jobs_test. intros [Hj Ha]%andb_true_iff. tests. split.
  - intros h job Hh. by apply (Hj h job).
  - intros x h. split.
    + unfold jobs_of. destruct (s.(assigned_jobs) !! x) as [hs|] eqn:E; simpl;
        [|by intros ?%list.elem_of_nil].
      destruct (Ha x hs E) as [_ Hf]. intros Hh.
      rewrite Forall_forall in Hf.
      destruct (fmap_Some_1 _ _ _ (Hf h Hh)) as (job & -> & ?). exists job. naive_solver.
    + intros (job & Hh & Hx). destruct (Hj h job Hh) as [_ Hin]. rewrite Hx in Hin.
      by tests.
  - intros x. unfold jobs_of. destruct (s.(assigned_jobs) !! x) as [hs|] eqn:E; simpl;
      [by destruct (Ha x hs E)|apply base.NoDup_nil_2].
Qed.

Definition scores_test (s : StateExecutor) : bool :=
  bool_decide (map_Forall (λ _ x, 0 ≤ x ≤ 100) s.(rep_scores)).

Lemma scores_test_sound s : scores_test s = true → scores_ok s.
Proof. unfold scores_test. intros Ht. tests. intros i x Hi. by apply (Ht i x). Qed.

Definition pool_test (s : StateExecutor) : bool :=
  bool_decide (reward_pool (default TotalServed_default (s.(total_served) !! get_epoch s))
    = wrap 256 (map_sum stables_revenue s.(current_epoch_served))).

Lemma pool_test_sound s : pool_test s = true → pool_ok s.
Proof. unfold pool_test. intros Ht. by tests. Qed.

(** ** The network *)

(** An amount of FLK as the raw integer of an [HpUfixed<18>]. *)
Definition flk (n : Z) : Z := n * 10 ^ 18.

Definition example_node (i : Z) : NodeInfo :=
  mkNodeInfo (Z.to_N (100 + i)) (Z.to_N (10 + i)) (Z.to_N (20 + i)) 0
    (mkStaking (flk 1000) 0 0 0) 1%N 1%N NodePorts_default (Z.to_N (30 + i))
    Participation.True 0.

Definition indices : list Z := [0; 1; 2; 3].

Definition example_parameters : gmap ProtocolParamKey ProtocolParamValue :=
  list_to_map
    [(ProtocolParamKey.EpochTime, ProtocolParamValue.EpochTime 86400000);
     (ProtocolParamKey.EpochsPerYear, ProtocolParamValue.EpochsPerYear 365);
     (ProtocolParamKey.CommitteeSize, ProtocolParamValue.CommitteeSize 10);
     (ProtocolParamKey.NodeCount, ProtocolParamValue.NodeCount 100);
     (ProtocolParamKey.MinimumNodeStake, ProtocolParamValue.MinimumNodeStake 1000);
     (ProtocolParamKey.EligibilityTime, ProtocolParamValue.EligibilityTime 1);
     (ProtocolParamKey.LockTime, ProtocolParamValue.LockTime 5);
     (ProtocolParamKey.ProtocolShare, ProtocolParamValue.ProtocolShare 10);
     (ProtocolParamKey.NodeShare, ProtocolParamValue.NodeShare 80);
     (ProtocolParamKey.ServiceBuilderShare, ProtocolParamValue.ServiceBuilderShare 10);
     (ProtocolParamKey.MaxInflation, ProtocolParamValue.MaxInflation 10);
     (ProtocolParamKey.MaxBoost, ProtocolParamValue.MaxBoost 4);
     (ProtocolParamKey.MaxStakeLockTime, ProtocolParamValue.MaxStakeLockTime 1460);
     (ProtocolParamKey.MinNumMeasurements, ProtocolParamValue.MinNumMeasurements 2);
     (ProtocolParamKey.CommitteeSelectionBeaconCommitPhaseDuration,
      ProtocolParamValue.CommitteeSelectionBeaconCommitPhaseDuration 60000);
     (ProtocolParamKey.CommitteeSelectionBeaconRevealPhaseDuration,
      ProtocolParamValue.CommitteeSelectionBeaconRevealPhaseDuration 60000);
     (ProtocolParamKey.CommitteeSelectionBeaconNonRevealSlashAmount,
      ProtocolParamValue.CommitteeSelectionBeaconNonRevealSlashAmount 1);
     (ProtocolParamKey.TotalTimeIntervals, ProtocolParamValue.TotalTimeIntervals 1000)].

Definition example_metadata : gmap Metadata Value :=
  list_to_map
    [(Metadata.ChainId, Value.ChainId 1337);
     (Metadata.Epoch, Value.Epoch 3);
     (Metadata.BlockNumber, Value.BlockNumber 7);
     (Metadata.SupplyYearStart, Value.HpUfixed (flk 100000));
     (Metadata.TotalSupply, Value.HpUfixed (flk 100000));
     (Metadata.ProtocolFundAddress, Value.AccountPublicKey 200%N);
     (Metadata.GovernanceAddress, Value.AccountPublicKey 201%N);
     (Metadata.NextNodeIndex, Value.NextNodeIndex 4);
     (Metadata.WithdrawId, Value.WithdrawId 1)].

(** Node 0 served, provides content 50 and runs job 60. *)
Definition example : StateExecutor :=
  mkState example_metadata
    (list_to_map ((λ i, (Z.to_N (100 + i), mkAccountInfo (flk (500 + i)) 9000000 0 0 None))
                  <$> indices))
    ∅ (list_to_map ((λ i, (i, example_node i)) <$> indices))
    (list_to_map ((λ i, (consensus_key (example_node i), i)) <$> indices))
    (list_to_map ((λ i, (public_key (example_node i), i)) <$> indices))
    ∅ {[3 := mkCommittee indices [] [] [] 1000000 880000 indices ∅]}
    {[0 := mkService 202%N CommodityTypes.Bandwidth]}
    example_parameters ∅ {[0 := 80; 1 := 60]} ∅
    {[0 := mkNodeServed [100] 5000000]} ∅ {[3 := mkTotalServed [100] 5000000]}
    {[0 := 5000000]} {[CommodityTypes.Bandwidth := 100000]} ∅ ∅
    {[50%N := {[0]}]} {[0 := {[50%N]}]} ∅ ∅
    {[0 := mkWithdrawInfo 0 Tokens.FLK 100%N (flk 1)]} ∅
    {[0 := [60%N]]} {[60%N := mkJob 60%N (mkJobInfo 1 1 0 []) None (Some 0)]}.

#[export] Existing Instances ruint_wrapping bigint_exact host_plain.
#[export] Existing Instances ruint_wrapping_laws bigint_exact_laws host_plain_laws.

(** The state a completed run ends in. *)
Definition after {A} (m : Exec A) (s : StateExecutor) : StateExecutor :=
  match m s with Some (_, s') => s' | None => s end.

Lemma after_run {A} (m : Exec A) s a s' : m s = Some (a, s') → s' = after m s.
Proof. unfold after. by intros ->. Qed.

(** The response of a run, tested without looking at the state it leaves. *)
Definition succeeds (m : Exec TransactionResponse) (s : StateExecutor) : bool :=
  match m s with Some (Success ExecutionData.None, _) => true | _ => false end.
Definition changes_epoch (m : Exec TransactionResponse) (s : StateExecutor) : bool :=
  match m s with Some (Success ExecutionData.EpochChange, _) => true | _ => false end.
Definition reverts (m : Exec TransactionResponse) (s : StateExecutor) : bool :=
  match m s with Some (Revert _, _) => true | _ => false end.

Lemma succeeds_run m s :
  succeeds m s = true → m s = Some (Success ExecutionData.None, after m s).
Proof. unfold succeeds, after. by destruct (m s) as [[[[]|] ?]|]. Qed.
Lemma changes_epoch_run m s :
  changes_epoch m s = true → m s = Some (Success ExecutionData.EpochChange, after m s).
Proof. unfold changes_epoch, after. by destruct (m s) as [[[[]|] ?]|]. Qed.
Lemma reverts_run m s : reverts m s = true → ∃ e, m s = Some (Revert e, after m s).
Proof. unfold reverts, after. destruct (m s) as [[[[]|] ?]|]; naive_solver. Qed.

Lemma example_ledger : ledger_ok example.
Proof. apply ledger_test_sound. by vm_compute. Defined.
Lemma example_registry : registry_ok example.
Proof. apply registry_test_sound. by vm_compute. Defined.
Lemma example_content : content_ok example.
Proof. apply content_test_sound. by vm_compute. Defined.
Lemma example_jobs : jobs_ok example.
Proof. apply jobs_test_sound. by vm_compute. Defined.
Lemma example_scores : scores_ok example.
Proof. apply scores_test_sound. by vm_compute. Defined.
Lemma example_pool : pool_ok example.
Proof. apply pool_test_sound. by vm_compute. Defined.
Lemma example_participating : participating_nodes example ≠ [].
Proof. by vm_compute. Defined.
