(* ===== verification/Witnesses.v ===== *)
(** * Witnesses: the theorems on the example network

    Each theorem with hypotheses is applied to a concrete state and operation
    where they hold: the invariants are tested, the operations run, by
    evaluation.  [after m s] is the state the operation leaves. *)

From S2P Require Import Prelude HpFixed HpSigned Types State Ledger Accounts Nodes.
From S2P Require Import Content Auction Jobs Reputation Measurements Epoch Rewards EpochChange.
From S2P Require Import Beacon Executor Invariants Genesis Env Codec Typing Query Example.
From stdpp Require Import base gmap list strings sorting.
From Stdlib Require Import ZArith Lia.
Open Scope Z_scope.

(** Evaluate an operation: a run is reduced to the test of its response. *)
Ltac run :=
  first [ apply succeeds_run; by vm_compute
        | apply changes_epoch_run; by vm_compute
        | by vm_compute ].

(** ** Fixed-point numbers *)

Lemma convert_precision_roundtrip_witness :
  convert_precision 18 6 (convert_precision 6 18 1500000) = 1500000.
Proof. apply convert_precision_roundtrip; unfold in_width; lia. Defined.

Lemma hp_div_mul_bound_witness :
  hp_mul 18 (flk 1 / 3) (flk 3) ≤ flk 1 ≤ hp_mul 18 (flk 1 / 3) (flk 3) + flk 3 / 10 ^ 18 + 1.
Proof. apply hp_div_mul_bound; unfold flk, in_width; try lia. run. Defined.

(** ** Accounts *)

Definition owner (i : Z) : TransactionSender := TransactionSender.AccountOwner (Z.to_N (100 + i)).
Definition node (i : Z) : TransactionSender := TransactionSender.NodeMain (Z.to_N (10 + i)).


Lemma transfer_succeeds_witness :
  ∃ s', transfer (owner 0) (flk 20) Tokens.FLK 101%N example
        = Some (Success ExecutionData.None, s').
Proof. apply (transfer_succeeds 100%N 101%N); by vm_compute. Defined.

Lemma withdraw_recorded_witness :
  withdraw_ids_ok (after (withdraw (owner 1) 300%N (flk 5) Tokens.USDC) example).
Proof.
  destruct (withdraw_recorded (owner 1) 300%N (flk 5) Tokens.USDC example ExecutionData.None
    (after (withdraw (owner 1) 300%N (flk 5) Tokens.USDC) example)) as (_ & _ & _ & Hok).
  - by apply (bool_decide_unpack _); vm_compute.
  - unfold in_width. by vm_compute.
  - run.
  - exact Hok.
Defined.

Lemma mint_once_witness :
  let m h := mint (TransactionSender.AccountOwner 201%N) 100%N (flk 5) Tokens.FLK h 9 in
  m 70%N (after (m 70%N) example)
  = Some (Revert ExecutionError.AlreadyMinted, after (m 70%N) example).
Proof.
  intros m. apply (mint_once (TransactionSender.AccountOwner 201%N) 100%N (flk 5) Tokens.FLK
    70%N 9 example ExecutionData.None). run.
Defined.

Lemma clear_withdraws_exact_witness :
  let m := clear_withdraws (TransactionSender.AccountOwner 201%N) 1 in
  (after m example).(withdraws) = filter (λ '(i, _), 1 ≤ i) example.(withdraws).
Proof.
  intros m. apply (clear_withdraws_exact (TransactionSender.AccountOwner 201%N) 1 example
    ExecutionData.None). run.
Defined.

(** ** Nodes *)


(** Node 2 after unstaking 40 FLK, once the lock has run out. *)
Definition unlocked : StateExecutor :=
  after (metadata_set Metadata.Epoch (Value.Epoch 8))
    (after (unstake (owner 2) (flk 40) 12%N) example).


Lemma stake_lock_extends_witness :
  let m := stake_lock (owner 1) 11%N 100 in
  ∃ i n n', example.(node_info) !! i = Some n ∧
    stake_locked_until (node_stake n') = stake_locked_until (node_stake n) + 100.
Proof.
  intros m. destruct (stake_lock_extends (owner 1) 11%N 100 example ExecutionData.None
    (after m example)) as (i & n & n' & _ & Hi & _ & Hlock & _).
  - by apply (bool_decide_unpack (map_Forall
      (λ _ n, in_width 64 (stake_locked_until (node_stake n))) example.(node_info))); vm_compute.
  - by vm_compute.
  - lia.
  - by vm_compute.
  - by apply (bool_decide_unpack (map_Forall
      (λ _ n, stake_locked_until (node_stake n) + 100 < 2 ^ 64) example.(node_info))); vm_compute.
  - run.
  - eauto.
Defined.

(** ** Content, auction and jobs *)

Lemma update_content_registry_spec_witness :
  let m := update_content_registry (node 0)
    [mkContentUpdate 50%N true; mkContentUpdate 51%N false] in
  content_ok (after m example).
Proof.
  intros m. destruct (update_content_registry_spec (node 0)
    [mkContentUpdate 50%N true; mkContentUpdate 51%N false] example ExecutionData.None
    (after m example)) as [Hok _].
  - exact example_content.
  - run.
  - exact Hok.
Defined.

Lemma clean_up_content_registry_spec_witness :
  ∃ s', clean_up_content_registry example = Some (tt, s') ∧ content_ok s'.
Proof.
  destruct (clean_up_content_registry_spec example example_content) as (s' & Hrun & Hok & _).
  by exists s'.
Defined.

Lemma settle_auction_spec_witness :
  ∃ out, settle_auction example [(0, example_node 0); (1, example_node 1)] = Some out ∧
    length out = 2%nat.
Proof.
  destruct (settle_auction_spec example [(0, example_node 0); (1, example_node 1)] 100)
    as (rejected & out & Hrun & _ & Hlen & _); [by vm_compute|].
  exists out. by split.
Defined.

Definition job (h : Hash32) : Job := mkJob h (mkJobInfo 1 1 0 []) None None.

Lemma add_jobs_spec_witness :
  ∃ s', add_jobs [job 61%N; job 62%N] example = Some (Success ExecutionData.None, s') ∧
    jobs_ok s'.
Proof.
  destruct (add_jobs_spec [job 61%N; job 62%N] example example_jobs example_participating)
    as (s' & Hrun & Hok & _).
  - apply (Forall_forall (λ j, example.(jobs) !! job_hash j = None)).
    by apply (bool_decide_unpack _); vm_compute.
  - by exists s'.
Defined.

Lemma reassign_jobs_spec_witness :
  ∃ s', reassign_jobs example = Some (tt, s') ∧ jobs_ok s'.
Proof.
  destruct (reassign_jobs_spec example example_jobs example_participating)
    as (s' & Hrun & Hok & _).
  by exists s'.
Defined.

Lemma remove_jobs_spec_witness :
  ∃ s', remove_jobs [60%N] example = Some (Success ExecutionData.None, s') ∧ jobs_ok s'.
Proof.
  destruct (remove_jobs_spec [60%N] example example_jobs) as (s' & Hrun & Hok & _).
  by exists s'.
Defined.

(** ** Reputation and measurements *)

Definition report : ReputationMeasurements :=
  mkReputationMeasurements (Some 30000000) (Some 5) (Some 100) (Some 200) None None
    (Some (90 * 10 ^ 18)) None.

Definition reports : gmap NodeIndex (list WeightedReputationMeasurements) :=
  {[1 := [mkWeightedReputationMeasurements report 80; mkWeightedReputationMeasurements report 60];
    2 := [mkWeightedReputationMeasurements report 40]]}.

Definition report_test (m : WeightedReputationMeasurements) : bool :=
  bool_decide (0 ≤ wrm_weight m) &&
  match uptime_measurement (wrm_measurements m) with
  | Some u => bool_decide (0 ≤ u ≤ 100 * 10 ^ 18)
  | None => true
  end.

Lemma reports_ok_by_test i ms : reports !! i = Some ms → weights_ok ms ∧ uptimes_ok ms.
Proof.
  intros Hi. assert (map_Forall (λ _ ms, Forall (λ m, report_test m = true) ms) reports) as Ht.
  { by apply (bool_decide_unpack _); vm_compute. }
  specialize (Ht i ms Hi). rewrite Forall_forall in Ht. split.
  - intros m Hm. destruct (andb_true_iff (bool_decide (0 ≤ wrm_weight m))
      (match uptime_measurement (wrm_measurements m) with
       | Some u => bool_decide (0 ≤ u ≤ 100 * 10 ^ 18) | None => true end)) as [Hand _].
    destruct (Hand (Ht m Hm)). by tests.
  - intros m u Hm Hu. specialize (Ht m Hm). unfold report_test in Ht.
    apply andb_true_iff in Ht as [_ Ht]. rewrite Hu in Ht. by tests.
Defined.

Lemma calculate_reputation_scores_total_witness : is_Some (calculate_reputation_scores reports).
Proof.
  apply calculate_reputation_scores_total. intros i ms Hi. by apply (reports_ok_by_test i ms).
Defined.

Lemma calculate_reputation_scores_range_witness :
  ∃ res, calculate_reputation_scores reports = Some res ∧
    ∀ x, res !! 1 ≫= fst = Some x → 0 ≤ x ≤ 100.
Proof.
  destruct (calculate_reputation_scores_range reports) as (res & Hres & Hrange).
  - intros i ms Hi. by apply (reports_ok_by_test i ms).
  - exists res. split; [exact Hres|]. intros x Hx. destruct (res !! 1) as [[score up]|] eqn:E; [|done].
    destruct (Hrange 1 [mkWeightedReputationMeasurements report 80; mkWeightedReputationMeasurements report 60] score up)
      as [Hscore _]; [done| |exact E|by apply Hscore].
    rewrite Forall_cons, Forall_singleton. split; (split; [by vm_compute|]); intros u Hu; vm_compute in Hu; injection Hu as <-; lia.
Defined.

(** The example with two reports on node 1. *)
Definition measured : StateExecutor :=
  set_rep_measurements {[1 := [mkReported 0 report; mkReported 2 report]]} example.

Lemma measured_reports : reports_ok measured.
Proof.
  intros i rs r Hi Hr. assert (map_Forall (λ _ rs, Forall (λ r, measurements r = report) rs)
    measured.(rep_measurements)) as Ht.
  { apply map_Forall_singleton. repeat constructor. }
  specialize (Ht i rs Hi). rewrite Forall_forall in Ht. rewrite (Ht r Hr). unfold report. simpl.
  split; intros ? [= <-]; [unfold latency_ok|]; lia.
Defined.

Lemma reputation_epoch_spec_witness :
  ∃ s', executor_calculate_reputation_scores measured = Some (tt, s') ∧ scores_ok s'.
Proof.
  destruct (reputation_epoch_spec measured 2) as (s' & Hrun & Hok & _).
  - by vm_compute.
  - exact example_scores.
  - exact measured_reports.
  - exists s'. exact (conj Hrun Hok).
Defined.

Lemma submit_pod_pool_witness : pool_ok (after (submit_pod (node 1) 250 0) example).
Proof.
  apply (submit_pod_pool (node 1) 250 0 example ExecutionData.None); [exact example_pool|run].
Defined.

Lemma submit_measurements_spec_witness :
  let m := submit_reputation_measurements (node 0) [(1, report); (0, report); (9, report)] in
  ∃ i, only_node example (node 0) = Ok i ∧
    ∀ p, default [] ((after m example).(rep_measurements) !! p)
       = accepted example i p [(1, report); (0, report); (9, report)].
Proof.
  intros m. destruct (submit_measurements_spec (node 0) [(1, report); (0, report); (9, report)]
    example (Success ExecutionData.None) (after m example)) as (i & Hi & _ & Hp); [run|].
  by exists i.
Defined.

(** ** Epochs *)

Lemma get_boost_range_witness : ∃ b, get_boost example 700 3 = Some b ∧ 1000 ≤ b ≤ 4000.
Proof.
  destruct (get_boost_range example 700 3 4 1460) as (b & Hb & Hr & _);
    [by vm_compute|by vm_compute|lia|lia|unfold in_width; lia|unfold in_width; lia|].
  exists b. split; [done|lia].
Defined.

Definition example_rewards : RewardParams :=
  mkRewardParams 80 10 10 10 365 4 1460 (flk 100000) (flk 100000) 200%N.

Lemma example_rewards_ok : rewards_ok example example_rewards.
Proof.
  split; lazymatch goal with |- _ = _ => by vm_compute | _ => idtac end.
  - split_and!; split; by vm_compute.
  - simpl. lia.
  - split_and!; by vm_compute.
  - split; by vm_compute.
  - exact example_ledger.
  - intros n x Hn. unfold example in Hn. simpl in Hn. apply lookup_singleton_Some in Hn as [<- <-]. split; [simpl; lia|].
    exists (example_node 0). split; [done|]. unfold in_width. by vm_compute.
  - by vm_compute.
  - by vm_compute.
  - intros i r Hi. unfold example in Hi. simpl in Hi.
    apply lookup_singleton_Some in Hi as [<- <-]. split; [lia|]. by eexists.
  - by vm_compute.
Defined.


(** With shares of 300 percent for the nodes more than the emissions is minted. *)
Lemma shares_exceed_emissions :
  let s := set_parameters (<[ProtocolParamKey.NodeShare:=ProtocolParamValue.NodeShare 300]> example.(parameters)) example in
  emissions example_rewards < flk_total (after distribute_rewards s) - flk_total s.
Proof. by vm_compute. Qed.

Lemma example_ready : epoch_ready example example_rewards 10 100.
Proof.
  split.
  - exists 2. run.
  - exact example_scores.
  - intros i rs r Hi. by vm_compute in Hi.
  - exact example_rewards_ok.
  - by vm_compute.
  - exact example_content.
  - exists 86400000, 60000, 60000, 1000. split; by vm_compute.
  - exact example_jobs.
  - intros s1 Hrun. rewrite (after_run _ _ _ _ Hrun). by vm_compute.
  - by vm_compute.
Defined.

Lemma execute_epoch_change_spec_witness :
  ∃ s', execute_epoch_change (get_epoch example) Committee_default ∅ example = Some (tt, s') ∧
    get_epoch s' = get_epoch example + 1.
Proof.
  destruct (execute_epoch_change_spec example example_rewards 10 100 Committee_default ∅
    example_ready) as (s' & s1 & c & minted & Hrun & Hepoch & _).
  - unfold in_width. by vm_compute.
  - exists s'. exact (conj Hrun Hepoch).
Defined.

(** ** The committee selection beacon *)

Definition play (l : list (Exec TransactionResponse)) (s : StateExecutor) : StateExecutor :=
  foldl (λ s m, after m s) s l.

Lemma play_steps l s :
  Forall (λ m : Exec TransactionResponse, ∀ s r s', m s = Some (r, s') → beacon_step s s') l →
  rtc beacon_step s (play l s).
Proof.
  intros Hl. unfold play. revert s. induction Hl as [|m l Hm _ IH]; intros s; simpl;
    [apply rtc_refl|].
  apply (rtc_l _ s (after m s)); [|apply IH]. unfold after.
  destruct (m s) as [[r s']|] eqn:E; [by eapply Hm|by apply step_other].
Qed.

(** Three of the four nodes ask for the epoch change, all commit, three
    signal the end of the commit phase, all reveal and two signal the end of
    the reveal phase. *)
Definition rounds : list (Exec TransactionResponse) :=
  ((λ i, change_epoch (node i) 3) <$> [0; 1; 2]) ++
  ((λ i, committee_selection_beacon_commit (node i) (sha3_beacon 3 0 (Z.to_N (40 + i))))
    <$> indices) ++
  ((λ i, committee_selection_beacon_commit_phase_timeout (node i) 3 0) <$> [0; 1; 2]) ++
  ((λ i, committee_selection_beacon_reveal (node i) (Z.to_N (40 + i))) <$> indices) ++
  ((λ i, committee_selection_beacon_reveal_phase_timeout (node i) 3 0) <$> [0; 1]).

Lemma rounds_steps : Forall (λ m, ∀ s r s', m s = Some (r, s') → beacon_step s s') rounds.
Proof.
  unfold rounds. rewrite !Forall_app, !Forall_fmap.
  split_and!; apply Forall_true; intros i s r s'; simpl; intros Hrun.
  - by eapply step_change_epoch.
  - by eapply step_commit.
  - by eapply step_commit_timeout.
  - by eapply step_reveal.
  - by eapply step_reveal_timeout.
Qed.

Lemma example_fresh : Beacon.fresh (view example).
Proof. split_and!; by vm_compute. Defined.

Lemma beacon_refinement_witness :
  vstep (view example) (view (after (change_epoch (node 0) 3) example)).
Proof.
  apply beacon_refinement. apply (step_change_epoch _ _ (node 0) 3 (Success ExecutionData.None)).
  run.
Defined.

Lemma beacon_invariant_witness : beacon_inv (view (play rounds example)).
Proof.
  exact (beacon_invariant example (play rounds example) example_fresh
    (play_steps rounds example rounds_steps)).
Defined.

Lemma epoch_change_agreement_witness :
  let m := committee_selection_beacon_reveal_phase_timeout (node 2) 3 0 in
  let s := play rounds example in
  get_epoch (after m s) = 3 +[64] 1 ∧ Beacon.fresh (view (after m s)).
Proof.
  intros m s. destruct (epoch_change_agreement example s (node 2) 3 0 (after m s))
    as (_ & _ & _ & _ & Hepoch & Hfresh).
  - exact example_fresh.
  - exact (play_steps rounds example rounds_steps).
  - run.
  - exact (conj Hepoch Hfresh).
Defined.

Lemma slash_node_spec_witness :
  ∃ s', slash_node_after_non_reveal_and_maybe_kick 1 (flk 1) example = Some (tt, s') ∧
    flk_total s' = flk_total example - Z.min (flk 1) (node_flk (example_node 1)).
Proof.
  destruct (slash_node_spec 1 (flk 1) example (example_node 1)
    (mkCommittee indices [] [] [] 1000000 880000 indices ∅) (Value.BlockNumber 7) 1000)
    as (s' & st & c' & Hrun & _ & _ & _ & Htotal & _).
  - exact example_ledger.
  - unfold in_width. by vm_compute.
  - unfold in_width. by vm_compute.
  - run.
  - run.
  - run.
  - run.
  - exists s'. exact (conj Hrun Htotal).
Defined.

(** ** Transactions *)

(** A transaction an account owner signs: [host_plain] accepts any signature. *)
Definition request (sender : TransactionSender) (nonce : Nonce) (m : UpdateMethod)
    : TransactionRequest :=
  UpdateRequest_ (mkUpdateRequest
    match sender with
    | TransactionSender.NodeConsensus _ => TransactionSignature.NodeConsensus 1%N
    | TransactionSender.NodeMain _ => TransactionSignature.NodeMain 1%N
    | TransactionSender.AccountOwner _ => TransactionSignature.AccountOwner 1%N
    end (mkUpdatePayload sender nonce m 1337)).

(** A transfer of more FLK than the account has. *)
Definition overdraft : TransactionRequest :=
  request (owner 0) 1 (UpdateMethod.Transfer (flk 10000) Tokens.FLK 101%N).
Definition payment : TransactionRequest :=
  request (owner 0) 1 (UpdateMethod.Transfer (flk 20) Tokens.FLK 101%N).

Lemma revert_atomic_witness :
  ∃ m, bookkeeping overdraft (set_submitted_rep_measurements m example)
       = Some (tt, after (execute_transaction overdraft) example) ∧
    m = example.(submitted_rep_measurements).
Proof.
  destruct (reverts_run (execute_transaction overdraft) example) as [e Hrun]; [by vm_compute|].
  destruct (revert_atomic overdraft example e _ Hrun) as (m & Hm & Heq).
  exists m. exact (conj Hm (Heq eq_refl)).
Defined.

Lemma nonce_advances_witness :
  account_nonce 100%N (after (execute_transaction payment) example) = 0 +[64] 1.
Proof.
  rewrite (nonce_advances payment example (Success ExecutionData.None)
    (after (execute_transaction payment) example) 100%N); [by vm_compute|run].
Defined.

(** Replaying the payment after another one. *)
Definition paid : StateExecutor := after (execute_transaction payment) example.
Definition second : TransactionRequest :=
  request (owner 0) 2 (UpdateMethod.Transfer (flk 30) Tokens.FLK 102%N).

Lemma paid_on : execute_all [second] paid = Some (tt, after (execute_all [second]) paid).
Proof.
  assert (is_some (execute_all [second] paid) = true) as Htest by (by vm_compute).
  unfold after. by destruct (execute_all [second] paid) as [[[] ?]|].
Qed.

Lemma replay_rejected_witness :
  let s' := after (execute_all [second]) paid in
  ¬ verify_transaction payment s' = Some (Ok tt, payment, s').
Proof.
  intros s'. apply (replay_rejected payment payment example (Success ExecutionData.None) example
    paid [second] s').
  - run.
  - unfold paid. run.
  - exact paid_on.
  - right. split; [by exists 100%N|by vm_compute].
Defined.

Lemma registry_invariant_witness :
  let txn := request (owner 1) 1 (UpdateMethod.Stake (flk 5) 90%N (Some 91%N) (Some 1%N)
               (Some 92%N) (Some 1%N) (Some NodePorts_default)) in
  registry_ok (after (execute_transaction txn) example).
Proof.
  intros txn. apply (registry_invariant txn example (Success ExecutionData.None)).
  - exact example_registry.
  - unfold in_width. by vm_compute.
  - run.
Defined.

Lemma flk_conservation_witness :
  ledger_ok (after (execute_transaction payment) example).
Proof.
  destruct (flk_conservation payment example (Success ExecutionData.None) (after (execute_transaction payment) example))
    as [_ Hok].
  - exact example_ledger.
  - exact example_registry.
  - intros m [= <-]. split; by vm_compute.
  - done.
  - run.
  - apply Hok. by vm_compute.
Defined.

(** A deposit that takes the balance of its sender past 2^256 succeeds, and the sender
    has less than before. *)
Lemma deposit_wraps :
  let amount := 2 ^ 256 - 1 in
  fst <$> deposit (owner 0) amount Tokens.FLK example = Some (Success ExecutionData.None) ∧
  let s' := after (deposit (owner 0) amount Tokens.FLK) example in
  flk_balance (account_or_default s' 100%N) = flk_balance (account_or_default example 100%N) - 1 ∧
  flk_total s' = flk_total example - 1.
Proof. split_and!; by vm_compute. Qed.

(** ** Genesis and the chain *)

(** A genesis with one account and two nodes, the first in the committee. *)
Definition example_genesis_node (i : Z) (committee : bool) : GenesisNode :=
  mkGenesisNode (Z.to_N (100 + i)) (Z.to_N (10 + i)) (Z.to_N (20 + i)) 1%N 1%N (Z.to_N (30 + i))
    NodePorts_default (mkStaking (flk 10) 0 0 0) (Some 50) None committee.

Definition example_genesis : Genesis :=
  mkGenesis 1337 1000 86400000 365 10 100 1000 1 5 10 10 80 10 0 4 1460 2
    [example_genesis_node 0 true; example_genesis_node 1 false]
    [mkGenesisService 0 202%N CommodityTypes.Bandwidth]
    [mkGenesisAccount 100%N (flk 500) 90 0] ∅
    [mkGenesisPrices CommodityTypes.Bandwidth "0.1"]
    100000 200%N 201%N ∅ (Some [mkGenesisLatency 10%N 11%N 5]) 1 8 16 60000 60000 1 0.

(** The members of a concrete list, one by one. *)
Ltac each H :=
  first [ apply list.elem_of_nil in H; done
        | apply list.elem_of_cons in H as [->|H]; [|each H] ].

Lemma example_genesis_ok : genesis_ok example_genesis.
Proof.
  split.
  - by apply (bool_decide_unpack _); vm_compute.
  - by apply (bool_decide_unpack _); vm_compute.
  - by vm_compute.
  - intros n x Hn. each Hn; intros [= <-]; lia.
  - intros n Hn. each Hn; by vm_compute.
  - unfold in_width. by vm_compute.
  - intros a Ha. each Ha. by vm_compute.
  - by vm_compute.
  - intros p Hp. each Hp. eexists. by vm_compute.
  - intros l Hl. each Hl. by apply (bool_decide_unpack _); vm_compute.
Defined.

Lemma genesis_establishes_witness :
  ∃ s, apply_genesis_block example_genesis empty_state = Some (true, s) ∧
    initial example_genesis s.
Proof.
  destruct (genesis_establishes example_genesis example_genesis_ok) as (s & Hrun & Hs & _).
  exists s. exact (conj Hrun Hs).
Defined.

Definition loaded : StateExecutor := after (apply_genesis_block example_genesis) empty_state.

Lemma loaded_run : apply_genesis_block example_genesis empty_state = Some (true, loaded).
Proof.
  assert (match apply_genesis_block example_genesis empty_state with
          | Some (b, _) => b | None => false end = true) as Htest by (by vm_compute).
  unfold loaded, after. by destruct (apply_genesis_block example_genesis empty_state) as [[[] ?]|].
Qed.

(** A tree root, and a backend without checkpoints. *)
Definition plain_root (s : StateExecutor) : Hash32 := N.of_nat (size s.(account_info)).
Definition no_checkpoint (e : Env) : option Hash32 := None.

(** The environment a run of blocks leaves. *)
Definition chain (blocks : list Block) (e : Env)
    : option (list BlockExecutionResponse * Env) :=
  run_blocks plain_root no_checkpoint blocks e.

Definition chain_after (blocks : list Block) (e : Env) : Env :=
  match chain blocks e with Some (_, e') => e' | None => e end.
Definition chain_responses (blocks : list Block) (e : Env) : list BlockExecutionResponse :=
  match chain blocks e with Some (rs, _) => rs | None => [] end.

Lemma chain_run blocks e :
  is_some (chain blocks e) = true →
  chain blocks e = Some (chain_responses blocks e, chain_after blocks e).
Proof. unfold chain_responses, chain_after. by destruct (chain blocks e) as [[]|]. Qed.

(** Two blocks: a payment and an overdraft, then an empty one. *)
Definition example_blocks : list Block :=
  [mkBlock 81%N 1 1 [payment; overdraft]; mkBlock 82%N 2 3 []].

Lemma chain_invariant_witness :
  let e' := chain_after example_blocks (mkEnv loaded 0%N) in
  registry_ok (tables e') ∧ beacon_inv (view (tables e')).
Proof.
  intros e'. apply (chain_invariant plain_root no_checkpoint example_genesis loaded 0%N
    example_blocks (chain_responses example_blocks (mkEnv loaded 0%N))).
  - exact example_genesis_ok.
  - exact loaded_run.
  - by vm_compute.
  - apply (chain_run example_blocks (mkEnv loaded 0%N)). by vm_compute.
Defined.

Lemma chain_typed_witness :
  let e' := chain_after example_blocks (mkEnv loaded 0%N) in
  typed genesis_keys genesis_params (tables e') ∧ is_Some (get_min_stake (tables e')).
Proof.
  intros e'.
  destruct (chain_typed plain_root no_checkpoint example_genesis loaded 0%N
    example_blocks (chain_responses example_blocks (mkEnv loaded 0%N)) e') as (Ht & _ & Hs & _).
  - exact loaded_run.
  - by vm_compute.
  - apply (chain_run example_blocks (mkEnv loaded 0%N)). by vm_compute.
  - by split.
Defined.

(** The example network after the transactions of [rounds] but the last. *)
Definition closing : TransactionRequest :=
  request (node 2) 1 (UpdateMethod.CommitteeSelectionBeaconRevealPhaseTimeout 3 0).
Definition joining : TransactionRequest :=
  request (owner 1) 1 (UpdateMethod.Stake (flk 400) 90%N (Some 91%N) (Some 1%N) (Some 92%N)
    (Some 1%N) (Some NodePorts_default)).

Definition receipt_test (block : Block) (e : Env) (n : BlockNumber) : bool :=
  match run plain_root no_checkpoint block e, get_block_number (tables e) with
  | Some _, Some (m, _) => bool_decide (m = n)
  | _, _ => false
  end.

Lemma receipt_run block e n :
  receipt_test block e n = true →
  (∃ r e', run plain_root no_checkpoint block e = Some (r, e')) ∧
  ∀ m, get_block_number (tables e) = Some (m, tables e) → m = n.
Proof.
  unfold receipt_test. destruct (run _ _ block e) as [[r e']|]; [|done].
  destruct (get_block_number (tables e)) as [[m s]|]; [|done].
  intros Ht. apply bool_decide_eq_true in Ht as ->. split; [eauto|]. by intros m' [= ->].
Qed.

Lemma run_block_spec_witness :
  let block := mkBlock 81%N 1 1 [joining; closing] in
  let e := mkEnv (play rounds example) 5%N in
  ∃ r e', run plain_root no_checkpoint block e = Some (r, e') ∧
    block_number r = 8 ∧ length (txn_receipts r) = 2%nat ∧ new_state_root r = 5%N ∧
    ∃ rc, txn_receipts r !! 1%nat = Some rc ∧ transaction_hash rc = hash closing.
Proof.
  intros block e. destruct (receipt_run block e 7) as ((r & e' & E) & H7); [by vm_compute|].
  destruct (run_block_spec plain_root no_checkpoint block e r e' E)
    as (n & states & Hn & Hnum & _ & _ & _ & _ & Hlen & _ & _ & _ & Hrc & _ & _ & Hnew).
  exists r, e'. split_and!; [exact E| |exact Hlen|exact Hnew|].
  - rewrite (H7 n Hn) in Hnum. exact Hnum.
  - destruct (Hrc 1%nat closing eq_refl) as (s & rc & s' & _ & Hi & _ & (Hh & _) & _).
    exists rc. exact (conj Hi Hh).
Defined.

(** The registry changes of a block whose last transaction ends the epoch are
    missing from its response, which reads the committee of the new epoch;
    without that transaction they are there. *)
Definition reported (block : Block) (e : Env) : option (bool * list NodePublicKey) :=
  '(r, _) ← run plain_root no_checkpoint block e;
  Some (block_change_epoch r, fst <$> block_node_registry_changes r).

Lemma registry_changes_lost :
  let e := mkEnv (play rounds example) 5%N in
  reported (mkBlock 81%N 1 1 [joining]) e = Some (false, [90%N]) ∧
  reported (mkBlock 81%N 1 1 [joining; closing]) e = Some (true, []).
Proof. split; by vm_compute. Qed.

(** ** Blocks as bytes *)

(** Requests that increment a nonce as their fields; Ethereum transactions as
    their fields, absent options as a zero flag. *)
Definition option_bytes (o : option Z) : Bytes :=
  match o with Some v => [1; v] | None => [0; 0] end.
Definition bytes_option (flag v : Z) : option Z := if bool_decide (flag = 1) then Some v else None.

Definition codec_fields : Codec := {|
  bincode_serialize r :=
    match r with
    | mkUpdateRequest (TransactionSignature.AccountOwner sig)
        (mkUpdatePayload (TransactionSender.AccountOwner pk) nonce UpdateMethod.IncrementNonce id) =>
        Some [Z.of_N sig; Z.of_N pk; nonce; id]
    | _ => None
    end;
  bincode_deserialize bs :=
    match bs with
    | [sig; pk; nonce; id] =>
        Some (mkUpdateRequest (TransactionSignature.AccountOwner (Z.to_N sig))
          (mkUpdatePayload (TransactionSender.AccountOwner (Z.to_N pk)) nonce
             UpdateMethod.IncrementNonce id))
    | _ => None
    end;
  eth_rlp t :=
    [Z.of_N (eth_hash t); eth_nonce t; Z.of_N (eth_from t)] ++ option_bytes (Z.of_N <$> eth_to t)
    ++ [eth_value t] ++ option_bytes (eth_chain_id t) ++ [Z.of_N (eth_signature t)]
    ++ eth_input t;
  rlp_decode bs :=
    match bs with
    | h :: nonce :: from :: to_flag :: to :: value :: id_flag :: id :: sig :: input =>
        Some (mkEthersTransaction (Z.to_N h) nonce (Z.to_N from) (Z.to_N <$> bytes_option to_flag to)
          value input (bytes_option id_flag id) (Z.to_N sig))
    | _ => None
    end;
  rlp_canonical _ := True;
  size_of_transaction := 500
|}.

Lemma codec_fields_laws : CodecLaws codec_fields.
Proof.
  split; simpl.
  - intros r bs Hr. destruct r as [[] [[] nonce [] id]]; simplify_eq/=. by rewrite !N2Z.id.
  - intros [h nonce from to value input id sig] _. destruct to, id; simpl; by rewrite !N2Z.id.
Qed.

Lemma block_roundtrip_witness :
  let b := mkBlock 81%N 1 2 [request (owner 0) 1 UpdateMethod.IncrementNonce;
    EthereumRequest (mkEthersTransaction 5%N 1 100%N (Some 101%N) (flk 20) [7] (Some 1337) 1%N)] in
  ∃ bs, @block_to_bytes codec_fields b = Ok bs ∧
    @block_from_bytes codec_fields (bs ++ [9; 9]) = Some (Ok b).
Proof.
  intros b. eexists. split; [by vm_compute|].
  apply (@block_roundtrip codec_fields codec_fields_laws b); [by vm_compute|by repeat constructor|..];
    unfold in_width; by vm_compute.
Defined.

(** ** Queries *)

Lemma registry_page_witness :
  ∃ page, query_node_registry example (Some (mkNodePagingParams false 1 2)) = Some page ∧
    StronglySorted (λ a b, a.1 < b.1) page ∧ (length page ≤ 2)%nat ∧
    (∀ i n, (i, n) ∈ page → example.(node_info) !! i = Some n ∧ eligible false example n ∧ 1 ≤ i) ∧
    (∀ i n, example.(node_info) !! i = Some n → eligible false example n → 1 ≤ i →
       (i, n) ∈ page ∨ (length page = 2%nat ∧ ∀ r, r ∈ page → r.1 < i)).
Proof. exact (registry_page example false 1 2). Defined.
